(* ===== verification/_CoqProject ===== *)
-Q . S2P
Prelude.v
Words.v
Md32.v
HashSpec.v
Rounds.v
Sha1.v
Sha256.v
ConstTime.v
Base64.v
Cbs.v
Der.v
Asn1.v
Cbb.v
Builder.v
DerTree.v
Unicode.v
MbString.v
AsnString.v
AsnInt.v
AsnHeader.v
Julian.v
AsnTime.v
AsnTimeConv.v
Oid.v
SetOf.v
Ber.v
Heap.v
Timer.v
PbStream.v
PbWire.v
PbRoundtrip.v
PbMemory.v
PbTable.v
PbImage.v
PbLayout.v
PbDecode.v
PbEncode.v
PbHeap.v
PbInput.v
PbOwn.v
PbValues.v
PbInit.v
PbRelease.v
PbFields.v
PbPointers.v
PbMessages.v
PbExample.v
PbSafety.v
PbEdge.v
PbOutput.v
PbWritten.v
PbRegion.v
PbReread.v
PbReadback.v
PbComplete.v
PbRequired.v
PbMessageRoundtrip.v
