(* ===== verification/Prelude.v ===== *)
(** * Verification of the C code of nginepyuk-mobile

    The repository is a Flutter application.  Its own code is Dart; the C in it is what the iOS
    build compiles from [ios/Pods]: BoringSSL and libuv below gRPC and nanopb below Firebase.  This
    development models the byte-level layers of BoringSSL that parse, build and digest untrusted
    data, the timers of libuv, and nanopb.  Paths below are relative to
    [ios/Pods/BoringSSL-GRPC/src], those of libuv and nanopb to [ios/Pods].

    ** Parts

    - [Prelude] (this file): machine words as [Z] with explicit wrap-around, byte strings, the
      state-and-failure monad, tactics and hint databases, facts on big- and little-endian values.
    - [Words]: byte swaps, loads, stores and rotations of [crypto/internal.h].
    - [ConstTime]: the branch-free comparisons and selections of [crypto/internal.h].
    - [Cbs]: [crypto/bytestring/cbs.c].  A [CBS] is the list of bytes it covers; a reader is a
      function in the monad, which returns the rest also when it fails, as the C code does.
    - [Der]: the distinguished encoding rules as a specification, and that the element parser of
      [Cbs] accepts exactly these encodings; [Asn1]: the same for integers, booleans, optional fields.
    - [Cbb]: [crypto/bytestring/cbb.c].  A store of builder objects by address over one growable or
      fixed buffer; children are reached through the parents' pointers and length prefixes are
      placeholders that are patched, or widened, on flush.
    - [Builder]: the contract of [Cbb], a stack of open elements, and the refinement: every sequence
      of calls on the tree of objects produces what the stack produces.  [DerTree] composes it with
      [Cbs]: a written tree of elements is read back.
    - [Unicode]: [crypto/bytestring/unicode.c]; the class [Charset] states what a pair of reader and
      writer promises, with the four encodings as instances.  [MbString]: the transcoder of
      [crypto/asn1/a_mbstr.c], proved against [Charset].
    - [AsnString]: [ASN1_STRING] and BIT STRING, [asn1_lib.c], [a_bitstr.c]; [AsnInt]: INTEGER and
      ENUMERATED objects and their contents octets, [a_int.c], [a_enum.c]; [AsnHeader]: tags
      and lengths as the older functions of [asn1_lib.c] write and read them, and BOOLEAN, [a_bool.c].
    - [Julian]: calendar arithmetic, [crypto/asn1/time_support.c]; [AsnTime]: parsing, printing and
      comparing UTCTime and GeneralizedTime, [a_utctm.c], [a_gentm.c], [a_time.c]; [AsnTimeConv]: conversions.
    - [Oid]: object identifiers to and from text; [SetOf]: the sorting of SET OF and the i2d output
      convention; [Ber]: [crypto/bytestring/ber.c].
    - [Base64]: [crypto/base64/base64.c], blocks and both streaming halves.
    - [Md32]: the collector of [crypto/fipsmodule/digest/md32_common.h], proved against the class
      [Md32Block] of block functions; [HashSpec]: ingredients of FIPS 180-4; [Rounds]: registers with
      rotating roles and the sixteen-word schedule window, shared by [Sha1] and [Sha256]
      ([crypto/fipsmodule/sha/sha1.c], [sha256.c]), whose instances of [Md32Block] connect the
      unrolled code to the standard.

    - [Heap]: [Libuv-gRPC/src/heap-inl.h], the binary heap of linked nodes on a store of nodes by
      address, against any [HeapOrder]; [Timer]: [Libuv-gRPC/src/timer.c] over it, with the order of
      expiry times as the instance, and the abstract machine of timers that it refines.

    - [PbStream]: [nanopb/pb_encode.c] and [pb_decode.c] below the message tables: streams with any
      callback, numbers, tags, skipping, substreams, nested messages, scalar fields, packed arrays.
      [PbWire] specifies the wire format and proves each encoder and decoder against the classes
      [SourceOk] and [SinkOk] of callbacks, with the buffers as instances; [PbRoundtrip] composes them.
    - [PbMemory]: bytes by address, the blocks of [malloc], and computations with undefined behaviour.
      [PbTable]: the tables that describe messages and the iterator of [pb_common.c].  [PbDecode]:
      the rest of [pb_decode.c], the whole message decoder on that memory; [PbEncode]: the rest of
      [pb_encode.c].  Recursive C functions take the depth of the stack they may use.
    - The memory safety of the decoder is proved in separation logic: [PbHeap] defines assertions on
      memories as an instance of the BI interface of Iris and a weakest precondition for computations;
      [PbImage] and [PbLayout] describe C structures and the tables that fit them; [PbOwn] what a
      message owns.  Then the code bottom up: [PbInput] (streams), [PbValues] (the functions of
      [PB_DECODERS]), [PbInit] (defaults), [PbRelease], [PbFields] (static fields), [PbPointers]
      (pointer fields), [PbMessages] (unions and the message loop).  [PbExample] has tables and an
      allocator that meet all assumptions; [PbSafety] states the results without the logic.
    - [PbEdge]: inputs and tables outside the assumptions, on which nanopb misbehaves.
    - [PbOutput] specifies the wire image of a message in memory, without streams and passes;
      [PbWritten] proves that the encoder writes it.  [PbRegion] describes decoders that take bytes
      and change an object; [PbReread] (values), [PbReadback] (fields), [PbRequired] (the bitmap of
      required fields) and [PbMessageRoundtrip] lead to the round trip of whole messages.
      [PbComplete] adds that structures of static fields always have a wire image, and concludes.

    ** What the theorems show

    - Readers: exactness.  A reader succeeds precisely on the encodings of the specification, and
      returns their value and the rest ([Der], [Asn1], [Unicode]); no element is a prefix of another.
    - Builders: refinement of the contract over a growable and over a fixed buffer, round trips
      through the readers, and the order of SET OF.
    - Text: OIDs and base64 in both directions, whatever the pieces given to a streaming call.
    - Hashes: whatever the pieces of a message, the collector and the unrolled rounds compute the
      hash of the standard.
    - Objects: the contents octets of BIT STRING and INTEGER are read and written back exactly, in
      agreement with the readers of [Cbs]; integers are set, read and compared as the numbers they hold.
    - Times: the day-number formulas are the Gregorian calendar, offsets and differences are exact, and
      what is printed is read back as the same moment.
    - Timers: the heap stays a complete ordered tree through every operation; operations on timers
      refine a machine that has no heap; a pass over the due timers ends, in order, nothing left due.
    - Messages: what the encoders write to any stream with room, the decoders read from any stream.
    - Decoding a message: for any input, [pb_decode] returns, without an undefined access, and
      touches only the structure and what it allocates ([PbSafety.pb_decode_returns]); it leaks
      nothing when it fails, and [pb_release] gives back everything when it succeeds.
    - Encoding a message: [PbComplete.pb_encode_exact] gives the bytes and the failures for every table,
      callbacks and extensions included, through their interface; [PbMessageRoundtrip.pb_message_roundtrip]
      reads them back.
    - Theorems that prove defects: [Ber.overlooked_ber], [MbString.ASN1_mbstring_ncopy_dangling],
      [PbRoundtrip.pb_varint32_overflow_missed], and those of [PbEdge].

    ** Conventions, bounds and fuel

    [size_t] and [crypto_word_t] are 64 bits wide.  A length is below 2^64, which the theorems ask
    for where it matters.  The allocator is the class [Cbb.Allocator]: which sizes it grants, and
    the contents of fresh memory.  An output pointer is an array and an index.  Loops over the input
    recurse on the input; where a loop has fuel, the fuel is the length of what it consumes plus
    one, and the exactness theorems, which also state when a call succeeds, show that it is enough.
    The walks in the heap have the number of nodes as fuel, a pass over the timers the number of
    handles plus one.
    The calls of the message decoder have the depth of the C stack as fuel.  A stack of [2 * k] frames
    is enough when [k] is two more than the nesting of structures by value plus the bytes of the
    input: each nested message takes at least one byte of it.  The theorems on tables ask that the
    table describes its structure ([TablesFit]: fields inside the structure, apart unless they share
    a union, default values as long as their fields, no pointers in static arrays of messages, arrays
    of fixed length of at least four bytes), that it has no callback fields and no extensions, and
    that no block has 4 GiB, since the offset of an array item is computed in 32 bits.
    The encoder has the depth of the C stack as fuel, as has the wire image, which is not defined
    where that is not enough or the memory holds no message; one more than the nesting of the
    structures is enough when all fields are static.  Strings in memory have the number of cells of
    the memory as fuel, which no string exceeds.  The round trip is about static fields ([StaticTables]): required, optional with a
    flag, and packed arrays with a count; strings end within their arrays ([terminated]), and the
    message is shorter than 4 GiB.  Pointer fields, unions, arrays of messages and implicit
    presence are in the theorems on the encoder and in those on the decoder, apart.
    The build defines [OPENSSL_NO_ASM], so the portable C is the code that runs.

    ** Not modelled

    Of nanopb, the functions that callbacks and extensions of the user run, which are parameters.  Of
    libuv, what calls the system.
    Allocation-only functions, the time parsers of [cbs.c], assembly, tables and field arithmetic of the
    public-key code, the table-driven ASN.1 engine, TLS and everything in C++, Objective-C and
    Dart.  The value barriers of the constant-time code are the identity: timing is not a property of
    this model. *)
From stdpp Require Export base tactics numbers list.
From Stdlib Require Export ZArith Lia.
#[global] Open Scope Z_scope.
#[export] Set Warnings "-clear-no-such-hyp,-register-all".

(** ** Machine words

    A [w]-bit unsigned C integer is a [Z] in [0, 2^w); every place where the C
    arithmetic can wrap applies one of the wrap functions below. *)

Definition is_uint (w x : Z) : Prop := 0 ≤ x < 2 ^ w.
Abbreviation is_u8 := (is_uint 8).
Abbreviation is_u16 := (is_uint 16).
Abbreviation is_u32 := (is_uint 32).
Abbreviation is_u64 := (is_uint 64).

Definition wrap (w x : Z) : Z := x mod 2 ^ w.
Abbreviation u8 := (wrap 8).
Abbreviation u16 := (wrap 16).
Abbreviation u32 := (wrap 32).
Abbreviation u64 := (wrap 64).

(** Two's complement reading of a [w]-bit word. *)
Definition swrap (w x : Z) : Z :=
  let y := wrap w x in if y <? 2 ^ (w - 1) then y else y - 2 ^ w.
Abbreviation s32 := (swrap 32).
Abbreviation s64 := (swrap 64).

(** The largest [int]. *)
Definition INT_MAX : Z := 2 ^ 31 - 1.

Declare Scope word_scope.
Delimit Scope word_scope with W.
Notation "x .& y" := (Z.land x y) (at level 40, left associativity) : word_scope.
Notation "x .| y" := (Z.lor x y) (at level 50, left associativity) : word_scope.
Notation "x .^ y" := (Z.lxor x y) (at level 45, left associativity) : word_scope.
Notation "x >>> n" := (Z.shiftr x n) (at level 38, left associativity) : word_scope.
Notation "x <<32 n" := (wrap 32 (Z.shiftl x n)) (at level 38, left associativity) : word_scope.
Notation "x <<64 n" := (wrap 64 (Z.shiftl x n)) (at level 38, left associativity) : word_scope.
#[global] Open Scope word_scope.

(** ** Bytes and byte strings *)

Abbreviation bytes := (list Z).
Definition bytes_ok (l : bytes) : Prop := Forall is_u8 l.
Definition zlen {A} (l : list A) : Z := Z.of_nat (length l).

(** Big-endian value and its inverse (the [n] low bytes of [v]). *)
Definition be_val (l : bytes) : Z := foldl (λ r b, r * 256 + b) 0 l.
Fixpoint be_bytes (n : nat) (v : Z) : bytes :=
  match n with
  | O => []
  | S k => (v / 256 ^ Z.of_nat k) mod 256 :: be_bytes k v
  end.

(** Little-endian value and its inverse. *)
Fixpoint le_val (l : bytes) : Z :=
  match l with [] => 0 | b :: l => b + 256 * le_val l end.
Fixpoint le_bytes (n : nat) (v : Z) : bytes :=
  match n with O => [] | S k => v mod 256 :: le_bytes k (v / 256) end.

(** ** State and failure

    A C function that works on an object of type [S] through a pointer, writes its
    results through out-parameters and returns an [int] flag is a function
    [S → option A * S]: [None] is the zero return, and the state is returned in
    both cases because a failing function may already have changed it. *)

Definition st (S A : Type) : Type := S → option A * S.
#[global] Instance st_ret S : MRet (st S) := λ A a s, (Some a, s).
#[global] Instance st_bind S : MBind (st S) := λ A B f m s,
  match m s with
  | (Some a, s') => f a s'
  | (None, s') => (None, s')
  end.
Definition st_fail {S A} : st S A := λ s, (None, s).
Definition st_get {S} : st S S := λ s, (Some s, s).
Definition st_put {S} (s : S) : st S unit := λ _, (Some tt, s).
Definition st_modify {S} (f : S → S) : st S unit := λ s, (Some tt, f s).
(** [if (!b) return 0;] *)
Definition st_assert {S} (b : bool) : st S unit := λ s, (if b then Some tt else None, s).
(** Run a function on a local object: the caller's object is untouched. *)
Definition st_local {S T A} (m : st T A) (t : T) : st S (A * T) := λ s,
  match m t with
  | (Some a, t') => (Some (a, t'), s)
  | (None, _) => (None, s)
  end.

(** ** Tactics *)

(** [lia] also reasons about division and remainder by constants. *)
Ltac Zify.zify_post_hook ::= Z.to_euclidean_division_equations.

Ltac word_bounds := unfold is_uint in *; change (2 ^ 8) with 256 in *;
  change (2 ^ 16) with 65536 in *; change (2 ^ 32) with 4294967296 in *;
  change (2 ^ 64) with 18446744073709551616 in *.
Ltac word_lia := word_bounds; try lia.

Ltac eval_pow2 := change (2 ^ 8) with 256 in *; change (2 ^ 16) with 65536 in *;
  change (2 ^ 24) with 16777216 in *; change (2 ^ 32) with 4294967296 in *.

Create HintDb words.
Create HintDb bytesdb.
Create Rewrite HintDb bytesdb.

(** ** Words: generic facts *)

Lemma wrap_is_uint w x : 0 ≤ w → is_uint w (wrap w x).
Proof. intros. apply Z.mod_pos_bound, Z.pow_pos_nonneg; lia. Qed.
Lemma wrap_small w x : is_uint w x → wrap w x = x.
Proof. apply Z.mod_small. Qed.
Lemma s32_id x : - 2 ^ 31 ≤ x < 2 ^ 31 → s32 x = x.
Proof.
  intros Hx. unfold swrap, wrap. change (2 ^ 32) with 4294967296. change (2 ^ (32 - 1)) with 2147483648. change (2 ^ 31) with 2147483648 in Hx.
  destruct (Z.ltb_spec (x mod 4294967296) 2147483648); lia.
Qed.
Lemma s64_id x : - 2 ^ 63 ≤ x < 2 ^ 63 → s64 x = x.
Proof.
  intros Hx. unfold swrap, wrap. change (2 ^ 64) with 18446744073709551616. change (2 ^ (64 - 1)) with 9223372036854775808. change (2 ^ 63) with 9223372036854775808 in Hx.
  destruct (Z.ltb_spec (x mod 18446744073709551616) 9223372036854775808); lia.
Qed.
Lemma is_uint_mono w w' x : 0 ≤ w ≤ w' → is_uint w x → is_uint w' x.
Proof. intros ? [??]. split; [done|]. pose proof (Z.pow_le_mono_r 2 w w'). lia. Qed.
#[export] Hint Resolve wrap_is_uint : words.
#[export] Hint Extern 2 (0 ≤ _) => lia : words.

Lemma pow2_pos w : 0 ≤ w → 0 < 2 ^ w.
Proof. apply Z.pow_pos_nonneg. lia. Qed.

Lemma uint_bits_high w x i : 0 ≤ w → is_uint w x → w ≤ i → Z.testbit x i = false.
Proof.
  intros Hw [H0 H1] Hi. destruct (decide (x = 0)) as [->|]; [apply Z.bits_0|].
  apply Z.bits_above_log2; [done|]. apply Z.log2_lt_pow2; [lia|].
  apply Z.lt_le_trans with (2 ^ w); [done|]. apply Z.pow_le_mono_r; lia.
Qed.

Lemma uint_of_bits w x : 0 ≤ w → 0 ≤ x → (∀ i, w ≤ i → Z.testbit x i = false) → is_uint w x.
Proof.
  intros Hw Hx Hb. split; [done|]. destruct (decide (x = 0)) as [->|]; [by apply pow2_pos|].
  apply Z.log2_lt_pow2; [lia|]. apply Z.nle_gt. intros Hl.
  specialize (Hb _ Hl). rewrite Z.bit_log2 in Hb; [done|lia].
Qed.

Lemma is_uint_land w x y : 0 ≤ w → is_uint w x → is_uint w (Z.land x y).
Proof.
  intros Hw Hx. assert (0 ≤ x) by apply Hx. apply uint_of_bits; [done| |].
  - apply Z.land_nonneg. auto.
  - intros i Hi. rewrite Z.land_spec, (uint_bits_high w x i); auto.
Qed.
Lemma is_uint_lor w x y : 0 ≤ w → is_uint w x → is_uint w y → is_uint w (Z.lor x y).
Proof.
  intros Hw Hx Hy. apply uint_of_bits; [done| |].
  - apply Z.lor_nonneg. split; [apply Hx|apply Hy].
  - intros i Hi. rewrite Z.lor_spec, !(uint_bits_high w) by auto. done.
Qed.
Lemma is_uint_lxor w x y : 0 ≤ w → is_uint w x → is_uint w y → is_uint w (Z.lxor x y).
Proof.
  intros Hw Hx Hy. apply uint_of_bits; [done| |].
  - apply Z.lxor_nonneg. split; intros; [apply Hy|apply Hx].
  - intros i Hi. rewrite Z.lxor_spec, !(uint_bits_high w) by auto. done.
Qed.
Lemma is_uint_shiftr w x n : 0 ≤ w → 0 ≤ n → is_uint w x → is_uint w (Z.shiftr x n).
Proof.
  intros Hw Hn [H0 H1]. rewrite Z.shiftr_div_pow2 by done.
  pose proof (pow2_pos n Hn). split; [apply Z.div_pos; lia|].
  apply Z.le_lt_trans with x; [|done]. apply Z.div_le_upper_bound; nia.
Qed.
#[export] Hint Resolve is_uint_land is_uint_lor is_uint_lxor is_uint_shiftr : words.

(** [(a << n) | b] is [a * 2^n + b] when [b] fits in the vacated bits. *)
Lemma lor_shiftl_add a n b : 0 ≤ n → is_uint n b → Z.lor (Z.shiftl a n) b = a * 2 ^ n + b.
Proof.
  intros Hn Hb. rewrite <- Z.shiftl_mul_pow2 by done.
  rewrite <- Z.add_lor_land. replace (Z.land _ b) with 0; [lia|].
  symmetry. apply Z.bits_inj'. intros i Hi. rewrite Z.land_spec, Z.bits_0.
  destruct (decide (i < n)).
  - by rewrite Z.shiftl_spec_low.
  - rewrite (uint_bits_high n b i) by (auto; lia). apply andb_false_r.
Qed.

Lemma land_split n x m1 m0 : 0 ≤ n → is_uint n m0 →
  Z.land x (m1 * 2 ^ n + m0) = Z.land (x / 2 ^ n) m1 * 2 ^ n + Z.land (x mod 2 ^ n) m0.
Proof.
  intros Hn Hm. pose proof (pow2_pos n Hn). assert (is_uint n (Z.land (x mod 2 ^ n) m0)).
  { apply is_uint_land; [done|]. by apply Z.mod_pos_bound. }
  rewrite <- (lor_shiftl_add m1 n m0), <- (lor_shiftl_add _ n (Z.land (x mod _) m0)) by done.
  apply Z.bits_inj'. intros i Hi. rewrite Z.land_spec, !Z.lor_spec.
  destruct (Z.lt_ge_cases i n).
  - rewrite !Z.shiftl_spec_low by done. by rewrite Z.land_spec, Z.mod_pow2_bits_low by done.
  - rewrite !Z.shiftl_spec_high, Z.land_spec, <- Z.shiftr_div_pow2, Z.shiftr_spec by lia.
    rewrite Z.sub_add, (uint_bits_high n m0), (uint_bits_high n (Z.land _ m0)) by done. by rewrite !orb_false_r.
Qed.

Lemma lor_split n x1 x0 y1 y0 : 0 ≤ n → is_uint n x0 → is_uint n y0 →
  Z.lor (x1 * 2 ^ n + x0) (y1 * 2 ^ n + y0) = Z.lor x1 y1 * 2 ^ n + Z.lor x0 y0.
Proof.
  intros Hn Hx Hy. rewrite <- !lor_shiftl_add by auto using is_uint_lor.
  rewrite Z.shiftl_lor. apply Z.bits_inj'. intros i Hi. rewrite !Z.lor_spec.
  by destruct (Z.testbit (Z.shiftl x1 n) i), (Z.testbit x0 i), (Z.testbit (Z.shiftl y1 n) i), (Z.testbit y0 i).
Qed.

Lemma land_ones_mod x n : 0 ≤ n → Z.land x (2 ^ n - 1) = x mod 2 ^ n.
Proof. intros. rewrite <- Z.land_ones by done. f_equal. rewrite Z.ones_equiv. lia. Qed.
Lemma land_1 x : Z.land x 1 = x mod 2. Proof. apply (land_ones_mod x 1). lia. Qed.
Lemma land_7 x : Z.land x 0x7 = x mod 8. Proof. apply (land_ones_mod x 3). lia. Qed.
Lemma land_0f x : Z.land x 0xf = x mod 16. Proof. apply (land_ones_mod x 4). lia. Qed.
Lemma land_1f x : Z.land x 0x1f = x mod 32. Proof. apply (land_ones_mod x 5). lia. Qed.
Lemma land_3f x : Z.land x 0x3f = x mod 64. Proof. apply (land_ones_mod x 6). lia. Qed.
Lemma land_7f x : Z.land x 0x7f = x mod 128. Proof. apply (land_ones_mod x 7). lia. Qed.
Lemma land_ff x : Z.land x 0xff = x mod 256. Proof. apply (land_ones_mod x 8). lia. Qed.

Lemma shiftr_div x n : 0 ≤ n → Z.shiftr x n = x / 2 ^ n.
Proof. apply Z.shiftr_div_pow2. Qed.

(** A statement about one byte, checked on all 256 values. *)
Definition all_bytes : list Z := seqZ 0 256.
Lemma byte_cases (P : Z → bool) : forallb P all_bytes = true → ∀ b, is_u8 b → P b = true.
Proof.
  intros HP b Hb. rewrite forallb_forall in HP. apply HP.
  apply list_elem_of_In, elem_of_seqZ. word_lia.
Qed.
Ltac byte_crush b Hb :=
  revert b Hb; 
  match goal with |- ∀ b, is_u8 b → ?P => 
    let Q := constr:(λ b : Z, bool_decide P) in
    intros b Hb; apply (bool_decide_eq_true_1 _); revert b Hb;
    apply (byte_cases Q); vm_compute; reflexivity
  end.

(** ** Byte strings: generic facts *)

Lemma zlen_nonneg {A} (l : list A) : 0 ≤ zlen l.
Proof. unfold zlen. lia. Qed.
Lemma zlen_app {A} (l k : list A) : zlen (l ++ k) = zlen l + zlen k.
Proof. unfold zlen. rewrite length_app. lia. Qed.
Lemma zlen_cons {A} (x : A) l : zlen (x :: l) = 1 + zlen l.
Proof. unfold zlen. simpl. lia. Qed.
Lemma zlen_nil {A} : zlen (@nil A) = 0.
Proof. done. Qed.
Lemma to_nat_zlen {A} (l : list A) : Z.to_nat (zlen l) = length l.
Proof. unfold zlen. lia. Qed.
#[export] Hint Rewrite @zlen_app @zlen_cons @zlen_nil @to_nat_zlen : bytesdb.

Lemma take_app_zlen {A} (l k : list A) : take (Z.to_nat (zlen l)) (l ++ k) = l.
Proof. rewrite to_nat_zlen. apply take_app_length. Qed.
Lemma drop_app_zlen {A} (l k : list A) : drop (Z.to_nat (zlen l)) (l ++ k) = k.
Proof. rewrite to_nat_zlen. apply drop_app_length. Qed.

Lemma bytes_ok_nil : bytes_ok [].
Proof. constructor. Qed.
Lemma bytes_ok_cons b l : bytes_ok (b :: l) ↔ is_u8 b ∧ bytes_ok l.
Proof. apply Forall_cons. Qed.
Lemma bytes_ok_app l k : bytes_ok (l ++ k) ↔ bytes_ok l ∧ bytes_ok k.
Proof. apply Forall_app. Qed.
Lemma bytes_ok_take n l : bytes_ok l → bytes_ok (take n l).
Proof. apply Forall_take. Qed.
Lemma bytes_ok_drop n l : bytes_ok l → bytes_ok (drop n l).
Proof. apply Forall_drop. Qed.
#[export] Hint Resolve bytes_ok_nil bytes_ok_take bytes_ok_drop : bytesdb.

Ltac bytes_ok_tac := unfold bytes_ok; repeat (apply Forall_cons_2; [word_lia|]); apply Forall_nil_2.

Lemma length_be_bytes n v : length (be_bytes n v) = n.
Proof. induction n; simpl; auto. Qed.
Lemma zlen_be_bytes n v : zlen (be_bytes n v) = Z.of_nat n.
Proof. unfold zlen. by rewrite length_be_bytes. Qed.
Lemma bytes_ok_be_bytes n v : bytes_ok (be_bytes n v).
Proof. induction n; simpl; constructor; auto. word_lia. Qed.
#[export] Hint Resolve bytes_ok_be_bytes : bytesdb.

Lemma be_val_acc l a : foldl (λ r b, r * 256 + b) a l = a * 256 ^ zlen l + be_val l.
Proof.
  unfold be_val. revert a. induction l as [|b l IH]; intros a; cbn [foldl].
  - rewrite zlen_nil. lia.
  - rewrite zlen_cons, (IH (a * 256 + b)), (IH (0 * 256 + b)).
    rewrite Z.pow_add_r by (pose proof (zlen_nonneg l); lia). nia.
Qed.
Lemma be_val_app l k : be_val (l ++ k) = be_val l * 256 ^ zlen k + be_val k.
Proof. unfold be_val. rewrite foldl_app. apply be_val_acc. Qed.
Lemma be_val_cons b l : be_val (b :: l) = b * 256 ^ zlen l + be_val l.
Proof. unfold be_val. simpl. apply be_val_acc. Qed.
Lemma be_val_snoc l b : be_val (l ++ [b]) = be_val l * 256 + b.
Proof. rewrite be_val_app. reflexivity. Qed.

Lemma be_val_bound l : bytes_ok l → 0 ≤ be_val l < 256 ^ zlen l.
Proof.
  induction l as [|b l IH]; intros Hl; [done|].
  apply bytes_ok_cons in Hl as [Hb Hl]. specialize (IH Hl).
  rewrite be_val_cons, zlen_cons, Z.pow_add_r by (pose proof (zlen_nonneg l); lia).
  word_lia. nia.
Qed.

Lemma pow256_pow2 n : 0 ≤ n → 256 ^ n = 2 ^ (8 * n).
Proof. intros. change 256 with (2 ^ 8). by rewrite <- Z.pow_mul_r by lia. Qed.

Lemma be_val_be_bytes n v : be_val (be_bytes n v) = v mod 256 ^ Z.of_nat n.
Proof.
  induction n as [|n IH].
  - simpl. by rewrite Z.mod_1_r.
  - cbn [be_bytes]. rewrite be_val_cons, zlen_be_bytes, IH.
    rewrite Nat2Z.inj_succ, Z.pow_succ_r, (Z.mul_comm 256) by lia.
    rewrite Z.rem_mul_r by (try apply Z.pow_nonzero; lia). lia.
Qed.
Lemma be_val_be_bytes_small n v : 0 ≤ v < 256 ^ Z.of_nat n → be_val (be_bytes n v) = v.
Proof. intros. rewrite be_val_be_bytes. by apply Z.mod_small. Qed.

Lemma be_bytes_be_val l : bytes_ok l → be_bytes (length l) (be_val l) = l.
Proof.
  intros Hl. cut (∀ a, be_bytes (length l) (a * 256 ^ zlen l + be_val l) = l).
  { intros H. specialize (H 0). by rewrite Z.mul_0_l, Z.add_0_l in H. }
  induction l as [|b l IH]; intros a; [done|].
  apply bytes_ok_cons in Hl as [Hb Hl].
  pose proof (be_val_bound l Hl). pose proof (zlen_nonneg l).
  cbn [be_bytes length]. change (Z.of_nat (length l)) with (zlen l).
  rewrite be_val_cons, zlen_cons, Z.pow_add_r by lia. f_equal.
  - replace (a * (256 ^ 1 * 256 ^ zlen l) + (b * 256 ^ zlen l + be_val l))
      with (be_val l + (a * 256 + b) * 256 ^ zlen l) by ring.
    rewrite Z.div_add, Z.div_small by lia. rewrite Z.add_0_l, Z.add_comm, Z.mod_add by lia.
    apply Z.mod_small. word_lia.
  - replace (a * (256 ^ 1 * 256 ^ zlen l) + (b * 256 ^ zlen l + be_val l))
      with ((a * 256 + b) * 256 ^ zlen l + be_val l) by ring. by apply IH.
Qed.
Lemma be_val_inj l k : bytes_ok l → bytes_ok k → length l = length k → be_val l = be_val k → l = k.
Proof.
  intros Hl Hk Hlen Hv. rewrite <- (be_bytes_be_val l), <- (be_bytes_be_val k) by done.
  by rewrite Hlen, Hv.
Qed.

Lemma be_bytes_snoc n v : be_bytes (S n) v = be_bytes n (v / 256) ++ [v mod 256].
Proof.
  induction n as [|n IH]; [cbn; by rewrite Z.div_1_r|].
  change (be_bytes (S (S n)) v) with ((v / 256 ^ Z.of_nat (S n)) mod 256 :: be_bytes (S n) v).
  rewrite IH. cbn [be_bytes app]. f_equal.
  rewrite Nat2Z.inj_succ, Z.pow_succ_r, Z.div_div by (try apply Z.pow_pos_nonneg; lia). done.
Qed.

Lemma length_le_bytes n v : length (le_bytes n v) = n.
Proof. revert v. induction n; intros; simpl; auto. Qed.
Lemma bytes_ok_le_bytes n v : bytes_ok (le_bytes n v).
Proof.
  revert v. induction n as [|n IH]; intros v; simpl; constructor; [|apply IH].
  word_lia.
Qed.
#[export] Hint Resolve bytes_ok_le_bytes : bytesdb.
Lemma le_val_rev l : le_val l = be_val (rev l).
Proof. induction l as [|b l IH]; [done|]. cbn [le_val rev]. rewrite be_val_snoc, IH. lia. Qed.
Lemma le_val_le_bytes n v : le_val (le_bytes n v) = v mod 256 ^ Z.of_nat n.
Proof.
  revert v. induction n as [|n IH]; intros v.
  - simpl. by rewrite Z.mod_1_r.
  - cbn [le_bytes le_val]. rewrite IH, Nat2Z.inj_succ, Z.pow_succ_r by lia.
    rewrite Z.rem_mul_r by (try apply Z.pow_nonzero; lia). lia.
Qed.
Lemma le_bytes_le_val l : bytes_ok l → le_bytes (length l) (le_val l) = l.
Proof.
  induction l as [|b l IH]; intros Hl; [done|]. apply bytes_ok_cons in Hl as [Hb Hl].
  cbn [length le_val le_bytes]. f_equal; [word_lia|].
  replace ((b + 256 * le_val l) / 256) with (le_val l) by word_lia. by apply IH.
Qed.
Lemma le_val_le_bytes_small n v : 0 ≤ v < 256 ^ Z.of_nat n → le_val (le_bytes n v) = v.
Proof. intros. rewrite le_val_le_bytes. by apply Z.mod_small. Qed.
Lemma le_val_app l k : le_val (l ++ k) = le_val l + 256 ^ zlen l * le_val k.
Proof.
  induction l as [|b l IH]; cbn [le_val app].
  - change (zlen []) with 0. lia.
  - rewrite IH, zlen_cons, Z.pow_add_r by (pose proof (zlen_nonneg l); lia). lia.
Qed.
Lemma le_val_bound l : bytes_ok l → 0 ≤ le_val l < 256 ^ zlen l.
Proof.
  intros Hl. rewrite le_val_rev. assert (zlen l = zlen (rev l)) as ->.
  - unfold zlen. by rewrite length_rev.
  - by apply be_val_bound, Forall_rev.
Qed.

(** ** Arrays

    Storing [d] at index [i] of an array ([memcpy], [memmove], [memset] and indexed stores), and
    reading [n] bytes from it. *)
Definition write_at (i : Z) (d l : bytes) : bytes :=
  take (Z.to_nat i) l ++ d ++ drop (Z.to_nat i + length d) l.
Definition read_at (i n : Z) (l : bytes) : bytes := take (Z.to_nat n) (drop (Z.to_nat i) l).
Lemma write_at_app a x b d : length x = length d → write_at (zlen a) d (a ++ x ++ b) = a ++ d ++ b.
Proof.
  intros Hl. unfold write_at. rewrite take_app_zlen, to_nat_zlen. do 2 f_equal.
  rewrite app_assoc, <- Hl, <- length_app. apply drop_app_length.
Qed.

Lemma split_block (s : bytes) k : (k ≤ length s)%nat → ∃ hole tail, s = hole ++ tail ∧ length hole = k.
Proof. intros Hk. exists (take k s), (drop k s). by rewrite take_drop, length_take, Nat.min_l. Qed.

(** ** The state-and-failure monad: stepping and inversion *)

Section StFacts.
Context {S A B : Type}.
Implicit Types (m : st S A) (f : A → st S B) (s : S).

Lemma bind_some m f s a s' : m s = (Some a, s') → (x ← m; f x) s = f a s'.
Proof. unfold mbind, st_bind. by intros ->. Qed.
Lemma bind_none m f s s' : m s = (None, s') → (x ← m; f x) s = (None, s').
Proof. unfold mbind, st_bind. by intros ->. Qed.
Lemma bind_inv m f s b s' :
  (x ← m; f x) s = (Some b, s') → ∃ a s1, m s = (Some a, s1) ∧ f a s1 = (Some b, s').
Proof. unfold mbind, st_bind. destruct (m s) as [[a|] s1]; naive_solver. Qed.
Lemma ret_inv (a b : A) s s' : (mret a : st S A) s = (Some b, s') → a = b ∧ s = s'.
Proof. by intros [= -> ->]. Qed.
Lemma assert_inv (c : bool) u s s' : (st_assert c : st S unit) s = (Some u, s') → c = true ∧ s = s'.
Proof. unfold st_assert. destruct c; naive_solver. Qed.
Lemma local_inv {T} (m : st T A) t s at' s' :
  (st_local m t : st S (A * T)) s = (Some at', s') → m t = (Some at'.1, at'.2) ∧ s = s'.
Proof. unfold st_local. destruct (m t) as [[a|] t']; naive_solver. Qed.
End StFacts.

Ltac st_inv H :=
  repeat match type of H with
  | mbind _ _ _ = (Some _, _) =>
      let a := fresh "a" in let s := fresh "s" in let E := fresh "E" in
      apply bind_inv in H as (a & s & E & H); st_inv E
  | mret _ _ = (Some _, _) => apply ret_inv in H as [? ?]; subst
  | st_assert _ _ = (Some _, _) => apply assert_inv in H as [H ?]; subst
  | st_local _ _ _ = (Some _, _) => apply local_inv in H as [H ?]; subst
  end.

(** ** Number of base-[2^k] digits of a non-negative integer (at least one) *)

Definition ndigits (k v : Z) : nat := Z.to_nat (Z.log2 v / k + 1).

Lemma ndigits_pos k v : 0 < k → (1 ≤ ndigits k v)%nat.
Proof.
  intros Hk. unfold ndigits. pose proof (Z.log2_nonneg v).
  pose proof (Z.div_pos (Z.log2 v) k). lia.
Qed.
Lemma ndigits_upper k v : 0 < k → 0 ≤ v → v < 2 ^ (k * Z.of_nat (ndigits k v)).
Proof.
  intros Hk Hv. unfold ndigits. pose proof (Z.log2_nonneg v).
  rewrite Z2Nat.id by (pose proof (Z.div_pos (Z.log2 v) k); lia).
  destruct (decide (v = 0)) as [->|]; [by apply pow2_pos; pose proof (Z.div_pos (Z.log2 0) k); nia|].
  apply Z.log2_lt_pow2; [lia|]. pose proof (Z.mul_succ_div_gt (Z.log2 v) k Hk). lia.
Qed.
Lemma ndigits_lower k v : 0 < k → 0 ≤ v → (ndigits k v = 1)%nat ∨ 2 ^ (k * (Z.of_nat (ndigits k v) - 1)) ≤ v.
Proof.
  intros Hk Hv. pose proof (Z.log2_nonneg v).
  destruct (decide (v = 0)) as [->|]; [left; by unfold ndigits; rewrite Z.div_0_l by lia|].
  right. unfold ndigits. pose proof (Z.div_pos (Z.log2 v) k).
  rewrite Z2Nat.id by lia. replace (_ + 1 - 1) with (Z.log2 v / k) by lia.
  apply Z.le_trans with (2 ^ Z.log2 v); [|apply Z.log2_spec; lia].
  apply Z.pow_le_mono_r; [lia|]. apply Z.mul_div_le. done.
Qed.
Lemma ndigits_unique k v n : 0 < k → 0 ≤ v → (1 ≤ n)%nat →
  v < 2 ^ (k * Z.of_nat n) → (n = 1)%nat ∨ 2 ^ (k * (Z.of_nat n - 1)) ≤ v → n = ndigits k v.
Proof.
  intros Hk Hv Hn Hu Hl. pose proof (ndigits_pos k v Hk).
  pose proof (ndigits_upper k v Hk Hv) as Hu'. pose proof (ndigits_lower k v Hk Hv) as Hl'.
  assert (∀ a b : nat, v < 2 ^ (k * Z.of_nat a) → 2 ^ (k * (Z.of_nat b - 1)) ≤ v → (1 ≤ b)%nat → (b ≤ a)%nat) as Hmono.
  { intros a b Ha Hb ?. assert (k * (Z.of_nat b - 1) < k * Z.of_nat a); [|nia].
    apply (Z.pow_lt_mono_r_iff 2); lia. }
  destruct Hl as [->|Hl], Hl' as [Hl'|Hl'].
  - done.
  - pose proof (Hmono _ _ Hu Hl'). lia.
  - pose proof (Hmono _ _ Hu' Hl). lia.
  - pose proof (Hmono _ _ Hu Hl'). pose proof (Hmono _ _ Hu' Hl). lia.
Qed.
Lemma ndigits_le k v n : 0 < k → 0 ≤ v → (1 ≤ n)%nat → v < 2 ^ (k * Z.of_nat n) → (ndigits k v ≤ n)%nat.
Proof.
  intros Hk Hv Hn Hu. destruct (ndigits_lower k v Hk Hv) as [|Hl]; [lia|].
  pose proof (ndigits_pos k v Hk).
  assert (k * (Z.of_nat (ndigits k v) - 1) < k * Z.of_nat n); [|nia].
  apply (Z.pow_lt_mono_r_iff 2); lia.
Qed.

(** Two splittings of one list: the longer prefix extends the shorter one. *)
Lemma app_split {A} (p x out rest : list A) :
  p ++ x = out ++ rest → zlen p ≤ zlen out → ∃ o, out = p ++ o ∧ x = o ++ rest.
Proof.
  intros [(k & -> & ->)|(k & -> & ->)]%app_eq_inv Hl; [|eauto].
  rewrite zlen_app in Hl. exists []. rewrite app_nil_r.
  destruct k; [by rewrite app_nil_r|]. rewrite zlen_cons in Hl. pose proof (zlen_nonneg k). lia.
Qed.
