(* ===== verification/Words.v ===== *)
(** * Machine-word helpers ([crypto/internal.h])

    Byte swaps, loads and stores with a byte order, and rotations. *)
From S2P Require Export Prelude.

(** ** Byte order *)

Definition CRYPTO_bswap2 (x : Z) : Z := u16 ((x >>> 8) .| Z.shiftl x 8).
Definition CRYPTO_bswap4 (x : Z) : Z :=
  let x := (x >>> 16) .| (x <<32 16) in
  ((x .& 0xff00ff00) >>> 8) .| ((x .& 0x00ff00ff) <<32 8).
Definition CRYPTO_bswap8 (x : Z) : Z :=
  CRYPTO_bswap4 (x >>> 32) .| (CRYPTO_bswap4 (u32 x) <<64 32).

(** Loads and stores copy the bytes of a little-endian word. *)
Definition CRYPTO_load_u32_le (in_ : bytes) : Z := le_val (take 4 in_).
Definition CRYPTO_store_u32_le (v : Z) : bytes := le_bytes 4 v.
Definition CRYPTO_load_u32_be (in_ : bytes) : Z := CRYPTO_bswap4 (le_val (take 4 in_)).
Definition CRYPTO_store_u32_be (v : Z) : bytes := le_bytes 4 (CRYPTO_bswap4 v).
Definition CRYPTO_load_u64_be (in_ : bytes) : Z := CRYPTO_bswap8 (le_val (take 8 in_)).
Definition CRYPTO_store_u64_be (v : Z) : bytes := le_bytes 8 (CRYPTO_bswap8 v).

(** [(-shift) & 31] of the negated [int]. *)
Definition CRYPTO_rotl_u32 (value shift : Z) : Z := (value <<32 shift) .| (value >>> ((- shift) .& 31)).
Definition CRYPTO_rotr_u32 (value shift : Z) : Z := (value >>> shift) .| (value <<32 ((- shift) .& 31)).
Definition CRYPTO_rotl_u64 (value shift : Z) : Z := (value <<64 shift) .| (value >>> ((- shift) .& 63)).
Definition CRYPTO_rotr_u64 (value shift : Z) : Z := (value >>> shift) .| (value <<64 ((- shift) .& 63)).

(** ** The byte swaps reverse the order of the bytes *)

Lemma bswap2_bytes a b : is_u8 a → is_u8 b → CRYPTO_bswap2 (a + 256 * b) = a * 256 + b.
Proof.
  intros Ha Hb. unfold CRYPTO_bswap2. rewrite shiftr_div by lia. rewrite Z.lor_comm, lor_shiftl_add; [|lia|].
  - unfold wrap. eval_pow2. word_lia.
  - eval_pow2. word_lia.
Qed.

Lemma mask_hi a b c d : is_u8 a → is_u8 b → is_u8 c → is_u8 d →
  (((a * 256 + b) * 256 + c) * 256 + d) .& 0xff00ff00 = a * 2 ^ 24 + c * 256.
Proof.
  intros. change 0xff00ff00 with ((((0xff * 2 ^ 8 + 0) * 2 ^ 8) + 0xff) * 2 ^ 8 + 0).
  rewrite !land_split by done. rewrite !land_ff, !Z.land_0_r. eval_pow2. word_lia.
Qed.
Lemma mask_lo a b c d : is_u8 a → is_u8 b → is_u8 c → is_u8 d →
  (((a * 256 + b) * 256 + c) * 256 + d) .& 0x00ff00ff = b * 2 ^ 16 + d.
Proof.
  intros. change 0x00ff00ff with (((0xff * 2 ^ 8) + 0) * 2 ^ 8 + 0xff).
  rewrite !(land_split 8 _ (_ + _)), (land_split 8 _ 255 0) by done. rewrite !land_ff, !Z.land_0_r. eval_pow2. word_lia.
Qed.

Lemma bswap4_bytes a b c d : is_u8 a → is_u8 b → is_u8 c → is_u8 d →
  CRYPTO_bswap4 (a + 256 * (b + 256 * (c + 256 * d))) = ((a * 256 + b) * 256 + c) * 256 + d.
Proof.
  intros Ha Hb Hc Hd. unfold CRYPTO_bswap4. set (x := a + _).
  assert ((x >>> 16) .| (x <<32 16) = ((b * 256 + a) * 256 + d) * 256 + c) as ->.
  { unfold wrap. rewrite shiftr_div, Z.lor_comm by lia.
    replace ((Z.shiftl x 16) mod 2 ^ 32) with (Z.shiftl (a + 256 * b) 16).
    2:{ rewrite !Z.shiftl_mul_pow2 by lia. subst x. eval_pow2. word_lia. }
    rewrite lor_shiftl_add; [subst x; eval_pow2; word_lia|lia|]. unfold is_uint. subst x. eval_pow2. word_lia. }
  cbv zeta. rewrite mask_hi, mask_lo by done. rewrite shiftr_div by lia. unfold wrap. rewrite Z.shiftl_mul_pow2 by lia.
  rewrite (Z.mod_small (_ * 2 ^ 8)) by (eval_pow2; word_lia).
  replace ((b * 2 ^ 24 + d * 256) / 2 ^ 8) with ((0 * 2 ^ 8 + b) * 2 ^ 16 + (0 * 2 ^ 8 + d)) by (eval_pow2; word_lia).
  replace ((a * 2 ^ 16 + c) * 2 ^ 8) with ((a * 2 ^ 8 + 0) * 2 ^ 16 + (c * 2 ^ 8 + 0)) by (eval_pow2; word_lia).
  rewrite (lor_split 16), !(lor_split 8), !Z.lor_0_r, !Z.lor_0_l; try done; try lia; eval_pow2; word_lia.
Qed.

Lemma CRYPTO_bswap2_rev l : bytes_ok l → length l = 2%nat → CRYPTO_bswap2 (le_val l) = be_val l.
Proof.
  intros Hl Hn. destruct l as [|a [|b [|]]]; try done. unfold bytes_ok in Hl. rewrite !Forall_cons in Hl.
  cbn [le_val]. rewrite Z.mul_0_r, Z.add_0_r, bswap2_bytes by tauto. unfold be_val. cbn [foldl]. lia.
Qed.
Lemma CRYPTO_bswap4_rev l : bytes_ok l → length l = 4%nat → CRYPTO_bswap4 (le_val l) = be_val l.
Proof.
  intros Hl Hn. destruct l as [|a [|b [|c [|d [|]]]]]; try done. unfold bytes_ok in Hl. rewrite !Forall_cons in Hl.
  cbn [le_val]. rewrite Z.mul_0_r, Z.add_0_r, bswap4_bytes by tauto. unfold be_val. cbn [foldl]. lia.
Qed.
Lemma bswap4_u32 x : is_u32 x → is_u32 (CRYPTO_bswap4 x).
Proof.
  intros Hx. rewrite <- (le_val_le_bytes_small 4 x) by (change (256 ^ Z.of_nat 4) with 4294967296; word_lia).
  rewrite CRYPTO_bswap4_rev; [|apply bytes_ok_le_bytes|apply length_le_bytes].
  apply (be_val_bound (le_bytes 4 x)), bytes_ok_le_bytes.
Qed.
Lemma bswap8_halves x : is_u64 x →
  CRYPTO_bswap8 x = CRYPTO_bswap4 (x mod 2 ^ 32) * 2 ^ 32 + CRYPTO_bswap4 (x / 2 ^ 32).
Proof.
  intros Hx. unfold CRYPTO_bswap8. rewrite shiftr_div by lia.
  pose proof (bswap4_u32 (x mod 2 ^ 32) ltac:(apply Z.mod_pos_bound; lia)) as H1.
  pose proof (bswap4_u32 (x / 2 ^ 32) ltac:(eval_pow2; word_lia)) as H2.
  change (wrap 32 x) with (x mod 2 ^ 32). set (lo := CRYPTO_bswap4 (x mod _)) in *. set (hi := CRYPTO_bswap4 (x / _)) in *.
  rewrite Z.lor_comm, (wrap_small 64).
  - rewrite lor_shiftl_add; [done|lia|exact H2].
  - rewrite Z.shiftl_mul_pow2 by lia. eval_pow2. word_lia.
Qed.
Lemma CRYPTO_bswap8_rev l : bytes_ok l → length l = 8%nat → CRYPTO_bswap8 (le_val l) = be_val l.
Proof.
  intros Hl Hn. rewrite <- (take_drop 4 l) in *. set (lo := take 4 l) in *. set (hi := drop 4 l) in *.
  apply bytes_ok_app in Hl as [Hlo Hhi].
  assert (length lo = 4%nat ∧ length hi = 4%nat) as [H1 H2] by (subst lo hi; rewrite length_app, length_take, length_drop in *; lia).
  pose proof (le_val_bound lo Hlo) as B1. pose proof (le_val_bound hi Hhi) as B2.
  rewrite le_val_app, be_val_app. unfold zlen in *. rewrite H1, H2 in *.
  change (256 ^ Z.of_nat 4) with 4294967296 in *.
  rewrite bswap8_halves by word_lia. eval_pow2.
  replace ((le_val lo + 4294967296 * le_val hi) mod 4294967296) with (le_val lo) by lia.
  replace ((le_val lo + 4294967296 * le_val hi) / 4294967296) with (le_val hi) by lia.
  by rewrite !CRYPTO_bswap4_rev.
Qed.

Lemma load_u32_be_val l : bytes_ok l → length l = 4%nat → CRYPTO_load_u32_be l = be_val l.
Proof. intros Hl Hn. unfold CRYPTO_load_u32_be. rewrite take_ge by lia. by apply CRYPTO_bswap4_rev. Qed.
Lemma rev_le_bytes n v : 0 ≤ v < 256 ^ Z.of_nat n → rev (le_bytes n v) = be_bytes n v.
Proof.
  intros Hv. apply be_val_inj.
  - apply Forall_rev, bytes_ok_le_bytes.
  - apply bytes_ok_be_bytes.
  - by rewrite length_rev, length_le_bytes, length_be_bytes.
  - by rewrite <- le_val_rev, le_val_le_bytes_small, be_val_be_bytes_small.
Qed.
Lemma le_bytes_be_val n l : bytes_ok l → length l = n → le_bytes n (be_val l) = rev l.
Proof.
  intros Hl <-. rewrite <- (rev_involutive l) at 2. rewrite <- le_val_rev, <- length_rev.
  by apply le_bytes_le_val, Forall_rev.
Qed.
Lemma store_u32_be_bytes v : is_u32 v → CRYPTO_store_u32_be v = be_bytes 4 v.
Proof.
  intros Hv. assert (0 ≤ v < 256 ^ Z.of_nat 4) as Hv' by exact Hv. unfold CRYPTO_store_u32_be.
  rewrite <- (le_val_le_bytes_small 4 v) at 1 by done.
  rewrite CRYPTO_bswap4_rev by (auto with bytesdb; apply length_le_bytes).
  rewrite le_bytes_be_val by (auto with bytesdb; apply length_le_bytes). by apply rev_le_bytes.
Qed.
Lemma load_u64_be_val l : bytes_ok l → length l = 8%nat → CRYPTO_load_u64_be l = be_val l.
Proof. intros Hl Hn. unfold CRYPTO_load_u64_be. rewrite take_ge by lia. by apply CRYPTO_bswap8_rev. Qed.
Lemma store_u64_be_bytes v : is_u64 v → CRYPTO_store_u64_be v = be_bytes 8 v.
Proof.
  intros Hv. assert (0 ≤ v < 256 ^ Z.of_nat 8) as Hv' by exact Hv. unfold CRYPTO_store_u64_be.
  rewrite <- (le_val_le_bytes_small 8 v) at 1 by done.
  rewrite CRYPTO_bswap8_rev by (auto with bytesdb; apply length_le_bytes).
  rewrite le_bytes_be_val by (auto with bytesdb; apply length_le_bytes). by apply rev_le_bytes.
Qed.

(** Rotations, as the standards define them: [ROTL n x = (x << n) or (x >> w - n)]. *)
Definition ROTL (w n x : Z) : Z := wrap w (Z.shiftl x n) .| (x >>> (w - n)).
Definition ROTR (w n x : Z) : Z := (x >>> n) .| wrap w (Z.shiftl x (w - n)).
Lemma neg_shift k n : 0 ≤ k → 0 < n < 2 ^ k → (- n) .& (2 ^ k - 1) = 2 ^ k - n.
Proof. intros Hk Hn. rewrite land_ones_mod by done. symmetry. apply (Z.mod_unique _ _ (-1)); lia. Qed.
Lemma rotl_u32_ROTL x n : 0 < n < 32 → CRYPTO_rotl_u32 x n = ROTL 32 n x.
Proof. intros Hn. unfold CRYPTO_rotl_u32, ROTL. change 31 with (2 ^ 5 - 1). by rewrite neg_shift. Qed.
Lemma rotr_u32_ROTR x n : 0 < n < 32 → CRYPTO_rotr_u32 x n = ROTR 32 n x.
Proof. intros Hn. unfold CRYPTO_rotr_u32, ROTR. change 31 with (2 ^ 5 - 1). by rewrite neg_shift. Qed.
Lemma rotr_u64_ROTR x n : 0 < n < 64 → CRYPTO_rotr_u64 x n = ROTR 64 n x.
Proof. intros Hn. unfold CRYPTO_rotr_u64, ROTR. change 63 with (2 ^ 6 - 1). by rewrite neg_shift. Qed.
Lemma is_u32_ROTL x n : 0 ≤ n ≤ 32 → is_u32 x → is_u32 (ROTL 32 n x).
Proof. intros. unfold ROTL. apply is_uint_lor; [done|by apply wrap_is_uint|apply is_uint_shiftr; (done || lia)]. Qed.
