(* ===== verification/Md32.v ===== *)
(** * The collector of the 32-bit hashes ([fipsmodule/digest/md32_common.h])

    [crypto_md32_update] and [crypto_md32_final] are used by MD4, MD5, SHA-1, SHA-224 and SHA-256
    with the hash's own block function, here a class.  The theorems are proved once against the
    class; each hash's file gives its instance. *)
From S2P Require Export Words.

(** What the collector relies on: the block function takes its blocks one after the other. *)
Class Md32Block := {
  block_size : nat;
  block_func : list Z → bytes → nat → list Z;
  block_size_min : (9 ≤ block_size)%nat;
  block_func_one h data : (block_size ≤ length data)%nat → block_func h data 1 = block_func h (take block_size data) 1;
  block_func_more h data n : (1 ≤ n)%nat → (S n * block_size ≤ length data)%nat →
    block_func h data (S n) = block_func (block_func h (take block_size data) 1) (drop block_size data) n
}.

(** The fields the collector's callers pass to it. *)
Record md32 := { md_h : list Z; md_Nl : Z; md_Nh : Z; md_data : bytes; md_num : Z }.

Section Md32.
Context `{Md32Block}.

(** The whole blocks of the input, and the copy of what remains into [data]. *)
Definition update_blocks (h : list Z) (Nl Nh : Z) (data : bytes) (num : Z) (in_ : bytes) : md32 :=
  let n := Z.to_nat (zlen in_ / Z.of_nat block_size) in
  let '(h, in_) := if (0 <? n)%nat then (block_func h in_ n, drop (n * block_size) in_) else (h, in_) in
  if negb (zlen in_ =? 0)
  then {| md_h := h; md_Nl := Nl; md_Nh := Nh; md_data := write_at 0 in_ data; md_num := zlen in_ |}
  else {| md_h := h; md_Nl := Nl; md_Nh := Nh; md_data := data; md_num := num |}.
Definition crypto_md32_update (c : md32) (in_ : bytes) : md32 :=
  let len := zlen in_ in
  if len =? 0 then c
  else
    let l := u32 (md_Nl c + (u32 len <<32 3)) in
    let Nh := if l <? md_Nl c then u32 (md_Nh c + 1) else md_Nh c in
    let Nh := u32 (Nh + u32 (len >>> 29)) in
    let bs := Z.of_nat block_size in
    let n := md_num c in
    if negb (n =? 0) then
      if (bs <=? len) || (bs <=? len + n) then
        let data := write_at n (take (Z.to_nat (bs - n)) in_) (md_data c) in
        let h := block_func (md_h c) data 1 in
        update_blocks h l Nh (replicate block_size 0) 0 (drop (Z.to_nat (bs - n)) in_)
      else {| md_h := md_h c; md_Nl := l; md_Nh := Nh; md_data := write_at n in_ (md_data c); md_num := n + len |}
    else update_blocks (md_h c) l Nh (md_data c) n in_.

Definition crypto_md32_final (c : md32) (is_big_endian : bool) : md32 :=
  let bs := Z.of_nat block_size in
  let n := md_num c in
  let data := write_at n [0x80] (md_data c) in
  let n := n + 1 in
  let '(h, data, n) :=
    if bs - 8 <? n then
      let data := write_at n (replicate (Z.to_nat (bs - n)) 0) data in
      (block_func (md_h c) data 1, data, 0)
    else (md_h c, data, n) in
  let data := write_at n (replicate (Z.to_nat (bs - 8 - n)) 0) data in
  let data :=
    if is_big_endian
    then write_at (bs - 4) (CRYPTO_store_u32_be (md_Nl c)) (write_at (bs - 8) (CRYPTO_store_u32_be (md_Nh c)) data)
    else write_at (bs - 4) (CRYPTO_store_u32_le (md_Nh c)) (write_at (bs - 8) (CRYPTO_store_u32_le (md_Nl c)) data) in
  {| md_h := block_func h data 1; md_Nl := md_Nl c; md_Nh := md_Nh c; md_data := replicate block_size 0; md_num := 0 |}.

(** ** The hash of a message, in one piece *)

(** All complete blocks, and what is left. *)
Fixpoint absorb (fuel : nat) (h : list Z) (msg : bytes) : list Z * bytes :=
  match fuel with
  | O => (h, msg)
  | S fuel =>
      if (block_size <=? length msg)%nat
      then absorb fuel (block_func h (take block_size msg) 1) (drop block_size msg)
      else (h, msg)
  end.
Definition absorb_all (h : list Z) (msg : bytes) : list Z * bytes := absorb (length msg) h msg.
(** The padding: a one bit, zeros, and the number of bits modulo 2^64 in the last eight bytes. *)
Definition md_padding (big_endian : bool) (n : Z) : bytes :=
  0x80 :: replicate (Z.to_nat ((Z.of_nat block_size - 9 - n) mod Z.of_nat block_size)) 0 ++
  (if big_endian then be_bytes 8 (8 * n) else le_bytes 8 (8 * n)).
Definition md_hash (big_endian : bool) (h : list Z) (msg : bytes) : list Z :=
  (absorb_all h (msg ++ md_padding big_endian (zlen msg))).1.

(** ** Facts about [absorb_all] *)

Lemma absorb_fuel n m h msg : (length msg ≤ n)%nat → (length msg ≤ m)%nat → absorb n h msg = absorb m h msg.
Proof.
  pose proof block_size_min. revert m h msg. induction n as [|n IH]; intros [|m] h msg Hn Hm; cbn [absorb]; try done;
    destruct (Nat.leb_spec block_size (length msg)); try done; [lia..|]. apply IH; rewrite length_drop; lia.
Qed.
Lemma absorb_step h a b : length a = block_size → absorb_all h (a ++ b) = absorb_all (block_func h a 1) b.
Proof.
  pose proof block_size_min. intros Ha. unfold absorb_all. destruct (length (a ++ b)) as [|n] eqn:En; rewrite length_app in En; [lia|].
  cbn [absorb]. rewrite (proj2 (Nat.leb_le _ _)) by (rewrite length_app; lia).
  rewrite <- Ha, take_app_length, drop_app_length. apply absorb_fuel; lia.
Qed.
Lemma absorb_short h msg : (length msg < block_size)%nat → absorb_all h msg = (h, msg).
Proof. intros Hm. unfold absorb_all. destruct (length msg) eqn:E; cbn [absorb]; [done|]. by rewrite (proj2 (Nat.leb_gt _ _)) by lia. Qed.
Lemma absorb_one h a : length a = block_size → absorb_all h a = (block_func h a 1, []).
Proof.
  intros Ha. rewrite <- (app_nil_r a) at 1. rewrite absorb_step by done. apply absorb_short. pose proof block_size_min. cbn. lia.
Qed.
Lemma blocks_ind (P : bytes → Prop) : (∀ l, (length l < block_size)%nat → P l) →
  (∀ a b, length a = block_size → P b → P (a ++ b)) → ∀ l, P l.
Proof.
  pose proof block_size_min. intros Hs Hstep l. remember (length l) as n eqn:Hn. revert l Hn.
  induction n as [n IH] using lt_wf_ind. intros l ->. destruct (Nat.lt_ge_cases (length l) block_size); [by apply Hs|].
  rewrite <- (take_drop block_size l). apply Hstep; [rewrite length_take; lia|].
  apply (IH (length (drop block_size l))); [rewrite length_drop; lia|done].
Qed.
Lemma absorb_app h a b : absorb_all h (a ++ b) = absorb_all (absorb_all h a).1 ((absorb_all h a).2 ++ b).
Proof.
  revert h. induction a as [a Ha|a k Ha IH] using blocks_ind; intros h; [by rewrite (absorb_short h a)|].
  rewrite <- app_assoc, (absorb_step h a (k ++ b)), (absorb_step h a k) by done. apply IH.
Qed.
Lemma absorb_rest h msg : (length (absorb_all h msg).2 < block_size)%nat.
Proof. revert h. induction msg as [a Ha|a k Ha IH] using blocks_ind; intros h; [by rewrite absorb_short|by rewrite absorb_step]. Qed.

(** The block function on many blocks. *)
Lemma absorb_blocks n : ∀ h data, (1 ≤ n)%nat → (n * block_size ≤ length data)%nat →
  absorb_all h data = absorb_all (block_func h data n) (drop (n * block_size) data).
Proof.
  induction n as [|n IH]; intros h data Hn Hl; [lia|]. rewrite <- (take_drop block_size data) at 1.
  rewrite absorb_step by (rewrite length_take; lia). destruct n as [|n].
  - rewrite Nat.mul_1_l, (block_func_one h data) by lia. done.
  - rewrite (block_func_more h data (S n)) by lia. rewrite IH by (rewrite ?length_drop; lia). by rewrite drop_drop.
Qed.
(** ** The context stands for the message so far *)

Definition collected (h0 : list Z) (c : md32) (msg : bytes) : Prop :=
  let r := absorb_all h0 msg in
  md_h c = r.1 ∧ md_num c = zlen r.2 ∧ length (md_data c) = block_size ∧ take (length r.2) (md_data c) = r.2 ∧
  is_u32 (md_Nl c) ∧ is_u32 (md_Nh c) ∧ md_Nh c * 2 ^ 32 + md_Nl c = (8 * zlen msg) mod 2 ^ 64.

Lemma bit_count Nl Nh n len : is_u32 Nl → is_u32 Nh → 0 ≤ len < 2 ^ 64 → Nh * 2 ^ 32 + Nl = (8 * n) mod 2 ^ 64 →
  let l := u32 (Nl + (u32 len <<32 3)) in
  let Nh := if l <? Nl then u32 (Nh + 1) else Nh in
  let Nh := u32 (Nh + u32 (len >>> 29)) in
  is_u32 l ∧ is_u32 Nh ∧ Nh * 2 ^ 32 + l = (8 * (n + len)) mod 2 ^ 64.
Proof.
  intros HNl HNh Hlen E l Nh1 Nh2. split; [by apply wrap_is_uint|]. split; [by apply wrap_is_uint|].
  assert (l = (Nl + 8 * (len mod 536870912)) mod 4294967296) as Hl.
  { subst l. rewrite Z.shiftl_mul_pow2 by done. unfold wrap. change (2 ^ 32) with 4294967296. change (2 ^ 3) with 8. lia. }
  subst Nh2 Nh1. rewrite shiftr_div by done. change (2 ^ 29) with 536870912. unfold wrap. clearbody l. word_bounds.
  assert (∃ q r, len = 536870912 * q + r ∧ 0 ≤ r < 536870912) as (q & r & -> & Hr)
    by (exists (len / 536870912), (len mod 536870912); lia).
  replace ((536870912 * q + r) / 536870912) with q by lia. replace ((536870912 * q + r) mod 536870912) with r in Hl by lia.
  assert ((8 * (n + (536870912 * q + r))) mod 18446744073709551616 = (Nh * 4294967296 + Nl + 4294967296 * q + 8 * r) mod 18446744073709551616) as -> by lia.
  destruct (Z.ltb_spec l Nl); lia.
Qed.

Lemma store_front (data p : bytes) : length data = block_size → (length p < block_size)%nat →
  length (write_at 0 p data) = block_size ∧ take (length p) (write_at 0 p data) = p.
Proof.
  intros Hd Hp. assert (write_at 0 p data = p ++ drop (length p) data) as -> by done.
  rewrite length_app, length_drop, take_app_length. split; [lia|done].
Qed.
Lemma update_blocks_spec h Nl Nh data in_ : length data = block_size →
  let c := update_blocks h Nl Nh data 0 in_ in let r := absorb_all h in_ in
  md_h c = r.1 ∧ md_num c = zlen r.2 ∧ length (md_data c) = block_size ∧ take (length r.2) (md_data c) = r.2 ∧
  md_Nl c = Nl ∧ md_Nh c = Nh.
Proof.
  pose proof block_size_min. intros Hd c r. subst c r. unfold update_blocks. set (n := Z.to_nat (zlen in_ / Z.of_nat block_size)).
  assert (n * block_size ≤ length in_ < (n + 1) * block_size)%nat as Hn.
  { assert (0 < Z.of_nat block_size) as Hb by lia. pose proof (Z.div_mod (zlen in_) _ ltac:(apply Z.neq_sym, Z.lt_neq, Hb)).
    pose proof (Z.mod_pos_bound (zlen in_) _ Hb). pose proof (Z.div_pos (zlen in_) _ (zlen_nonneg _) Hb). subst n.
    set (q := zlen in_ / Z.of_nat block_size) in *. set (m := zlen in_ mod Z.of_nat block_size) in *. clearbody q m.
    assert (∃ n : nat, q = Z.of_nat n) as (n & ->) by (exists (Z.to_nat q); lia). rewrite Nat2Z.id. unfold zlen in *. nia. }
  set (hr := if (0 <? n)%nat then (block_func h in_ n, drop (n * block_size) in_) else (h, in_)).
  assert (absorb_all h in_ = absorb_all hr.1 hr.2 ∧ (length hr.2 < block_size)%nat) as [-> Hr].
  { subst hr. destruct (Nat.ltb_spec 0 n); cbn [fst snd]; [|assert (n = 0%nat) as E by lia; rewrite E in Hn; split; [done|lia]].
    split; [apply absorb_blocks; lia|]. rewrite length_drop. lia. }
  clearbody hr. destruct hr as [h' rest]. cbn [fst snd] in *. rewrite absorb_short by done. cbn [fst snd]. destruct (Z.eqb_spec (zlen rest) 0) as [Hz|Hz]; cbn [negb md_h md_num md_data md_Nl md_Nh].
  - assert (length rest = 0%nat) as E by (unfold zlen in Hz; lia). apply length_zero_iff_nil in E as ->. by rewrite take_0.
  - destruct (store_front data rest Hd Hr). by split_and!.
Qed.

Lemma md32_update_spec h0 c msg in_ : collected h0 c msg → zlen in_ < 2 ^ 64 →
  collected h0 (crypto_md32_update c in_) (msg ++ in_).
Proof.
  pose proof block_size_min. intros (Hh & Hn & Hd & Ht & HNl & HNh & HN) Hlen. unfold crypto_md32_update.
  destruct (Z.eqb_spec (zlen in_) 0) as [Hz|Hz].
  { assert (in_ = []) as -> by (destruct in_; [done|rewrite zlen_cons in Hz; pose proof (zlen_nonneg in_); lia]).
    rewrite app_nil_r. by split_and!. }
  pose proof (zlen_nonneg in_). pose proof (bit_count (md_Nl c) (md_Nh c) (zlen msg) (zlen in_) HNl HNh ltac:(lia) HN) as Hbits.
  cbv zeta in Hbits |- *. set (l := u32 (md_Nl c + (u32 (zlen in_) <<32 3))) in *.
  set (Nh := u32 ((if l <? md_Nl c then _ else _) + u32 (zlen in_ >>> 29))) in *. destruct Hbits as (Hl & HNh' & Hcount).
  rewrite <- zlen_app in Hcount. clearbody l Nh. unfold collected. rewrite absorb_app.
  set (r := absorb_all h0 msg) in *. pose proof (absorb_rest h0 msg) as Hrest. fold r in Hrest. rewrite Hh, Hn in *. clearbody r.
  destruct (Z.eqb_spec (zlen r.2) 0) as [Hr0|Hr0]; cbn [negb].
  { assert (length r.2 = 0%nat) as E%length_zero_iff_nil by (unfold zlen in Hr0; lia). rewrite E. cbn [app]. change (zlen (@nil Z)) with 0.
    destruct (update_blocks_spec r.1 l Nh (md_data c) in_ Hd) as (? & ? & ? & ? & -> & ->). by split_and!. }
  assert (zlen (md_data c) = Z.of_nat block_size) as Hdz by (unfold zlen; lia).
  assert (md_data c = r.2 ++ drop (length r.2) (md_data c)) as Edata by (rewrite <- Ht at 1; by rewrite take_drop).
  set (t := drop (length r.2) (md_data c)) in *. assert (zlen t = Z.of_nat block_size - zlen r.2) as Htl
    by (subst t; unfold zlen; rewrite length_drop; unfold zlen in Hdz; lia). clearbody t. rewrite Edata in *. clear Edata Ht.
  assert ((Z.of_nat block_size <=? zlen in_) || (Z.of_nat block_size <=? zlen in_ + zlen r.2) =
    (Z.of_nat block_size <=? zlen in_ + zlen r.2)) as -> by (pose proof (zlen_nonneg r.2); lia).
  destruct (Z.leb_spec (Z.of_nat block_size) (zlen in_ + zlen r.2)) as [Hfull|Hpart].
  - set (k := Z.to_nat (Z.of_nat block_size - zlen r.2)).
    assert (length (take k in_) = length t) as Hk by (rewrite length_take; unfold zlen in *; lia).
    rewrite <- (app_nil_r t), write_at_app, app_nil_r by done.
    destruct (update_blocks_spec (block_func r.1 (r.2 ++ take k in_) 1) l Nh (replicate block_size 0) (drop k in_)) as (? & ? & ? & ? & -> & ->);
      [apply length_replicate|].
    assert (absorb_all r.1 (r.2 ++ in_) = absorb_all (block_func r.1 (r.2 ++ take k in_) 1) (drop k in_)) as ->; [|by split_and!].
    rewrite <- (take_drop k in_) at 1. rewrite app_assoc, absorb_step by (rewrite length_app, Hk; unfold zlen in *; lia). done.
  - rewrite absorb_short by (rewrite length_app; unfold zlen in *; lia). cbn [fst snd md_h md_num md_data md_Nl md_Nh].
    assert (∃ t1 t2, t = t1 ++ t2 ∧ length t1 = length in_) as (t1 & t2 & -> & Ht1).
    { exists (take (length in_) t), (drop (length in_) t). rewrite take_drop, length_take. unfold zlen in *. split; [done|lia]. }
    rewrite write_at_app by done. rewrite zlen_app in Htl. rewrite zlen_app. split_and!; try done.
    + rewrite !length_app in *. unfold zlen in *. lia.
    + by rewrite app_assoc, take_app_length.
Qed.

Lemma length_words Nl Nh n : is_u32 Nl → is_u32 Nh → Nh * 2 ^ 32 + Nl = (8 * n) mod 2 ^ 64 →
  be_bytes 4 Nh ++ be_bytes 4 Nl = be_bytes 8 (8 * n) ∧ le_bytes 4 Nl ++ le_bytes 4 Nh = le_bytes 8 (8 * n).
Proof.
  intros Hl Hh E. split.
  - apply be_val_inj; [apply bytes_ok_app; auto with bytesdb|auto with bytesdb|done|].
    rewrite be_val_app, !be_val_be_bytes, zlen_be_bytes. change (256 ^ Z.of_nat 4) with (2 ^ 32).
    change (256 ^ Z.of_nat 8) with (2 ^ 64). by rewrite (Z.mod_small Nl), (Z.mod_small Nh) by done.
  - rewrite <- (le_bytes_le_val (le_bytes 4 Nl ++ le_bytes 4 Nh)) by (apply bytes_ok_app; auto with bytesdb).
    rewrite <- (le_bytes_le_val (le_bytes 8 (8 * n))) by auto with bytesdb. f_equal.
    rewrite le_val_app, !le_val_le_bytes. unfold zlen. rewrite length_le_bytes. change (256 ^ Z.of_nat 4) with (2 ^ 32).
    change (256 ^ Z.of_nat 8) with (2 ^ 64). rewrite (Z.mod_small Nl), (Z.mod_small Nh) by done. lia.
Qed.
Lemma absorb_length h msg : zlen msg mod Z.of_nat block_size = zlen (absorb_all h msg).2.
Proof.
  pose proof block_size_min. revert h. induction msg as [a Ha|a k Ha IH] using blocks_ind; intros h.
  - rewrite absorb_short by done. cbn [snd]. apply Z.mod_small. unfold zlen. lia.
  - rewrite absorb_step, <- (IH (block_func h a 1)), zlen_app by done. unfold zlen at 1. rewrite Ha.
    rewrite <- (Z.mul_1_l (Z.of_nat block_size)) at 1. rewrite Z.add_comm. apply Z.mod_add. lia.
Qed.

(** The last block: [data] up to the length, then the length. *)
Lemma final_block (c : md32) be n data a t : is_u32 (md_Nl c) → is_u32 (md_Nh c) → md_Nh c * 2 ^ 32 + md_Nl c = (8 * n) mod 2 ^ 64 →
  data = a ++ t → zlen a = Z.of_nat block_size - 8 → zlen t = 8 →
  (if be : bool
   then write_at (Z.of_nat block_size - 4) (be_bytes 4 (md_Nl c)) (write_at (Z.of_nat block_size - 8) (be_bytes 4 (md_Nh c)) data)
   else write_at (Z.of_nat block_size - 4) (le_bytes 4 (md_Nh c)) (write_at (Z.of_nat block_size - 8) (le_bytes 4 (md_Nl c)) data)) =
  a ++ (if be then be_bytes 8 (8 * n) else le_bytes 8 (8 * n)).
Proof.
  intros HNl HNh E -> Ha Ht. destruct (length_words _ _ _ HNl HNh E) as [<- <-].
  assert (∀ x y : bytes, length x = 4%nat → length y = 4%nat →
    write_at (Z.of_nat block_size - 4) y (write_at (Z.of_nat block_size - 8) x (a ++ t)) = a ++ x ++ y) as Hw.
  { intros x y Hx Hy. assert (∃ t1 t2, t = t1 ++ t2 ∧ length t1 = 4%nat ∧ length t2 = 4%nat) as (t1 & t2 & -> & Ht1 & Ht2).
    { exists (take 4 t), (drop 4 t). rewrite take_drop, length_take, length_drop. unfold zlen in Ht. split; [done|lia]. }
    rewrite <- Ha, write_at_app by lia. rewrite app_assoc. rewrite <- (app_nil_r t2).
    replace (Z.of_nat block_size - 4) with (zlen (a ++ x)) by (rewrite zlen_app; unfold zlen at 2; rewrite Hx; lia).
    rewrite write_at_app by lia. by rewrite app_nil_r, <- app_assoc. }
  destruct be; apply Hw; rewrite ?length_be_bytes, ?length_le_bytes; done.
Qed.

Lemma write_zeros pre (t : bytes) (k : Z) i : i = zlen pre → 0 ≤ k ≤ zlen t →
  write_at i (replicate (Z.to_nat k) 0) (pre ++ t) = (pre ++ replicate (Z.to_nat k) 0) ++ drop (Z.to_nat k) t.
Proof.
  intros -> Hk. rewrite <- (take_drop (Z.to_nat k) t) at 1. rewrite write_at_app; [by rewrite app_assoc|].
  rewrite length_take, length_replicate. unfold zlen in Hk. lia.
Qed.

Lemma md32_final_spec h0 c be msg : collected h0 c msg →
  md_h (crypto_md32_final c be) = md_hash be h0 msg.
Proof.
  pose proof block_size_min as Hmin. intros (Hh & Hn & Hd & Ht & HNl & HNh & HN). unfold md_hash. rewrite absorb_app.
  pose proof (absorb_rest h0 msg) as Hrest. pose proof (absorb_length h0 msg) as Hmod. set (r := absorb_all h0 msg) in *. clearbody r.
  assert (md_data c = r.2 ++ drop (length r.2) (md_data c)) as Edata by (rewrite <- Ht at 1; by rewrite take_drop).
  set (t := drop (length r.2) (md_data c)) in *. set (B := Z.of_nat block_size) in *.
  assert (zlen t = B - zlen r.2) as Htl by (subst t; unfold zlen; rewrite length_drop; lia).
  clearbody t. unfold crypto_md32_final, CRYPTO_store_u32_le. rewrite !store_u32_be_bytes by done. fold B. rewrite Hn, Edata, Hh.
  set (n := zlen r.2) in *. assert (0 ≤ n < B) as Hnb by (subst n B; unfold zlen; lia).
  destruct t as [|t0 t]; [change (zlen (@nil Z)) with 0 in Htl; lia|]. rewrite zlen_cons in Htl.
  assert (write_at n [128] (r.2 ++ t0 :: t) = (r.2 ++ [128]) ++ t) as ->.
  { change (t0 :: t) with ([t0] ++ t). rewrite (app_assoc r.2). unfold n. by rewrite <- app_assoc, write_at_app, app_assoc. }
  assert (zlen (r.2 ++ [128]) = n + 1) as Hn1 by by rewrite zlen_app.
  unfold md_padding. fold B. set (len8 := if be then be_bytes 8 (8 * zlen msg) else le_bytes 8 (8 * zlen msg)).
  assert (zlen len8 = 8) as Hlen8 by (subst len8; unfold zlen; destruct be; by rewrite ?length_be_bytes, ?length_le_bytes).
  destruct (Z.ltb_spec (B - 8) (n + 1)) as [Htwo|Hone]; cbv beta iota zeta.
  - replace ((B - 9 - zlen msg) mod B) with (2 * B - 9 - n)
      by (apply (Z.mod_unique _ _ (- (zlen msg / B) - 1)); [lia|pose proof (Z.div_mod (zlen msg) B ltac:(lia)); rewrite Hmod in *; lia]).
    rewrite (write_zeros _ t (B - (n + 1)) (n + 1)), drop_ge, app_nil_r by (unfold zlen in *; lia).
    set (z := replicate (Z.to_nat (B - (n + 1))) 0). set (blk := (r.2 ++ [128]) ++ z).
    assert (zlen blk = B) as Hblk by (subst blk z; rewrite zlen_app, Hn1; unfold zlen; rewrite length_replicate; lia).
    assert (write_at 0 (replicate (Z.to_nat (B - 8 - 0)) 0) blk = replicate (Z.to_nat (B - 8)) 0 ++ drop (Z.to_nat (B - 8)) blk) as ->
      by (rewrite Z.sub_0_r; apply (write_zeros [] blk (B - 8) 0); [done|lia]).
    cbn [md_h]. unfold B. erewrite (final_block c be (zlen msg)); [|done..| |].
    + fold B len8. assert (128 :: replicate (Z.to_nat (2 * B - 9 - n)) 0 ++ len8 = [128] ++ z ++ (replicate (Z.to_nat (B - 8)) 0 ++ len8)) as ->.
      { rewrite (app_assoc z). subst z. rewrite <- replicate_add. cbn [app]. do 3 f_equal. lia. }
      rewrite !app_assoc, <- (app_assoc _ _ len8). fold blk. fold len8.
      rewrite absorb_step by (unfold zlen in Hblk; lia). rewrite absorb_one; [done|].
      rewrite length_app, length_replicate. unfold zlen in Hlen8. lia.
    + unfold zlen. rewrite length_replicate. lia.
    + unfold zlen. rewrite length_drop. unfold zlen in Hblk. lia.
  - replace ((B - 9 - zlen msg) mod B) with (B - 9 - n)
      by (apply (Z.mod_unique _ _ (- (zlen msg / B))); [lia|pose proof (Z.div_mod (zlen msg) B ltac:(lia)); rewrite Hmod in *; lia]).
    rewrite (write_zeros _ t (B - 8 - (n + 1)) (n + 1)) by lia.
    set (z := replicate (Z.to_nat (B - 8 - (n + 1))) 0).
    assert (zlen z = B - 8 - (n + 1)) as Hz by (subst z; unfold zlen; rewrite length_replicate; lia).
    cbn [md_h]. unfold B. erewrite (final_block c be (zlen msg)); [|done..| |].
    + fold B len8. assert (r.2 ++ 128 :: replicate (Z.to_nat (B - 9 - n)) 0 ++ len8 = ((r.2 ++ [128]) ++ z) ++ len8) as ->.
      { rewrite <- !app_assoc. subst z. cbn [app]. do 4 f_equal. lia. }
      rewrite absorb_one; [done|]. unfold zlen in *. rewrite !length_app in *. lia.
    + rewrite zlen_app. fold B. lia.
    + unfold zlen in *. rewrite length_drop. lia.
Qed.

(** A whole computation over the collector. *)
Definition init_md32 (h0 : list Z) : md32 :=
  {| md_h := h0; md_Nl := 0; md_Nh := 0; md_data := replicate block_size 0; md_num := 0 |}.
Lemma init_collected h0 : collected h0 (init_md32 h0) [].
Proof.
  pose proof block_size_min. unfold collected. rewrite absorb_short by (cbn; lia). split_and!; try done. apply length_replicate.
Qed.

Lemma session_spec h0 chunks : Forall (λ c, zlen c < 2 ^ 64) chunks →
  collected h0 (foldl crypto_md32_update (init_md32 h0) chunks) (concat chunks).
Proof.
  intros Hc. assert (∀ c msg, collected h0 c msg → collected h0 (foldl crypto_md32_update c chunks) (msg ++ concat chunks)) as H'.
  { induction Hc as [|x chunks Hx _ IH]; intros c msg Hcm; cbn [foldl concat]; [by rewrite app_nil_r|].
    rewrite app_assoc. apply IH, md32_update_spec; done. }
  apply (H' (init_md32 h0) []), init_collected.
Qed.

(** C30: The collector computes the hash of the concatenated input.  However a message is cut into
    [crypto_md32_update] calls (empty pieces, pieces inside a block, across blocks, many blocks),
    and whatever its length modulo 2^64 bits, [crypto_md32_final] leaves in [h] the state after all
    blocks of the message followed by its padding, and an empty buffer. *)
Theorem crypto_md32_exact h0 chunks be : Forall (λ c, zlen c < 2 ^ 64) chunks →
  let c := crypto_md32_final (foldl crypto_md32_update (init_md32 h0) chunks) be in
  md_h c = md_hash be h0 (concat chunks) ∧ md_num c = 0 ∧ md_data c = replicate block_size 0.
Proof.
  intros Hc. split; [|unfold crypto_md32_final; by destruct (_ <? _)].
  by apply md32_final_spec, session_spec.
Qed.
End Md32.
