(* ===== verification/HashSpec.v ===== *)
(** * Ingredients of the hash standards (FIPS 180-4)

    Logical functions, message schedules and the splitting of a message into blocks, in the words
    of the standard; the files of the hashes prove that the code computes them. *)
From S2P Require Export Words Md32.
From Stdlib Require Export ZifyNat.

(** [not x] is taken within the word, so [not x and z] clears in [z] the bits of [x]. *)
Definition fips_Ch (x y z : Z) : Z := (x .& y) .^ Z.ldiff z x.
Definition fips_Parity (x y z : Z) : Z := x .^ y .^ z.
Definition fips_Maj (x y z : Z) : Z := (x .& y) .^ (x .& z) .^ (y .& z).

(** Constants of the standard are the first bits of fractional parts of roots of the first primes. *)
Definition is_prime (p : nat) : bool := (1 <? p)%nat && forallb (λ d, negb (p mod d =? 0)%nat) (seq 2 (p - 2)).
Definition primes_below (n : nat) : list Z := Z.of_nat <$> filter is_prime (seq 2 (n - 2)).
(** The greatest number whose [k]-th power is at most [n], bit by bit from the top. *)
Fixpoint root_bits (k n : Z) (bits : nat) (x : Z) : Z :=
  match bits with O => x | S b => let y := x + 2 ^ Z.of_nat b in root_bits k n b (if y ^ k <=? n then y else x) end.
Definition root_fraction (k p : Z) : Z := root_bits k (p * 2 ^ (32 * k)) 40 0 mod 2 ^ 32.
Lemma root_bits_spec k n bits : 0 < k → ∀ x, 0 ≤ x → x ^ k ≤ n < (x + 2 ^ Z.of_nat bits) ^ k →
  let r := root_bits k n bits x in 0 ≤ r ∧ r ^ k ≤ n < (r + 1) ^ k.
Proof.
  intros Hk. induction bits as [|b IH]; intros x Hx Hn; cbn [root_bits]; [by split|].
  assert (0 < 2 ^ Z.of_nat b) as Hb by (apply Z.pow_pos_nonneg; lia).
  replace (2 ^ Z.of_nat (S b)) with (2 ^ Z.of_nat b + 2 ^ Z.of_nat b) in Hn by (rewrite Nat2Z.inj_succ, Z.pow_succ_r; lia).
  destruct (Z.leb_spec ((x + 2 ^ Z.of_nat b) ^ k) n); apply IH; (lia || (split; [lia|]); rewrite <- ?Z.add_assoc; lia).
Qed.
(** It is the first 32 bits behind the point of the root of [p]: for a number below 2^8 to the [k]. *)
Lemma root_fraction_spec k p : 0 < k → 0 ≤ p < 2 ^ (8 * k) →
  ∃ r, 0 ≤ r ∧ r ^ k ≤ p * 2 ^ (32 * k) < (r + 1) ^ k ∧ root_fraction k p = r mod 2 ^ 32.
Proof.
  intros Hk Hp. exists (root_bits k (p * 2 ^ (32 * k)) 40 0).
  destruct (root_bits_spec k (p * 2 ^ (32 * k)) 40 Hk 0) as (H1 & H2); [done| |split; [exact H1|]; split; [exact H2|done]]. rewrite Z.pow_0_l by done. change (0 + 2 ^ Z.of_nat 40) with (2 ^ 40).
  rewrite <- Z.pow_mul_r by lia. replace (40 * k) with (8 * k + 32 * k) by lia. rewrite Z.pow_add_r by lia.
  assert (0 < 2 ^ (32 * k)) by (apply Z.pow_pos_nonneg; lia). nia.
Qed.

(** A schedule: [f] computes the next word from all words before it. *)
Fixpoint extend (f : list Z → Z) (n : nat) (w : list Z) : list Z :=
  match n with O => w | S n => extend f n (w ++ [f w]) end.

(** Big-endian 32-bit words of a block. *)
Definition be_words (n : nat) (blk : bytes) : list Z := (λ i, be_val (take 4 (drop (4 * i) blk))) <$> seq 0 n.
Definition le_words (n : nat) (blk : bytes) : list Z := (λ i, le_val (take 4 (drop (4 * i) blk))) <$> seq 0 n.

(** The blocks of a message whose length is a multiple of [k]. *)
Fixpoint blocks (k n : nat) (l : bytes) : list bytes :=
  match n with O => [] | S n => take k l :: blocks k n (drop k l) end.

(** The padding of section 5.1.1. *)
Definition fips_padding (n : Z) : bytes := 0x80 :: replicate (Z.to_nat ((55 - n) mod 64)) 0 ++ be_bytes 8 (8 * n).
(** The Merkle-Damgård iteration over a padded message. *)
Definition iterated (compress : list Z → bytes → list Z) (k : nat) (h : list Z) (padded : bytes) : list Z :=
  foldl compress h (blocks k (length padded / k) padded).

(** ** Words *)

(** The words the code loads, one after the other. *)
Definition loaded (load : bytes → Z) (n : nat) (data : bytes) : list Z := (λ i, load (take 4 (drop (4 * i) data))) <$> seq 0 n.
Lemma nth_loaded load n data i : (i < n)%nat → nth i (loaded load n data) 0 = load (take 4 (drop (4 * i) data)).
Proof.
  intros Hi. unfold loaded. assert (((λ i, load (take 4 (drop (4 * i) data))) <$> seq 0 n) !! i = Some (load (take 4 (drop (4 * i) data)))) as E.
  { rewrite list_lookup_fmap, lookup_seq_lt by done. done. }
  by apply nth_lookup_Some.
Qed.
Lemma length_loaded load n data : length (loaded load n data) = n.
Proof. unfold loaded. by rewrite length_fmap, length_seq. Qed.
Lemma loaded_take load n data : loaded load n (take (4 * n) data) = loaded load n data.
Proof.
  unfold loaded. apply list_fmap_ext. intros j i [-> Hi]%lookup_seq. f_equal. cbn [Nat.add].
  replace (4 * n)%nat with (4 * j + (4 * n - 4 * j))%nat by lia.
  rewrite <- take_drop_commute, take_take. f_equal. lia.
Qed.
Lemma loaded_be n blk : bytes_ok blk → length blk = (4 * n)%nat → loaded CRYPTO_load_u32_be n blk = be_words n blk.
Proof.
  intros Hok Hl. unfold loaded, be_words. apply list_fmap_ext. intros j i [-> Hi]%lookup_seq. cbn [Nat.add].
  apply load_u32_be_val; [auto with bytesdb|]. rewrite length_take, length_drop. lia.
Qed.
Lemma loaded_le n blk : loaded CRYPTO_load_u32_le n blk = le_words n blk.
Proof. unfold loaded, le_words, CRYPTO_load_u32_le. apply list_fmap_ext. intros j i _. rewrite take_take. done. Qed.

(** ** Schedules *)

(** The [j]-th word before the one computed. *)
Lemma nth_take (l : list Z) t j : (j < t)%nat → nth j (take t l) 0 = nth j l 0.
Proof.
  revert t j. induction l as [|x l IH]; intros [|t] [|j] Hj; try lia; cbn; try done. apply IH. lia.
Qed.

Lemma nth_insert_eq j v (l : list Z) : (j < length l)%nat → nth j (<[j:=v]> l) 0 = v.
Proof. intros Hj. apply nth_lookup_Some. by apply list_lookup_insert_eq. Qed.
Lemma nth_insert_ne i j v (l : list Z) : i ≠ j → nth i (<[j:=v]> l) 0 = nth i l 0.
Proof. intros Hij. rewrite !nth_lookup. by rewrite list_lookup_insert_ne. Qed.

Section Extend.
Context (f : list Z → Z).
Lemma extend_prefix n : ∀ w, ∃ k, extend f n w = w ++ k ∧ length k = n.
Proof.
  induction n as [|n IH]; intros w; cbn [extend]; [exists []; by rewrite app_nil_r|].
  destruct (IH (w ++ [f w])) as (k & -> & <-). exists ([f w] ++ k). by rewrite <- app_assoc.
Qed.
Lemma extend_length n w : length (extend f n w) = (length w + n)%nat.
Proof. destruct (extend_prefix n w) as (k & -> & <-). apply length_app. Qed.
Lemma extend_old n w t : (t < length w)%nat → nth t (extend f n w) 0 = nth t w 0.
Proof. destruct (extend_prefix n w) as (k & -> & _). by apply app_nth1. Qed.
Lemma extend_new n : ∀ w t, (length w ≤ t < length w + n)%nat → nth t (extend f n w) 0 = f (take t (extend f n w)).
Proof.
  induction n as [|n IH]; intros w t Ht; [lia|]. cbn [extend].
  destruct (decide (t = length w)) as [->|Hn].
  - destruct (extend_prefix n (w ++ [f w])) as (k & -> & _). rewrite <- app_assoc, take_app_length, app_nth2, Nat.sub_diag by lia. done.
  - apply IH. rewrite length_app. cbn. lia.
Qed.
End Extend.

Lemma iterated_inv (P : list Z → Prop) compress k h padded :
  P h → (∀ h blk, P h → P (compress h blk)) → P (iterated compress k h padded).
Proof. intros Hh Hc. unfold iterated. generalize (blocks k (length padded / k) padded). intros l. revert h Hh. induction l; naive_solver. Qed.

(** A state of [n] 32-bit words, and its bytes in the order the code stores them. *)
Definition words_ok (n : nat) (h : list Z) : Prop := length h = n ∧ Forall is_u32 h.
Lemma words_ok_nth n h i : words_ok n h → is_u32 (nth i h 0).
Proof.
  intros [_ Hh]. destruct (nth_lookup_or_length h i 0) as [Hi|Hi]; [by eapply Forall_lookup_1|by rewrite nth_overflow].
Qed.
Lemma store_be_take n k h : (k ≤ n)%nat → words_ok n h →
  concat (map (λ i, CRYPTO_store_u32_be (nth i h 0)) (seq 0 k)) = concat (map (be_bytes 4) (take k h)).
Proof.
  intros Hk [<- Hh]. f_equal. revert k Hk. induction Hh as [|x h Hx Hh IH]; intros [|k] Hk; cbn [length] in Hk; try done; [lia|].
  cbn [seq map nth take]. f_equal; [by apply store_u32_be_bytes|].
  rewrite <- seq_shift, map_map. apply IH. lia.
Qed.
Lemma store_be_words n h : words_ok n h →
  concat (map (λ i, CRYPTO_store_u32_be (nth i h 0)) (seq 0 n)) = concat (map (be_bytes 4) h).
Proof.
  intros Hh. rewrite (store_be_take n) by done. destruct Hh as [<- _]. by rewrite firstn_all.
Qed.

(** The first words of a schedule are the loaded ones. *)
Lemma nth_extend_loaded f n t data : (t < 16)%nat →
  nth t (extend f n (loaded CRYPTO_load_u32_be 16 data)) 0 = CRYPTO_load_u32_be (drop (4 * t) data).
Proof.
  intros Ht. rewrite extend_old by (rewrite length_loaded; lia). rewrite nth_loaded by done.
  unfold CRYPTO_load_u32_be. by rewrite take_take.
Qed.

(** ** The collector computes the standard's iteration over blocks *)

Section Blocks.
Context `{Md32Block}.
Lemma absorb_foldl (compress : list Z → bytes → list Z) :
  (∀ h blk, length blk = block_size → bytes_ok blk → block_func h blk 1 = compress h blk) →
  ∀ n h msg, length msg = (n * block_size)%nat → bytes_ok msg → (absorb_all h msg).1 = foldl compress h (blocks block_size n msg).
Proof.
  intros Hc. pose proof block_size_min. induction n as [|n IH]; intros h msg Hl Hok.
  - destruct msg; [by rewrite absorb_short by (cbn; lia)|done].
  - cbn [blocks foldl Nat.mul] in *. rewrite <- (take_drop block_size msg) at 1.
    rewrite <- (take_drop block_size msg) in Hok. apply bytes_ok_app in Hok as [Hok1 Hok2].
    rewrite absorb_step, Hc by (done || rewrite length_take; lia). apply IH; [rewrite length_drop; lia|done].
Qed.
(** The padded message is a whole number of blocks. *)
Lemma padded_length be msg : ∃ n, length (msg ++ md_padding be (zlen msg)) = (n * block_size)%nat.
Proof.
  pose proof block_size_min. set (B := Z.of_nat block_size). assert (0 < B) as HB by lia.
  assert (zlen (msg ++ md_padding be (zlen msg)) = B * (1 - (B - 9 - zlen msg) / B)) as Hl.
  { unfold md_padding. fold B. rewrite zlen_app, zlen_cons, zlen_app. set (z := replicate _ 0).
    pose proof (Z.mod_pos_bound (B - 9 - zlen msg) B HB) as Hm.
    assert (zlen z = (B - 9 - zlen msg) mod B) as -> by (subst z; unfold zlen at 1; rewrite length_replicate; lia).
    assert (zlen (if be then be_bytes 8 (8 * zlen msg) else le_bytes 8 (8 * zlen msg)) = 8) as ->
      by (unfold zlen; destruct be; by rewrite ?length_be_bytes, ?length_le_bytes).
    rewrite Z.mod_eq by lia. lia. }
  set (k := 1 - _ / B) in Hl. clearbody k. pose proof (zlen_nonneg (msg ++ md_padding be (zlen msg))).
  exists (Z.to_nat k). unfold zlen in *. subst B. nia.
Qed.
Lemma bytes_ok_padding be n : bytes_ok (md_padding be n).
Proof.
  unfold md_padding. apply bytes_ok_cons. split; [done|]. apply bytes_ok_app. split; [|destruct be; auto with bytesdb].
  by apply Forall_replicate.
Qed.
Lemma md_hash_iterated (compress : list Z → bytes → list Z) be h msg :
  (∀ h blk, length blk = block_size → bytes_ok blk → block_func h blk 1 = compress h blk) → bytes_ok msg →
  md_hash be h msg = iterated compress block_size h (msg ++ md_padding be (zlen msg)).
Proof.
  intros Hc Hok. destruct (padded_length be msg) as [n Hn]. pose proof block_size_min. unfold md_hash, iterated.
  rewrite Hn, Nat.div_mul by lia. apply absorb_foldl; [done|done|]. apply bytes_ok_app. split; [done|apply bytes_ok_padding].
Qed.
(** A whole session over the collector. *)
Lemma session_hash be (compress : list Z → bytes → list Z) h0 chunks :
  (∀ h blk, length blk = block_size → bytes_ok blk → block_func h blk 1 = compress h blk) →
  Forall bytes_ok chunks → Forall (λ c, zlen c < 2 ^ 64) chunks →
  md_h (crypto_md32_final (foldl crypto_md32_update (init_md32 h0) chunks) be) =
  iterated compress block_size h0 (concat chunks ++ md_padding be (zlen (concat chunks))).
Proof.
  intros Hc Hok Hlen. rewrite <- md_hash_iterated by (done || by apply Forall_concat).
  by apply md32_final_spec, session_spec.
Qed.
End Blocks.
