(* ===== verification/Rounds.v ===== *)
(** * Unrolled rounds over rotating registers

    The block functions of MD4, MD5, SHA-1 and SHA-256 are unrolled with macros: instead of moving
    the working variables along in every round, each call names the registers in a rotated order,
    and the message schedule is kept in sixteen words that are overwritten.  This file holds the
    registers, the words and the data pointer, and the arithmetic of the rotation. *)
From S2P Require Export HashSpec.

(** The registers, numbered in the order of their declaration, the words [X] and the pointer to
    the data that is left. *)
Record vars := { regs : list Z; XX : list Z; ptr : bytes }.
Definition reg (s : vars) (r : nat) : Z := nth r (regs s) 0.
Definition X (s : vars) (i : nat) : Z := nth i (XX s) 0.
Definition set_reg (r : nat) (v : Z) (s : vars) : vars := {| regs := <[r := v]> (regs s); XX := XX s; ptr := ptr s |}.
Definition set_X (i : nat) (v : Z) (s : vars) : vars := {| regs := regs s; XX := <[i := v]> (XX s); ptr := ptr s |}.

(** In round [i] of a loop over [n] registers the role [p] is played by the register [at_ n i p]. *)
Definition at_ (n i p : nat) : nat := ((p + (n - 1) * i) mod n)%nat.
(** The word [k] places after word [i]. *)
Definition wd (i k : nat) : nat := ((i + k) mod 16)%nat.

Lemma at_lt n i p : (n ≠ 0)%nat → (at_ n i p < n)%nat.
Proof. apply Nat.mod_upper_bound. Qed.
Lemma at_inj n i p q : (p < n)%nat → (q < n)%nat → at_ n i p = at_ n i q → p = q.
Proof.
  unfold at_. set (m := ((n - 1) * i)%nat). intros Hp Hq E.
  pose proof (Nat.div_mod_eq (p + m) n) as Ep. pose proof (Nat.div_mod_eq (q + m) n) as Eq. rewrite E in Ep.
  generalize dependent ((q + m) mod n)%nat. intros r _ Ep Eq.
  generalize dependent ((p + m) / n)%nat. generalize dependent ((q + m) / n)%nat. intros a Ea b Eb.
  assert (a = b ∨ a < b ∨ b < a)%nat as [->|[|]] by lia; nia.
Qed.
Lemma at_ne n i p q : (p < n)%nat → (q < n)%nat → p ≠ q → at_ n i p ≠ at_ n i q.
Proof. intros ?? Hne E. by apply at_inj in E. Qed.
(** The next round moves every role one register back, around the end. *)
Lemma at_S n i p : (n ≠ 0)%nat → at_ n (S i) (S p) = at_ n i p.
Proof.
  intros Hn. unfold at_. replace (S p + (n - 1) * S i)%nat with (p + (n - 1) * i + 1 * n)%nat by (rewrite Nat.mul_succ_r; lia).
  apply Nat.Div0.mod_add.
Qed.
Lemma at_0 n i : (n ≠ 0)%nat → at_ n (S i) 0 = at_ n i (n - 1).
Proof. intros. unfold at_. f_equal. rewrite Nat.mul_succ_r. lia. Qed.

(** ** Reading back what was set *)

Lemma reg_set_eq s r v : (r < length (regs s))%nat → reg (set_reg r v s) r = v.
Proof. apply nth_insert_eq. Qed.
Lemma reg_set_ne s r r' v : r' ≠ r → reg (set_reg r v s) r' = reg s r'.
Proof. apply nth_insert_ne. Qed.
Lemma length_set_reg s r v : length (regs (set_reg r v s)) = length (regs s).
Proof. apply length_insert. Qed.

(** ** The words as a window on the schedule *)

(** The [L] words computed so far of the schedule [W], as far back as sixteen places before
    round [i], are in the array. *)
Definition window (W : list Z) (i L : nat) (x : list Z) : Prop :=
  length x = 16%nat ∧ ∀ t, (t < L)%nat → (i ≤ t + 16)%nat → nth (t mod 16) x 0 = nth t W 0.

Lemma window_store W i x : window W i i x → window W (S i) (S i) (<[wd i 0 := nth i W 0]> x).
Proof.
  intros [Hx Hw]. split; [by rewrite length_insert|]. intros t Ht Hi. unfold wd. rewrite Nat.add_0_r.
  destruct (decide (t = i)) as [->|].
  - rewrite nth_insert_eq; [done|]. rewrite Hx. by apply Nat.mod_upper_bound.
  - rewrite nth_insert_ne by lia. apply Hw; lia.
Qed.
Lemma window_load W i L x : (i ≤ L < 16)%nat → window W i L x → window W i (S L) (<[L := nth L W 0]> x).
Proof.
  intros HL [Hx Hw]. split; [by rewrite length_insert|]. intros t Ht Hi. rewrite Nat.mod_small by lia.
  destruct (decide (t = L)) as [->|]; [by rewrite nth_insert_eq by lia|].
  rewrite nth_insert_ne by lia. specialize (Hw t). rewrite Nat.mod_small in Hw by lia. apply Hw; lia.
Qed.
Lemma window_mono W i i' L x : (i ≤ i')%nat → window W i L x → window W i' L x.
Proof. intros ? [Hx Hw]. split; [done|]. intros. apply Hw; lia. Qed.
(** The word [16 - k] places before the one of round [i] is [k] places after it in the array. *)
Lemma window_back W i x k : (16 ≤ i)%nat → (k < 16)%nat → window W i i x → nth (wd i k) x 0 = nth (i - (16 - k)) W 0.
Proof.
  intros Hi Hk [_ Hw]. rewrite <- Hw by lia. unfold wd. f_equal.
  replace (i + k)%nat with (i - (16 - k) + 1 * 16)%nat by lia. apply Nat.Div0.mod_add.
Qed.
Lemma window_now W i i' L x : (i < L)%nat → (i' ≤ i + 16)%nat → window W i' L x → nth (wd i 0) x 0 = nth i W 0.
Proof. intros HL Hi [_ Hw]. unfold wd. rewrite Nat.add_0_r. apply Hw; lia. Qed.

(** Reads of registers through a sequence of stores, with the roles of round [i] known distinct. *)
Ltac at_side := rewrite ?length_set_reg; first [done|lia|apply at_ne; lia].
Ltac reg_simpl := repeat match goal with
  | |- context [reg (set_reg ?r ?v ?s) ?r] => rewrite (reg_set_eq s r v) by at_side
  | |- context [reg (set_reg ?r ?v ?s) ?r'] => rewrite (reg_set_ne s r r' v) by at_side
  end.

(** Sums of words may be taken modulo the word size in any order. *)
Lemma u32_congr x y z : u32 x = u32 y → u32 (z + x) = u32 (z + y).
Proof. unfold wrap. intros E. by rewrite (Zplus_mod z x), (Zplus_mod z y), E. Qed.
