(* ===== verification/Sha1.v ===== *)
(** * SHA-1 ([fipsmodule/sha/sha1.c])

    The block function is unrolled with macros over six registers whose roles rotate, and sixteen
    words that are overwritten; the calls are listed below as they stand in the source. *)
From S2P Require Export Rounds.

Definition SHA_CBLOCK : nat := 64.

(** ** The registers *)

Abbreviation A := 0%nat. Abbreviation B := 1%nat. Abbreviation C := 2%nat.
Abbreviation D := 3%nat. Abbreviation E := 4%nat. Abbreviation T := 5%nat.

(** ** The macros *)

Definition K_00_19 : Z := 0x5a827999.
Definition K_20_39 : Z := 0x6ed9eba1.
Definition K_40_59 : Z := 0x8f1bbcdc.
Definition K_60_79 : Z := 0xca62c1d6.
Definition F_00_19 (b c d : Z) : Z := ((c .^ d) .& b) .^ d.
Definition F_20_39 (b c d : Z) : Z := b .^ c .^ d.
Definition F_40_59 (b c d : Z) : Z := (b .& c) .| ((b .| c) .& d).
Definition F_60_79 (b c d : Z) : Z := F_20_39 b c d.

(** [Xupdate(a, ix, ia, ib, ic, id)]: [a] is a register, the others are words. *)
Definition Xupdate (a ix ia ib ic id : nat) (s : vars) : vars :=
  let s := set_reg a (X s ia .^ X s ib .^ X s ic .^ X s id) s in
  let v := CRYPTO_rotl_u32 (reg s a) 1 in
  set_X ix v (set_reg a v s).

Inductive call :=
  | LOAD (i : nat)
  | BODY_00_15 (i a b c d e f xi : nat)
  | BODY_16_19 (i a b c d e f xi xa xb xc xd : nat)
  | BODY_20_31 (i a b c d e f xi xa xb xc xd : nat)
  | BODY_32_39 (i a b c d e f xa xb xc xd : nat)
  | BODY_40_59 (i a b c d e f xa xb xc xd : nat)
  | BODY_60_79 (i a b c d e f xa xb xc xd : nat).

Definition rotate_b (b : nat) (s : vars) : vars := set_reg b (CRYPTO_rotl_u32 (reg s b) 30) s.
(** [(f) += (e) + K + CRYPTO_rotl_u32((a), 5) + F((b), (c), (d))]. *)
Definition accumulate (K : Z) (F : Z → Z → Z → Z) (a b c d e f : nat) (s : vars) : vars :=
  set_reg f (u32 (reg s f + (reg s e + K + CRYPTO_rotl_u32 (reg s a) 5 + F (reg s b) (reg s c) (reg s d)))) s.
Definition exec_call (s : vars) (x : call) : vars :=
  match x with
  | LOAD i => {| regs := regs s; XX := <[i := CRYPTO_load_u32_be (ptr s)]> (XX s); ptr := drop 4 (ptr s) |}
  | BODY_00_15 i a b c d e f xi =>
      rotate_b b (set_reg f (u32 (X s xi + reg s e + K_00_19 + CRYPTO_rotl_u32 (reg s a) 5 +
                                  F_00_19 (reg s b) (reg s c) (reg s d))) s)
  | BODY_16_19 i a b c d e f xi xa xb xc xd => rotate_b b (accumulate K_00_19 F_00_19 a b c d e f (Xupdate f xi xa xb xc xd s))
  | BODY_20_31 i a b c d e f xi xa xb xc xd => rotate_b b (accumulate K_20_39 F_20_39 a b c d e f (Xupdate f xi xa xb xc xd s))
  | BODY_32_39 i a b c d e f xa xb xc xd => rotate_b b (accumulate K_20_39 F_20_39 a b c d e f (Xupdate f xa xa xb xc xd s))
  | BODY_40_59 i a b c d e f xa xb xc xd => rotate_b b (accumulate K_40_59 F_40_59 a b c d e f (Xupdate f xa xa xb xc xd s))
  | BODY_60_79 i a b c d e f xa xb xc xd =>
      let s := Xupdate f xa xa xb xc xd s in
      rotate_b b (set_reg f (u32 (X s xa + reg s e + K_60_79 + CRYPTO_rotl_u32 (reg s a) 5 +
                                  F_60_79 (reg s b) (reg s c) (reg s d))) s)
  end.

(** The body of the [for] loop. *)
Definition sha1_calls : list call :=
  [LOAD 0; LOAD 1; BODY_00_15 0 A B C D E T 0; LOAD 2; BODY_00_15 1 T A B C D E 1; LOAD 3;
   BODY_00_15 2 E T A B C D 2; LOAD 4; BODY_00_15 3 D E T A B C 3; LOAD 5; BODY_00_15 4 C D E T A B 4; LOAD 6;
   BODY_00_15 5 B C D E T A 5; LOAD 7; BODY_00_15 6 A B C D E T 6; LOAD 8; BODY_00_15 7 T A B C D E 7; LOAD 9;
   BODY_00_15 8 E T A B C D 8; LOAD 10; BODY_00_15 9 D E T A B C 9; LOAD 11; BODY_00_15 10 C D E T A B 10; LOAD 12;
   BODY_00_15 11 B C D E T A 11; LOAD 13; BODY_00_15 12 A B C D E T 12; LOAD 14; BODY_00_15 13 T A B C D E 13;
   LOAD 15; BODY_00_15 14 E T A B C D 14; BODY_00_15 15 D E T A B C 15; BODY_16_19 16 C D E T A B 0 0 2 8 13;
   BODY_16_19 17 B C D E T A 1 1 3 9 14; BODY_16_19 18 A B C D E T 2 2 4 10 15; BODY_16_19 19 T A B C D E 3 3 5 11 0;
   BODY_20_31 20 E T A B C D 4 4 6 12 1; BODY_20_31 21 D E T A B C 5 5 7 13 2; BODY_20_31 22 C D E T A B 6 6 8 14 3;
   BODY_20_31 23 B C D E T A 7 7 9 15 4; BODY_20_31 24 A B C D E T 8 8 10 0 5; BODY_20_31 25 T A B C D E 9 9 11 1 6;
   BODY_20_31 26 E T A B C D 10 10 12 2 7; BODY_20_31 27 D E T A B C 11 11 13 3 8;
   BODY_20_31 28 C D E T A B 12 12 14 4 9; BODY_20_31 29 B C D E T A 13 13 15 5 10;
   BODY_20_31 30 A B C D E T 14 14 0 6 11; BODY_20_31 31 T A B C D E 15 15 1 7 12;
   BODY_32_39 32 E T A B C D 0 2 8 13; BODY_32_39 33 D E T A B C 1 3 9 14; BODY_32_39 34 C D E T A B 2 4 10 15;
   BODY_32_39 35 B C D E T A 3 5 11 0; BODY_32_39 36 A B C D E T 4 6 12 1; BODY_32_39 37 T A B C D E 5 7 13 2;
   BODY_32_39 38 E T A B C D 6 8 14 3; BODY_32_39 39 D E T A B C 7 9 15 4; BODY_40_59 40 C D E T A B 8 10 0 5;
   BODY_40_59 41 B C D E T A 9 11 1 6; BODY_40_59 42 A B C D E T 10 12 2 7; BODY_40_59 43 T A B C D E 11 13 3 8;
   BODY_40_59 44 E T A B C D 12 14 4 9; BODY_40_59 45 D E T A B C 13 15 5 10; BODY_40_59 46 C D E T A B 14 0 6 11;
   BODY_40_59 47 B C D E T A 15 1 7 12; BODY_40_59 48 A B C D E T 0 2 8 13; BODY_40_59 49 T A B C D E 1 3 9 14;
   BODY_40_59 50 E T A B C D 2 4 10 15; BODY_40_59 51 D E T A B C 3 5 11 0; BODY_40_59 52 C D E T A B 4 6 12 1;
   BODY_40_59 53 B C D E T A 5 7 13 2; BODY_40_59 54 A B C D E T 6 8 14 3; BODY_40_59 55 T A B C D E 7 9 15 4;
   BODY_40_59 56 E T A B C D 8 10 0 5; BODY_40_59 57 D E T A B C 9 11 1 6; BODY_40_59 58 C D E T A B 10 12 2 7;
   BODY_40_59 59 B C D E T A 11 13 3 8; BODY_60_79 60 A B C D E T 12 14 4 9; BODY_60_79 61 T A B C D E 13 15 5 10;
   BODY_60_79 62 E T A B C D 14 0 6 11; BODY_60_79 63 D E T A B C 15 1 7 12; BODY_60_79 64 C D E T A B 0 2 8 13;
   BODY_60_79 65 B C D E T A 1 3 9 14; BODY_60_79 66 A B C D E T 2 4 10 15; BODY_60_79 67 T A B C D E 3 5 11 0;
   BODY_60_79 68 E T A B C D 4 6 12 1; BODY_60_79 69 D E T A B C 5 7 13 2; BODY_60_79 70 C D E T A B 6 8 14 3;
   BODY_60_79 71 B C D E T A 7 9 15 4; BODY_60_79 72 A B C D E T 8 10 0 5; BODY_60_79 73 T A B C D E 9 11 1 6;
   BODY_60_79 74 E T A B C D 10 12 2 7; BODY_60_79 75 D E T A B C 11 13 3 8; BODY_60_79 76 C D E T A B 12 14 4 9;
   BODY_60_79 77 B C D E T A 13 15 5 10; BODY_60_79 78 A B C D E T 14 0 6 11; BODY_60_79 79 T A B C D E 15 1 7 12].

(** Callers pass at least one block.  [T] and the words are written before they are read; here
    they start at zero. *)
Fixpoint sha1_block_data_order (state : list Z) (data : bytes) (num : nat) : list Z :=
  match num with
  | O => state
  | S num =>
      let s := {| regs := [nth 0 state 0; nth 1 state 0; nth 2 state 0; nth 3 state 0; nth 4 state 0; 0];
                  XX := replicate 16 0; ptr := data |} in
      let s := foldl exec_call s sha1_calls in
      let state := [(nth 0 state 0 + reg s E) .& 0xffffffff; (nth 1 state 0 + reg s T) .& 0xffffffff;
                    (nth 2 state 0 + reg s A) .& 0xffffffff; (nth 3 state 0 + reg s B) .& 0xffffffff;
                    (nth 4 state 0 + reg s C) .& 0xffffffff] in
      sha1_block_data_order state (ptr s) num
  end.

(** ** FIPS 180-4, section 6.1 *)

Definition sha1_f (t : nat) : Z → Z → Z → Z :=
  if decide (t < 20)%nat then fips_Ch else if decide (t < 40)%nat then fips_Parity else if decide (t < 60)%nat then fips_Maj else fips_Parity.
Definition sha1_K (t : nat) : Z :=
  if decide (t < 20)%nat then 0x5a827999 else if decide (t < 40)%nat then 0x6ed9eba1
  else if decide (t < 60)%nat then 0x8f1bbcdc else 0xca62c1d6.
Definition sha1_next (w : list Z) : Z :=
  let t := length w in
  ROTL 32 1 (nth (t - 3) w 0 .^ nth (t - 8) w 0 .^ nth (t - 14) w 0 .^ nth (t - 16) w 0).
Definition sha1_W (w : list Z) : list Z := extend sha1_next 64 w.
Definition sha1_round (w : list Z) (s : Z * Z * Z * Z * Z) (t : nat) : Z * Z * Z * Z * Z :=
  let '(a, b, c, d, e) := s in
  (u32 (ROTL 32 5 a + sha1_f t b c d + e + sha1_K t + nth t w 0), a, ROTL 32 30 b, c, d).
Definition sha1_rounds (w h : list Z) : list Z :=
  let '(a, b, c, d, e) := foldl (sha1_round (sha1_W w)) (nth 0 h 0, nth 1 h 0, nth 2 h 0, nth 3 h 0, nth 4 h 0) (seq 0 80) in
  [u32 (a + nth 0 h 0); u32 (b + nth 1 h 0); u32 (c + nth 2 h 0); u32 (d + nth 3 h 0); u32 (e + nth 4 h 0)].
Definition sha1_compress (h : list Z) (blk : bytes) : list Z := sha1_rounds (be_words 16 blk) h.
Definition sha1_H0 : list Z := [0x67452301; 0xefcdab89; 0x98badcfe; 0x10325476; 0xc3d2e1f0].
(** The hash of a message: the padded message is processed in blocks of 64 bytes. *)
Definition fips_sha1 (msg : bytes) : bytes :=
  concat (map (be_bytes 4) (iterated sha1_compress 64 sha1_H0 (msg ++ fips_padding (zlen msg)))).

(** ** The list of calls, as a function of the round *)

(** Round [i] uses the registers rotated by [i], and the words [i], [i - 14], [i - 8] and [i - 3]
    modulo sixteen. *)
Definition sha1_call (i : nat) : call :=
  if (i <? 16)%nat then BODY_00_15 i (at_ 6 i 0) (at_ 6 i 1) (at_ 6 i 2) (at_ 6 i 3) (at_ 6 i 4) (at_ 6 i 5) (wd i 0)
  else if (i <? 20)%nat then BODY_16_19 i (at_ 6 i 0) (at_ 6 i 1) (at_ 6 i 2) (at_ 6 i 3) (at_ 6 i 4) (at_ 6 i 5) (wd i 0) (wd i 0) (wd i 2) (wd i 8) (wd i 13)
  else if (i <? 32)%nat then BODY_20_31 i (at_ 6 i 0) (at_ 6 i 1) (at_ 6 i 2) (at_ 6 i 3) (at_ 6 i 4) (at_ 6 i 5) (wd i 0) (wd i 0) (wd i 2) (wd i 8) (wd i 13)
  else if (i <? 40)%nat then BODY_32_39 i (at_ 6 i 0) (at_ 6 i 1) (at_ 6 i 2) (at_ 6 i 3) (at_ 6 i 4) (at_ 6 i 5) (wd i 0) (wd i 2) (wd i 8) (wd i 13)
  else if (i <? 60)%nat then BODY_40_59 i (at_ 6 i 0) (at_ 6 i 1) (at_ 6 i 2) (at_ 6 i 3) (at_ 6 i 4) (at_ 6 i 5) (wd i 0) (wd i 2) (wd i 8) (wd i 13)
  else BODY_60_79 i (at_ 6 i 0) (at_ 6 i 1) (at_ 6 i 2) (at_ 6 i 3) (at_ 6 i 4) (at_ 6 i 5) (wd i 0) (wd i 2) (wd i 8) (wd i 13).
Lemma sha1_calls_eq : sha1_calls =
  LOAD 0 :: concat (map (λ i, [LOAD (S i); sha1_call i]) (seq 0 15)) ++ map sha1_call (seq 15 65).
Proof. reflexivity. Qed.

(** ** Every call computes its round *)

Definition view (i : nat) (s : vars) : Z * Z * Z * Z * Z :=
  (reg s (at_ 6 i 0), reg s (at_ 6 i 1), reg s (at_ 6 i 2), reg s (at_ 6 i 3), reg s (at_ 6 i 4)).

(** Storing into the register after the oldest and rotating [b] is a step of the roles. *)
Lemma view_step i s v a b c d e : length (regs s) = 6%nat → view i s = (a, b, c, d, e) →
  view (S i) (rotate_b (at_ 6 i 1) (set_reg (at_ 6 i 5) v s)) = (v, a, ROTL 32 30 b, c, d).
Proof.
  intros Hl [= <- <- <- <- <-]. unfold view, rotate_b. rewrite at_0, !at_S by lia.
  pose proof (at_lt 6 i 1). pose proof (at_lt 6 i 5).
  rewrite (reg_set_eq _ (at_ 6 i 1)) by (rewrite length_set_reg; lia).
  rewrite !(reg_set_ne _ (at_ 6 i 1)), (reg_set_eq _ (at_ 6 i 5)), !(reg_set_ne _ (at_ 6 i 5)) by (lia || apply at_ne; lia).
  by rewrite rotl_u32_ROTL by lia.
Qed.
Lemma view_set i v s : view i (set_reg (at_ 6 i 5) v s) = view i s.
Proof. unfold view. by rewrite !reg_set_ne by (apply at_ne; lia). Qed.

Lemma view_Xupdate i ix ia ib ic id s : view i (Xupdate (at_ 6 i 5) ix ia ib ic id s) = view i s.
Proof.
  unfold Xupdate. cbv zeta. set (v := CRYPTO_rotl_u32 _ 1). generalize (X s ia .^ X s ib .^ X s ic .^ X s id). intros x.
  change (view i (set_reg (at_ 6 i 5) v (set_reg (at_ 6 i 5) x s)) = view i s). by rewrite !view_set.
Qed.

Lemma F_00_19_Ch b c d : F_00_19 b c d = fips_Ch b c d.
Proof.
  unfold F_00_19, fips_Ch. apply Z.bits_inj'. intros n _. rewrite !Z.lxor_spec, !Z.land_spec, Z.lxor_spec, Z.ldiff_spec.
  by destruct (Z.testbit b n), (Z.testbit c n), (Z.testbit d n).
Qed.
Lemma F_40_59_Maj b c d : F_40_59 b c d = fips_Maj b c d.
Proof.
  unfold F_40_59, fips_Maj. apply Z.bits_inj'. intros n _. rewrite !Z.lxor_spec, Z.lor_spec, !Z.land_spec, Z.lor_spec.
  by destruct (Z.testbit b n), (Z.testbit c n), (Z.testbit d n).
Qed.

(** The functions and constants of the four groups of twenty rounds. *)
Lemma round_1 i : (i < 20)%nat → sha1_K i = K_00_19 ∧ ∀ b c d, sha1_f i b c d = F_00_19 b c d.
Proof. intros. unfold sha1_K, sha1_f. rewrite !decide_True by lia. split; [done|]. intros. by rewrite F_00_19_Ch. Qed.
Lemma round_2 i : (20 ≤ i < 40)%nat → sha1_K i = K_20_39 ∧ ∀ b c d, sha1_f i b c d = F_20_39 b c d.
Proof. intros. unfold sha1_K, sha1_f. rewrite !(decide_False (P := (i < 20)%nat)), !decide_True by lia. done. Qed.
Lemma round_3 i : (40 ≤ i < 60)%nat → sha1_K i = K_40_59 ∧ ∀ b c d, sha1_f i b c d = F_40_59 b c d.
Proof.
  intros. unfold sha1_K, sha1_f. rewrite !(decide_False (P := (i < 20)%nat)), !(decide_False (P := (i < 40)%nat)), !decide_True by lia.
  split; [done|]. intros. by rewrite F_40_59_Maj.
Qed.
Lemma round_4 i : (60 ≤ i)%nat → sha1_K i = K_60_79 ∧ ∀ b c d, sha1_f i b c d = F_60_79 b c d.
Proof. intros. unfold sha1_K, sha1_f. rewrite !decide_False by lia. done. Qed.

Section Rounds.
Context (w0 W h : list Z) (data : bytes).
Hypothesis w0_loaded : w0 = loaded CRYPTO_load_u32_be 16 data.
Hypothesis W_eq : W = sha1_W w0.
Definition start : Z * Z * Z * Z * Z := (nth 0 h 0, nth 1 h 0, nth 2 h 0, nth 3 h 0, nth 4 h 0).
Definition after (i : nat) : Z * Z * Z * Z * Z := foldl (sha1_round W) start (seq 0 i).

(** Before round [i], with [L] words loaded or computed. *)
Definition inv (i L : nat) (s : vars) : Prop :=
  length (regs s) = 6%nat ∧ window W i L (XX s) ∧ view i s = after i ∧ ptr s = drop (4 * Nat.min L 16) data.

Lemma sha1_W_old t : (t < 16)%nat → nth t W 0 = CRYPTO_load_u32_be (drop (4 * t) data).
Proof.
  intros Ht. rewrite W_eq, w0_loaded. by apply nth_extend_loaded.
Qed.
Lemma sha1_W_new t : (16 ≤ t < 80)%nat →
  nth t W 0 = ROTL 32 1 (nth (t - 16) W 0 .^ nth (t - 14) W 0 .^ nth (t - 8) W 0 .^ nth (t - 3) W 0).
Proof.
  intros Ht. assert (length w0 = 16%nat) as Hw by (rewrite w0_loaded; apply length_loaded).
  assert (nth t W 0 = sha1_next (take t W)) as -> by (rewrite W_eq; apply (extend_new sha1_next 64 w0 t); lia). unfold sha1_next.
  assert (length W = 80%nat) as HW by (rewrite W_eq; unfold sha1_W; by rewrite extend_length, Hw).
  rewrite length_take, HW, Nat.min_l, !nth_take by lia. f_equal.
  apply Z.bits_inj'. intros n _. rewrite !Z.lxor_spec.
  destruct (Z.testbit (nth (t - 3) W 0) n), (Z.testbit (nth (t - 8) W 0) n), (Z.testbit (nth (t - 14) W 0) n); by destruct (Z.testbit _ n).
Qed.
Lemma sha1_after_step i : after (S i) = sha1_round W (after i) i.
Proof. unfold after. by rewrite seq_S, foldl_app. Qed.

Lemma inv_load i L s : (i ≤ L < 16)%nat → inv i L s → inv i (S L) (exec_call s (LOAD L)).
Proof.
  intros HL (Hr & Hw & Hv & Hp). unfold inv. cbn [exec_call regs XX ptr]. split_and!; [done| |exact Hv|].
  - rewrite Hp, Nat.min_l, <- sha1_W_old by lia. by apply window_load.
  - rewrite Hp, drop_drop. f_equal. lia.
Qed.

(** What every body does, once its word is in place. *)
Lemma inv_body i L L' s s' v : inv i L s → length (regs s') = 6%nat → window W (S i) L' (XX s') →
  view i s' = view i s → ptr s' = ptr s → Nat.min L' 16 = Nat.min L 16 →
  v = u32 (ROTL 32 5 (reg s' (at_ 6 i 0)) + sha1_f i (reg s' (at_ 6 i 1)) (reg s' (at_ 6 i 2)) (reg s' (at_ 6 i 3)) +
           reg s' (at_ 6 i 4) + sha1_K i + nth i W 0) →
  inv (S i) L' (rotate_b (at_ 6 i 1) (set_reg (at_ 6 i 5) v s')).
Proof.
  intros (Hr & Hw & Hv & Hp) Hr' Hw' Hv' Hp' HL Hval. unfold inv. split_and!.
  - unfold rotate_b. by rewrite !length_set_reg.
  - exact Hw'.
  - rewrite sha1_after_step, <- Hv, <- Hv', Hval. by eapply view_step.
  - cbn [rotate_b set_reg ptr]. by rewrite Hp', Hp, HL.
Qed.

(** [Xupdate] of round [i]: the new word is in the register and in the array. *)
Lemma inv_Xupdate i s : (16 ≤ i < 80)%nat → inv i i s →
  let s' := Xupdate (at_ 6 i 5) (wd i 0) (wd i 0) (wd i 2) (wd i 8) (wd i 13) s in
  length (regs s') = 6%nat ∧ window W (S i) (S i) (XX s') ∧ view i s' = view i s ∧ ptr s' = ptr s ∧
  reg s' (at_ 6 i 5) = nth i W 0 ∧ X s' (wd i 0) = nth i W 0.
Proof.
  intros Hi (Hr & Hw & _ & _) s'. pose proof (at_lt 6 i 5).
  set (x := X s (wd i 0) .^ X s (wd i 2) .^ X s (wd i 8) .^ X s (wd i 13)).
  assert (CRYPTO_rotl_u32 x 1 = nth i W 0) as Hnew.
  { rewrite rotl_u32_ROTL, sha1_W_new by lia. subst x. unfold X.
    rewrite !(window_back W i) by (exact Hw || lia). reflexivity. }
  clear W_eq. assert (XX s' = <[wd i 0 := nth i W 0]> (XX s) ∧ regs s' = <[at_ 6 i 5 := nth i W 0]> (<[at_ 6 i 5 := x]> (regs s))) as [HX HR].
  { rewrite <- Hnew. subst s'. unfold Xupdate. fold x. rewrite !reg_set_eq by lia. done. }
  pose proof (window_store W i _ Hw) as Hw'. split_and!; [by rewrite HR, !length_insert|by rewrite HX|apply view_Xupdate|done| |].
  - unfold reg. rewrite HR. apply nth_insert_eq. rewrite length_insert. lia.
  - unfold X. rewrite HX. eapply window_now; [| |exact Hw']; lia.
Qed.

Lemma inv_call i L s : (i < 80)%nat → (if (i <? 16)%nat then i < L ≤ 16 else L = i)%nat → inv i L s →
  inv (S i) (if (i <? 16)%nat then L else S i) (exec_call s (sha1_call i)).
Proof.
  intros Hi HL Hinv. unfold sha1_call. destruct (Nat.ltb_spec i 16).
  - pose proof Hinv as (Hr & Hw & Hv & Hp). cbn [exec_call].
    eapply inv_body; [exact Hinv|done| |done..|]; [apply (window_mono W i); [lia|done]|].
    destruct (round_1 i) as [-> ->]; [lia|]. rewrite <- rotl_u32_ROTL by lia. unfold X. rewrite (window_now W i i L) by (exact Hw || lia).
    f_equal. lia.
  - subst L. destruct (inv_Xupdate i s ltac:(lia) Hinv) as (Hr & Hw & Hv & Hp & HT & HX).
    set (s' := Xupdate _ _ _ _ _ _ s) in *.
    assert (∀ K F, sha1_K i = K → (∀ b c d, sha1_f i b c d = F b c d) →
      inv (S i) (S i) (rotate_b (at_ 6 i 1) (accumulate K F (at_ 6 i 0) (at_ 6 i 1) (at_ 6 i 2) (at_ 6 i 3) (at_ 6 i 4) (at_ 6 i 5) s'))) as Hacc.
    { intros K F HK HF. unfold accumulate. eapply inv_body; [exact Hinv|done..|lia|].
      rewrite HT, HK, HF, rotl_u32_ROTL by lia. f_equal. lia. }
    destruct (Nat.ltb_spec i 20); [|destruct (Nat.ltb_spec i 32); [|destruct (Nat.ltb_spec i 40); [|destruct (Nat.ltb_spec i 60)]]];
      cbn [exec_call]; fold s'.
    + apply Hacc; by apply round_1.
    + apply Hacc; apply round_2; lia.
    + apply Hacc; apply round_2; lia.
    + apply Hacc; apply round_3; lia.
    + eapply inv_body; [exact Hinv|done..|lia|].
      destruct (round_4 i) as [-> ->]; [lia|]. rewrite HX, rotl_u32_ROTL by lia. f_equal. lia.
Qed.

(** All calls of one block. *)
Lemma sha1_inv_first n s : (n ≤ 15)%nat → inv 0 1 s →
  inv n (S n) (foldl exec_call s (concat (map (λ i, [LOAD (S i); sha1_call i]) (seq 0 n)))).
Proof.
  intros Hn Hs. induction n as [|n IH]; [done|]. specialize (IH ltac:(lia)).
  rewrite seq_S, map_app, concat_app, foldl_app. cbn [map concat app foldl Nat.add].
  set (s1 := foldl _ s _) in *. clearbody s1.
  pose proof (inv_call n (S (S n)) (exec_call s1 (LOAD (S n))) ltac:(lia)) as Hc.
  rewrite (proj2 (Nat.ltb_lt n 16)) in Hc by lia. apply Hc; [lia|]. apply inv_load; [lia|done].
Qed.
Lemma inv_rest n s : (n ≤ 65)%nat → inv 15 16 s →
  inv (15 + n) (Nat.max 16 (15 + n)) (foldl exec_call s (map sha1_call (seq 15 n))).
Proof.
  intros Hn Hs. induction n as [|n IH]; [done|]. specialize (IH ltac:(lia)).
  rewrite seq_S, map_app, foldl_app. cbn [map foldl]. set (s1 := foldl _ s _) in *. clearbody s1.
  pose proof (inv_call (15 + n) (Nat.max 16 (15 + n)) s1 ltac:(lia)) as Hc.
  destruct (Nat.ltb_spec (15 + n) 16).
  - replace (Nat.max 16 (15 + S n)) with (Nat.max 16 (15 + n)) by lia. rewrite <- plus_n_Sm. apply Hc; [lia|done].
  - replace (Nat.max 16 (15 + S n)) with (S (15 + n)) by lia. rewrite <- plus_n_Sm. apply Hc; [lia|done].
Qed.
Lemma sha1_inv_all s : inv 0 0 s → inv 80 80 (foldl exec_call s sha1_calls).
Proof.
  intros Hs. rewrite sha1_calls_eq. cbn [foldl]. rewrite foldl_app.
  apply (inv_rest 65); [lia|]. apply (sha1_inv_first 15); [lia|]. by apply inv_load; [lia|].
Qed.
End Rounds.

(** ** The block function *)

Lemma land_u32 x : x .& 0xffffffff = u32 x.
Proof. change 0xffffffff with (Z.ones 32). by rewrite Z.land_ones. Qed.

Lemma sha1_inv_start W h data : inv W h data 0 0
  {| regs := [nth 0 h 0; nth 1 h 0; nth 2 h 0; nth 3 h 0; nth 4 h 0; 0]; XX := replicate 16 0; ptr := data |}.
Proof. unfold inv, window. split_and!; [reflexivity|reflexivity|intros; lia|reflexivity..]. Qed.
Lemma sha1_inv_end W h data s : inv W h data 80 80 s →
  (reg s E, reg s T, reg s A, reg s B, reg s C) = after W h 80 ∧ ptr s = drop 64 data.
Proof. intros (_ & _ & Hv & Hp). split; [exact Hv|exact Hp]. Qed.
Lemma sha1_run_block h data : let s := foldl exec_call
  {| regs := [nth 0 h 0; nth 1 h 0; nth 2 h 0; nth 3 h 0; nth 4 h 0; 0]; XX := replicate 16 0; ptr := data |} sha1_calls in
  (reg s E, reg s T, reg s A, reg s B, reg s C) = after (sha1_W (loaded CRYPTO_load_u32_be 16 data)) h 80 ∧ ptr s = drop 64 data.
Proof.
  cbv zeta. apply sha1_inv_end. eapply sha1_inv_all; [reflexivity..|]. apply sha1_inv_start.
Qed.
Lemma sha1_after_eq W h i : after W h i =
  foldl (sha1_round W) (nth 0 h 0, nth 1 h 0, nth 2 h 0, nth 3 h 0, nth 4 h 0) (seq 0 i).
Proof. done. Qed.
Lemma sha1_block_spec h data n : sha1_block_data_order h data (S n) =
  sha1_block_data_order (sha1_rounds (loaded CRYPTO_load_u32_be 16 data) h) (drop 64 data) n.
Proof.
  cbn [sha1_block_data_order]. pose proof (sha1_run_block h data) as Hr. cbv zeta in Hr.
  set (s := foldl exec_call _ _) in *. clearbody s. destruct Hr as [Hv ->]. f_equal.
  rewrite sha1_after_eq in Hv. unfold sha1_rounds. rewrite <- Hv.
  rewrite !land_u32. do 4 (f_equal; [f_equal; lia|]). do 2 f_equal. lia.
Qed.

Lemma sha1_one h data : sha1_block_data_order h data 1 = sha1_block_data_order h (take 64 data) 1.
Proof.
  rewrite !sha1_block_spec. cbn [sha1_block_data_order]. f_equal. symmetry. apply (loaded_take _ 16 data).
Qed.
Lemma sha1_more h data n : sha1_block_data_order h data (S n) =
  sha1_block_data_order (sha1_block_data_order h (take 64 data) 1) (drop 64 data) n.
Proof.
  rewrite <- (sha1_one h data), (sha1_block_spec h data n), (sha1_block_spec h data 0). cbn [sha1_block_data_order]. reflexivity.
Qed.
#[export] Instance sha1_md32 : Md32Block := {|
  block_size := SHA_CBLOCK; block_func := sha1_block_data_order;
  block_size_min := ltac:(unfold SHA_CBLOCK; lia);
  block_func_one := λ h data _, sha1_one h data;
  block_func_more := λ h data n _ _, sha1_more h data n |}.

(** ** The interface; [SHA_CTX] is the collector's context *)

Definition SHA1_Init : md32 :=
  {| md_h := [0x67452301; 0xefcdab89; 0x98badcfe; 0x10325476; 0xc3d2e1f0]; md_Nl := 0; md_Nh := 0;
     md_data := replicate SHA_CBLOCK 0; md_num := 0 |}.
Definition SHA1_Update (sha : md32) (data : bytes) : md32 := crypto_md32_update sha data.
Definition SHA1_Final (sha : md32) : bytes * md32 :=
  let c := crypto_md32_final sha true in
  (concat (map (λ i, CRYPTO_store_u32_be (nth i (md_h c) 0)) (seq 0 5)), c).
Definition SHA1_Transform (c : md32) (data : bytes) : md32 :=
  {| md_h := sha1_block_data_order (md_h c) data 1; md_Nl := md_Nl c; md_Nh := md_Nh c; md_data := md_data c; md_num := md_num c |}.
Definition SHA1 (data : bytes) : bytes := (SHA1_Final (SHA1_Update SHA1_Init data)).1.

Lemma words_ok_sha1 h w : words_ok 5 (sha1_rounds w h).
Proof.
  unfold sha1_rounds. destruct (foldl _ _ _) as [[[[a b] c] d] e]. split; [done|]. repeat (apply Forall_cons_2; [by apply wrap_is_uint|]). done.
Qed.

Lemma sha1_block_compress h blk : length blk = 64%nat → bytes_ok blk → block_func h blk 1 = sha1_compress h blk.
Proof.
  intros Hb Hok. change (block_func h blk 1) with (sha1_block_data_order h blk 1).
  rewrite sha1_block_spec. cbn [sha1_block_data_order]. unfold sha1_compress. by rewrite (loaded_be 16).
Qed.

(** C29: SHA-1 is the hash of FIPS 180-4.  Whatever the pieces a message is passed to
    [SHA1_Update] in, and whatever its length, [SHA1_Final] writes the digest the standard defines:
    the unrolled rounds with their rotating registers and sixteen-word schedule compute the eighty
    rounds over the expanded schedule, and the collector pads the message as section 5 prescribes. *)
Theorem SHA1_session_exact chunks : Forall bytes_ok chunks → Forall (λ c, zlen c < 2 ^ 64) chunks →
  (SHA1_Final (foldl SHA1_Update SHA1_Init chunks)).1 = fips_sha1 (concat chunks).
Proof.
  intros Hok Hlen. unfold SHA1_Final. cbn [fst].
  pose proof (session_hash true sha1_compress sha1_H0 chunks sha1_block_compress Hok Hlen) as Hs.
  change (foldl crypto_md32_update (init_md32 sha1_H0) chunks) with (foldl SHA1_Update SHA1_Init chunks) in Hs.
  rewrite Hs. change (md_padding true) with fips_padding. change block_size with 64%nat. apply (store_be_words 5).
  apply iterated_inv; [split; [done|by repeat constructor]|]. intros. apply words_ok_sha1.
Qed.

(** The standard's example "abc", in three pieces. *)
Lemma SHA1_session_exact_witness :
  (SHA1_Final (foldl SHA1_Update SHA1_Init [[97]; []; [98; 99]])).1 = fips_sha1 [97; 98; 99].
Proof. apply (SHA1_session_exact [[97]; []; [98; 99]]); repeat constructor; done. Defined.
Lemma SHA1_abc : SHA1 [97; 98; 99] =
  [0xa9; 0x99; 0x3e; 0x36; 0x47; 0x06; 0x81; 0x6a; 0xba; 0x3e; 0x25; 0x71; 0x78; 0x50; 0xc2; 0x6c; 0x9c; 0xd0; 0xd8; 0x9d].
Proof. by vm_compute. Qed.

(** The collector, run with the block function of SHA-1. *)
Lemma crypto_md32_exact_witness : let c := crypto_md32_final (foldl crypto_md32_update (init_md32 sha1_H0) [[97]; [98; 99]]) true in
  md_h c = md_hash true sha1_H0 [97; 98; 99] ∧ md_num c = 0 ∧ md_data c = replicate block_size 0.
Proof. apply (@crypto_md32_exact sha1_md32 sha1_H0 [[97]; [98; 99]] true). repeat constructor. Defined.
