(* ===== verification/Sha256.v ===== *)
(** * SHA-256 and SHA-224 ([fipsmodule/sha/sha256.c])

    The block function is unrolled over eight registers whose roles rotate and sixteen words; the
    calls are listed as they stand in the source. *)
From S2P Require Export Rounds.

Definition SHA256_CBLOCK : nat := 64.
Definition SHA256_DIGEST_LENGTH : Z := 32.
Definition SHA224_DIGEST_LENGTH : Z := 28.

(** ** The macros *)

Abbreviation A := 0%nat. Abbreviation B := 1%nat. Abbreviation C := 2%nat. Abbreviation D := 3%nat.
Abbreviation E := 4%nat. Abbreviation F := 5%nat. Abbreviation G := 6%nat. Abbreviation H := 7%nat.
Abbreviation T1 := 8%nat.

(** The table, five constants to a line as in the source. *)
Definition K256 : list Z := concat
  [[0x428a2f98; 0x71374491; 0xb5c0fbcf; 0xe9b5dba5; 0x3956c25b];
   [0x59f111f1; 0x923f82a4; 0xab1c5ed5; 0xd807aa98; 0x12835b01];
   [0x243185be; 0x550c7dc3; 0x72be5d74; 0x80deb1fe; 0x9bdc06a7];
   [0xc19bf174; 0xe49b69c1; 0xefbe4786; 0x0fc19dc6; 0x240ca1cc];
   [0x2de92c6f; 0x4a7484aa; 0x5cb0a9dc; 0x76f988da; 0x983e5152];
   [0xa831c66d; 0xb00327c8; 0xbf597fc7; 0xc6e00bf3; 0xd5a79147];
   [0x06ca6351; 0x14292967; 0x27b70a85; 0x2e1b2138; 0x4d2c6dfc];
   [0x53380d13; 0x650a7354; 0x766a0abb; 0x81c2c92e; 0x92722c85];
   [0xa2bfe8a1; 0xa81a664b; 0xc24b8b70; 0xc76c51a3; 0xd192e819];
   [0xd6990624; 0xf40e3585; 0x106aa070; 0x19a4c116; 0x1e376c08];
   [0x2748774c; 0x34b0bcb5; 0x391c0cb3; 0x4ed8aa4a; 0x5b9cca4f];
   [0x682e6ff3; 0x748f82ee; 0x78a5636f; 0x84c87814; 0x8cc70208];
   [0x90befffa; 0xa4506ceb; 0xbef9a3f7; 0xc67178f2]].

Definition Sigma0 (x : Z) : Z := CRYPTO_rotr_u32 x 2 .^ CRYPTO_rotr_u32 x 13 .^ CRYPTO_rotr_u32 x 22.
Definition Sigma1 (x : Z) : Z := CRYPTO_rotr_u32 x 6 .^ CRYPTO_rotr_u32 x 11 .^ CRYPTO_rotr_u32 x 25.
Definition sigma0 (x : Z) : Z := CRYPTO_rotr_u32 x 7 .^ CRYPTO_rotr_u32 x 18 .^ (x >>> 3).
Definition sigma1 (x : Z) : Z := CRYPTO_rotr_u32 x 17 .^ CRYPTO_rotr_u32 x 19 .^ (x >>> 10).
Definition Ch (x y z : Z) : Z := (x .& y) .^ (u32 (Z.lnot x) .& z).
Definition Maj (x y z : Z) : Z := (x .& y) .^ (x .& z) .^ (y .& z).

Inductive call :=
  | LOAD (i : nat)
  | ROUND_00_15 (i a b c d e f g h : nat)
  | ROUND_16_63 (i a b c d e f g h : nat).
Definition round_00_15 (i a b c d e f g h : nat) (s : vars) : vars :=
  let s := set_reg T1 (u32 (reg s T1 + (reg s h + Sigma1 (reg s e) + Ch (reg s e) (reg s f) (reg s g) + nth i K256 0))) s in
  let s := set_reg h (u32 (Sigma0 (reg s a) + Maj (reg s a) (reg s b) (reg s c))) s in
  let s := set_reg d (u32 (reg s d + reg s T1)) s in
  set_reg h (u32 (reg s h + reg s T1)) s.
Definition exec_call (s : vars) (x : call) : vars :=
  match x with
  | LOAD i =>
      let v := CRYPTO_load_u32_be (ptr s) in
      let s := set_reg T1 v (set_X i v s) in
      {| regs := regs s; XX := XX s; ptr := drop 4 (ptr s) |}
  | ROUND_00_15 i a b c d e f g h => round_00_15 i a b c d e f g h s
  | ROUND_16_63 i a b c d e f g h =>
      let s0 := sigma0 (X s (Nat.land (i + 1) 0x0f)) in
      let s1 := sigma1 (X s (Nat.land (i + 14) 0x0f)) in
      let v := u32 (X s (Nat.land i 0x0f) + (s0 + s1 + X s (Nat.land (i + 9) 0x0f))) in
      round_00_15 i a b c d e f g h (set_reg T1 v (set_X (Nat.land i 0x0f) v s))
  end.

(** The body of [for (i = 16; i < 64; i += 8)], and all calls of the [while] loop. *)
Definition loop_calls (i : nat) : list call :=
  [ROUND_16_63 (i + 0) A B C D E F G H; ROUND_16_63 (i + 1) H A B C D E F G;
   ROUND_16_63 (i + 2) G H A B C D E F; ROUND_16_63 (i + 3) F G H A B C D E;
   ROUND_16_63 (i + 4) E F G H A B C D; ROUND_16_63 (i + 5) D E F G H A B C;
   ROUND_16_63 (i + 6) C D E F G H A B; ROUND_16_63 (i + 7) B C D E F G H A].
Definition sha256_calls : list call :=
  [LOAD 0; ROUND_00_15 0 A B C D E F G H; LOAD 1; ROUND_00_15 1 H A B C D E F G; LOAD 2;
   ROUND_00_15 2 G H A B C D E F; LOAD 3; ROUND_00_15 3 F G H A B C D E; LOAD 4;
   ROUND_00_15 4 E F G H A B C D; LOAD 5; ROUND_00_15 5 D E F G H A B C; LOAD 6;
   ROUND_00_15 6 C D E F G H A B; LOAD 7; ROUND_00_15 7 B C D E F G H A; LOAD 8;
   ROUND_00_15 8 A B C D E F G H; LOAD 9; ROUND_00_15 9 H A B C D E F G; LOAD 10;
   ROUND_00_15 10 G H A B C D E F; LOAD 11; ROUND_00_15 11 F G H A B C D E; LOAD 12;
   ROUND_00_15 12 E F G H A B C D; LOAD 13; ROUND_00_15 13 D E F G H A B C; LOAD 14;
   ROUND_00_15 14 C D E F G H A B; LOAD 15; ROUND_00_15 15 B C D E F G H A] ++
  concat (map loop_calls [16; 24; 32; 40; 48; 56])%nat.

(** The locals are written before they are read; here they start at zero. *)
Fixpoint sha256_block_data_order (state : list Z) (data : bytes) (num : nat) : list Z :=
  match num with
  | O => state
  | S num =>
      let s := {| regs := [nth 0 state 0; nth 1 state 0; nth 2 state 0; nth 3 state 0; nth 4 state 0; nth 5 state 0;
                           nth 6 state 0; nth 7 state 0; 0];
                  XX := replicate 16 0; ptr := data |} in
      let s := foldl exec_call s sha256_calls in
      let state := [u32 (nth 0 state 0 + reg s A); u32 (nth 1 state 0 + reg s B); u32 (nth 2 state 0 + reg s C);
                    u32 (nth 3 state 0 + reg s D); u32 (nth 4 state 0 + reg s E); u32 (nth 5 state 0 + reg s F);
                    u32 (nth 6 state 0 + reg s G); u32 (nth 7 state 0 + reg s H)] in
      sha256_block_data_order state (ptr s) num
  end.

(** ** FIPS 180-4, section 6.2 *)

Definition fips_Sigma0 (x : Z) : Z := ROTR 32 2 x .^ ROTR 32 13 x .^ ROTR 32 22 x.
Definition fips_Sigma1 (x : Z) : Z := ROTR 32 6 x .^ ROTR 32 11 x .^ ROTR 32 25 x.
Definition fips_sigma0 (x : Z) : Z := ROTR 32 7 x .^ ROTR 32 18 x .^ (x >>> 3).
Definition fips_sigma1 (x : Z) : Z := ROTR 32 17 x .^ ROTR 32 19 x .^ (x >>> 10).
(** The constants: the first 64 primes and their cube roots. *)
Definition fips_K : list Z := root_fraction 3 <$> primes_below 312.
Lemma fips_K_length : length fips_K = 64%nat.
Proof. by vm_compute. Qed.
Definition sha256_next (w : list Z) : Z :=
  let t := length w in
  u32 (fips_sigma1 (nth (t - 2) w 0) + nth (t - 7) w 0 + fips_sigma0 (nth (t - 15) w 0) + nth (t - 16) w 0).
Definition sha256_W (w : list Z) : list Z := extend sha256_next 48 w.
Definition octet : Type := Z * Z * Z * Z * Z * Z * Z * Z.
Definition sha256_round (w : list Z) (s : octet) (t : nat) : octet :=
  let '(a, b, c, d, e, f, g, h) := s in
  let t1 := u32 (h + fips_Sigma1 e + fips_Ch e f g + nth t fips_K 0 + nth t w 0) in
  let t2 := u32 (fips_Sigma0 a + fips_Maj a b c) in
  (u32 (t1 + t2), a, b, c, u32 (d + t1), e, f, g).
Definition sha256_rounds (w h : list Z) : list Z :=
  let '(a, b, c, d, e, f, g, i) := foldl (sha256_round (sha256_W w))
    (nth 0 h 0, nth 1 h 0, nth 2 h 0, nth 3 h 0, nth 4 h 0, nth 5 h 0, nth 6 h 0, nth 7 h 0) (seq 0 64) in
  [u32 (a + nth 0 h 0); u32 (b + nth 1 h 0); u32 (c + nth 2 h 0); u32 (d + nth 3 h 0); u32 (e + nth 4 h 0);
   u32 (f + nth 5 h 0); u32 (g + nth 6 h 0); u32 (i + nth 7 h 0)].
Definition sha256_compress (h : list Z) (blk : bytes) : list Z := sha256_rounds (be_words 16 blk) h.
Definition sha256_H0 : list Z :=
  [0x6a09e667; 0xbb67ae85; 0x3c6ef372; 0xa54ff53a; 0x510e527f; 0x9b05688c; 0x1f83d9ab; 0x5be0cd19].
Definition sha224_H0 : list Z :=
  [0xc1059ed8; 0x367cd507; 0x3070dd17; 0xf70e5939; 0xffc00b31; 0x68581511; 0x64f98fa7; 0xbefa4fa4].
Definition fips_sha256 (msg : bytes) : bytes :=
  concat (map (be_bytes 4) (iterated sha256_compress 64 sha256_H0 (msg ++ fips_padding (zlen msg)))).
(** SHA-224 starts from other words and drops the last one of the result. *)
Definition fips_sha224 (msg : bytes) : bytes :=
  concat (map (be_bytes 4) (take 7 (iterated sha256_compress 64 sha224_H0 (msg ++ fips_padding (zlen msg))))).

(** ** The list of calls, as a function of the round *)

Definition first_call (i : nat) : call :=
  ROUND_00_15 i (at_ 8 i 0) (at_ 8 i 1) (at_ 8 i 2) (at_ 8 i 3) (at_ 8 i 4) (at_ 8 i 5) (at_ 8 i 6) (at_ 8 i 7).
Definition later_call (i : nat) : call :=
  ROUND_16_63 i (at_ 8 i 0) (at_ 8 i 1) (at_ 8 i 2) (at_ 8 i 3) (at_ 8 i 4) (at_ 8 i 5) (at_ 8 i 6) (at_ 8 i 7).
Lemma sha256_calls_eq : sha256_calls =
  concat (map (λ i, [LOAD i; first_call i]) (seq 0 16)) ++ map later_call (seq 16 48).
Proof. reflexivity. Qed.

(** ** Every call computes its round *)

Lemma Sigma0_fips x : Sigma0 x = fips_Sigma0 x.
Proof. unfold Sigma0, fips_Sigma0. by rewrite !rotr_u32_ROTR by lia. Qed.
Lemma Sigma1_fips x : Sigma1 x = fips_Sigma1 x.
Proof. unfold Sigma1, fips_Sigma1. by rewrite !rotr_u32_ROTR by lia. Qed.
Lemma sigma0_fips x : sigma0 x = fips_sigma0 x.
Proof. unfold sigma0, fips_sigma0. by rewrite !rotr_u32_ROTR by lia. Qed.
Lemma sigma1_fips x : sigma1 x = fips_sigma1 x.
Proof. unfold sigma1, fips_sigma1. by rewrite !rotr_u32_ROTR by lia. Qed.
Lemma Ch_fips x y z : u32 (Ch x y z) = u32 (fips_Ch x y z).
Proof.
  unfold Ch, fips_Ch, wrap. apply Z.bits_inj'. intros n Hn. destruct (Z.ltb_spec n 32).
  - rewrite !Z.mod_pow2_bits_low, !Z.lxor_spec, !Z.land_spec, Z.ldiff_spec, Z.mod_pow2_bits_low, Z.lnot_spec by lia.
    by destruct (Z.testbit x n), (Z.testbit y n), (Z.testbit z n).
  - by rewrite !Z.mod_pow2_bits_high by lia.
Qed.

Definition view (i : nat) (s : vars) : octet :=
  (reg s (at_ 8 i 0), reg s (at_ 8 i 1), reg s (at_ 8 i 2), reg s (at_ 8 i 3),
   reg s (at_ 8 i 4), reg s (at_ 8 i 5), reg s (at_ 8 i 6), reg s (at_ 8 i 7)).

(** The table is the one of the standard. *)
Lemma K256_fips : fips_K = K256.
Proof. by vm_compute. Qed.
(** A round, once its word is in [T1]. *)
Lemma round_step W i s : length (regs s) = 9%nat → reg s T1 = nth i W 0 →
  let s' := round_00_15 i (at_ 8 i 0) (at_ 8 i 1) (at_ 8 i 2) (at_ 8 i 3) (at_ 8 i 4) (at_ 8 i 5) (at_ 8 i 6) (at_ 8 i 7) s in
  view (S i) s' = sha256_round W (view i s) i ∧ length (regs s') = 9%nat ∧ XX s' = XX s ∧ ptr s' = ptr s.
Proof.
  intros Hl HT s'. split; [|by subst s'; unfold round_00_15; rewrite !length_set_reg].
  assert (∀ p, at_ 8 i p < 8)%nat as Hlt by (intros p; by apply at_lt).
  pose proof (Hlt 0%nat). pose proof (Hlt 1%nat). pose proof (Hlt 2%nat). pose proof (Hlt 3%nat).
  pose proof (Hlt 4%nat). pose proof (Hlt 5%nat). pose proof (Hlt 6%nat). pose proof (Hlt 7%nat).
  unfold view. rewrite at_0, !at_S by lia. change (8 - 1)%nat with 7%nat. unfold sha256_round. rewrite K256_fips.
  set (t1 := u32 (_ + nth i W 0)). set (t2 := u32 (fips_Sigma0 _ + _)).
  subst s'. unfold round_00_15.
  assert (u32 (reg s T1 + (reg s (at_ 8 i 7) + Sigma1 (reg s (at_ 8 i 4)) +
    Ch (reg s (at_ 8 i 4)) (reg s (at_ 8 i 5)) (reg s (at_ 8 i 6)) + nth i K256 0)) = t1) as ->.
  { subst t1. rewrite HT, Sigma1_fips.
    generalize (reg s (at_ 8 i 4)), (reg s (at_ 8 i 5)), (reg s (at_ 8 i 6)). intros e f g.
    pose proof (u32_congr _ _ (nth i W 0 + reg s (at_ 8 i 7) + fips_Sigma1 e + nth i K256 0) (Ch_fips e f g)) as E.
    etransitivity; [|etransitivity; [exact E|]]; f_equal; lia. }
  clearbody t1. cbv zeta. reg_simpl.
  assert (u32 (Sigma0 (reg s (at_ 8 i 0)) + Maj (reg s (at_ 8 i 0)) (reg s (at_ 8 i 1)) (reg s (at_ 8 i 2))) = t2) as ->
    by (subst t2; by rewrite Sigma0_fips).
  by rewrite (Z.add_comm t2).
Qed.

Section Rounds.
Context (w0 W h : list Z) (data : bytes).
Hypothesis w0_loaded : w0 = loaded CRYPTO_load_u32_be 16 data.
Hypothesis W_eq : W = sha256_W w0.
Definition start : octet := (nth 0 h 0, nth 1 h 0, nth 2 h 0, nth 3 h 0, nth 4 h 0, nth 5 h 0, nth 6 h 0, nth 7 h 0).
Definition after (i : nat) : octet := foldl (sha256_round W) start (seq 0 i).

(** Before round [i]. *)
Definition inv (i : nat) (s : vars) : Prop :=
  length (regs s) = 9%nat ∧ window W i i (XX s) ∧ view i s = after i ∧ ptr s = drop (4 * Nat.min i 16) data.

Lemma sha256_W_old t : (t < 16)%nat → nth t W 0 = CRYPTO_load_u32_be (drop (4 * t) data).
Proof. intros Ht. rewrite W_eq, w0_loaded. by apply nth_extend_loaded. Qed.
Lemma sha256_W_new t : (16 ≤ t < 64)%nat →
  nth t W 0 = u32 (fips_sigma1 (nth (t - 2) W 0) + nth (t - 7) W 0 + fips_sigma0 (nth (t - 15) W 0) + nth (t - 16) W 0).
Proof.
  intros Ht. assert (length w0 = 16%nat) as Hw by (rewrite w0_loaded; apply length_loaded).
  assert (nth t W 0 = sha256_next (take t W)) as -> by (rewrite W_eq; apply (extend_new sha256_next 48 w0 t); lia).
  unfold sha256_next. assert (length W = 64%nat) as HW by (rewrite W_eq; unfold sha256_W; by rewrite extend_length, Hw).
  by rewrite length_take, HW, Nat.min_l, !nth_take by lia.
Qed.
Lemma sha256_after_step i : after (S i) = sha256_round W (after i) i.
Proof. unfold after. by rewrite seq_S, foldl_app. Qed.

(** With the word of the round in [T1] and in the array, a round restores the invariant. *)
Lemma inv_round i s x p : inv i s → x = <[wd i 0 := nth i W 0]> (XX s) → p = drop (4 * Nat.min (S i) 16) data →
  inv (S i) (exec_call {| regs := regs (set_reg T1 (nth i W 0) s); XX := x; ptr := p |} (first_call i)).
Proof.
  clear W_eq. intros (Hr & Hw & Hv & Hp) -> ->. set (s1 := {| regs := _ |}).
  destruct (round_step W i s1) as (Hv' & Hr' & Hx' & Hp'); [by subst s1; cbn [regs]; rewrite length_set_reg| |].
  { apply (reg_set_eq s). lia. }
  unfold first_call, inv. cbn [exec_call]. rewrite Hv', Hx', Hp'. split_and!; [done|by apply window_store| |done].
  rewrite sha256_after_step, <- Hv. f_equal.
  assert (∀ p, reg s1 (at_ 8 i p) = reg s (at_ 8 i p)) as E.
  { intros q. pose proof (at_lt 8 i q). apply (reg_set_ne s). lia. }
  clearbody s1. unfold view. rewrite !E. reflexivity.
Qed.
Lemma sha256_inv_first i s : (i < 16)%nat → inv i s → inv (S i) (exec_call (exec_call s (LOAD i)) (first_call i)).
Proof.
  intros Hi Hinv. pose proof Hinv as (Hr & Hw & Hv & Hp). cbn [exec_call]. rewrite Hp, Nat.min_l, <- sha256_W_old by lia.
  apply (inv_round i s (<[i := nth i W 0]> (XX s))); [exact Hinv| |].
  - unfold wd. rewrite Nat.add_0_r, Nat.mod_small by lia. reflexivity.
  - change (drop 4 (ptr s) = drop (4 * Nat.min (S i) 16) data). rewrite Hp, drop_drop. f_equal. lia.
Qed.
Lemma land_15 n : Nat.land n 15 = (n mod 16)%nat.
Proof. apply (Nat.land_ones n 4). Qed.
Lemma inv_later i s : (16 ≤ i < 64)%nat → inv i s → inv (S i) (exec_call s (later_call i)).
Proof.
  intros Hi Hinv. pose proof Hinv as (Hr & Hw & Hv & Hp). unfold later_call. cbn [exec_call].
  rewrite !land_15. change ((i + 1) mod 16)%nat with (wd i 1). change ((i + 14) mod 16)%nat with (wd i 14).
  change ((i + 9) mod 16)%nat with (wd i 9). 
  assert ((i mod 16)%nat = wd i 0) as -> by (unfold wd; by rewrite Nat.add_0_r).
  unfold X. rewrite !(window_back W i) by (exact Hw || lia).
  assert (u32 (nth (i - (16 - 0)) W 0 + (sigma0 (nth (i - (16 - 1)) W 0) + sigma1 (nth (i - (16 - 14)) W 0) +
    nth (i - (16 - 9)) W 0)) = nth i W 0) as ->.
  { rewrite (sha256_W_new i Hi), sigma0_fips, sigma1_fips. f_equal. rewrite Nat.sub_0_r. change (16 - 1)%nat with 15%nat.
    change (16 - 14)%nat with 2%nat. change (16 - 9)%nat with 7%nat. lia. }
  apply (inv_round i s _ (ptr s)); [exact Hinv|reflexivity|]. rewrite Hp. f_equal. lia.
Qed.
Lemma sha256_inv_all s : inv 0 s → inv 64 (foldl exec_call s sha256_calls).
Proof.
  intros Hs. rewrite sha256_calls_eq, foldl_app.
  assert (∀ n, (n ≤ 16)%nat → inv n (foldl exec_call s (concat (map (λ i, [LOAD i; first_call i]) (seq 0 n))))) as H1.
  { induction n as [|n IH]; intros Hn; [done|]. rewrite seq_S, map_app, concat_app, foldl_app. apply sha256_inv_first; [lia|]. apply IH. lia. }
  specialize (H1 16%nat (le_n _)). set (s1 := foldl _ s _) in *. clearbody s1.
  assert (∀ n, (n ≤ 48)%nat → inv (16 + n) (foldl exec_call s1 (map later_call (seq 16 n)))) as H2; [|by apply (H2 48%nat)].
  induction n as [|n IH]; intros Hn; [done|]. rewrite seq_S, map_app, foldl_app, <- plus_n_Sm. apply inv_later; [lia|]. apply IH. lia.
Qed.
End Rounds.

(** ** The block function *)

Lemma sha256_inv_start W h data : inv W h data 0
  {| regs := [nth 0 h 0; nth 1 h 0; nth 2 h 0; nth 3 h 0; nth 4 h 0; nth 5 h 0; nth 6 h 0; nth 7 h 0; 0];
     XX := replicate 16 0; ptr := data |}.
Proof. unfold inv, window. split_and!; [reflexivity|reflexivity|intros; lia|reflexivity..]. Qed.
Lemma sha256_inv_end W h data s : inv W h data 64 s →
  (reg s A, reg s B, reg s C, reg s D, reg s E, reg s F, reg s G, reg s H) = after W h 64 ∧ ptr s = drop 64 data.
Proof. intros (_ & _ & Hv & Hp). split; [exact Hv|exact Hp]. Qed.
Lemma sha256_run_block h data : let s := foldl exec_call
  {| regs := [nth 0 h 0; nth 1 h 0; nth 2 h 0; nth 3 h 0; nth 4 h 0; nth 5 h 0; nth 6 h 0; nth 7 h 0; 0];
     XX := replicate 16 0; ptr := data |} sha256_calls in
  (reg s A, reg s B, reg s C, reg s D, reg s E, reg s F, reg s G, reg s H) =
    after (sha256_W (loaded CRYPTO_load_u32_be 16 data)) h 64 ∧ ptr s = drop 64 data.
Proof. cbv zeta. apply sha256_inv_end. eapply sha256_inv_all; [reflexivity..|]. apply sha256_inv_start. Qed.
Lemma sha256_after_eq W h i : after W h i = foldl (sha256_round W)
  (nth 0 h 0, nth 1 h 0, nth 2 h 0, nth 3 h 0, nth 4 h 0, nth 5 h 0, nth 6 h 0, nth 7 h 0) (seq 0 i).
Proof. done. Qed.
Lemma sha256_block_spec h data n : sha256_block_data_order h data (S n) =
  sha256_block_data_order (sha256_rounds (loaded CRYPTO_load_u32_be 16 data) h) (drop 64 data) n.
Proof.
  cbn [sha256_block_data_order]. pose proof (sha256_run_block h data) as Hr. cbv zeta in Hr.
  set (s := foldl exec_call _ _) in *. clearbody s. destruct Hr as [Hv ->]. f_equal.
  rewrite sha256_after_eq in Hv. unfold sha256_rounds. rewrite <- Hv. do 7 (f_equal; [f_equal; lia|]). do 2 f_equal. lia.
Qed.
Lemma sha256_one h data : sha256_block_data_order h data 1 = sha256_block_data_order h (take 64 data) 1.
Proof.
  rewrite !sha256_block_spec. cbn [sha256_block_data_order]. f_equal. symmetry. apply (loaded_take _ 16 data).
Qed.
Lemma sha256_more h data n : sha256_block_data_order h data (S n) =
  sha256_block_data_order (sha256_block_data_order h (take 64 data) 1) (drop 64 data) n.
Proof.
  rewrite <- (sha256_one h data), (sha256_block_spec h data n), (sha256_block_spec h data 0).
  cbn [sha256_block_data_order]. reflexivity.
Qed.
#[export] Instance sha256_md32 : Md32Block := {|
  block_size := SHA256_CBLOCK; block_func := sha256_block_data_order;
  block_size_min := ltac:(unfold SHA256_CBLOCK; lia);
  block_func_one := λ h data _, sha256_one h data;
  block_func_more := λ h data n _ _, sha256_more h data n |}.

(** ** The interface *)

(** [SHA256_CTX]: the collector's context and the length of the digest. *)
Record sha256_ctx := { sha : md32; md_len : Z }.
Definition SHA256_Init : sha256_ctx := {|
  sha := {| md_h := [0x6a09e667; 0xbb67ae85; 0x3c6ef372; 0xa54ff53a; 0x510e527f; 0x9b05688c; 0x1f83d9ab; 0x5be0cd19];
            md_Nl := 0; md_Nh := 0; md_data := replicate SHA256_CBLOCK 0; md_num := 0 |};
  md_len := SHA256_DIGEST_LENGTH |}.
Definition SHA224_Init : sha256_ctx := {|
  sha := {| md_h := [0xc1059ed8; 0x367cd507; 0x3070dd17; 0xf70e5939; 0xffc00b31; 0x68581511; 0x64f98fa7; 0xbefa4fa4];
            md_Nl := 0; md_Nh := 0; md_data := replicate SHA256_CBLOCK 0; md_num := 0 |};
  md_len := SHA224_DIGEST_LENGTH |}.
Definition SHA256_Update (c : sha256_ctx) (data : bytes) : sha256_ctx :=
  {| sha := crypto_md32_update (sha c) data; md_len := md_len c |}.
Definition SHA224_Update (c : sha256_ctx) (data : bytes) : sha256_ctx := SHA256_Update c data.
(** The digest, or [None] for the zero return. *)
Definition sha256_final_impl (c : sha256_ctx) : option bytes * sha256_ctx :=
  let m := crypto_md32_final (sha c) true in
  let c := {| sha := m; md_len := md_len c |} in
  if SHA256_DIGEST_LENGTH <? md_len c then (None, c)
  else
    let out_words := Z.to_nat (md_len c / 4) in
    (Some (concat (map (λ i, CRYPTO_store_u32_be (nth i (md_h m) 0)) (seq 0 out_words))), c).
Definition SHA256_Final (c : sha256_ctx) : option bytes * sha256_ctx := sha256_final_impl c.
Definition SHA224_Final (c : sha256_ctx) : option bytes * sha256_ctx := sha256_final_impl c.
Definition SHA256 (data : bytes) : option bytes := (SHA256_Final (SHA256_Update SHA256_Init data)).1.
Definition SHA224 (data : bytes) : option bytes := (SHA224_Final (SHA224_Update SHA224_Init data)).1.
Definition SHA256_Transform (c : sha256_ctx) (data : bytes) : sha256_ctx :=
  let m := sha c in
  {| sha := {| md_h := sha256_block_data_order (md_h m) data 1; md_Nl := md_Nl m; md_Nh := md_Nh m;
               md_data := md_data m; md_num := md_num m |};
     md_len := md_len c |}.
Definition SHA256_TransformBlocks (state : list Z) (data : bytes) (num_blocks : nat) : list Z :=
  sha256_block_data_order state data num_blocks.

(** ** The digests *)

Lemma words_ok_sha256 h w : words_ok 8 (sha256_rounds w h).
Proof.
  unfold sha256_rounds. destruct (foldl _ _ _) as [[[[[[[a b] c] d] e] f] g] i]. split; [done|].
  repeat (apply Forall_cons_2; [by apply wrap_is_uint|]). done.
Qed.
Lemma sha256_block_compress h blk : length blk = 64%nat → bytes_ok blk → block_func h blk 1 = sha256_compress h blk.
Proof.
  intros Hb Hok. change (block_func h blk 1) with (sha256_block_data_order h blk 1).
  rewrite sha256_block_spec. cbn [sha256_block_data_order]. unfold sha256_compress. by rewrite (loaded_be 16).
Qed.
Lemma update_sessions c chunks : foldl SHA256_Update c chunks =
  {| sha := foldl crypto_md32_update (sha c) chunks; md_len := md_len c |}.
Proof. revert c. induction chunks as [|x l IH]; intros c; [by destruct c|]. cbn [foldl]. by rewrite IH. Qed.
(** What [sha256_final_impl] writes, for either hash. *)
Lemma session_digest h0 len chunks : words_ok 8 h0 → 0 ≤ len ≤ 32 → Forall bytes_ok chunks → Forall (λ c, zlen c < 2 ^ 64) chunks →
  (sha256_final_impl (foldl SHA256_Update {| sha := init_md32 h0; md_len := len |} chunks)).1 =
  Some (concat (map (be_bytes 4) (take (Z.to_nat (len / 4))
    (iterated sha256_compress 64 h0 (concat chunks ++ fips_padding (zlen (concat chunks))))))).
Proof.
  intros Hh Hn Hok Hlen. rewrite update_sessions. unfold sha256_final_impl. cbn [sha md_len].
  unfold SHA256_DIGEST_LENGTH. rewrite (proj2 (Z.ltb_ge 32 len)) by lia. cbn [fst].
  rewrite (@session_hash sha256_md32 true sha256_compress h0 chunks sha256_block_compress Hok Hlen).
  change (md_padding true) with fips_padding. change block_size with 64%nat. f_equal. apply (store_be_take 8); [lia|].
  apply iterated_inv; [done|]. intros. apply words_ok_sha256.
Qed.

(** C31: SHA-256 and SHA-224 are the hashes of FIPS 180-4, whatever the pieces the message is
    passed in and whatever its length: the unrolled rounds, whose registers rotate and whose
    schedule lives in sixteen words, compute the 64 rounds of the standard. *)
Theorem SHA256_session_exact chunks : Forall bytes_ok chunks → Forall (λ c, zlen c < 2 ^ 64) chunks →
  (SHA256_Final (foldl SHA256_Update SHA256_Init chunks)).1 = Some (fips_sha256 (concat chunks)) ∧
  (SHA224_Final (foldl SHA224_Update SHA224_Init chunks)).1 = Some (fips_sha224 (concat chunks)).
Proof.
  intros Hok Hlen. split.
  - etransitivity; [apply (session_digest sha256_H0 32 chunks); [by split; [|repeat constructor]|lia|done..]|].
    unfold fips_sha256. do 3 f_equal. apply take_ge.
    pose proof (iterated_inv (words_ok 8) sha256_compress 64 sha256_H0 (concat chunks ++ fips_padding (zlen (concat chunks)))) as [-> _];
      [by split; [|repeat constructor]|intros; apply words_ok_sha256|done].
  - apply (session_digest sha224_H0 28 chunks); [by split; [|repeat constructor]|lia|done..].
Qed.
Lemma SHA256_session_exact_witness :
  (SHA256_Final (foldl SHA256_Update SHA256_Init [[97]; []; [98; 99]])).1 = Some (fips_sha256 [97; 98; 99]) ∧
  (SHA224_Final (foldl SHA224_Update SHA224_Init [[97]; []; [98; 99]])).1 = Some (fips_sha224 [97; 98; 99]).
Proof. apply (SHA256_session_exact [[97]; []; [98; 99]]); repeat constructor; done. Defined.
Lemma SHA256_abc : SHA256 [97; 98; 99] = Some
  [0xba; 0x78; 0x16; 0xbf; 0x8f; 0x01; 0xcf; 0xea; 0x41; 0x41; 0x40; 0xde; 0x5d; 0xae; 0x22; 0x23;
   0xb0; 0x03; 0x61; 0xa3; 0x96; 0x17; 0x7a; 0x9c; 0xb4; 0x10; 0xff; 0x61; 0xf2; 0x00; 0x15; 0xad].
Proof. by vm_compute. Qed.
