(* ===== verification/ConstTime.v ===== *)
(** * Constant-time comparisons and selections ([crypto/internal.h])

    [crypto_word_t] is 64 bits wide.  The value barriers return their argument. *)
From S2P Require Export Prelude.

Definition not_w (a : Z) : Z := 2 ^ 64 - 1 - a.
Definition value_barrier_w (a : Z) : Z := a.
Definition CONSTTIME_TRUE_W : Z := not_w 0.
Definition CONSTTIME_FALSE_W : Z := 0.
Definition CONSTTIME_TRUE_8 : Z := 0xff.
Definition CONSTTIME_FALSE_8 : Z := 0.

Definition constant_time_msb_w (a : Z) : Z := u64 (0 - (a >>> (8 * 8 - 1))).
Definition constant_time_lt_w (a b : Z) : Z := constant_time_msb_w (a .^ ((a .^ b) .| (u64 (a - b) .^ a))).
Definition constant_time_lt_8 (a b : Z) : Z := u8 (constant_time_lt_w a b).
Definition constant_time_ge_w (a b : Z) : Z := not_w (constant_time_lt_w a b).
Definition constant_time_ge_8 (a b : Z) : Z := u8 (constant_time_ge_w a b).
Definition constant_time_is_zero_w (a : Z) : Z := constant_time_msb_w (not_w a .& u64 (a - 1)).
Definition constant_time_is_zero_8 (a : Z) : Z := u8 (constant_time_is_zero_w a).
Definition constant_time_eq_w (a b : Z) : Z := constant_time_is_zero_w (a .^ b).
Definition constant_time_eq_8 (a b : Z) : Z := u8 (constant_time_eq_w a b).
(** The conversions of an [int] to [crypto_word_t] and back. *)
Definition constant_time_eq_int (a b : Z) : Z := constant_time_eq_w (u64 a) (u64 b).
Definition constant_time_eq_int_8 (a b : Z) : Z := constant_time_eq_8 (u64 a) (u64 b).
Definition constant_time_select_w (mask a b : Z) : Z := (value_barrier_w mask .& a) .| (value_barrier_w (not_w mask) .& b).
Definition constant_time_select_8 (mask a b : Z) : Z := u8 (constant_time_select_w mask a b).
Definition constant_time_select_int (mask a b : Z) : Z := s32 (constant_time_select_w mask (u64 a) (u64 b)).

(** ** Masks *)

Definition mask_w (c : bool) : Z := if c then CONSTTIME_TRUE_W else CONSTTIME_FALSE_W.
Definition mask_8 (c : bool) : Z := if c then CONSTTIME_TRUE_8 else CONSTTIME_FALSE_8.
(** [c] selects [a] over [b]. *)
Definition choose (c : bool) (a b : Z) : Z := if c then a else b.

Lemma u8_mask c : u8 (mask_w c) = mask_8 c.
Proof. by destruct c. Qed.
Lemma not_mask c : not_w (mask_w c) = mask_w (negb c).
Proof. by destruct c. Qed.

Lemma testbit_63 a : is_u64 a → Z.testbit a 63 = (2 ^ 63 <=? a).
Proof.
  intros Ha. pose proof (Z.testbit_spec' a 63 ltac:(lia)) as H.
  destruct (Z.leb_spec (2 ^ 63) a), (Z.testbit a 63); try done; word_bounds; cbn [Z.b2z] in H;
    change (2 ^ 63) with 9223372036854775808 in *; lia.
Qed.
Lemma msb_mask a : is_u64 a → constant_time_msb_w a = mask_w (Z.testbit a 63).
Proof.
  intros Ha. unfold constant_time_msb_w. rewrite shiftr_div, testbit_63 by (done || lia).
  destruct (Z.leb_spec (2 ^ 63) a); change (8 * 8 - 1) with 63; change (2 ^ 63) with 9223372036854775808 in *;
    unfold wrap, mask_w, CONSTTIME_TRUE_W, CONSTTIME_FALSE_W, not_w; word_lia.
Qed.
Lemma testbit_not a i : is_u64 a → 0 ≤ i < 64 → Z.testbit (not_w a) i = negb (Z.testbit a i).
Proof.
  intros Ha Hi. assert (not_w a = Z.lnot a + 1 * 2 ^ 64) as -> by (unfold not_w, Z.lnot; lia).
  rewrite <- (Z.mod_pow2_bits_low _ 64) by lia. rewrite Z.mod_add by done.
  rewrite Z.mod_pow2_bits_low by lia. apply Z.lnot_spec. lia.
Qed.

Lemma is_u64_sub a b : is_u64 (u64 (a - b)).
Proof. by apply wrap_is_uint. Qed.
Lemma is_u64_not a : is_u64 a → is_u64 (not_w a).
Proof. unfold not_w. word_lia. Qed.
#[export] Hint Resolve is_u64_sub is_u64_not : words.

Lemma lt_w_mask a b : is_u64 a → is_u64 b → constant_time_lt_w a b = mask_w (a <? b).
Proof.
  intros Ha Hb. unfold constant_time_lt_w. rewrite msb_mask by auto 10 with words. f_equal.
  rewrite Z.lxor_spec, Z.lor_spec, !Z.lxor_spec, !testbit_63 by auto with words.
  change (2 ^ 63) with 9223372036854775808. unfold wrap. word_bounds.
  destruct (Z.ltb_spec a b), (Z.leb_spec 9223372036854775808 a), (Z.leb_spec 9223372036854775808 b),
    (Z.leb_spec 9223372036854775808 ((a - b) mod 18446744073709551616)); try done; lia.
Qed.
Lemma is_zero_w_mask a : is_u64 a → constant_time_is_zero_w a = mask_w (a =? 0).
Proof.
  intros Ha. unfold constant_time_is_zero_w. rewrite msb_mask by auto with words. f_equal.
  rewrite Z.land_spec, testbit_not, !testbit_63 by (auto with words || lia).
  change (2 ^ 63) with 9223372036854775808. unfold wrap. word_bounds.
  destruct (Z.eqb_spec a 0), (Z.leb_spec 9223372036854775808 a),
    (Z.leb_spec 9223372036854775808 ((a - 1) mod 18446744073709551616)); try done; lia.
Qed.
Lemma eq_w_mask a b : is_u64 a → is_u64 b → constant_time_eq_w a b = mask_w (a =? b).
Proof.
  intros Ha Hb. unfold constant_time_eq_w. rewrite is_zero_w_mask by auto with words. f_equal.
  destruct (Z.eqb_spec a b) as [->|Hn]; [by rewrite Z.lxor_nilpotent|].
  apply Z.eqb_neq. intros E. by apply Hn, Z.lxor_eq.
Qed.
Lemma select_w_mask c a b : is_u64 a → is_u64 b → constant_time_select_w (mask_w c) a b = choose c a b.
Proof.
  intros Ha Hb. unfold constant_time_select_w, value_barrier_w. rewrite not_mask.
  destruct c; cbn [negb mask_w choose]; unfold CONSTTIME_FALSE_W, CONSTTIME_TRUE_W, not_w;
    rewrite Z.land_0_l, ?Z.lor_0_r, ?Z.lor_0_l, Z.land_comm, Z.sub_0_r, land_ones_mod by done;
    by apply Z.mod_small.
Qed.

(** ** The promises of the interface *)

Definition is_int (x : Z) : Prop := - 2 ^ 31 ≤ x < 2 ^ 31.

(** The branch-free comparisons return an all-ones mask when the comparison of the unsigned
    words holds and zero otherwise, for every pair of words, including those whose difference
    wraps; the [int] variants compare signed integers. *)
Theorem constant_time_compare_exact a b : is_u64 a → is_u64 b →
  constant_time_lt_w a b = mask_w (a <? b) ∧ constant_time_lt_8 a b = mask_8 (a <? b) ∧
  constant_time_ge_w a b = mask_w (b <=? a) ∧ constant_time_ge_8 a b = mask_8 (b <=? a) ∧
  constant_time_eq_w a b = mask_w (a =? b) ∧ constant_time_eq_8 a b = mask_8 (a =? b) ∧
  constant_time_is_zero_w a = mask_w (a =? 0) ∧ constant_time_is_zero_8 a = mask_8 (a =? 0) ∧
  ∀ x y, is_int x → is_int y →
    constant_time_eq_int x y = mask_w (x =? y) ∧ constant_time_eq_int_8 x y = mask_8 (x =? y).
Proof.
  intros Ha Hb. unfold constant_time_lt_8, constant_time_ge_8, constant_time_ge_w, constant_time_eq_8,
    constant_time_is_zero_8, constant_time_eq_int, constant_time_eq_int_8, constant_time_eq_8.
  rewrite lt_w_mask, eq_w_mask, is_zero_w_mask, not_mask, !u8_mask, <- Z.leb_antisym by done.
  split_and!; try done. intros x y Hx Hy. rewrite eq_w_mask, u8_mask by auto with words.
  assert ((u64 x =? u64 y) = (x =? y)) as ->; [|done].
  unfold is_int in *. change (2 ^ 31) with 2147483648 in *. unfold wrap. word_bounds.
  destruct (Z.eqb_spec x y); [subst; apply Z.eqb_refl|apply Z.eqb_neq; lia].
Qed.
(** The branch-free selections return the first value under an all-ones mask and the second
    under a zero mask, at each width. *)
Theorem constant_time_select_exact c a b :
  (is_u64 a → is_u64 b → constant_time_select_w (mask_w c) a b = choose c a b) ∧
  (is_u8 a → is_u8 b → constant_time_select_8 (mask_8 c) a b = choose c a b) ∧
  (is_int a → is_int b → constant_time_select_int (mask_w c) a b = choose c a b).
Proof.
  split_and!; intros Ha Hb.
  - by apply select_w_mask.
  - assert (is_u64 a ∧ is_u64 b) as [Ha' Hb'] by word_lia.
    unfold constant_time_select_8, constant_time_select_w, value_barrier_w.
    destruct c; unfold mask_8, CONSTTIME_TRUE_8, CONSTTIME_FALSE_8; cbn [choose].
    + unfold wrap. rewrite <- (land_ones_mod _ 8), Z.land_lor_distr_l, <- !Z.land_assoc by done.
      change (2 ^ 8 - 1) with 0xff. rewrite (Z.land_comm a 0xff), (Z.land_comm b 0xff), !Z.land_assoc.
      change (255 .& 255) with 255. change (not_w 255 .& 255) with 0. rewrite Z.land_0_l, Z.lor_0_r.
      rewrite Z.land_comm, land_ff. by apply Z.mod_small.
    + rewrite Z.land_0_l, Z.lor_0_l. unfold not_w. rewrite Z.sub_0_r, Z.land_comm, land_ones_mod by done.
      rewrite (Z.mod_small b) by done. by apply wrap_small.
  - unfold constant_time_select_int. rewrite select_w_mask by auto with words.
    unfold is_int in *. change (2 ^ 31) with 2147483648 in *.
    assert (∀ x, - 2147483648 ≤ x < 2147483648 → s32 (u64 x) = x) as Hs.
    { intros x Hx. unfold swrap, wrap. change (2 ^ (32 - 1)) with 2147483648. word_bounds.
      rewrite Z.mod_mod_divide by by exists 4294967296.
      destruct (Z.ltb_spec (x mod 4294967296) 2147483648); lia. }
    by destruct c; apply Hs.
Qed.
Lemma constant_time_compare_exact_witness :
  constant_time_lt_w 5 (2 ^ 64 - 1) = mask_w (5 <? 2 ^ 64 - 1).
Proof.
  destruct (constant_time_compare_exact 5 (2 ^ 64 - 1)) as [Hlt _]; [by split|by split|exact Hlt].
Defined.
Lemma constant_time_select_exact_witness : constant_time_select_8 (mask_8 true) 62 255 = 62.
Proof. destruct (constant_time_select_exact true 62 255) as (_ & Hs & _). by apply Hs. Defined.
