(* ===== verification/Base64.v ===== *)
(** * Base64 ([crypto/base64/base64.c])

    Encoding and decoding of blocks and the streaming interface used for PEM.  An output
    pointer is an array and an index into it; a caller that passes too small an array has
    undefined behaviour, so the theorems ask for room. *)
From S2P Require Export ConstTime.

Definition constant_time_lt_args_8 (a b : Z) : Z := u8 (constant_time_msb_w (u64 (a - b))).
Definition constant_time_in_range_8 (a min max : Z) : Z :=
  let a := u8 (a - min) in constant_time_lt_args_8 a (u8 (max - min + 1)).

(** ** Encoding *)

Definition conv_bin2ascii (a : Z) : Z :=
  let a := a .& 0x3f in
  let ret := constant_time_select_8 (constant_time_eq_8 a 62) 43 47 in
  let ret := constant_time_select_8 (constant_time_lt_args_8 a 62) (u8 (a - 52 + 48)) ret in
  let ret := constant_time_select_8 (constant_time_lt_args_8 a 52) (u8 (a - 26 + 97)) ret in
  let ret := constant_time_select_8 (constant_time_lt_args_8 a 26) (u8 (a + 65)) ret in
  ret.

Definition EVP_EncodedLength (len : Z) : option Z :=
  if u64 (len + 2) <? len then None
  else
    let len := u64 (len + 2) / 3 in
    if negb ((len <<64 2) >>> 2 =? len) then None
    else
      let len := len <<64 2 in
      if u64 (len + 1) <? len then None else Some (u64 (len + 1)).

Fixpoint encode_block_loop (dst : bytes) (pos ret : Z) (src : bytes) : bytes * Z :=
  match src with
  | [] => (write_at pos [0] dst, ret)
  | x :: y :: z :: src =>
      let l := ((x <<32 16) .| (y <<32 8)) .| z in
      let dst := write_at pos [conv_bin2ascii (u8 (l >>> 18)); conv_bin2ascii (u8 (l >>> 12));
                               conv_bin2ascii (u8 (l >>> 6)); conv_bin2ascii (u8 l)] dst in
      encode_block_loop dst (pos + 4) (u64 (ret + 4)) src
  | x :: src =>
      let l := x <<32 16 in
      let l := match src with y :: _ => l .| (y <<32 8) | [] => l end in
      let dst := write_at pos [conv_bin2ascii (u8 (l >>> 18)); conv_bin2ascii (u8 (l >>> 12));
                               (match src with [] => 61 | _ => conv_bin2ascii (u8 (l >>> 6)) end); 61] dst in
      (write_at (pos + 4) [0] dst, u64 (ret + 4))
  end.
Definition EVP_EncodeBlock (dst : bytes) (pos : Z) (src : bytes) : bytes * Z := encode_block_loop dst pos 0 src.

(** [EVP_ENCODE_CTX]; [data] has 48 bytes. *)
Record encode_ctx := { data_used : Z; data : bytes; eof_seen : bool; error_encountered : bool }.
Definition EVP_EncodeInit : encode_ctx :=
  {| data_used := 0; data := replicate 48 0; eof_seen := false; error_encountered := false |}.
Definition EVP_DecodeInit : encode_ctx := EVP_EncodeInit.

(** The [while (in_len >= sizeof(ctx->data))] loop, one 48-byte line per call: [None] in the
    last component when the total overflows and the function returns early. *)
Fixpoint encode_lines_loop (fuel : nat) (out : bytes) (pos total : Z) (in_ : bytes) : bytes * option (Z * bytes) :=
  match fuel with
  | O => (out, Some (total, in_))
  | S fuel =>
      if 48 <=? zlen in_ then
        let '(out, encoded) := EVP_EncodeBlock out pos (take 48 in_) in
        let in_ := drop 48 in_ in
        let out := write_at (pos + encoded) [10] out in
        let out := write_at (pos + encoded + 1) [0] out in
        if u64 (total + encoded + 1) <? total then (out, None)
        else encode_lines_loop fuel out (pos + encoded + 1) (u64 (total + encoded + 1)) in_
      else (out, Some (total, in_))
  end.

(** The line that starts with what an earlier call left: the context, the output, the two running
    values [out] and [total], and the rest of the input. *)
Definition encode_pending (ctx : encode_ctx) (out : bytes) (pos : Z) (in_ : bytes) : encode_ctx * bytes * Z * Z * bytes :=
  if negb (data_used ctx =? 0) then
    let todo := 48 - data_used ctx in
    let d := write_at (data_used ctx) (take (Z.to_nat todo) in_) (data ctx) in
    let in_ := drop (Z.to_nat todo) in_ in
    let '(out, encoded) := EVP_EncodeBlock out pos d in
    let ctx := {| data_used := 0; data := d; eof_seen := eof_seen ctx; error_encountered := error_encountered ctx |} in
    let out := write_at (pos + encoded) [10] out in
    let out := write_at (pos + encoded + 1) [0] out in
    (ctx, out, pos + encoded + 1, encoded + 1, in_)
  else (ctx, out, pos, 0, in_).

(** Returns the context, the output array and [*out_len]. *)
Definition EVP_EncodeUpdate (ctx : encode_ctx) (out : bytes) (pos : Z) (in_ : bytes) : encode_ctx * bytes * Z :=
  if zlen in_ =? 0 then (ctx, out, 0)
  else if zlen in_ <? 48 - data_used ctx then
    ({| data_used := data_used ctx + zlen in_; data := write_at (data_used ctx) in_ (data ctx);
        eof_seen := eof_seen ctx; error_encountered := error_encountered ctx |}, out, 0)
  else
    let '(ctx, out, pos, total, in_) := encode_pending ctx out pos in_ in
    match encode_lines_loop (length in_) out pos total in_ with
    | (out, None) => (ctx, out, 0)
    | (out, Some (total, in_)) =>
        let d := if negb (zlen in_ =? 0) then write_at 0 in_ (data ctx) else data ctx in
        ({| data_used := zlen in_; data := d; eof_seen := eof_seen ctx; error_encountered := error_encountered ctx |},
         out, if INT_MAX <? total then 0 else total)
    end.

Definition EVP_EncodeFinal (ctx : encode_ctx) (out : bytes) (pos : Z) : encode_ctx * bytes * Z :=
  if data_used ctx =? 0 then (ctx, out, 0)
  else
    let '(out, encoded) := EVP_EncodeBlock out pos (take (Z.to_nat (data_used ctx)) (data ctx)) in
    let out := write_at (pos + encoded) [10] out in
    let out := write_at (pos + encoded + 1) [0] out in
    ({| data_used := 0; data := data ctx; eof_seen := eof_seen ctx; error_encountered := error_encountered ctx |},
     out, encoded + 1).

(** ** Decoding *)

Definition EVP_DecodedLength (len : Z) : option Z :=
  if negb (len mod 4 =? 0) then None else Some (len / 4 * 3).

Definition base64_ascii_to_bin (a : Z) : Z :=
  let is_upper := constant_time_in_range_8 a 65 90 in
  let is_lower := constant_time_in_range_8 a 97 122 in
  let is_digit := constant_time_in_range_8 a 48 57 in
  let is_plus := constant_time_eq_8 a 43 in
  let is_slash := constant_time_eq_8 a 47 in
  let is_equals := constant_time_eq_8 a 61 in
  let ret := 0 in
  let ret := u8 (ret .| (is_upper .& (a - 65))) in
  let ret := u8 (ret .| (is_lower .& (a - 97 + 26))) in
  let ret := u8 (ret .| (is_digit .& (a - 48 + 52))) in
  let ret := u8 (ret .| (is_plus .& 62)) in
  let ret := u8 (ret .| (is_slash .& 63)) in
  let is_valid := is_upper .| is_lower .| is_digit .| is_plus .| is_slash .| is_equals in
  u8 (ret .| Z.lnot is_valid).

(** The bytes written to [out]; their number is [*out_num_bytes]. *)
Definition base64_decode_quad (i0 i1 i2 i3 : Z) : option bytes :=
  let a := base64_ascii_to_bin i0 in
  let b := base64_ascii_to_bin i1 in
  let c := base64_ascii_to_bin i2 in
  let d := base64_ascii_to_bin i3 in
  if (a =? 0xff) || (b =? 0xff) || (c =? 0xff) || (d =? 0xff) then None
  else
    let v := (a <<32 18) .| (b <<32 12) .| (c <<32 6) .| d in
    let eq x := Z.b2z (x =? 61) in
    let padding_pattern := (eq i0 <<32 3) .| (eq i1 <<32 2) .| (eq i2 <<32 1) .| eq i3 in
    if padding_pattern =? 0 then Some [u8 (v >>> 16); u8 (v >>> 8); u8 v]
    else if padding_pattern =? 1 then Some [u8 (v >>> 16); u8 (v >>> 8)]
    else if padding_pattern =? 3 then Some [u8 (v >>> 16)]
    else None.

(** The loop over the input of [EVP_DecodeUpdate]; [None] is the return of -1 from inside it. *)
Fixpoint decode_update_loop (ctx : encode_ctx) (out : bytes) (pos bytes_out : Z) (in_ : bytes) :
    encode_ctx * bytes * option Z :=
  match in_ with
  | [] => (ctx, out, Some bytes_out)
  | c :: in_ =>
      if (c =? 32) || (c =? 9) || (c =? 13) || (c =? 10) then decode_update_loop ctx out pos bytes_out in_
      else
        let err ctx := {| data_used := data_used ctx; data := data ctx; eof_seen := eof_seen ctx; error_encountered := true |} in
        if eof_seen ctx then (err ctx, out, None)
        else
          let d := write_at (data_used ctx) [c] (data ctx) in
          let used := data_used ctx + 1 in
          let ctx := {| data_used := used; data := d; eof_seen := eof_seen ctx; error_encountered := error_encountered ctx |} in
          if used =? 4 then
            match base64_decode_quad (nth 0 d 0) (nth 1 d 0) (nth 2 d 0) (nth 3 d 0) with
            | None => (err ctx, out, None)
            | Some r =>
                let ctx := {| data_used := 0; data := d; eof_seen := eof_seen ctx || (zlen r <? 3);
                              error_encountered := error_encountered ctx |} in
                decode_update_loop ctx (write_at pos r out) (pos + zlen r) (bytes_out + zlen r) in_
            end
          else decode_update_loop ctx out pos bytes_out in_
  end.

(** Returns the context, the output array, [*out_len] and the result. *)
Definition EVP_DecodeUpdate (ctx : encode_ctx) (out : bytes) (pos : Z) (in_ : bytes) : encode_ctx * bytes * Z * Z :=
  if error_encountered ctx then (ctx, out, 0, -1)
  else
    match decode_update_loop ctx out pos 0 in_ with
    | (ctx, out, None) => (ctx, out, 0, -1)
    | (ctx, out, Some bytes_out) =>
        if INT_MAX <? bytes_out then
          ({| data_used := data_used ctx; data := data ctx; eof_seen := eof_seen ctx; error_encountered := true |}, out, 0, -1)
        else (ctx, out, bytes_out, if eof_seen ctx then 0 else 1)
    end.

Definition EVP_DecodeFinal (ctx : encode_ctx) : Z :=
  if error_encountered ctx || negb (data_used ctx =? 0) then -1 else 1.

(** The loop of [EVP_DecodeBase64], a quad per call. *)
Fixpoint decode_base64_loop (out : bytes) (pos bytes_out : Z) (in_ : bytes) : bytes * option Z :=
  match in_ with
  | a :: b :: c :: d :: in_ =>
      match base64_decode_quad a b c d with
      | None => (out, None)
      | Some r =>
          let out := write_at pos r out in
          if negb (zlen r =? 3) && negb (zlen in_ =? 0) then (out, None)
          else decode_base64_loop out (pos + zlen r) (bytes_out + zlen r) in_
      end
  | _ => (out, Some bytes_out)
  end.
(** Returns the output array and, on success, [*out_len]. *)
Definition EVP_DecodeBase64 (out : bytes) (pos max_out : Z) (in_ : bytes) : bytes * option Z :=
  if negb (zlen in_ mod 4 =? 0) then (out, None)
  else
    match EVP_DecodedLength (zlen in_) with
    | None => (out, None)
    | Some max_len => if max_out <? max_len then (out, None) else decode_base64_loop out pos 0 in_
    end.

(** The two trimming loops of [EVP_DecodeBlock]. *)
Fixpoint trim_start (src : bytes) : bytes :=
  match src with
  | c :: src' => if negb (c =? 32) && negb (c =? 9) then src else trim_start src'
  | [] => []
  end.
Fixpoint trim_end_loop (fuel : nat) (src : bytes) : bytes :=
  match fuel with
  | O => src
  | S fuel =>
      if zlen src =? 0 then src
      else
        let c := nth (length src - 1) src 0 in
        if (c =? 32) || (c =? 9) || (c =? 13) || (c =? 10) then trim_end_loop fuel (take (length src - 1) src)
        else src
  end.
(** [while (dst_len % 3 != 0) dst[dst_len++] = 0;] ends within three rounds. *)
Fixpoint pad_loop (fuel : nat) (dst : bytes) (pos dst_len : Z) : bytes * Z :=
  match fuel with
  | O => (dst, dst_len)
  | S fuel =>
      if negb (dst_len mod 3 =? 0) then pad_loop fuel (write_at (pos + dst_len) [0] dst) pos (dst_len + 1)
      else (dst, dst_len)
  end.
Definition EVP_DecodeBlock (dst : bytes) (pos : Z) (src : bytes) : bytes * Z :=
  let src := trim_start src in
  let src := trim_end_loop (length src) src in
  match EVP_DecodedLength (zlen src) with
  | None => (dst, -1)
  | Some dst_len =>
      if INT_MAX <? dst_len then (dst, -1)
      else
        match EVP_DecodeBase64 dst pos dst_len src with
        | (dst, None) => (dst, -1)
        | (dst, Some dst_len) => pad_loop 3 dst pos dst_len
        end
  end.

Example encode_demo : EVP_EncodeBlock (replicate 10 7) 1 [77; 97; 110; 77] = ([7; 84; 87; 70; 117; 84; 81; 61; 61; 0], 8).
Proof. by vm_compute. Qed.

(** ** The alphabet *)

Definition alphabet : bytes :=
  ((λ i, 65 + i) <$> seqZ 0 26) ++ ((λ i, 97 + i) <$> seqZ 0 26) ++ ((λ i, 48 + i) <$> seqZ 0 10) ++ [43; 47].
Definition b64_char (v : Z) : Z := nth (Z.to_nat (v mod 64)) alphabet 0.
Definition sextet (c : Z) : option Z := (Z.of_nat ∘ fst) <$> list_find (λ x, x = c) alphabet.

Lemma conv_bin2ascii_char a : is_u8 a → conv_bin2ascii a = b64_char a.
Proof. intros Ha. byte_crush a Ha. Qed.
Lemma ascii_to_bin_spec c : is_u8 c →
  base64_ascii_to_bin c = match sextet c with Some v => v | None => if c =? 61 then 0 else 255 end.
Proof. intros Hc. byte_crush c Hc. Qed.
Lemma sextet_range c v : is_u8 c → sextet c = Some v → 0 ≤ v < 64 ∧ c ≠ 61.
Proof.
  intros Hc E. assert (match sextet c with Some v => (0 <=? v) && (v <? 64) && negb (c =? 61) | None => true end = true) as H.
  { clear E. byte_crush c Hc. }
  rewrite E in H. lia.
Qed.
Lemma b64_char_mod v : b64_char (v mod 64) = b64_char v.
Proof. unfold b64_char. by rewrite Z.mod_mod. Qed.
Lemma sextet_char v : sextet (b64_char v) = Some (v mod 64).
Proof.
  rewrite <- b64_char_mod. assert (is_u8 (v mod 64)) as Hv by word_lia. assert (v mod 64 < 64) by lia.
  set (w := v mod 64) in *. assert (((w <? 64) && negb (bool_decide (sextet (b64_char w) = Some w))) = false) as E.
  { clear H. clearbody w. byte_crush w Hv. }
  destruct (bool_decide_reflect (sextet (b64_char w) = Some w)); [done|]. cbn [negb] in E. lia.
Qed.
Lemma b64_char_u8 v : is_u8 (b64_char v).
Proof.
  rewrite <- b64_char_mod. assert (is_u8 (v mod 64)) as Hv by word_lia. set (w := v mod 64) in *. clearbody w.
  assert ((0 <=? b64_char w) && (b64_char w <? 256) = true) as E by byte_crush w Hv. word_lia.
Qed.

(** ** The encoding as a function *)

Definition quad3 (v : Z) : bytes := [b64_char (v / 2 ^ 18); b64_char (v / 2 ^ 12); b64_char (v / 2 ^ 6); b64_char v].
Fixpoint b64 (src : bytes) : bytes :=
  match src with
  | [] => []
  | x :: y :: z :: src => quad3 (x * 65536 + y * 256 + z) ++ b64 src
  | [x; y] => take 3 (quad3 (x * 65536 + y * 256)) ++ [61]
  | [x] => take 2 (quad3 (x * 65536)) ++ [61; 61]
  end.

(** Induction on the encoder's groups. *)
Lemma triple_ind (P : bytes → Prop) : P [] → (∀ x, P [x]) → (∀ x y, P [x; y]) →
  (∀ x y z l, P l → P (x :: y :: z :: l)) → ∀ l, P l.
Proof.
  intros H0 H1 H2 H3 l. cut (P l ∧ (∀ x, P (x :: l)) ∧ ∀ x y, P (x :: y :: l)); [tauto|].
  induction l as [|z l (IH1 & IH2 & IH3)]; split_and!; auto.
Qed.

Lemma zlen_b64 src : zlen (b64 src) = 4 * ((zlen src + 2) / 3).
Proof. induction src as [| | |x y z src IH] using triple_ind; [done..|]. cbn [b64 quad3 app]. rewrite !zlen_cons, IH. lia. Qed.

Lemma write_at_eq i a x b d : i = zlen a → length x = length d → write_at i d (a ++ x ++ b) = a ++ d ++ b.
Proof. intros ->. apply write_at_app. Qed.

Lemma word24 x y z : is_u8 x → is_u8 y → is_u8 z → ((x <<32 16) .| (y <<32 8)) .| z = x * 65536 + y * 256 + z.
Proof.
  intros Hx Hy Hz. rewrite !wrap_small by (rewrite Z.shiftl_mul_pow2 by lia; word_lia).
  change 16 with (8 + 8). rewrite <- Z.shiftl_shiftl, <- Z.shiftl_lor, !lor_shiftl_add by (done || lia). lia.
Qed.
Lemma conv_shifted v n : 0 ≤ v → 0 ≤ n → conv_bin2ascii (u8 (v >>> n)) = b64_char (v / 2 ^ n).
Proof.
  intros Hv Hn. rewrite conv_bin2ascii_char by by apply wrap_is_uint.
  rewrite shiftr_div by done. set (w := v / 2 ^ n). rewrite <- b64_char_mod, <- (b64_char_mod w). f_equal.
  unfold wrap. word_bounds. lia.
Qed.
Lemma conv_last v : 0 ≤ v → conv_bin2ascii (u8 v) = b64_char v.
Proof. intros Hv. rewrite <- (Z.shiftr_0_r v) at 1. rewrite conv_shifted by done. by rewrite Z.div_1_r. Qed.

Lemma split_at_len (n : Z) (old : bytes) : 0 ≤ n ≤ zlen old → ∃ o1 o2, old = o1 ++ o2 ∧ zlen o1 = n ∧ zlen o2 = zlen old - n.
Proof.
  intros Hn. exists (take (Z.to_nat n) old), (drop (Z.to_nat n) old). rewrite take_drop. unfold zlen in *.
  rewrite length_take, length_drop. split; [done|lia].
Qed.
(** Two stores, one behind the other. *)
Lemma write_step pre old post d i : i = zlen pre → zlen d ≤ zlen old →
  ∃ old', write_at i d (pre ++ old ++ post) = (pre ++ d) ++ old' ++ post ∧ zlen old' = zlen old - zlen d.
Proof.
  intros -> Hl. destruct (split_at_len (zlen d) old) as (o1 & o2 & -> & H1 & H2); [pose proof (zlen_nonneg d); lia|].
  exists o2. split; [|done]. rewrite <- !app_assoc. apply write_at_app. unfold zlen in *. lia.
Qed.
Lemma write_last pre old post d i : i = zlen pre → zlen d = zlen old →
  write_at i d (pre ++ old ++ post) = (pre ++ d) ++ post.
Proof. intros -> Hl. rewrite <- app_assoc. apply write_at_app. unfold zlen in *. lia. Qed.

Lemma encode_block_loop_spec src : ∀ pre old post ret, bytes_ok src → 0 ≤ ret → ret + zlen (b64 src) < 2 ^ 64 →
  zlen old = zlen (b64 src) + 1 →
  encode_block_loop (pre ++ old ++ post) (zlen pre) ret src = ((pre ++ b64 src ++ [0]) ++ post, ret + zlen (b64 src)).
Proof.
  assert (∀ l : bytes, zlen (61 :: l) = 1 + zlen l) as _ by (intros; apply zlen_cons).
  induction src as [|x|x y|x y z src IH] using triple_ind; intros pre old post ret Hok Hr Hl Ho.
  - cbn [encode_block_loop b64 app] in *. rewrite write_last by done. f_equal. rewrite zlen_nil. lia.
  - apply bytes_ok_cons in Hok as [Hx _]. cbn [encode_block_loop b64].
    replace (x <<32 16) with (x * 65536) by (rewrite wrap_small; rewrite Z.shiftl_mul_pow2 by lia; word_lia).
    rewrite !conv_shifted by word_lia. cbn [b64 quad3 take app] in *. set (d := [_; _; 61; 61]) in *. change (zlen d) with 4 in *.
    destruct (write_step pre old post d (zlen pre)) as (old' & -> & Ho'); [done|change (zlen d) with 4; lia|].
    change (zlen d) with 4 in *. rewrite write_last; [|by rewrite zlen_app|change (zlen [0]) with 1; lia].
    rewrite wrap_small by word_lia. by rewrite <- !app_assoc.
  - apply bytes_ok_cons in Hok as [Hx [Hy _]%bytes_ok_cons]. cbn [encode_block_loop b64].
    pose proof (word24 x y 0 Hx Hy ltac:(done)) as Hw. rewrite Z.lor_0_r, Z.add_0_r in Hw. rewrite Hw.
    rewrite !conv_shifted by word_lia. cbn [b64 quad3 take app] in *. set (d := [_; _; _; 61]) in *. change (zlen d) with 4 in *.
    destruct (write_step pre old post d (zlen pre)) as (old' & -> & Ho'); [done|change (zlen d) with 4; lia|].
    change (zlen d) with 4 in *. rewrite write_last; [|by rewrite zlen_app|change (zlen [0]) with 1; lia].
    rewrite wrap_small by word_lia. by rewrite <- !app_assoc.
  - apply bytes_ok_cons in Hok as [Hx [Hy [Hz Hok]%bytes_ok_cons]%bytes_ok_cons]. cbn [encode_block_loop b64] in *.
    rewrite word24, !conv_shifted, conv_last by word_lia. fold (quad3 (x * 65536 + y * 256 + z)).
    set (d := quad3 _) in *. rewrite zlen_app in Hl, Ho. change (zlen d) with 4 in *. pose proof (zlen_nonneg (b64 src)).
    destruct (write_step pre old post d (zlen pre)) as (old' & -> & Ho'); [done|change (zlen d) with 4; lia|].
    change (zlen d) with 4 in *. rewrite wrap_small by word_lia.
    replace (zlen pre + 4) with (zlen (pre ++ d)) by by rewrite zlen_app.
    rewrite IH; [|done|lia|lia|lia]. rewrite zlen_app, <- !app_assoc. f_equal. change (zlen d) with 4. lia.
Qed.

(** [EVP_EncodeBlock] writes exactly the base64 text of its input and a terminating NUL, and
    nothing else of the output array changes; it returns the length of the text, and the array
    needs one byte more, which is what [EVP_EncodedLength] computes.  [EVP_EncodedLength] fails
    exactly when that size does not fit a [size_t]. *)
Theorem EVP_EncodeBlock_exact src pre old post : bytes_ok src → zlen (b64 src) < 2 ^ 64 - 1 →
  EVP_EncodedLength (zlen src) = Some (zlen old) →
  EVP_EncodeBlock (pre ++ old ++ post) (zlen pre) src = ((pre ++ b64 src ++ [0]) ++ post, zlen (b64 src)) ∧
  ∀ len, is_u64 len → EVP_EncodedLength len = (let n := 4 * ((len + 2) / 3) + 1 in if n <? 2 ^ 64 then Some n else None).
Proof.
  assert (∀ len, is_u64 len → EVP_EncodedLength len = (let n := 4 * ((len + 2) / 3) + 1 in if n <? 2 ^ 64 then Some n else None)) as Hlen.
  { intros len Hn. unfold EVP_EncodedLength. cbv zeta. rewrite !Z.shiftl_mul_pow2, shiftr_div by done.
    unfold wrap. word_bounds. change (2 ^ 2) with 4.
    destruct (Z.ltb_spec ((len + 2) mod 18446744073709551616) len).
    - destruct (Z.ltb_spec (4 * ((len + 2) / 3) + 1) 18446744073709551616); [lia|done].
    - rewrite (Z.mod_small (len + 2)) by lia. set (m := (len + 2) / 3).
      destruct (Z.eqb_spec ((m * 4) mod 18446744073709551616 / 4) m) as [E|E]; cbn [negb].
      + assert (m < 4611686018427387904) by lia.
        destruct (Z.ltb_spec (4 * m + 1) 18446744073709551616); [|lia].
        rewrite !Z.mod_small by lia. destruct (Z.ltb_spec (m * 4 + 1) (m * 4)); [lia|]. f_equal. lia.
      + destruct (Z.ltb_spec (4 * m + 1) 18446744073709551616); [|done]. destruct E. rewrite Z.mod_small by lia. lia. }
  intros Hok Hl Ho. split; [|done]. rewrite Hlen in Ho by (rewrite zlen_b64 in Hl; pose proof (zlen_nonneg src); word_lia).
  cbv zeta in Ho. rewrite <- zlen_b64 in Ho. destruct (_ <? _); [|done]. injection Ho as Ho.
  unfold EVP_EncodeBlock. rewrite encode_block_loop_spec; [done|done|done|lia|done].
Qed.

(** ** The streaming encoder

    [lines]: the complete 48-byte groups, a line of text each, and what is left over. *)
Fixpoint pem_lines (fuel : nat) (l : bytes) : bytes * bytes :=
  match fuel with
  | O => ([], l)
  | S fuel =>
      if 48 <=? zlen l then
        let r := pem_lines fuel (drop 48 l) in (b64 (take 48 l) ++ [10] ++ r.1, r.2)
      else ([], l)
  end.
Definition lines (l : bytes) : bytes * bytes := pem_lines (length l) l.
(** The whole text: the last line may be short. *)
Definition last_line (r : bytes) : bytes := match r with [] => [] | _ => b64 r ++ [10] end.
Definition pem (l : bytes) : bytes := let r := lines l in r.1 ++ last_line r.2.

Lemma pem_lines_fuel n m l : (length l ≤ n)%nat → (length l ≤ m)%nat → pem_lines n l = pem_lines m l.
Proof.
  revert m l. induction n as [|n IH]; intros [|m] l Hn Hm; cbn [pem_lines]; try done;
    destruct (Z.leb_spec 48 (zlen l)) as [Hl|]; try done; unfold zlen in Hl; [lia..|].
  by rewrite (IH m) by (rewrite length_drop; lia).
Qed.
Lemma lines_step l k : length l = 48%nat → lines (l ++ k) = (b64 l ++ [10] ++ (lines k).1, (lines k).2).
Proof.
  intros Hl. unfold lines. destruct (length (l ++ k)) as [|n] eqn:En; [rewrite length_app in En; lia|].
  cbn [pem_lines]. rewrite (proj2 (Z.leb_le _ _)) by (rewrite zlen_app; unfold zlen; lia).
  rewrite take_app_length', drop_app_length' by done. rewrite length_app in En.
  by rewrite (pem_lines_fuel n (length k) k) by lia.
Qed.
Lemma lines_short l : zlen l < 48 → lines l = ([], l).
Proof. intros Hl. unfold lines. destruct (length l); cbn [pem_lines]; [done|]. by rewrite (proj2 (Z.leb_gt _ _)). Qed.
Lemma lines_ind (P : bytes → Prop) : (∀ l, zlen l < 48 → P l) →
  (∀ l k, length l = 48%nat → P k → P (l ++ k)) → ∀ l, P l.
Proof.
  intros Hs Hstep l. remember (length l) as n eqn:Hn. revert l Hn.
  induction n as [n IH] using lt_wf_ind. intros l ->. destruct (Z.lt_ge_cases (zlen l) 48); [by apply Hs|].
  rewrite <- (take_drop 48 l). unfold zlen in *.
  apply Hstep; [rewrite length_take; lia|]. apply (IH (length (drop 48 l))); [rewrite length_drop; lia|done].
Qed.

(** Feeding the data in two parts. *)
Lemma lines_app a b : lines (a ++ b) = ((lines a).1 ++ (lines ((lines a).2 ++ b)).1, (lines ((lines a).2 ++ b)).2).
Proof.
  induction a as [a Ha|l k Hl IH] using lines_ind.
  - rewrite (lines_short a) by done. cbn [fst snd app]. by destruct (lines (a ++ b)).
  - rewrite <- app_assoc, (lines_step l (k ++ b)), IH, (lines_step l k) by done. cbn [fst snd]. by rewrite <- !app_assoc.
Qed.
Lemma lines_rest l : zlen (lines l).2 < 48.
Proof. induction l as [l Hl|l k Hl IH] using lines_ind; [by rewrite lines_short|by rewrite lines_step]. Qed.
Lemma lines_ok l : bytes_ok l → bytes_ok (lines l).2.
Proof.
  induction l as [l Hl|l k Hl IH] using lines_ind; [by rewrite lines_short|].
  rewrite lines_step by done. intros [_ Hk]%bytes_ok_app. by apply IH.
Qed.

(** [t] was stored at [pos], and at most the byte after it was also overwritten. *)
Definition wrote (out : bytes) (pos : Z) (t : bytes) (out' : bytes) : Prop :=
  ∃ pre old post x, out = pre ++ old ++ post ∧ zlen pre = pos ∧ out' = (pre ++ t) ++ x ++ post ∧
    zlen (t ++ x) = zlen old ∧ zlen x ≤ 1.

Lemma wrote_nil out pos : 0 ≤ pos ≤ zlen out → wrote out pos [] out.
Proof.
  intros Hp. destruct (split_at_len pos out Hp) as (pre & post & -> & Hl & _).
  exists pre, [], post, []. by rewrite app_nil_r.
Qed.
Lemma wrote_length out pos t out' : wrote out pos t out' → zlen out' = zlen out.
Proof. intros (pre & old & post & x & -> & _ & -> & Hl & _). rewrite !zlen_app in *. lia. Qed.
Lemma wrote_pos out pos t out' : wrote out pos t out' → 0 ≤ pos ∧ pos + zlen t ≤ zlen out.
Proof.
  intros (pre & old & post & x & -> & <- & -> & Hl & _). rewrite !zlen_app in *.
  pose proof (zlen_nonneg pre). pose proof (zlen_nonneg x). pose proof (zlen_nonneg post). lia.
Qed.
Lemma wrote_trans out pos t1 out1 t2 out2 :
  wrote out pos t1 out1 → wrote out1 (pos + zlen t1) t2 out2 → wrote out pos (t1 ++ t2) out2.
Proof.
  intros (pre & old & post & x & -> & <- & -> & Hl & Hx) (pre2 & old2 & post2 & x2 & E & Hp & -> & Hl2 & Hx2).
  assert (pre ++ t1 = pre2 ∧ x ++ post = old2 ++ post2) as [<- Hxp].
  { apply app_inj_1; [|by rewrite E]. rewrite <- zlen_app in Hp. unfold zlen in Hp. lia. }
  rewrite !zlen_app in *. pose proof (zlen_nonneg t2). pose proof (zlen_nonneg x2).
  destruct (Z.le_gt_cases (zlen x) (zlen old2)) as [Hle|Hgt].
  - apply app_split in Hxp as (o & -> & ->); [|done]. rewrite zlen_app in *.
    exists pre, (old ++ o), post2, x2. rewrite <- !app_assoc. split_and!; try done. rewrite !zlen_app. lia.
  - assert (∀ l : bytes, zlen l = 0 → l = []) as Hnil by (intros []; [done|rewrite zlen_cons; pose proof (zlen_nonneg l); lia]).
    assert (zlen old2 = 0 ∧ zlen t2 = 0 ∧ zlen x2 = 0) as (->%Hnil & ->%Hnil & ->%Hnil) by (pose proof (zlen_nonneg old2); lia).
    cbn [app] in Hxp. subst post2. exists pre, old, post, x. rewrite !app_nil_r. split_and!; try done. rewrite zlen_app. lia.
Qed.

(** A complete line: the text, a newline, and a NUL behind it. *)
Lemma encode_line out pos l : bytes_ok l → 0 ≤ pos → zlen (b64 l) < 2 ^ 63 → pos + zlen (b64 l) + 2 ≤ zlen out →
  ∃ out1, EVP_EncodeBlock out pos l = (out1, zlen (b64 l)) ∧
    wrote out pos (b64 l ++ [10]) (write_at (pos + zlen (b64 l) + 1) [0] (write_at (pos + zlen (b64 l)) [10] out1)).
Proof.
  intros Hok Hp Hl Hroom. pose proof (zlen_nonneg (b64 l)).
  destruct (split_at_len pos out) as (pre & r & -> & <- & Hr); [lia|].
  destruct (split_at_len (zlen (b64 l) + 1) r) as (old & r' & -> & Ho & Hr'); [lia|].
  rewrite !zlen_app in *. destruct r' as [|x post]; [rewrite zlen_nil in *; lia|].
  unfold EVP_EncodeBlock. rewrite encode_block_loop_spec by (done || change (2 ^ 63) with 9223372036854775808 in *; word_lia).
  eexists. split; [done|]. replace ((pre ++ b64 l ++ [0]) ++ x :: post) with ((pre ++ b64 l) ++ [0] ++ x :: post) by (by rewrite <- !app_assoc).
  rewrite (write_last (pre ++ b64 l) [0] (x :: post)) by (rewrite ?zlen_app; (done || lia)).
  change (x :: post) with ([x] ++ post).
  rewrite write_last by (rewrite ?zlen_app; (done || change (zlen [10]) with 1; lia)).
  exists pre, (old ++ [x]), post, [0]. rewrite <- !app_assoc. split_and!; try done.
  rewrite !zlen_app. change (zlen [10]) with 1. change (zlen [0]) with 1. change (zlen [x]) with 1. lia.
Qed.

Lemma encode_lines_spec fuel : ∀ out pos total in_, bytes_ok in_ → 0 ≤ pos → 0 ≤ total →
  let r := pem_lines fuel in_ in
  pos + zlen r.1 + 1 ≤ zlen out → total + zlen r.1 < 2 ^ 63 →
  ∃ out', encode_lines_loop fuel out pos total in_ = (out', Some (total + zlen r.1, r.2)) ∧ wrote out pos r.1 out'.
Proof.
  induction fuel as [|fuel IH]; intros out pos total in_ Hok Hp Ht r Hroom Hlim.
  - cbn in r. subst r. cbn [fst snd encode_lines_loop] in *. rewrite zlen_nil, Z.add_0_r in *.
    exists out. split; [done|]. apply wrote_nil. lia.
  - cbn [pem_lines encode_lines_loop] in *. destruct (Z.leb_spec 48 (zlen in_)) as [Hl|Hl].
    2:{ subst r. cbn [fst snd] in *. rewrite zlen_nil, Z.add_0_r in *. exists out. split; [done|]. apply wrote_nil. lia. }
    subst r. cbn [fst snd] in *. set (r := pem_lines fuel (drop 48 in_)) in *. set (line := b64 (take 48 in_)) in *.
    rewrite !zlen_app in Hroom, Hlim. change (zlen [10]) with 1 in *. pose proof (zlen_nonneg r.1). pose proof (zlen_nonneg line).
    destruct (encode_line out pos (take 48 in_)) as (out1 & -> & Hw); [by apply bytes_ok_take|done|fold line; lia|fold line; lia|].
    fold line in Hw |- *. rewrite (wrap_small 64 (total + zlen line + 1)) by (change (2 ^ 63) with 9223372036854775808 in *; word_lia).
    rewrite (proj2 (Z.ltb_ge _ _)) by lia. pose proof (wrote_length _ _ _ _ Hw) as Hlen.
    destruct (IH (write_at (pos + zlen line + 1) [0] (write_at (pos + zlen line) [10] out1)) (pos + zlen line + 1) (total + zlen line + 1)
                (drop 48 in_)) as (out' & -> & Hw'); [by apply bytes_ok_drop|lia|lia|rewrite Hlen; fold r; lia|fold r; lia|].
    fold r in Hw' |- *. exists out'. split; [do 3 f_equal; rewrite !zlen_app; change (zlen [10]) with 1; lia|].
    rewrite app_assoc. eapply wrote_trans; [exact Hw|]. rewrite zlen_app. change (zlen [10]) with 1. by rewrite Z.add_assoc.
Qed.

(** ** The context of the encoder *)

(** The bytes not yet encoded. *)
Definition pending (ctx : encode_ctx) (p : bytes) : Prop :=
  data_used ctx = zlen p ∧ zlen p < 48 ∧ zlen (data ctx) = 48 ∧ take (length p) (data ctx) = p ∧ bytes_ok p.

Lemma pending_data ctx p : pending ctx p → ∃ t, data ctx = p ++ t ∧ zlen t = 48 - zlen p.
Proof.
  intros (Hu & Hl & Hd & Ht & _). exists (drop (length p) (data ctx)).
  split; [by rewrite <- Ht at 1; rewrite take_drop|]. unfold zlen in *. rewrite length_drop. lia.
Qed.
Lemma pending_init : pending EVP_EncodeInit [].
Proof. split_and!; (done || constructor). Qed.

(** Copying the left-over input to the front of [ctx->data]. *)
Lemma pending_store ctx p e f : zlen (data ctx) = 48 → zlen p < 48 → bytes_ok p →
  pending {| data_used := zlen p; data := if negb (zlen p =? 0) then write_at 0 p (data ctx) else data ctx;
             eof_seen := e; error_encountered := f |} p.
Proof.
  intros Hd Hl Hok. destruct (split_at_len (zlen p) (data ctx)) as (a & t & E & Ha & Ht); [pose proof (zlen_nonneg p); lia|].
  rewrite E in *. assert (write_at 0 p (a ++ t) = p ++ t) as Hw.
  { apply (write_at_eq 0 [] a t p); [done|]. unfold zlen in Ha. lia. }
  unfold pending. cbn [data_used data]. destruct (Z.eqb_spec (zlen p) 0) as [Hz|Hz]; cbn [negb].
  - split_and!; try done. by destruct p.
  - rewrite Hw. split_and!; try done; [rewrite !zlen_app in *; lia|apply take_app_length].
Qed.

Lemma encode_pending_spec ctx p out pos in_ : pending ctx p → bytes_ok in_ → 0 ≤ pos → 48 - zlen p ≤ zlen in_ →
  pos + zlen (lines (p ++ in_)).1 + 1 ≤ zlen out →
  ∃ ctx1 out1 t rest, encode_pending ctx out pos in_ = (ctx1, out1, pos + zlen t, zlen t, rest) ∧
    zlen (data ctx1) = 48 ∧ bytes_ok rest ∧ wrote out pos t out1 ∧
    lines (p ++ in_) = (t ++ (lines rest).1, (lines rest).2).
Proof.
  intros Hp Hok Hpos Hin Hroom. pose proof Hp as (Hu & Hl & Hd & Htk & Hpok). destruct (pending_data ctx p Hp) as (t & Et & Hlt).
  unfold encode_pending. rewrite Hu. destruct (Z.eqb_spec (zlen p) 0) as [Hz|Hz]; cbn [negb].
  { assert (p = []) as -> by by destruct p. rewrite zlen_nil in *. cbn [app] in *. exists ctx, out, [], in_.
    change (@zlen Z []) with 0. rewrite Z.add_0_r. split_and!; try done; [apply wrote_nil; pose proof (zlen_nonneg (lines in_).1); lia|]. by destruct (lines in_). }
  destruct (split_at_len (48 - zlen p) in_) as (a & b & -> & Ha & Hb); [pose proof (zlen_nonneg p); lia|].
  rewrite <- Ha, take_app_zlen, drop_app_zlen, Et. apply bytes_ok_app in Hok as [Haok Hbok].
  rewrite <- (app_nil_r t), write_at_eq by (try done; unfold zlen in *; lia). rewrite app_nil_r.
  rewrite app_assoc, lines_step in Hroom |- * by (rewrite length_app; unfold zlen in *; lia).
  cbn [fst snd] in *. rewrite !zlen_app in Hroom. change (zlen [10]) with 1 in *.
  assert (zlen (b64 (p ++ a)) = 64) as Hb64 by (rewrite zlen_b64, zlen_app, Ha; by replace (zlen p + (48 - zlen p)) with 48 by lia).
  pose proof (zlen_nonneg (lines b).1).
  destruct (encode_line out pos (p ++ a)) as (out1 & -> & Hw); [by apply bytes_ok_app|done|by rewrite Hb64|lia|].
  eexists _, _, (b64 (p ++ a) ++ [10]), b. rewrite zlen_app. change (zlen [10]) with 1. rewrite Z.add_assoc.
  split_and!; [done| |done|exact Hw|by rewrite <- app_assoc].
  cbn [data]. rewrite zlen_app. lia.
Qed.

Lemma update_spec ctx p out pos in_ : pending ctx p → bytes_ok in_ → 0 ≤ pos →
  let r := lines (p ++ in_) in
  zlen r.1 ≤ INT_MAX → pos + zlen r.1 + 1 ≤ zlen out →
  ∃ ctx' out', EVP_EncodeUpdate ctx out pos in_ = (ctx', out', zlen r.1) ∧ wrote out pos r.1 out' ∧ pending ctx' r.2.
Proof.
  intros Hp Hok Hpos r Hmax Hroom. pose proof Hp as (Hu & Hl & Hd & Htk & Hpok). destruct (pending_data ctx p Hp) as (t & Et & Hlt).
  unfold EVP_EncodeUpdate. destruct (Z.eqb_spec (zlen in_) 0) as [Hz|Hz].
  { assert (in_ = []) as -> by (destruct in_; [done|rewrite zlen_cons in Hz; pose proof (zlen_nonneg in_); lia]).
    subst r. rewrite app_nil_r, lines_short in * by done. cbn [fst snd] in *. exists ctx, out.
    split_and!; [done|apply wrote_nil; lia|done]. }
  destruct (Z.ltb_spec (zlen in_) (48 - data_used ctx)) as [Hs|Hs].
  { subst r. rewrite lines_short in * by (rewrite zlen_app; lia). cbn [fst snd] in *. rewrite zlen_nil in *. eexists _, out.
    split_and!; [done|apply wrote_nil; lia|]. unfold pending. cbn [data_used data]. rewrite zlen_app, Et, Hu.
    destruct (split_at_len (zlen in_) t) as (t1 & t2 & -> & Ht1 & Ht2); [pose proof (zlen_nonneg in_); lia|].
    rewrite write_at_eq by (try done; unfold zlen in Ht1; lia). rewrite !zlen_app in *. split_and!; [done|lia|lia| |].
    - by rewrite app_assoc, take_app_length.
    - by apply bytes_ok_app. }
  destruct (encode_pending_spec ctx p out pos in_) as (ctx1 & out1 & t1 & rest & -> & Hd1 & Hrok & Hw & Hr); [done..|lia|fold r; lia|].
  fold r in Hr. pose proof (wrote_length _ _ _ _ Hw) as Hlen. pose proof (zlen_nonneg t1). clearbody r. subst r. cbn [fst snd] in *.
  rewrite zlen_app in *. unfold INT_MAX in *. change (2 ^ 31 - 1) with 2147483647 in *.
  destruct (encode_lines_spec (length rest) out1 (pos + zlen t1) (zlen t1) rest) as (out2 & E & Hw2);
    [done|lia|lia|fold (lines rest); lia|fold (lines rest); change (2 ^ 63) with 9223372036854775808; lia|].
  fold (lines rest) in E, Hw2. rewrite E. rewrite (proj2 (Z.ltb_ge _ _)) by lia.
  eexists _, out2. split_and!; [done|by eapply wrote_trans|].
  apply pending_store; [done|apply lines_rest|by apply lines_ok].
Qed.

Lemma final_spec ctx p out pos : pending ctx p → 0 ≤ pos →
  let t := last_line p in
  pos + zlen t + 1 ≤ zlen out →
  ∃ ctx' out', EVP_EncodeFinal ctx out pos = (ctx', out', zlen t) ∧ wrote out pos t out' ∧ pending ctx' [].
Proof.
  intros Hp Hpos t Hroom. pose proof Hp as (Hu & Hl & Hd & Htk & Hpok). unfold EVP_EncodeFinal. rewrite Hu, to_nat_zlen, Htk.
  destruct (Z.eqb_spec (zlen p) 0) as [Hz|Hz].
  { assert (p = []) as -> by by destruct p. exists ctx, out. split_and!; [done| |done]. apply wrote_nil. change (zlen t) with 0 in *. lia. }
  assert (t = b64 p ++ [10]) as Ht by (subst t; destruct p; [by destruct Hz|done]). clearbody t. subst t.
  rewrite zlen_app in *. change (zlen [10]) with 1 in *.
  destruct (encode_line out pos p) as (out1 & -> & Hw); [done|done| |lia|].
  { rewrite zlen_b64. change (2 ^ 63) with 9223372036854775808. lia. }
  eexists _, _. split_and!; [done|exact Hw|]. unfold pending. cbn [data_used data]. split_and!; (done || constructor).
Qed.

(** A run of the interface as its callers use it: the output of each call goes behind that of the
    calls before. *)
Fixpoint encode_session (ctx : encode_ctx) (out : bytes) (pos : Z) (chunks : list bytes) : bytes * Z :=
  match chunks with
  | [] => let '(_, out, n) := EVP_EncodeFinal ctx out pos in (out, pos + n)
  | c :: chunks => let '(ctx, out, n) := EVP_EncodeUpdate ctx out pos c in encode_session ctx out (pos + n) chunks
  end.

Lemma pem_app a b : pem (a ++ b) = (lines a).1 ++ pem ((lines a).2 ++ b).
Proof. unfold pem. rewrite lines_app. cbn [fst snd]. by rewrite <- app_assoc. Qed.

Lemma encode_session_spec chunks : ∀ ctx p out pos, pending ctx p → Forall bytes_ok chunks → 0 ≤ pos →
  let t := pem (p ++ concat chunks) in
  zlen t ≤ INT_MAX → pos + zlen t + 1 ≤ zlen out →
  ∃ out', encode_session ctx out pos chunks = (out', pos + zlen t) ∧ wrote out pos t out'.
Proof.
  induction chunks as [|c chunks IH]; intros ctx p out pos Hp Hok Hpos t Hmax Hroom; cbn [encode_session].
  - subst t. cbn [concat] in *. rewrite app_nil_r in *. unfold pem in *. rewrite lines_short in * by apply Hp.
    cbn [fst snd app] in *. destruct (final_spec ctx p out pos Hp Hpos Hroom) as (ctx' & out' & -> & Hw & _). eauto.
  - apply Forall_cons in Hok as [Hc Hok]. assert (t = (lines (p ++ c)).1 ++ pem ((lines (p ++ c)).2 ++ concat chunks)) as Ht
      by (subst t; cbn [concat]; by rewrite app_assoc, pem_app).
    clearbody t. subst t. rewrite zlen_app in *. set (t2 := pem _) in *.
    pose proof (zlen_nonneg t2). pose proof (zlen_nonneg (lines (p ++ c)).1).
    destruct (update_spec ctx p out pos c) as (ctx' & out' & -> & Hw & Hp'); [done..|lia|lia|].
    pose proof (wrote_length _ _ _ _ Hw).
    destruct (IH ctx' _ out' (pos + zlen (lines (p ++ c)).1) Hp' Hok) as (out2 & -> & Hw2); [lia|fold t2; lia|fold t2; lia|].
    fold t2 in Hw2 |- *. exists out2. rewrite Z.add_assoc. split; [done|by eapply wrote_trans].
Qed.

(** C21: The streaming encoder does not depend on how its input is cut.  Whatever the sequence of
    [EVP_EncodeUpdate] calls (empty, shorter than a line, or many lines long), followed by
    [EVP_EncodeFinal], the output is the PEM text of the concatenated input: one line of 64
    characters per 48 bytes, a shorter last line, a newline after each; the returned lengths add
    up to the text's, and at most one byte past it is overwritten. *)
Theorem EVP_Encode_session_exact chunks out pos : Forall bytes_ok chunks → 0 ≤ pos →
  let text := pem (concat chunks) in
  zlen text ≤ INT_MAX → pos + zlen text + 1 ≤ zlen out →
  ∃ out', encode_session EVP_EncodeInit out pos chunks = (out', pos + zlen text) ∧ wrote out pos text out'.
Proof. intros Hok Hpos. exact (encode_session_spec chunks EVP_EncodeInit [] out pos pending_init Hok Hpos). Qed.

(** ** The decoding as a function

    A group of four characters stands for up to three bytes; [=] may only fill the last one or
    two places of the last group. *)
Definition quad_value (a b c d : Z) : Z := a * 2 ^ 18 + b * 2 ^ 12 + c * 2 ^ 6 + d.
Definition quad_bytes (a b c d : Z) : option bytes :=
  va ← sextet a; vb ← sextet b;
  if decide (c = 61 ∧ d = 61) then Some (take 1 (be_bytes 3 (quad_value va vb 0 0)))
  else
    vc ← sextet c;
    if decide (d = 61) then Some (take 2 (be_bytes 3 (quad_value va vb vc 0)))
    else vd ← sextet d; Some (be_bytes 3 (quad_value va vb vc vd)).
Fixpoint decode_text (s : bytes) : option bytes :=
  match s with
  | [] => Some []
  | a :: b :: c :: d :: s =>
      r ← quad_bytes a b c d;
      match s with
      | [] => Some r
      | _ => if decide (zlen r = 3) then t ← decode_text s; Some (r ++ t) else None
      end
  | _ => None
  end.

Lemma quad_word a b c d : 0 ≤ a < 64 → 0 ≤ b < 64 → 0 ≤ c < 64 → 0 ≤ d < 64 →
  (a <<32 18) .| (b <<32 12) .| (c <<32 6) .| d = quad_value a b c d.
Proof.
  intros. rewrite !wrap_small by (rewrite Z.shiftl_mul_pow2 by lia; word_lia).
  replace (Z.shiftl a 18) with (Z.shiftl (Z.shiftl a 6) 12) by (by rewrite Z.shiftl_shiftl).
  rewrite <- Z.shiftl_lor, (lor_shiftl_add a 6 b) by (done || (unfold is_uint; change (2 ^ 6) with 64; lia)).
  replace (Z.shiftl (a * 2 ^ 6 + b) 12) with (Z.shiftl (Z.shiftl (a * 2 ^ 6 + b) 6) 6) by (by rewrite Z.shiftl_shiftl).
  rewrite <- Z.shiftl_lor, (lor_shiftl_add _ 6 c), (lor_shiftl_add _ 6 d) by (done || (unfold is_uint; change (2 ^ 6) with 64; lia)).
  unfold quad_value. lia.
Qed.

(** A character is in the alphabet, the padding character, or invalid. *)
Lemma char_cases c : is_u8 c →
  (∃ v, sextet c = Some v ∧ 0 ≤ v < 64 ∧ c ≠ 61 ∧ base64_ascii_to_bin c = v) ∨
  (sextet c = None ∧ c = 61 ∧ base64_ascii_to_bin c = 0) ∨
  (sextet c = None ∧ c ≠ 61 ∧ base64_ascii_to_bin c = 255).
Proof.
  intros Hc. rewrite ascii_to_bin_spec by done. destruct (sextet c) as [v|] eqn:E.
  - left. exists v. destruct (sextet_range c v Hc E). done.
  - right. destruct (Z.eqb_spec c 61); auto.
Qed.

Lemma u8_quad v n : 0 ≤ v → 0 ≤ n → u8 (v >>> n) = v / 2 ^ n mod 256.
Proof. intros. by rewrite shiftr_div. Qed.
Lemma decode_quad_spec a b c d : is_u8 a → is_u8 b → is_u8 c → is_u8 d → base64_decode_quad a b c d = quad_bytes a b c d.
Proof.
  intros Ha Hb Hc Hd. unfold base64_decode_quad, quad_bytes.
  assert (∀ v, 0 ≤ v < 64 → (v =? 255) = false) as H255 by (intros; lia).
  destruct (char_cases a Ha) as [(va & -> & Hva & Na & ->)|[(-> & -> & ->)|(-> & Na & ->)]]; [rewrite (H255 va Hva)| |done].
  2:{ destruct (_ || _); [done|]. by destruct (b =? 61), (c =? 61), (d =? 61). }
  rewrite (proj2 (Z.eqb_neq a 61) Na). cbn [mbind option_bind].
  destruct (char_cases b Hb) as [(vb & -> & Hvb & Nb & ->)|[(-> & -> & ->)|(-> & Nb & ->)]]; [rewrite (H255 vb Hvb)| |done].
  2:{ destruct (_ || _); [done|]. by destruct (c =? 61), (d =? 61). }
  rewrite (proj2 (Z.eqb_neq b 61) Nb). cbn [mbind option_bind].
  destruct (char_cases d Hd) as [(vd & -> & Hvd & Nd & ->)|[(-> & -> & ->)|(-> & Nd & ->)]]; [rewrite (H255 vd Hvd)| |].
  all: destruct (char_cases c Hc) as [(vc & -> & Hvc & Nc & ->)|[(-> & -> & ->)|(-> & Nc & ->)]]; [rewrite ?(H255 vc Hvc)| |].
  all: cbn [mbind option_bind orb Z.eqb Pos.eqb]; rewrite ?orb_true_r; try done.
  all: rewrite ?(proj2 (Z.eqb_neq d 61) Nd), ?(proj2 (Z.eqb_neq c 61) Nc).
  all: repeat first [rewrite decide_False by naive_solver|rewrite decide_True by done]; try done.
  all: rewrite quad_word by lia; rewrite !u8_quad by (unfold quad_value; lia || done).
  all: repeat match goal with |- context [if ?c then _ else _] => let v := eval vm_compute in c in change c with v end; cbv iota.
  all: cbn [take be_bytes]; unfold wrap; change (256 ^ Z.of_nat 2) with (2 ^ 16); change (256 ^ Z.of_nat 1) with (2 ^ 8);
    change (256 ^ Z.of_nat 0) with 1; rewrite ?Z.div_1_r; done.
Qed.

(** ** Decoding a block *)

(** [t] was stored at [pos], and nothing else changed. *)
Definition stored (out : bytes) (pos : Z) (t : bytes) (out' : bytes) : Prop :=
  ∃ pre old post, out = pre ++ old ++ post ∧ zlen pre = pos ∧ zlen old = zlen t ∧ out' = pre ++ t ++ post.

Lemma stored_nil out pos : 0 ≤ pos ≤ zlen out → stored out pos [] out.
Proof. intros Hp. destruct (split_at_len pos out Hp) as (pre & post & -> & Hl & _). by exists pre, [], post. Qed.
Lemma stored_write out pos t : 0 ≤ pos → pos + zlen t ≤ zlen out → stored out pos t (write_at pos t out).
Proof.
  intros Hp Hl. pose proof (zlen_nonneg t). destruct (split_at_len pos out) as (pre & r & -> & <- & Hr); [lia|].
  rewrite zlen_app in *. destruct (split_at_len (zlen t) r) as (old & post & -> & Ho & _); [lia|].
  exists pre, old, post. split_and!; try done. apply write_at_app. unfold zlen in Ho. lia.
Qed.
Lemma stored_length out pos t out' : stored out pos t out' → zlen out' = zlen out.
Proof. intros (pre & old & post & -> & _ & Hl & ->). rewrite !zlen_app. lia. Qed.
Lemma stored_trans out pos t1 out1 t2 out2 :
  stored out pos t1 out1 → stored out1 (pos + zlen t1) t2 out2 → stored out pos (t1 ++ t2) out2.
Proof.
  intros (pre & old & post & -> & <- & Hl & ->) (pre2 & old2 & post2 & E & Hp & Hl2 & ->).
  rewrite app_assoc in E. assert (pre ++ t1 = pre2 ∧ post = old2 ++ post2) as [<- ->].
  { apply app_inj_1; [|done]. rewrite <- zlen_app in Hp. unfold zlen in Hp. lia. }
  exists pre, (old ++ old2), post2. rewrite <- !app_assoc, !zlen_app. split_and!; try done. lia.
Qed.

Lemma quad_ind (P : bytes → Prop) : P [] → (∀ x, P [x]) → (∀ x y, P [x; y]) → (∀ x y z, P [x; y; z]) →
  (∀ a b c d l, P l → P (a :: b :: c :: d :: l)) → ∀ l, P l.
Proof.
  intros H0 H1 H2 H3 H4 l. cut (P l ∧ (∀ x, P (x :: l)) ∧ (∀ x y, P (x :: y :: l)) ∧ ∀ x y z, P (x :: y :: z :: l)); [tauto|].
  induction l as [|z l (IH1 & IH2 & IH3 & IH4)]; split_and!; auto.
Qed.
Lemma quad_bytes_length a b c d r : quad_bytes a b c d = Some r → zlen r ≤ 3.
Proof.
  unfold quad_bytes. destruct (sextet a), (sextet b); cbn [mbind option_bind]; try done.
  case_decide; [by intros [= <-]|]. destruct (sextet c); cbn [mbind option_bind]; [|done].
  case_decide; [by intros [= <-]|]. destruct (sextet d); cbn [mbind option_bind]; [|done]. by intros [= <-].
Qed.

Lemma decode_base64_loop_spec s : ∀ out pos n, bytes_ok s → 0 ≤ pos → pos + zlen s / 4 * 3 ≤ zlen out → zlen s mod 4 = 0 →
  match decode_text s with
  | Some t => ∃ out', decode_base64_loop out pos n s = (out', Some (n + zlen t)) ∧ stored out pos t out'
  | None => (decode_base64_loop out pos n s).2 = None
  end.
Proof.
  induction s as [|x|x y|x y z|a b c d s IH] using quad_ind; intros out pos n Hok Hp Hroom Hm; try done.
  - cbn [decode_text decode_base64_loop]. exists out. rewrite zlen_nil in *. split; [by rewrite Z.add_0_r|]. apply stored_nil. lia.
  - apply bytes_ok_cons in Hok as [Ha [Hb [Hc [Hd Hok]%bytes_ok_cons]%bytes_ok_cons]%bytes_ok_cons].
    cbn [decode_text decode_base64_loop]. rewrite decode_quad_spec by done.
    destruct (quad_bytes a b c d) as [r|] eqn:Eq; cbn [mbind option_bind]; [|done].
    pose proof (quad_bytes_length _ _ _ _ _ Eq). rewrite !zlen_cons in *. pose proof (zlen_nonneg s).
    pose proof (stored_write out pos r Hp ltac:(lia)) as Hw. pose proof (stored_length _ _ _ _ Hw).
    destruct s as [|x s'].
    { rewrite zlen_nil, andb_false_r. cbn [decode_base64_loop]. eauto. }
    rewrite zlen_cons in *. pose proof (zlen_nonneg s'). rewrite (proj2 (Z.eqb_neq (1 + zlen s') 0)), andb_true_r by lia.
    case_decide as Hr; [rewrite Hr, Z.eqb_refl; cbn [negb]|by rewrite (proj2 (Z.eqb_neq _ _))].
    specialize (IH (write_at pos r out) (pos + 3) (n + 3) Hok).
    destruct (decode_text (x :: s')) as [t|]; cbn [mbind option_bind]; [|apply IH; lia].
    destruct IH as (out' & -> & Hs); [lia..|]. exists out'. rewrite zlen_app, Hr. split; [do 2 f_equal; lia|].
    apply (stored_trans _ _ _ _ _ _ Hw). by rewrite Hr.
Qed.
Lemma decode_text_length s t : decode_text s = Some t → zlen s mod 4 = 0.
Proof.
  revert t. induction s as [| | | |a b c d s IH] using quad_ind; intros t; try done. cbn [decode_text].
  destruct (quad_bytes a b c d); cbn [mbind option_bind]; [|done]. rewrite !zlen_cons.
  destruct s as [|x s']; [done|]. case_decide; [|done].
  destruct (decode_text (x :: s')) as [t'|]; cbn [mbind option_bind]; [|done]. intros _. specialize (IH t' eq_refl). lia.
Qed.

Lemma decode_text_bound s t : decode_text s = Some t → zlen t ≤ zlen s / 4 * 3.
Proof.
  revert t. induction s as [| | | |a b c d s IH] using quad_ind; intros t; try done; cbn [decode_text]; [by intros [= <-]|].
  destruct (quad_bytes a b c d) as [r|] eqn:Eq; cbn [mbind option_bind]; [|done].
  pose proof (quad_bytes_length _ _ _ _ _ Eq). rewrite !zlen_cons. pose proof (zlen_nonneg s).
  destruct s as [|x s']; [intros [= <-]; lia|]. case_decide; [|done].
  destruct (decode_text (x :: s')) as [t'|]; cbn [mbind option_bind]; [|done]. intros [= <-].
  specialize (IH t' eq_refl). rewrite zlen_app. lia.
Qed.

Lemma decode_base64_spec out pos max_out in_ : bytes_ok in_ → 0 ≤ pos → pos + max_out ≤ zlen out →
  match EVP_DecodeBase64 out pos max_out in_ with
  | (out', Some n) => ∃ t, decode_text in_ = Some t ∧ n = zlen t ∧ n ≤ max_out ∧ stored out pos t out'
  | (_, None) => decode_text in_ = None ∨ max_out < zlen in_ / 4 * 3
  end.
Proof.
  intros Hok Hp Hroom. unfold EVP_DecodeBase64, EVP_DecodedLength.
  destruct (Z.eqb_spec (zlen in_ mod 4) 0) as [Hm|Hm]; cbn [negb].
  2:{ left. destruct (decode_text in_) eqn:E; [|done]. by apply decode_text_length in E. }
  destruct (Z.ltb_spec max_out (zlen in_ / 4 * 3)); [by right|].
  pose proof (decode_base64_loop_spec in_ out pos 0 Hok Hp ltac:(lia) Hm) as Hl.
  destruct (decode_text in_) as [t|] eqn:E.
  - destruct Hl as (out' & -> & Hs). exists t. split_and!; [done|lia| |done]. pose proof (decode_text_bound _ _ E). lia.
  - destruct (decode_base64_loop out pos 0 in_) as [o [n|]]; [done|by left].
Qed.

(** [EVP_DecodeBase64] decodes exactly the base64 texts: it succeeds when the input consists
    of groups of four characters of the alphabet, only the last of which is padded with one or two
    [=], and the output array is declared large enough; it then stores the decoded bytes and
    nothing else.  Every other input is rejected. *)
Theorem EVP_DecodeBase64_exact out pos max_out in_ : bytes_ok in_ → 0 ≤ pos → pos + max_out ≤ zlen out →
  match EVP_DecodeBase64 out pos max_out in_ with
  | (out', Some n) => ∃ t, decode_text in_ = Some t ∧ n = zlen t ∧ n ≤ max_out ∧ stored out pos t out'
  | (_, None) => decode_text in_ = None ∨ max_out < zlen in_ / 4 * 3
  end.
Proof. apply decode_base64_spec. Qed.

Lemma b64_char_ne v : b64_char v ≠ 61.
Proof. intros E. pose proof (sextet_char v) as H. rewrite E in H. done. Qed.
Lemma quad_value_split v : quad_value (v / 2 ^ 18 mod 64) (v / 2 ^ 12 mod 64) (v / 2 ^ 6 mod 64) (v mod 64) = v mod 2 ^ 24.
Proof.
  unfold quad_value. change (2 ^ 24) with 16777216. change (2 ^ 18) with 262144. change (2 ^ 12) with 4096.
  change (2 ^ 6) with 64. lia.
Qed.
Lemma quad_value_12 x : is_u8 x → quad_value (x * 65536 / 2 ^ 18 mod 64) (x * 65536 / 2 ^ 12 mod 64) 0 0 = x * 65536.
Proof. intros. unfold quad_value. change (2 ^ 18) with 262144. change (2 ^ 12) with 4096. change (2 ^ 6) with 64. word_lia. Qed.
Lemma quad_value_18 x y : is_u8 x → is_u8 y → let v := x * 65536 + y * 256 in
  quad_value (v / 2 ^ 18 mod 64) (v / 2 ^ 12 mod 64) (v / 2 ^ 6 mod 64) 0 = v.
Proof. intros. subst v. unfold quad_value. change (2 ^ 18) with 262144. change (2 ^ 12) with 4096. change (2 ^ 6) with 64. word_lia. Qed.
Lemma be_bytes_3 x y z : is_u8 x → is_u8 y → is_u8 z → be_bytes 3 (x * 65536 + y * 256 + z) = [x; y; z].
Proof.
  intros. cbn [be_bytes]. change (256 ^ Z.of_nat 2) with 65536. change (256 ^ Z.of_nat 1) with 256. change (256 ^ Z.of_nat 0) with 1.
  repeat f_equal; word_lia.
Qed.

Lemma decode_b64 src : bytes_ok src → decode_text (b64 src) = Some src.
Proof.
  induction src as [|x|x y|x y z src IH] using triple_ind; intros Hok; [done|..].
  all: repeat apply bytes_ok_cons in Hok as [? Hok].
  all: cbn [b64 quad3 take app decode_text]; unfold quad_bytes; rewrite !sextet_char; cbn [mbind option_bind].
  - rewrite decide_True by done. rewrite quad_value_12 by done. pose proof (be_bytes_3 x 0 0 ltac:(done) ltac:(done) ltac:(done)) as E.
    rewrite !Z.add_0_r in E. rewrite E. done.
  - pose proof (b64_char_ne ((x * 65536 + y * 256) / 2 ^ 6)). rewrite decide_False, decide_True by naive_solver.
    rewrite quad_value_18 by done. pose proof (be_bytes_3 x y 0 ltac:(done) ltac:(done) ltac:(done)) as E.
    rewrite Z.add_0_r in E. rewrite E. done.
  - set (v := x * 65536 + y * 256 + z) in *. pose proof (b64_char_ne v). pose proof (b64_char_ne (v / 2 ^ 6)).
    rewrite !decide_False by naive_solver. rewrite quad_value_split, Z.mod_small by (subst v; word_lia).
    unfold v. rewrite be_bytes_3 by done. cbn [mbind option_bind]. rewrite IH by done.
    destruct src as [|x' src']; [done|]. destruct (b64 (x' :: src')) eqn:E; [|done].
    apply (f_equal zlen) in E. rewrite zlen_b64, zlen_cons in E. pose proof (zlen_nonneg src'). change (zlen (@nil Z)) with 0 in E. lia.
Qed.

(** Decoding the text [EVP_EncodeBlock] wrote gives the input back, whatever its length and
    contents. *)
Theorem EVP_EncodeBlock_DecodeBase64 src pre old post out pos max_out : bytes_ok src → zlen (b64 src) < 2 ^ 64 - 1 →
  zlen old = zlen (b64 src) + 1 → 0 ≤ pos → pos + max_out ≤ zlen out → zlen (b64 src) / 4 * 3 ≤ max_out →
  match EVP_EncodeBlock (pre ++ old ++ post) (zlen pre) src with
  | (text, n) => ∃ out', EVP_DecodeBase64 out pos max_out (read_at (zlen pre) n text) = (out', Some (zlen src)) ∧
      stored out pos src out'
  end.
Proof.
  intros Hok Hl Ho Hp Hroom Hmax. unfold EVP_EncodeBlock. rewrite encode_block_loop_spec by (done || lia). rewrite Z.add_0_l.
  unfold read_at. rewrite <- !app_assoc, drop_app_zlen, take_app_zlen. unfold EVP_DecodeBase64, EVP_DecodedLength.
  assert (zlen (b64 src) mod 4 = 0) as Hm by (rewrite zlen_b64; lia). rewrite Hm. cbn [Z.eqb negb].
  rewrite (proj2 (Z.ltb_ge _ _)) by done.
  pose proof (decode_base64_loop_spec (b64 src) out pos 0) as H. rewrite decode_b64 in H by done.
  apply H; [|done|lia|done]. clear. induction src as [|x|x y|x y z src IH] using triple_ind; cbn [b64 quad3 take app].
  all: repeat (apply bytes_ok_cons; split; [apply b64_char_u8 || done|]); (apply bytes_ok_nil || exact IH).
Qed.

(** ** The streaming decoder *)

Definition space (c : Z) : bool := (c =? 32) || (c =? 9) || (c =? 13) || (c =? 10).
Definition strip (s : bytes) : bytes := List.filter (λ c, negb (space c)) s.
Lemma strip_app a b : strip (a ++ b) = strip a ++ strip b.
Proof. apply List.filter_app. Qed.

(** The context holds the incomplete group [q]; [e] tells whether the padded group was seen. *)
Definition ready (ctx : encode_ctx) (q : bytes) (e : bool) : Prop :=
  error_encountered ctx = false ∧ eof_seen ctx = e ∧ data_used ctx = zlen q ∧ zlen q < 4 ∧
  zlen (data ctx) = 48 ∧ take (length q) (data ctx) = q ∧ bytes_ok q ∧ (e = true → q = []).
(** What the text [s] behind it decodes to. *)
Definition resume (q : bytes) (e : bool) (s : bytes) : option bytes :=
  if e then match s with [] => Some [] | _ => None end else decode_text (q ++ s).

Lemma resume_quad a b c d s : resume [] false (a :: b :: c :: d :: s) =
  (r ← quad_bytes a b c d; app r <$> resume [] (zlen r <? 3) s).
Proof.
  unfold resume. cbn [app decode_text]. destruct (quad_bytes a b c d) as [r|] eqn:E; cbn [mbind option_bind]; [|done].
  pose proof (quad_bytes_length _ _ _ _ _ E). destruct (Z.ltb_spec (zlen r) 3).
  - destruct s; cbn; [by rewrite app_nil_r|]. by rewrite decide_False by lia.
  - destruct s; cbn [decode_text]; [cbn; by rewrite app_nil_r|]. by rewrite decide_True by lia.
Qed.

(** Storing the next character. *)
Lemma ready_push ctx q c : ready ctx q false → is_u8 c →
  ∃ t, write_at (data_used ctx) [c] (data ctx) = (q ++ [c]) ++ t ∧ zlen t = 47 - zlen q.
Proof.
  intros (_ & _ & Hu & Hl & Hd & Ht & _) Hc. pose proof (zlen_nonneg q).
  destruct (split_at_len (zlen q) (data ctx)) as (a & r & E & Ha & Hr); [lia|].
  rewrite E in *. rewrite take_app_length' in Ht by (unfold zlen in Ha; lia). subst a. rewrite zlen_app in Hr, Hd.
  destruct r as [|x r]; [change (zlen (@nil Z)) with 0 in *; lia|]. rewrite zlen_cons in *.
  exists r. split; [|lia]. rewrite Hu. apply (write_last q [x] r [c]); done.
Qed.

Lemma decode_update_loop_spec c : ∀ ctx q e out pos n, ready ctx q e → bytes_ok c → 0 ≤ pos → pos + zlen q + zlen c ≤ zlen out →
  match decode_update_loop ctx out pos n c with
  | (ctx', out', Some n') => ∃ t q' e', n' = n + zlen t ∧ stored out pos t out' ∧ ready ctx' q' e' ∧
      zlen t + zlen q' ≤ zlen q + zlen c ∧ ∀ s, resume q e (strip c ++ s) = app t <$> resume q' e' s
  | (ctx', out', None) => error_encountered ctx' = true ∧ ∀ s, resume q e (strip c ++ s) = None
  end.
Proof.
  induction c as [|x c IH]; intros ctx q e out pos n Hr Hok Hp Hroom; cbn [decode_update_loop].
  { change (zlen (@nil Z)) with 0 in *. pose proof (zlen_nonneg q). exists [], q, e. change (zlen (@nil Z)) with 0 in *.
    split_and!; [lia|apply stored_nil; lia|done|lia|].
    intros s. cbn. by destruct (resume q e s). }
  apply bytes_ok_cons in Hok as [Hx Hok]. rewrite zlen_cons in *. pose proof (zlen_nonneg c). pose proof (zlen_nonneg q). fold (space x).
  assert (strip (x :: c) = if space x then strip c else x :: strip c) as Es by (cbn; by destruct (space x)).
  rewrite Es. clear Es. destruct (space x).
  { specialize (IH ctx q e out pos n Hr Hok Hp ltac:(lia)). destruct (decode_update_loop _ _ _ _ _) as [[ctx' out'] [n'|]]; [|done].
    destruct IH as (t & q' & e' & ? & ? & ? & ? & ?). exists t, q', e'. split_and!; try done. lia. }
  assert (eof_seen ctx = e) as -> by apply Hr. destruct e; [by split|].
  destruct (ready_push ctx q x Hr Hx) as (t & Ed & Ht). rewrite Ed.
  destruct Hr as (He & Hf & Hu & Hl & Hd & Htk & Hqok & Heq). rewrite Hu.
  destruct (Z.eqb_spec (zlen q + 1) 4) as [H4|H4].
  2:{ specialize (IH {| data_used := zlen q + 1; data := (q ++ [x]) ++ t; eof_seen := false; error_encountered := error_encountered ctx |}
        (q ++ [x]) false out pos n). rewrite zlen_app in IH. change (zlen [x]) with 1 in IH.
      specialize (IH ltac:(split_and!; cbn [data_used data eof_seen error_encountered]; try done; rewrite ?zlen_app; change (zlen [x]) with 1;
        first [lia|apply take_app_length|apply bytes_ok_app; split; [done|apply bytes_ok_cons; split; [done|apply bytes_ok_nil]]]) Hok Hp ltac:(lia)).
      destruct (decode_update_loop _ _ _ _ _) as [[ctx' out'] [n'|]].
      - destruct IH as (r & q' & e' & ? & ? & ? & ? & Hs). exists r, q', e'. split_and!; try done; [lia|].
        intros s. rewrite <- Hs. cbn [resume]. by rewrite <- app_assoc.
      - destruct IH as [? Hs]. split; [done|]. intros s. rewrite <- (Hs s). cbn [resume]. by rewrite <- app_assoc. }
  destruct q as [|b0 [|b1 [|b2 [|b3 q]]]]; rewrite ?zlen_cons in H4;
    change (zlen (@nil Z)) with 0 in H4; try lia; [|pose proof (zlen_nonneg q); lia].
  cbn [app nth]. repeat apply bytes_ok_cons in Hqok as [? Hqok]. rewrite decode_quad_spec by done.
  assert (∀ s, resume [b0; b1; b2] false (x :: s) = resume [] false (b0 :: b1 :: b2 :: x :: s)) as Hres by done.
  destruct (quad_bytes b0 b1 b2 x) as [r|] eqn:Eq.
  2:{ split; [done|]. intros s. cbn [app]. rewrite Hres, resume_quad, Eq. done. }
  pose proof (quad_bytes_length _ _ _ _ _ Eq). change (zlen [b0; b1; b2]) with 3 in *.
  pose proof (stored_write out pos r Hp ltac:(lia)) as Hw. pose proof (stored_length _ _ _ _ Hw).
  specialize (IH {| data_used := 0; data := b0 :: b1 :: b2 :: x :: t; eof_seen := false || (zlen r <? 3);
      error_encountered := error_encountered ctx |} [] (zlen r <? 3) (write_at pos r out) (pos + zlen r) (n + zlen r)).
  pose proof (zlen_nonneg r). change (zlen (@nil Z)) with 0 in IH.
  specialize (IH ltac:(split_and!; cbn [data_used data eof_seen error_encountered]; try done;
    rewrite ?zlen_cons; first [lia|constructor]) Hok ltac:(lia) ltac:(lia)).
  destruct (decode_update_loop _ _ _ _ _) as [[ctx' out'] [n'|]].
  - destruct IH as (r2 & q' & e' & ? & Hst & ? & ? & Hs). exists (r ++ r2), q', e'. rewrite zlen_app. split_and!; try done; [lia|by eapply stored_trans|lia|].
    intros s. cbn [app]. rewrite Hres, resume_quad, Eq. cbn [mbind option_bind]. rewrite Hs.
    destruct (resume q' e' s); cbn; [|done]. by rewrite app_assoc.
  - destruct IH as [? Hs]. split; [done|]. intros s. cbn [app]. rewrite Hres, resume_quad, Eq. cbn [mbind option_bind]. by rewrite Hs.
Qed.

(** A run of the interface; [None] when a call reports an error. *)
Fixpoint decode_session (ctx : encode_ctx) (out : bytes) (pos : Z) (chunks : list bytes) : bytes * option Z :=
  match chunks with
  | [] => (out, if EVP_DecodeFinal ctx =? 1 then Some pos else None)
  | c :: chunks =>
      let '(ctx, out, n, r) := EVP_DecodeUpdate ctx out pos c in
      if r <? 0 then (out, None) else decode_session ctx out (pos + n) chunks
  end.
Lemma decode_session_spec chunks : ∀ ctx q e out pos, ready ctx q e → Forall bytes_ok chunks → 0 ≤ pos →
  zlen q + zlen (concat chunks) ≤ INT_MAX → pos + zlen q + zlen (concat chunks) ≤ zlen out →
  match resume q e (strip (concat chunks)) with
  | Some t => ∃ out', decode_session ctx out pos chunks = (out', Some (pos + zlen t)) ∧ stored out pos t out'
  | None => (decode_session ctx out pos chunks).2 = None
  end.
Proof.
  induction chunks as [|c chunks IH]; intros ctx q e out pos Hr Hok Hp Hmax Hroom; cbn [decode_session concat] in *.
  - change (strip []) with (@nil Z). change (zlen (@nil Z)) with 0 in *. pose proof (zlen_nonneg q).
    destruct Hr as (He & Hf & Hu & Hl & _ & _ & _ & Heq). unfold EVP_DecodeFinal. rewrite He, Hu. cbn [orb].
    assert (resume q e [] = if zlen q =? 0 then Some [] else None) as ->.
    { unfold resume. destruct e; [by rewrite Heq|]. destruct q as [|? [|? [|? [|? q]]]]; try done.
      rewrite !zlen_cons in Hl. pose proof (zlen_nonneg q). lia. }
    destruct (zlen q =? 0); cbn [negb]; [|done]. exists out. change (zlen (@nil Z)) with 0.
    split; [by rewrite Z.add_0_r|apply stored_nil; lia].
  - apply Forall_cons in Hok as [Hc Hok]. rewrite zlen_app in *. pose proof (zlen_nonneg (concat chunks)). rewrite strip_app.
    unfold EVP_DecodeUpdate. replace (error_encountered ctx) with false by (symmetry; apply Hr).
    pose proof (decode_update_loop_spec c ctx q e out pos 0 Hr Hc Hp ltac:(lia)) as Hl.
    destruct (decode_update_loop _ _ _ _ _) as [[ctx' out'] [n'|]]; [|destruct Hl as [_ Hs]; by rewrite Hs].
    destruct Hl as (t & q' & e' & -> & Hst & Hr' & Hb & Hs). rewrite Hs. pose proof (zlen_nonneg q'). pose proof (zlen_nonneg t).
    rewrite (proj2 (Z.ltb_ge INT_MAX (0 + zlen t))) by lia. pose proof (stored_length _ _ _ _ Hst).
    assert (((if eof_seen ctx' then 0 else 1) <? 0) = false) as -> by by destruct (eof_seen ctx').
    specialize (IH ctx' q' e' out' (pos + (0 + zlen t)) Hr' Hok ltac:(lia) ltac:(lia) ltac:(lia)).
    destruct (resume q' e' (strip (concat chunks))) as [t2|]; cbn; [|exact IH].
    destruct IH as (out2 & -> & Hst2). exists out2. rewrite zlen_app. split; [do 2 f_equal; lia|].
    eapply stored_trans; [exact Hst|]. by rewrite Z.add_0_l in Hst2.
Qed.
Lemma ready_init : ready EVP_DecodeInit [] false.
Proof. split_and!; (done || constructor). Qed.

(** C24: The streaming decoder agrees with decoding in one piece.  However the input is cut into
    [EVP_DecodeUpdate] calls, and wherever spaces, tabs and line ends are, the calls and
    [EVP_DecodeFinal] all succeed exactly when the input without white space is a base64 text; the
    bytes stored are then its decoding, and the returned lengths add up to its length. *)
Theorem EVP_Decode_session_exact chunks out pos : Forall bytes_ok chunks → 0 ≤ pos →
  zlen (concat chunks) ≤ INT_MAX → pos + zlen (concat chunks) ≤ zlen out →
  match decode_text (strip (concat chunks)) with
  | Some t => ∃ out', decode_session EVP_DecodeInit out pos chunks = (out', Some (pos + zlen t)) ∧ stored out pos t out'
  | None => (decode_session EVP_DecodeInit out pos chunks).2 = None
  end.
Proof.
  intros Hok Hp Hmax Hroom. apply (decode_session_spec chunks EVP_DecodeInit [] false out pos ready_init Hok Hp); change (zlen (@nil Z)) with 0; lia.
Qed.

(** ** The two streaming halves together *)

Lemma b64_app n : ∀ a b, length a = (3 * n)%nat → b64 (a ++ b) = b64 a ++ b64 b.
Proof.
  induction n as [|n IH]; intros a b Hl; [by destruct a|].
  destruct a as [|x [|y [|z a]]]; cbn [length] in Hl; [lia..|]. cbn [app b64]. rewrite IH by lia. by rewrite app_assoc.
Qed.
Lemma strip_b64 l : strip (b64 l) = b64 l.
Proof.
  assert (∀ v, space (b64_char v) = false) as Hs.
  { intros v. rewrite <- b64_char_mod. assert (is_u8 (v mod 64)) as Hv by word_lia. set (w := v mod 64) in *. clearbody w.
    byte_crush w Hv. }
  induction l as [|x|x y|x y z l IH] using triple_ind; [done|..]; cbn [b64 quad3 take app]; unfold strip in *;
    cbn [List.filter]; rewrite !Hs; cbn [negb]; [done|done|]. by rewrite IH.
Qed.
Lemma strip_last_line r : strip (last_line r) = b64 r.
Proof.
  unfold last_line. destruct r as [|x r]; [done|]. set (l := x :: r). rewrite strip_app, strip_b64. apply app_nil_r.
Qed.
Lemma strip_pem l : strip (pem l) = b64 l.
Proof.
  unfold pem. induction l as [l Hl|l k Hl IH] using lines_ind.
  - rewrite lines_short by done. apply strip_last_line.
  - rewrite lines_step by done. cbn [fst snd]. rewrite <- !app_assoc, !strip_app, strip_b64.
    rewrite (b64_app 16) by done. f_equal. rewrite <- IH, strip_app. done.
Qed.

(** C25: The two streaming halves are inverse.  The PEM text of any data, however the data was cut
    for the encoder and however the text is cut for the decoder, decodes to the data. *)
Theorem EVP_Encode_Decode_session data_chunks arr cuts out pos :
  Forall bytes_ok data_chunks → Forall bytes_ok cuts →
  zlen (pem (concat data_chunks)) ≤ INT_MAX → zlen (pem (concat data_chunks)) + 1 ≤ zlen arr →
  0 ≤ pos → pos + zlen (pem (concat data_chunks)) ≤ zlen out →
  match encode_session EVP_EncodeInit arr 0 data_chunks with
  | (arr', n) => concat cuts = take (Z.to_nat n) arr' →
      ∃ out', decode_session EVP_DecodeInit out pos cuts = (out', Some (pos + zlen (concat data_chunks))) ∧
        stored out pos (concat data_chunks) out'
  end.
Proof.
  intros Hd Hc Hmax Harr Hp Hroom.
  destruct (encode_session_spec data_chunks EVP_EncodeInit [] arr 0 pending_init Hd ltac:(done) Hmax Harr) as (arr' & -> & Hw).
  cbn [app] in Hw. intros E. assert (concat cuts = pem (concat data_chunks)) as Hcat.
  { destruct Hw as (pre & old & post & x & -> & Hpre & -> & Hl & _). rewrite E. assert (pre = []) as -> by by destruct pre.
    cbn [app]. rewrite Z.add_0_l. apply take_app_zlen. }
  pose proof (decode_session_spec cuts EVP_DecodeInit [] false out pos ready_init Hc Hp) as H. rewrite Hcat in H.
  cbn [resume app] in H. rewrite strip_pem, decode_b64 in H by (by apply Forall_concat).
  apply H; change (zlen (@nil Z)) with 0; lia.
Qed.

(** ** [EVP_DecodeBlock] *)

Definition blank (c : Z) : Prop := c = 32 ∨ c = 9.
Lemma trim_start_spec src : ∃ l, src = l ++ trim_start src ∧ Forall blank l ∧ ∀ c s, trim_start src = c :: s → ¬ blank c.
Proof.
  induction src as [|c src (l & E & Hl & Hn)]; cbn [trim_start]; [exists []; by split_and!|].
  destruct (negb (c =? 32) && negb (c =? 9)) eqn:Ec.
  - exists []. split_and!; [done|done|]. intros ? ? [= -> ->]. unfold blank. lia.
  - exists (c :: l). split_and!; [by rewrite E at 1| |done]. constructor; [unfold blank; lia|done].
Qed.
Lemma trim_end_spec fuel : ∀ src, (length src ≤ fuel)%nat →
  ∃ r, src = trim_end_loop fuel src ++ r ∧ Forall (λ c, space c = true) r ∧
    ∀ s c, trim_end_loop fuel src = s ++ [c] → space c = false.
Proof.
  induction fuel as [|fuel IH]; intros src Hf; cbn [trim_end_loop].
  { exists []. rewrite app_nil_r. split_and!; [done|done|]. intros s c ->. rewrite length_app in Hf. cbn in Hf. lia. }
  destruct src as [|x src _] using rev_ind; [exists []; split_and!; [done|done|]; by intros []|].
  rewrite zlen_app, length_app. cbn [length]. change (zlen [x]) with 1. pose proof (zlen_nonneg src).
  rewrite (proj2 (Z.eqb_neq (zlen src + 1) 0)) by lia. rewrite Nat.add_sub, app_nth2, Nat.sub_diag by lia. cbn [nth].
  fold (space x). destruct (space x) eqn:Ex.
  - rewrite take_app_length. rewrite length_app in Hf. cbn in Hf. destruct (IH src ltac:(lia)) as (r & E & Hr & Hn).
    exists (r ++ [x]). split_and!; [by rewrite E at 1; rewrite <- app_assoc| |done]. apply Forall_app. auto.
  - exists []. rewrite app_nil_r. split_and!; [done|done|]. by intros s c [_ [= <-]]%app_inj_tail.
Qed.

Lemma decode_text_length_lower s t : decode_text s = Some t → zlen s / 4 * 3 - 2 ≤ zlen t.
Proof.
  revert t. induction s as [| | | |a b c d s IH] using quad_ind; intros t; try done; cbn [decode_text]; [by intros [= <-]|].
  destruct (quad_bytes a b c d) as [r|] eqn:Eq; cbn [mbind option_bind]; [|done]. rewrite !zlen_cons. pose proof (zlen_nonneg s).
  destruct s as [|x s'].
  - intros [= <-]. change (zlen (@nil Z)) with 0. unfold quad_bytes in Eq.
    destruct (sextet a), (sextet b); cbn [mbind option_bind] in Eq; try done.
    repeat case_decide; try (destruct (sextet c)); try (destruct (sextet d)); cbn [mbind option_bind] in Eq; by simplify_eq.
  - case_decide; [|done]. destruct (decode_text (x :: s')) as [t'|]; cbn [mbind option_bind]; [|done]. intros [= <-].
    specialize (IH t' eq_refl). rewrite zlen_app. lia.
Qed.

Lemma pad_loop_spec fuel : ∀ dst pos n k, 0 ≤ pos → 0 ≤ n → pos + 3 * k ≤ zlen dst → 3 * k - n < Z.of_nat fuel →
  3 * k - 2 ≤ n ≤ 3 * k →
  ∃ dst', pad_loop fuel dst pos n = (dst', 3 * k) ∧ stored dst (pos + n) (replicate (Z.to_nat (3 * k - n)) 0) dst'.
Proof.
  induction fuel as [|fuel IH]; intros dst pos n k Hp Hn Hroom Hf Hk; cbn [pad_loop]; [lia|].
  destruct (Z.eqb_spec (n mod 3) 0) as [Hm|Hm]; cbn [negb].
  - assert (n = 3 * k) as -> by lia. exists dst. rewrite Z.sub_diag. split; [done|]. apply stored_nil. lia.
  - pose proof (stored_write dst (pos + n) [0] ltac:(lia) ltac:(change (zlen [0]) with 1; lia)) as Hw.
    pose proof (stored_length _ _ _ _ Hw).
    destruct (IH (write_at (pos + n) [0] dst) pos (n + 1) k) as (dst' & -> & Hst); [lia..|].
    exists dst'. split; [done|]. replace (Z.to_nat (3 * k - n)) with (S (Z.to_nat (3 * k - (n + 1)))) by lia.
    cbn [replicate]. change (0 :: ?l) with ([0] ++ l). eapply stored_trans; [exact Hw|]. by rewrite <- Z.add_assoc.
Qed.

(** [EVP_DecodeBlock] ignores spaces and tabs in front of the text and white space behind it,
    and nothing else.  It returns -1 exactly when the rest is not a base64 text or decodes to more
    than [INT_MAX] bytes, and otherwise three bytes per group: the decoded bytes followed by a NUL
    for every padding character. *)
Theorem EVP_DecodeBlock_exact dst pos src : bytes_ok src → 0 ≤ pos → pos + zlen src / 4 * 3 ≤ zlen dst →
  ∃ front text back, src = front ++ text ++ back ∧ Forall blank front ∧ Forall (λ c, space c = true) back ∧
    (∀ c s, text = c :: s → ¬ blank c) ∧ (∀ s c, text = s ++ [c] → space c = false) ∧
    let '(dst', n) := EVP_DecodeBlock dst pos src in
    match decode_text text with
    | Some t =>
        if decide (zlen text / 4 * 3 ≤ INT_MAX)
        then n = zlen text / 4 * 3 ∧ stored dst pos (t ++ replicate (Z.to_nat (n - zlen t)) 0) dst'
        else n = -1
    | None => n = -1
    end.
Proof.
  intros Hok Hp Hroom. destruct (trim_start_spec src) as (front & E1 & Hfront & Hnb).
  set (src1 := trim_start src) in *.
  destruct (trim_end_spec (length src1) src1 ltac:(lia)) as (back & E2 & Hback & Hns).
  exists front, (trim_end_loop (length src1) src1), back.
  unfold EVP_DecodeBlock. fold src1. set (text := trim_end_loop (length src1) src1) in *.
  split_and!; try done; [by rewrite E1, E2 at 1| |].
  { intros c s Ec. apply (Hnb c (s ++ back)). by rewrite E2, Ec. }
  assert (bytes_ok text ∧ zlen text ≤ zlen src) as [Htok Htl].
  { rewrite E1, E2 in Hok |- *. apply bytes_ok_app in Hok as [_ [? _]%bytes_ok_app]. split; [done|]. rewrite !zlen_app.
    pose proof (zlen_nonneg front). pose proof (zlen_nonneg back). lia. }
  clearbody text. pose proof (zlen_nonneg text). unfold EVP_DecodedLength. destruct (Z.eqb_spec (zlen text mod 4) 0) as [Hm|Hm]; cbn [negb].
  2:{ destruct (decode_text text) eqn:Et; [by apply decode_text_length in Et|done]. }
  destruct (Z.ltb_spec INT_MAX (zlen text / 4 * 3)); cbv beta iota.
  { destruct (decode_text text); [rewrite decide_False by lia|]; done. }
  pose proof (decode_base64_spec dst pos (zlen text / 4 * 3) text Htok Hp ltac:(lia)) as Hd.
  destruct (EVP_DecodeBase64 dst pos (zlen text / 4 * 3) text) as [dst1 [n|]].
  - destruct Hd as (t & Et & -> & Hn & Hst). rewrite Et.
    pose proof (decode_text_length_lower _ _ Et). pose proof (stored_length _ _ _ _ Hst). pose proof (zlen_nonneg t).
    destruct (pad_loop_spec 3 dst1 pos (zlen t) (zlen text / 4)) as (dst2 & -> & Hst2); [lia..|].
    rewrite decide_True by done. rewrite (Z.mul_comm 3) in *. split; [done|]. by eapply stored_trans.
  - destruct Hd as [->|]; [done|lia].
Qed.

(** ** Instances *)

Lemma EVP_EncodeBlock_exact_witness : EVP_EncodedLength 4 = Some (zlen (replicate 9 7)) ∧
  EVP_EncodeBlock (replicate 1 7 ++ replicate 9 7 ++ [7]) (zlen (replicate 1 7)) [77; 97; 110; 77] =
    ((replicate 1 7 ++ b64 [77; 97; 110; 77] ++ [0]) ++ [7], zlen (b64 [77; 97; 110; 77])).
Proof.
  split; [done|]. apply (EVP_EncodeBlock_exact [77; 97; 110; 77] (replicate 1 7) (replicate 9 7) [7]); [bytes_ok_tac|done|done].
Defined.

Definition base64_chunks : list bytes := [[77; 97]; []; replicate 100 65; [110; 77]].
Lemma base64_chunks_ok : Forall bytes_ok base64_chunks.
Proof.
  repeat (apply Forall_cons_2; [first [bytes_ok_tac|apply Forall_replicate; word_lia]|]). apply Forall_nil_2.
Qed.
Lemma EVP_Encode_session_exact_witness :
  ∃ out', encode_session EVP_EncodeInit (replicate 150 7) 3 base64_chunks = (out', 3 + zlen (pem (concat base64_chunks))) ∧
    wrote (replicate 150 7) 3 (pem (concat base64_chunks)) out'.
Proof.
  apply (EVP_Encode_session_exact base64_chunks (replicate 150 7) 3 base64_chunks_ok); [done|by vm_compute|by vm_compute].
Defined.

Definition base64_text : bytes := [84; 87; 70; 117; 84; 81; 61; 61].
Lemma base64_text_ok : bytes_ok base64_text.
Proof. bytes_ok_tac. Qed.
Lemma EVP_DecodeBase64_exact_witness :
  match EVP_DecodeBase64 (replicate 8 7) 1 6 base64_text with
  | (out', Some n) => ∃ t, decode_text base64_text = Some t ∧ n = zlen t ∧ n ≤ 6 ∧ stored (replicate 8 7) 1 t out'
  | (_, None) => decode_text base64_text = None ∨ 6 < zlen base64_text / 4 * 3
  end.
Proof. exact (EVP_DecodeBase64_exact (replicate 8 7) 1 6 base64_text base64_text_ok ltac:(done) ltac:(done)). Defined.

Lemma EVP_EncodeBlock_DecodeBase64_witness :
  match EVP_EncodeBlock ([7] ++ replicate 9 7 ++ [7]) (zlen [7]) [77; 97; 110; 77] with
  | (text, n) => ∃ out', EVP_DecodeBase64 (replicate 8 9) 2 6 (read_at (zlen [7]) n text) = (out', Some (zlen [77; 97; 110; 77])) ∧
      stored (replicate 8 9) 2 [77; 97; 110; 77] out'
  end.
Proof.
  exact (EVP_EncodeBlock_DecodeBase64 [77; 97; 110; 77] [7] (replicate 9 7) [7] (replicate 8 9) 2 6 ltac:(bytes_ok_tac)
    eq_refl eq_refl ltac:(done) ltac:(done) ltac:(done)).
Defined.

Definition base64_cuts : list bytes := [[84; 87; 32]; [70; 117; 10; 84]; []; [81; 61; 13; 61; 10]].
Lemma base64_cuts_ok : Forall bytes_ok base64_cuts.
Proof. repeat (apply Forall_cons_2; [bytes_ok_tac|]). apply Forall_nil_2. Qed.
Lemma EVP_Decode_session_exact_witness :
  match decode_text (strip (concat base64_cuts)) with
  | Some t => ∃ out', decode_session EVP_DecodeInit (replicate 20 7) 0 base64_cuts = (out', Some (0 + zlen t)) ∧
      stored (replicate 20 7) 0 t out'
  | None => (decode_session EVP_DecodeInit (replicate 20 7) 0 base64_cuts).2 = None
  end.
Proof. exact (EVP_Decode_session_exact base64_cuts (replicate 20 7) 0 base64_cuts_ok ltac:(done) ltac:(done) ltac:(done)). Defined.

Lemma EVP_Encode_Decode_session_witness :
  match encode_session EVP_EncodeInit (replicate 20 7) 0 [[77]; [97; 110; 77]] with
  | (arr', n) => concat [[84; 87; 70; 117; 84]; [81; 61; 61; 10]] = take (Z.to_nat n) arr' →
      ∃ out', decode_session EVP_DecodeInit (replicate 20 9) 0 [[84; 87; 70; 117; 84]; [81; 61; 61; 10]] =
          (out', Some (0 + zlen (concat [[77]; [97; 110; 77]]))) ∧
        stored (replicate 20 9) 0 (concat [[77]; [97; 110; 77]]) out'
  end.
Proof.
  apply (EVP_Encode_Decode_session [[77]; [97; 110; 77]] (replicate 20 7) [[84; 87; 70; 117; 84]; [81; 61; 61; 10]] (replicate 20 9) 0);
    [repeat (apply Forall_cons_2; [bytes_ok_tac|]); apply Forall_nil_2
    |repeat (apply Forall_cons_2; [bytes_ok_tac|]); apply Forall_nil_2|by vm_compute..].
Defined.

Lemma EVP_DecodeBlock_exact_witness :
  ∃ front text back, [32; 84; 87; 69; 61; 10] = front ++ text ++ back ∧ Forall blank front ∧ Forall (λ c, space c = true) back ∧
    (∀ c s, text = c :: s → ¬ blank c) ∧ (∀ s c, text = s ++ [c] → space c = false) ∧
    let '(dst', n) := EVP_DecodeBlock (replicate 4 7) 0 [32; 84; 87; 69; 61; 10] in
    match decode_text text with
    | Some t =>
        if decide (zlen text / 4 * 3 ≤ INT_MAX)
        then n = zlen text / 4 * 3 ∧ stored (replicate 4 7) 0 (t ++ replicate (Z.to_nat (n - zlen t)) 0) dst'
        else n = -1
    | None => n = -1
    end.
Proof. exact (EVP_DecodeBlock_exact (replicate 4 7) 0 [32; 84; 87; 69; 61; 10] ltac:(bytes_ok_tac) ltac:(done) ltac:(done)). Defined.
