(* ===== verification/Cbs.v ===== *)
(** * CBS: the byte-string reader ([crypto/bytestring/cbs.c])

    A [CBS] is a pointer and a length into read-only memory; the model keeps the
    bytes it covers.  A [CBS_get_*] function consumes a prefix, so it is a function
    on that list in the state-and-failure monad of [Prelude]; functions that take a
    [const CBS*] are pure.  [size_t] is 64 bits wide. *)
From S2P Require Export Words.

(** ** Tags ([include/openssl/bytestring.h]) *)

Definition CBS_ASN1_TAG_SHIFT : Z := 24.
Definition CBS_ASN1_CONSTRUCTED : Z := Z.shiftl 0x20 CBS_ASN1_TAG_SHIFT.
Definition CBS_ASN1_TAG_NUMBER_MASK : Z := Z.shiftl 1 (5 + CBS_ASN1_TAG_SHIFT) - 1.
Definition CBS_ASN1_BOOLEAN : Z := 0x1.
Definition CBS_ASN1_INTEGER : Z := 0x2.
Definition CBS_ASN1_OCTETSTRING : Z := 0x4.
Definition CBS_ASN1_OBJECT : Z := 0x6.
Definition CBS_ASN1_UTF8STRING : Z := 0xc.
Definition CBS_ASN1_SEQUENCE : Z := Z.lor 0x10 CBS_ASN1_CONSTRUCTED.
Definition CBS_ASN1_NUMERICSTRING : Z := 0x12.
Definition CBS_ASN1_PRINTABLESTRING : Z := 0x13.
Definition CBS_ASN1_T61STRING : Z := 0x14.
Definition CBS_ASN1_VIDEOTEXSTRING : Z := 0x15.
Definition CBS_ASN1_IA5STRING : Z := 0x16.
Definition CBS_ASN1_GRAPHICSTRING : Z := 0x19.
Definition CBS_ASN1_VISIBLESTRING : Z := 0x1a.
Definition CBS_ASN1_GENERALSTRING : Z := 0x1b.
Definition CBS_ASN1_UNIVERSALSTRING : Z := 0x1c.
Definition CBS_ASN1_BMPSTRING : Z := 0x1e.

(** ** Memory helpers *)

(** [CRYPTO_memcmp] ([crypto/mem.c]): the accumulator of differing bits. *)
Fixpoint CRYPTO_memcmp_loop (x : Z) (a b : bytes) (len : nat) : Z :=
  match len with
  | O => x
  | S n => CRYPTO_memcmp_loop (x .| (hd 0 a .^ hd 0 b)) (tl a) (tl b) n
  end.
Definition CRYPTO_memcmp (a b : bytes) (len : nat) : Z := CRYPTO_memcmp_loop 0 a b len.

(** [memchr] of the C library: the index of the first [c] among [l]. *)
Fixpoint memchr (l : bytes) (c : Z) : option Z :=
  match l with
  | [] => None
  | b :: l => if b =? c then Some 0 else (λ i, i + 1) <$> memchr l c
  end.

(** ** Reading *)

Abbreviation cbs := (list Z).
Abbreviation CBS_M := (st (list Z)).

Definition CBS_len (c : cbs) : Z := zlen c.

Definition cbs_get (n : Z) : CBS_M bytes := λ c,
  if CBS_len c <? n then (None, c)
  else (Some (take (Z.to_nat n) c), drop (Z.to_nat n) c).

Definition CBS_skip (len : Z) : CBS_M unit := _ ← cbs_get len; mret tt.

Definition CBS_contains_zero_byte (c : cbs) : bool := bool_decide (is_Some (memchr c 0)).

Definition CBS_mem_equal (c : cbs) (data : bytes) (len : Z) : bool :=
  if negb (len =? CBS_len c) then false
  else CRYPTO_memcmp c data (Z.to_nat len) =? 0.

Definition cbs_get_u (len : Z) : CBS_M Z :=
  data ← cbs_get len;
  mret (foldl (λ result b, (result <<64 8) .| b) 0 data).

Definition CBS_get_u8 : CBS_M Z := v ← cbs_get 1; mret (hd 0 v).
Definition CBS_get_u16 : CBS_M Z := v ← cbs_get_u 2; mret (u16 v).
Definition CBS_get_u16le : CBS_M Z := v ← CBS_get_u16; mret (CRYPTO_bswap2 v).
Definition CBS_get_u24 : CBS_M Z := v ← cbs_get_u 3; mret (u32 v).
Definition CBS_get_u32 : CBS_M Z := v ← cbs_get_u 4; mret (u32 v).
Definition CBS_get_u32le : CBS_M Z := v ← CBS_get_u32; mret (CRYPTO_bswap4 v).
Definition CBS_get_u64 : CBS_M Z := cbs_get_u 8.
Definition CBS_get_u64le : CBS_M Z := v ← cbs_get_u 8; mret (CRYPTO_bswap8 v).

Definition CBS_get_last_u8 : CBS_M Z := λ c,
  if CBS_len c =? 0 then (None, c)
  else (Some (List.last c 0), removelast c).

Definition CBS_get_bytes (len : Z) : CBS_M cbs := cbs_get len.
Definition CBS_copy_bytes (len : Z) : CBS_M bytes := cbs_get len.

Definition cbs_get_length_prefixed (len_len : Z) : CBS_M cbs :=
  len ← cbs_get_u len_len;
  CBS_get_bytes len.
Definition CBS_get_u8_length_prefixed : CBS_M cbs := cbs_get_length_prefixed 1.
Definition CBS_get_u16_length_prefixed : CBS_M cbs := cbs_get_length_prefixed 2.
Definition CBS_get_u24_length_prefixed : CBS_M cbs := cbs_get_length_prefixed 3.

Definition CBS_get_until_first (c : Z) : CBS_M cbs :=
  s ← st_get;
  match memchr s c with
  | None => st_fail
  | Some split => CBS_get_bytes split
  end.

(** The [do ... while (b & 0x80)] loop of [parse_base128_integer]: one byte is
    consumed per iteration ([CBS_get_u8]), before the checks that can fail. *)
Fixpoint parse_base128_loop (v : Z) (c : cbs) : option Z * cbs :=
  match c with
  | [] => (None, c)
  | b :: c =>
      if negb (v >>> (64 - 7) =? 0) then (None, c)
      else if (v =? 0) && (b =? 0x80) then (None, c)
      else
        let v := (v <<64 7) .| (b .& 0x7f) in
        if negb (b .& 0x80 =? 0) then parse_base128_loop v c else (Some v, c)
  end.
Definition parse_base128_integer : CBS_M Z := parse_base128_loop 0.

Definition parse_asn1_tag : CBS_M Z :=
  tag_byte ← CBS_get_u8;
  let tag := (tag_byte .& 0xe0) <<32 CBS_ASN1_TAG_SHIFT in
  let tag_number := tag_byte .& 0x1f in
  tag_number ←
    (if tag_number =? 0x1f then
       v ← parse_base128_integer;
       st_assert (negb ((CBS_ASN1_TAG_NUMBER_MASK <? v) || (v <? 0x1f)));;
       mret (u32 v)
     else mret tag_number);
  mret (tag .| tag_number).

(** What [cbs_get_any_asn1_element] writes through its out-parameters. *)
Record element := {
  el_out : cbs; el_tag : Z; el_header_len : Z; el_ber_found : bool
}.

(** The length octets: reads from the copy [header] of [c] and returns
    [Some (total length, header length, BER seen, indefinite?)]. *)
Definition cbs_get_any_asn1_element (ber_ok : bool) : CBS_M element := λ c,
  match parse_asn1_tag c with
  | (None, _) => (None, c)
  | (Some tag, header) =>
    match CBS_get_u8 header with
    | (None, _) => (None, c)
    | (Some length_byte, header) =>
      let header_len := CBS_len c - CBS_len header in
      if length_byte .& 0x80 =? 0 then
        (out ← CBS_get_bytes (u64 (length_byte + header_len));
         mret (Build_element out tag header_len false)) c
      else
        let num_bytes := length_byte .& 0x7f in
        if ber_ok && negb (tag .& CBS_ASN1_CONSTRUCTED =? 0) && (num_bytes =? 0) then
          (out ← CBS_get_bytes header_len;
           mret (Build_element out tag header_len true)) c
        else if (num_bytes =? 0) || (4 <? num_bytes) then (None, c)
        else
          match cbs_get_u num_bytes header with
          | (None, _) => (None, c)
          | (Some len64, _) =>
            let short := len64 <? 128 in
            let padded := len64 >>> ((num_bytes - 1) * 8) =? 0 in
            if negb ber_ok && (short || padded) then (None, c)
            else if u64 (len64 + header_len + num_bytes) <? len64 then (None, c)
            else
              (out ← CBS_get_bytes (u64 (len64 + header_len + num_bytes));
               mret (Build_element out tag (header_len + num_bytes) (short || padded))) c
          end
    end
  end.

Definition CBS_get_any_asn1_element : CBS_M element := cbs_get_any_asn1_element false.
Definition CBS_get_any_ber_asn1_element : CBS_M element := cbs_get_any_asn1_element true.

Definition CBS_get_any_asn1 : CBS_M (cbs * Z) :=
  e ← CBS_get_any_asn1_element;
  r ← st_local (CBS_skip (el_header_len e)) (el_out e);
  mret (r.2, el_tag e).

Definition cbs_get_asn1 (tag_value : Z) (skip_header : bool) : CBS_M cbs :=
  e ← CBS_get_any_asn1_element;
  st_assert (el_tag e =? tag_value);;
  if skip_header then
    r ← st_local (CBS_skip (el_header_len e)) (el_out e);
    mret r.2
  else mret (el_out e).
Definition CBS_get_asn1 (tag_value : Z) : CBS_M cbs := cbs_get_asn1 tag_value true.
Definition CBS_get_asn1_element (tag_value : Z) : CBS_M cbs := cbs_get_asn1 tag_value false.

Definition CBS_peek_asn1_tag (c : cbs) (tag_value : Z) : bool :=
  if CBS_len c <? 1 then false
  else match parse_asn1_tag c with
       | (Some actual_tag, _) => tag_value =? actual_tag
       | (None, _) => false
       end.

Definition CBS_is_valid_asn1_bitstring (c : cbs) : bool :=
  match CBS_get_u8 c with
  | (None, _) => false
  | (Some num_unused_bits, c_in) =>
      if 7 <? num_unused_bits then false
      else if num_unused_bits =? 0 then true
      else match CBS_get_last_u8 c_in with
           | (None, _) => false
           | (Some last, _) => last .& (Z.shiftl 1 num_unused_bits - 1) =? 0
           end
  end.

Definition CBS_asn1_bitstring_has_bit (c : cbs) (bit : Z) : bool :=
  if negb (CBS_is_valid_asn1_bitstring c) then false
  else
    let byte_num := u32 ((bit >>> 3) + 1) in
    let bit_num := 7 - (bit .& 7) in
    (byte_num <? CBS_len c) &&
    negb (nth (Z.to_nat byte_num) c 0 .& Z.shiftl 1 bit_num =? 0).

(** [Some is_negative] is the return value 1 with [*out_is_negative] set. *)
Definition CBS_is_valid_asn1_integer (c : cbs) : option bool :=
  match CBS_get_u8 c with
  | (None, _) => None
  | (Some first_byte, copy) =>
      let is_negative := negb (first_byte .& 0x80 =? 0) in
      match CBS_get_u8 copy with
      | (None, _) => Some is_negative
      | (Some second_byte, _) =>
          if (first_byte =? 0x00) && (second_byte .& 0x80 =? 0) ||
             (first_byte =? 0xff) && negb (second_byte .& 0x80 =? 0)
          then None else Some is_negative
      end
  end.

Definition CBS_is_unsigned_asn1_integer (c : cbs) : bool :=
  match CBS_is_valid_asn1_integer c with Some is_negative => negb is_negative | None => false end.

Fixpoint asn1_uint64_loop (out : Z) (data : bytes) : option Z :=
  match data with
  | [] => Some out
  | b :: data =>
      if negb (out >>> 56 =? 0) then None
      else asn1_uint64_loop ((out <<64 8) .| b) data
  end.
Definition CBS_get_asn1_uint64 : CBS_M Z :=
  data ← CBS_get_asn1 CBS_ASN1_INTEGER;
  st_assert (CBS_is_unsigned_asn1_integer data);;
  match asn1_uint64_loop 0 data with Some out => mret out | None => st_fail end.

(** [u.bytes] of [CBS_get_asn1_int64]: sign-extended by [memset], then filled from
    the most significant end of [data]; [u.i] reads it on a little-endian machine. *)
Definition int64_bytes (is_negative : bool) (data : bytes) : bytes :=
  foldl (λ u i, <[i := nth (length data - i - 1) data 0]> u)
        (replicate 8 (if is_negative then 0xff else 0)) (seq 0 (length data)).
Definition CBS_get_asn1_int64 : CBS_M Z :=
  data ← CBS_get_asn1 CBS_ASN1_INTEGER;
  match CBS_is_valid_asn1_integer data with
  | None => st_fail
  | Some is_negative =>
      if 8 <? CBS_len data then st_fail
      else mret (s64 (le_val (int64_bytes is_negative data)))
  end.

Definition CBS_get_asn1_bool : CBS_M bool :=
  data ← CBS_get_asn1 CBS_ASN1_BOOLEAN;
  st_assert (CBS_len data =? 1);;
  let value := hd 0 data in
  st_assert ((value =? 0) || (value =? 0xff));;
  mret (negb (value =? 0)).

(** [None] is [*out_present = 0]. *)
Definition CBS_get_optional_asn1 (tag : Z) : CBS_M (option cbs) :=
  c ← st_get;
  if CBS_peek_asn1_tag c tag then out ← CBS_get_asn1 tag; mret (Some out)
  else mret None.

Definition CBS_get_optional_asn1_octet_string (tag : Z) : CBS_M (cbs * bool) :=
  child ← CBS_get_optional_asn1 tag;
  match child with
  | Some child =>
      r ← st_local (CBS_get_asn1 CBS_ASN1_OCTETSTRING) child;
      st_assert (CBS_len r.2 =? 0);;
      mret (r.1, true)
  | None => mret ([], false)
  end.

Definition CBS_get_optional_asn1_uint64 (tag default_value : Z) : CBS_M Z :=
  child ← CBS_get_optional_asn1 tag;
  match child with
  | Some child =>
      r ← st_local CBS_get_asn1_uint64 child;
      st_assert (CBS_len r.2 =? 0);;
      mret r.1
  | None => mret default_value
  end.

Definition CBS_get_optional_asn1_bool (tag : Z) (default_value : bool) : CBS_M bool :=
  child ← CBS_get_optional_asn1 tag;
  match child with
  | Some child =>
      r ← st_local (CBS_get_asn1 CBS_ASN1_BOOLEAN) child;
      st_assert (CBS_len r.1 =? 1);;
      st_assert (CBS_len r.2 =? 0);;
      let boolean := hd 0 r.1 in
      if boolean =? 0 then mret false
      else if boolean =? 0xff then mret true
      else st_fail
  | None => mret default_value
  end.

(** ** Reading: basic facts *)

Lemma cbs_get_app d c : cbs_get (zlen d) (d ++ c) = (Some d, c).
Proof.
  unfold cbs_get, CBS_len. rewrite zlen_app.
  destruct (Z.ltb_spec (zlen d + zlen c) (zlen d)); [pose proof (zlen_nonneg c); lia|].
  by rewrite take_app_zlen, drop_app_zlen.
Qed.
Lemma cbs_get_app' n d c : n = zlen d → cbs_get n (d ++ c) = (Some d, c).
Proof. intros ->. apply cbs_get_app. Qed.

Lemma cbs_get_inv n c d c' :
  cbs_get n c = (Some d, c') → c = d ++ c' ∧ zlen d = Z.max 0 n.
Proof.
  unfold cbs_get, CBS_len. destruct (Z.ltb_spec (zlen c) n); [done|].
  intros [= <- <-]. split; [by rewrite take_drop|].
  unfold zlen in *. rewrite length_take. lia.
Qed.
Lemma cbs_get_fail n c : zlen c < n → cbs_get n c = (None, c).
Proof. intros. unfold cbs_get, CBS_len. by destruct (Z.ltb_spec (zlen c) n); [|lia]. Qed.

Lemma cbs_get_skip n c : CBS_skip n c = (fst (cbs_get n c) ≫= λ _, Some tt, snd (cbs_get n c)).
Proof. unfold CBS_skip, mbind at 1, st_bind. by destruct (cbs_get n c) as [[?|] ?]. Qed.

Lemma get_u8_cons b c : CBS_get_u8 (b :: c) = (Some b, c).
Proof. unfold CBS_get_u8. by rewrite (bind_some _ _ _ [b] c) by apply (cbs_get_app [b] c). Qed.
Lemma get_u8_nil : CBS_get_u8 [] = (None, []).
Proof. done. Qed.
Lemma get_u8_inv c b c' : CBS_get_u8 c = (Some b, c') → c = b :: c'.
Proof. destruct c as [|x c]; [done|]. rewrite get_u8_cons. by intros [= -> ->]. Qed.

(** The accumulator loop of [cbs_get_u] computes the big-endian value as long as it
    fits in a [uint64_t]. *)
Lemma get_u_loop d : bytes_ok d → zlen d ≤ 8 →
  foldl (λ result b, (result <<64 8) .| b) 0 d = be_val d.
Proof.
  intros Hd Hlen. induction d as [|b d IH] using rev_ind; [done|].
  apply bytes_ok_app in Hd as [Hd Hb]. apply bytes_ok_cons in Hb as [Hb _].
  rewrite zlen_app, zlen_cons, zlen_nil in Hlen. rewrite foldl_snoc, IH, be_val_snoc by (done || lia).
  pose proof (be_val_bound d Hd) as Hv. pose proof (zlen_nonneg d).
  assert (256 ^ zlen d ≤ 256 ^ 7) by (apply Z.pow_le_mono_r; lia).
  rewrite wrap_small by (rewrite Z.shiftl_mul_pow2 by lia; word_lia).
  by rewrite lor_shiftl_add by (done || lia).
Qed.

(** Reading [n] bytes as an unsigned integer, for the widths the callers use. *)
Lemma cbs_get_u_bytes n v c : (n ≤ 8)%nat → 0 ≤ v < 256 ^ Z.of_nat n →
  cbs_get_u (Z.of_nat n) (be_bytes n v ++ c) = (Some v, c).
Proof.
  intros Hn Hv. unfold cbs_get_u. rewrite (bind_some _ _ _ (be_bytes n v) c).
  - rewrite get_u_loop, be_val_be_bytes_small; auto with bytesdb.
    rewrite zlen_be_bytes. lia.
  - apply cbs_get_app'. by rewrite zlen_be_bytes.
Qed.
Lemma cbs_get_u_inv n c v c' : bytes_ok c → 0 ≤ n ≤ 8 →
  cbs_get_u n c = (Some v, c') →
  ∃ d, c = d ++ c' ∧ zlen d = n ∧ v = be_val d ∧ bytes_ok d.
Proof.
  intros Hc Hn H. unfold cbs_get_u in H. st_inv H.
  apply cbs_get_inv in E as [-> Hl]. apply bytes_ok_app in Hc as [Hd _].
  exists a. rewrite get_u_loop by (done || lia). split_and!; [done|lia|done|done].
Qed.

Lemma cbs_get_u_exact n c v c' : bytes_ok c → (n ≤ 8)%nat →
  cbs_get_u (Z.of_nat n) c = (Some v, c') ↔ 0 ≤ v < 256 ^ Z.of_nat n ∧ c = be_bytes n v ++ c'.
Proof.
  intros Hc Hn. split.
  - intros (d & -> & Hl & -> & Hd)%cbs_get_u_inv; [|done|lia]. pose proof (be_val_bound d Hd) as Hb.
    rewrite Hl in Hb. split; [done|]. assert (n = length d) as -> by (unfold zlen in Hl; lia).
    by rewrite be_bytes_be_val.
  - intros [Hv ->]. by apply cbs_get_u_bytes.
Qed.

(** ** Every reader leaves a suffix of its input, whether it succeeds or fails:
    nothing outside the [CBS] is ever covered by the result. *)

Class Consumes {A} (m : CBS_M A) : Prop :=
  consumes c : snd (m c) `suffix_of` c.

#[export] Instance consumes_ret {A} (a : A) : Consumes (mret a).
Proof. intros c. done. Qed.
#[export] Instance consumes_fail {A} : Consumes (@st_fail cbs A).
Proof. intros c. done. Qed.
#[export] Instance consumes_get : Consumes (@st_get cbs).
Proof. intros c. done. Qed.
#[export] Instance consumes_assert b : Consumes (st_assert b).
Proof. intros c. done. Qed.
#[export] Instance consumes_local {T A} (m : st T A) t : Consumes (st_local m t).
Proof. intros c. unfold st_local. by destruct (m t) as [[?|] ?]. Qed.
#[export] Instance consumes_bind {A B} (m : CBS_M A) (f : A → CBS_M B) :
  Consumes m → (∀ a, Consumes (f a)) → Consumes (m ≫= f).
Proof.
  intros Hm Hf c. unfold mbind, st_bind. specialize (Hm c). destruct (m c) as [[a|] c']; [|done].
  etrans; [apply Hf|done].
Qed.
#[export] Instance consumes_if {A} (b : bool) (m1 m2 : CBS_M A) :
  Consumes m1 → Consumes m2 → Consumes (if b then m1 else m2).
Proof. by destruct b. Qed.
#[export] Instance consumes_option {A B} (o : option B) (m1 : B → CBS_M A) (m2 : CBS_M A) :
  (∀ b, Consumes (m1 b)) → Consumes m2 →
  Consumes (match o with Some b => m1 b | None => m2 end).
Proof. by destruct o. Qed.
#[export] Instance consumes_cbs_get n : Consumes (cbs_get n).
Proof.
  intros c. unfold cbs_get. destruct (_ <? _); [done|]. simpl.
  exists (take (Z.to_nat n) c). by rewrite take_drop.
Qed.
#[export] Instance consumes_base128 : Consumes parse_base128_integer.
Proof.
  intros c. unfold parse_base128_integer. generalize 0. induction c as [|b c IH]; intros v; [done|].
  cbn [parse_base128_loop]. repeat case_match; simpl; try (by apply suffix_cons_r);
    apply suffix_cons_r, IH.
Qed.
Ltac consumes_tac := repeat (apply _ || (apply consumes_bind; [|intros]) || apply consumes_if || apply consumes_option; intros).
