(* ===== verification/Der.v ===== *)
(** * DER: the encoding that the CBS reader accepts

    The distinguished encoding rules written as a specification ([der]), and the
    theorems that the element parser of [Cbs] accepts exactly these encodings. *)
From S2P Require Export Cbs.

(** ** Specification *)

(** [n] base-128 digits of [v], most significant first, the continuation bit set
    on all but the last; [base128] takes the minimal number of digits. *)
Fixpoint b128_bytes (n : nat) (v : Z) : bytes :=
  match n with
  | O => []
  | S i => (v / 128 ^ Z.of_nat i) mod 128 + (if decide (i = 0%nat) then 0 else 128) :: b128_bytes i v
  end.
Definition base128 (v : Z) : bytes := b128_bytes (ndigits 7 v) v.

(** A tag is its three class/constructed bits and a 29-bit number. *)
Definition tag_class (tag : Z) : Z := tag / 2 ^ 29.
Definition tag_number (tag : Z) : Z := tag mod 2 ^ 29.
Definition der_tag (tag : Z) : bytes :=
  if decide (tag_number tag < 31) then [tag_class tag * 32 + tag_number tag]
  else tag_class tag * 32 + 31 :: base128 (tag_number tag).

Definition der_length (n : Z) : bytes :=
  if decide (n < 128) then [n]
  else 128 + Z.of_nat (ndigits 8 n) :: be_bytes (ndigits 8 n) n.

Definition der_header (tag n : Z) : bytes := der_tag tag ++ der_length n.
Definition der (tag : Z) (contents : bytes) : bytes :=
  der_header tag (zlen contents) ++ contents.

(** ** Base-128 integers *)

Lemma bit7_clear b : is_u8 b → (b .& 0x80 =? 0) = bool_decide (b < 128).
Proof.
  intros Hb. apply Bool.eqb_prop. revert b Hb.
  apply (byte_cases (λ b, Bool.eqb (b .& 0x80 =? 0) (bool_decide (b < 128)))). by vm_compute.
Qed.

Lemma length_b128_bytes n v : length (b128_bytes n v) = n.
Proof. induction n; simpl; auto. Qed.

Lemma div_pow128_succ v i : 0 ≤ i → v / 128 ^ (i + 1) = v / 128 ^ i / 128.
Proof.
  intros. assert (0 < 128 ^ i) by (apply Z.pow_pos_nonneg; lia).
  rewrite Z.pow_add_r, Z.pow_1_r, Z.div_div by lia. done.
Qed.

(** One iteration of the loop appends one digit to the accumulator. *)
Lemma base128_step v i : is_u64 v →
  (v / 128 ^ (i + 1)) >>> (64 - 7) = 0 → 0 ≤ i →
  ((v / 128 ^ (i + 1)) <<64 7) .| ((v / 128 ^ i) mod 128) = v / 128 ^ i.
Proof.
  intros Hv Hs Hi. rewrite shiftr_div in Hs by lia.
  assert (0 < 128 ^ i) by (apply Z.pow_pos_nonneg; lia).
  rewrite div_pow128_succ in * by done.
  set (q := v / 128 ^ i) in *. assert (0 ≤ q) by (apply Z.div_pos; word_lia).
  rewrite wrap_small.
  - rewrite lor_shiftl_add by (lia || (word_bounds; change (2 ^ 7) with 128; lia)).
    change (2 ^ 7) with 128. lia.
  - rewrite Z.shiftl_mul_pow2 by lia. change (2 ^ (64 - 7)) with 144115188075855872 in Hs.
    change (2 ^ 7) with 128. word_lia.
Qed.

Lemma base128_loop_complete n v acc c :
  is_u64 v → (1 ≤ n)%nat → acc = v / 128 ^ Z.of_nat n →
  n = 1%nat ∨ v / 128 ^ (Z.of_nat n - 1) ≠ 0 →
  parse_base128_loop acc (b128_bytes n v ++ c) = (Some v, c).
Proof.
  intros Hv Hn -> Hd. induction n as [|i IH]; [lia|]. clear Hn.
  rewrite Nat2Z.inj_succ in *. replace (Z.succ (Z.of_nat i) - 1) with (Z.of_nat i) in Hd by lia.
  cbn [b128_bytes app parse_base128_loop].
  set (p := v / 128 ^ Z.of_nat i) in *. assert (0 < 128 ^ Z.of_nat i) by (apply Z.pow_pos_nonneg; lia).
  assert (0 ≤ p ≤ v) by (subst p; split; [apply Z.div_pos|apply Z.div_le_upper_bound]; word_lia; nia).
  assert (v / 128 ^ Z.succ (Z.of_nat i) = p / 128) as Hp
    by (rewrite <- Z.add_1_r; apply div_pow128_succ; lia).
  assert ((v / 128 ^ Z.succ (Z.of_nat i)) >>> (64 - 7) = 0) as Hs.
  { rewrite Hp, shiftr_div by lia. apply Z.div_small. word_bounds.
    change (2 ^ (64 - 7)) with 144115188075855872. lia. }
  rewrite Hs. cbn [negb Z.eqb]. pose proof (base128_step v (Z.of_nat i) Hv Hs ltac:(lia)) as Hstep.
  rewrite <- Z.add_1_r in *. fold p in Hstep. rewrite land_7f.
  rewrite Hp in *. destruct (decide (i = 0%nat)) as [->|Hi].
  - rewrite Z.add_0_r, Z.mod_mod by lia. rewrite Hstep, bit7_clear by (word_bounds; lia).
    rewrite bool_decide_eq_true_2 by lia. cbn [negb].
    rewrite (proj2 (Z.eqb_neq (p mod 128) 0x80)), andb_false_r by lia.
    subst p. by rewrite Z.div_1_r.
  - assert (p ≠ 0) by (destruct Hd; lia).
    replace ((p mod 128 + 128) mod 128) with (p mod 128) by lia.
    rewrite Hstep, bit7_clear by (word_bounds; lia). rewrite bool_decide_eq_false_2 by lia. cbn [negb].
    assert ((p / 128 =? 0) && (p mod 128 + 128 =? 0x80) = false) as -> by lia.
    apply IH; [lia|]. right. intros Hz. destruct Hd; [lia|].
    assert (0 < 128 ^ (Z.of_nat i - 1)) by (apply Z.pow_pos_nonneg; lia).
    apply Z.div_small_iff in Hz; [|lia].
    assert (p = 0); [|done]. subst p. apply Z.div_small. split; [word_lia|].
    destruct Hz as [Hz|Hz]; [|lia]. apply Z.lt_le_trans with (128 ^ (Z.of_nat i - 1)); [lia|].
    apply Z.pow_le_mono_r; lia.
Qed.

Lemma base128_loop_sound c : ∀ acc v c',
  bytes_ok c → is_u64 acc → parse_base128_loop acc c = (Some v, c') →
  is_u64 v ∧ ∃ n, (1 ≤ n)%nat ∧ c = b128_bytes n v ++ c' ∧ acc = v / 128 ^ Z.of_nat n ∧
    (acc ≠ 0 ∨ n = 1%nat ∨ v / 128 ^ (Z.of_nat n - 1) ≠ 0).
Proof.
  induction c as [|b c IH]; intros acc v c' Hok Hacc; cbn [parse_base128_loop]; [done|].
  apply bytes_ok_cons in Hok as [Hb Hok].
  destruct (acc >>> (64 - 7) =? 0) eqn:Hs; [|done]. apply Z.eqb_eq in Hs. cbn [negb].
  destruct ((acc =? 0) && (b =? 0x80)) eqn:Hmin; [done|].
  rewrite bit7_clear, land_7f by done. rewrite shiftr_div in Hs by done.
  change (2 ^ (64 - 7)) with 144115188075855872 in Hs.
  assert ((acc <<64 7) .| (b mod 128) = acc * 128 + b mod 128) as ->.
  { rewrite wrap_small.
    - rewrite lor_shiftl_add by (lia || (word_bounds; change (2 ^ 7) with 128; lia)). done.
    - rewrite Z.shiftl_mul_pow2 by lia. change (2 ^ 7) with 128. word_lia. }
  case_bool_decide as Hlt; cbn [negb]; intros H.
  - injection H as <- <-. split; [word_lia|]. exists 1%nat. cbn [b128_bytes app].
    rewrite decide_True by done. split_and!; [done| |word_lia|auto].
    f_equal. change (128 ^ Z.of_nat 0) with 1. rewrite Z.div_1_r. word_lia.
  - apply IH in H as (Hv & n & Hn & -> & Hdiv & Hlead); [|done|word_lia].
    split; [done|]. exists (S n). rewrite Nat2Z.inj_succ, <- Z.add_1_r.
    rewrite div_pow128_succ, <- Hdiv by lia. cbn [b128_bytes app]. rewrite <- Hdiv.
    rewrite decide_False by lia. split_and!; [lia| |word_lia|].
    + f_equal. word_lia.
    + destruct (decide (acc = 0)); [|auto]. right. right.
      replace (Z.of_nat n + 1 - 1) with (Z.of_nat n) by lia. rewrite <- Hdiv. word_lia.
Qed.

Lemma pow128_pow2 n : 0 ≤ n → 128 ^ n = 2 ^ (7 * n).
Proof. intros. change 128 with (2 ^ 7). by rewrite <- Z.pow_mul_r by lia. Qed.

(** The base-128 reader accepts exactly the minimal encodings. *)
Lemma base128_complete v c : is_u64 v → parse_base128_integer (base128 v ++ c) = (Some v, c).
Proof.
  intros Hv. assert (0 ≤ v) by word_lia. pose proof (ndigits_pos 7 v ltac:(lia)).
  apply base128_loop_complete; [done|done| |].
  - rewrite pow128_pow2, Z.div_small by (try split; (done || lia || apply ndigits_upper; lia)). done.
  - pose proof (ndigits_lower 7 v ltac:(lia) ltac:(done)) as [|Hl]; [by left|].
    destruct (decide (ndigits 7 v = 1%nat)); [by left|right].
    rewrite pow128_pow2 by lia. intros Hz. apply Z.div_small_iff in Hz; [|lia]. lia.
Qed.
Lemma base128_sound c v c' : bytes_ok c → parse_base128_integer c = (Some v, c') →
  is_u64 v ∧ c = base128 v ++ c'.
Proof.
  intros Hok H. apply base128_loop_sound in H as (Hv & n & Hn & -> & Hz & Hl); [|done|word_lia].
  split; [done|]. unfold base128. f_equal. f_equal. destruct Hl as [|Hl]; [done|].
  symmetry in Hz. assert (0 ≤ v) by word_lia. assert (0 < 128 ^ Z.of_nat n) by (apply Z.pow_pos_nonneg; lia).
  apply ndigits_unique; [lia|done|done| |].
  - rewrite <- pow128_pow2 by lia. apply Z.div_small_iff in Hz; lia.
  - destruct Hl as [|Hl]; [by left|right]. rewrite <- pow128_pow2 by lia.
    assert (0 < 128 ^ (Z.of_nat n - 1)) by (apply Z.pow_pos_nonneg; lia).
    apply Z.nlt_ge. intros Hlt. apply Hl, Z.div_small. lia.
Qed.

(** ** Tags *)

Lemma tag_split tag : is_u32 tag →
  tag = tag_class tag * 2 ^ 29 + tag_number tag ∧ 0 ≤ tag_class tag < 8 ∧ is_uint 29 (tag_number tag).
Proof.
  intros. unfold tag_class, tag_number, is_uint in *. change (2 ^ 29) with 536870912 in *.
  change (2 ^ 32) with 4294967296 in *. lia.
Qed.

(** The identifier octet splits into class bits and the low five bits. *)
Lemma tag_byte_split b : is_u8 b →
  ((b .& 0xe0) <<32 CBS_ASN1_TAG_SHIFT) = Z.shiftl (b / 32) 29 ∧ b .& 0x1f = b mod 32.
Proof.
  intros Hb. split; [|apply land_1f]. revert b Hb.
  cut (∀ b, is_u8 b → (((b .& 0xe0) <<32 CBS_ASN1_TAG_SHIFT) =? Z.shiftl (b / 32) 29) = true).
  { intros H b Hb. by apply Z.eqb_eq, H. }
  apply byte_cases. by vm_compute.
Qed.

Lemma parse_asn1_tag_complete tag c : is_u32 tag → parse_asn1_tag (der_tag tag ++ c) = (Some tag, c).
Proof.
  intros Ht. destruct (tag_split tag Ht) as (Htag & Hcls & Hnum).
  unfold der_tag, parse_asn1_tag. set (cls := tag_class tag) in *. set (n := tag_number tag) in *.
  case_decide as Hn; cbn [app]; rewrite (bind_some _ _ _ _ _ (get_u8_cons _ _));
    (destruct (tag_byte_split (cls * 32 + (if decide (n < 31) then n else 31))) as [Hc Hl];
     [case_decide; unfold is_uint in *; lia|]); case_decide; try done; rewrite Hc, Hl.
  - assert (0 ≤ n) by apply Hnum.
    replace ((cls * 32 + n) mod 32) with n by lia. replace ((cls * 32 + n) / 32) with cls by lia.
    rewrite (proj2 (Z.eqb_neq n 0x1f)) by lia.
    unfold mret, st_ret. by rewrite (bind_some _ _ _ n c), lor_shiftl_add, <- Htag by done.
  - replace ((cls * 32 + 31) mod 32) with 31 by lia. replace ((cls * 32 + 31) / 32) with cls by lia.
    cbn [Z.eqb Pos.eqb].
    assert (is_u32 n) by (eapply is_uint_mono; [|done]; lia).
    assert (is_u64 n) by (eapply is_uint_mono; [|done]; lia).
    rewrite (bind_some _ _ _ n c).
    + unfold mret, st_ret. by rewrite lor_shiftl_add, <- Htag by done.
    + rewrite (bind_some _ _ _ n c) by by apply base128_complete.
      unfold st_assert, mbind, st_bind, mret, st_ret.
      assert ((CBS_ASN1_TAG_NUMBER_MASK <? n) || (n <? 0x1f) = false) as ->.
      { change CBS_ASN1_TAG_NUMBER_MASK with 536870911. unfold is_uint in Hnum.
        change (2 ^ 29) with 536870912 in Hnum. lia. }
      by rewrite wrap_small.
Qed.

Lemma parse_asn1_tag_sound c tag c' : bytes_ok c → parse_asn1_tag c = (Some tag, c') →
  is_u32 tag ∧ c = der_tag tag ++ c'.
Proof.
  intros Hok H. unfold parse_asn1_tag in H. apply bind_inv in H as (b & c1 & Hb & H).
  apply get_u8_inv in Hb as ->. apply bytes_ok_cons in Hok as [Hb Hok].
  apply bind_inv in H as (n & c2 & Hn & H). apply ret_inv in H as [<- ->].
  destruct (tag_byte_split b Hb) as [-> Hl]. rewrite Hl in Hn.
  assert (∀ n, is_uint 29 n → tag_class (Z.shiftl (b / 32) 29 .| n) = b / 32 ∧
            tag_number (Z.shiftl (b / 32) 29 .| n) = n ∧ is_u32 (Z.shiftl (b / 32) 29 .| n)) as Hsplit.
  { intros m Hm. rewrite lor_shiftl_add by (done || lia). unfold tag_class, tag_number, is_uint in *.
    change (2 ^ 29) with 536870912 in *. change (2 ^ 32) with 4294967296.
    change (2 ^ 8) with 256 in *. lia. }
  unfold der_tag. destruct (Z.eqb_spec (b mod 32) 0x1f) as [E|E].
  - st_inv Hn. apply base128_sound in E0 as [Hv ->]; [|done].
    apply negb_true_iff, orb_false_iff in E1 as [E1 E2].
    change CBS_ASN1_TAG_NUMBER_MASK with 536870911 in E1.
    assert (is_uint 29 a) by (unfold is_uint in *; change (2 ^ 29) with 536870912; lia).
    rewrite wrap_small by (eapply is_uint_mono; [|done]; lia).
    destruct (Hsplit a) as (Hc & Hnum & Hu); [done|]. split; [done|]. rewrite Hc, Hnum.
    rewrite decide_False by lia. cbn [app]. f_equal. lia.
  - apply ret_inv in Hn as [<- ->].
    destruct (Hsplit (b mod 32)) as (Hc & Hnum & Hu); [unfold is_uint; change (2 ^ 29) with 536870912; lia|].
    split; [done|]. rewrite Hc, Hnum. rewrite decide_True by lia. cbn [app]. f_equal. lia.
Qed.

Lemma zlen_der_tag tag : is_u32 tag → 1 ≤ zlen (der_tag tag) ≤ 6.
Proof.
  intros Ht. destruct (tag_split tag Ht) as (_ & _ & [H0 H1]). unfold der_tag.
  case_decide; rewrite zlen_cons; [done|].
  unfold base128, zlen. rewrite length_b128_bytes.
  pose proof (ndigits_le 7 (tag_number tag) 5 ltac:(lia) H0 ltac:(lia)) as Hle.
  assert (2 ^ 29 ≤ 2 ^ (7 * Z.of_nat 5)) by by vm_compute. lia.
Qed.

(** ** Elements *)

Lemma ndigits_8_bounds n : 128 ≤ n < 2 ^ 32 → (1 ≤ ndigits 8 n ≤ 4)%nat.
Proof.
  intros. split; [by apply ndigits_pos|]. apply ndigits_le; [lia..|].
  change (2 ^ (8 * Z.of_nat 4)) with (2 ^ 32). lia.
Qed.
Lemma zlen_der_length n : 0 ≤ n < 2 ^ 32 → 1 ≤ zlen (der_length n) ≤ 5.
Proof.
  intros. unfold der_length. case_decide; [done|].
  rewrite zlen_cons, zlen_be_bytes. pose proof (ndigits_8_bounds n). lia.
Qed.

Lemma ndigits8_range n : 0 ≤ n → 0 ≤ n < 256 ^ Z.of_nat (ndigits 8 n).
Proof. intros. rewrite pow256_pow2 by lia. split; [done|]. by apply ndigits_upper. Qed.

(** The element that the encoding of [contents] denotes. *)
Definition der_element (tag : Z) (contents : bytes) : element :=
  Build_element (der tag contents) tag (zlen (der_header tag (zlen contents))) false.

Ltac element_eq :=
  match goal with
  | |- _ (Build_element _ _ ?h _) _ = (Some (Build_element _ _ ?h' _), _) => replace h with h' by lia
  | |- Build_element _ _ ?h _ = Build_element _ _ ?h' _ => replace h with h' by lia
  end; reflexivity.

Lemma any_element_complete ber_ok tag contents rest :
  is_u32 tag → zlen contents < 2 ^ 32 →
  cbs_get_any_asn1_element ber_ok (der tag contents ++ rest) =
    (Some (der_element tag contents), rest).
Proof.
  intros Ht Hn. pose proof (zlen_nonneg contents) as H0.
  pose proof (zlen_der_tag tag Ht) as Htl. pose proof (zlen_der_length (zlen contents) ltac:(lia)) as Hll.
  assert (∀ m, m = zlen (der tag contents) →
    CBS_get_bytes m (der tag contents ++ rest) = (Some (der tag contents), rest)) as Hget.
  { intros m ->. apply cbs_get_app. }
  assert (zlen (der tag contents) = zlen (der_tag tag) + zlen (der_length (zlen contents)) + zlen contents) as Hlen.
  { unfold der, der_header. autorewrite with bytesdb. lia. }
  unfold cbs_get_any_asn1_element, der_element, der_header, CBS_len.
  assert (parse_asn1_tag (der tag contents ++ rest) = (Some tag, der_length (zlen contents) ++ contents ++ rest)) as ->.
  { unfold der, der_header. rewrite <- !app_assoc. by apply parse_asn1_tag_complete. }
  rewrite !zlen_app, Hlen. rewrite Hlen in Hget. clear Hlen.
  set (E := der tag contents) in *. set (n := zlen contents) in *. unfold der_length in *.
  case_decide as Hs; cbn [app]; rewrite get_u8_cons; autorewrite with bytesdb in *; fold n in Hget |- *.
  - rewrite bit7_clear by word_lia. rewrite bool_decide_eq_true_2 by done.
    match goal with |- context [u64 (n + ?h)] => replace h with (zlen (der_tag tag) + 1) by lia end.
    erewrite bind_some by (apply Hget; rewrite wrap_small; word_lia).
    element_eq.
  - pose proof (ndigits_8_bounds n ltac:(lia)) as Hk. set (k := ndigits 8 n) in *.
    rewrite zlen_be_bytes in *.
    rewrite bit7_clear by word_lia. rewrite bool_decide_eq_false_2 by lia.
    rewrite land_7f. replace ((128 + Z.of_nat k) mod 128) with (Z.of_nat k) by lia.
    rewrite (proj2 (Z.eqb_neq (Z.of_nat k) 0)), andb_false_r by lia.
    rewrite (proj2 (Z.ltb_ge 4 (Z.of_nat k))) by lia. cbn [orb].
    rewrite cbs_get_u_bytes by (lia || apply ndigits8_range; lia).
    rewrite (proj2 (Z.ltb_ge n 128)) by lia.
    assert ((n >>> ((Z.of_nat k - 1) * 8) =? 0) = false) as ->.
    { rewrite shiftr_div by lia. apply Z.eqb_neq. intros Hz.
      apply Z.div_small_iff in Hz; [|apply Z.pow_nonzero; lia].
      destruct (ndigits_lower 8 n ltac:(lia) H0) as [H1|Hl]; [fold k in H1; rewrite H1 in Hz; lia|fold k in Hl].
      replace ((Z.of_nat k - 1) * 8) with (8 * (Z.of_nat k - 1)) in Hz by lia. lia. }
    cbn [orb]. rewrite andb_false_r.
    match goal with |- context [u64 (n + ?h + Z.of_nat k)] => replace h with (zlen (der_tag tag) + 1) by lia end.
    rewrite wrap_small by word_lia. rewrite (proj2 (Z.ltb_ge _ n)) by lia.
    erewrite bind_some by (apply Hget; lia).
    element_eq.
Qed.

(** The long form of the length octets, read back. *)
Lemma der_length_long n k : 0 < k ≤ 4 → 128 ≤ n < 256 ^ k → n >>> ((k - 1) * 8) ≠ 0 →
  Z.of_nat (ndigits 8 n) = k.
Proof.
  intros Hk Hn Hp. rewrite shiftr_div in Hp by lia.
  rewrite <- (ndigits_unique 8 n (Z.to_nat k)); try lia.
  - rewrite Z2Nat.id by lia. rewrite <- pow256_pow2 by lia. lia.
  - right. rewrite Z2Nat.id by lia. replace (8 * (k - 1)) with ((k - 1) * 8) by lia.
    apply Z.nlt_ge. intros Hlt. apply Hp, Z.div_small. lia.
Qed.

Lemma any_element_sound ber_ok c e rest :
  bytes_ok c → cbs_get_any_asn1_element ber_ok c = (Some e, rest) → el_ber_found e = false →
  ∃ contents, c = der (el_tag e) contents ++ rest ∧ is_u32 (el_tag e) ∧
    zlen contents < 2 ^ 32 ∧ e = der_element (el_tag e) contents.
Proof.
  intros Hok H Hber. unfold cbs_get_any_asn1_element in H.
  destruct (parse_asn1_tag c) as [[tag|] header] eqn:Etag; [|done].
  apply parse_asn1_tag_sound in Etag as [Ht ->]; [|done]. apply bytes_ok_app in Hok as [_ Hok].
  destruct (CBS_get_u8 header) as [[b|] header'] eqn:Eb; [|done]. apply get_u8_inv in Eb as ->.
  apply bytes_ok_cons in Hok as [Hb Hok]. unfold CBS_len in H.
  pose proof (zlen_der_tag tag Ht) as Htl. rewrite bit7_clear, land_7f in H by done.
  case_bool_decide as Hs.
  - apply bind_inv in H as (out & c1 & Hout & H). apply ret_inv in H as [<- ->].
    apply cbs_get_inv in Hout as [Hout Hlen]. cbn [el_tag] in *.
    autorewrite with bytesdb in Hlen. rewrite wrap_small in Hlen by (word_bounds; lia).
    change (b :: header') with ([b] ++ header') in Hout. rewrite app_assoc in Hout.
    apply app_split in Hout as (contents & -> & ->); [|autorewrite with bytesdb; word_lia].
    autorewrite with bytesdb in Hlen. pose proof (zlen_nonneg contents).
    assert (zlen contents = b) as Hn by word_lia.
    exists contents. unfold der_element, der, der_header, der_length.
    rewrite Hn, decide_True by done. autorewrite with bytesdb. rewrite <- !app_assoc.
    split_and!; [done|done|lia|element_eq].
  - destruct (_ && _ && _) eqn:Eind.
    { apply bind_inv in H as (out & c1 & _ & H). by apply ret_inv in H as [<- _]. }
    destruct (_ || (4 <? _)) eqn:Ek; [done|].
    apply orb_false_iff in Ek as [Ek0 Ek4]. set (k := b mod 128) in *.
    assert (0 < k ≤ 4) as Hk by (subst k; word_lia).
    destruct (cbs_get_u k header') as [[n|] header''] eqn:Eu; [|done].
    apply cbs_get_u_inv in Eu as (d & -> & Hd & -> & Hdok); [|done|lia].
    pose proof (be_val_bound d Hdok) as Hn. rewrite Hd in Hn. set (n := be_val d) in *.
    destruct (negb ber_ok && _) eqn:Eber; [done|].
    destruct (_ <? n) eqn:Eov; [done|].
    apply bind_inv in H as (out & c1 & Hout & H). apply ret_inv in H as [<- ->].
    cbn [el_ber_found] in Hber. apply orb_false_iff in Hber as [Hshort Hpad].
    assert (256 ^ k ≤ 256 ^ 4) by (apply Z.pow_le_mono_r; lia). change (256 ^ 4) with 4294967296 in *.
    assert (Z.of_nat (ndigits 8 n) = k) as Hnd by (apply der_length_long; lia).
    apply cbs_get_inv in Hout as [Hout Hlen]. cbn [el_tag] in *.
    autorewrite with bytesdb in Hlen. rewrite Hd in *. rewrite wrap_small in Hlen by (word_bounds; lia).
    change (b :: d ++ header'') with ((b :: d) ++ header'') in Hout. rewrite app_assoc in Hout.
    apply app_split in Hout as (contents & -> & ->); [|autorewrite with bytesdb; word_lia].
    autorewrite with bytesdb in Hlen. pose proof (zlen_nonneg contents).
    assert (zlen contents = n) as Hzn by word_lia.
    assert (der_length n = b :: d) as Hdl.
    { unfold der_length. rewrite decide_False by lia. rewrite Hnd. f_equal; [subst k; word_lia|].
      rewrite <- (be_bytes_be_val d Hdok). f_equal. unfold zlen in Hd. lia. }
    exists contents. unfold der_element, der, der_header. rewrite Hzn, Hdl.
    autorewrite with bytesdb. rewrite Hd, <- !app_assoc.
    split_and!; [done|done|change (2 ^ 32) with 4294967296; lia|].
    rewrite Hshort, Hpad. element_eq.
Qed.

Lemma der_mode_not_ber c e rest : cbs_get_any_asn1_element false c = (Some e, rest) → el_ber_found e = false.
Proof.
  unfold cbs_get_any_asn1_element. cbn [andb negb]. intros H.
  repeat (case_match; try done); apply bind_inv in H as (? & ? & _ & H);
    apply ret_inv in H as [<- _]; done.
Qed.

Lemma any_element_inv c e rest : bytes_ok c → CBS_get_any_asn1_element c = (Some e, rest) →
  ∃ tag contents, is_u32 tag ∧ zlen contents < 2 ^ 32 ∧
    c = der tag contents ++ rest ∧ e = der_element tag contents.
Proof.
  intros Hok H. apply any_element_sound in H as (contents & ? & ? & ? & ?);
    [eauto 10|done|by eapply der_mode_not_ber].
Qed.

(** C1: [CBS_get_any_asn1_element] accepts exactly the distinguished encodings: it
    succeeds on a byte string precisely when the string starts with the DER encoding
    of some tag and contents (shorter than 2^32 bytes), and then returns that
    encoding, the tag, the header length and the bytes that follow. *)
Theorem CBS_get_any_asn1_element_exact c e rest : bytes_ok c →
  CBS_get_any_asn1_element c = (Some e, rest) ↔
  ∃ tag contents, is_u32 tag ∧ zlen contents < 2 ^ 32 ∧
    c = der tag contents ++ rest ∧ e = der_element tag contents.
Proof.
  intros Hok. split.
  - by apply any_element_inv.
  - intros (tag & contents & ? & ? & -> & ->). by apply any_element_complete.
Qed.

Lemma CBS_get_any_asn1_element_exact_witness :
  CBS_get_any_asn1_element [0x30; 0x03; 0x02; 0x01; 0x07; 0xff] =
    (Some (der_element CBS_ASN1_SEQUENCE [0x02; 0x01; 0x07]), [0xff]).
Proof.
  apply CBS_get_any_asn1_element_exact.
  - repeat constructor; by vm_compute.
  - exists CBS_ASN1_SEQUENCE, [0x02; 0x01; 0x07]. repeat split; by vm_compute.
Defined.

Lemma bytes_ok_base128 n v : bytes_ok (b128_bytes n v).
Proof. induction n; constructor; [|done]. case_decide; word_lia. Qed.
Lemma bytes_ok_der_header tag n : is_u32 tag → 0 ≤ n < 2 ^ 32 → bytes_ok (der_header tag n).
Proof.
  intros Ht Hn. destruct (tag_split tag Ht) as (_ & Hc & [? ?]).
  apply bytes_ok_app. split.
  - unfold der_tag. case_decide; constructor; try (word_lia; lia); [constructor|].
    apply bytes_ok_base128.
  - unfold der_length. case_decide; constructor; try (word_lia; lia); [constructor|..].
    + pose proof (ndigits_8_bounds n). word_lia.
    + apply bytes_ok_be_bytes.
Qed.
Lemma bytes_ok_der tag contents : is_u32 tag → zlen contents < 2 ^ 32 → bytes_ok contents →
  bytes_ok (der tag contents).
Proof.
  intros. apply bytes_ok_app. split; [|done]. apply bytes_ok_der_header; [done|].
  split; [apply zlen_nonneg|done].
Qed.

(** Distinguished encodings are self-delimiting: when the encodings of two
    elements start the same byte string they are the same element.  (So no encoding
    is a proper prefix of another, as [compare_set_of_element] relies on, and what the
    element parser returns is determined by the input.) *)
Theorem der_prefix_free t1 c1 r1 t2 c2 r2 :
  is_u32 t1 → is_u32 t2 → zlen c1 < 2 ^ 32 → zlen c2 < 2 ^ 32 →
  der t1 c1 ++ r1 = der t2 c2 ++ r2 → t1 = t2 ∧ c1 = c2 ∧ r1 = r2.
Proof.
  intros Ht1 Ht2 Hc1 Hc2 Heq. pose proof (any_element_complete false t1 c1 r1 Ht1 Hc1) as H1.
  rewrite Heq, (any_element_complete false t2 c2 r2 Ht2 Hc2) in H1.
  injection H1 as Hd Ht Hh Hr. subst. split_and!; [done| |done].
  apply (f_equal zlen) in Hd as Hl. unfold der in Hd, Hl. rewrite !zlen_app in Hl.
  replace (zlen c2) with (zlen c1) in Hd by lia. by apply app_inv_head in Hd.
Qed.

Lemma der_prefix_free_witness :
  0x1ff = 0x1ff ∧ [7] = [7] ∧ [1; 2] = [1; 2].
Proof. apply (der_prefix_free 0x1ff [7] [1; 2] 0x1ff [7] [1; 2]); vm_compute; done. Defined.
