(* ===== verification/Asn1.v ===== *)
(** * ASN.1 types read from DER: integers, booleans, bit strings, optional fields

    Specifications of the contents octets and exactness theorems for the
    [CBS_get_asn1_*] readers of [Cbs]. *)
From S2P Require Export Der.

(** ** Specification *)

(** Two's complement value of a non-empty byte string. *)
Definition int_val (d : bytes) : Z :=
  be_val d - (if decide (128 ≤ hd 0 d) then 256 ^ zlen d else 0).
(** Minimal two's complement contents of an INTEGER. *)
Definition int_magnitude (v : Z) : Z := if decide (v < 0) then - v - 1 else v.
Definition int_octets (v : Z) : bytes := be_bytes (ndigits 8 (2 * int_magnitude v)) v.

(** [c] is the DER encoding of [contents] under [tag], followed by [rest]. *)
Definition starts_with_element (tag : Z) (contents rest c : bytes) : Prop :=
  is_u32 tag ∧ zlen contents < 2 ^ 32 ∧ c = der tag contents ++ rest.
(** [read] finds nothing to read: it succeeds with [d] and leaves the input alone. *)
Definition absent_default {A} (read : st bytes A) (d : A) (c : bytes) : Prop := read c = (Some d, c).

(** ** Reading an element with a given tag *)

Lemma get_asn1_complete tag contents rest : is_u32 tag → zlen contents < 2 ^ 32 →
  CBS_get_asn1 tag (der tag contents ++ rest) = (Some contents, rest).
Proof.
  intros Ht Hl. unfold CBS_get_asn1, cbs_get_asn1.
  erewrite bind_some by by apply any_element_complete.
  unfold st_assert, der_element, el_tag. rewrite Z.eqb_refl.
  unfold mbind at 1, st_bind at 1. unfold st_local, el_header_len, el_out.
  unfold mbind, st_bind. rewrite cbs_get_skip. unfold der. by rewrite cbs_get_app.
Qed.

Lemma get_asn1_sound tag c contents rest : bytes_ok c →
  CBS_get_asn1 tag c = (Some contents, rest) → starts_with_element tag contents rest c.
Proof.
  intros Hok H. unfold CBS_get_asn1, cbs_get_asn1 in H. st_inv H.
  apply any_element_inv in E as (t & k & ? & ? & -> & ->); [|done].
  cbn in E0. apply Z.eqb_eq in E0 as ->. cbn in E1.
  rewrite cbs_get_skip in E1. unfold der in E1. rewrite cbs_get_app in E1. cbn in E1.
  injection E1 as _ Hk. rewrite <- Hk. done.
Qed.

(** C39: [CBS_get_asn1] with an expected tag returns the contents exactly when the
    input starts with the DER encoding of an element with that tag. *)
Theorem CBS_get_asn1_exact tag c contents rest : bytes_ok c →
  CBS_get_asn1 tag c = (Some contents, rest) ↔ starts_with_element tag contents rest c.
Proof.
  intros Hok. split; [by apply get_asn1_sound|].
  intros (? & ? & ->). by apply get_asn1_complete.
Qed.

Lemma CBS_get_asn1_exact_witness :
  CBS_get_asn1 CBS_ASN1_OCTETSTRING [4; 2; 9; 8; 7] = (Some [9; 8], [7]).
Proof.
  apply CBS_get_asn1_exact; [repeat constructor; by vm_compute|repeat split; by vm_compute].
Defined.

(** ** INTEGER contents *)

Lemma int_magnitude_nonneg v : 0 ≤ int_magnitude v.
Proof. unfold int_magnitude. case_decide; lia. Qed.

Lemma pow256_even k : 0 < k → ∃ x, 256 ^ k = 2 * x.
Proof.
  intros Hk. exists (128 * 256 ^ (k - 1)). replace k with (1 + (k - 1)) at 1 by lia.
  rewrite Z.pow_add_r by lia. lia.
Qed.

(** The number of octets is characterised by the interval of representable values. *)
Lemma int_octets_length v n : (1 ≤ n)%nat →
  - 256 ^ Z.of_nat n ≤ 2 * v < 256 ^ Z.of_nat n →
  (n = 1%nat ∨ 2 * v < - 256 ^ (Z.of_nat n - 1) ∨ 256 ^ (Z.of_nat n - 1) ≤ 2 * v) →
  ndigits 8 (2 * int_magnitude v) = n.
Proof.
  intros Hn Hr Hl. symmetry. pose proof (int_magnitude_nonneg v).
  destruct (pow256_even (Z.of_nat n)) as [x Hx]; [lia|].
  apply ndigits_unique; [lia..| |].
  - rewrite <- pow256_pow2, Hx in * by lia. unfold int_magnitude. case_decide; lia.
  - destruct Hl as [|Hl]; [by left|]. destruct (decide (n = 1%nat)); [by left|right].
    rewrite <- pow256_pow2 by lia. destruct (pow256_even (Z.of_nat n - 1)) as [y Hy]; [lia|].
    rewrite Hy in *. unfold int_magnitude. case_decide; lia.
Qed.

Lemma int_octets_range v : let n := ndigits 8 (2 * int_magnitude v) in
  (1 ≤ n)%nat ∧ - 256 ^ Z.of_nat n ≤ 2 * v < 256 ^ Z.of_nat n ∧
  (n = 1%nat ∨ 2 * v < - 256 ^ (Z.of_nat n - 1) ∨ 256 ^ (Z.of_nat n - 1) ≤ 2 * v).
Proof.
  intros n. pose proof (int_magnitude_nonneg v).
  pose proof (ndigits_pos 8 (2 * int_magnitude v) ltac:(lia)).
  pose proof (ndigits_upper 8 (2 * int_magnitude v) ltac:(lia) ltac:(lia)) as Hu.
  pose proof (ndigits_lower 8 (2 * int_magnitude v) ltac:(lia) ltac:(lia)) as Hl. fold n in H0, Hu, Hl |- *.
  rewrite <- pow256_pow2 in Hu, Hl by lia. split; [done|].
  clearbody n. destruct (pow256_even (Z.of_nat n)) as [x Hx]; [lia|]. rewrite Hx in *.
  unfold int_magnitude in *. case_decide; (split; [lia|]); destruct Hl as [|Hl]; lia.
Qed.

Lemma zlen_int_octets v : zlen (int_octets v) = Z.of_nat (ndigits 8 (2 * int_magnitude v)).
Proof. apply zlen_be_bytes. Qed.
Lemma bytes_ok_int_octets v : bytes_ok (int_octets v).
Proof. apply bytes_ok_be_bytes. Qed.

(** [CBS_is_valid_asn1_integer] recognises exactly the minimal contents. *)
Lemma valid_integer_sound d neg : bytes_ok d → CBS_is_valid_asn1_integer d = Some neg →
  d = int_octets (int_val d) ∧ neg = bool_decide (int_val d < 0).
Proof.
  intros Hok. destruct d as [|b d]; [done|]. unfold CBS_is_valid_asn1_integer.
  rewrite get_u8_cons. apply bytes_ok_cons in Hok as [Hb Hok].
  rewrite bit7_clear by done. pose proof (be_val_bound d Hok) as Hd.
  unfold int_val. cbn [hd]. rewrite be_val_cons, zlen_cons, Z.pow_add_r, Z.pow_1_r
    by (pose proof (zlen_nonneg d); lia).
  assert (0 < 256 ^ zlen d) as Hp by lia.
  set (v := b * 256 ^ zlen d + be_val d - _).
  assert (negb (bool_decide (b < 128)) = bool_decide (v < 0)) as ->.
  { subst v. do 2 case_bool_decide; case_decide; cbn; try done; word_bounds; nia. }
  intros H. assert ((d = [] ∨ 2 * v < - 256 ^ zlen d ∨ 256 ^ zlen d ≤ 2 * v) ∧ neg = bool_decide (v < 0)) as [Hmin ->].
  { destruct d as [|b1 d]; [rewrite get_u8_nil in H; naive_solver|].
    rewrite get_u8_cons in H. apply bytes_ok_cons in Hok as [Hb1 Hok]. rewrite bit7_clear in H by done.
    destruct (_ || _) eqn:E; [done|]. injection H as <-. split; [right|done].
    apply orb_false_iff in E as [E1 E2]. subst v. rewrite be_val_cons, zlen_cons.
    pose proof (be_val_bound d Hok) as Hd'.
    rewrite Z.pow_add_r, Z.pow_1_r by (pose proof (zlen_nonneg d); lia).
    set (p := 256 ^ zlen d) in *. assert (0 < p) as Hp' by lia.
    case_bool_decide; case_decide; word_bounds; cbn in E1, E2; nia. }
  split; [|done]. unfold int_octets. rewrite (int_octets_length v (S (length d))).
  - rewrite <- (be_bytes_be_val (b :: d)) at 1 by (by apply bytes_ok_cons). cbn [length].
    assert (be_val (b :: d) = v ∨ be_val (b :: d) = v + 256 ^ Z.of_nat (S (length d))) as Hv.
    { rewrite be_val_cons. subst v. rewrite Nat2Z.inj_succ, Z.pow_succ_r by lia.
      fold (zlen d). case_decide; lia. }
    destruct Hv as [-> | ->]; [done|]. apply be_val_inj; auto with bytesdb.
    + by rewrite !length_be_bytes.
    + rewrite !be_val_be_bytes. rewrite <- (Z.mul_1_l (256 ^ _)) at 1. apply Z.mod_add. lia.
  - lia.
  - rewrite Nat2Z.inj_succ, Z.pow_succ_r by lia. fold (zlen d). subst v. case_decide; word_bounds; nia.
  - replace (Z.of_nat (S (length d)) - 1) with (zlen d) by (unfold zlen; lia).
    destruct Hmin as [->|]; [by left|by right].
Qed.

Lemma int_octets_cons v : ∃ k : nat,
  int_octets v = (v / 256 ^ Z.of_nat k) mod 256 :: be_bytes k v ∧
  - 128 ≤ v / 256 ^ Z.of_nat k < 128 ∧
  (k = 0%nat ∨ ∃ j, k = S j ∧ ¬ (- 128 ≤ v / 256 ^ Z.of_nat j < 128)).
Proof.
  pose proof (int_octets_range v) as (Hn & Hr & Hl). unfold int_octets.
  destruct (ndigits 8 (2 * int_magnitude v)) as [|k]; [lia|]. exists k. split; [done|].
  rewrite Nat2Z.inj_succ, Z.pow_succ_r in Hr by lia.
  replace (Z.of_nat (S k) - 1) with (Z.of_nat k) in Hl by lia.
  assert (0 < 256 ^ Z.of_nat k) by (apply Z.pow_pos_nonneg; lia). split.
  - split; [apply Z.div_le_lower_bound; lia|apply Z.div_lt_upper_bound; lia].
  - destruct k as [|j]; [by left|right]. exists j. split; [done|].
    rewrite Nat2Z.inj_succ, Z.pow_succ_r in Hl by lia.
    assert (0 < 256 ^ Z.of_nat j) by (apply Z.pow_pos_nonneg; lia).
    pose proof (Z.div_mod v (256 ^ Z.of_nat j) ltac:(lia)).
    pose proof (Z.mod_pos_bound v (256 ^ Z.of_nat j) ltac:(lia)).
    set (q := v / 256 ^ Z.of_nat j) in *. set (p := 256 ^ Z.of_nat j) in *.
    destruct Hl as [|[|]]; [done|nia|nia].
Qed.

Lemma int_val_octets v : int_val (int_octets v) = v.
Proof.
  destruct (int_octets_cons v) as (k & Hd & Hq & _). unfold int_val.
  assert (hd 0 (int_octets v) = (v / 256 ^ Z.of_nat k) mod 256) as -> by by rewrite Hd.
  assert (zlen (int_octets v) = 1 + Z.of_nat k) as -> by by rewrite Hd, zlen_cons, zlen_be_bytes.
  unfold int_octets. rewrite be_val_be_bytes.
  assert (ndigits 8 (2 * int_magnitude v) = S k) as ->.
  { apply (f_equal length) in Hd. cbn [length] in Hd. unfold int_octets in Hd.
    by rewrite !length_be_bytes in Hd. }
  rewrite Nat2Z.inj_succ, Z.pow_succ_r, Z.pow_add_r, Z.pow_1_r by lia.
  assert (0 < 256 ^ Z.of_nat k) by (apply Z.pow_pos_nonneg; lia).
  rewrite (Z.mul_comm 256), Z.rem_mul_r by lia.
  pose proof (Z.div_mod v (256 ^ Z.of_nat k) ltac:(lia)).
  set (q := v / 256 ^ Z.of_nat k) in *. set (p := 256 ^ Z.of_nat k) in *.
  case_decide; [assert (q mod 256 = q + 256) as -> by lia|assert (q mod 256 = q) as -> by lia]; lia.
Qed.

Lemma valid_integer_complete v :
  CBS_is_valid_asn1_integer (int_octets v) = Some (bool_decide (v < 0)).
Proof.
  destruct (int_octets_cons v) as (k & -> & Hq & Hk). unfold CBS_is_valid_asn1_integer.
  assert (0 < 256 ^ Z.of_nat k) by (apply Z.pow_pos_nonneg; lia).
  rewrite get_u8_cons, bit7_clear by word_lia.
  assert (negb (bool_decide ((v / 256 ^ Z.of_nat k) mod 256 < 128)) = bool_decide (v < 0)) as ->.
  { pose proof (Z.div_mod v (256 ^ Z.of_nat k) ltac:(lia)).
    pose proof (Z.mod_pos_bound v (256 ^ Z.of_nat k) ltac:(lia)).
    set (q := v / 256 ^ Z.of_nat k) in *. set (p := 256 ^ Z.of_nat k) in *.
    assert (q < 0 ↔ v < 0) by nia. clearbody q.
    do 2 case_bool_decide; cbn; try done; exfalso; lia. }
  destruct Hk as [->|(j & -> & Hj)]; [done|]. cbn [be_bytes].
  rewrite get_u8_cons, bit7_clear by word_lia.
  assert (0 < 256 ^ Z.of_nat j) by (apply Z.pow_pos_nonneg; lia).
  assert (v / 256 ^ Z.of_nat (S j) = v / 256 ^ Z.of_nat j / 256) as Hs.
  { rewrite Nat2Z.inj_succ, Z.pow_succ_r, (Z.mul_comm 256), Z.div_div by lia. done. }
  rewrite Hs in *. set (q := v / 256 ^ Z.of_nat j) in *.
  assert (((q / 256) mod 256 =? 0) && bool_decide (q mod 256 < 128)
    || ((q / 256) mod 256 =? 255) && negb (bool_decide (q mod 256 < 128)) = false) as ->; [|done].
  case_bool_decide; cbn; lia.
Qed.

(** ** [CBS_get_asn1_uint64] *)

Lemma asn1_uint64_loop_eq d : ∀ out, bytes_ok d → is_u64 out →
  asn1_uint64_loop out d =
    (let v := out * 256 ^ zlen d + be_val d in if decide (v < 2 ^ 64) then Some v else None).
Proof.
  induction d as [|b d IH]; intros out Hok Hout; cbn [asn1_uint64_loop].
  - change (zlen []) with 0. change (be_val []) with 0. cbn [Z.pow]. rewrite Z.add_0_r, Z.mul_1_r.
    by rewrite decide_True by word_lia.
  - apply bytes_ok_cons in Hok as [Hb Hok]. pose proof (be_val_bound d Hok). pose proof (zlen_nonneg d).
    rewrite be_val_cons, zlen_cons, Z.pow_add_r, Z.pow_1_r by lia. rewrite shiftr_div by lia.
    change (2 ^ 56) with 72057594037927936.
    destruct (Z.eqb_spec (out / 72057594037927936) 0); cbn [negb].
    + rewrite wrap_small by (rewrite Z.shiftl_mul_pow2 by lia; change (2 ^ 8) with 256; word_lia).
      rewrite lor_shiftl_add by (done || lia). change (2 ^ 8) with 256.
      rewrite IH by (done || word_lia). cbn zeta.
      replace ((out * 256 + b) * 256 ^ zlen d + be_val d) with
        (out * (256 * 256 ^ zlen d) + (b * 256 ^ zlen d + be_val d)) by ring. done.
    + cbn zeta. rewrite decide_False; [done|]. change (2 ^ 64) with 18446744073709551616.
      assert (72057594037927936 ≤ out) by word_lia. word_bounds. nia.
Qed.

(** C40: [CBS_get_asn1_uint64] returns [v] exactly on the DER encodings of the integers
    0 to 2^64-1, in minimal two's complement form. *)
Theorem CBS_get_asn1_uint64_exact c v rest : bytes_ok c →
  CBS_get_asn1_uint64 c = (Some v, rest) ↔
  is_u64 v ∧ c = der CBS_ASN1_INTEGER (int_octets v) ++ rest.
Proof.
  intros Hok. split.
  - intros H. unfold CBS_get_asn1_uint64 in H. st_inv H.
    apply get_asn1_sound in E as (_ & _ & ->); [|done].
    unfold der in Hok. rewrite <- app_assoc, !bytes_ok_app in Hok. destruct Hok as (_ & Hd & _).
    unfold CBS_is_unsigned_asn1_integer in E0.
    destruct (CBS_is_valid_asn1_integer a) as [neg|] eqn:Ev; [|done].
    apply valid_integer_sound in Ev as [Ha Hneg]; [|done]. subst neg.
    apply negb_true_iff, bool_decide_eq_false_1 in E0.
    rewrite asn1_uint64_loop_eq in H by (done || word_lia). cbn zeta in H.
    rewrite Z.mul_0_l, Z.add_0_l in H. case_decide as Hv; [|done]. apply ret_inv in H as [<- ->].
    pose proof (be_val_bound a Hd) as Hb. unfold is_uint. split; [lia|].
    assert (int_val a = be_val a) as Hi; [|by rewrite <- Hi, <- Ha].
    unfold int_val in *. case_decide; lia.
  - intros [Hv ->]. unfold CBS_get_asn1_uint64.
    assert (zlen (int_octets v) < 2 ^ 32).
    { rewrite zlen_int_octets. pose proof (int_octets_range v) as (_ & _ & Hl).
      pose proof (ndigits_le 8 (2 * int_magnitude v) 9 ltac:(lia)) as Hle. unfold int_magnitude in *.
      case_decide; [word_lia|]. assert (2 * v < 2 ^ (8 * Z.of_nat 9)) by (change (2 ^ (8 * Z.of_nat 9)) with 4722366482869645213696; word_lia).
      word_lia. }
    erewrite bind_some by (apply get_asn1_complete; done).
    unfold CBS_is_unsigned_asn1_integer. rewrite valid_integer_complete, bool_decide_eq_false_2 by word_lia.
    erewrite bind_some by done. pose proof (int_val_octets v) as Hi. unfold int_val in Hi.
    rewrite asn1_uint64_loop_eq by (apply bytes_ok_int_octets || word_lia). cbn zeta.
    rewrite Z.mul_0_l, Z.add_0_l. pose proof (be_val_bound _ (bytes_ok_int_octets v)).
    case_decide; [word_lia; exfalso; lia|]. rewrite Z.sub_0_r in Hi. rewrite Hi.
    by rewrite decide_True by word_lia.
Qed.

(** ** [CBS_get_asn1_int64] *)

Lemma int64_bytes_eq neg d : (length d ≤ 8)%nat →
  int64_bytes neg d = rev d ++ replicate (8 - length d) (if neg : bool then 0xff else 0).
Proof.
  intros Hd. unfold int64_bytes. set (f := if neg then 0xff else 0).
  cut (∀ n, (n ≤ length d)%nat →
    foldl (λ u i, <[i := nth (length d - i - 1) d 0]> u) (replicate 8 f) (seq 0 n) =
    take n (rev d) ++ replicate (8 - n) f).
  { intros H. rewrite H by lia. f_equal. apply take_ge. by rewrite length_rev. }
  induction n as [|n IH]; intros Hn; [done|].
  rewrite seq_S, foldl_snoc, IH by lia. cbn [Nat.add].
  assert (length (take n (rev d)) = n) as Ht by (rewrite length_take, length_rev; lia).
  rewrite insert_app_r_alt, Ht, Nat.sub_diag by (rewrite Ht; lia).
  replace (8 - n)%nat with (S (8 - S n)) by lia. cbn [replicate].
  assert (rev d !! n = Some (nth (length d - n - 1) d 0)) as Hnth.
  { destruct (nth_lookup_or_length (rev d) n 0) as [Hl|Hl]; [|rewrite length_rev in Hl; lia].
    rewrite Hl, rev_nth by lia. do 2 f_equal. lia. }
  by rewrite (take_S_r _ _ _ Hnth), <- app_assoc.
Qed.

Lemma le_val_replicate_ff m : le_val (replicate m 0xff) = 256 ^ Z.of_nat m - 1.
Proof.
  induction m as [|m IH]; [done|]. cbn [replicate le_val].
  rewrite IH, Nat2Z.inj_succ, Z.pow_succ_r by lia. lia.
Qed.
Lemma le_val_replicate_0 m : le_val (replicate m 0) = 0.
Proof. induction m as [|m IH]; [done|]. cbn [replicate le_val]. lia. Qed.

Lemma int64_value d : bytes_ok d → 1 ≤ zlen d ≤ 8 →
  s64 (le_val (int64_bytes (bool_decide (int_val d < 0)) d)) = int_val d.
Proof.
  intros Hok Hl. rewrite int64_bytes_eq by (unfold zlen in Hl; lia).
  rewrite le_val_app, le_val_rev, rev_involutive.
  replace (zlen (rev d)) with (zlen d) by (unfold zlen; by rewrite length_rev).
  assert (256 ^ zlen d * 256 ^ Z.of_nat (8 - length d) = 2 ^ 64) as Hp.
  { rewrite <- Z.pow_add_r by (unfold zlen in *; lia).
    replace (zlen d + Z.of_nat (8 - length d)) with 8 by (unfold zlen in *; lia). done. }
  pose proof (be_val_bound d Hok) as Hb.
  assert (256 ^ zlen d ≤ 2 ^ 64) as Hmax.
  { change (2 ^ 64) with (256 ^ 8). apply Z.pow_le_mono_r; lia. }
  assert (hd 0 d * 256 ^ (zlen d - 1) ≤ be_val d < (hd 0 d + 1) * 256 ^ (zlen d - 1)) as Hhd.
  { destruct d as [|b d]; [rewrite zlen_nil in Hl; lia|]. rewrite be_val_cons, zlen_cons. cbn [hd].
    replace (1 + zlen d - 1) with (zlen d) by lia. apply bytes_ok_cons in Hok as [_ Hok].
    pose proof (be_val_bound d Hok). lia. }
  assert (256 ^ zlen d = 256 * 256 ^ (zlen d - 1)) as Hs.
  { rewrite <- Z.pow_succ_r by lia. f_equal. lia. }
  unfold swrap, wrap. change (2 ^ (64 - 1)) with (2 ^ 63).
  change (2 ^ 63) with 9223372036854775808. change (2 ^ 64) with 18446744073709551616 in *.
  unfold int_val in *. set (p := 256 ^ (zlen d - 1)) in *. assert (0 < p) by (apply Z.pow_pos_nonneg; lia).
  destruct (decide (128 ≤ hd 0 d)) as [Hneg|Hneg]; case_bool_decide as Hv; try lia.
  - rewrite le_val_replicate_ff.
    replace (be_val d + 256 ^ zlen d * (256 ^ Z.of_nat (8 - length d) - 1))
      with (be_val d - 256 ^ zlen d + 18446744073709551616) by lia.
    rewrite Z.mod_small by lia. destruct (Z.ltb_spec (be_val d - 256 ^ zlen d + 18446744073709551616) 9223372036854775808); nia.
  - rewrite le_val_replicate_0, Z.mul_0_r, Z.add_0_r, Z.mod_small by lia.
    destruct (Z.ltb_spec (be_val d) 9223372036854775808); nia.
Qed.

(** C5: [CBS_get_asn1_int64] returns [v] exactly on the minimal two's complement
    encodings of the integers -2^63 to 2^63-1. *)
Theorem CBS_get_asn1_int64_exact c v rest : bytes_ok c →
  CBS_get_asn1_int64 c = (Some v, rest) ↔
  - 2 ^ 63 ≤ v < 2 ^ 63 ∧ c = der CBS_ASN1_INTEGER (int_octets v) ++ rest.
Proof.
  intros Hok. change (2 ^ 63) with 9223372036854775808. split.
  - intros H. unfold CBS_get_asn1_int64 in H. st_inv H.
    apply get_asn1_sound in E as (_ & _ & ->); [|done].
    unfold der in Hok. rewrite <- app_assoc, !bytes_ok_app in Hok. destruct Hok as (_ & Hd & _).
    destruct (CBS_is_valid_asn1_integer a) as [neg|] eqn:Ev; [|done].
    apply valid_integer_sound in Ev as [Ha ->]; [|done].
    destruct (8 <? CBS_len a) eqn:El; [done|]. apply ret_inv in H as [<- ->].
    unfold CBS_len in El. pose proof (int_octets_range (int_val a)) as (Hn & Hr & _).
    assert (zlen a = Z.of_nat (ndigits 8 (2 * int_magnitude (int_val a)))) as Hz
      by (rewrite Ha at 1; apply zlen_int_octets).
    rewrite <- Hz in Hr. rewrite int64_value by (done || lia). split; [|by rewrite <- Ha].
    assert (256 ^ zlen a ≤ 256 ^ 8) by (apply Z.pow_le_mono_r; lia).
    change (256 ^ 8) with 18446744073709551616 in *. lia.
  - intros [Hv ->]. unfold CBS_get_asn1_int64.
    assert ((ndigits 8 (2 * int_magnitude v) ≤ 8)%nat) as Hl.
    { apply ndigits_le; [lia| |lia|]; unfold int_magnitude; [case_decide; lia|].
      change (2 ^ (8 * Z.of_nat 8)) with 18446744073709551616. case_decide; lia. }
    pose proof (int_octets_range v) as (Hn & _). pose proof (zlen_int_octets v) as Hz.
    erewrite bind_some by (apply get_asn1_complete; [done|change (2 ^ 32) with 4294967296; lia]).
    rewrite valid_integer_complete. unfold CBS_len. rewrite (proj2 (Z.ltb_ge 8 _)) by lia.
    pose proof (int64_value (int_octets v) (bytes_ok_int_octets v) ltac:(lia)) as Hi.
    rewrite int_val_octets in Hi. by rewrite Hi.
Qed.

Lemma CBS_get_asn1_uint64_exact_witness : CBS_get_asn1_uint64 [2; 2; 0; 0x80; 5] = (Some 128, [5]).
Proof.
  apply CBS_get_asn1_uint64_exact; [repeat constructor; by vm_compute|split; by vm_compute].
Defined.
Lemma CBS_get_asn1_int64_exact_witness : CBS_get_asn1_int64 [2; 1; 0x80; 5] = (Some (-128), [5]).
Proof.
  apply CBS_get_asn1_int64_exact; [repeat constructor; by vm_compute|split; by vm_compute].
Defined.

(** ** BOOLEAN and optional fields *)

Definition bool_octet (b : bool) : Z := if b then 0xff else 0.

Lemma zlen_1 {A} (l : list A) : zlen l = 1 → ∃ x, l = [x].
Proof. destruct l as [|x [|]]; unfold zlen; cbn; [lia|eauto|lia]. Qed.

(** [CBS_get_asn1_bool] accepts exactly [0x00] and [0xff] as the single contents
    octet of a BOOLEAN. *)
Theorem CBS_get_asn1_bool_exact c b rest : bytes_ok c →
  CBS_get_asn1_bool c = (Some b, rest) ↔ c = der CBS_ASN1_BOOLEAN [bool_octet b] ++ rest.
Proof.
  intros Hok. unfold CBS_get_asn1_bool. split.
  - intros H. st_inv H. apply get_asn1_sound in E as (_ & _ & ->); [|done].
    apply Z.eqb_eq, zlen_1 in E0 as [x ->]. cbn [hd] in *.
    destruct (Z.eqb_spec x 0) as [->|]; [done|]. cbn [orb] in E1. by apply Z.eqb_eq in E1 as ->.
  - intros ->. erewrite bind_some by (apply get_asn1_complete; by vm_compute). by destruct b.
Qed.
Lemma CBS_get_asn1_bool_exact_witness : CBS_get_asn1_bool [1; 1; 0xff; 9] = (Some true, [9]).
Proof. apply CBS_get_asn1_bool_exact; [repeat constructor; by vm_compute|by vm_compute]. Defined.

Lemma peek_asn1_tag_der tag contents rest : is_u32 tag →
  CBS_peek_asn1_tag (der tag contents ++ rest) tag = true.
Proof.
  intros Ht. unfold CBS_peek_asn1_tag, CBS_len. pose proof (zlen_der_tag tag Ht).
  unfold der, der_header. rewrite <- !app_assoc, parse_asn1_tag_complete, Z.eqb_refl by done.
  rewrite zlen_app. pose proof (zlen_nonneg (der_length (zlen contents) ++ contents ++ rest)).
  by rewrite (proj2 (Z.ltb_ge _ 1)) by lia.
Qed.

(** An optional field whose tag does not come next leaves the input alone. *)
Lemma get_optional_absent tag c : CBS_peek_asn1_tag c tag = false →
  CBS_get_optional_asn1 tag c = (Some None, c).
Proof. intros H. unfold CBS_get_optional_asn1, mbind, st_bind, st_get. by rewrite H. Qed.
Lemma get_optional_present tag contents rest : is_u32 tag → zlen contents < 2 ^ 32 →
  CBS_get_optional_asn1 tag (der tag contents ++ rest) = (Some (Some contents), rest).
Proof.
  intros Ht Hl. unfold CBS_get_optional_asn1. erewrite bind_some by done.
  rewrite peek_asn1_tag_der by done. erewrite bind_some by by apply get_asn1_complete. done.
Qed.

(** A missing OPTIONAL/DEFAULT field never fails and consumes nothing: each reader
    returns the default. *)
Theorem CBS_get_optional_asn1_default tag c d db : CBS_peek_asn1_tag c tag = false →
  absent_default (CBS_get_optional_asn1 tag) None c ∧
  absent_default (CBS_get_optional_asn1_octet_string tag) ([], false) c ∧
  absent_default (CBS_get_optional_asn1_uint64 tag d) d c ∧
  absent_default (CBS_get_optional_asn1_bool tag db) db c.
Proof.
  unfold absent_default. intros H. pose proof (get_optional_absent tag c H) as Ho.
  unfold CBS_get_optional_asn1_octet_string, CBS_get_optional_asn1_uint64, CBS_get_optional_asn1_bool.
  by rewrite !(bind_some _ _ _ _ _ Ho).
Qed.
Lemma CBS_get_optional_asn1_default_witness :
  absent_default (CBS_get_optional_asn1 0xa0000000) None [2; 1; 5] ∧
  absent_default (CBS_get_optional_asn1_octet_string 0xa0000000) ([], false) [2; 1; 5] ∧
  absent_default (CBS_get_optional_asn1_uint64 0xa0000000 7) 7 [2; 1; 5] ∧
  absent_default (CBS_get_optional_asn1_bool 0xa0000000 true) true [2; 1; 5].
Proof. apply CBS_get_optional_asn1_default. by vm_compute. Defined.
