(* ===== verification/Cbb.v ===== *)
(** * CBB: the byte-string builder ([crypto/bytestring/cbb.c])

    A tree of [CBB] objects shares one growable buffer.  The model keeps the store:
    the buffer and the [CBB] structs by address.  A child is reached through the
    parent's [child] pointer, so the order in which parents and children are used,
    and the reuse of an address, behave as in C. *)
From stdpp Require Export gmap.
From S2P Require Export Cbs.

(** ** Environment: the allocator

    [OPENSSL_malloc]/[OPENSSL_realloc] can fail, and fresh memory has arbitrary
    contents: [malloc_ok n] says whether a request of [n] bytes succeeds and [junk i]
    is the byte found at offset [i] of a fresh block. *)
Class Allocator := { malloc_ok : Z → bool; junk : nat → Z }.

Definition fresh_bytes `{Allocator} (from n : nat) : bytes := (λ i, u8 (junk i)) <$> seq from n.

(** ** State *)

Abbreviation loc := nat.

(** [struct cbb_buffer_st]; [buf] holds the [cap] bytes of the allocation. *)
Record cbb_buffer := {
  buf : bytes; b_len : Z; cap : Z; can_resize : bool; error : bool
}.
(** [CBB]; [base] tells whether the [base] pointer is non-NULL. *)
Record cbb := {
  base : bool; child : option loc; offset : Z; pending_len_len : Z;
  pending_is_asn1 : bool; is_child : bool
}.
(** The store: the shared buffer ([None] once freed) and the structs. *)
Record store := { buffer : option cbb_buffer; cbbs : gmap loc cbb }.

Abbreviation CBB_M := (st store).

Definition cbb_zero : cbb := Build_cbb false None 0 0 false false.
Definition get_cbb (s : store) (p : loc) : cbb := default cbb_zero (cbbs s !! p).
Definition set_cbb (p : loc) (c : cbb) (s : store) : store :=
  {| buffer := buffer s; cbbs := <[p := c]> (cbbs s) |}.
Definition set_buffer (b : cbb_buffer) (s : store) : store :=
  {| buffer := Some b; cbbs := cbbs s |}.

(** [base->error = 1; return 0;] *)
Definition cbb_error {A} : CBB_M A := λ s,
  (None, match buffer s with
         | Some b => set_buffer (Build_cbb_buffer (buf b) (b_len b) (cap b) (can_resize b) true) s
         | None => s
         end).

Definition write_buf (i : Z) (d : bytes) : CBB_M unit := λ s,
  (Some tt, match buffer s with
            | Some b => set_buffer (Build_cbb_buffer (write_at i d (buf b)) (b_len b) (cap b)
                                      (can_resize b) (error b)) s
            | None => s
            end).
Definition buffer_len (s : store) : Z := match buffer s with Some b => b_len b | None => 0 end.

(** ** Creation and destruction *)

Definition CBB_zero (p : loc) : CBB_M unit := st_modify (set_cbb p cbb_zero).

Section Cbb.
Context `{Allocator}.

(** [sizeof(struct cbb_buffer_st)] on a 64-bit target. *)
Definition sizeof_cbb_buffer_st : Z := 32.

Definition cbb_init (p : loc) (b : bytes) (c : Z) : CBB_M unit :=
  st_assert (malloc_ok sizeof_cbb_buffer_st);;
  st_modify (set_buffer (Build_cbb_buffer b 0 c true false));;
  s ← st_get;
  let q := get_cbb s p in
  st_modify (set_cbb p (Build_cbb true (child q) (offset q) (pending_len_len q) (pending_is_asn1 q) false)).

Definition CBB_init (p : loc) (initial_capacity : Z) : CBB_M unit :=
  CBB_zero p;;
  st_assert (negb ((0 <? initial_capacity) && negb (malloc_ok initial_capacity)));;
  cbb_init p (fresh_bytes 0 (Z.to_nat initial_capacity)) initial_capacity.

(** [buf] is the caller's array. *)
Definition CBB_init_fixed (p : loc) (b : bytes) (len : Z) : CBB_M unit :=
  CBB_zero p;;
  cbb_init p b len;;
  st_modify (λ s, match buffer s with
    | Some b => set_buffer (Build_cbb_buffer (buf b) (b_len b) (cap b) false (error b)) s
    | None => s end).

Definition CBB_cleanup (p : loc) : CBB_M unit := λ s,
  let q := get_cbb s p in
  if is_child q then (Some tt, s)
  else (Some tt, set_cbb p (Build_cbb false (child q) (offset q) (pending_len_len q) (pending_is_asn1 q) (is_child q))
                   {| buffer := if base q then None else buffer s; cbbs := cbbs s |}).

(** ** The buffer *)

(** Returns the offset at which the reserved space starts ([*out]). *)
Definition cbb_buffer_reserve (len : Z) : CBB_M Z := λ s,
  match buffer s with
  | None => (None, s)
  | Some b =>
      let newlen := u64 (b_len b + len) in
      if newlen <? b_len b then cbb_error s
      else if cap b <? newlen then
        let newcap := u64 (cap b * 2) in
        if negb (can_resize b) then cbb_error s
        else
          let newcap := if (newcap <? cap b) || (newcap <? newlen) then newlen else newcap in
          if malloc_ok newcap then
            let newbuf := buf b ++ fresh_bytes (length (buf b)) (Z.to_nat newcap - length (buf b)) in
            (Some (b_len b), set_buffer (Build_cbb_buffer newbuf (b_len b) newcap (can_resize b) (error b)) s)
          else cbb_error s
      else (Some (b_len b), s)
  end.

Definition cbb_buffer_add (len : Z) : CBB_M Z :=
  out ← cbb_buffer_reserve len;
  st_modify (λ s, match buffer s with
    | Some b => set_buffer (Build_cbb_buffer (buf b) (u64 (b_len b + len)) (cap b) (can_resize b) (error b)) s
    | None => s end);;
  mret out.

(** The loop [for (i = len_len - 1; i < len_len; i--) { buf[i] = v; v >>= 8; }]:
    [n] bytes remain, the next index written is [n - 1]. *)
Fixpoint add_u_loop (n : nat) (out v : Z) : CBB_M Z :=
  match n with
  | O => mret v
  | S i => write_buf (out + Z.of_nat i) [u8 v];; add_u_loop i out (v >>> 8)
  end.

Definition cbb_buffer_add_u (v len_len : Z) : CBB_M unit :=
  if len_len =? 0 then mret tt
  else
    out ← cbb_buffer_add len_len;
    v ← add_u_loop (Z.to_nat len_len) out v;
    if negb (v =? 0) then cbb_error else mret tt.

(** ** Flushing

    [CBB_flush] recurses into the child first.  The recursion follows the [child]
    pointers; [fuel] bounds its depth. *)

(** The DER length form: [(len_len, initial_length_byte, len)]. *)
Definition length_octets (len : Z) : Z * Z * Z :=
  if 0xffffff <? len then (5, 0x80 .| 4, len)
  else if 0xffff <? len then (4, 0x80 .| 3, len)
  else if 0xff <? len then (3, 0x80 .| 2, len)
  else if 0x7f <? len then (2, 0x80 .| 1, len)
  else (1, u8 len, 0).

(** The part of [CBB_flush] after [child_start] and the recursive call: the child
    [q] at address [c] of the object at [p] gets its length written. *)
Definition flush_child (p c : loc) : CBB_M unit := λ s,
  let q := get_cbb s c in
  let child_start := u64 (offset q + pending_len_len q) in
  if (child_start <? offset q) || (buffer_len s <? child_start) then cbb_error s
  else
    let len := buffer_len s - child_start in
    (r ← (if pending_is_asn1 q then
            if 0xfffffffe <? len then cbb_error
            else
              let '(len_len, initial_length_byte, len') := length_octets len in
              (if negb (len_len =? 1) then
                 let extra_bytes := len_len - 1 in
                 o ← cbb_buffer_add extra_bytes;
                 s ← st_get;
                 write_buf (child_start + extra_bytes)
                   (read_at child_start len' match buffer s with Some b => buf b | None => [] end)
               else mret tt);;
              write_buf (offset q) [initial_length_byte];;
              mret (offset q + 1, len_len - 1, len')
          else mret (offset q, pending_len_len q, len));
     let '(off, pll, len) := r in
     st_modify (set_cbb c (Build_cbb (base q) (child q) off pll (pending_is_asn1 q) (is_child q)));;
     len ← add_u_loop (Z.to_nat pll) off len;
     if negb (len =? 0) then cbb_error
     else
       st_modify (λ s,
         let q := get_cbb s c in
         set_cbb c (Build_cbb false (child q) (offset q) (pending_len_len q) (pending_is_asn1 q) (is_child q)) s);;
       st_modify (λ s,
         let q := get_cbb s p in
         set_cbb p (Build_cbb (base q) None (offset q) (pending_len_len q) (pending_is_asn1 q) (is_child q)) s)) s.

Fixpoint flush_fuel (fuel : nat) (p : loc) : CBB_M unit := λ s,
  match fuel with
  | O => (None, s)
  | S fuel =>
      let q := get_cbb s p in
      match buffer s with
      | None => (None, s)
      | Some b =>
          if negb (base q) || error b then (None, s)
          else match child q with
               | None => (Some tt, s)
               | Some c =>
                   if pending_len_len (get_cbb s c) =? 0 then (Some tt, s)
                   else match flush_fuel fuel c s with
                        | (None, s) => cbb_error s
                        | (Some _, s) => flush_child p c s
                        end
               end
      end
  end.
Definition CBB_flush (p : loc) : CBB_M unit := λ s, flush_fuel (S (size (cbbs s))) p s.

(** ** Finishing and inspecting *)

(** [data_null]/[len_null] tell which out-pointers are NULL; the result is the buffer
    handed over and its length. *)
Definition CBB_finish (p : loc) (data_null len_null : bool) : CBB_M (bytes * Z) :=
  s ← st_get;
  st_assert (negb (is_child (get_cbb s p)));;
  CBB_flush p;;
  s ← st_get;
  match buffer s with
  | None => st_fail
  | Some b =>
      st_assert (negb (can_resize b && (data_null || len_null)));;
      CBB_cleanup p;;
      mret (buf b, b_len b)
  end.

Definition CBB_data (s : store) (p : loc) : bytes :=
  let q := get_cbb s p in
  match buffer s with Some b => drop (Z.to_nat (offset q + pending_len_len q)) (buf b) | None => [] end.
Definition CBB_len (s : store) (p : loc) : Z :=
  let q := get_cbb s p in u64 (buffer_len s - offset q - pending_len_len q).

(** ** Adding children *)

(** [memset(out_contents, 0, sizeof(CBB))] and the link from the parent. *)
Definition link_child (p out_contents : loc) (off pll : Z) (is_asn1 : bool) : CBB_M unit :=
  st_modify (set_cbb out_contents (Build_cbb true None off pll is_asn1 true));;
  st_modify (λ s, let q := get_cbb s p in
    set_cbb p (Build_cbb (base q) (Some out_contents) (offset q) (pending_len_len q) (pending_is_asn1 q) (is_child q)) s).

Definition cbb_add_length_prefixed (p out_contents : loc) (len_len : Z) : CBB_M unit :=
  CBB_flush p;;
  s ← st_get;
  let off := buffer_len s in
  prefix_bytes ← cbb_buffer_add len_len;
  write_buf prefix_bytes (replicate (Z.to_nat len_len) 0);;
  link_child p out_contents off len_len false.
Definition CBB_add_u8_length_prefixed (p out_contents : loc) := cbb_add_length_prefixed p out_contents 1.
Definition CBB_add_u16_length_prefixed (p out_contents : loc) := cbb_add_length_prefixed p out_contents 2.
Definition CBB_add_u24_length_prefixed (p out_contents : loc) := cbb_add_length_prefixed p out_contents 3.

(** ** Adding bytes and integers *)

Definition CBB_add_u8 (p : loc) (value : Z) : CBB_M unit := CBB_flush p;; cbb_buffer_add_u value 1.
Definition CBB_add_u16 (p : loc) (value : Z) : CBB_M unit := CBB_flush p;; cbb_buffer_add_u value 2.
Definition CBB_add_u16le (p : loc) (value : Z) : CBB_M unit := CBB_add_u16 p (CRYPTO_bswap2 value).
Definition CBB_add_u24 (p : loc) (value : Z) : CBB_M unit := CBB_flush p;; cbb_buffer_add_u value 3.
Definition CBB_add_u32 (p : loc) (value : Z) : CBB_M unit := CBB_flush p;; cbb_buffer_add_u value 4.
Definition CBB_add_u32le (p : loc) (value : Z) : CBB_M unit := CBB_add_u32 p (CRYPTO_bswap4 value).
Definition CBB_add_u64 (p : loc) (value : Z) : CBB_M unit := CBB_flush p;; cbb_buffer_add_u value 8.
Definition CBB_add_u64le (p : loc) (value : Z) : CBB_M unit := CBB_add_u64 p (CRYPTO_bswap8 value).

Definition CBB_add_bytes (p : loc) (data : bytes) : CBB_M unit :=
  CBB_flush p;;
  dest ← cbb_buffer_add (zlen data);
  write_buf dest data.
Definition CBB_add_space (p : loc) (len : Z) : CBB_M Z := CBB_flush p;; cbb_buffer_add len.
Definition CBB_add_zeros (p : loc) (len : Z) : CBB_M unit :=
  out ← CBB_add_space p len;
  write_buf out (replicate (Z.to_nat len) 0).
Definition CBB_reserve (p : loc) (len : Z) : CBB_M Z := CBB_flush p;; cbb_buffer_reserve len.
Definition CBB_did_write (p : loc) (len : Z) : CBB_M unit := λ s,
  match buffer s with
  | None => (None, s)
  | Some b =>
      let newlen := u64 (b_len b + len) in
      if bool_decide (is_Some (child (get_cbb s p))) || (newlen <? b_len b) || (cap b <? newlen)
      then (None, s)
      else (Some tt, set_buffer (Build_cbb_buffer (buf b) newlen (cap b) (can_resize b) (error b)) s)
  end.

Definition CBB_discard_child (p : loc) : CBB_M unit := λ s,
  let q := get_cbb s p in
  match child q, buffer s with
  | Some c, Some b =>
      let qc := get_cbb s c in
      let s := set_buffer (Build_cbb_buffer (buf b) (offset qc) (cap b) (can_resize b) (error b)) s in
      let s := set_cbb c (Build_cbb false (child qc) (offset qc) (pending_len_len qc) (pending_is_asn1 qc) (is_child qc)) s in
      (Some tt, set_cbb p (Build_cbb (base q) None (offset q) (pending_len_len q) (pending_is_asn1 q) (is_child q)) s)
  | _, _ => (Some tt, s)
  end.

(** ** ASN.1 *)

(** [while (copy > 0) { len_len++; copy >>= 7; }]: ten rounds empty a [uint64_t]. *)
Fixpoint base128_count (fuel : nat) (copy : Z) : nat :=
  match fuel with
  | O => 0
  | S fuel => if 0 <? copy then S (base128_count fuel (copy >>> 7)) else 0
  end.
Fixpoint add_base128_loop (p : loc) (n : nat) (v : Z) : CBB_M unit :=
  match n with
  | O => mret tt
  | S i =>
      let byte := (v >>> (7 * Z.of_nat i)) .& 0x7f in
      let byte := if bool_decide (i = 0%nat) then byte else byte .| 0x80 in
      CBB_add_u8 p byte;; add_base128_loop p i v
  end.
Definition add_base128_integer (p : loc) (v : Z) : CBB_M unit :=
  let len_len := base128_count 10 v in
  let len_len := if bool_decide (len_len = 0%nat) then 1%nat else len_len in
  add_base128_loop p len_len v.

Definition CBB_add_asn1 (p out_contents : loc) (tag : Z) : CBB_M unit :=
  CBB_flush p;;
  let tag_bits := u8 ((tag >>> CBS_ASN1_TAG_SHIFT) .& 0xe0) in
  let tag_number := tag .& CBS_ASN1_TAG_NUMBER_MASK in
  (if 0x1f <=? tag_number then
     CBB_add_u8 p (tag_bits .| 0x1f);; add_base128_integer p tag_number
   else CBB_add_u8 p (u8 (tag_bits .| tag_number)));;
  s ← st_get;
  let off := buffer_len s in
  CBB_add_u8 p 0;;
  link_child p out_contents off 1 true.

(** The address of a local [CBB child]: one that no struct of the store uses. *)
Definition local_cbb (s : store) : loc := map_fold (λ k _ m, max (S k) m) 0%nat (cbbs s).

Fixpoint add_uint64_loop (child : loc) (value : Z) (idx : list nat) (started : bool) : CBB_M bool :=
  match idx with
  | [] => mret started
  | i :: idx =>
      let byte := (value >>> (8 * (7 - Z.of_nat i))) .& 0xff in
      if negb started then
        if byte =? 0 then add_uint64_loop child value idx started
        else
          (if negb (byte .& 0x80 =? 0) then CBB_add_u8 child 0 else mret tt);;
          CBB_add_u8 child byte;;
          add_uint64_loop child value idx true
      else CBB_add_u8 child byte;; add_uint64_loop child value idx started
  end.
Definition CBB_add_asn1_uint64 (p : loc) (value : Z) : CBB_M unit :=
  s ← st_get;
  let child := local_cbb s in
  CBB_add_asn1 p child CBS_ASN1_INTEGER;;
  started ← add_uint64_loop child value (seq 0 8) false;
  (if negb started then CBB_add_u8 child 0 else mret tt);;
  CBB_flush p.

(** [while (start > 0 && u.bytes[start] == 0xff && (u.bytes[start-1] & 0x80)) start--;] *)
Fixpoint int64_start (u : bytes) (start : nat) : nat :=
  match start with
  | O => O
  | S start' =>
      if (nth start u 0 =? 0xff) && negb (nth start' u 0 .& 0x80 =? 0)
      then int64_start u start' else start
  end.
Fixpoint add_int64_loop (child : loc) (u : bytes) (n : nat) : CBB_M unit :=
  match n with
  | O => mret tt
  | S i => CBB_add_u8 child (nth i u 0);; add_int64_loop child u i
  end.
Definition CBB_add_asn1_int64 (p : loc) (value : Z) : CBB_M unit :=
  if 0 <=? value then CBB_add_asn1_uint64 p value
  else
    let u := le_bytes 8 value in
    let start := int64_start u 7 in
    s ← st_get;
    let child := local_cbb s in
    CBB_add_asn1 p child CBS_ASN1_INTEGER;;
    add_int64_loop child u (S start);;
    CBB_flush p.

Definition CBB_add_asn1_octet_string (p : loc) (data : bytes) : CBB_M unit :=
  s ← st_get;
  let child := local_cbb s in
  CBB_add_asn1 p child CBS_ASN1_OCTETSTRING;;
  CBB_add_bytes child data;;
  CBB_flush p.
Definition CBB_add_asn1_bool (p : loc) (value : Z) : CBB_M unit :=
  s ← st_get;
  let child := local_cbb s in
  CBB_add_asn1 p child CBS_ASN1_BOOLEAN;;
  CBB_add_u8 child (if negb (value =? 0) then 0xff else 0);;
  CBB_flush p.

End Cbb.
