(* ===== verification/Builder.v ===== *)
(** * The builder's contract, and [Cbb] as a refinement of it

    The contract is a stack of open elements: each frame has the kind of its length
    prefix and the contents written so far; using an object first closes everything
    opened below it.  [Cbb] keeps that stack as linked structs over one flat buffer
    in which the length prefixes are placeholders that are patched, and for DER
    widened, when a child is flushed. *)
From S2P Require Export Asn1 Cbb.

(** ** The contract *)

Inductive kind := KLen (n : nat) | KAsn1.
Definition pll (k : kind) : nat := match k with KLen n => n | KAsn1 => 1 end.
Definition is_asn1 (k : kind) : bool := match k with KLen _ => false | KAsn1 => true end.
Definition kind_ok (k : kind) : Prop := match k with KLen n => (1 ≤ n ≤ 3)%nat | KAsn1 => True end.

(** The finished form of an element; [None] when the length does not fit. *)
Definition encode (k : kind) (c : bytes) : option bytes :=
  match k with
  | KLen n => if decide (zlen c < 256 ^ Z.of_nat n) then Some (be_bytes n (zlen c) ++ c) else None
  | KAsn1 => if decide (zlen c ≤ 0xfffffffe) then Some (der_length (zlen c) ++ c) else None
  end.

Abbreviation frames := (list (kind * bytes)).
(** [c] followed by the open child [fs], finished. *)
Fixpoint close (c : bytes) (fs : frames) : option bytes :=
  match fs with
  | [] => Some c
  | (k, c') :: fs => e ← close c' fs; e ← encode k e; Some (c ++ e)
  end.

(** Apply [g] to the frame at depth [d] and what is open below it. *)
Fixpoint at_depth (g : bytes → frames → option (bytes * frames)) (d : nat) (c : bytes) (fs : frames) :
    option (bytes * frames) :=
  match d, fs with
  | O, _ => g c fs
  | S d, (k, c') :: fs => r ← at_depth g d c' fs; Some (c, (k, r.1) :: r.2)
  | S _, [] => None
  end.

Inductive cmd :=
  | AddBytes (d : nat) (bs : bytes)
  | AddAsn1 (d : nat) (tag : Z)
  | AddLen (d : nat) (n : nat)
  | Flush (d : nat)
  | AddOctetString (d : nat) (bs : bytes)
  | AddBool (d : nat) (b : bool)
  | AddUint64 (d : nat) (v : Z)
  | AddInt64 (d : nat) (v : Z)
  | AddU (d n : nat) (v : Z)
  | AddUle (d n : nat) (v : Z).

Definition step_append (bs : bytes) (k : option kind) (c : bytes) (fs : frames) : option (bytes * frames) :=
  e ← close c fs; Some (e ++ bs, match k with Some k => [(k, [])] | None => [] end).
(** A value that does not fit its width is refused. *)
Definition step_append_u (n : nat) (v : Z) (bs : bytes) (c : bytes) (fs : frames) : option (bytes * frames) :=
  if decide (v < 256 ^ Z.of_nat n) then step_append bs None c fs else None.
Definition step (x : cmd) (st : bytes * frames) : option (bytes * frames) :=
  match x with
  | AddBytes d bs => at_depth (step_append bs None) d st.1 st.2
  | AddAsn1 d tag => at_depth (step_append (der_tag tag) (Some KAsn1)) d st.1 st.2
  | AddLen d n => at_depth (step_append [] (Some (KLen n))) d st.1 st.2
  | Flush d => at_depth (step_append [] None) d st.1 st.2
  | AddOctetString d bs => at_depth (step_append (der CBS_ASN1_OCTETSTRING bs) None) d st.1 st.2
  | AddBool d b => at_depth (step_append (der CBS_ASN1_BOOLEAN [bool_octet b]) None) d st.1 st.2
  | AddUint64 d v | AddInt64 d v => at_depth (step_append (der CBS_ASN1_INTEGER (int_octets v)) None) d st.1 st.2
  | AddU d n v => at_depth (step_append_u n v (be_bytes n v)) d st.1 st.2
  | AddUle d n v => at_depth (step_append_u n v (le_bytes n v)) d st.1 st.2
  end.
Fixpoint steps (xs : list cmd) (st : bytes * frames) : option (bytes * frames) :=
  match xs with [] => Some st | x :: xs => st ← step x st; steps xs st end.

Definition cmd_ok (x : cmd) : Prop :=
  match x with
  | AddBytes _ bs => bytes_ok bs ∧ zlen bs < 2 ^ 64
  | AddAsn1 _ tag => is_u32 tag
  | AddLen _ n => (1 ≤ n ≤ 3)%nat
  | Flush _ | AddBool _ _ => True
  | AddOctetString _ bs => bytes_ok bs ∧ zlen bs ≤ 0xfffffffe
  | AddUint64 _ v => is_u64 v
  | AddInt64 _ v => - 2 ^ 63 ≤ v < 2 ^ 63
  | AddU _ n v => n ∈ [1; 2; 3; 4; 8]%nat ∧ 0 ≤ v
  | AddUle _ n v => n ∈ [2; 4; 8]%nat ∧ is_uint (8 * Z.of_nat n) v
  end.

(** ** Running commands on the implementation: the object at depth [d] has address [d] *)

Definition exec `{Allocator} (x : cmd) : CBB_M unit :=
  match x with
  | AddBytes d bs => CBB_add_bytes d bs
  | AddAsn1 d tag => CBB_add_asn1 d (S d) tag
  | AddLen d n => cbb_add_length_prefixed d (S d) (Z.of_nat n)
  | Flush d => CBB_flush d
  | AddOctetString d bs => CBB_add_asn1_octet_string d bs
  | AddBool d b => CBB_add_asn1_bool d (if b then 1 else 0)
  | AddUint64 d v => CBB_add_asn1_uint64 d v
  | AddInt64 d v => CBB_add_asn1_int64 d v
  | AddU d n v => match n with
      | 1%nat => CBB_add_u8 d v | 2%nat => CBB_add_u16 d v | 3%nat => CBB_add_u24 d v
      | 4%nat => CBB_add_u32 d v | _ => CBB_add_u64 d v end
  | AddUle d n v => match n with
      | 2%nat => CBB_add_u16le d v | 4%nat => CBB_add_u32le d v | _ => CBB_add_u64le d v end
  end.
Fixpoint exec_all `{Allocator} (xs : list cmd) : CBB_M unit :=
  match xs with [] => mret tt | x :: xs => exec x;; exec_all xs end.

(** ** Outcomes

    [runs m s ok post]: [m] either returns with [post], or fails with the buffer's error
    flag set, and it does not fail when [ok] holds. *)

Definition errored (s : store) : Prop := ∃ b, buffer s = Some b ∧ error b = true.
Definition grows (s s' : store) : Prop :=
  ∀ b, buffer s = Some b → ∃ b', buffer s' = Some b' ∧ (cap b' = cap b ∨ can_resize b = true ∧ cap b ≤ cap b') ∧ can_resize b' = can_resize b.
Definition runs {A} (m : CBB_M A) (s : store) (ok : Prop) (post : A → store → Prop) : Prop :=
  match m s with
  | (Some a, s') => grows s s' ∧ post a s'
  | (None, s') => grows s s' ∧ errored s' ∧ ¬ ok
  end.

#[export] Instance grows_preorder : PreOrder grows.
Proof.
  split; [intros s b Hb; eauto with lia|].
  intros s1 s2 s3 H1 H2 b Hb. apply H1 in Hb as (b2 & Hb2 & ? & ?).
  apply H2 in Hb2 as (b3 & ? & ? & ?). exists b3. split_and!; [done| |congruence].
  destruct (can_resize b), (can_resize b2); try done; naive_solver lia.
Qed.

(** The first [b_len] bytes of the buffer are [c], and it is in a consistent state. *)
Definition contents_are (s : store) (c : bytes) : Prop :=
  ∃ b tail, buffer s = Some b ∧ buf b = c ++ tail ∧ b_len b = zlen c ∧
    cap b = zlen (c ++ tail) ∧ cap b < 2 ^ 64 ∧ error b = false.
(** [n] bytes can be held, growing the buffer if need be. *)
Definition room `{Allocator} (s : store) (n : Z) : Prop :=
  ∃ b, buffer s = Some b ∧
    (n ≤ cap b ∨ (can_resize b = true ∧ n < 2 ^ 64 ∧ ∀ m, malloc_ok m = true)).

Section Builder.
Context `{Allocator}.

Lemma room_grows s s' n m : grows s s' → m ≤ n → room s n → room s' m.
Proof.
  intros Hg Hmn (b & Hb & Hr). destruct (Hg b Hb) as (b' & Hb' & ? & Hres).
  exists b'. split; [done|]. destruct Hr as [|(? & ? & ?)]; [left; lia|right].
  rewrite Hres. split_and!; [done|lia|done].
Qed.

Lemma runs_bind {A B} (m : CBB_M A) (f : A → CBB_M B) s (ok1 ok2 : Prop) Q R :
  runs m s ok1 Q → (ok2 → ok1) →
  (∀ a s', grows s s' → Q a s' → runs (f a) s' ok2 R) → runs (m ≫= f) s ok2 R.
Proof.
  unfold runs, mbind, st_bind. intros Hm Hok Hf. destruct (m s) as [[a|] s1].
  - destruct Hm as [Hg HQ]. specialize (Hf a s1 Hg HQ). destruct (f a s1) as [[b|] s2].
    + destruct Hf as [Hg2 HR]. split; [by etrans|done].
    + destruct Hf as (Hg2 & ? & ?). split_and!; [by etrans|done|done].
  - destruct Hm as (? & ? & ?). split_and!; [done|done|tauto].
Qed.
Lemma runs_weaken {A} (m : CBB_M A) s (ok1 ok2 : Prop) (Q R : A → store → Prop) :
  runs m s ok1 Q → (ok2 → ok1) → (∀ a s', grows s s' → Q a s' → R a s') → runs m s ok2 R.
Proof.
  unfold runs. intros Hm Hok Hf. destruct (m s) as [[a|] s1].
  - destruct Hm. auto.
  - destruct Hm as (? & ? & ?). split_and!; [done|done|tauto].
Qed.
Lemma runs_ret {A} (a : A) s ok (Q : A → store → Prop) : Q a s → runs (mret a) s ok Q.
Proof. intros HQ. split; [done|done]. Qed.
Lemma runs_modify f s ok (Q : unit → store → Prop) :
  grows s (f s) → Q tt (f s) → runs (st_modify f) s ok Q.
Proof. intros. split; done. Qed.
Lemma runs_modify_bind {B} f (k : CBB_M B) s ok (Q : B → store → Prop) :
  grows s (f s) → runs k (f s) ok Q → runs (st_modify f;; k) s ok Q.
Proof.
  intros Hg Hk. eapply (runs_bind _ _ _ ok _ (λ _ s', s' = f s)); [by apply runs_modify|done|].
  by intros _ ? _ ->.
Qed.
Lemma runs_eq {A} (m m' : CBB_M A) s ok Q : m s = m' s → runs m' s ok Q → runs m s ok Q.
Proof. unfold runs. by intros ->. Qed.
Lemma runs_get_bind {B} (k : store → CBB_M B) s ok (Q : B → store → Prop) :
  runs (k s) s ok Q → runs (s ← st_get; k s) s ok Q.
Proof. done. Qed.
Lemma runs_error {A} s b ok (Q : A → store → Prop) :
  buffer s = Some b → ¬ ok → runs cbb_error s ok Q.
Proof.
  intros Hb Hn. unfold runs, cbb_error. rewrite Hb. split_and!; [|eexists; done|done].
  intros b' Hb'. rewrite Hb in Hb'. injection Hb' as <-. eexists; split_and!; [done|cbn; lia|done].
Qed.

(** [if (!m || ...) goto err;]: the error flag is set again. *)
Lemma runs_or_error {A B} (m : CBB_M A) (k : CBB_M B) s (ok1 ok2 : Prop) Q R :
  runs m s ok1 Q → (ok2 → ok1) → (∀ a s', grows s s' → Q a s' → runs k s' ok2 R) →
  runs (λ s, match m s with (None, s) => cbb_error s | (Some _, s) => k s end) s ok2 R.
Proof.
  unfold runs at 1 3. intros Hm Hok Hk. destruct (m s) as [[a|] s1].
  - destruct Hm as [Hg HQ]. specialize (Hk a s1 Hg HQ). unfold runs in Hk.
    destruct (k s1) as [[b|] s2]; destruct Hk as [? ?]; (split; [by etrans|done]).
  - destruct Hm as (Hg & (b & Hb & _) & Hn). pose proof (runs_error s1 b ok2 R Hb ltac:(tauto)) as Hr.
    unfold runs in Hr. destruct (cbb_error s1) as [[?|] s2]; destruct Hr as [? ?]; (split; [by etrans|done]).
Qed.

Lemma grows_set_cbb s p q : grows s (set_cbb p q s).
Proof. intros b Hb. exists b. split_and!; [done|lia|done]. Qed.
Lemma get_set_cbb s p q : get_cbb (set_cbb p q s) p = q.
Proof. unfold get_cbb, set_cbb. cbn. by rewrite lookup_insert_eq. Qed.
Lemma get_set_cbb_ne s p p' q : p ≠ p' → get_cbb (set_cbb p q s) p' = get_cbb s p'.
Proof. intros. unfold get_cbb, set_cbb. cbn. by rewrite lookup_insert_ne. Qed.
Lemma contents_set_cbb s p q c : contents_are s c → contents_are (set_cbb p q s) c.
Proof. done. Qed.
Lemma buffer_len_contents s c : contents_are s c → buffer_len s = zlen c.
Proof. intros (b & t & Hb & _ & Hl & _). unfold buffer_len. by rewrite Hb. Qed.
Lemma contents_bound s c : contents_are s c → zlen c < 2 ^ 64.
Proof.
  intros (b & t & _ & _ & _ & Hc & Hb & _). rewrite zlen_app in Hc. pose proof (zlen_nonneg t). lia.
Qed.


Lemma write_buf_spec s a x b d i ok :
  contents_are s (a ++ x ++ b) → length x = length d → i = zlen a →
  runs (write_buf i d) s ok (λ _ s', contents_are s' (a ++ d ++ b) ∧ cbbs s' = cbbs s).
Proof.
  intros (bf & t & Hb & Hbuf & Hl & Hcap & Hlt & He) Hx ->. unfold runs, write_buf. rewrite Hb. split.
  - intros b' Hb'. rewrite Hb in Hb'. injection Hb' as <-. eexists; split_and!; [done|cbn; lia|done].
  - split; [|done]. eexists _, t. split_and!; [done|cbn..].
    + rewrite Hbuf, <- !app_assoc. by apply write_at_app.
    + rewrite Hl. autorewrite with bytesdb. unfold zlen. lia.
    + rewrite Hcap. autorewrite with bytesdb. unfold zlen. lia.
    + done.
    + done.
Qed.

Lemma add_u_loop_spec n : ∀ s a x b v ok, contents_are s (a ++ x ++ b) → length x = n →
  runs (add_u_loop n (zlen a) v) s ok
    (λ r s', r = v / 256 ^ Z.of_nat n ∧ contents_are s' (a ++ be_bytes n v ++ b) ∧ cbbs s' = cbbs s).
Proof.
  induction n as [|n IH]; intros s a x b v ok Hc Hx.
  - apply runs_ret. destruct x; [|done]. by rewrite Z.div_1_r.
  - destruct x as [|y x _] using rev_ind; [done|]. rewrite length_app in Hx. cbn in Hx.
    cbn [add_u_loop]. eapply runs_bind with (ok1 := ok).
    + apply (write_buf_spec s (a ++ x) [y] b [u8 v]).
      * by rewrite <- !app_assoc in *.
      * done.
      * rewrite zlen_app. unfold zlen. lia.
    + tauto.
    + intros _ s1 _ [Hc1 Hs1]. rewrite <- app_assoc in Hc1.
      eapply runs_weaken; [apply (IH s1 a x ([u8 v] ++ b) (v >>> 8) ok Hc1); lia|done|].
      intros r s2 _ (-> & Hc2 & Hs2). rewrite shiftr_div in * by lia. change (2 ^ 8) with 256 in *.
      split_and!; [|rewrite be_bytes_snoc; by rewrite <- app_assoc|congruence].
      rewrite Nat2Z.inj_succ, Z.pow_succ_r, Z.div_div by (try apply Z.pow_pos_nonneg; lia). done.
Qed.

(** ** The buffer operations *)

Lemma length_fresh_bytes from n : length (fresh_bytes from n) = n.
Proof. unfold fresh_bytes. by rewrite length_fmap, length_seq. Qed.

Lemma reserve_spec s c n : contents_are s c → 0 ≤ n < 2 ^ 64 →
  runs (cbb_buffer_reserve n) s (room s (zlen c + n)) (λ o s',
    o = zlen c ∧ cbbs s' = cbbs s ∧
    ∃ b t, buffer s' = Some b ∧ buf b = c ++ t ∧ b_len b = zlen c ∧
      cap b = zlen (c ++ t) ∧ cap b < 2 ^ 64 ∧ error b = false ∧ zlen c + n ≤ cap b).
Proof.
  intros (b & t & Hb & Hbuf & Hl & Hcap & Hlt & He) Hn.
  assert (0 ≤ zlen c ≤ cap b) by (rewrite Hcap, zlen_app; pose proof (zlen_nonneg t); pose proof (zlen_nonneg c); lia).
  assert (room s (zlen c + n) → cap b < zlen c + n →
    can_resize b = true ∧ zlen c + n < 2 ^ 64 ∧ ∀ m, malloc_ok m = true) as Hroom.
  { intros (b' & Hb' & Hr) ?. rewrite Hb in Hb'. injection Hb' as <-. destruct Hr; [lia|done]. }
  match goal with |- runs _ _ ?ok ?q => set (Q := q) end.
  unfold runs, cbb_buffer_reserve. rewrite Hb, Hl. word_bounds.
  destruct (Z.ltb_spec (u64 (zlen c + n)) (zlen c)) as [Hov|Hov].
  { apply (runs_error s b _ Q Hb). intros Hr.
    assert (zlen c + n < 18446744073709551616).
    { destruct (Z.lt_ge_cases (cap b) (zlen c + n)); [by apply Hroom|lia]. }
    rewrite wrap_small in Hov by word_lia. lia. }
  assert (zlen c + n < 2 ^ 64) as Hs.
  { change (2 ^ 64) with 18446744073709551616 in *. unfold wrap in Hov. change (2 ^ 64) with 18446744073709551616 in Hov. lia. }
  rewrite wrap_small by word_lia.
  destruct (Z.ltb_spec (cap b) (zlen c + n)) as [Hgt|Hle].
  2:{ split; [intros b' Hb'; eauto with lia|]. split_and!; [done|done|].
      exists b, t. split_and!; done || lia. }
  destruct (can_resize b) eqn:Hres; cbn [negb].
  2:{ apply (runs_error s b _ Q Hb). intros Hr. by destruct (Hroom Hr Hgt). }
  set (newcap := if _ || _ then _ else _). destruct (malloc_ok newcap) eqn:Hm.
  2:{ apply (runs_error s b _ Q Hb). intros Hr. destruct (Hroom Hr Hgt) as (_ & _ & Hall).
      by rewrite Hall in Hm. }
  assert (zlen c + n ≤ newcap ∧ newcap < 2 ^ 64) as [Hnc1 Hnc2].
  { subst newcap. destruct (_ || _) eqn:E; [lia|]. apply orb_false_iff in E as [_ E].
    pose proof (wrap_is_uint 64 (cap b * 2) ltac:(lia)). unfold is_uint in *. lia. }
  assert (length (buf b) ≤ Z.to_nat newcap)%nat.
  { assert (zlen (buf b) = cap b) by (by rewrite Hbuf). unfold zlen in *. lia. }
  split.
  - intros b' Hb'. rewrite Hb in Hb'. injection Hb' as <-. eexists; split_and!; [done|cbn; right; split; [done|lia]|done].
  - split_and!; [done|done|]. eexists _, (t ++ fresh_bytes (length (buf b)) (Z.to_nat newcap - length (buf b))).
    split_and!; [done|cbn..].
    + by rewrite Hbuf, <- app_assoc.
    + done.
    + rewrite app_assoc, <- Hbuf, zlen_app. unfold zlen. rewrite length_fresh_bytes. lia.
    + done.
    + done.
    + lia.
Qed.

Lemma buffer_add_spec s c n : contents_are s c → 0 ≤ n < 2 ^ 64 →
  runs (cbb_buffer_add n) s (room s (zlen c + n)) (λ o s',
    o = zlen c ∧ cbbs s' = cbbs s ∧ ∃ x, zlen x = n ∧ contents_are s' (c ++ x)).
Proof.
  intros Hc Hn. unfold cbb_buffer_add. eapply runs_bind; [by apply reserve_spec|done|].
  intros o s1 _ (-> & Hs1 & b & t & Hb & Hbuf & Hl & Hcap & Hlt & He & Hfit).
  eapply runs_bind with (ok1 := True) (Q := λ _ s', cbbs s' = cbbs s ∧ ∃ x, zlen x = n ∧ contents_are s' (c ++ x)).
  - apply runs_modify.
    + rewrite Hb. intros b' Hb'. rewrite Hb in Hb'. injection Hb' as <-.
      eexists; split_and!; [done|cbn; lia|done].
    + rewrite Hb. cbn. split; [done|]. pose proof (zlen_nonneg c).
      exists (take (Z.to_nat n) t). rewrite zlen_app in Hcap.
      assert (zlen (take (Z.to_nat n) t) = n) as Hx by (unfold zlen in *; rewrite length_take; lia).
      split; [done|]. eexists _, (drop (Z.to_nat n) t). split_and!; [done|cbn..].
      * by rewrite <- app_assoc, take_drop.
      * rewrite Hl, zlen_app, Hx. apply wrap_small. word_lia.
      * by rewrite <- app_assoc, take_drop, zlen_app.
      * done.
      * done.
  - done.
  - intros _ s2 _ (? & ?). by apply runs_ret.
Qed.

(** [cbb_buffer_add_u]: the value must fit. *)
Lemma buffer_add_u_spec s c v n : contents_are s c → 0 ≤ v → (1 ≤ n ≤ 8)%nat →
  runs (cbb_buffer_add_u v (Z.of_nat n)) s (room s (zlen c + Z.of_nat n) ∧ v < 256 ^ Z.of_nat n)
    (λ _ s', v < 256 ^ Z.of_nat n ∧ contents_are s' (c ++ be_bytes n v) ∧ cbbs s' = cbbs s).
Proof.
  intros Hc Hv Hn. unfold cbb_buffer_add_u. rewrite (proj2 (Z.eqb_neq (Z.of_nat n) 0)) by lia.
  assert (0 < 256 ^ Z.of_nat n) by (apply Z.pow_pos_nonneg; lia).
  eapply runs_bind; [apply buffer_add_spec; [done|lia]|tauto|].
  intros o s1 _ (-> & Hs1 & x & Hx & Hc1). rewrite Nat2Z.id.
  eapply runs_bind with (ok1 := True).
  - apply (add_u_loop_spec n s1 c x [] v); [by rewrite app_nil_r|unfold zlen in Hx; lia].
  - done.
  - intros r s2 _ (-> & Hc2 & Hs2). rewrite app_nil_r in Hc2.
    destruct (Z.eqb_spec (v / 256 ^ Z.of_nat n) 0) as [Hz|Hz]; cbn [negb].
    + apply runs_ret. apply Z.div_small_iff in Hz; [|lia]. split_and!; [lia|done|congruence].
    + destruct Hc2 as (b & t & Hb & _). apply (runs_error s2 b _ _ Hb).
      intros [_ Hlt]. apply Hz, Z.div_small. lia.
Qed.

(** ** Flushing one child *)

Lemma zlen_replicate {A} n (x : A) : zlen (replicate n x) = Z.of_nat n.
Proof. unfold zlen. by rewrite length_replicate. Qed.

Lemma zlen_encode k c e : encode k c = Some e → zlen e = zlen e ∧ Z.of_nat (pll k) + zlen c ≤ zlen e.
Proof.
  destruct k as [n|]; cbn; case_decide as Hl; intros [= <-]; (split; [done|]).
  - rewrite zlen_app, zlen_be_bytes. lia.
  - rewrite zlen_app. pose proof (zlen_der_length (zlen c)). pose proof (zlen_nonneg c). lia.
Qed.

(** The code's choice of length form is [der_length]. *)
Lemma length_octets_spec len : 0 ≤ len ≤ 0xfffffffe →
  (len < 128 ∧ length_octets len = (1, len, 0) ∧ der_length len = [len]) ∨
  (128 ≤ len ∧ ∃ n : nat, (1 ≤ n ≤ 4)%nat ∧ length_octets len = (Z.of_nat n + 1, 128 + Z.of_nat n, len) ∧
    len < 256 ^ Z.of_nat n ∧ der_length len = 128 + Z.of_nat n :: be_bytes n len).
Proof.
  intros Hl. unfold length_octets, der_length.
  assert (∀ n : nat, (1 ≤ n ≤ 4)%nat → 128 ≤ len → 256 ^ (Z.of_nat n - 1) ≤ len ∨ n = 1%nat → len < 256 ^ Z.of_nat n → ndigits 8 len = n) as Hn.
  { intros n ? ? Hlo Hhi. symmetry. rewrite pow256_pow2 in Hhi by lia.
    apply ndigits_unique; [lia..|]. destruct Hlo as [Hlo|]; [right|by left]. by rewrite pow256_pow2 in Hlo by lia. }
  repeat match goal with |- context [?a <? len] => destruct (Z.ltb_spec a len) end;
    try (right; rewrite decide_False by lia; split; [lia|]).
  - exists 4%nat. rewrite (Hn 4%nat) by (change (256 ^ Z.of_nat 4) with 4294967296; change (256 ^ (Z.of_nat 4 - 1)) with 16777216; lia).
    change (256 ^ Z.of_nat 4) with 4294967296. split_and!; done || lia.
  - exists 3%nat. rewrite (Hn 3%nat) by (change (256 ^ Z.of_nat 3) with 16777216; change (256 ^ (Z.of_nat 3 - 1)) with 65536; lia).
    change (256 ^ Z.of_nat 3) with 16777216. split_and!; done || lia.
  - exists 2%nat. rewrite (Hn 2%nat) by (change (256 ^ Z.of_nat 2) with 65536; change (256 ^ (Z.of_nat 2 - 1)) with 256; lia).
    change (256 ^ Z.of_nat 2) with 65536. split_and!; done || lia.
  - exists 1%nat. rewrite (Hn 1%nat) by (change (256 ^ Z.of_nat 1) with 256; change (256 ^ (Z.of_nat 1 - 1)) with 1; lia).
    change (256 ^ Z.of_nat 1) with 256. split_and!; done || lia.
  - left. rewrite wrap_small by word_lia. rewrite decide_True by lia. split_and!; done || lia.
Qed.

Definition unlinked (s s' : store) (p c : loc) : Prop :=
  get_cbb s' p = (let q := get_cbb s p in
    Build_cbb (base q) None (offset q) (pending_len_len q) (pending_is_asn1 q) (is_child q)) ∧
  base (get_cbb s' c) = false ∧
  (∀ q, q ≠ p → q ≠ c → get_cbb s' q = get_cbb s q) ∧
  dom (cbbs s) ⊆ dom (cbbs s').

(** What remains to be done once the header bytes are in place: the length bytes are
    written and the child is detached. *)
Lemma flush_tail_spec s1 s p c pre q asn n body len x (ok : Prop) :
  c ≠ p → cbbs s1 = cbbs s → (0 ≤ len) → length x = n →
  contents_are s1 (pre ++ x ++ body) → (ok → len < 256 ^ Z.of_nat n) →
  runs (st_modify (set_cbb c (Build_cbb (base q) (child q) (zlen pre) (Z.of_nat n) asn (is_child q)));;
     len ← add_u_loop (Z.to_nat (Z.of_nat n)) (zlen pre) len;
     if negb (len =? 0) then cbb_error
     else
       st_modify (λ s,
         let q := get_cbb s c in
         set_cbb c (Build_cbb false (child q) (offset q) (pending_len_len q) (pending_is_asn1 q) (is_child q)) s);;
       st_modify (λ s,
         let q := get_cbb s p in
         set_cbb p (Build_cbb (base q) None (offset q) (pending_len_len q) (pending_is_asn1 q) (is_child q)) s)) s1 ok
    (λ _ s', len < 256 ^ Z.of_nat n ∧ contents_are s' (pre ++ be_bytes n len ++ body) ∧ unlinked s s' p c).
Proof.
  intros Hcp Hs1 Hlen Hx Hc Hok. assert (0 < 256 ^ Z.of_nat n) by (apply Z.pow_pos_nonneg; lia).
  apply runs_modify_bind; [apply grows_set_cbb|]. set (s2 := set_cbb c _ s1). rewrite Nat2Z.id.
  eapply runs_bind with (ok1 := True); [by apply (add_u_loop_spec n s2 pre x body)|done|].
  intros r s3 _ (-> & Hc3 & Hs3).
  destruct (Z.eqb_spec (len / 256 ^ Z.of_nat n) 0) as [Hz|Hz]; cbn [negb].
  2:{ destruct Hc3 as (b & t & Hb & _). apply (runs_error s3 b _ _ Hb).
      intros Ho. apply Hz, Z.div_small. auto. }
  apply Z.div_small_iff in Hz; [|lia]. assert (len < 256 ^ Z.of_nat n) by lia.
  apply runs_modify_bind; [apply grows_set_cbb|]. apply runs_modify; [apply grows_set_cbb|].
  assert (∀ q, q ≠ c → get_cbb s3 q = get_cbb s q) as Hsame.
  { intros q' ?. transitivity (get_cbb s2 q'); [unfold get_cbb; by rewrite Hs3|].
    unfold s2. rewrite get_set_cbb_ne by done. unfold get_cbb. by rewrite Hs1. }
  split_and!; [done|by do 2 apply contents_set_cbb|].
  split_and!.
  - rewrite get_set_cbb, get_set_cbb_ne by done. by rewrite Hsame.
  - rewrite get_set_cbb_ne by done. by rewrite get_set_cbb.
  - intros q' ? ?. rewrite !get_set_cbb_ne by done. by apply Hsame.
  - unfold set_cbb. cbn. rewrite Hs3. cbn. rewrite Hs1. set_solver.
Qed.

(** The DER case: the contents are moved up to make room for the extra length bytes
    and the first length byte is written. *)
Definition widen (off child_start len_len initial_length_byte len' : Z) : CBB_M (Z * Z * Z) :=
  (if negb (len_len =? 1) then
     let extra_bytes := len_len - 1 in
     o ← cbb_buffer_add extra_bytes;
     s ← st_get;
     write_buf (child_start + extra_bytes)
       (read_at child_start len' match buffer s with Some b => buf b | None => [] end)
   else mret tt);;
  write_buf off [initial_length_byte];;
  mret (off + 1, len_len - 1, len').

Lemma widen_spec s pre body ilb (n : nat) len' : contents_are s (pre ++ [0] ++ body) →
  (n ≤ 4)%nat → (n = 0%nat ∨ len' = zlen body) →
  runs (widen (zlen pre) (zlen pre + 1) (Z.of_nat n + 1) ilb len') s
    (room s (zlen pre + 1 + Z.of_nat n + zlen body))
    (λ r s1, r = (zlen (pre ++ [ilb]), Z.of_nat n, len') ∧ cbbs s1 = cbbs s ∧
      ∃ x, length x = n ∧ contents_are s1 ((pre ++ [ilb]) ++ x ++ body)).
Proof.
  intros Hc Hn Hlen. unfold widen.
  eapply runs_bind with (ok1 := room s (zlen pre + 1 + Z.of_nat n + zlen body))
    (Q := λ _ s1, cbbs s1 = cbbs s ∧ ∃ x, length x = n ∧ contents_are s1 (pre ++ [0] ++ x ++ body)); [|done|].
  - destruct Hlen as [-> | ->].
    { apply runs_ret. split; [done|]. by exists []. }
    destruct (Z.eqb_spec (Z.of_nat n + 1) 1) as [Hz|Hz]; cbn [negb].
    { apply runs_ret. split; [done|]. exists []. split; [cbn; lia|done]. }
    replace (Z.of_nat n + 1 - 1) with (Z.of_nat n) by lia.
    eapply runs_bind; [apply (buffer_add_spec s _ (Z.of_nat n) Hc); word_lia| |].
    { intros Hr. eapply room_grows; [reflexivity| |exact Hr]. autorewrite with bytesdb. lia. }
    intros o s1 _ (_ & Hs1 & x & Hx & Hc1). apply runs_get_bind.
    assert (read_at (zlen pre + 1) (zlen body) match buffer s1 with Some b => buf b | None => [] end = body) as ->.
    { destruct Hc1 as (b & t & -> & -> & _). unfold read_at.
      replace ((pre ++ [0] ++ body) ++ x) with ((pre ++ [0]) ++ body ++ x) by (by rewrite <- !app_assoc).
      replace (zlen pre + 1) with (zlen (pre ++ [0])) by (by rewrite zlen_app).
      by rewrite <- app_assoc, drop_app_zlen, <- app_assoc, take_app_zlen. }
    set (y := take n (body ++ x)). set (z := drop n (body ++ x)).
    assert (length y = n) as Hy by (unfold y; rewrite length_take, length_app; unfold zlen in Hx; lia).
    assert (length z = length body) as Hzl by (unfold z; rewrite length_drop, length_app; unfold zlen in Hx; lia).
    eapply runs_weaken; [apply (write_buf_spec s1 (pre ++ [0] ++ y) z [] body _ True)|done|].
    + assert ((pre ++ [0] ++ y) ++ z ++ [] = (pre ++ [0] ++ body) ++ x) as ->; [|done].
      rewrite app_nil_r, <- !app_assoc. unfold y, z. by rewrite take_drop.
    + done.
    + autorewrite with bytesdb. unfold zlen. lia.
    + intros _ s2 _ [Hc2 Hs2]. split; [congruence|]. exists y. split; [done|].
      by rewrite app_nil_r, <- !app_assoc in Hc2.
  - intros _ s1 _ (Hs1 & x & Hx & Hc1).
    eapply runs_bind with (ok1 := True); [by apply (write_buf_spec s1 pre [0] (x ++ body) [ilb])|done|].
    intros _ s2 _ [Hc2 Hs2]. apply runs_ret. split_and!; [|congruence|].
    + rewrite zlen_app. do 2 f_equal. lia.
    + exists x. split; [done|]. by rewrite <- app_assoc.
Qed.

Lemma flush_child_spec s p c pre k body q :
  c ≠ p → kind_ok k → get_cbb s c = q → base q = true → offset q = zlen pre →
  pending_len_len q = Z.of_nat (pll k) → pending_is_asn1 q = is_asn1 k →
  contents_are s (pre ++ replicate (pll k) 0 ++ body) →
  runs (flush_child p c) s (∃ e, encode k body = Some e ∧ room s (zlen pre + zlen e))
    (λ _ s', ∃ e, encode k body = Some e ∧ contents_are s' (pre ++ e) ∧ unlinked s s' p c).
Proof.
  intros Hcp Hk Hq Hbase Hoff Hpll Hasn Hc. pose proof (contents_bound s _ Hc) as Hbd.
  pose proof (zlen_nonneg pre). pose proof (zlen_nonneg body).
  autorewrite with bytesdb in Hbd. rewrite zlen_replicate in Hbd.
  eapply runs_eq.
  { unfold flush_child. rewrite Hq, Hoff, Hpll, (buffer_len_contents s _ Hc).
    rewrite wrap_small by word_lia. autorewrite with bytesdb. rewrite zlen_replicate.
    rewrite (proj2 (Z.ltb_ge _ (zlen pre))) by lia. rewrite (proj2 (Z.ltb_ge _ (zlen pre + _))) by lia.
    cbn [orb]. replace (zlen pre + (Z.of_nat (pll k) + zlen body) - (zlen pre + Z.of_nat (pll k))) with (zlen body) by lia.
    reflexivity. }
  rewrite Hasn. destruct k as [n|]; cbn [is_asn1 pll] in *.
  - eapply runs_eq; [by apply (bind_some _ _ s (zlen pre, Z.of_nat n, zlen body) s)|].
    eapply runs_weaken; [by apply (flush_tail_spec s s p c pre q false n body (zlen body) (replicate n 0)
      (zlen body < 256 ^ Z.of_nat n)); rewrite ?length_replicate|..].
    + intros (e & He & _). cbn in He. by case_decide.
    + intros _ s' _ (Hlt & Hc' & Hu). exists (be_bytes n (zlen body) ++ body).
      split_and!; [cbn; by rewrite decide_True by done|done|done].
  - destruct (Z.ltb_spec 0xfffffffe (zlen body)) as [Hbig|Hsmall].
    { destruct Hc as (b & t & Hb & _).
      match goal with |- runs _ _ ?ok _ => apply runs_bind with (ok1 := ok) (Q := λ _ _, False) end; [|done|done].
      apply (runs_error s b _ _ Hb).
      intros (e & He & _). cbn in He. case_decide; [lia|done]. }
    assert (encode KAsn1 body = Some (der_length (zlen body) ++ body)) as Henc by (cbn; by rewrite decide_True by lia).
    assert (∃ (n : nat) (ilb len : Z), length_octets (zlen body) = (Z.of_nat n + 1, ilb, len) ∧
      (n ≤ 4)%nat ∧ (n = 0%nat ∨ len = zlen body) ∧ 0 ≤ len < 256 ^ Z.of_nat n ∧
      der_length (zlen body) = ilb :: be_bytes n len) as (n & ilb & len & -> & Hn & Hlen & Hlt & Hd).
    { destruct (length_octets_spec (zlen body)) as [(Hs & -> & Hd)|(Hs & n & Hn & -> & Hlt & Hd)]; [lia|..].
      - exists 0%nat, (zlen body), 0. split_and!; auto with lia.
      - exists n, (128 + Z.of_nat n), (zlen body). split_and!; auto with lia. }
    eapply runs_bind; [by apply (widen_spec s pre body ilb n len)| |].
    { intros (e & He & Hr). rewrite Henc in He. injection He as <-. rewrite Hd in Hr.
      autorewrite with bytesdb in Hr. rewrite zlen_be_bytes in Hr.
      eapply room_grows; [reflexivity| |exact Hr]. lia. }
    intros r s1 _ (-> & Hs1 & x & Hx & Hc1).
    eapply runs_weaken; [apply (flush_tail_spec s1 s p c (pre ++ [ilb]) q true n body len x True); auto with lia|done|].
    intros _ s' _ (_ & Hc' & Hu). exists (der_length (zlen body) ++ body). split_and!; [done| |done].
    by rewrite Hd, <- !app_assoc in *.
Qed.

(** ** The linked structs represent a stack of frames *)

Fixpoint layout (fs : frames) : bytes :=
  match fs with [] => [] | (k, c) :: fs => replicate (pll k) 0 ++ c ++ layout fs end.

(** The object at [p] with contents [c] and the open frames [fs] below it, whose objects
    are at the addresses [ls].  [off] and [pl] locate its length prefix. *)
Fixpoint chain (s : store) (p : loc) (off pl : Z) (asn isch : bool) (c : bytes) (fs : frames) (ls : list loc) : Prop :=
  get_cbb s p = Build_cbb true (head ls) off pl asn isch ∧
  match fs, ls with
  | [], [] => True
  | (k, c') :: fs, l :: ls => kind_ok k ∧ chain s l (off + pl + zlen c) (Z.of_nat (pll k)) (is_asn1 k) true c' fs ls
  | _, _ => False
  end.

Lemma chain_frame s s' p off pl asn isch c fs ls :
  (∀ q, q ∈ p :: ls → get_cbb s' q = get_cbb s q) →
  chain s p off pl asn isch c fs ls → chain s' p off pl asn isch c fs ls.
Proof.
  revert p off pl asn isch c ls. induction fs as [|[k c'] fs IH]; intros p off pl asn isch c ls Hs [Hp Hr].
  - split; [rewrite Hs by set_solver|]; done.
  - destruct ls as [|l ls]; [done|]. destruct Hr as [Hk Hr].
    split; [by rewrite Hs by set_solver|]. split; [done|]. apply IH; [|done]. set_solver.
Qed.

Lemma chain_nodes s p off pl asn isch c fs ls :
  chain s p off pl asn isch c fs ls → ∀ q, q ∈ p :: ls → q ∈ dom (cbbs s).
Proof.
  assert (∀ q, base (get_cbb s q) = true → q ∈ dom (cbbs s)) as Hdom.
  { intros q. unfold get_cbb. destruct (cbbs s !! q) eqn:E; [|done]. intros _. by apply elem_of_dom_2 in E. }
  revert p off pl asn isch c ls. induction fs as [|[k c'] fs IH]; intros p off pl asn isch c ls [Hp Hr] q Hq.
  - destruct ls; [|done]. assert (q = p) as -> by set_solver. apply Hdom. by rewrite Hp.
  - destruct ls as [|l ls]; [done|]. destruct Hr as [Hk Hr]. apply elem_of_cons in Hq as [->|Hq].
    + apply Hdom. by rewrite Hp.
    + by eapply IH.
Qed.

Lemma chain_fuel s p off pl asn isch c fs ls :
  chain s p off pl asn isch c fs ls → NoDup (p :: ls) → (length ls < S (size (cbbs s)))%nat.
Proof.
  intros Hc Hnd. pose proof (chain_nodes _ _ _ _ _ _ _ _ _ Hc) as Hn.
  rewrite <- size_dom. assert (size (list_to_set (p :: ls) : gset loc) ≤ size (dom (cbbs s)))%nat.
  { apply subseteq_size. intros q Hq. apply Hn. by apply elem_of_list_to_set in Hq. }
  rewrite size_list_to_set in H0 by done. cbn in H0. lia.
Qed.

Lemma encode_room_pll k c e : encode k c = Some e → Z.of_nat (pll k) + zlen c ≤ zlen e.
Proof. intros He. by apply zlen_encode in He as [_ ?]. Qed.

Lemma flush_fuel_spec fs : ∀ fuel s p off pl asn isch c ls pre,
  chain s p off pl asn isch c fs ls → NoDup (p :: ls) → (length ls < fuel)%nat →
  contents_are s (pre ++ c ++ layout fs) → zlen pre = off + pl →
  runs (flush_fuel fuel p) s (∃ e, close c fs = Some e ∧ room s (zlen pre + zlen e))
    (λ _ s', ∃ e, close c fs = Some e ∧ contents_are s' (pre ++ e) ∧
       get_cbb s' p = Build_cbb true None off pl asn isch ∧
       (∀ q, q ∉ p :: ls → get_cbb s' q = get_cbb s q) ∧
       (∀ q, q ∈ ls → base (get_cbb s' q) = false)).
Proof.
  induction fs as [|[k c'] fs IH]; intros fuel s p off pl asn isch c ls pre Hch Hnd Hfuel Hc Hpre;
    (destruct fuel as [|fuel]; [lia|]); destruct Hch as [Hp Hr];
    pose proof Hc as (b & t & Hb & _ & _ & _ & _ & He).
  - destruct ls as [|]; [|done]. eapply runs_eq with (m' := mret tt).
    { cbn [flush_fuel]. by rewrite Hb, Hp, He. }
    apply runs_ret. cbn in Hc. rewrite app_nil_r in Hc.
    exists c. split_and!; [done|done|done|done|set_solver].
  - destruct ls as [|l ls]; [done|]. destruct Hr as [Hk Hr]. cbn [length] in Hfuel.
    apply NoDup_cons in Hnd as [Hpl Hnd].
    assert (pending_len_len (get_cbb s l) = Z.of_nat (pll k)) as Hpll.
    { destruct fs, ls; destruct Hr as [-> _]; done. }
    assert (Z.of_nat (pll k) ≠ 0) as Hpos by (destruct k; cbn in *; lia).
    cbn [layout] in Hc.
    assert (contents_are s ((pre ++ c ++ replicate (pll k) 0) ++ c' ++ layout fs)) as Hc1
      by (by rewrite <- !app_assoc in *).
    eapply runs_eq with (m' := λ s, match flush_fuel fuel l s with
      (None, s) => cbb_error s | (Some _, s) => flush_child p l s end).
    { cbn [flush_fuel]. rewrite Hb, Hp, He. cbn [base child negb orb head]. rewrite Hpll.
      by rewrite (proj2 (Z.eqb_neq _ 0)) by done. }
    eapply runs_or_error.
    { eapply (IH fuel s l _ _ _ _ c' ls _ Hr Hnd); [lia|exact Hc1|].
      autorewrite with bytesdb. rewrite zlen_replicate. lia. }
    { cbn [close]. intros (e & He' & Hroom). destruct (close c' fs) as [e1|]; [|done]. cbn in He'.
      destruct (encode k e1) as [e2|] eqn:Henc; [|done]. cbn in He'. injection He' as <-.
      exists e1. split; [done|]. eapply room_grows; [reflexivity| |exact Hroom].
      apply encode_room_pll in Henc. autorewrite with bytesdb. rewrite zlen_replicate. lia. }
    intros _ s1 Hg (e1 & Hcl & Hc2 & Hl1 & Hframe & Hstale). cbn [close]. rewrite Hcl. cbn [mbind option_bind].
    assert (l ≠ p) by set_solver.
    eapply runs_weaken.
    { apply (flush_child_spec s1 p l (pre ++ c) k e1 (get_cbb s1 l)); rewrite ?Hl1; try done.
      - cbn. rewrite zlen_app. lia.
      - by rewrite <- !app_assoc in *. }
    + intros (e & Hee & Hroom). destruct (encode k e1) as [e2|]; [|done]. cbn in Hee. injection Hee as <-.
      exists e2. split; [done|]. eapply room_grows; [exact Hg| |exact Hroom]. autorewrite with bytesdb. lia.
    + intros _ s2 _ (e2 & Henc & Hc3 & Hp' & Hl' & Hq & _). exists (c ++ e2). rewrite Henc.
      split_and!; [done|by rewrite <- app_assoc in Hc3|..].
      * rewrite Hp'. rewrite Hframe by set_solver. by rewrite Hp.
      * intros q Hnot. rewrite Hq by set_solver. apply Hframe. set_solver.
      * intros q Hin. destruct (decide (q = l)) as [->|]; [done|]. rewrite Hq by set_solver. apply Hstale. set_solver.
Qed.

(** ** Operations on an object with no open child *)

(** [p] is live, has no child and the buffer holds [x]. *)
Definition idle (s : store) (p : loc) (x : bytes) : Prop :=
  base (get_cbb s p) = true ∧ child (get_cbb s p) = None ∧ contents_are s x.

Lemma flush_idle s p x : idle s p x → CBB_flush p s = (Some tt, s).
Proof.
  intros (Hb & Hc & b & t & Hbuf & _ & _ & _ & _ & He). unfold CBB_flush. cbn [flush_fuel].
  by rewrite Hbuf, Hb, Hc, He.
Qed.
Lemma idle_cbbs s s' p x y : cbbs s' = cbbs s → contents_are s' y → idle s p x → idle s' p y.
Proof. unfold idle, get_cbb. intros -> ? (? & ? & ?). done. Qed.

Lemma runs_flush_idle {B} s p x (k : CBB_M B) ok Q :
  idle s p x → runs k s ok Q → runs (CBB_flush p;; k) s ok Q.
Proof. intros Hi. apply runs_eq. by rewrite (bind_some _ _ _ _ _ (flush_idle s p x Hi)). Qed.

Lemma add_u8_idle s p x v : idle s p x → 0 ≤ v →
  runs (CBB_add_u8 p v) s (room s (zlen x + 1) ∧ v < 256)
    (λ _ s', v < 256 ∧ idle s' p (x ++ [v]) ∧ cbbs s' = cbbs s).
Proof.
  intros Hi Hv. unfold CBB_add_u8. eapply runs_flush_idle; [done|]. pose proof Hi as (_ & _ & Hc).
  eapply runs_weaken; [apply (buffer_add_u_spec s x v 1 Hc Hv); lia|done|].
  intros _ s' _ (Hlt & Hc' & Hs'). change (256 ^ Z.of_nat 1) with 256 in Hlt. split_and!; [done| |done].
  eapply idle_cbbs; [done| |done]. cbn in Hc'. by rewrite Z.div_1_r, Z.mod_small in Hc' by lia.
Qed.

Lemma add_bytes_idle s p x d : idle s p x → zlen d < 2 ^ 64 →
  runs (dest ← cbb_buffer_add (zlen d); write_buf dest d) s (room s (zlen x + zlen d))
    (λ _ s', idle s' p (x ++ d) ∧ cbbs s' = cbbs s).
Proof.
  intros Hi Hd. pose proof Hi as (_ & _ & Hc). pose proof (zlen_nonneg d).
  eapply runs_bind; [by apply buffer_add_spec|done|]. intros o s1 _ (-> & Hs1 & y & Hy & Hc1).
  eapply runs_weaken; [apply (write_buf_spec s1 x y [] d _ True); rewrite ?app_nil_r; auto|done|].
  - unfold zlen in Hy. lia.
  - intros _ s2 _ [Hc2 Hs2]. rewrite app_nil_r in Hc2. split; [|congruence].
    eapply idle_cbbs; [|done|done]. congruence.
Qed.

Lemma base128_count_eq fuel v : 0 ≤ v < 2 ^ (7 * Z.of_nat fuel) →
  base128_count fuel v = if decide (v = 0) then 0%nat else ndigits 7 v.
Proof.
  revert v. induction fuel as [|n IH]; intros v Hv; cbn [base128_count].
  - cbn in Hv. by rewrite decide_True by lia.
  - destruct (Z.ltb_spec 0 v); [|by rewrite decide_True by lia]. rewrite decide_False by lia.
    rewrite shiftr_div by lia. change (2 ^ 7) with 128. pose proof (Z.div_pos v 128 ltac:(lia) ltac:(lia)).
    rewrite Nat2Z.inj_succ in Hv. replace (7 * Z.succ (Z.of_nat n)) with (7 + 7 * Z.of_nat n) in Hv by lia.
    rewrite Z.pow_add_r in Hv by lia. change (2 ^ 7) with 128 in Hv.
    rewrite IH by (split; [done|]; apply Z.div_lt_upper_bound; lia).
    case_decide as Hz; apply ndigits_unique; try lia.
    + pose proof (ndigits_upper 7 (v / 128) ltac:(lia) ltac:(lia)) as Hu.
      replace (7 * Z.of_nat (S (ndigits 7 (v / 128)))) with (7 + 7 * Z.of_nat (ndigits 7 (v / 128))) by lia.
      rewrite Z.pow_add_r by lia. change (2 ^ 7) with 128. lia.
    + right. pose proof (ndigits_pos 7 (v / 128) ltac:(lia)).
      destruct (ndigits_lower 7 (v / 128) ltac:(lia) ltac:(lia)) as [->|Hl]; [change (2 ^ _) with 128; lia|].
      replace (7 * (Z.of_nat (S (ndigits 7 (v / 128))) - 1)) with (7 + 7 * (Z.of_nat (ndigits 7 (v / 128)) - 1)) by lia.
      rewrite Z.pow_add_r by lia. change (2 ^ 7) with 128. lia.
Qed.

Lemma base128_byte b : 0 ≤ b < 128 → b .| 0x80 = b + 128.
Proof.
  intros Hb. rewrite Z.lor_comm. change 0x80 with (Z.shiftl 1 7).
  rewrite lor_shiftl_add; [change (Z.shiftl 1 7) with 128; change (2 ^ 7) with 128; lia|lia|]. unfold is_uint. change (2 ^ 7) with 128. lia.
Qed.

Lemma add_base128_loop_spec p v n : ∀ s x, 0 ≤ v → idle s p x →
  runs (add_base128_loop p n v) s (room s (zlen x + Z.of_nat n))
    (λ _ s', idle s' p (x ++ b128_bytes n v) ∧ cbbs s' = cbbs s).
Proof.
  induction n as [|i IH]; intros s x Hv Hi.
  - apply runs_ret. by rewrite app_nil_r.
  - cbn [add_base128_loop b128_bytes]. rewrite shiftr_div, land_7f by lia.
    replace (2 ^ (7 * Z.of_nat i)) with (128 ^ Z.of_nat i) by (rewrite pow128_pow2; lia).
    set (b := (v / 128 ^ Z.of_nat i) mod 128). assert (0 ≤ b < 128) by (subst b; lia).
    assert ((if bool_decide (i = 0%nat) then b else b .| 0x80) = b + (if decide (i = 0%nat) then 0 else 128)) as ->.
    { rewrite base128_byte by done. case_bool_decide; case_decide; done || lia. }
    set (y := b + _). assert (0 ≤ y < 256) by (subst y; case_decide; lia).
    eapply runs_bind; [apply (add_u8_idle s p x y Hi); lia| |].
    { intros Hr. split; [|lia]. eapply room_grows; [reflexivity| |exact Hr]. lia. }
    intros _ s1 Hg (_ & Hi1 & Hs1).
    eapply runs_weaken; [apply (IH s1 (x ++ [y]) Hv Hi1)| |].
    + intros Hr. eapply room_grows; [exact Hg| |exact Hr]. autorewrite with bytesdb. lia.
    + intros _ s2 _ [Hi2 Hs2]. split; [by rewrite <- app_assoc in Hi2|congruence].
Qed.

Lemma add_base128_spec p v s x : is_u64 v → idle s p x →
  runs (add_base128_integer p v) s (room s (zlen x + zlen (base128 v)))
    (λ _ s', idle s' p (x ++ base128 v) ∧ cbbs s' = cbbs s).
Proof.
  intros Hv Hi. unfold add_base128_integer. cbv zeta.
  assert ((if bool_decide (base128_count 10 v = 0%nat) then 1%nat else base128_count 10 v) = ndigits 7 v) as ->.
  { rewrite base128_count_eq by (change (2 ^ (7 * Z.of_nat 10)) with 1180591620717411303424; word_lia).
    case_decide as Hz; [by subst|]. pose proof (ndigits_pos 7 v ltac:(lia)).
    case_bool_decide; [lia|done]. }
  eapply runs_weaken; [apply (add_base128_loop_spec p v); [word_lia|done]| |done].
  intros Hr. unfold base128, zlen in Hr. by rewrite length_b128_bytes in Hr.
Qed.

(** ** One command on the object at [p] whose open children are at [p + 1], [p + 2], ... *)

(** No live object at [n] or above. *)
Definition dead (s : store) (n : loc) : Prop := ∀ q, (n ≤ q)%nat → base (get_cbb s q) = false.
Definition same_below (s s' : store) (p : loc) : Prop := ∀ q, (q < p)%nat → get_cbb s' q = get_cbb s q.

Definition focus (s : store) (p : loc) (off pl : Z) (asn isch : bool) (pre c : bytes) (fs : frames) : Prop :=
  chain s p off pl asn isch c fs (seq (S p) (length fs)) ∧ contents_are s (pre ++ c ++ layout fs) ∧
  dead s (S p + length fs) ∧ zlen pre = off + pl.

(** [m] at [p] does what [g] does on the contract's side, for at least [d] open children. *)
Definition op_spec (m : CBB_M unit) (p : loc) (d : nat)
    (g : bytes → frames → option (bytes * frames)) : Prop :=
  ∀ s off pl asn isch pre c fs, focus s p off pl asn isch pre c fs → (d ≤ length fs)%nat →
  runs m s (∃ c' fs', g c fs = Some (c', fs') ∧ room s (zlen pre + zlen (c' ++ layout fs')))
    (λ _ s', ∃ c' fs', g c fs = Some (c', fs') ∧ focus s' p off pl asn isch pre c' fs' ∧ same_below s s' p).

Lemma chain_get s p off pl asn isch c fs ls :
  chain s p off pl asn isch c fs ls → get_cbb s p = Build_cbb true (head ls) off pl asn isch.
Proof. destruct fs, ls; intros [? _]; done. Qed.

(** The view of the first open child, and back. *)
Lemma focus_enter s p off pl asn isch pre c k c1 fs : focus s p off pl asn isch pre c ((k, c1) :: fs) →
  focus s (S p) (off + pl + zlen c) (Z.of_nat (pll k)) (is_asn1 k) true (pre ++ c ++ replicate (pll k) 0) c1 fs.
Proof.
  intros ((Hp & Hk & Hr) & Hc & Hd & Hpre). cbn [length layout] in *.
  split_and!; [done|by rewrite <- !app_assoc in *|by rewrite Nat.add_succ_r in Hd|].
  autorewrite with bytesdb. rewrite zlen_replicate. lia.
Qed.
Lemma focus_leave s s' p off pl asn isch pre c k c1 fs c2 fs2 : focus s p off pl asn isch pre c ((k, c1) :: fs) →
  focus s' (S p) (off + pl + zlen c) (Z.of_nat (pll k)) (is_asn1 k) true (pre ++ c ++ replicate (pll k) 0) c2 fs2 →
  same_below s s' (S p) → focus s' p off pl asn isch pre c ((k, c2) :: fs2) ∧ same_below s s' p.
Proof.
  intros ((Hp & Hk & Hr) & Hc & Hd & Hpre) (Hch & Hc' & Hd' & _) Hsame. split; [|intros q Hq; apply Hsame; lia].
  split_and!; cbn [length seq layout].
  - split; [rewrite Hsame by lia; exact Hp|done].
  - by rewrite <- !app_assoc in *.
  - by rewrite Nat.add_succ_r.
  - done.
Qed.

Lemma op_spec_at_depth m p d g : op_spec m (p + d) 0 g → op_spec m p d (at_depth g d).
Proof.
  revert p. induction d as [|d IH]; intros p Hop.
  - rewrite Nat.add_0_r in Hop. intros s off pl asn isch pre c fs. apply Hop.
  - replace (p + S d)%nat with (S p + d)%nat in Hop by lia. specialize (IH (S p) Hop).
    intros s off pl asn isch pre c [|[k c1] fs] Hf0 Hlen; cbn [length] in *; [lia|]. cbn [at_depth].
    pose proof (focus_enter _ _ _ _ _ _ _ _ _ _ _ Hf0) as Hf.
    eapply runs_weaken; [eapply (IH _ _ _ _ _ _ _ _ Hf); lia| |].
    + intros (c' & fs' & Hg & Hroom). destruct (at_depth g d c1 fs) as [[c2 fs2]|]; [|done].
      injection Hg as <- <-. exists c2, fs2. split; [done|].
      eapply room_grows; [reflexivity| |exact Hroom]. cbn [layout fst snd]. autorewrite with bytesdb.
      rewrite zlen_replicate. lia.
    + intros _ s' Hg (c2 & fs2 & -> & Hf' & Hsame). exists c, ((k, c2) :: fs2). split; [done|].
      by apply (focus_leave s s' p off pl asn isch pre c k c1 fs).
Qed.

Lemma flush_op s p off pl asn isch pre c fs : focus s p off pl asn isch pre c fs →
  runs (CBB_flush p) s (∃ e, close c fs = Some e ∧ room s (zlen pre + zlen e))
    (λ _ s', ∃ e, close c fs = Some e ∧ focus s' p off pl asn isch pre e [] ∧ same_below s s' p).
Proof.
  intros (Hch & Hc & Hd & Hpre).
  assert (NoDup (p :: seq (S p) (length fs))) as Hnd by (apply (NoDup_seq p (S (length fs)))).
  pose proof (chain_fuel _ _ _ _ _ _ _ _ _ Hch Hnd) as Hfuel.
  eapply runs_weaken; [apply (flush_fuel_spec fs _ s p off pl asn isch c _ pre Hch Hnd Hfuel Hc Hpre)|done|].
  intros _ s' _ (e & He & Hc' & Hp & Hframe & Hstale). exists e. split; [done|]. split.
  - split; [by split|]. split; [cbn; by rewrite app_nil_r|]. split; [|done]. cbn. rewrite Nat.add_0_r.
    intros q Hq. destruct (decide (q ∈ seq (S p) (length fs))) as [Hin|Hout]; [by apply Hstale|].
    rewrite Hframe; [|rewrite not_elem_of_cons; split; [lia|done]].
    apply Hd. rewrite elem_of_seq in Hout. lia.
  - intros q Hq. apply Hframe. rewrite not_elem_of_cons, elem_of_seq. lia.
Qed.

Lemma focus_idle s p off pl asn isch pre c : focus s p off pl asn isch pre c [] → idle s p (pre ++ c).
Proof.
  intros ([Hp _] & Hc & _). cbn in Hc. rewrite app_nil_r in Hc. unfold idle. by rewrite Hp.
Qed.

(** The effect of a step on the structs: none, or a new child is linked. *)
Definition link_store (p l : loc) (off : Z) (k : kind) (s : store) : store :=
  let q := get_cbb s p in
  set_cbb p (Build_cbb (base q) (Some l) (offset q) (pending_len_len q) (pending_is_asn1 q) (is_child q))
    (set_cbb l (Build_cbb true None off (Z.of_nat (pll k)) (is_asn1 k) true) s).
Definition link_opt (p : loc) (off : Z) (ko : option kind) (s : store) : store :=
  match ko with Some k => link_store p (S p) off k s | None => s end.
Definition opened (ko : option kind) : frames := match ko with Some k => [(k, [])] | None => [] end.

Lemma runs_link p l off k s ok (Q : unit → store → Prop) : l ≠ p →
  Q tt (link_store p l off k s) → runs (link_child p l off (Z.of_nat (pll k)) (is_asn1 k)) s ok Q.
Proof.
  intros Hl HQ. unfold runs, link_child, mbind, st_bind, st_modify. cbv beta iota zeta.
  rewrite get_set_cbb_ne by done.
  split; [|done]. intros b Hb. exists b. split_and!; [done|lia|done].
Qed.

(** An operation that flushes, appends [bs] and opens at most one child. *)
Lemma op_spec_append m p bs ko : match ko with Some k => kind_ok k | None => True end →
  (∀ s x, idle s p x → runs m s (room s (zlen (x ++ bs ++ layout (opened ko))))
    (λ _ s', contents_are s' (x ++ bs ++ layout (opened ko)) ∧
       cbbs s' = cbbs (link_opt p (zlen (x ++ bs)) ko s))) →
  op_spec (CBB_flush p;; m) p 0 (step_append bs ko).
Proof.
  intros Hk Hm s off pl asn isch pre c fs Hf _.
  eapply runs_bind; [by apply flush_op|..].
  { intros (c' & fs' & Hs & Hr). unfold step_append in Hs. destruct (close c fs) as [e|]; [|done].
    injection Hs as <- <-. exists e. split; [done|]. eapply room_grows; [reflexivity| |exact Hr].
    autorewrite with bytesdb. pose proof (zlen_nonneg bs). pose proof (zlen_nonneg (layout (opened ko))). unfold opened in *. lia. }
  intros _ s1 Hg (e & He & Hf1 & Hsame). eapply runs_weaken; [apply Hm; by eapply focus_idle|..].
  - intros (c' & fs' & Hs & Hr). unfold step_append in Hs. rewrite He in Hs. injection Hs as <- <-.
    eapply room_grows; [exact Hg| |exact Hr]. unfold opened in *. autorewrite with bytesdb. lia.
  - intros _ s2 _ [Hc2 Hs2]. exists (e ++ bs), (opened ko). unfold step_append. rewrite He. split; [done|].
    destruct Hf1 as ([Hp _] & _ & Hd & Hpre). cbn in Hp, Hd. rewrite Nat.add_0_r in Hd.
    assert (∀ q, get_cbb s2 q = get_cbb (link_opt p (zlen ((pre ++ e) ++ bs)) ko s1) q) as Hs
      by (intros q; unfold get_cbb; by rewrite Hs2).
    split.
    + split_and!; [|by rewrite <- !app_assoc in *| |done].
      * destruct ko as [k|]; cbn; [|by rewrite Hs].
        split_and!; [|done| |done]; rewrite Hs; cbn.
        -- unfold link_store. by rewrite get_set_cbb, Hp.
        -- unfold link_store. rewrite get_set_cbb_ne, get_set_cbb by lia. f_equal.
           autorewrite with bytesdb. lia.
      * intros q Hq. rewrite Hs. destruct ko; cbn in *; [|apply Hd; lia].
        unfold link_store. rewrite !get_set_cbb_ne by lia. apply Hd. lia.
    + intros q Hq. rewrite Hs, <- Hsame by done. destruct ko; [|done].
      cbn. unfold link_store. by rewrite !get_set_cbb_ne by lia.
Qed.

(** ** The commands *)

Lemma flush_op_spec p : op_spec (CBB_flush p) p 0 (step_append [] None).
Proof.
  intros s off pl asn isch pre c fs Hf _. eapply runs_weaken; [by apply flush_op|..].
  - intros (c' & fs' & Hs & Hr). unfold step_append in Hs. destruct (close c fs) as [e|]; [|done].
    injection Hs as <- <-. exists e. split; [done|]. by rewrite !app_nil_r in Hr.
  - intros _ s' _ (e & He & Hf' & Hs). exists e, []. unfold step_append. rewrite He. cbn.
    by rewrite app_nil_r.
Qed.

Lemma add_bytes_op_spec p bs : zlen bs < 2 ^ 64 → op_spec (CBB_add_bytes p bs) p 0 (step_append bs None).
Proof.
  intros Hbs. apply op_spec_append; [done|]. intros s x Hi. cbn [opened layout link_opt].
  rewrite app_nil_r. eapply runs_weaken; [by apply add_bytes_idle| |by intros _ s' _ [[_ []] ?]].
  by rewrite zlen_app.
Qed.

Lemma add_u_small p v (n : nat) : 0 ≤ v < 256 ^ Z.of_nat n → (1 ≤ n ≤ 8)%nat →
  op_spec (CBB_flush p;; cbb_buffer_add_u v (Z.of_nat n)) p 0 (step_append (be_bytes n v) None).
Proof.
  intros Hv Hn. apply op_spec_append; [done|]. intros s x Hi. pose proof Hi as (_ & _ & Hc).
  cbn [opened layout link_opt]. rewrite app_nil_r.
  eapply runs_weaken; [apply (buffer_add_u_spec s x v n Hc); lia| |by intros _ s' _ (_ & ? & ?)].
  intros Hr. split; [|lia]. by rewrite zlen_app, zlen_be_bytes in Hr.
Qed.

Lemma add_u_op_spec p v (n : nat) : 0 ≤ v → (1 ≤ n ≤ 8)%nat →
  op_spec (CBB_flush p;; cbb_buffer_add_u v (Z.of_nat n)) p 0 (step_append_u n v (be_bytes n v)).
Proof.
  intros Hv Hn. unfold step_append_u. destruct (decide (v < 256 ^ Z.of_nat n)) as [Hlt|Hge].
  - by apply add_u_small.
  - intros s off pl asn isch pre c fs Hf _. eapply runs_bind with (ok1 := False); [|by intros (? & ? & ? & _)|].
    { eapply runs_weaken; [by apply flush_op|done|]. intros ? s' _ HQ. exact HQ. }
    intros _ s1 _ (e & He & Hf1 & _). apply focus_idle in Hf1 as (_ & _ & Hc).
    eapply runs_weaken; [by apply (buffer_add_u_spec s1 _ v n Hc)|by intros (? & ? & ? & _)|].
    by intros _ s' _ (? & _).
Qed.

Lemma add_ule_op_spec p v (n : nat) bswap : (1 ≤ n ≤ 8)%nat → is_uint (8 * Z.of_nat n) v →
  (∀ l, bytes_ok l → length l = n → bswap (le_val l) = be_val l) →
  op_spec (CBB_flush p;; cbb_buffer_add_u (bswap v) (Z.of_nat n)) p 0 (step_append_u n v (le_bytes n v)).
Proof.
  intros Hn Hv Hb. unfold is_uint in Hv. rewrite <- pow256_pow2 in Hv by lia.
  pose proof (bytes_ok_le_bytes n v) as Hok. pose proof (length_le_bytes n v) as Hlen.
  pose proof (Hb _ Hok Hlen) as Hs. rewrite le_val_le_bytes_small in Hs by done.
  pose proof (be_val_bound _ Hok) as Hbd. unfold zlen in Hbd. rewrite Hlen in Hbd.
  unfold step_append_u. destruct (decide (v < _)); [|lia].
  assert (le_bytes n v = be_bytes n (bswap v)) as ->; [|apply add_u_small; [by rewrite Hs|done]].
  rewrite Hs. rewrite <- (be_bytes_be_val (le_bytes n v)) at 1 by done. by rewrite Hlen.
Qed.

Lemma add_len_op_spec p (n : nat) : (1 ≤ n ≤ 3)%nat →
  op_spec (cbb_add_length_prefixed p (S p) (Z.of_nat n)) p 0 (step_append [] (Some (KLen n))).
Proof.
  intros Hn. apply op_spec_append; [done|]. intros s x Hi. pose proof Hi as (_ & _ & Hc).
  apply runs_get_bind. cbn [opened layout link_opt pll app]. rewrite !app_nil_r.
  rewrite (buffer_len_contents s x Hc).
  eapply runs_bind; [apply (buffer_add_spec s x (Z.of_nat n) Hc); word_lia| |].
  { by rewrite zlen_app, zlen_replicate. }
  intros o s1 _ (-> & Hs1 & y & Hy & Hc1). rewrite Nat2Z.id.
  eapply runs_bind with (ok1 := True).
  { apply (write_buf_spec s1 x y [] (replicate n 0)); [by rewrite app_nil_r| |done].
    rewrite length_replicate. unfold zlen in Hy. lia. }
  { done. }
  intros _ s2 _ [Hc2 Hs2]. rewrite app_nil_r in Hc2. apply (runs_link p _ (zlen x) (KLen n)); [lia|].
  split; [by do 2 apply contents_set_cbb|]. unfold link_store, set_cbb, get_cbb. cbn [cbbs]. by rewrite Hs2, Hs1.
Qed.

Lemma tag_bits_eq tag : is_u32 tag →
  u8 ((tag >>> CBS_ASN1_TAG_SHIFT) .& 0xe0) = tag_class tag * 32 ∧
  tag .& CBS_ASN1_TAG_NUMBER_MASK = tag_number tag.
Proof.
  intros Ht. split.
  - unfold CBS_ASN1_TAG_SHIFT, tag_class. rewrite shiftr_div by lia.
    change (2 ^ 24) with 16777216. change (2 ^ 29) with 536870912.
    assert (is_u8 (tag / 16777216)) as Hb by (word_lia).
    replace (tag / 536870912) with (tag / 16777216 / 32) by lia.
    generalize dependent (tag / 16777216). intros b Hb. apply Z.eqb_eq. revert b Hb.
    apply (byte_cases (λ b, u8 (b .& 0xe0) =? b / 32 * 32)). by vm_compute.
  - unfold CBS_ASN1_TAG_NUMBER_MASK, tag_number. by apply (land_ones_mod tag 29).
Qed.

Lemma tag_byte cls low : 0 ≤ cls < 8 → 0 ≤ low < 32 → cls * 32 .| low = cls * 32 + low.
Proof.
  intros. assert (is_uint 5 low) as Hl by (unfold is_uint; change (2 ^ 5) with 32; lia).
  pose proof (lor_shiftl_add cls 5 low ltac:(lia) Hl) as E. by rewrite Z.shiftl_mul_pow2 in E.
Qed.

Lemma tag_idle s p x tag : is_u32 tag → idle s p x →
  let tag_bits := u8 ((tag >>> CBS_ASN1_TAG_SHIFT) .& 0xe0) in
  let tag_number := tag .& CBS_ASN1_TAG_NUMBER_MASK in
  runs (if 0x1f <=? tag_number then
          CBB_add_u8 p (tag_bits .| 0x1f);; add_base128_integer p tag_number
        else CBB_add_u8 p (u8 (tag_bits .| tag_number))) s
    (room s (zlen x + zlen (der_tag tag)))
    (λ _ s', idle s' p (x ++ der_tag tag) ∧ cbbs s' = cbbs s).
Proof.
  intros Ht Hi. cbv zeta. destruct (tag_bits_eq tag Ht) as [-> ->].
  destruct (tag_split tag Ht) as (_ & Hcls & Hnum). unfold der_tag.
  destruct (Z.leb_spec 0x1f (tag_number tag)) as [Hge|Hlt].
  - rewrite decide_False by lia. rewrite tag_byte by lia.
    eapply runs_bind; [apply (add_u8_idle s p x _ Hi); lia| |].
    { intros Hr. split; [|lia]. eapply room_grows; [reflexivity| |exact Hr].
      autorewrite with bytesdb. pose proof (zlen_nonneg (base128 (tag_number tag))). lia. }
    intros _ s1 Hg (_ & Hi1 & Hs1). eapply runs_weaken; [apply add_base128_spec; [|exact Hi1]|..].
    + eapply is_uint_mono; [|exact Hnum]. lia.
    + intros Hr. eapply room_grows; [exact Hg| |exact Hr]. autorewrite with bytesdb. lia.
    + intros _ s2 _ [Hi2 Hs2]. split; [by rewrite <- app_assoc in Hi2|congruence].
  - rewrite decide_True by lia. assert (0 ≤ tag_number tag) by apply Hnum.
    rewrite tag_byte by lia. rewrite wrap_small by word_lia.
    eapply runs_weaken; [apply (add_u8_idle s p x _ Hi); lia| |by intros _ s' _ (_ & ? & ?)].
    intros Hr. split; [done|lia].
Qed.

(** What [CBB_add_asn1] does after the flush; the child is at [l]. *)
Definition asn1_tail (p l : loc) (tag : Z) : CBB_M unit :=
  let tag_bits := u8 ((tag >>> CBS_ASN1_TAG_SHIFT) .& 0xe0) in
  let tag_number := tag .& CBS_ASN1_TAG_NUMBER_MASK in
  (if 0x1f <=? tag_number then
     CBB_add_u8 p (tag_bits .| 0x1f);; add_base128_integer p tag_number
   else CBB_add_u8 p (u8 (tag_bits .| tag_number)));;
  s ← st_get;
  let off := buffer_len s in
  CBB_add_u8 p 0;;
  link_child p l off 1 true.

Lemma asn1_tail_spec p l tag s x : is_u32 tag → l ≠ p → idle s p x →
  runs (asn1_tail p l tag) s (room s (zlen (x ++ der_tag tag ++ [0])))
    (λ _ s', contents_are s' (x ++ der_tag tag ++ [0]) ∧
       cbbs s' = cbbs (link_store p l (zlen (x ++ der_tag tag)) KAsn1 s)).
Proof.
  intros Ht Hl Hi. eapply runs_bind; [by apply tag_idle| |].
  { intros Hr. eapply room_grows; [reflexivity| |exact Hr]. autorewrite with bytesdb. lia. }
  intros _ s1 Hg (Hi1 & Hs1). apply runs_get_bind. rewrite (buffer_len_contents s1 (x ++ der_tag tag)) by apply Hi1.
  eapply runs_bind; [apply (add_u8_idle s1 p _ 0 Hi1); lia| |].
  { intros Hr. split; [|lia]. eapply room_grows; [exact Hg| |exact Hr]. autorewrite with bytesdb. lia. }
  intros _ s2 _ (_ & (_ & _ & Hc2) & Hs2). apply (runs_link p l _ KAsn1); [done|].
  split; [do 2 apply contents_set_cbb; by rewrite <- app_assoc in Hc2|].
  unfold link_store, set_cbb, get_cbb. cbn [cbbs]. by rewrite Hs2, Hs1.
Qed.

Lemma add_asn1_op_spec p tag : is_u32 tag →
  op_spec (CBB_add_asn1 p (S p) tag) p 0 (step_append (der_tag tag) (Some KAsn1)).
Proof. intros Ht. apply op_spec_append; [done|]. intros s x. apply asn1_tail_spec; [done|lia]. Qed.

(** ** The writers of whole elements, which use a local child *)

Lemma local_cbb_fresh s q : q ∈ dom (cbbs s) → (q < local_cbb s)%nat.
Proof.
  unfold local_cbb. revert q.
  refine (map_fold_weak_ind (λ n m, ∀ q, q ∈ dom m → (q < n)%nat) _ _ _ _ (cbbs s)); [set_solver|].
  intros i x m n _ IH q. rewrite dom_insert, elem_of_union, elem_of_singleton. intros [->|Hq]; [lia|].
  apply IH in Hq. lia.
Qed.

Lemma der_encode c : zlen c ≤ 0xfffffffe → encode KAsn1 c = Some (der_length (zlen c) ++ c).
Proof. intros. cbn. by rewrite decide_True by lia. Qed.

(** [s1] is [s] after the object at [p] was flushed and, its contents being [x] now, a local
    child with contents [d] was opened at [l]. *)
Definition local_open (s s1 : store) (p l : loc) (off pl : Z) (asn isch : bool) (pre x d : bytes) : Prop :=
  contents_are s1 (pre ++ x ++ [0] ++ d) ∧ chain s1 p off pl asn isch x [(KAsn1, d)] [l] ∧
  same_below s s1 p ∧ (∀ q, (p < q)%nat → q ≠ l → base (get_cbb s1 q) = false) ∧ zlen pre = off + pl ∧ (p < l)%nat.

Lemma local_open_spec s p l off pl asn isch pre c fs tag : is_u32 tag → (p < l)%nat →
  focus s p off pl asn isch pre c fs →
  runs (CBB_add_asn1 p l tag) s (∃ e, close c fs = Some e ∧ room s (zlen ((pre ++ e) ++ der_tag tag ++ [0])))
    (λ _ s1, ∃ e, close c fs = Some e ∧ local_open s s1 p l off pl asn isch pre (e ++ der_tag tag) []).
Proof.
  intros Ht Hlp Hf. unfold CBB_add_asn1. fold (asn1_tail p l tag). eapply runs_bind; [by apply flush_op|..].
  { intros (e & He & Hr). exists e. split; [done|]. eapply room_grows; [reflexivity| |exact Hr].
    autorewrite with bytesdb. pose proof (zlen_nonneg (der_tag tag)). lia. }
  intros _ s1 Hg (e & He & Hf1 & Hsame).
  eapply runs_weaken; [apply asn1_tail_spec; [done|lia|by eapply focus_idle]|..].
  { intros (e' & He' & Hr). rewrite He in He'. injection He' as <-.
    eapply room_grows; [exact Hg| |exact Hr]. done. }
  intros _ s2 _ [Hc2 Hs2]. destruct Hf1 as ([Hp _] & _ & Hd & Hpre). cbn in Hp, Hd.
  assert (∀ q, get_cbb s2 q = get_cbb (link_store p l (zlen ((pre ++ e) ++ der_tag tag)) KAsn1 s1) q) as Hs
    by (intros q; unfold get_cbb; by rewrite Hs2).
  exists e. unfold link_store in Hs. split; [done|]. split; [by rewrite <- !app_assoc in *|].
  split; [split; [|split; [done|split; [|done]]]|split_and!; [..|done|done]].
  - by rewrite Hs, get_set_cbb, Hp.
  - rewrite Hs, get_set_cbb_ne, get_set_cbb by lia. cbn. f_equal. autorewrite with bytesdb. lia.
  - intros q Hq. rewrite Hs, !get_set_cbb_ne by lia. by apply Hsame.
  - intros q Hq Hql. rewrite Hs, !get_set_cbb_ne by (done || lia). apply Hd. lia.
Qed.

Lemma local_open_write s s1 s2 p l off pl asn isch pre x d : cbbs s2 = cbbs s1 →
  contents_are s2 (pre ++ x ++ [0] ++ d) → local_open s s1 p l off pl asn isch pre x [] →
  local_open s s2 p l off pl asn isch pre x d.
Proof.
  intros Hs2 Hc2 (_ & (Hp & _ & Hl & _) & Hsame & Hd & ? & ?).
  assert (∀ q, get_cbb s2 q = get_cbb s1 q) as Hs by (intros q; unfold get_cbb; by rewrite Hs2).
  split; [done|]. split; [split; [by rewrite Hs|split; [done|split; [by rewrite Hs|done]]]|]. split_and!; try done.
  - intros q Hq. by rewrite Hs, Hsame.
  - intros q Hq Hql. rewrite Hs. by apply Hd.
Qed.

Lemma local_close_spec s s1 p l off pl asn isch pre x d : zlen d ≤ 0xfffffffe →
  local_open s s1 p l off pl asn isch pre x d →
  runs (CBB_flush p) s1 (room s1 (zlen (pre ++ x ++ der_length (zlen d) ++ d)))
    (λ _ s', focus s' p off pl asn isch pre (x ++ der_length (zlen d) ++ d) [] ∧ same_below s s' p).
Proof.
  intros Hd (Hc & Hch & Hsame & Hdead & Hpre & Hpl).
  assert (NoDup [p; l]) as Hnd by (repeat constructor; rewrite ?list_elem_of_singleton; set_solver by lia).
  assert (close x [(KAsn1, d)] = Some (x ++ der_length (zlen d) ++ d)) as Hcl
    by (cbn [close mbind option_bind]; by rewrite der_encode by done).
  eapply runs_weaken; [eapply (flush_fuel_spec _ _ s1 p off pl asn isch x [l] pre Hch Hnd)|..].
  { by apply (chain_fuel _ _ _ _ _ _ _ _ _ Hch). }
  { cbn [layout pll replicate is_asn1]. by rewrite app_nil_r. }
  { done. }
  { intros Hr. eexists. split; [exact Hcl|]. by rewrite <- zlen_app. }
  intros _ s3 _ (e3 & He3 & Hc3 & Hp3 & Hframe & Hstale). rewrite Hcl in He3. injection He3 as <-.
  assert (∀ q, q ≠ p → q ≠ l → get_cbb s3 q = get_cbb s1 q) as Hf by (intros; apply Hframe; set_solver).
  split.
  - split; [by split|]. split; [cbn; by rewrite app_nil_r|]. split; [|done].
    cbn. rewrite Nat.add_0_r. intros q Hq. destruct (decide (q = l)) as [->|Hql]; [apply Hstale; set_solver|].
    rewrite Hf by lia. apply Hdead; [lia|done].
  - intros q Hq. rewrite Hf by lia. by apply Hsame.
Qed.

Lemma local_element_spec p tag contents (body : loc → CBB_M unit) :
  is_u32 tag → zlen contents ≤ 0xfffffffe →
  (∀ s l x, idle s l x → runs (body l) s (room s (zlen (x ++ contents)))
    (λ _ s', contents_are s' (x ++ contents) ∧ cbbs s' = cbbs s)) →
  op_spec (s ← st_get; CBB_add_asn1 p (local_cbb s) tag;; body (local_cbb s);; CBB_flush p) p 0
    (step_append (der tag contents) None).
Proof.
  intros Ht Hlen Hbody s off pl asn isch pre c fs Hf _. apply runs_get_bind.
  assert (p < local_cbb s)%nat as Hlp.
  { apply local_cbb_fresh. eapply chain_nodes; [apply Hf|]. set_solver. }
  set (l := local_cbb s) in *. pose proof (zlen_nonneg contents).
  pose proof (zlen_der_length (zlen contents) ltac:(lia)).
  assert (∀ e n s1, grows s s1 → close c fs = Some e → (∃ c' fs',
    step_append (der tag contents) None c fs = Some (c', fs') ∧ room s (zlen pre + zlen (c' ++ layout fs'))) →
    n ≤ zlen pre + zlen e + zlen (der_tag tag) + zlen (der_length (zlen contents)) + zlen contents → room s1 n) as Hok.
  { intros e n s1 Hg He (c' & fs' & Hs & Hr) Hn. unfold step_append in Hs. rewrite He in Hs.
    injection Hs as <- <-. eapply room_grows; [exact Hg| |exact Hr]. unfold der, der_header.
    cbn [layout]. autorewrite with bytesdb. lia. }
  eapply runs_bind; [by apply (local_open_spec s p l)|..].
  { intros Hr. pose proof Hr as (c' & fs' & Hs & _). unfold step_append in Hs.
    destruct (close c fs) as [e|] eqn:He; [|done]. exists e. split; [done|].
    apply (Hok e _ s ltac:(reflexivity) eq_refl Hr). autorewrite with bytesdb. lia. }
  intros _ s1 Hg1 (e & He & Ho). pose proof Ho as (Hc1 & (_ & _ & Hl1 & _) & _).
  eapply runs_bind.
  { apply (Hbody s1 l (pre ++ (e ++ der_tag tag) ++ [0])). unfold idle. rewrite Hl1. by split_and!. }
  { intros Hr. apply (Hok e _ s1 Hg1 He Hr). autorewrite with bytesdb. lia. }
  intros _ s2 Hg2 [Hc2 Hs2]. rewrite <- !app_assoc in Hc2.
  eapply runs_weaken; [apply (local_close_spec s s2 p l off pl asn isch pre (e ++ der_tag tag) contents); [done|]|..].
  { eapply local_open_write; [done| |exact Ho]. by rewrite <- !app_assoc. }
  { intros Hr. apply (Hok e _ s2 ltac:(by etrans) He Hr). autorewrite with bytesdb. lia. }
  intros _ s3 _ [Hf3 Hsame3]. exists (e ++ der tag contents), []. unfold step_append. rewrite He.
  split; [done|]. unfold der, der_header. by rewrite <- !app_assoc in *.
Qed.



(** ** The contents the element writers produce *)

Lemma op_spec_ext m m' p d g : (∀ s, m s = m' s) → op_spec m' p d g → op_spec m p d g.
Proof. intros Hm Hop s off pl asn isch pre c fs Hf Hd. eapply runs_eq; [apply Hm|]. by apply Hop. Qed.

Lemma shifted_byte v (n : nat) : (v >>> (8 * Z.of_nat n)) .& 0xff = (v / 256 ^ Z.of_nat n) mod 256.
Proof. by rewrite shiftr_div, land_ff, pow256_pow2 by lia. Qed.

Lemma add_byte_idle s p x b ok : idle s p x → 0 ≤ b < 256 → (ok → room s (zlen x + 1)) →
  runs (CBB_add_u8 p b) s ok (λ _ s', idle s' p (x ++ [b]) ∧ cbbs s' = cbbs s).
Proof.
  intros Hi Hb Hok. eapply runs_weaken; [apply (add_u8_idle s p x b Hi); lia| |naive_solver].
  intros ?. split; [auto|lia].
Qed.

Lemma uint64_started l v n : ∀ s x, (n ≤ 8)%nat → idle s l x →
  runs (add_uint64_loop l v (seq (8 - n) n) true) s (room s (zlen (x ++ be_bytes n v)))
    (λ r s', r = true ∧ idle s' l (x ++ be_bytes n v) ∧ cbbs s' = cbbs s).
Proof.
  induction n as [|n IH]; intros s x Hn Hi; cbn [seq add_uint64_loop be_bytes negb].
  - apply runs_ret. by rewrite app_nil_r.
  - replace (7 - Z.of_nat (8 - S n)) with (Z.of_nat n) by lia. rewrite shifted_byte.
    replace (S (8 - S n)) with (8 - n)%nat by lia.
    eapply runs_bind; [apply (add_byte_idle s l x _ (room s (zlen x + 1)) Hi); [lia|done]| |].
    { intros Hr. eapply room_grows; [reflexivity| |exact Hr]. autorewrite with bytesdb.
      pose proof (zlen_nonneg (be_bytes n v)). lia. }
    intros _ s1 Hg [Hi1 Hs1]. eapply runs_weaken; [apply (IH s1 _ ltac:(lia) Hi1)|..].
    + intros Hr. eapply room_grows; [exact Hg| |exact Hr]. by rewrite <- app_assoc.
    + intros r s2 _ (-> & Hi2 & Hs2). rewrite <- app_assoc in Hi2. split_and!; [done|done|congruence].
Qed.

(** The minimal two's complement form of a positive number whose top byte is at [n]. *)
Lemma int_octets_top v (n : nat) : 256 ^ Z.of_nat n ≤ v < 256 ^ Z.of_nat (S n) →
  int_octets v = (if decide (v / 256 ^ Z.of_nat n < 128) then [] else [0]) ++ be_bytes (S n) v.
Proof.
  intros [Hlo Hhi]. assert (0 < 256 ^ Z.of_nat n) by (apply Z.pow_pos_nonneg; lia).
  assert (256 ^ Z.of_nat (S n) = 256 * 256 ^ Z.of_nat n) as HS by (rewrite Nat2Z.inj_succ, Z.pow_succ_r; lia).
  assert (256 ^ Z.of_nat (S (S n)) = 256 * 256 ^ Z.of_nat (S n)) as HSS by (rewrite Nat2Z.inj_succ, Z.pow_succ_r; lia).
  pose proof (Z.mul_div_le v (256 ^ Z.of_nat n) ltac:(lia)).
  pose proof (Z.mul_succ_div_gt v (256 ^ Z.of_nat n) ltac:(lia)).
  unfold int_octets. case_decide as Hd.
  - rewrite (int_octets_length v (S n)); [done|lia|nia|].
    right. right. replace (Z.of_nat (S n) - 1) with (Z.of_nat n) by lia. lia.
  - rewrite (int_octets_length v (S (S n))); [|lia|nia|].
    + cbn [be_bytes app]. rewrite Z.div_small by lia. done.
    + right. right. replace (Z.of_nat (S (S n)) - 1) with (Z.of_nat (S n)) by lia. nia.
Qed.

Lemma uint64_unstarted l v n : ∀ s x, (n ≤ 8)%nat → 0 ≤ v < 256 ^ Z.of_nat n → idle s l x →
  runs (add_uint64_loop l v (seq (8 - n) n) false) s (room s (zlen (x ++ int_octets v)))
    (λ r s', r = bool_decide (v ≠ 0) ∧ idle s' l (x ++ if decide (v = 0) then [] else int_octets v) ∧ cbbs s' = cbbs s).
Proof.
  induction n as [|n IH]; intros s x Hn Hv Hi; cbn [seq add_uint64_loop negb].
  - change (256 ^ Z.of_nat 0) with 1 in Hv. apply runs_ret. rewrite decide_True, bool_decide_eq_false_2 by lia.
    by rewrite app_nil_r.
  - replace (7 - Z.of_nat (8 - S n)) with (Z.of_nat n) by lia. rewrite shifted_byte.
    replace (S (8 - S n)) with (8 - n)%nat by lia.
    assert (0 < 256 ^ Z.of_nat n) by (apply Z.pow_pos_nonneg; lia).
    assert (0 ≤ v / 256 ^ Z.of_nat n < 256).
    { split; [apply Z.div_pos; lia|]. apply Z.div_lt_upper_bound; [lia|].
      rewrite Nat2Z.inj_succ, Z.pow_succ_r in Hv by lia. lia. }
    rewrite Z.mod_small by done. destruct (Z.eqb_spec (v / 256 ^ Z.of_nat n) 0) as [Hz|Hz].
    + apply Z.div_small_iff in Hz; [|lia]. apply IH; [lia|lia|done].
    + assert (256 ^ Z.of_nat n ≤ v) by (apply Z.nlt_ge; intros ?; apply Hz, Z.div_small; lia).
      rewrite (int_octets_top v n) by lia. rewrite (decide_False (P := v = 0)), bool_decide_eq_true_2 by lia.
      rewrite bit7_clear by word_lia.
      set (z := if decide _ then [] else [0]). pose proof (zlen_nonneg z).
      pose proof (zlen_be_bytes n v) as Hbl.
      eapply runs_bind with (ok1 := room s (zlen (x ++ z))) (Q := λ _ s', idle s' l (x ++ z) ∧ cbbs s' = cbbs s).
      { subst z. destruct (decide (v / 256 ^ Z.of_nat n < 128)) as [Hb|Hb];
          [rewrite (bool_decide_eq_true_2 _ Hb)|rewrite (bool_decide_eq_false_2 _ Hb)]; cbn [negb].
        - apply runs_ret. by rewrite app_nil_r.
        - apply (add_byte_idle s l x 0 _ Hi); [done|]. by rewrite zlen_app. }
      { intros Hr. eapply room_grows; [reflexivity| |exact Hr]. cbn [be_bytes].
        autorewrite with bytesdb. rewrite Hbl. subst z. case_decide; autorewrite with bytesdb; lia. }
      intros _ s1 Hg1 [Hi1 Hs1].
      eapply runs_bind; [apply (add_byte_idle s1 l _ _ (room s1 (zlen (x ++ z) + 1)) Hi1); [done|done]| |].
      { intros Hr. eapply room_grows; [exact Hg1| |exact Hr]. cbn [be_bytes].
        autorewrite with bytesdb. rewrite Hbl. lia. }
      intros _ s2 Hg2 [Hi2 Hs2]. eapply runs_weaken; [apply (uint64_started l v n s2 _ ltac:(lia) Hi2)|..].
      * intros Hr. eapply room_grows; [etrans; [exact Hg1|exact Hg2]| |exact Hr]. cbn [be_bytes]. autorewrite with bytesdb. lia.
      * intros r s3 _ (-> & Hi3 & Hs3). split_and!; [done| |congruence].
        cbn [be_bytes]. rewrite Z.mod_small by done. by rewrite <- !app_assoc in *.
Qed.

(** Byte [j] of the two's complement form of a negative number. *)
Lemma neg_byte m (j : nat) : 0 ≤ m → (- m - 1) / 256 ^ Z.of_nat j = - (m / 256 ^ Z.of_nat j) - 1.
Proof.
  intros Hm. assert (0 < 256 ^ Z.of_nat j) by (apply Z.pow_pos_nonneg; lia).
  pose proof (Z.div_mod m (256 ^ Z.of_nat j) ltac:(lia)).
  pose proof (Z.mod_pos_bound m (256 ^ Z.of_nat j) ltac:(lia)).
  symmetry. apply Z.div_unique with (256 ^ Z.of_nat j - 1 - m mod 256 ^ Z.of_nat j); [lia|]. lia.
Qed.

Lemma nth_le_bytes n : ∀ v (j : nat), (j < n)%nat → nth j (le_bytes n v) 0 = (v / 256 ^ Z.of_nat j) mod 256.
Proof.
  induction n as [|n IH]; intros v j Hj; [lia|]. destruct j as [|j]; cbn [le_bytes nth].
  - by rewrite Z.div_1_r.
  - rewrite IH by lia. rewrite Nat2Z.inj_succ, Z.pow_succ_r by lia.
    by rewrite Z.div_div by (try apply Z.pow_pos_nonneg; lia).
Qed.

Lemma int64_start_eq v start : v < 0 → (start < 8)%nat → - 256 ^ Z.of_nat (S start) ≤ 2 * v →
  int_octets v = be_bytes (S (int64_start (le_bytes 8 v) start)) v ∧
  (int64_start (le_bytes 8 v) start ≤ start)%nat.
Proof.
  intros Hv. induction start as [|k IH]; intros Hk Hr; cbn [int64_start].
  - split; [|done]. unfold int_octets. rewrite (int_octets_length v 1); [done|lia| |by left].
    change (Z.of_nat 1) with 1 in *. lia.
  - rewrite !nth_le_bytes by lia.
    assert (v = - (- v - 1) - 1) as Hm by lia. set (m := - v - 1) in Hm. assert (0 ≤ m) by lia.
    set (P := 256 ^ Z.of_nat k) in *. assert (0 < P) by (apply Z.pow_pos_nonneg; lia).
    assert (256 ^ Z.of_nat (S k) = 256 * P) as HP by (rewrite Nat2Z.inj_succ, Z.pow_succ_r; lia).
    assert (256 ^ Z.of_nat (S (S k)) = 256 * (256 * P)) as HPP
      by (rewrite Nat2Z.inj_succ, Z.pow_succ_r, HP; lia).
    assert (v / 256 ^ Z.of_nat (S k) = - (m / (256 * P)) - 1) as -> by (rewrite <- HP, Hm; by apply neg_byte).
    assert (v / P = - (m / P) - 1) as -> by (rewrite Hm; by apply neg_byte).
    assert (m / (256 * P) = m / P / 256) as -> by (rewrite Z.div_div by lia; f_equal; lia).
    pose proof (Z.mul_div_le m P ltac:(lia)). pose proof (Z.mul_succ_div_gt m P ltac:(lia)).
    pose proof (Z.div_pos m P ltac:(lia) ltac:(lia)). set (q := m / P) in *.
    assert (q < 256 * 128) by nia. rewrite bit7_clear by word_lia.
    destruct (_ && _) eqn:E.
    + apply andb_true_iff in E as [E1 E2]. apply Z.eqb_eq in E1.
      rewrite negb_true_iff, bool_decide_eq_false in E2.
      assert (q < 128) by lia. destruct IH as [Ho Hle]; [lia|rewrite HP; nia|]. split; [done|lia].
    + split; [|done]. unfold int_octets. rewrite (int_octets_length v (S (S k))); [done|lia|lia|].
      right. left. replace (Z.of_nat (S (S k)) - 1) with (Z.of_nat (S k)) by lia. rewrite HP.
      assert (128 ≤ q); [|nia]. apply andb_false_iff in E as [E|E].
      * apply Z.eqb_neq in E. lia.
      * rewrite negb_false_iff, bool_decide_eq_true in E. lia.
Qed.

Lemma int64_loop_spec l v n : ∀ s x, (n ≤ 8)%nat → idle s l x →
  runs (add_int64_loop l (le_bytes 8 v) n) s (room s (zlen (x ++ be_bytes n v)))
    (λ _ s', idle s' l (x ++ be_bytes n v) ∧ cbbs s' = cbbs s).
Proof.
  induction n as [|n IH]; intros s x Hn Hi; cbn [add_int64_loop be_bytes].
  - apply runs_ret. by rewrite app_nil_r.
  - rewrite nth_le_bytes by lia.
    eapply runs_bind; [apply (add_byte_idle s l x _ (room s (zlen x + 1)) Hi); [lia|done]| |].
    { intros Hr. eapply room_grows; [reflexivity| |exact Hr]. autorewrite with bytesdb.
      pose proof (zlen_nonneg (be_bytes n v)). lia. }
    intros _ s1 Hg [Hi1 Hs1]. eapply runs_weaken; [apply (IH s1 _ ltac:(lia) Hi1)|..].
    + intros Hr. eapply room_grows; [exact Hg| |exact Hr]. by rewrite <- app_assoc.
    + intros _ s2 _ (Hi2 & Hs2). rewrite <- app_assoc in Hi2. split; [done|congruence].
Qed.

(** ** The element writers *)

Lemma zlen_int_octets_64 v : - 2 ^ 63 ≤ v < 2 ^ 64 → zlen (int_octets v) ≤ 9.
Proof.
  intros Hv. rewrite zlen_int_octets. pose proof (int_magnitude_nonneg v).
  assert (ndigits 8 (2 * int_magnitude v) ≤ 9)%nat; [|lia].
  apply ndigits_le; [lia..|]. change (2 ^ (8 * Z.of_nat 9)) with 4722366482869645213696.
  change (2 ^ 64) with 18446744073709551616 in Hv. change (2 ^ 63) with 9223372036854775808 in Hv.
  unfold int_magnitude. case_decide; lia.
Qed.

Lemma add_octet_string_op_spec p data : zlen data ≤ 0xfffffffe →
  op_spec (CBB_add_asn1_octet_string p data) p 0 (step_append (der CBS_ASN1_OCTETSTRING data) None).
Proof.
  intros Hd. apply (local_element_spec p CBS_ASN1_OCTETSTRING data (λ l, CBB_add_bytes l data)); [by vm_compute|done|].
  intros s l x Hi. eapply runs_flush_idle; [done|].
  eapply runs_weaken; [apply (add_bytes_idle s l x data Hi); lia| |by intros _ s' _ [(_ & _ & ?) ?]].
  by rewrite zlen_app.
Qed.

Lemma add_bool_op_spec p (b : bool) :
  op_spec (CBB_add_asn1_bool p (if b then 1 else 0)) p 0 (step_append (der CBS_ASN1_BOOLEAN [bool_octet b]) None).
Proof.
  eapply op_spec_ext;
    [|apply (local_element_spec p CBS_ASN1_BOOLEAN [bool_octet b] (λ l, CBB_add_u8 l (bool_octet b))); [by vm_compute|done|]].
  { intros s. by destruct b. }
  intros s l x Hi. eapply runs_weaken; [apply (add_byte_idle s l x _ (room s (zlen x + 1)) Hi)| |].
  - by destruct b.
  - done.
  - by rewrite zlen_app.
  - by intros _ s' _ [(_ & _ & ?) ?].
Qed.

Lemma add_uint64_op_spec p v : is_u64 v →
  op_spec (CBB_add_asn1_uint64 p v) p 0 (step_append (der CBS_ASN1_INTEGER (int_octets v)) None).
Proof.
  intros Hv. pose proof (zlen_int_octets_64 v ltac:(word_lia)).
  eapply op_spec_ext; [|apply (local_element_spec p CBS_ASN1_INTEGER (int_octets v) (λ l,
    started ← add_uint64_loop l v (seq 0 8) false; if negb started then CBB_add_u8 l 0 else mret tt)); [by vm_compute|lia|]].
  { intros s. unfold CBB_add_asn1_uint64, mbind, st_bind, st_get.
    destruct (CBB_add_asn1 _ _ _ s) as [[?|] s1]; [|done].
    by destruct (add_uint64_loop _ _ _ _ s1) as [[?|] s2]. }
  intros s l x Hi. eapply runs_bind; [apply (uint64_unstarted l v 8 s x); [lia| |done]|done|].
  { change (256 ^ Z.of_nat 8) with 18446744073709551616. word_lia. }
  intros r s1 Hg (-> & Hi1 & Hs1). case_bool_decide as Hz; cbn [negb].
  - rewrite decide_False in Hi1 by done. apply runs_ret. split; [apply Hi1|done].
  - rewrite decide_True in Hi1 by lia. rewrite app_nil_r in Hi1. assert (v = 0) as -> by lia.
    eapply runs_weaken; [apply (add_byte_idle s1 l x 0 (room s1 (zlen x + 1)) Hi1)| |].
    + done.
    + done.
    + intros Hr. eapply room_grows; [exact Hg| |exact Hr]. by rewrite zlen_app.
    + intros _ s2 _ [(_ & _ & ?) ?]. split; [done|congruence].
Qed.

Lemma add_int64_op_spec p v : - 2 ^ 63 ≤ v < 2 ^ 63 →
  op_spec (CBB_add_asn1_int64 p v) p 0 (step_append (der CBS_ASN1_INTEGER (int_octets v)) None).
Proof.
  intros Hv. unfold CBB_add_asn1_int64.
  change (2 ^ 63) with 9223372036854775808 in Hv. destruct (Z.leb_spec 0 v) as [Hp|Hn].
  - apply add_uint64_op_spec. word_lia.
  - destruct (int64_start_eq v 7 Hn) as [Ho Hle]; [lia|change (256 ^ Z.of_nat 8) with 18446744073709551616; lia|].
    apply (local_element_spec p CBS_ASN1_INTEGER (int_octets v)
      (λ l, add_int64_loop l (le_bytes 8 v) (S (int64_start (le_bytes 8 v) 7)))); [by vm_compute| |].
    + pose proof (zlen_int_octets_64 v ltac:(word_lia)). lia.
    + intros s l x Hi. rewrite Ho. eapply runs_weaken; [apply int64_loop_spec; [lia|done]|done|].
      by intros _ s' _ [(_ & _ & ?) ?].
Qed.

(** ** Composing operations that append to one object *)

Definition appends (m : CBB_M unit) (p : loc) (bs : bytes) : Prop := op_spec m p 0 (step_append bs None).

Lemma appends_add_u8 p v : is_u8 v → appends (CBB_add_u8 p v) p [v].
Proof.
  intros Hv. pose proof (add_u_small p v 1 ltac:(word_lia) ltac:(lia)) as Hop.
  cbn in Hop. by rewrite Z.div_1_r, Z.mod_small in Hop by word_lia.
Qed.

Lemma appends_nil p : appends (CBB_flush p) p [].
Proof. apply flush_op_spec. Qed.

Lemma appends_seq p m1 m2 a b : appends m1 p a → appends m2 p b → appends (m1;; m2) p (a ++ b).
Proof.
  intros H1 H2 s off pl asn isch pre c fs Hf Hd.
  eapply runs_bind; [by apply (H1 s off pl asn isch pre c fs Hf)| |].
  - intros (c' & fs' & Hs & Hr). unfold step_append in Hs |- *. destruct (close c fs) as [e|]; [|done].
    injection Hs as <- <-. eexists _, _. split; [done|]. eapply room_grows; [reflexivity| |exact Hr].
    rewrite !zlen_app. pose proof (zlen_nonneg b). lia.
  - intros _ s1 Hg (c1 & fs1 & Hs1 & Hf1 & Hsame1). unfold step_append in Hs1.
    destruct (close c fs) as [e|] eqn:He; [|done]. injection Hs1 as <- <-.
    eapply runs_weaken; [apply (H2 s1 off pl asn isch pre _ _ Hf1); cbn; lia| |].
    + intros (c' & fs' & Hs & Hr). unfold step_append in Hs. rewrite He in Hs. injection Hs as <- <-.
      exists ((e ++ a) ++ b), []. split; [done|]. eapply room_grows; [exact Hg| |exact Hr]. rewrite !zlen_app. lia.
    + intros _ s2 _ (c2 & fs2 & Hs2 & Hf2 & Hsame2). injection Hs2 as <- <-.
      exists (e ++ a ++ b), []. unfold step_append. rewrite He. split; [done|]. split; [by rewrite <- app_assoc in Hf2|].
      intros q Hq. rewrite Hsame2 by done. by apply Hsame1.
Qed.

(** The same on an object with no open child, for routines that need not flush and that
    may return a result. *)
Definition extends_to {A} (m : CBB_M A) (p : loc) (bs : bytes) (a : A) : Prop :=
  ∀ s off pl asn isch pre c, focus s p off pl asn isch pre c [] →
  runs m s (room s (zlen pre + zlen (c ++ bs)))
    (λ r s', (focus s' p off pl asn isch pre (c ++ bs) [] ∧ same_below s s' p) ∧ r = a).
Abbreviation extends m p bs := (extends_to m p bs tt).

Lemma appends_extends m p bs : appends m p bs → extends m p bs.
Proof.
  intros Hm s off pl asn isch pre c Hf. eapply runs_weaken; [apply (Hm s off pl asn isch pre c [] Hf); cbn; lia| |].
  - intros Hr. eexists _, _. split; [done|]. cbn [layout]. by rewrite app_nil_r.
  - intros [] s' _ (c' & fs' & [= <- <-] & Hf' & Hs). done.
Qed.
Lemma extends_ret {A} p (a : A) : extends_to (mret a) p [] a.
Proof. intros s off pl asn isch pre c Hf. apply runs_ret. by rewrite app_nil_r. Qed.
Lemma extends_bind {A B} p (m1 : CBB_M A) (m2 : A → CBB_M B) x y a b :
  extends_to m1 p x a → extends_to (m2 a) p y b → extends_to (m1 ≫= m2) p (x ++ y) b.
Proof.
  intros H1 H2 s off pl asn isch pre c Hf. eapply runs_bind; [by apply (H1 s off pl asn isch pre c Hf)| |].
  - intros Hr. eapply room_grows; [reflexivity| |exact Hr]. rewrite !zlen_app. pose proof (zlen_nonneg y). lia.
  - intros r s1 Hg [[Hf1 Hs1] ->]. eapply runs_weaken; [by apply (H2 s1 off pl asn isch pre _ Hf1)| |].
    + intros Hr. eapply room_grows; [exact Hg| |exact Hr]. by rewrite <- app_assoc.
    + intros r' s2 _ [[Hf2 Hs2] ->]. rewrite <- app_assoc in Hf2. split; [|done]. split; [done|].
      intros q Hq. by rewrite Hs2, Hs1.
Qed.
Lemma extends_seq p m1 m2 a b : extends m1 p a → extends m2 p b → extends (m1;; m2) p (a ++ b).
Proof. intros H1 H2. by apply (extends_bind p m1 (λ _, m2) a b tt tt). Qed.
Lemma extends_ext {A} p (m m' : CBB_M A) bs a : (∀ s, m s = m' s) → extends_to m' p bs a → extends_to m p bs a.
Proof. intros E Hm s off pl asn isch pre c Hf. eapply runs_eq; [apply E|]. by apply Hm. Qed.
Lemma extends_flush p : extends (CBB_flush p) p [].
Proof. apply appends_extends, appends_nil. Qed.

Lemma extends_appends m p bs : extends m p bs → appends (CBB_flush p;; m) p bs.
Proof.
  intros Hm s off pl asn isch pre c fs Hf _. eapply runs_bind; [by apply (flush_op s p off pl asn isch pre c fs Hf)| |].
  - intros (c' & fs' & Hs & Hr). unfold step_append in Hs. destruct (close c fs) as [e|]; [|done].
    injection Hs as <- <-. exists e. split; [done|]. eapply room_grows; [reflexivity| |exact Hr].
    cbn [layout]. rewrite !zlen_app, zlen_nil. pose proof (zlen_nonneg bs). lia.
  - intros _ s1 Hg (e & He & Hf1 & Hs1). eapply runs_weaken; [by apply (Hm s1 off pl asn isch pre e Hf1)| |].
    + intros (c' & fs' & Hs & Hr). unfold step_append in Hs. rewrite He in Hs. injection Hs as <- <-.
      cbn [layout] in Hr. rewrite app_nil_r in Hr. eapply room_grows; [exact Hg|reflexivity|exact Hr].
    + intros _ s2 _ [[Hf2 Hs2] _]. exists (e ++ bs), []. unfold step_append. rewrite He. split; [done|].
      split; [done|]. intros q Hq. by rewrite Hs2, Hs1.
Qed.
(** An element whose contents are written through a child. *)
Lemma extends_child {A} p tag (m : CBB_M A) out a : is_u32 tag → zlen out ≤ 0xfffffffe → extends_to m (S p) out a →
  extends_to (CBB_add_asn1 p (S p) tag;; x ← m; CBB_flush p;; mret x) p (der tag out) a.
Proof.
  intros Ht Hlen Hm s off pl asn isch pre c Hf. pose proof (zlen_nonneg out).
  pose proof (zlen_der_length (zlen out) ltac:(lia)) as Hl.
  eapply runs_bind; [apply (add_asn1_op_spec p tag Ht s off pl asn isch pre c [] Hf); cbn; lia| |].
  { intros Hr. eexists _, _. split; [done|]. eapply room_grows; [reflexivity| |exact Hr].
    unfold der, der_header. cbn [layout app]. autorewrite with bytesdb. rewrite zlen_replicate. cbn [pll]. lia. }
  intros _ s1 Hg (c1 & fs1 & [= <- <-] & Hf1 & Hs1). pose proof (focus_enter _ _ _ _ _ _ _ _ _ _ _ Hf1) as Hf1'.
  eapply runs_bind; [by apply (Hm s1 _ _ _ _ _ _ Hf1')| |].
  { intros Hr. eapply room_grows; [exact Hg| |exact Hr]. unfold der, der_header. cbn [app pll].
    autorewrite with bytesdb. rewrite zlen_replicate. lia. }
  intros r s2 Hg2 [[Hf2 Hs2] ->].
  destruct (focus_leave _ _ _ _ _ _ _ _ _ _ _ _ _ _ Hf1 Hf2 Hs2) as [Hf2' Hs2'].
  assert (close (c ++ der_tag tag) [(KAsn1, [] ++ out)] = Some (c ++ der tag out)) as Hcl.
  { cbn [close mbind option_bind app]. rewrite der_encode by done. cbn. unfold der, der_header. by rewrite <- !app_assoc. }
  eapply runs_bind; [by apply (flush_op s2 p off pl asn isch pre _ _ Hf2')| |].
  { intros Hr. eexists. split; [exact Hcl|]. eapply room_grows; [etrans; [exact Hg|exact Hg2]| |exact Hr]. done. }
  intros [] s3 _ (e & He & Hf3 & Hs3). rewrite Hcl in He. injection He as <-. apply runs_ret. split; [|done].
  split; [done|]. intros q Hq. by rewrite Hs3, Hs2', Hs1.
Qed.
Lemma extends_base128 p v : is_u64 v → extends (add_base128_integer p v) p (base128 v).
Proof.
  intros Hv s off pl asn isch pre c Hf. pose proof (focus_idle _ _ _ _ _ _ _ _ Hf) as Hi.
  eapply runs_weaken; [by apply (add_base128_spec p v s (pre ++ c))| |].
  - intros Hr. eapply room_grows; [reflexivity| |exact Hr]. rewrite !zlen_app. lia.
  - intros [] s' _ [(_ & _ & Hc') Hs']. destruct Hf as ([Hp _] & _ & Hd & Hpre). split; [|done].
    assert (∀ q, get_cbb s' q = get_cbb s q) as Hs by (intros q; unfold get_cbb; by rewrite Hs').
    split; [|intros q _; apply Hs]. split; [split; [by rewrite Hs|done]|].
    split; [cbn [layout]; by rewrite app_nil_r, <- app_assoc in *|]. split; [|done].
    intros q Hq. rewrite Hs. by apply Hd.
Qed.

(** ** Command sequences *)

Definition depth (x : cmd) : nat :=
  match x with
  | AddBytes d _ | AddAsn1 d _ | AddLen d _ | Flush d | AddOctetString d _ | AddBool d _
  | AddUint64 d _ | AddInt64 d _ | AddU d _ _ | AddUle d _ _ => d
  end.
Definition builds (s : store) (st : bytes * frames) : Prop := focus s 0 0 0 false false [] st.1 st.2.

Lemma exec_op_spec x : cmd_ok x → op_spec (exec x) 0 (depth x) (λ c fs, step x (c, fs)).
Proof.
  destruct x; cbn; intros Hok; apply op_spec_at_depth.
  - apply add_bytes_op_spec, Hok.
  - by apply add_asn1_op_spec.
  - by apply add_len_op_spec.
  - apply flush_op_spec.
  - apply add_octet_string_op_spec, Hok.
  - apply add_bool_op_spec.
  - by apply add_uint64_op_spec.
  - by apply add_int64_op_spec.
  - destruct Hok as [Hn Hv]. rewrite !elem_of_cons in Hn.
    destruct Hn as [->|[->|[->|[->|[->|[]%not_elem_of_nil]]]]].
    + apply (add_u_op_spec d v 1); [done|lia].
    + apply (add_u_op_spec d v 2); [done|lia].
    + apply (add_u_op_spec d v 3); [done|lia].
    + apply (add_u_op_spec d v 4); [done|lia].
    + apply (add_u_op_spec d v 8); [done|lia].
  - destruct Hok as [Hn Hv]. rewrite !elem_of_cons in Hn.
    destruct Hn as [->|[->|[->|[]%not_elem_of_nil]]].
    + apply (add_ule_op_spec d v 2 CRYPTO_bswap2); [lia|done|exact CRYPTO_bswap2_rev].
    + apply (add_ule_op_spec d v 4 CRYPTO_bswap4); [lia|done|exact CRYPTO_bswap4_rev].
    + apply (add_ule_op_spec d v 8 CRYPTO_bswap8); [lia|done|exact CRYPTO_bswap8_rev].
Qed.

Lemma at_depth_too_deep g d : ∀ c fs, (length fs < d)%nat → at_depth g d c fs = None.
Proof.
  induction d as [|d IH]; intros c [|[k c'] fs] Hd; cbn in *; try done; try lia. by rewrite IH by lia.
Qed.

(** A command on an object that is not open fails, on both sides. *)
Lemma exec_too_deep s st x : builds s st → (length st.2 < depth x)%nat →
  step x st = None ∧ fst (exec x s) = None.
Proof.
  destruct st as [c fs]. intros (_ & (b & t & Hb & _) & Hdead & _) Hd. cbn in *.
  assert (CBB_flush (depth x) s = (None, s)) as Hf.
  { unfold CBB_flush. cbn [flush_fuel]. rewrite Hb, Hdead by lia. done. }
  assert (∀ c t, fst (CBB_add_asn1 (depth x) c t s) = None) as Hasn1
    by (intros c' t'; unfold CBB_add_asn1; by rewrite (bind_none _ _ _ _ Hf)).
  assert (∀ c t (k : CBB_M unit), fst ((CBB_add_asn1 (depth x) c t;; k) s) = None) as Hel.
  { intros c' t' k. specialize (Hasn1 c' t'). unfold mbind at 1, st_bind.
    by destruct (CBB_add_asn1 (depth x) c' t' s) as [[?|] ?]. }
  assert (∀ v n, fst ((CBB_flush (depth x);; cbb_buffer_add_u v n) s) = None) as Hu
    by (intros v' n'; by rewrite (bind_none _ _ _ _ Hf)).
  destruct x; cbn [depth exec step fst snd] in *; (split; [by apply at_depth_too_deep|]).
  - unfold CBB_add_bytes. by rewrite (bind_none _ _ _ _ Hf).
  - apply Hasn1.
  - unfold cbb_add_length_prefixed. by rewrite (bind_none _ _ _ _ Hf).
  - by rewrite Hf.
  - apply Hel.
  - apply Hel.
  - apply Hel.
  - unfold CBB_add_asn1_int64. destruct (_ <=? _); apply Hel.
  - do 9 (destruct n as [|n]; [apply Hu|]). apply Hu.
  - do 9 (destruct n as [|n]; [apply Hu|]). apply Hu.
Qed.

Lemma close_size c fs e : close c fs = Some e → zlen (c ++ layout fs) ≤ zlen e.
Proof.
  revert c e. induction fs as [|[k c'] fs IH]; intros c e; cbn [close layout].
  - intros [= <-]. by rewrite app_nil_r.
  - destruct (close c' fs) as [e1|] eqn:H1; [|done]. cbn. destruct (encode k e1) as [e2|] eqn:H2; [|done].
    intros [= <-]. apply IH in H1. apply encode_room_pll in H2. autorewrite with bytesdb in *.
    rewrite zlen_replicate. lia.
Qed.

Definition grows_size (g : bytes → frames → option (bytes * frames)) : Prop :=
  ∀ c fs c' fs', g c fs = Some (c', fs') → zlen (c ++ layout fs) ≤ zlen (c' ++ layout fs').
Lemma step_append_size bs ko : grows_size (step_append bs ko).
Proof.
  intros c fs c' fs'. unfold step_append. destruct (close c fs) as [e|] eqn:He; [|done].
  intros [= <- <-]. apply close_size in He. rewrite !zlen_app in *. pose proof (zlen_nonneg bs).
  pose proof (zlen_nonneg (layout match ko with Some k => [(k, [])] | None => [] end)). lia.
Qed.
Lemma at_depth_size g d : grows_size g → grows_size (at_depth g d).
Proof.
  intros Hg. induction d as [|d IH]; [done|]. intros c [|[k c1] fs] c' fs'; cbn; [done|].
  destruct (at_depth g d c1 fs) as [[c2 fs2]|] eqn:E; [|done]. intros [= <- <-]. apply IH in E.
  cbn [layout]. autorewrite with bytesdb in *. lia.
Qed.
Lemma step_size x c fs c' fs' : step x (c, fs) = Some (c', fs') → zlen (c ++ layout fs) ≤ zlen (c' ++ layout fs').
Proof.
  destruct x; cbn; apply at_depth_size; try apply step_append_size;
    intros c0 fs0 c1 fs1; unfold step_append_u; case_decide; by try apply step_append_size.
Qed.
Lemma steps_size xs c fs c' fs' : steps xs (c, fs) = Some (c', fs') → zlen (c ++ layout fs) ≤ zlen (c' ++ layout fs').
Proof.
  revert c fs. induction xs as [|x xs IH]; intros c fs; cbn [steps]; [by intros [= <- <-]|].
  destruct (step x (c, fs)) as [[c1 fs1]|] eqn:E; [|done]. intros H1%IH.
  apply step_size in E. lia.
Qed.

(** [exec_all] returns exactly when the contract defines a result and there is room for
    it, and then the store represents that result. *)
Lemma exec_all_spec xs : Forall cmd_ok xs → ∀ s st, builds s st →
  match exec_all xs s with
  | (Some _, s') => ∃ st', steps xs st = Some st' ∧ builds s' st' ∧ grows s s'
  | (None, _) => ∀ c' fs', steps xs st = Some (c', fs') → ¬ room s (zlen (c' ++ layout fs'))
  end.
Proof.
  induction 1 as [|x xs Hx Hxs IH]; intros s [c fs] Hb; cbn [exec_all steps].
  { cbn. exists (c, fs). split_and!; [done|done|reflexivity]. }
  unfold mbind at 1, st_bind. destruct (decide (depth x ≤ length fs)%nat) as [Hd|Hd].
  - pose proof (exec_op_spec x Hx s 0 0 false false [] c fs Hb Hd) as Hr. unfold runs in Hr.
    destruct (exec x s) as [[[]|] s1].
    + destruct Hr as (Hg & c1 & fs1 & -> & Hf & _). specialize (IH s1 (c1, fs1) Hf).
      cbn [mbind option_bind]. destruct (exec_all xs s1) as [[[]|] s2].
      * destruct IH as (st' & -> & ? & ?). exists st'. split_and!; [done|done|by etrans].
      * intros c' fs' Hs Hroom. eapply IH; [done|]. by eapply room_grows.
    + destruct Hr as (_ & _ & Hn). intros c' fs' Hs Hroom. apply Hn.
      destruct (step x (c, fs)) as [[c1 fs1]|]; [|done]. exists c1, fs1. split; [done|].
      eapply room_grows; [reflexivity| |exact Hroom]. cbn in Hs. apply steps_size in Hs. rewrite zlen_nil. lia.
  - destruct (exec_too_deep s (c, fs) x Hb) as [-> Hn]; [cbn; lia|].
    destruct (exec x s) as [[?|] s1]; [done|]. by cbn.
Qed.

(** ** Whole runs: initialise, execute, finish *)

Definition empty_store : store := {| buffer := None; cbbs := ∅ |}.
Definition build (xs : list cmd) (initial_capacity : Z) : CBB_M (bytes * Z) :=
  CBB_init 0%nat initial_capacity;; exec_all xs;; CBB_finish 0%nat false false.
Definition build_fixed (xs : list cmd) (b : bytes) : CBB_M (bytes * Z) :=
  CBB_init_fixed 0%nat b (zlen b);; exec_all xs;; CBB_finish 0%nat false false.
(** What the contract says the output is. *)
Definition result (xs : list cmd) : option bytes :=
  st ← steps xs ([], []); close st.1 st.2.

Definition store0 (b : bytes) (c : Z) (r : bool) : store :=
  {| buffer := Some (Build_cbb_buffer b 0 c r false);
     cbbs := <[0%nat := Build_cbb true None 0 0 false false]> (<[0%nat := cbb_zero]> ∅) |}.

Lemma builds_store0 b r : zlen b < 2 ^ 64 → builds (store0 b (zlen b) r) ([], []).
Proof.
  intros Hb. split_and!; try done.
  - eexists _, b. split_and!; done.
  - intros q Hq. cbn in Hq. unfold get_cbb. cbn. by rewrite !lookup_insert_ne by lia.
Qed.

Lemma init_spec c : CBB_init 0%nat c empty_store =
  (if negb ((0 <? c) && negb (malloc_ok c)) && malloc_ok sizeof_cbb_buffer_st
   then (Some tt, store0 (fresh_bytes 0 (Z.to_nat c)) c true)
   else (None, {| buffer := None; cbbs := <[0%nat := cbb_zero]> ∅ |})).
Proof.
  unfold CBB_init, cbb_init, CBB_zero, st_assert, st_modify, st_get, mbind, st_bind. cbv beta iota.
  destruct (negb ((0 <? c) && negb (malloc_ok c))); [|done].
  destruct (malloc_ok sizeof_cbb_buffer_st); done.
Qed.
Lemma init_fixed_spec b : CBB_init_fixed 0%nat b (zlen b) empty_store =
  (if malloc_ok sizeof_cbb_buffer_st then (Some tt, store0 b (zlen b) false)
   else (None, {| buffer := None; cbbs := <[0%nat := cbb_zero]> ∅ |})).
Proof.
  unfold CBB_init_fixed, cbb_init, CBB_zero, st_assert, st_modify, st_get, mbind, st_bind. cbv beta iota.
  destruct (malloc_ok sizeof_cbb_buffer_st); done.
Qed.

Lemma finish_spec s c fs : builds s (c, fs) →
  match CBB_finish 0%nat false false s with
  | (Some (data, len), _) => ∃ out b, close c fs = Some out ∧ len = zlen out ∧
      take (length out) data = out ∧ zlen out ≤ zlen data ∧
      buffer s = Some b ∧ (can_resize b = false → zlen data = cap b)
  | (None, _) => ∀ out, close c fs = Some out → ¬ room s (zlen out)
  end.
Proof.
  intros Hb. pose proof Hb as (Hch & (b & t & Hbuf & _) & _). cbn in Hch.
  pose proof (chain_get _ _ _ _ _ _ _ _ _ Hch) as Hp. unfold CBB_finish.
  pose proof (flush_op s 0 0 0 false false [] c fs Hb) as Hf. unfold runs in Hf.
  unfold st_get, st_assert, mbind, st_bind. cbv beta iota. rewrite Hp. cbn [is_child negb].
  destruct (CBB_flush 0%nat s) as [[[]|] s1].
  - destruct Hf as (Hg & out & He & (_ & (b1 & t1 & Hb1 & Hd & Hl & Hcap & _) & _) & _).
    cbn [app layout] in Hd, Hl, Hcap. rewrite app_nil_r in Hd, Hl, Hcap.
    rewrite Hb1, andb_false_r. cbn [negb].
    assert (∃ s2, CBB_cleanup 0%nat s1 = (Some tt, s2)) as [s2 ->] by (unfold CBB_cleanup; destruct (is_child _); eauto).
    unfold mret, st_ret. exists out, b. split_and!; try done.
    + by rewrite Hd, take_app_length.
    + rewrite Hd, zlen_app. pose proof (zlen_nonneg t1). lia.
    + intros Hr. destruct (Hg b Hbuf) as (b' & Hb' & Hcap' & _). rewrite Hb1 in Hb'. injection Hb' as <-.
      rewrite Hd, <- Hcap. destruct Hcap' as [|[? _]]; congruence.
  - destruct Hf as (_ & _ & Hn). intros out He Hr. apply Hn. by exists out.
Qed.

Lemma room_store0 b c r n : room (store0 b c r) n ↔
  n ≤ c ∨ (r = true ∧ n < 2 ^ 64 ∧ ∀ m, malloc_ok m = true).
Proof. split; [by intros (? & [= <-] & ?)|]. intros. eexists. by split. Qed.

(** Everything after the initialisation. *)
Lemma run_store0 xs b r : Forall cmd_ok xs → zlen b < 2 ^ 64 →
  match (exec_all xs;; CBB_finish 0%nat false false) (store0 b (zlen b) r) with
  | (Some (data, len), _) => ∃ out, result xs = Some out ∧ len = zlen out ∧
      take (length out) data = out ∧ zlen out ≤ zlen data ∧ (r = false → zlen data = zlen b)
  | (None, _) => ∀ out, result xs = Some out → ¬ room (store0 b (zlen b) r) (zlen out)
  end.
Proof.
  intros Hxs Hb. pose proof (exec_all_spec xs Hxs _ _ (builds_store0 b r Hb)) as Hx.
  unfold mbind, st_bind, result. destruct (exec_all xs _) as [[[]|] s1].
  - destruct Hx as ([c fs] & -> & Hs1 & Hg). pose proof (finish_spec s1 c fs Hs1) as Hf.
    cbn [mbind option_bind fst snd]. destruct (CBB_finish _ _ _ s1) as [[[data len]|] s2].
    + destruct Hf as (out & b1 & Hc & Hl & Ht & Hle & Hb1 & Hfix). exists out. split_and!; try done.
      intros ->. destruct (Hg _ eq_refl) as (b' & Hb' & Hcap & Hres). rewrite Hb1 in Hb'. injection Hb' as <-.
      rewrite Hfix by done. cbn in Hcap. by destruct Hcap as [|[? _]].
    + intros out Ho Hr. apply (Hf out Ho). by eapply room_grows.
  - intros out Ho Hr. destruct (steps xs _) as [[c fs]|]; [|done]. apply (Hx c fs); [done|].
    eapply room_grows; [reflexivity| |exact Hr]. by apply close_size.
Qed.

(** A routine that appends [bs] to a fresh builder, followed by [CBB_finish]. *)
Lemma run_writer_to {A} (m : CBB_M A) a bs c : extends_to m 0 bs a → is_u64 c →
  match (x ← m; r ← CBB_finish 0%nat false false; mret (x, r)) (store0 (fresh_bytes 0 (Z.to_nat c)) c true) with
  | (Some (x, (data, len)), _) => x = a ∧ len = zlen bs ∧ take (length bs) data = bs
  | (None, _) => ¬ ((∀ n, malloc_ok n = true) ∧ zlen bs < 2 ^ 64)
  end.
Proof.
  intros Hm Hc. set (b := fresh_bytes 0 (Z.to_nat c)).
  assert (zlen b = c) as Hb by (unfold zlen, b; rewrite length_fresh_bytes; word_lia).
  rewrite <- Hb. pose proof (Hm _ _ _ _ _ _ _ (builds_store0 b true ltac:(rewrite Hb; apply Hc))) as Hr.
  cbn [fst app] in Hr. rewrite zlen_nil, Z.add_0_l in Hr.
  unfold runs in Hr. unfold mbind, st_bind. destruct (m _) as [[x|] s1].
  - destruct Hr as [Hg [[Hs1 _] ->]]. pose proof (finish_spec s1 bs [] Hs1) as Hf.
    destruct (CBB_finish _ _ _ s1) as [[[data len]|] s2].
    + by destruct Hf as (out & ? & [= <-] & -> & Ht & _).
    + intros [Hok Hl]. apply (Hf bs eq_refl). eapply room_grows; [exact Hg|reflexivity|].
      apply room_store0. auto.
  - destruct Hr as (_ & _ & Hn). intros [Hok Hl]. apply Hn, room_store0. auto.
Qed.
Lemma run_writer (m : CBB_M unit) bs c : extends m 0 bs → is_u64 c →
  match (m;; CBB_finish 0%nat false false) (store0 (fresh_bytes 0 (Z.to_nat c)) c true) with
  | (Some (data, len), _) => len = zlen bs ∧ take (length bs) data = bs
  | (None, _) => ¬ ((∀ n, malloc_ok n = true) ∧ zlen bs < 2 ^ 64)
  end.
Proof.
  intros Hm Hc. pose proof (run_writer_to m tt bs c Hm Hc) as Hr. unfold mbind, st_bind in *.
  destruct (m _) as [[[]|] s1]; [|done]. destruct (CBB_finish _ _ _ s1) as [[[data len]|] s2]; [|done].
  by destruct Hr as [_ Hr].
Qed.

Lemma take_zlen (out data : bytes) : take (length out) data = out → take (Z.to_nat (zlen out)) data = out.
Proof. by rewrite to_nat_zlen. Qed.
End Builder.
Abbreviation extends m p bs := (extends_to m p bs tt).

Lemma CBB_build_sound `{Allocator} xs initial_capacity data len s :
  Forall cmd_ok xs → is_u64 initial_capacity →
  build xs initial_capacity empty_store = (Some (data, len), s) →
  ∃ out, result xs = Some out ∧ len = zlen out ∧ take (Z.to_nat len) data = out.
Proof.
  intros Hxs Hc Hrun. unfold build in Hrun. set (b := fresh_bytes 0 (Z.to_nat initial_capacity)).
  assert (zlen b = initial_capacity) as Hb by (unfold zlen, b; rewrite length_fresh_bytes; word_lia).
  pose proof (run_store0 xs b true Hxs ltac:(rewrite Hb; apply Hc)) as Hr. rewrite Hb in Hr.
  pose proof (init_spec initial_capacity) as Hi. fold b in Hi.
  destruct (_ && _) in Hi; [|by rewrite (bind_none _ _ _ _ Hi) in Hrun].
  rewrite (bind_some _ _ _ _ _ Hi) in Hrun. rewrite Hrun in Hr.
  destruct Hr as (out & ? & -> & ? & _). exists out. eauto using take_zlen.
Qed.
Lemma CBB_build_complete `{Allocator} xs initial_capacity out :
  Forall cmd_ok xs → is_u64 initial_capacity →
  result xs = Some out → zlen out < 2 ^ 64 → (∀ m, malloc_ok m = true) →
  ∃ data s, build xs initial_capacity empty_store = (Some (data, zlen out), s) ∧
    take (Z.to_nat (zlen out)) data = out.
Proof.
  intros Hxs Hc Ho Hl Hm. unfold build. set (b := fresh_bytes 0 (Z.to_nat initial_capacity)).
  assert (zlen b = initial_capacity) as Hb by (unfold zlen, b; rewrite length_fresh_bytes; word_lia).
  pose proof (run_store0 xs b true Hxs ltac:(rewrite Hb; apply Hc)) as Hr. rewrite Hb in Hr.
  pose proof (init_spec initial_capacity) as Hi. fold b in Hi.
  rewrite !Hm, andb_false_r in Hi. cbn [negb andb] in Hi. rewrite (bind_some _ _ _ _ _ Hi).
  destruct ((exec_all xs;; _) _) as [[[data len]|] s].
  - destruct Hr as (out' & Ho' & -> & ? & _). rewrite Ho in Ho'. injection Ho' as <-. eauto using take_zlen.
  - destruct (Hr out Ho). apply room_store0. auto.
Qed.

(** C8: The builder implements its contract.  For every allocator and every sequence of
    [CBB_add_bytes], [CBB_add_asn1], [CBB_add_u{8,16,24}_length_prefixed] and [CBB_flush] calls
    on the objects of one tree, if [CBB_init], the calls and [CBB_finish] return 1 then the bytes
    handed over are what the contract defines: every length prefix is patched and every DER
    length is widened to its minimal form.  Conversely, when the contract defines a result shorter
    than 2^64 bytes and no allocation fails, the whole run returns 1. *)
Theorem CBB_build_exact `{Allocator} xs initial_capacity : Forall cmd_ok xs → is_u64 initial_capacity →
  (∀ data len s, build xs initial_capacity empty_store = (Some (data, len), s) →
     ∃ out, result xs = Some out ∧ len = zlen out ∧ take (Z.to_nat len) data = out) ∧
  (∀ out, result xs = Some out → zlen out < 2 ^ 64 → (∀ m, malloc_ok m = true) →
     ∃ data s, build xs initial_capacity empty_store = (Some (data, zlen out), s)).
Proof.
  intros Hxs Hc. split.
  - intros data len s. by apply CBB_build_sound.
  - intros out Ho Hl Hm.
    destruct (CBB_build_complete xs initial_capacity out) as (data & s & ? & _); eauto.
Qed.

(** C9: Over a caller's fixed array [b] the same run returns 1 exactly when the contract's
    result exists and fits the array; it then occupies the front of the array, and nothing past
    the array's end is ever written. *)
Theorem CBB_build_fixed_exact `{Allocator} xs b : Forall cmd_ok xs → zlen b < 2 ^ 64 →
  malloc_ok sizeof_cbb_buffer_st = true →
  match build_fixed xs b empty_store with
  | (Some (data, len), _) => ∃ out, result xs = Some out ∧ len = zlen out ∧
      zlen out ≤ zlen b ∧ zlen data = zlen b ∧ take (Z.to_nat len) data = out
  | (None, _) => ∀ out, result xs = Some out → zlen b < zlen out
  end.
Proof.
  intros Hxs Hb Hm. unfold build_fixed. pose proof (run_store0 xs b false Hxs Hb) as Hr.
  pose proof (init_fixed_spec b) as Hi. rewrite Hm in Hi. rewrite (bind_some _ _ _ _ _ Hi).
  destruct ((exec_all xs;; _) _) as [[[dat l]|] s].
  - destruct Hr as (out & ? & -> & ? & ? & Hd). exists out. specialize (Hd eq_refl).
    split_and!; auto using take_zlen. lia.
  - intros out Ho. apply Z.nle_gt. intros Hle. apply (Hr out Ho), room_store0. by left.
Qed.

(** ** Instances *)

Definition demo_allocator : Allocator := {| malloc_ok := λ _, true; junk := λ _, 0 |}.
Definition demo : list cmd :=
  [AddAsn1 0 CBS_ASN1_SEQUENCE; AddInt64 1 (-129); AddBool 1 true; AddLen 0 2; AddBytes 1 [1; 2; 3];
   AddOctetString 0 (replicate 130 7)].
Definition demo_out : bytes :=
  [0x30; 7; 2; 2; 0xff; 0x7f; 1; 1; 0xff; 0; 3; 1; 2; 3; 4; 0x81; 130] ++ replicate 130 7.

Lemma demo_ok : Forall cmd_ok demo.
Proof. repeat constructor; done. Qed.

Lemma CBB_build_exact_witness :
  ∃ data s, @build demo_allocator demo 4 empty_store = (Some (data, zlen demo_out), s).
Proof.
  destruct (@CBB_build_exact demo_allocator demo 4 demo_ok) as [_ Hc]; [done|].
  apply Hc; [by vm_compute|done|done].
Defined.
Lemma CBB_build_fixed_exact_witness :
  match @build_fixed demo_allocator demo (replicate 200 9) empty_store with
  | (Some (data, len), _) => ∃ out, result demo = Some out ∧ len = zlen out ∧
      zlen out ≤ 200 ∧ zlen data = 200 ∧ take (Z.to_nat len) data = out
  | (None, _) => ∀ out, result demo = Some out → 200 < zlen out
  end.
Proof. exact (@CBB_build_fixed_exact demo_allocator demo (replicate 200 9) demo_ok eq_refl eq_refl). Defined.
