(* ===== verification/DerTree.v ===== *)
(** * Writing a tree of elements and reading it back

    [Builder] is stated for arbitrary call sequences; this file derives what a client wants
    to know: the calls that write a nested element produce its DER encoding, and the reader
    of [Cbs] recovers what was written. *)
From S2P Require Export Builder.

Inductive tlv := Prim (tag : Z) (contents : bytes) | Node (tag : Z) (kids : list tlv).

Fixpoint tlv_contents (t : tlv) : bytes :=
  match t with
  | Prim _ c => c
  | Node _ kids => concat (map (λ k, match k with
      | Prim tag _ | Node tag _ => der tag (tlv_contents k) end) kids)
  end.
Definition tlv_tag (t : tlv) : Z := match t with Prim tag _ | Node tag _ => tag end.
Definition tlv_der (t : tlv) : bytes := der (tlv_tag t) (tlv_contents t).

(** The calls that write [t] at depth [d]. *)
Fixpoint tlv_cmds (d : nat) (t : tlv) : list cmd :=
  match t with
  | Prim tag c => [AddAsn1 d tag; AddBytes (S d) c]
  | Node tag kids => AddAsn1 d tag :: concat (map (tlv_cmds (S d)) kids)
  end.

Inductive tlv_ok : tlv → Prop :=
  | prim_ok tag c : is_u32 tag → bytes_ok c → zlen c ≤ 0xfffffffe → tlv_ok (Prim tag c)
  | node_ok tag kids : is_u32 tag → Forall tlv_ok kids →
      zlen (tlv_contents (Node tag kids)) ≤ 0xfffffffe → tlv_ok (Node tag kids).

Lemma tlv_contents_node tag kids : tlv_contents (Node tag kids) = concat (map tlv_der kids).
Proof. cbn. f_equal. apply map_ext. by intros []. Qed.

Lemma tlv_ok_len t : tlv_ok t → is_u32 (tlv_tag t) ∧ zlen (tlv_contents t) ≤ 0xfffffffe.
Proof. by destruct 1. Qed.

(** Induction with a hypothesis for every kid. *)
Lemma tlv_ok_ind' (P : tlv → Prop) :
  (∀ tag c, is_u32 tag → bytes_ok c → zlen c ≤ 0xfffffffe → P (Prim tag c)) →
  (∀ tag kids, is_u32 tag → Forall P kids → zlen (concat (map tlv_der kids)) ≤ 0xfffffffe → P (Node tag kids)) →
  ∀ t, tlv_ok t → P t.
Proof.
  intros Hp Hn. fix IH 2. intros t [tag c|tag kids Ht Hk Hl]; [by apply Hp|].
  apply Hn; [done| |by rewrite <- (tlv_contents_node tag)].
  clear Hl. induction Hk as [|k kids Hk' _ IHk]; constructor; [by apply IH|exact IHk].
Qed.

(** ** Composing steps at one depth *)

Definition then_ (g1 g2 : bytes → frames → option (bytes * frames)) c fs :=
  r ← g1 c fs; g2 r.1 r.2.

Lemma at_depth_then g1 g2 d : ∀ c fs, then_ (at_depth g1 d) (at_depth g2 d) c fs = at_depth (then_ g1 g2) d c fs.
Proof.
  unfold then_. induction d as [|d IH]; [done|]. intros c [|[k c1] fs]; cbn; [done|].
  rewrite <- IH. destruct (at_depth g1 d c1 fs) as [[c2 fs2]|]; [|done]. cbn.
  by destruct (at_depth g2 d c2 fs2).
Qed.
Lemma at_depth_ext g1 g2 d : (∀ c fs, g1 c fs = g2 c fs) → ∀ c fs, at_depth g1 d c fs = at_depth g2 d c fs.
Proof.
  intros Hg. induction d as [|d IH]; intros c [|[k c1] fs]; cbn; try done. by rewrite IH.
Qed.
Lemma at_depth_succ g d : ∀ c fs, at_depth g (S d) c fs = at_depth (at_depth g 1) d c fs.
Proof.
  induction d as [|d IH]; [done|]. intros c [|[k c1] fs]; [done|].
  change (at_depth g (S (S d)) c ((k, c1) :: fs)) with
    (r ← at_depth g (S d) c1 fs; Some (c, (k, r.1) :: r.2)). by rewrite IH.
Qed.

Lemma append_append a b c fs :
  then_ (step_append a None) (step_append b None) c fs = step_append (a ++ b) None c fs.
Proof. unfold then_, step_append. destruct (close c fs); [|done]. cbn. by rewrite app_assoc. Qed.

Lemma append_element tag d c fs : zlen d ≤ 0xfffffffe →
  then_ (then_ (step_append (der_tag tag) (Some KAsn1)) (at_depth (step_append d None) 1))
    (step_append [] None) c fs = step_append (der tag d) None c fs.
Proof.
  intros Hd. unfold then_, step_append. destruct (close c fs) as [e|]; [|done].
  cbn [mbind option_bind at_depth fst snd close app]. rewrite der_encode by done. cbn.
  unfold der, der_header. by rewrite app_nil_r, <- !app_assoc.
Qed.

Definition sbind (g : bytes → frames → option (bytes * frames)) (st : bytes * frames) := g st.1 st.2.

Lemma steps_app xs ys st : steps (xs ++ ys) st = (st' ← steps xs st; steps ys st').
Proof. revert st. induction xs as [|x xs IH]; intros st; [done|]. cbn. destruct (step x st); [apply IH|done]. Qed.

(** Doing [xs] and then flushing depth [d] has the effect of appending [bs] there. *)
Definition writes (xs : list cmd) (d : nat) (bs : bytes) : Prop :=
  ∀ st r, step (AddBytes d bs) st = Some r → ∃ st', steps xs st = Some st' ∧ step (Flush d) st' = Some r.

Lemma writes_nil d : writes [] d [].
Proof. intros st r H. by exists st. Qed.

Lemma writes_app xs ys d a b : writes xs d a → writes ys d b → writes (xs ++ ys) d (a ++ b).
Proof.
  intros Hx Hy st r Hs. cbn in Hs.
  rewrite (at_depth_ext _ _ _ (λ c fs, eq_sym (append_append a b c fs))), <- at_depth_then in Hs.
  unfold then_ in Hs. destruct (at_depth (step_append a None) d st.1 st.2) as [r1|] eqn:H1; [|done].
  destruct (Hx st r1 H1) as (st1 & Hs1 & Hf1). cbn in Hs.
  assert (step (AddBytes d b) st1 = Some r) as Hb.
  { cbn in Hf1 |- *. rewrite (at_depth_ext _ _ _ (λ c fs, eq_sym (append_append [] b c fs))), <- at_depth_then.
    unfold then_. by rewrite Hf1. }
  destruct (Hy st1 r Hb) as (st2 & Hs2 & Hf2). exists st2. rewrite steps_app, Hs1. by split.
Qed.

Lemma writes_concat {A} (cmds : A → list cmd) (out : A → bytes) d l :
  Forall (λ x, writes (cmds x) d (out x)) l → writes (concat (map cmds l)) d (concat (map out l)).
Proof. induction 1; cbn; [apply writes_nil|by apply writes_app]. Qed.

Lemma writes_element tag d xs k : zlen k ≤ 0xfffffffe → writes xs (S d) k →
  writes (AddAsn1 d tag :: xs) d (der tag k).
Proof.
  intros Hk Hx st r Hs. cbn [step] in Hs.
  rewrite (at_depth_ext _ _ _ (λ c fs, eq_sym (append_element tag k c fs Hk))), <- at_depth_then in Hs.
  unfold then_ at 1 in Hs. rewrite <- at_depth_then in Hs. unfold then_ in Hs.
  cbn [steps step]. destruct (at_depth (step_append (der_tag tag) _) d st.1 st.2) as [r1|]; [|done].
  cbn [mbind option_bind] in *. rewrite <- at_depth_succ in Hs.
  destruct (at_depth (step_append k None) (S d) r1.1 r1.2) as [r2|] eqn:H2; [|done].
  destruct (Hx r1 r2 H2) as (st2 & Hs2 & Hf2). exists st2. split; [done|].
  cbn [mbind option_bind] in Hs. cbn [step] in Hf2 |- *.
  assert (∀ c fs, then_ (at_depth (step_append [] None) 1) (step_append [] None) c fs =
    step_append [] None c fs ∨ fs = []) as Hff.
  { intros c [|[k1 c1] fs]; [by right|left]. unfold then_, step_append. cbn.
    destruct (close c1 fs) as [e|]; [|done]. cbn. by rewrite app_nil_r. }
  rewrite at_depth_succ in Hf2. rewrite <- Hs. clear -Hf2 Hff.
  revert Hf2. generalize st2.1, st2.2. intros c fs. clear st2. revert c fs r2.
  induction d as [|d IH]; intros c fs r2 Hf2.
  - cbn [at_depth] in *. destruct (Hff c fs) as [<- | ->]; [|done]. unfold then_. 
    cbn [at_depth] in *. by rewrite Hf2.
  - destruct fs as [|[k1 c1] fs]; [done|]. cbn [at_depth] in Hf2 |- *.
    destruct (at_depth _ d c1 fs) as [r3|] eqn:H3; [|done]. injection Hf2 as <-.
    cbn. by rewrite (IH _ _ _ H3).
Qed.

Lemma tlv_writes t : tlv_ok t → ∀ d, writes (tlv_cmds d t) d (tlv_der t).
Proof.
  revert t. apply (tlv_ok_ind' (λ t, ∀ d, writes (tlv_cmds d t) d (tlv_der t))).
  - intros tag c Ht Hc Hl d. apply writes_element; [done|]. intros st r Hs. exists r.
    cbn [steps tlv_contents] in *. rewrite Hs. split; [done|]. cbn [step] in Hs |- *.
    assert (then_ (at_depth (step_append c None) (S d)) (at_depth (step_append [] None) (S d)) st.1 st.2 = Some r) as Hr.
    { rewrite at_depth_then, (at_depth_ext _ _ _ (append_append c [])). by rewrite app_nil_r. }
    unfold then_ in Hr. by rewrite Hs in Hr.
  - intros tag kids Ht Hk Hl d. unfold tlv_der. rewrite tlv_contents_node. cbn [tlv_tag tlv_cmds].
    apply writes_element; [done|]. apply writes_concat. eapply Forall_impl; [exact Hk|]. cbn. auto.
Qed.

Lemma tlv_cmds_ok t : tlv_ok t → ∀ d, Forall cmd_ok (tlv_cmds d t).
Proof.
  revert t. apply (tlv_ok_ind' (λ t, ∀ d, Forall cmd_ok (tlv_cmds d t))).
  - intros tag c Ht Hc Hl d. repeat constructor; cbn; try done; try apply Ht. lia.
  - intros tag kids Ht Hk Hl d. constructor; [done|]. clear Hl. induction Hk as [|k kids Hk _ IH]; cbn; [constructor|].
    apply Forall_app. split; [apply Hk|exact IH].
Qed.

(** The contract's result of the calls that write a tree. *)
Lemma result_tlv t : tlv_ok t → result (tlv_cmds 0 t) = Some (tlv_der t).
Proof.
  intros Ht. destruct (tlv_writes t Ht 0%nat ([], []) (tlv_der t, [])) as ([c fs] & Hs & Hf); [done|].
  unfold result. rewrite Hs. cbn in Hf |- *. unfold step_append in Hf.
  destruct (close c fs) as [e|]; [|done]. injection Hf as <-. by rewrite app_nil_r.
Qed.

(** ** Reading a tree back

    A client knows which elements it descends into, and nothing of their tags, contents or
    numbers of bytes. *)
Inductive shape := Leaf | Inner (kids : list shape).
Fixpoint shape_of (t : tlv) : shape :=
  match t with Prim _ _ => Leaf | Node _ kids => Inner (map shape_of kids) end.

(** Read one element with [CBS_get_any_asn1]; in an inner one, read every kid from the contents,
    which must then be used up. *)
Fixpoint read_tlv (sh : shape) : CBS_M tlv :=
  '(contents, tag) ← CBS_get_any_asn1;
  match sh with
  | Leaf => mret (Prim tag contents)
  | Inner kids =>
      r ← st_local ((fix read_kids (l : list shape) : CBS_M (list tlv) :=
        match l with
        | [] => mret []
        | k :: l => x ← read_tlv k; xs ← read_kids l; mret (x :: xs)
        end) kids) contents;
      st_assert (CBS_len r.2 =? 0);;
      mret (Node tag r.1)
  end.
Definition read_kids : list shape → CBS_M (list tlv) :=
  fix read_kids (l : list shape) :=
    match l with
    | [] => mret []
    | k :: l => x ← read_tlv k; xs ← read_kids l; mret (x :: xs)
    end.

Lemma get_any_asn1_complete tag contents rest : is_u32 tag → zlen contents < 2 ^ 32 →
  CBS_get_any_asn1 (der tag contents ++ rest) = (Some (contents, tag), rest).
Proof.
  intros Ht Hl. unfold CBS_get_any_asn1. erewrite bind_some by by apply any_element_complete.
  unfold der_element, el_tag, el_header_len, el_out, st_local, mbind, st_bind.
  rewrite cbs_get_skip. unfold der. by rewrite cbs_get_app.
Qed.

Lemma read_kids_complete kids :
  Forall (λ t, ∀ rest, read_tlv (shape_of t) (tlv_der t ++ rest) = (Some t, rest)) kids →
  ∀ rest, read_kids (map shape_of kids) (concat (map tlv_der kids) ++ rest) = (Some kids, rest).
Proof.
  induction 1 as [|t kids Ht _ IH]; intros rest; [done|]. cbn [map concat read_kids].
  rewrite <- app_assoc. erewrite bind_some by apply Ht. by erewrite bind_some by apply IH.
Qed.

Lemma read_tlv_complete t : tlv_ok t → ∀ rest, read_tlv (shape_of t) (tlv_der t ++ rest) = (Some t, rest).
Proof.
  revert t. apply (tlv_ok_ind' (λ t, ∀ rest, read_tlv (shape_of t) (tlv_der t ++ rest) = (Some t, rest))).
  - intros tag c Ht _ Hl rest. cbn [shape_of read_tlv]. unfold tlv_der. cbn [tlv_tag tlv_contents].
    by erewrite bind_some by (apply get_any_asn1_complete; [done|lia]).
  - intros tag kids Ht Hk Hl rest. cbn [shape_of read_tlv]. unfold tlv_der. rewrite tlv_contents_node.
    cbn [tlv_tag]. erewrite bind_some by (apply get_any_asn1_complete; [done|lia]).
    cbv beta iota. fold read_kids. pose proof (read_kids_complete kids Hk []) as Hr. rewrite app_nil_r in Hr.
    erewrite bind_some; [|unfold st_local; by rewrite Hr]. done.
Qed.

(** C10: Writing a nested element and reading it back.  For every tree of elements whose
    contents are shorter than 2^32 - 1 bytes, when no allocation fails, the [CBB_add_asn1] and
    [CBB_add_bytes] calls that write it succeed and the finished output is its DER encoding.
    Reading that output with [CBS_get_any_asn1], recursively from the contents of the inner
    elements, gives back the whole tree, every tag and every contents, and leaves nothing;
    [CBS_get_asn1] with the tag of the root gives its contents. *)
Theorem CBB_CBS_element_roundtrip `{Allocator} t initial_capacity : tlv_ok t →
  is_u64 initial_capacity → (∀ m, malloc_ok m = true) →
  ∃ data s, build (tlv_cmds 0 t) initial_capacity empty_store = (Some (data, zlen (tlv_der t)), s) ∧
    let out := take (Z.to_nat (zlen (tlv_der t))) data in
    out = tlv_der t ∧ read_tlv (shape_of t) out = (Some t, []) ∧
    CBS_get_asn1 (tlv_tag t) out = (Some (tlv_contents t), []).
Proof.
  intros Ht Hc Hm. destruct (tlv_ok_len t Ht) as [Htag Hlen]. pose proof (zlen_nonneg (tlv_contents t)).
  destruct (CBB_build_complete (tlv_cmds 0 t) initial_capacity (tlv_der t)) as (data & s & Hb & Htake);
    [by apply tlv_cmds_ok|done|by apply result_tlv| |done|].
  { unfold tlv_der, der, der_header. autorewrite with bytesdb. pose proof (zlen_der_tag _ Htag).
    pose proof (zlen_der_length (zlen (tlv_contents t)) ltac:(lia)). lia. }
  exists data, s. cbn zeta. split_and!; [done|done|..]; rewrite Htake, <- (app_nil_r (tlv_der t)).
  - by apply read_tlv_complete.
  - apply get_asn1_complete; [done|lia].
Qed.

Definition demo_tree : tlv :=
  Node CBS_ASN1_SEQUENCE [Prim CBS_ASN1_OCTETSTRING (replicate 200 5); Node 0xa0000021 [Prim 12 [104; 105]]].
Lemma demo_tree_ok : tlv_ok demo_tree.
Proof.
  assert (tlv_ok (Prim CBS_ASN1_OCTETSTRING (replicate 200 5))) by (constructor; [done|by apply Forall_replicate|done]).
  assert (tlv_ok (Prim 12 [104; 105])) by (constructor; [done|by repeat constructor|done]).
  assert (tlv_ok (Node 0xa0000021 [Prim 12 [104; 105]])) by (constructor; [done|by repeat constructor|done]).
  constructor; [done|by repeat constructor|done].
Qed.
Lemma CBB_CBS_element_roundtrip_witness :
  ∃ data s, @build demo_allocator (tlv_cmds 0 demo_tree) 0 empty_store = (Some (data, zlen (tlv_der demo_tree)), s) ∧
    let out := take (Z.to_nat (zlen (tlv_der demo_tree))) data in
    out = tlv_der demo_tree ∧ read_tlv (shape_of demo_tree) out = (Some demo_tree, []) ∧
    CBS_get_asn1 CBS_ASN1_SEQUENCE out = (Some (tlv_contents demo_tree), []).
Proof. apply (@CBB_CBS_element_roundtrip demo_allocator demo_tree 0 demo_tree_ok); done. Defined.
