(* ===== verification/Unicode.v ===== *)
(** * Character encodings ([crypto/bytestring/unicode.c])

    UTF-8, Latin-1, UCS-2 and UTF-32: reading a code point off a [CBS] and appending one to a
    [CBB].  Each encoding is an instance of [Charset], whose laws are what the transcoder of
    [crypto/asn1/a_mbstr.c] relies on. *)
From S2P Require Export Builder.

Definition is_valid_code_point (v : Z) : bool :=
  negb ((0x10ffff <? v) || ((v .& 0xfffe) =? 0xfffe) || ((0xfdd0 <=? v) && (v <=? 0xfdef)) ||
        ((0xd800 <=? v) && (v <=? 0xdfff))).

Definition BOTTOM_BITS (n : Z) : Z := u8 (u32 (Z.shiftl 1 n) - 1).
Definition TOP_BITS (n : Z) : Z := u8 (Z.lnot (BOTTOM_BITS (8 - n))).

(** [for (i = 0; i < len; i++)] of [cbs_get_utf8]. *)
Fixpoint utf8_continuation (len : nat) (v : Z) : CBS_M Z :=
  match len with
  | O => mret v
  | S len =>
      c ← CBS_get_u8;
      st_assert ((c .& TOP_BITS 2) =? TOP_BITS 1);;
      utf8_continuation len ((v <<32 6) .| (c .& BOTTOM_BITS 6))
  end.
Definition cbs_get_utf8 : CBS_M Z :=
  c ← CBS_get_u8;
  if c <=? 0x7f then mret c
  else
    r ← (if (c .& TOP_BITS 3) =? TOP_BITS 2 then mret (c .& BOTTOM_BITS 5, 1%nat, 0x80)
         else if (c .& TOP_BITS 4) =? TOP_BITS 3 then mret (c .& BOTTOM_BITS 4, 2%nat, 0x800)
         else if (c .& TOP_BITS 5) =? TOP_BITS 4 then mret (c .& BOTTOM_BITS 3, 3%nat, 0x10000)
         else st_fail);
    let '(v, len, lower_bound) := r in
    v ← utf8_continuation len v;
    st_assert (negb (negb (is_valid_code_point v) || (v <? lower_bound)));;
    mret v.

Definition cbs_get_latin1 : CBS_M Z := CBS_get_u8.
Definition cbs_get_ucs2_be : CBS_M Z := c ← CBS_get_u16; st_assert (is_valid_code_point c);; mret c.
Definition cbs_get_utf32_be : CBS_M Z := c ← CBS_get_u32; st_assert (is_valid_code_point c);; mret c.

Definition cbb_get_utf8_len (u : Z) : Z :=
  if u <=? 0x7f then 1 else if u <=? 0x7ff then 2 else if u <=? 0xffff then 3 else 4.

Section Encoders.
Context `{Allocator}.

Definition cbb_add_utf8 (p : loc) (u : Z) : CBB_M unit :=
  if negb (is_valid_code_point u) then st_fail
  else if u <=? 0x7f then CBB_add_u8 p (u8 u)
  else if u <=? 0x7ff then
    CBB_add_u8 p (u8 (TOP_BITS 2 .| (u >>> 6)));;
    CBB_add_u8 p (TOP_BITS 1 .| (u .& BOTTOM_BITS 6))
  else if u <=? 0xffff then
    CBB_add_u8 p (u8 (TOP_BITS 3 .| (u >>> 12)));;
    CBB_add_u8 p (TOP_BITS 1 .| ((u >>> 6) .& BOTTOM_BITS 6));;
    CBB_add_u8 p (TOP_BITS 1 .| (u .& BOTTOM_BITS 6))
  else if u <=? 0x10ffff then
    CBB_add_u8 p (u8 (TOP_BITS 4 .| (u >>> 18)));;
    CBB_add_u8 p (TOP_BITS 1 .| ((u >>> 12) .& BOTTOM_BITS 6));;
    CBB_add_u8 p (TOP_BITS 1 .| ((u >>> 6) .& BOTTOM_BITS 6));;
    CBB_add_u8 p (TOP_BITS 1 .| (u .& BOTTOM_BITS 6))
  else st_fail.
Definition cbb_add_latin1 (p : loc) (u : Z) : CBB_M unit :=
  if u <=? 0xff then CBB_add_u8 p (u8 u) else st_fail.
Definition cbb_add_ucs2_be (p : loc) (u : Z) : CBB_M unit :=
  if (u <=? 0xffff) && is_valid_code_point u then CBB_add_u16 p (u16 u) else st_fail.
Definition cbb_add_utf32_be (p : loc) (u : Z) : CBB_M unit :=
  if is_valid_code_point u then CBB_add_u32 p u else st_fail.
End Encoders.

(** ** Specification *)

(** The code points a certificate string may contain: Unicode scalar values that are not
    permanently reserved (Unicode 9.0.0, D9, D14, C1). *)
Definition code_point (u : Z) : Prop :=
  0 ≤ u ≤ 0x10ffff ∧ u mod 0x10000 < 0xfffe ∧ ¬ (0xfdd0 ≤ u ≤ 0xfdef) ∧ ¬ (0xd800 ≤ u ≤ 0xdfff).

Definition utf8 (u : Z) : bytes :=
  if decide (u < 0x80) then [u]
  else if decide (u < 0x800) then [0xc0 + u / 64; 0x80 + u mod 64]
  else if decide (u < 0x10000) then [0xe0 + u / 4096; 0x80 + u / 64 mod 64; 0x80 + u mod 64]
  else [0xf0 + u / 262144; 0x80 + u / 4096 mod 64; 0x80 + u / 64 mod 64; 0x80 + u mod 64].

Lemma land_fffe v : v .& 0xfffe = v mod 65536 - v mod 2.
Proof.
  change 0xfffe with ((2 ^ 15 - 1) * 2 ^ 1 + 0). rewrite land_split by done.
  rewrite Z.land_0_r, land_ones_mod by lia. change (2 ^ 1) with 2. change (2 ^ 15) with 32768. lia.
Qed.
Lemma is_valid_code_point_spec u : 0 ≤ u → is_valid_code_point u = true ↔ code_point u.
Proof. intros Hu. unfold is_valid_code_point, code_point. rewrite land_fffe. lia. Qed.

(** The three bit tests and the masks, as arithmetic on bytes. *)
Lemma lead_bits c : is_u8 c →
  ((c .& TOP_BITS 2) =? TOP_BITS 1) = bool_decide (128 ≤ c < 192) ∧
  ((c .& TOP_BITS 3) =? TOP_BITS 2) = bool_decide (192 ≤ c < 224) ∧
  ((c .& TOP_BITS 4) =? TOP_BITS 3) = bool_decide (224 ≤ c < 240) ∧
  ((c .& TOP_BITS 5) =? TOP_BITS 4) = bool_decide (240 ≤ c < 248).
Proof. intros Hc. byte_crush c Hc. Qed.
Lemma bottom_bits c n : 0 ≤ n ≤ 7 → c .& BOTTOM_BITS n = c mod 2 ^ n.
Proof.
  intros Hn. assert (BOTTOM_BITS n = 2 ^ n - 1) as ->; [|apply land_ones_mod; lia].
  unfold BOTTOM_BITS. rewrite Z.shiftl_1_l. assert (1 ≤ 2 ^ n ≤ 2 ^ 7).
  { split; [pose proof (pow2_pos n); lia|]. apply Z.pow_le_mono_r; lia. }
  change (2 ^ 7) with 128 in *. rewrite !wrap_small; word_lia. rewrite wrap_small; word_lia.
Qed.

(** ** Reading *)

Lemma utf8_continuation_spec len v c w rest : bytes_ok c → 0 ≤ v → (v + 1) * 64 ^ Z.of_nat len ≤ 2 ^ 32 →
  utf8_continuation len v c = (Some w, rest) ↔
  ∃ ds, length ds = len ∧ Forall (λ d, 0 ≤ d < 64) ds ∧ c = map (λ d, 128 + d) ds ++ rest ∧
    w = foldl (λ a d, a * 64 + d) v ds.
Proof.
  revert v c. induction len as [|len IH]; intros v c Hc Hv Hlt.
  { split; [intros [= <- <-]; by exists []|]. by intros ([|] & ? & _ & -> & ->). }
  rewrite Nat2Z.inj_succ, Z.pow_succ_r in Hlt by lia.
  assert (0 < 64 ^ Z.of_nat len) by (apply Z.pow_pos_nonneg; lia). eval_pow2.
  cbn [utf8_continuation]. assert (∀ b, ((v <<32 6) .| (b .& BOTTOM_BITS 6)) = v * 64 + b mod 64) as Hstep.
  { intros b. rewrite bottom_bits by lia. change (2 ^ 6) with 64. rewrite wrap_small.
    - rewrite lor_shiftl_add; [done|lia|]. unfold is_uint. change (2 ^ 6) with 64. lia.
    - rewrite Z.shiftl_mul_pow2 by lia. change (2 ^ 6) with 64. word_lia. }
  split.
  - intros H'. st_inv H'. apply get_u8_inv in E as ->. apply bytes_ok_cons in Hc as [Hb Hc].
    destruct (lead_bits a Hb) as [Hl _]. rewrite Hl in E0. apply bool_decide_eq_true in E0.
    rewrite Hstep in H'. apply IH in H' as (ds & Hlen & Hds & -> & ->); [|done|lia|eval_pow2; nia].
    exists ((a mod 64) :: ds). cbn. split_and!; [lia|constructor; [lia|done]| |done]. f_equal. lia.
  - intros ([|d ds] & Hlen & Hds & -> & ->); [done|]. apply Forall_cons in Hds as [Hd Hds].
    cbn [map app]. rewrite (bind_some _ _ _ _ _ (get_u8_cons _ _)).
    cbn [map app] in Hc. apply bytes_ok_cons in Hc as [Hb Hc].
    destruct (lead_bits (128 + d) Hb) as [-> _]. rewrite bool_decide_eq_true_2 by lia.
    rewrite (bind_some _ _ _ tt (map (λ d, 128 + d) ds ++ rest)) by done. rewrite Hstep.
    apply IH; [done|lia|eval_pow2; nia|]. exists ds. cbn. injection Hlen as Hlen. split_and!; [done|done|done|].
    f_equal. lia.
Qed.

(** The lead byte decides the length, and the decoded value decides the lead byte. *)
Lemma utf8_lead v ds : Forall (λ d, 0 ≤ d < 64) ds →
  let w := foldl (λ a d, a * 64 + d) v ds in
  match ds with
  | [_] => 0 ≤ v < 32 → 0x80 ≤ w → utf8 w = (192 + v) :: map (λ d, 128 + d) ds
  | [_; _] => 0 ≤ v < 16 → 0x800 ≤ w → utf8 w = (224 + v) :: map (λ d, 128 + d) ds
  | [_; _; _] => 0 ≤ v < 8 → 0x10000 ≤ w → utf8 w = (240 + v) :: map (λ d, 128 + d) ds
  | _ => True
  end.
Proof.
  intros Hds. destruct ds as [|d1 [|d2 [|d3 [|]]]]; try done; rewrite !Forall_cons in Hds;
    cbn [foldl map]; intros Hv Hw; unfold utf8;
    repeat (rewrite decide_False by lia); try (rewrite decide_True by lia).
  - repeat (apply (f_equal2 cons); [lia|]). done.
  - repeat (apply (f_equal2 cons); [lia|]). done.
  - repeat (apply (f_equal2 cons); [lia|]). done.
Qed.

Lemma utf8_digits u : 0x80 ≤ u ≤ 0x10ffff → ∃ v ds, Forall (λ d, 0 ≤ d < 64) ds ∧
  u = foldl (λ a d, a * 64 + d) v ds ∧
  match ds with
  | [_] => 0 ≤ v < 32 ∧ 0x80 ≤ u < 0x800
  | [_; _] => 0 ≤ v < 16 ∧ 0x800 ≤ u < 0x10000
  | [_; _; _] => 0 ≤ v < 8 ∧ 0x10000 ≤ u
  | _ => False
  end.
Proof.
  intros Hu. destruct (decide (u < 0x800)); [|destruct (decide (u < 0x10000))].
  - exists (u / 64), [u mod 64]. repeat constructor; cbn; lia.
  - exists (u / 4096), [u / 64 mod 64; u mod 64]. repeat constructor; cbn; lia.
  - exists (u / 262144), [u / 4096 mod 64; u / 64 mod 64; u mod 64]. repeat constructor; cbn; lia.
Qed.

(** The first byte, the number of continuation bytes and the smallest value of that form. *)
Definition lead_class (c : Z) : option (Z * nat * Z) :=
  if decide (192 ≤ c < 224) then Some (c - 192, 1%nat, 0x80)
  else if decide (224 ≤ c < 240) then Some (c - 224, 2%nat, 0x800)
  else if decide (240 ≤ c < 248) then Some (c - 240, 3%nat, 0x10000)
  else None.

Lemma cbs_get_utf8_eq c rest : is_u8 c → cbs_get_utf8 (c :: rest) =
  (if c <=? 0x7f then (Some c, rest)
   else match lead_class c with
        | None => (None, rest)
        | Some (v, len, lower_bound) =>
            (v ← utf8_continuation len v;
             st_assert (negb (negb (is_valid_code_point v) || (v <? lower_bound)));;
             mret v) rest
        end).
Proof.
  intros Hc. unfold cbs_get_utf8. rewrite (bind_some _ _ _ _ _ (get_u8_cons _ _)).
  destruct (Z.leb_spec c 0x7f); [done|]. destruct (lead_bits c Hc) as (_ & -> & -> & ->).
  rewrite !bottom_bits by lia. unfold lead_class.
  change (2 ^ 5) with 32. change (2 ^ 4) with 16. change (2 ^ 3) with 8. word_bounds.
  destruct (decide (192 ≤ c < 224)) as [?|?]; [rewrite bool_decide_eq_true_2 by done|rewrite bool_decide_eq_false_2 by done].
  { rewrite (bind_some _ _ _ (c mod 32, 1%nat, 0x80) rest) by done. by replace (c mod 32) with (c - 192) by lia. }
  destruct (decide (224 ≤ c < 240)) as [?|?]; [rewrite bool_decide_eq_true_2 by done|rewrite bool_decide_eq_false_2 by done].
  { rewrite (bind_some _ _ _ (c mod 16, 2%nat, 0x800) rest) by done. by replace (c mod 16) with (c - 224) by lia. }
  destruct (decide (240 ≤ c < 248)) as [?|?]; [rewrite bool_decide_eq_true_2 by done|rewrite bool_decide_eq_false_2 by done].
  { rewrite (bind_some _ _ _ (c mod 8, 3%nat, 0x10000) rest) by done. by replace (c mod 8) with (c - 240) by lia. }
  done.
Qed.

Lemma cbs_get_utf8_sound c u rest : bytes_ok c → cbs_get_utf8 c = (Some u, rest) →
  code_point u ∧ c = utf8 u ++ rest.
Proof.
  intros Hok Hget. destruct c as [|c0 c]; [done|]. apply bytes_ok_cons in Hok as [Hc0 Hok].
  rewrite cbs_get_utf8_eq in Hget by done. destruct (Z.leb_spec c0 0x7f) as [Hs|Hs].
  - injection Hget as <- <-. word_bounds. split; [unfold code_point; lia|].
    unfold utf8. by rewrite decide_True by lia.
  - destruct (lead_class c0) as [[[v len] lb]|] eqn:Hl; [|done]. st_inv Hget. subst.
    apply negb_true_iff, orb_false_iff in E0 as [Hv Hlb]. apply negb_false_iff in Hv. apply Z.ltb_ge in Hlb.
    assert (0 ≤ v < 32 ∧ (len ≤ 3)%nat) as [Hvb Hlen] by (unfold lead_class in Hl; repeat case_decide; naive_solver lia).
    assert ((v + 1) * 64 ^ Z.of_nat len ≤ 2 ^ 32).
    { assert (64 ^ Z.of_nat len ≤ 64 ^ 3) by (apply Z.pow_le_mono_r; lia).
      change (64 ^ 3) with 262144 in *. eval_pow2. nia. }
    apply utf8_continuation_spec in E as (ds & Hds & Hd & -> & ->); [|done|lia|done].
    pose proof (utf8_lead v ds Hd) as Hu. cbv zeta in Hu.
    assert (0 ≤ foldl (λ a d, a * 64 + d) v ds) as Hnn.
    { assert (0 < lb) by (unfold lead_class in Hl; repeat case_decide; naive_solver lia). lia. }
    split; [by apply is_valid_code_point_spec|]. rewrite app_comm_cons. f_equal. symmetry.
    unfold lead_class in Hl. repeat case_decide; simplify_eq; destruct ds as [|d1 [|d2 [|d3 [|]]]]; try done;
      rewrite Hu by lia; f_equal; lia.
Qed.

Lemma cbs_get_utf8_complete u rest : bytes_ok rest → code_point u → cbs_get_utf8 (utf8 u ++ rest) = (Some u, rest).
Proof.
  intros Hok Hu. pose proof Hu as (Hr & _). destruct (decide (u < 0x80)) as [Hs|Hs].
  - unfold utf8. rewrite decide_True by done. cbn [app]. rewrite cbs_get_utf8_eq by word_lia.
    by rewrite (proj2 (Z.leb_le u 0x7f)) by lia.
  - destruct (utf8_digits u) as (v & ds & Hd & Heq & Hcls); [lia|].
    pose proof (utf8_lead v ds Hd) as Hlead. cbv zeta in Hlead. rewrite <- Heq in Hlead.
    assert (∃ b lb, is_u8 b ∧ 127 < b ∧ lead_class b = Some (v, length ds, lb) ∧ lb ≤ u ∧ 0 ≤ v < 32 ∧ (length ds ≤ 3)%nat ∧
      utf8 u = b :: map (λ d, 128 + d) ds) as (b & lb & Hb & Hb' & Hl & Hlb & Hv & Hlen & ->).
    { unfold lead_class. destruct ds as [|d1 [|d2 [|d3 [|]]]]; try done; destruct Hcls as [Hv Hu'].
      - exists (192 + v), 0x80. rewrite decide_True by lia.
        split_and!; [word_lia|lia|do 3 f_equal; lia|lia|lia|lia|cbn; lia|apply Hlead; lia].
      - exists (224 + v), 0x800. rewrite decide_False, decide_True by lia.
        split_and!; [word_lia|lia|do 3 f_equal; lia|lia|lia|lia|cbn; lia|apply Hlead; lia].
      - exists (240 + v), 0x10000. rewrite decide_False, decide_False, decide_True by lia.
        split_and!; [word_lia|lia|do 3 f_equal; lia|lia|lia|lia|cbn; lia|apply Hlead; lia]. }
    cbn [app]. rewrite cbs_get_utf8_eq by done. rewrite (proj2 (Z.leb_gt b 0x7f)) by lia. rewrite Hl.
    rewrite (bind_some _ _ _ u rest).
    + rewrite (proj2 (is_valid_code_point_spec u ltac:(lia)) Hu). rewrite (proj2 (Z.ltb_ge u lb)) by lia. done.
    + apply utf8_continuation_spec.
      * apply bytes_ok_app. split; [|done]. unfold bytes_ok. rewrite Forall_map. eapply Forall_impl; [exact Hd|].
        intros d ?. cbn. word_lia.
      * lia.
      * assert (64 ^ Z.of_nat (length ds) ≤ 64 ^ 3) by (apply Z.pow_le_mono_r; lia).
        change (64 ^ 3) with 262144 in *. eval_pow2. nia.
      * by exists ds.
Qed.

(** C11: UTF-8 decoding is exact: [cbs_get_utf8] accepts a prefix exactly when it is the shortest
    form of a valid code point (no surrogate, no reserved non-character, nothing above
    U+10FFFF), and returns that code point. *)
Theorem cbs_get_utf8_exact c u rest : bytes_ok c →
  cbs_get_utf8 c = (Some u, rest) ↔ code_point u ∧ c = utf8 u ++ rest.
Proof.
  intros Hc. split; [by apply cbs_get_utf8_sound|]. intros [Hu ->]. apply bytes_ok_app in Hc as [_ Hr].
  by apply cbs_get_utf8_complete.
Qed.
Lemma cbs_get_utf8_exact_witness : cbs_get_utf8 [0xe2; 0x82; 0xac; 0x41] = (Some 0x20ac, [0x41]).
Proof. apply (cbs_get_utf8_exact [0xe2; 0x82; 0xac; 0x41] 0x20ac [0x41]); [bytes_ok_tac|split; [unfold code_point; lia|done]]. Defined.

Lemma bytes_ok_utf8 u : 0 ≤ u ≤ 0x10ffff → bytes_ok (utf8 u).
Proof. intros Hu. unfold utf8. repeat case_decide; bytes_ok_tac. Qed.
Lemma utf8_len_spec u : cbb_get_utf8_len u = zlen (utf8 u).
Proof.
  unfold cbb_get_utf8_len, utf8. destruct (Z.leb_spec u 0x7f); [by rewrite decide_True by lia|].
  rewrite decide_False by lia. destruct (Z.leb_spec u 0x7ff); [by rewrite decide_True by lia|].
  rewrite decide_False by lia. destruct (Z.leb_spec u 0xffff); [by rewrite decide_True by lia|].
  by rewrite decide_False by lia.
Qed.

(** ** Writing *)

Section Writing.
Context `{Allocator}.

(** [TOP_BITS(k) | v] sets the top [k] bits above a value that fits below them. *)
Lemma top_bits k v : 1 ≤ k ≤ 4 → 0 ≤ v < 2 ^ (8 - k) →
  TOP_BITS k .| v = 256 - 2 ^ (8 - k) + v.
Proof.
  intros Hk Hv. assert (TOP_BITS k = Z.shiftl (2 ^ k - 1) (8 - k)) as ->.
  { assert (k = 1 ∨ k = 2 ∨ k = 3 ∨ k = 4) as [->|[->|[->| ->]]] by lia; by vm_compute. }
  rewrite lor_shiftl_add by (done || lia).
  assert (2 ^ k * 2 ^ (8 - k) = 256) by (rewrite <- Z.pow_add_r by lia; by replace (k + (8 - k)) with 8 by lia). lia.
Qed.
Lemma cont_byte u : 0 ≤ u → TOP_BITS 1 .| (u .& BOTTOM_BITS 6) = 0x80 + u mod 64.
Proof.
  intros Hu. rewrite bottom_bits by lia. change (2 ^ 6) with 64.
  rewrite top_bits; [change (2 ^ (8 - 1)) with 128; lia|lia|change (2 ^ (8 - 1)) with 128; lia].
Qed.

Lemma cbb_add_utf8_appends p u : code_point u → appends (cbb_add_utf8 p u) p (utf8 u).
Proof.
  intros Hu. pose proof Hu as (Hr & _). unfold cbb_add_utf8.
  rewrite (proj2 (is_valid_code_point_spec u ltac:(lia)) Hu). cbn [negb]. unfold utf8.
  destruct (Z.leb_spec u 0x7f).
  { rewrite decide_True by lia. rewrite wrap_small by word_lia. apply appends_add_u8. word_lia. }
  rewrite decide_False by lia. rewrite !shiftr_div by lia. rewrite !cont_byte by lia.
  change (2 ^ 6) with 64. change (2 ^ 12) with 4096. change (2 ^ 18) with 262144.
  assert (∀ k v, 2 ≤ k ≤ 4 → 0 ≤ v < 2 ^ (8 - k) → u8 (TOP_BITS k .| v) = 256 - 2 ^ (8 - k) + v ∧
    is_u8 (256 - 2 ^ (8 - k) + v)) as Hlead.
  { intros k v Hk Hv. rewrite top_bits by lia.
    assert (2 ^ (8 - k) ≤ 2 ^ 6) by (apply Z.pow_le_mono_r; lia). change (2 ^ 6) with 64 in *.
    assert (is_u8 (256 - 2 ^ (8 - k) + v)) by word_lia. by rewrite wrap_small. }
  destruct (Z.leb_spec u 0x7ff).
  { rewrite decide_True by lia. destruct (Hlead 2 (u / 64)) as [-> ?]; [lia|change (2 ^ (8 - 2)) with 64; lia|].
    change (256 - 2 ^ (8 - 2)) with 0xc0 in *. 
    apply (appends_seq p _ _ [_] [_]); apply appends_add_u8; [done|word_lia]. }
  rewrite decide_False by lia. destruct (Z.leb_spec u 0xffff).
  { rewrite decide_True by lia. destruct (Hlead 3 (u / 4096)) as [-> ?]; [lia|change (2 ^ (8 - 3)) with 32; lia|].
    change (256 - 2 ^ (8 - 3)) with 0xe0 in *.
    apply (appends_seq p _ _ [_] [_; _]); [|apply (appends_seq p _ _ [_] [_])]; apply appends_add_u8; done || word_lia. }
  rewrite decide_False by lia. rewrite (proj2 (Z.leb_le u 0x10ffff)) by lia.
  destruct (Hlead 4 (u / 262144)) as [-> ?]; [lia|change (2 ^ (8 - 4)) with 16; lia|].
  change (256 - 2 ^ (8 - 4)) with 0xf0 in *.
  apply (appends_seq p _ _ [_] [_; _; _]); [|apply (appends_seq p _ _ [_] [_; _]); [|apply (appends_seq p _ _ [_] [_])]];
    apply appends_add_u8; done || word_lia.
Qed.

(** ** The interface of an encoding *)

Class Charset := {
  charset_get : CBS_M Z;
  charset_add : loc → Z → CBB_M unit;
  representable : Z → Prop;
  charset_bytes : Z → bytes;
  representable_range u : representable u → 0 ≤ u ≤ 0x10ffff;
  charset_bytes_ok u : representable u → bytes_ok (charset_bytes u) ∧ charset_bytes u ≠ [];
  charset_get_exact c u rest : bytes_ok c →
    charset_get c = (Some u, rest) ↔ representable u ∧ c = charset_bytes u ++ rest;
  charset_add_appends p u : representable u → appends (charset_add p u) p (charset_bytes u)
}.
End Writing.

Section Charsets.
Context `{Allocator}.

Lemma be_bytes_ne n v : (1 ≤ n)%nat → be_bytes n v ≠ [].
Proof. by destruct n; [lia|]. Qed.

Program Definition utf8_charset : Charset := {|
  charset_get := cbs_get_utf8; charset_add := cbb_add_utf8; representable := code_point; charset_bytes := utf8
|}.
Next Obligation. by intros u (? & _). Qed.
Next Obligation.
  intros u (Hu & _). split; [by apply bytes_ok_utf8|]. unfold utf8. by repeat case_decide.
Qed.
Next Obligation. intros c u rest Hc. split; [by apply cbs_get_utf8_sound|].
  intros [Hu ->]. apply bytes_ok_app in Hc as [_ Hr]. by apply cbs_get_utf8_complete.
Qed.
Next Obligation. intros p u. apply cbb_add_utf8_appends. Qed.

Program Definition latin1_charset : Charset := {|
  charset_get := cbs_get_latin1; charset_add := cbb_add_latin1;
  representable := is_u8; charset_bytes := λ u, [u]
|}.
Next Obligation. intros u Hu. word_lia. Qed.
Next Obligation. intros u Hu. split; [bytes_ok_tac|done]. Qed.
Next Obligation.
  intros c u rest Hc. split.
  - intros E. apply get_u8_inv in E as ->. apply bytes_ok_cons in Hc as [? _]. done.
  - intros [_ ->]. apply get_u8_cons.
Qed.
Next Obligation.
  intros p u Hu. unfold cbb_add_latin1. rewrite (proj2 (Z.leb_le u 0xff)) by word_lia.
  rewrite wrap_small by done. by apply appends_add_u8.
Qed.

Program Definition ucs2_charset : Charset := {|
  charset_get := cbs_get_ucs2_be; charset_add := cbb_add_ucs2_be;
  representable := λ u, code_point u ∧ u ≤ 0xffff; charset_bytes := be_bytes 2
|}.
Next Obligation. by intros u [(? & _) _]. Qed.
Next Obligation. intros u _. split; [apply bytes_ok_be_bytes|apply be_bytes_ne; lia]. Qed.
Next Obligation.
  intros c u rest Hc. unfold cbs_get_ucs2_be, CBS_get_u16. split.
  - intros E. st_inv E. apply (cbs_get_u_exact 2) in E1 as [Hv ->]; [|done|lia].
    change (256 ^ Z.of_nat 2) with 65536 in Hv. rewrite wrap_small in * by word_lia.
    split; [|done]. split; [|lia]. apply is_valid_code_point_spec; [lia|done].
  - intros [[Hu Hle] ->]. pose proof Hu as (Hr & _).
    rewrite (bind_some _ _ _ u rest); [|rewrite (bind_some _ _ _ u rest)].
    + rewrite (proj2 (is_valid_code_point_spec u ltac:(lia)) Hu). done.
    + unfold mret, st_ret. by rewrite wrap_small by word_lia.
    + apply (cbs_get_u_bytes 2); [lia|]. change (256 ^ Z.of_nat 2) with 65536. lia.
Qed.
Next Obligation.
  intros p u [Hu Hle]. pose proof Hu as (Hr & _). unfold cbb_add_ucs2_be.
  rewrite (proj2 (Z.leb_le u 0xffff)), (proj2 (is_valid_code_point_spec u ltac:(lia)) Hu) by lia.
  cbn [andb]. rewrite wrap_small by word_lia.
  apply (add_u_small p u 2); [change (256 ^ Z.of_nat 2) with 65536|]; lia.
Qed.

Program Definition utf32_charset : Charset := {|
  charset_get := cbs_get_utf32_be; charset_add := cbb_add_utf32_be;
  representable := code_point; charset_bytes := be_bytes 4
|}.
Next Obligation. by intros u (? & _). Qed.
Next Obligation. intros u _. split; [apply bytes_ok_be_bytes|apply be_bytes_ne; lia]. Qed.
Next Obligation.
  intros c u rest Hc. unfold cbs_get_utf32_be, CBS_get_u32. split.
  - intros E. st_inv E. apply (cbs_get_u_exact 4) in E1 as [Hv ->]; [|done|lia].
    change (256 ^ Z.of_nat 4) with 4294967296 in Hv. rewrite wrap_small in * by word_lia.
    split; [|done]. apply is_valid_code_point_spec; [lia|done].
  - intros [Hu ->]. pose proof Hu as (Hr & _).
    rewrite (bind_some _ _ _ u rest); [|rewrite (bind_some _ _ _ u rest)].
    + rewrite (proj2 (is_valid_code_point_spec u ltac:(lia)) Hu). done.
    + unfold mret, st_ret. by rewrite wrap_small by word_lia.
    + apply (cbs_get_u_bytes 4); [lia|]. change (256 ^ Z.of_nat 4) with 4294967296. lia.
Qed.
Next Obligation.
  intros p u Hu. pose proof Hu as (Hr & _). unfold cbb_add_utf32_be.
  rewrite (proj2 (is_valid_code_point_spec u ltac:(lia)) Hu).
  apply (add_u_small p u 4); [change (256 ^ Z.of_nat 4) with 4294967296|]; lia.
Qed.
End Charsets.
