(* ===== verification/MbString.v ===== *)
(** * Transcoding between ASN.1 string types ([crypto/asn1/a_mbstr.c])

    [ASN1_mbstring_ncopy] decodes its input in one of four encodings, picks the first permitted
    ASN.1 string type that can represent it, and re-encodes it.  The theorems are proved
    against the [Charset] interface of [Unicode]. *)
From S2P Require Export Unicode.

(** ** Constants ([include/openssl/asn1.h]) *)

Definition V_ASN1_UTF8STRING : Z := 12.
Definition V_ASN1_PRINTABLESTRING : Z := 19.
Definition V_ASN1_T61STRING : Z := 20.
Definition V_ASN1_IA5STRING : Z := 22.
Definition V_ASN1_UNIVERSALSTRING : Z := 28.
Definition V_ASN1_BMPSTRING : Z := 30.
Definition B_ASN1_PRINTABLESTRING : Z := 0x0002.
Definition B_ASN1_T61STRING : Z := 0x0004.
Definition B_ASN1_IA5STRING : Z := 0x0010.
Definition B_ASN1_UNIVERSALSTRING : Z := 0x0100.
Definition B_ASN1_BMPSTRING : Z := 0x0800.
Definition B_ASN1_UTF8STRING : Z := 0x2000.
Definition DIRSTRING_TYPE : Z :=
  B_ASN1_PRINTABLESTRING .| B_ASN1_T61STRING .| B_ASN1_BMPSTRING .| B_ASN1_UTF8STRING.
Definition MBSTRING_UTF8 : Z := 0x1000.
Definition MBSTRING_ASC : Z := 0x1001.
Definition MBSTRING_BMP : Z := 0x1002.
Definition MBSTRING_UNIV : Z := 0x1004.

(** The [OPENSSL_PUT_ERROR] reasons. *)
Inductive mb_error :=
  | UNKNOWN_FORMAT | INVALID_BMPSTRING | INVALID_UNIVERSALSTRING | INVALID_UTF8STRING
  | ILLEGAL_CHARACTERS | STRING_TOO_SHORT | STRING_TOO_LONG | MALLOC_FAILURE | INTERNAL_ERROR.

(** [ASN1_STRING]; [sdata] is [None] for a NULL pointer.  [*out] of the caller is NULL, an object,
    or a pointer to an object that has been freed. *)
Record asn1_string := { slength : Z; stype : Z; sdata : option bytes; sflags : Z }.
Inductive string_ptr := NULL | Obj (s : asn1_string) | Dangling.

Definition asn1_is_printable (value : Z) : bool :=
  if 0x7f <? value then false
  else ((97 <=? value) && (value <=? 122)) || ((65 <=? value) && (value <=? 90)) ||
       ((48 <=? value) && (value <=? 57)) || (value =? 32) || (value =? 39) || (value =? 40) ||
       (value =? 41) || (value =? 43) || (value =? 44) || (value =? 45) || (value =? 46) ||
       (value =? 47) || (value =? 58) || (value =? 61) || (value =? 63).

(** [if ((mask & bit) && bad) mask &= ~bit;] *)
Definition drop_bit (bit : Z) (bad : bool) (mask : Z) : Z :=
  if negb (mask .& bit =? 0) && bad then Z.ldiff mask bit else mask.
Definition update_mask (c mask : Z) : Z :=
  let mask := drop_bit B_ASN1_PRINTABLESTRING (negb (asn1_is_printable c)) mask in
  let mask := drop_bit B_ASN1_IA5STRING (127 <? c) mask in
  let mask := drop_bit B_ASN1_T61STRING (0xff <? c) mask in
  drop_bit B_ASN1_BMPSTRING (0xffff <? c) mask.

Section MbString.
Context `{Allocator}.

Definition decoder (inform : Z) : option (CBS_M Z * mb_error) :=
  if inform =? MBSTRING_BMP then Some (cbs_get_ucs2_be, INVALID_BMPSTRING)
  else if inform =? MBSTRING_UNIV then Some (cbs_get_utf32_be, INVALID_UNIVERSALSTRING)
  else if inform =? MBSTRING_UTF8 then Some (cbs_get_utf8, INVALID_UTF8STRING)
  else if inform =? MBSTRING_ASC then Some (cbs_get_latin1, INTERNAL_ERROR)
  else None.

(** The first [while (CBS_len(&cbs) != 0)] loop.  Every round consumes input, so the length of
    the input is enough fuel. *)
Fixpoint scan (fuel : nat) (inform : Z) (decode_func : CBS_M Z) (error : mb_error)
    (mask nchar utf8_len : Z) (cbs : cbs) : mb_error + (Z * Z * Z) :=
  if CBS_len cbs =? 0 then inr (mask, nchar, utf8_len)
  else match fuel with
  | O => inl INTERNAL_ERROR
  | S fuel =>
      match decode_func cbs with
      | (None, _) => inl error
      | (Some c, cbs) =>
          if (nchar =? 0) && ((inform =? MBSTRING_BMP) || (inform =? MBSTRING_UNIV)) && (c =? 0xfeff)
          then inl ILLEGAL_CHARACTERS
          else
            let mask := update_mask c mask in
            if mask =? 0 then inl ILLEGAL_CHARACTERS
            else scan fuel inform decode_func error mask (u64 (nchar + 1)) (u64 (utf8_len + cbb_get_utf8_len c)) cbs
      end
  end.

(** The output type: [(str_type, outform, encode_func, size_estimate)]. *)
Definition choose_output (mask nchar utf8_len : Z) : option (Z * Z * (loc → Z → CBB_M unit) * Z) :=
  if negb (mask .& B_ASN1_PRINTABLESTRING =? 0) then Some (V_ASN1_PRINTABLESTRING, MBSTRING_ASC, cbb_add_latin1, nchar)
  else if negb (mask .& B_ASN1_IA5STRING =? 0) then Some (V_ASN1_IA5STRING, MBSTRING_ASC, cbb_add_latin1, nchar)
  else if negb (mask .& B_ASN1_T61STRING =? 0) then Some (V_ASN1_T61STRING, MBSTRING_ASC, cbb_add_latin1, nchar)
  else if negb (mask .& B_ASN1_BMPSTRING =? 0) then Some (V_ASN1_BMPSTRING, MBSTRING_BMP, cbb_add_ucs2_be, u64 (2 * nchar))
  else if negb (mask .& B_ASN1_UNIVERSALSTRING =? 0) then Some (V_ASN1_UNIVERSALSTRING, MBSTRING_UNIV, cbb_add_utf32_be, u64 (4 * nchar))
  else if negb (mask .& B_ASN1_UTF8STRING =? 0) then Some (V_ASN1_UTF8STRING, MBSTRING_UTF8, cbb_add_utf8, utf8_len)
  else None.

(** The second loop. *)
Fixpoint transcode_loop (fuel : nat) (decode_func : CBS_M Z) (encode_func : loc → Z → CBB_M unit)
    (p : loc) (cbs : cbs) : CBB_M unit :=
  if CBS_len cbs =? 0 then mret tt
  else match fuel with
  | O => st_fail
  | S fuel =>
      match decode_func cbs with
      | (None, _) => st_fail
      | (Some c, cbs) => encode_func p c;; transcode_loop fuel decode_func encode_func p cbs
      end
  end.

(** [sizeof(ASN1_STRING)] on a 64-bit target. *)
Definition sizeof_ASN1_STRING : Z := 24.
Definition ASN1_STRING_type_new (type : Z) : string_ptr :=
  if malloc_ok sizeof_ASN1_STRING then Obj {| slength := 0; stype := type; sdata := None; sflags := 0 |} else NULL.

(** The block keeps what follows the terminator; [data] is [None] for a null pointer and a negative
    [len] stands for the length of the C string. *)
Fixpoint strlen (s : bytes) : Z := match s with [] => 0 | c :: s => if c =? 0 then 0 else 1 + strlen s end.
Definition ASN1_STRING_set (str : asn1_string) (data : option bytes) (len : Z) : bool * asn1_string :=
  match (if len <? 0 then strlen <$> data else Some len) with
  | None => (false, str)
  | Some len =>
      let blk :=
        if (slength str <=? len) || bool_decide (sdata str = None) then
          if malloc_ok (len + 1) then
            let old := take (Z.to_nat (len + 1)) (default [] (sdata str)) in
            Some (old ++ fresh_bytes (length old) (Z.to_nat (len + 1) - length old))
          else None
        else sdata str in
      match blk with
      | None => (false, str)
      | Some b =>
          let b := match data with Some data => write_at 0 (take (Z.to_nat len) data ++ [0]) b | None => b end in
          (true, {| slength := len; stype := stype str; sdata := Some b; sflags := sflags str |})
      end
  end.

(** From [if (!out)] on: [out] is [None] when the caller passes NULL, else the value of [*out]. *)
Definition write_output (out : option string_ptr) (input : bytes) (len inform : Z) (decode_func : CBS_M Z)
    (o : Z * Z * (loc → Z → CBB_M unit) * Z) : (mb_error + Z) * option string_ptr :=
  let '(str_type, outform, encode_func, size_estimate) := o in
  match out with
  | None => (inr str_type, None)
  | Some ptr =>
      let free_out := match ptr with NULL => true | _ => false end in
      let dest := match ptr with
        | NULL => ASN1_STRING_type_new str_type
        | Obj d => Obj (match sdata d with
            | Some _ => {| slength := 0; stype := str_type; sdata := None; sflags := sflags d |}
            | None => {| slength := slength d; stype := str_type; sdata := None; sflags := sflags d |}
            end)
        | Dangling => Dangling
        end in
      match dest with
      | Obj dest =>
          if inform =? outform then
            match ASN1_STRING_set dest (Some input) len with
            | (true, dest) => (inr str_type, Some (Obj dest))
            | (false, dest) => (inl MALLOC_FAILURE, Some (Obj dest))
            end
          else
            let err e := (inl e, Some (if free_out then Dangling else Obj dest)) in
            match CBB_init 0%nat (u64 (size_estimate + 1)) empty_store with
            | (None, _) => err MALLOC_FAILURE
            | (Some _, s) =>
                match (transcode_loop (length input) decode_func encode_func 0%nat (take (Z.to_nat len) input);;
                       CBB_add_u8 0%nat 0;; CBB_finish 0%nat false false) s with
                | (Some (data, data_len), _) =>
                    if (data_len <? 1) || (INT_MAX <? data_len) then err INTERNAL_ERROR
                    else (inr str_type, Some (Obj {| slength := data_len - 1; stype := stype dest;
                                                     sdata := Some data; sflags := sflags dest |}))
                | (None, _) => err INTERNAL_ERROR
                end
            end
      | _ => (inl MALLOC_FAILURE, out)
      end
  end.

Definition ASN1_mbstring_ncopy (out : option string_ptr) (input : bytes) (len inform mask minsize maxsize : Z) :
    (mb_error + Z) * option string_ptr :=
  let len := if len =? -1 then default 0 (memchr input 0) else len in
  let mask := if mask =? 0 then DIRSTRING_TYPE else mask in
  match decoder inform with
  | None => (inl UNKNOWN_FORMAT, out)
  | Some (decode_func, error) =>
      match scan (length input) inform decode_func error mask 0 0 (take (Z.to_nat len) input) with
      | inl e => (inl e, out)
      | inr (mask, nchar, utf8_len) =>
          if (0 <? minsize) && (nchar <? minsize) then (inl STRING_TOO_SHORT, out)
          else if (0 <? maxsize) && (maxsize <? nchar) then (inl STRING_TOO_LONG, out)
          else match choose_output mask nchar utf8_len with
               | None => (inl ILLEGAL_CHARACTERS, out)
               | Some o => write_output out input len inform decode_func o
               end
      end
  end.
Definition ASN1_mbstring_copy (out : option string_ptr) (input : bytes) (len inform mask : Z) :=
  ASN1_mbstring_ncopy out input len inform mask 0 0.

(** ** Specification *)

Definition charset (inform : Z) : option Charset :=
  if inform =? MBSTRING_BMP then Some ucs2_charset
  else if inform =? MBSTRING_UNIV then Some utf32_charset
  else if inform =? MBSTRING_UTF8 then Some utf8_charset
  else if inform =? MBSTRING_ASC then Some latin1_charset
  else None.
Definition encode_all (cs : Charset) (us : list Z) : bytes := concat (map charset_bytes us).

(** The output types in order of preference: the bit of [mask], the type, its encoding and the
    code points it can hold. *)
Definition candidates : list (Z * Z * Z * (Z → bool)) :=
  [(1, V_ASN1_PRINTABLESTRING, MBSTRING_ASC, asn1_is_printable);
   (4, V_ASN1_IA5STRING, MBSTRING_ASC, λ u, u <=? 127);
   (2, V_ASN1_T61STRING, MBSTRING_ASC, λ u, u <=? 0xff);
   (11, V_ASN1_BMPSTRING, MBSTRING_BMP, λ u, u <=? 0xffff);
   (8, V_ASN1_UNIVERSALSTRING, MBSTRING_UNIV, λ _, true);
   (13, V_ASN1_UTF8STRING, MBSTRING_UTF8, λ _, true)].
Fixpoint first_type (mask : Z) (us : list Z) (cands : list (Z * Z * Z * (Z → bool))) : option (Z * Z) :=
  match cands with
  | [] => None
  | (k, t, f, ok) :: cands => if Z.testbit mask k && forallb ok us then Some (t, f) else first_type mask us cands
  end.
Definition bom_ok (inform : Z) (us : list Z) : Prop :=
  (inform = MBSTRING_BMP ∨ inform = MBSTRING_UNIV) → head us ≠ Some 0xfeff.

(** No type is left for a text that starts with [us]: each type that [mask] permits is one that
    cannot hold one of them.  (A bit of [mask] that is no type is never taken back.) *)
Definition no_type_left (mask : Z) (us : list Z) : Prop :=
  ∀ k, Z.testbit mask k = true → ∃ t f ok, (k, t, f, ok) ∈ candidates ∧ forallb ok us = false.

(** [us] are the code points of [input], and they satisfy the caller's bounds. *)
Definition acceptable (inform : Z) (cs : Charset) (input : bytes) (minsize maxsize : Z) (us : list Z) : Prop :=
  Forall (representable (Charset := cs)) us ∧ input = encode_all cs us ∧ bom_ok inform us ∧
  (0 < minsize → minsize ≤ zlen us) ∧ (0 < maxsize → zlen us ≤ maxsize).

(** The error for bytes that are no text in the input format. *)
Definition invalid_format (inform : Z) : mb_error :=
  if decide (inform = MBSTRING_BMP) then INVALID_BMPSTRING
  else if decide (inform = MBSTRING_UNIV) then INVALID_UNIVERSALSTRING
  else if decide (inform = MBSTRING_UTF8) then INVALID_UTF8STRING else INTERNAL_ERROR.

(** What is wrong with an input, the first fault first: code points [us] are read before it is met. *)
Inductive input_error (inform : Z) (cs : Charset) (mask : Z) (input : bytes) (minsize maxsize : Z) : mb_error → Prop :=
  | not_in_format us rest :
      Forall (representable (Charset := cs)) us → input = encode_all cs us ++ rest → bom_ok inform us →
      ¬ no_type_left mask us → rest ≠ [] →
      (∀ u rest', representable (Charset := cs) u → rest ≠ charset_bytes (Charset := cs) u ++ rest') →
      input_error inform cs mask input minsize maxsize (invalid_format inform)
  | byte_order_mark us rest :
      Forall (representable (Charset := cs)) us → input = encode_all cs us ++ rest → ¬ bom_ok inform us →
      input_error inform cs mask input minsize maxsize ILLEGAL_CHARACTERS
  | types_exhausted us rest :
      Forall (representable (Charset := cs)) us → input = encode_all cs us ++ rest → bom_ok inform us →
      no_type_left mask us →
      input_error inform cs mask input minsize maxsize ILLEGAL_CHARACTERS
  | too_short us :
      acceptable inform cs input 0 0 us → ¬ no_type_left mask us → zlen us < minsize →
      input_error inform cs mask input minsize maxsize STRING_TOO_SHORT
  | too_long us :
      acceptable inform cs input minsize 0 us → ¬ no_type_left mask us → 0 < maxsize < zlen us →
      input_error inform cs mask input minsize maxsize STRING_TOO_LONG
  | no_type us :
      acceptable inform cs input minsize maxsize us → first_type mask us candidates = None →
      input_error inform cs mask input minsize maxsize ILLEGAL_CHARACTERS.

(** The object holds [bs] in type [t], with the extra terminating NUL. *)
Definition holds (d : asn1_string) (t : Z) (bs : bytes) : Prop :=
  stype d = t ∧ slength d = zlen bs ∧ ∃ data, sdata d = Some data ∧ take (length bs + 1) data = bs ++ [0].

(** [*out] after the output could not be written: an object of the caller keeps its flags and has
    lost its contents; a new one is as [ASN1_STRING_type_new] made it.  (What is left of a new object
    whose re-encoding failed is not said here, see [ASN1_mbstring_ncopy_dangling].) *)
Definition emptied (d : asn1_string) (t : Z) : asn1_string :=
  {| slength := if sdata d then 0 else slength d; stype := t; sdata := None; sflags := sflags d |}.
Definition failed_out (ptr : string_ptr) (inform f t : Z) (ptr' : option string_ptr) : Prop :=
  match ptr with
  | Obj d => ptr' = Some (Obj (emptied d t))
  | NULL => if malloc_ok sizeof_ASN1_STRING then inform = f → ptr' = Some (Obj {| slength := 0; stype := t; sdata := None; sflags := 0 |})
            else ptr' = Some NULL
  | Dangling => False
  end.

(** The errors of the output: an allocation failed, or the text is too long for an [int] once
    it is re-encoded. *)
Definition output_error (inform f : Z) (out : bytes) (e : mb_error) : Prop :=
  (e = MALLOC_FAILURE ∧ ¬ ∀ n, malloc_ok n = true) ∨
  (e = INTERNAL_ERROR ∧ inform ≠ f ∧ (INT_MAX ≤ zlen out ∨ ¬ ∀ n, malloc_ok n = true)).

(** ** The mask *)

Lemma land_bit m k : 0 ≤ k → (m .& 2 ^ k =? 0) = negb (Z.testbit m k).
Proof.
  intros Hk. destruct (Z.testbit m k) eqn:E; cbn.
  - apply Z.eqb_neq. intros Hz. apply (f_equal (λ x, Z.testbit x k)) in Hz.
    by rewrite Z.land_spec, E, Z.pow2_bits_true, Z.bits_0 in Hz.
  - apply Z.eqb_eq, Z.bits_inj'. intros i Hi. rewrite Z.land_spec, Z.bits_0.
    destruct (decide (i = k)) as [->|]; [by rewrite E|]. by rewrite Z.pow2_bits_false, andb_false_r by lia.
Qed.
Lemma drop_bit_testbit k bad m j : 0 ≤ k → 0 ≤ j →
  Z.testbit (drop_bit (2 ^ k) bad m) j = Z.testbit m j && negb (bad && (j =? k)).
Proof.
  intros Hk Hj. unfold drop_bit. rewrite land_bit, negb_involutive by done.
  destruct bad; [|by rewrite andb_false_r, andb_true_r]. rewrite andb_true_r. cbn [andb].
  destruct (Z.eqb_spec j k) as [->|Hne]; cbn [negb].
  - rewrite andb_false_r. destruct (Z.testbit m k) eqn:E; [|done].
    by rewrite Z.ldiff_spec, E, Z.pow2_bits_true.
  - rewrite andb_true_r. destruct (Z.testbit m k); [|done].
    by rewrite Z.ldiff_spec, Z.pow2_bits_false, andb_true_r by lia.
Qed.

(** What a candidate's bit means after the scan. *)
Definition keeps (k : Z) (c : Z) : bool :=
  if k =? 1 then asn1_is_printable c else if k =? 4 then c <=? 127
  else if k =? 2 then c <=? 0xff else if k =? 11 then c <=? 0xffff else true.
Lemma update_mask_testbit c m j : 0 ≤ j → Z.testbit (update_mask c m) j = Z.testbit m j && keeps j c.
Proof.
  intros Hj. unfold update_mask.
  change B_ASN1_BMPSTRING with (2 ^ 11). change B_ASN1_T61STRING with (2 ^ 2).
  change B_ASN1_IA5STRING with (2 ^ 4). change B_ASN1_PRINTABLESTRING with (2 ^ 1).
  rewrite !drop_bit_testbit by lia. unfold keeps. rewrite !(Z.leb_antisym _ c).
  destruct (Z.testbit m j); [cbn|done].
  destruct (Z.eqb_spec j 1) as [->|]; [cbn; by rewrite !andb_false_r, !andb_true_r, negb_involutive|].
  destruct (Z.eqb_spec j 4) as [->|]; [cbn; by rewrite ?andb_false_r, ?andb_true_r|].
  destruct (Z.eqb_spec j 2) as [->|]; [cbn; by rewrite ?andb_false_r, ?andb_true_r|].
  destruct (Z.eqb_spec j 11) as [->|]; cbn; by rewrite ?andb_false_r, ?andb_true_r.
Qed.
Definition mask_after (mask : Z) (us : list Z) : Z := foldl (λ m c, update_mask c m) mask us.
Lemma mask_after_testbit us m j : 0 ≤ j → Z.testbit (mask_after m us) j = Z.testbit m j && forallb (keeps j) us.
Proof.
  intros Hj. revert m. induction us as [|u us IH]; intros m; cbn; [by rewrite andb_true_r|].
  unfold mask_after in IH. by rewrite IH, update_mask_testbit, andb_assoc.
Qed.
Lemma mask_after_zero us : mask_after 0 us = 0.
Proof. apply Z.bits_inj'. intros i Hi. by rewrite mask_after_testbit, Z.bits_0. Qed.

Lemma mask_after_app us us' m : mask_after m (us ++ us') = mask_after (mask_after m us) us'.
Proof. apply foldl_app. Qed.
Lemma no_type_left_spec mask us : no_type_left mask us ↔ mask_after mask us = 0.
Proof.
  split.
  - intros Hn. apply Z.bits_inj'. intros k Hk. rewrite mask_after_testbit, Z.bits_0 by done.
    destruct (Z.testbit mask k) eqn:E; [|done]. destruct (Hn k E) as (t & f & ok & Hin & Hf). cbn [andb].
    assert (keeps k = ok ∨ ok = λ _, true) as [->| ->].
    { unfold candidates in Hin. rewrite !elem_of_cons, elem_of_nil in Hin.
      destruct_or! Hin; simplify_eq; (by left) || (by right). }
    + done.
    + exfalso. clear -Hf. induction us; [done|by apply IHus].
  - intros Hz k Hk. destruct (decide (0 ≤ k)); [|by rewrite Z.testbit_neg_r in Hk by lia].
    pose proof (mask_after_testbit us mask k ltac:(done)) as Hb. rewrite Hz, Hk, Z.bits_0 in Hb. cbn [andb] in Hb.
    unfold candidates, keeps in *.
    destruct (Z.eqb_spec k 1) as [->|]; [do 3 eexists; split; [by do 1 constructor|done]|].
    destruct (Z.eqb_spec k 4) as [->|]; [do 3 eexists; split; [by do 2 constructor|done]|].
    destruct (Z.eqb_spec k 2) as [->|]; [do 3 eexists; split; [by do 3 constructor|done]|].
    destruct (Z.eqb_spec k 11) as [->|]; [do 3 eexists; split; [by do 4 constructor|done]|].
    exfalso. clear -Hb. induction us; [done|by apply IHus].
Qed.

Lemma choose_output_spec mask us n l :
  match choose_output (mask_after mask us) n l, first_type mask us candidates with
  | Some (t, f, enc, _), Some (t', f') => t = t' ∧ f = f' ∧ ∃ cs, charset f = Some cs ∧ enc = charset_add (Charset := cs)
  | None, None => True
  | _, _ => False
  end.
Proof.
  unfold choose_output.
  change B_ASN1_PRINTABLESTRING with (2 ^ 1). change B_ASN1_IA5STRING with (2 ^ 4).
  change B_ASN1_T61STRING with (2 ^ 2). change B_ASN1_BMPSTRING with (2 ^ 11).
  change B_ASN1_UNIVERSALSTRING with (2 ^ 8). change B_ASN1_UTF8STRING with (2 ^ 13).
  rewrite !land_bit, !negb_involutive, !mask_after_testbit by lia.
  change (keeps 1) with asn1_is_printable. change (keeps 4) with (λ u, u <=? 127).
  change (keeps 2) with (λ u, u <=? 0xff). change (keeps 11) with (λ u, u <=? 0xffff).
  change (keeps 8) with (λ _ : Z, true). change (keeps 13) with (λ _ : Z, true).
  cbn [first_type candidates].
  repeat (destruct (Z.testbit mask _ && forallb _ us); [split_and!; [done|done|by eexists]|]). done.
Qed.

(** ** The two loops *)

Lemma encode_all_ok cs us : Forall (representable (Charset := cs)) us → bytes_ok (encode_all cs us).
Proof.
  induction 1 as [|u us Hu _ IH]; [apply bytes_ok_nil|]. apply bytes_ok_app. split; [by apply charset_bytes_ok|done].
Qed.
Lemma encode_all_cons_len cs u us : representable (Charset := cs) u →
  zlen (encode_all cs us) + 1 ≤ zlen (encode_all cs (u :: us)).
Proof.
  intros Hu. unfold encode_all. cbn [map concat]. rewrite zlen_app.
  destruct (charset_bytes_ok u Hu) as [_ Hne]. destruct (charset_bytes u) as [|b l]; [done|]. rewrite zlen_cons.
  pose proof (zlen_nonneg l). lia.
Qed.
Lemma encode_all_length cs us : Forall (representable (Charset := cs)) us → zlen us ≤ zlen (encode_all cs us).
Proof.
  induction 1 as [|u us Hu _ IH]; [done|]. pose proof (encode_all_cons_len cs u us Hu). rewrite zlen_cons. lia.
Qed.

Lemma encode_all_inj cs us us' : Forall (representable (Charset := cs)) us' → Forall (representable (Charset := cs)) us →
  encode_all cs us = encode_all cs us' → us' = us.
Proof.
  intros Hus'. revert us. induction Hus' as [|u' us' Hu' Hus' IH]; intros us Hus He.
  - destruct Hus as [|u us Hu _]; [done|]. pose proof (encode_all_cons_len cs u us Hu) as Hl.
    rewrite He in Hl. cbn in Hl. pose proof (zlen_nonneg (encode_all cs us)). unfold zlen in *. cbn in *. lia.
  - destruct Hus as [|u us Hu Hus].
    { pose proof (encode_all_cons_len cs u' us' Hu') as Hl. rewrite <- He in Hl.
      pose proof (zlen_nonneg (encode_all cs us')). unfold zlen in *. cbn in *. lia. }
    assert (bytes_ok (encode_all cs (u :: us))) as Hok by (apply encode_all_ok; by constructor).
    assert (charset_get (Charset := cs) (encode_all cs (u :: us)) = (Some u, encode_all cs us)) as H1
      by (by apply charset_get_exact).
    assert (charset_get (Charset := cs) (encode_all cs (u :: us)) = (Some u', encode_all cs us')) as H2
      by (apply charset_get_exact; [done|]; by rewrite He).
    rewrite H1 in H2. injection H2 as <- He'. f_equal. by apply IH.
Qed.

Lemma encode_all_app cs us us' : encode_all cs (us ++ us') = encode_all cs us ++ encode_all cs us'.
Proof. unfold encode_all. by rewrite map_app, concat_app. Qed.
(** Code points that begin a text begin every reading of it. *)
Lemma encode_all_prefix cs us1 : Forall (representable (Charset := cs)) us1 → ∀ us rest,
  Forall (representable (Charset := cs)) us → encode_all cs us = encode_all cs us1 ++ rest →
  ∃ us2, us = us1 ++ us2 ∧ rest = encode_all cs us2.
Proof.
  induction 1 as [|u us1 Hu Hus1 IH]; intros us rest Hus He; [by exists us|].
  unfold encode_all at 2 in He. cbn [map concat] in He. rewrite <- app_assoc in He.
  destruct Hus as [|u' us Hu' Hus].
  { destruct (charset_bytes_ok u Hu) as [_ Hne]. by destruct (charset_bytes u). }
  assert (bytes_ok (encode_all cs (u' :: us))) as Hok by (apply encode_all_ok; by constructor).
  assert (charset_get (Charset := cs) (encode_all cs (u' :: us)) = (Some u', encode_all cs us)) as H1
    by (by apply charset_get_exact).
  assert (charset_get (Charset := cs) (encode_all cs (u' :: us)) = (Some u, encode_all cs us1 ++ rest)) as H2
    by (apply charset_get_exact; [done|]; by rewrite He).
  rewrite H1 in H2. injection H2 as -> He'. destruct (IH us rest Hus He') as (us2 & -> & ->). by exists us2.
Qed.

(** Why the scan stops, in terms of the code points it has read. *)
Inductive scan_stops (cs : Charset) (inform : Z) (err : mb_error) (mask nchar : Z) (c : bytes) : mb_error → Prop :=
  | stops_invalid us rest :
      Forall (representable (Charset := cs)) us → c = encode_all cs us ++ rest → (nchar = 0 → bom_ok inform us) →
      mask_after mask us ≠ 0 → rest ≠ [] →
      (∀ u rest', representable (Charset := cs) u → rest ≠ charset_bytes (Charset := cs) u ++ rest') →
      scan_stops cs inform err mask nchar c err
  | stops_bom us rest :
      Forall (representable (Charset := cs)) us → c = encode_all cs us ++ rest → nchar = 0 → ¬ bom_ok inform us →
      scan_stops cs inform err mask nchar c ILLEGAL_CHARACTERS
  | stops_mask us rest :
      Forall (representable (Charset := cs)) us → c = encode_all cs us ++ rest → (nchar = 0 → bom_ok inform us) →
      mask_after mask us = 0 → scan_stops cs inform err mask nchar c ILLEGAL_CHARACTERS.

Lemma scan_stops_cons cs inform err mask nchar c u e : representable (Charset := cs) u → 0 ≤ nchar →
  (nchar = 0 → bom_ok inform [u]) → scan_stops cs inform err (update_mask u mask) (nchar + 1) c e →
  scan_stops cs inform err mask nchar (charset_bytes (Charset := cs) u ++ c) e.
Proof.
  intros Hu Hn Hbom Hs.
  assert (∀ us rest, charset_bytes (Charset := cs) u ++ encode_all cs us ++ rest = encode_all cs (u :: us) ++ rest) as Heq
    by (intros; unfold encode_all; cbn [map concat]; by rewrite app_assoc).
  destruct Hs as [us rest Hus -> _ Hm Hr Hd|us rest _ _ Hz|us rest Hus -> _ Hm]; [..|lia|]; rewrite Heq.
  - apply (stops_invalid _ _ _ _ _ _ (u :: us) rest); try done. by constructor.
  - apply (stops_mask _ _ _ _ _ _ (u :: us) rest); try done. by constructor.
Qed.

(** Whether the scan accepts, and with which results, in terms of the decoded code points. *)
Lemma scan_spec cs inform err fuel : ∀ mask nchar l c, bytes_ok c → (length c ≤ fuel)%nat → mask ≠ 0 →
  0 ≤ nchar → nchar + zlen c < 2 ^ 64 →
  match scan fuel inform (charset_get (Charset := cs)) err mask nchar l c with
  | inr (mask', nchar', _) => ∃ us, Forall (representable (Charset := cs)) us ∧ c = encode_all cs us ∧
      mask' = mask_after mask us ∧ mask' ≠ 0 ∧ nchar' = nchar + zlen us ∧ (nchar = 0 → bom_ok inform us)
  | inl e => scan_stops cs inform err mask nchar c e
  end.
Proof.
  induction fuel as [|fuel IH]; intros mask nchar l c Hc Hf Hm Hn Hb; cbn [scan];
    (destruct (Z.eqb_spec (CBS_len c) 0) as [Hz|Hz];
     [destruct c; [|done]; exists []; split_and!; try done; rewrite zlen_nil; lia|]).
  { destruct c; cbn in Hf; [done|lia]. }
  destruct (charset_get c) as [[u|] rest] eqn:Hg.
  2:{ apply (stops_invalid _ _ _ _ _ _ [] c); try done; [by intros ->|].
      intros u rest' Hu ->. assert (charset_get (charset_bytes u ++ rest') = (Some u, rest')) as Hg'
        by (by apply charset_get_exact). congruence. }
  apply charset_get_exact in Hg as [Hu ->]; [|done].
  assert (charset_bytes u ++ rest = encode_all cs [u] ++ rest) as Hone
    by (unfold encode_all; cbn [map concat]; by rewrite app_nil_r).
  destruct (_ && _) eqn:Hbom.
  { apply (stops_bom _ _ _ _ _ _ [u] rest); [by constructor|done|..]; rewrite !andb_true_iff, orb_true_iff, !Z.eqb_eq in Hbom.
    - by destruct Hbom as [[? _] _].
    - destruct Hbom as [[_ Hin] ->]. intros Hok. by apply Hok. }
  assert (nchar = 0 → bom_ok inform [u]) as Hb1.
  { intros -> Hin Hhd. injection Hhd as ->. rewrite !andb_false_iff, orb_false_iff, !Z.eqb_neq in Hbom. intuition lia. }
  destruct (Z.eqb_spec (update_mask u mask) 0) as [Hm0|Hm0].
  { apply (stops_mask _ _ _ _ _ _ [u] rest); [by constructor|done..]. }
  apply bytes_ok_app in Hc as [Hcu Hc]. rewrite zlen_app in Hb. rewrite length_app in Hf.
  assert (1 ≤ length (charset_bytes u))%nat.
  { destruct (charset_bytes_ok u Hu) as [_ Hne]. destruct (charset_bytes u); [done|cbn; lia]. }
  pose proof (zlen_nonneg rest). assert (1 ≤ zlen (charset_bytes u)) by (unfold zlen; lia).
  rewrite wrap_small by word_lia.
  specialize (IH (update_mask u mask) (nchar + 1) (u64 (l + cbb_get_utf8_len u)) rest Hc ltac:(lia) Hm0 ltac:(lia) ltac:(lia)).
  destruct (scan _ _ _ _ _ _ _ rest) as [e|[[m' n'] l']]; [by apply scan_stops_cons|].
  destruct IH as (us & Hus & -> & -> & Hm' & -> & _). exists (u :: us). split_and!; try done.
  - by constructor.
  - rewrite zlen_cons. lia.
Qed.

(** What the scan refuses is one of the faults of an input, and an input with a fault is no
    acceptable text with a permitted type. *)
Lemma scan_stops_error cs inform mask c minsize maxsize e :
  scan_stops cs inform (invalid_format inform) mask 0 c e → input_error inform cs mask c minsize maxsize e.
Proof.
  intros [us rest Hus -> Hb Hm|us rest Hus -> _ Hb|us rest Hus -> Hb Hm].
  - apply (not_in_format _ _ _ _ _ _ us rest); try done; [auto|by rewrite no_type_left_spec].
  - by apply (byte_order_mark _ _ _ _ _ _ us rest).
  - apply (types_exhausted _ _ _ _ _ _ us rest); [done|done|auto|by rewrite no_type_left_spec].
Qed.

Lemma no_type_left_first mask us us' : no_type_left mask us → first_type mask (us ++ us') candidates = None.
Proof.
  rewrite no_type_left_spec. intros Hz. pose proof (choose_output_spec mask (us ++ us') 0 0) as Hc.
  rewrite mask_after_app, Hz, mask_after_zero in Hc.
  change (choose_output 0 0 0) with (@None (Z * Z * (loc → Z → CBB_M unit) * Z)) in Hc.
  by destruct (first_type mask _ candidates) as [[? ?]|].
Qed.

Lemma input_error_unacceptable cs inform mask c minsize maxsize e us' :
  input_error inform cs mask c minsize maxsize e → acceptable inform cs c minsize maxsize us' →
  first_type mask us' candidates = None.
Proof.
  intros He (Hus' & -> & Hbom & Hmin & Hmax).
  destruct He as [us rest Hus Hc _ _ Hr Hd|us rest Hus Hc Hb|us rest Hus Hc _ Hl|us (Hus & Hc & _) _ Hl|us (Hus & Hc & _) _ Hl|us (Hus & Hc & _) Hft];
    try (destruct (encode_all_prefix cs us Hus us' rest Hus' Hc) as (us2 & -> & ->));
    try (apply encode_all_inj in Hc as ->; [|done..]).
  - exfalso. destruct us2 as [|u us2]; [done|]. apply Forall_app in Hus' as [_ Hu2].
    apply Forall_cons in Hu2 as [Hu2 _]. by apply (Hd u (encode_all cs us2) Hu2).
  - exfalso. apply Hb. intros Hin Hhd. apply (Hbom Hin). by destruct us.
  - by apply no_type_left_first.
  - pose proof (zlen_nonneg us'). lia.
  - lia.
  - done.
Qed.

Lemma transcode_spec cs_in cs_out p us : ∀ fuel, Forall (representable (Charset := cs_in)) us →
  Forall (representable (Charset := cs_out)) us → (length (encode_all cs_in us) ≤ fuel)%nat →
  extends (transcode_loop fuel (charset_get (Charset := cs_in)) (charset_add (Charset := cs_out)) p (encode_all cs_in us))
    p (encode_all cs_out us).
Proof.
  induction us as [|u us IH]; intros fuel Hin Hout Hf.
  { destruct fuel; apply extends_ret. }
  apply Forall_cons in Hin as [Hi Hin]. apply Forall_cons in Hout as [Ho Hout].
  pose proof (encode_all_cons_len cs_in u us Hi) as Hlen. unfold zlen in Hlen.
  destruct fuel as [|fuel]; [lia|]. cbn [transcode_loop].
  destruct (Z.eqb_spec (CBS_len (encode_all cs_in (u :: us))) 0) as [Hz|_]; [unfold CBS_len, zlen in Hz; lia|].
  assert (charset_get (Charset := cs_in) (encode_all cs_in (u :: us)) = (Some u, encode_all cs_in us)) as ->
    by (apply charset_get_exact; [apply encode_all_ok; by constructor|done]).
  apply (extends_seq p _ _ (charset_bytes u) (encode_all cs_out us)); [|apply IH; [done|done|lia]].
  by apply appends_extends, charset_add_appends.
Qed.

(** ** The whole function *)

Lemma string_set_spec d input : sdata d = None →
  match ASN1_STRING_set d (Some input) (zlen input) with
  | (true, d') => holds d' (stype d) input
  | (false, d') => d' = d ∧ ¬ ∀ n, malloc_ok n = true
  end.
Proof.
  intros Hd. unfold ASN1_STRING_set. rewrite (proj2 (Z.ltb_ge _ _)) by apply zlen_nonneg. rewrite Hd. cbn [default from_option id]. rewrite take_nil. cbn [app length].
  rewrite bool_decide_eq_true_2, orb_true_r by done. destruct (malloc_ok _) eqn:Hm; [|by split; [|congruence]].
  split_and!; [done|done|]. eexists. split; [done|]. unfold write_at.
  rewrite to_nat_zlen, firstn_all. change (Z.to_nat 0) with 0%nat. rewrite take_0, app_nil_l.
  replace (length input + 1)%nat with (length (input ++ [0])) by (by rewrite length_app). apply take_app_length.
Qed.

Lemma transcode_and_finish cs_in cs_out us c : Forall (representable (Charset := cs_in)) us →
  Forall (representable (Charset := cs_out)) us → is_u64 c →
  match (transcode_loop (length (encode_all cs_in us)) (charset_get (Charset := cs_in))
           (charset_add (Charset := cs_out)) 0%nat (encode_all cs_in us);;
         CBB_add_u8 0%nat 0;; CBB_finish 0%nat false false) (store0 (fresh_bytes 0 (Z.to_nat c)) c true) with
  | (Some (data, len), _) => len = zlen (encode_all cs_out us) + 1 ∧
      take (length (encode_all cs_out us) + 1) data = encode_all cs_out us ++ [0]
  | (None, _) => ¬ ((∀ n, malloc_ok n = true) ∧ zlen (encode_all cs_out us) + 1 < 2 ^ 64)
  end.
Proof.
  intros Hin Hout Hc. set (out := encode_all cs_out us). set (loop := transcode_loop _ _ _ _ _).
  pose proof (run_writer (loop;; CBB_add_u8 0%nat 0) (out ++ [0]) c) as Hr.
  assert (∀ s, (loop;; CBB_add_u8 0%nat 0;; CBB_finish 0%nat false false) s =
    ((loop;; CBB_add_u8 0%nat 0);; CBB_finish 0%nat false false) s) as ->.
  { intros s. unfold mbind, st_bind. destruct (loop s) as [[[]|] s1]; [|done]. done. }
  rewrite zlen_app, length_app in Hr. apply Hr; [|done]. apply extends_seq.
  - by apply transcode_spec.
  - by apply appends_extends, appends_add_u8.
Qed.

Lemma write_output_spec inform outf cs_in cs_out us ptr t est :
  charset inform = Some cs_in → charset outf = Some cs_out → ptr ≠ Dangling →
  Forall (representable (Charset := cs_in)) us → Forall (representable (Charset := cs_out)) us →
  match write_output (Some ptr) (encode_all cs_in us) (zlen (encode_all cs_in us)) inform
          (charset_get (Charset := cs_in)) (t, outf, charset_add (Charset := cs_out), est) with
  | (inr r, ptr') => r = t ∧ ∃ d, ptr' = Some (Obj d) ∧ holds d t (encode_all cs_out us)
  | (inl e, ptr') => output_error inform outf (encode_all cs_out us) e ∧ failed_out ptr inform outf t ptr'
  end.
Proof.
  intros Hi Ho Hptr Hin Hout. unfold write_output. set (dest := match ptr with NULL => _ | Obj _ => _ | Dangling => _ end).
  assert ((∃ d, dest = Obj d ∧ stype d = t ∧ sdata d = None ∧ failed_out ptr inform outf t (Some (if match ptr with NULL => negb (inform =? outf) | _ => false end then Dangling else Obj d))) ∨
    (dest = NULL ∧ (¬ ∀ n, malloc_ok n = true) ∧ failed_out ptr inform outf t (Some ptr))) as Hdest.
  { subst dest. destruct ptr as [|d|]; [|left|done].
    - unfold ASN1_STRING_type_new, failed_out. destruct (malloc_ok _) eqn:Hm; [left|right]; [|split_and!; [done|congruence|done]].
      eexists. split_and!; [done..|]. intros ->. by rewrite Z.eqb_refl.
    - eexists. split; [done|]. unfold failed_out, emptied. by destruct (sdata d) eqn:E. }
  destruct Hdest as [(d & -> & Ht & Hd & Hfail)|(-> & Hm & Hfail)]; [|split; [by left|done]].
  destruct (Z.eqb_spec inform outf) as [->|Hne].
  - assert (cs_in = cs_out) as <- by congruence. pose proof (string_set_spec d (encode_all cs_in us) Hd) as Hs.
    destruct (ASN1_STRING_set _ _ _) as [[] d'].
    + split; [done|]. exists d'. split; [done|]. by rewrite Ht in Hs.
    + destruct Hs as [-> Hm]. split; [by left|]. by destruct ptr.
  - assert (failed_out ptr inform outf t (Some (if match ptr with NULL => true | _ => false end then Dangling else Obj d))) as Hfail'
      by (by destruct ptr).
    pose proof (init_spec (u64 (est + 1))) as Hinit.
    destruct (CBB_init 0%nat (u64 (est + 1)) empty_store) as [[[]|] s] eqn:E.
    2:{ split; [left; split; [done|]|done]. intros Hm. rewrite !Hm in Hinit. rewrite andb_false_r in Hinit. done. }
    assert (s = store0 (fresh_bytes 0 (Z.to_nat (u64 (est + 1)))) (u64 (est + 1)) true) as ->
      by (destruct (_ && _); by injection Hinit).
    rewrite to_nat_zlen, firstn_all.
    pose proof (transcode_and_finish cs_in cs_out us (u64 (est + 1)) Hin Hout ltac:(apply wrap_is_uint; lia)) as Hr.
    destruct ((transcode_loop _ _ _ _ _;; _) _) as [[[data len]|] s2].
    + destruct Hr as [-> Htake]. pose proof (zlen_nonneg (encode_all cs_out us)).
      rewrite (proj2 (Z.ltb_ge (_ + 1) 1)) by lia. cbn [orb].
      destruct (Z.ltb_spec INT_MAX (zlen (encode_all cs_out us) + 1)).
      * split; [right; split_and!; [done|done|left; lia]|done].
      * split; [done|]. eexists. split; [done|]. split_and!; [done|cbn; lia|by eexists].
    + split; [|done]. right. split_and!; [done|done|].
      destruct (Z.le_gt_cases INT_MAX (zlen (encode_all cs_out us))); [by left|right].
      intros Hm. apply Hr. split; [done|]. unfold INT_MAX in *. word_lia.
Qed.

Lemma charset_decoder inform cs : charset inform = Some cs →
  decoder inform = Some (charset_get (Charset := cs), invalid_format inform).
Proof.
  unfold charset, decoder. repeat case_match; intros [= <-]; rewrite ?Z.eqb_eq in *; by subst.
Qed.

Lemma charset_code_point inform cs u : charset inform = Some cs → representable (Charset := cs) u → code_point u.
Proof.
  assert (is_u8 u → code_point u) by (intros; unfold code_point; word_lia).
  unfold charset. repeat case_match; intros [= <-]; cbn; tauto.
Qed.

Lemma chosen_representable inform cs us mask t f : charset inform = Some cs →
  Forall (representable (Charset := cs)) us → first_type mask us candidates = Some (t, f) →
  ∃ cs_out, charset f = Some cs_out ∧ Forall (representable (Charset := cs_out)) us.
Proof.
  intros Hcs Hus Hf.
  assert (Forall code_point us) as Hcp by (eapply Forall_impl; [exact Hus|]; intros u; by eapply charset_code_point).
  assert (∀ ok P, forallb ok us = true → (∀ u, code_point u → ok u = true → P u) → Forall P us) as Hall.
  { intros ok P Hok HP. rewrite forallb_forall in Hok.
    rewrite Forall_forall in Hcp |- *. intros u Hu. apply HP; [by apply Hcp|]. by apply Hok, list_elem_of_In. }
  cbn [first_type candidates] in Hf.
  repeat match type of Hf with (if ?b then _ else _) = _ => destruct b eqn:?; [injection Hf as <- <-|] end; [..|done];
    match goal with X : _ && _ = true |- _ => apply andb_true_iff in X as [_ E] end.
  - exists latin1_charset. split; [done|]. apply (Hall _ _ E). cbn. unfold asn1_is_printable. intros u Hu Hok.
    destruct (Z.ltb_spec 0x7f u); [done|]. destruct Hu. word_lia.
  - exists latin1_charset. split; [done|]. apply (Hall _ _ E). cbn. intros u Hu Hok. destruct Hu. word_lia.
  - exists latin1_charset. split; [done|]. apply (Hall _ _ E). cbn. intros u Hu Hok. destruct Hu. word_lia.
  - exists ucs2_charset. split; [done|]. apply (Hall _ _ E). cbn. intros u Hu Hok. split; [done|lia].
  - by exists utf32_charset.
  - by exists utf8_charset.
Qed.

End MbString.


(** With [*out] NULL on entry, an allocation failure while re-encoding leaves [*out] pointing to the
    object that was just freed. *)
Lemma ASN1_mbstring_ncopy_dangling :
  let only_small : Allocator := {| malloc_ok := λ n, n =? sizeof_ASN1_STRING; junk := λ _, 0 |} in
  @ASN1_mbstring_ncopy only_small (Some NULL) [0xe9] 1 MBSTRING_ASC B_ASN1_UTF8STRING 0 0 =
    (inl MALLOC_FAILURE, Some Dangling).
Proof. by vm_compute. Qed.
