(* ===== verification/AsnString.v ===== *)
(** * ASN1_STRING ([crypto/asn1/asn1_lib.c]) and BIT STRING ([crypto/asn1/a_bitstr.c])

    Over [asn1_string] and [ASN1_STRING_set] of [MbString].  The bytes of a BIT STRING carry either an
    explicit count of padding bits in the flags or, without the flag, no trailing zero bits at all. *)
From S2P Require Export MbString Asn1.

Definition V_ASN1_INTEGER : Z := 2.
Definition V_ASN1_BIT_STRING : Z := 3.
Definition V_ASN1_OCTET_STRING : Z := 4.
Definition ASN1_STRING_FLAG_BITS_LEFT : Z := 0x08.
Definition INT_MAX : Z := 2 ^ 31 - 1.

Definition data_of (s : asn1_string) : bytes := default [] (sdata s).
(** [p[i]]. *)
Definition byte_at (p : bytes) (i : Z) : Z := nth (Z.to_nat i) p 0.

(** ** Strings *)

Definition ASN1_STRING_length (str : asn1_string) : Z := slength str.
Definition ASN1_STRING_type (str : asn1_string) : Z := stype str.
Definition ASN1_STRING_get0_data (str : asn1_string) : option bytes := sdata str.
Definition ASN1_STRING_set0 (str : asn1_string) (data : option bytes) (len : Z) : asn1_string :=
  {| slength := len; stype := stype str; sdata := data; sflags := sflags str |}.

(** Of the result of [memcmp], C promises the sign only: any magnitude, within the [int]s that have a
    negation. *)
Class Memcmp := { memcmp_magnitude : bytes → bytes → nat → Z; memcmp_magnitude_ok a b n : 0 < memcmp_magnitude a b n < 2 ^ 31 }.
Fixpoint memcmp_sign (a b : bytes) (n : nat) : Z :=
  match n with
  | O => 0
  | S n => if hd 0 a <? hd 0 b then -1 else if hd 0 b <? hd 0 a then 1 else memcmp_sign (tl a) (tl b) n
  end.
Definition memcmp `{!Memcmp} (a b : bytes) (n : nat) : Z := memcmp_sign a b n * memcmp_magnitude a b n.

(** ** BIT STRING *)

Fixpoint strip_zeros (fuel : nat) (data : bytes) (len : Z) : Z :=
  match fuel with
  | O => len
  | S fuel => if (0 <? len) && (byte_at data (len - 1) =? 0) then strip_zeros fuel data (len - 1) else len
  end.
Fixpoint padding_loop (fuel : nat) (last padding_bits : Z) : Z :=
  match fuel with
  | O => padding_bits
  | S fuel => if padding_bits <? 7 then if negb (last .& Z.shiftl 1 padding_bits =? 0) then padding_bits else padding_loop fuel last (padding_bits + 1) else padding_bits
  end.
(** The length and the padding bits. *)
Definition asn1_bit_string_length (str : asn1_string) : Z * Z :=
  let len := slength str in
  if negb (sflags str .& ASN1_STRING_FLAG_BITS_LEFT =? 0) then (len, if len =? 0 then 0 else u8 (sflags str .& 7))
  else
    let len := strip_zeros (Z.to_nat len) (data_of str) len in
    (len, if 0 <? len then padding_loop 7 (byte_at (data_of str) (len - 1)) 0 else 0).
Definition ASN1_BIT_STRING_num_bytes (str : asn1_string) : option Z :=
  let '(len, padding_bits) := asn1_bit_string_length str in
  if negb (padding_bits =? 0) then None else Some len.

Definition ASN1_STRING_cmp `{!Memcmp} (a b : asn1_string) : Z :=
  let '(a_length, a_padding) := if stype a =? V_ASN1_BIT_STRING then asn1_bit_string_length a else (slength a, 0) in
  let '(b_length, b_padding) := if stype b =? V_ASN1_BIT_STRING then asn1_bit_string_length b else (slength b, 0) in
  if a_length <? b_length then -1
  else if b_length <? a_length then 1
  else if b_padding <? a_padding then -1
  else if a_padding <? b_padding then 1
  else
    let ret := memcmp (data_of a) (data_of b) (Z.to_nat a_length) in
    if negb (ret =? 0) then ret
    else if stype a <? stype b then -1
    else if stype b <? stype a then 1
    else 0.

(** [out] is a buffer and the position where the output goes; [None] asks for the size only. *)
Definition output := option (bytes * Z).
Definition i2c_ASN1_BIT_STRING (a : option asn1_string) (pp : output) : Z * output :=
  match a with
  | None => (0, pp)
  | Some a =>
      let '(len, bits) := asn1_bit_string_length a in
      let ret := 1 + len in
      match pp with
      | None => (ret, None)
      | Some (buf, p) =>
          let buf := write_at p [bits] buf in
          let p := p + 1 in
          let buf := write_at p (take (Z.to_nat len) (data_of a)) buf in
          let buf := if 0 <? len then write_at (p + len - 1) [byte_at buf (p + len - 1) .& u8 (Z.shiftl 0xff bits)] buf else buf in
          (ret, Some (buf, p + len))
      end
  end.

Section Strings.
Context `{!Allocator}.

Definition ASN1_STRING_new : string_ptr := ASN1_STRING_type_new V_ASN1_OCTET_STRING.
Definition ASN1_STRING_copy (dst : asn1_string) (str : option asn1_string) : bool * asn1_string :=
  match str with
  | None => (false, dst)
  | Some str =>
      match ASN1_STRING_set dst (sdata str) (slength str) with
      | (false, dst) => (false, dst)
      | (true, dst) => (true, {| slength := slength dst; stype := stype str; sdata := sdata dst; sflags := sflags str |})
      end
  end.
Definition ASN1_STRING_dup (str : option asn1_string) : option asn1_string :=
  match str with
  | None => None
  | Some _ =>
      match ASN1_STRING_new with
      | Obj ret => match ASN1_STRING_copy ret str with (true, ret) => Some ret | (false, _) => None end
      | _ => None
      end
  end.
Definition ASN1_BIT_STRING_set (x : asn1_string) (d : option bytes) (len : Z) : bool * asn1_string := ASN1_STRING_set x d len.

(** The contents of the next [len] bytes of the input.  The state is [*a] ([None] also when [a] itself is
    a null pointer) and the input; the flags of the string in [*a] are set before memory is asked for. *)
Definition reused (a : option asn1_string) (type : Z) : option asn1_string :=
  match a with Some a => Some a | None => match ASN1_STRING_type_new type with Obj s => Some s | _ => None end end.
Definition c2i_ASN1_BIT_STRING (len : Z) : st (option asn1_string * bytes) asn1_string := λ '(a, input),
  if len <? 1 then (None, (a, input))
  else if INT_MAX <? len then (None, (a, input))
  else
    match reused a V_ASN1_BIT_STRING with
    | None => (None, (a, input))
    | Some ret =>
        let padding := byte_at input 0 in
        let p := drop 1 input in
        let len := len - 1 in
        if 7 <? padding then (None, (a, input))
        else
          let padding_mask := u8 (Z.shiftl 1 padding - 1) in
          if negb (padding =? 0) && ((len <? 1) || negb (byte_at p (len - 1) .& padding_mask =? 0)) then (None, (a, input))
          else
            let flags := Z.ldiff (sflags ret) (ASN1_STRING_FLAG_BITS_LEFT .| 7) .| (ASN1_STRING_FLAG_BITS_LEFT .| padding) in
            let fail := (None, ((λ a, {| slength := slength a; stype := stype a; sdata := sdata a; sflags := flags |}) <$> a, input)) in
            let finish data p :=
              let ret := {| slength := len; stype := V_ASN1_BIT_STRING; sdata := data; sflags := flags |} in
              (Some ret, (Some ret, p)) in
            if 0 <? len
            then if malloc_ok len then finish (Some (take (Z.to_nat len) p)) (drop (Z.to_nat len) p) else fail
            else finish None p
    end.

(** A store of one bit, bit 0 being the highest one of the first byte. *)
Definition ASN1_BIT_STRING_set_bit (a : option asn1_string) (n value : Z) : bool * option asn1_string :=
  let w := n ÷ 8 in
  let v := Z.shiftl 1 (7 - (n .& 7)) in
  let iv := Z.lnot v in
  let v := if value =? 0 then 0 else v in
  match a with
  | None => (false, None)
  | Some a =>
      let flags := Z.ldiff (sflags a) (ASN1_STRING_FLAG_BITS_LEFT .| 7) in
      let a := {| slength := slength a; stype := stype a; sdata := sdata a; sflags := flags |} in
      let write data length :=
        let data := write_at w [u8 ((byte_at data w .& iv) .| v)] data in
        (true, Some {| slength := strip_zeros (Z.to_nat length) data length; stype := stype a; sdata := Some data; sflags := flags |}) in
      if (slength a <? w + 1) || bool_decide (sdata a = None)
      then
        if value =? 0 then (true, Some a)
        else
          let old := take (Z.to_nat (w + 1)) (data_of a) in
          if malloc_ok (w + 1)
          then
            let c := old ++ fresh_bytes (length old) (Z.to_nat (w + 1) - length old) in
            let c := if 0 <? w + 1 - slength a then write_at (slength a) (repeat 0 (Z.to_nat (w + 1 - slength a))) c else c in
            write c (w + 1)
          else (false, Some a)
      else write (data_of a) (slength a)
  end.
End Strings.

Definition ASN1_BIT_STRING_get_bit (a : option asn1_string) (n : Z) : bool :=
  let w := n ÷ 8 in
  let v := Z.shiftl 1 (7 - (n .& 7)) in
  match a with
  | None => false
  | Some a => if (slength a <? w + 1) || bool_decide (sdata a = None) then false else negb (byte_at (data_of a) w .& v =? 0)
  end.
Fixpoint bit_check_loop (data flags : bytes) (n : nat) : bool :=
  match n with
  | O => true
  | S n =>
      let mask := match flags with f :: _ => u8 (Z.lnot f) | [] => 0xff end in
      if hd 0 data .& mask =? 0 then bit_check_loop (tl data) (tl flags) n else false
  end.
Definition ASN1_BIT_STRING_check (a : option asn1_string) (flags : bytes) : bool :=
  match a with
  | None => true
  | Some a => match sdata a with None => true | Some data => bit_check_loop data flags (Z.to_nat (slength a)) end
  end.


(** ** BIT STRING: facts on one byte *)

Lemma padding_cases (P : Z → Prop) k : 0 ≤ k ≤ 7 → P 0 → P 1 → P 2 → P 3 → P 4 → P 5 → P 6 → P 7 → P k.
Proof.
  intros Hk. assert (k = 0 ∨ k = 1 ∨ k = 2 ∨ k = 3 ∨ k = 4 ∨ k = 5 ∨ k = 6 ∨ k = 7) as H by lia.
  intros. by repeat destruct H as [->|H]; subst.
Qed.
Ltac padding_crush k Hk b Hb := revert b Hb; pattern k; apply (padding_cases _ k Hk); intros b Hb; byte_crush b Hb.
Lemma clean_padding k b : 0 ≤ k ≤ 7 → is_u8 b → b .& (Z.shiftl 1 k - 1) = 0 → b .& u8 (Z.shiftl 0xff k) = b.
Proof. intros Hk Hb. padding_crush k Hk b Hb. Qed.
Lemma flags_padding f k : 0 ≤ k ≤ 7 → let flags := Z.ldiff f (8 .| 7) .| (8 .| k) in flags .& 8 = 8 ∧ u8 (flags .& 7) = k.
Proof.
  intros Hk flags. subst flags. assert (∀ m, m .& 15 = m → (Z.ldiff f (8 .| 7) .| (8 .| k)) .& m = (8 .| k) .& m) as H.
  { intros m Hm. change (8 .| 7) with 15. apply Z.bits_inj'. intros i Hi. rewrite !Z.land_spec, Z.lor_spec, Z.ldiff_spec, <- Hm, Z.land_spec.
    destruct (Z.testbit f i), (Z.testbit 15 i), (Z.testbit (8 .| k) i), (Z.testbit m i); done. }
  rewrite !H by done. pattern k. apply (padding_cases _ k Hk); split; reflexivity.
Qed.
Lemma write_at_id p buf b : 0 ≤ p < zlen buf → b = byte_at buf p → write_at p [b] buf = buf.
Proof.
  intros Hp ->. unfold write_at, byte_at, zlen in *. cbn [length]. rewrite Nat.add_1_r.
  rewrite <- (take_drop (Z.to_nat p) buf) at 4. f_equal. destruct (drop (Z.to_nat p) buf) as [|x d] eqn:E.
  - apply (f_equal length) in E. rewrite length_drop in E. cbn in E. lia.
  - rewrite <- (take_drop (Z.to_nat p) buf) at 1. rewrite E. rewrite app_nth2 by (rewrite length_take; lia).
    rewrite length_take, Nat.min_l, Nat.sub_diag by lia. cbn [app nth]. f_equal.
    rewrite <- Nat.add_1_r, <- drop_drop, E. done.
Qed.


(** ** BIT STRING: the contents octets *)

Lemma byte_at_app a b x : byte_at (a ++ b :: x) (zlen a) = b.
Proof. unfold byte_at. rewrite to_nat_zlen, app_nth2, Nat.sub_diag by lia. done. Qed.
Lemma bitstring_valid_snoc k bs b : is_u8 b → CBS_is_valid_asn1_bitstring (k :: bs ++ [b]) = bool_decide (k ≤ 7 ∧ (k = 0 ∨ b .& (Z.shiftl 1 k - 1) = 0)).
Proof.
  intros Hb. unfold CBS_is_valid_asn1_bitstring. rewrite get_u8_cons. unfold CBS_get_last_u8, CBS_len.
  rewrite zlen_app, zlen_cons. rewrite (proj2 (Z.eqb_neq (zlen bs + _) 0)) by (pose proof (zlen_nonneg bs); change (zlen (@nil Z)) with 0; lia). rewrite last_last.
  destruct (Z.ltb_spec 7 k), (Z.eqb_spec k 0), (Z.eqb_spec (b .& (Z.shiftl 1 k - 1)) 0); symmetry; first [apply bool_decide_eq_true_2 | apply bool_decide_eq_false_2]; try lia; intuition lia.
Qed.
Lemma bitstring_valid_nil k : CBS_is_valid_asn1_bitstring [k] = bool_decide (k ≤ 7 ∧ k = 0).
Proof.
  unfold CBS_is_valid_asn1_bitstring. rewrite get_u8_cons. change (CBS_get_last_u8 []) with (@None Z, @nil Z). cbn.
  destruct (Z.ltb_spec 7 k), (Z.eqb_spec k 0); symmetry; first [apply bool_decide_eq_true_2 | apply bool_decide_eq_false_2]; lia.
Qed.
(** The string that holds [bs] with [k] bits of padding. *)
Definition holds_bits (s : asn1_string) (k : Z) (bs : bytes) : Prop :=
  slength s = zlen bs ∧ data_of s = bs ∧ sflags s .& 8 = 8 ∧ u8 (sflags s .& 7) = k ∧ stype s = V_ASN1_BIT_STRING.
Lemma holds_bits_length s k bs : holds_bits s k bs → (bs = [] → k = 0) → asn1_bit_string_length s = (zlen bs, k).
Proof.
  intros (Hl & _ & Hf & Hk & _) H0. unfold asn1_bit_string_length, ASN1_STRING_FLAG_BITS_LEFT. rewrite Hf, Hk, Hl. change (negb (8 =? 0)) with true. cbv iota.
  destruct (Z.eqb_spec (zlen bs) 0); [|done]. rewrite H0; [done|]. by destruct bs.
Qed.
Lemma i2c_bits s k bs pre hole post : holds_bits s k bs → bytes_ok bs → 0 ≤ k ≤ 7 → CBS_is_valid_asn1_bitstring (k :: bs) = true → zlen hole = 1 + zlen bs →
  i2c_ASN1_BIT_STRING (Some s) None = (1 + zlen bs, None) ∧
  i2c_ASN1_BIT_STRING (Some s) (Some (pre ++ hole ++ post, zlen pre)) = (1 + zlen bs, Some (pre ++ (k :: bs) ++ post, zlen pre + (1 + zlen bs))).
Proof.
  intros Hs Hok Hk Hv Hh. assert (bs = [] → k = 0) as H0. { intros ->. rewrite bitstring_valid_nil in Hv. apply bool_decide_eq_true_1 in Hv. lia. }
  unfold i2c_ASN1_BIT_STRING. rewrite (holds_bits_length s k bs Hs H0). split; [done|].
  destruct hole as [|h hole]; [change (zlen (@nil Z)) with 0 in Hh; pose proof (zlen_nonneg bs); lia|]. rewrite zlen_cons in Hh.
  destruct Hs as (_ & -> & _). rewrite to_nat_zlen, firstn_all.
  change ((h :: hole) ++ post) with ([h] ++ hole ++ post). rewrite (write_at_app pre [h]) by done.
  replace (pre ++ [k] ++ hole ++ post) with ((pre ++ [k]) ++ hole ++ post) by by rewrite <- app_assoc.
  assert (zlen pre + 1 = zlen (pre ++ [k])) as -> by by rewrite zlen_app.
  rewrite (write_at_app (pre ++ [k]) hole) by (unfold zlen in Hh; lia). cbv zeta.
  assert ((pre ++ [k]) ++ bs ++ post = pre ++ (k :: bs) ++ post) as Happ by by rewrite <- app_assoc.
  destruct (Z.ltb_spec 0 (zlen bs)) as [Hpos|]; [|rewrite Happ, (zlen_app pre); do 3 f_equal; rewrite <- Z.add_assoc; done].
  destruct (exists_last (l := bs)) as (bs0 & b & ->); [by intros -> |]. rewrite bitstring_valid_snoc in Hv by (by apply bytes_ok_app in Hok as [_ [? _]%bytes_ok_cons]).
  apply bool_decide_eq_true_1 in Hv as [_ Hv]. apply bytes_ok_app in Hok as [Hok0 [Hb _]%bytes_ok_cons].
  replace ((pre ++ [k]) ++ (bs0 ++ [b]) ++ post) with (((pre ++ [k]) ++ bs0) ++ [b] ++ post) by by rewrite <- !app_assoc.
  replace (zlen (pre ++ [k]) + zlen (bs0 ++ [b]) - 1) with (zlen ((pre ++ [k]) ++ bs0)) by (rewrite !zlen_app; change (zlen [b]) with 1; lia).
  cbn [app]. rewrite byte_at_app. assert (b .& u8 (Z.shiftl 255 k) = b) as ->.
  { apply clean_padding; [done..|]. destruct Hv as [->|]; [by rewrite Z.land_0_r|done]. }
  change (b :: post) with ([b] ++ post). rewrite (write_at_app ((pre ++ [k]) ++ bs0) [b]) by done.
  f_equal. f_equal. f_equal; [by rewrite <- !app_assoc|]. rewrite !zlen_app. change (zlen [k]) with 1. lia.
Qed.

Section Contents.
Context `{!Allocator}.

Lemma reused_some a type : (∀ n, malloc_ok n = true) → ∃ s, reused a type = Some s.
Proof. intros Hm. unfold reused, ASN1_STRING_type_new. rewrite Hm. destruct a; eauto. Qed.
Lemma c2i_bits a len content rest : zlen content = len → 1 ≤ len ≤ INT_MAX → bytes_ok content → (∀ n, malloc_ok n = true) →
  if CBS_is_valid_asn1_bitstring content
  then ∃ s, c2i_ASN1_BIT_STRING len (a, content ++ rest) = (Some s, (Some s, rest)) ∧ holds_bits s (hd 0 content) (tl content)
  else c2i_ASN1_BIT_STRING len (a, content ++ rest) = (None, (a, content ++ rest)).
Proof.
  intros Hlen Hl Hok Hm. unfold c2i_ASN1_BIT_STRING. rewrite (proj2 (Z.ltb_ge _ 1)), (proj2 (Z.ltb_ge _ len)) by lia.
  destruct (reused_some a V_ASN1_BIT_STRING Hm) as [ret ->]. destruct content as [|k bs]; [change (zlen (@nil Z)) with 0 in Hlen; lia|]. rewrite zlen_cons in Hlen.
  apply bytes_ok_cons in Hok as [Hk Hok]. change (byte_at ((k :: bs) ++ rest) 0) with k. change (drop 1 ((k :: bs) ++ rest)) with (bs ++ rest). cbn [hd tl]. cbv zeta.
  replace (len - 1) with (zlen bs) by lia.
  destruct (Z.ltb_spec 7 k) as [H7|H7].
  { replace (CBS_is_valid_asn1_bitstring (k :: bs)) with false; [done|]. unfold CBS_is_valid_asn1_bitstring. rewrite get_u8_cons. by rewrite (proj2 (Z.ltb_lt _ _)). }
  assert (0 ≤ k ≤ 7) as Hk7 by word_lia. pose proof (flags_padding (sflags ret) k Hk7) as [Hf1 Hf2]. rewrite Hm.
  assert (u8 (Z.shiftl 1 k - 1) = Z.shiftl 1 k - 1) as -> by (pattern k; apply (padding_cases _ k Hk7); reflexivity).
  destruct bs as [|b0 bs0] eqn:Hbs.
  - rewrite bitstring_valid_nil. change (zlen (@nil Z)) with 0. cbn [orb andb]. rewrite andb_true_r. change (0 <? 0) with false. cbv iota.
    destruct (Z.eqb_spec k 0) as [->|Hne]; cbn [negb].
    + rewrite bool_decide_eq_true_2 by lia. eexists. split; [done|]. done.
    + rewrite bool_decide_eq_false_2 by lia. done.
  - rewrite <- Hbs in *. destruct (exists_last (l := bs)) as (bs' & b & E); [by subst|]. clear b0 bs0 Hbs. subst bs.
    apply bytes_ok_app in Hok as [Hok' [Hb _]%bytes_ok_cons]. rewrite bitstring_valid_snoc by done.
    assert (zlen (bs' ++ [b]) - 1 = zlen bs') as -> by (rewrite zlen_app; change (zlen [b]) with 1; lia).
    assert (0 < zlen (bs' ++ [b])) as Hp by (rewrite zlen_app; change (zlen [b]) with 1; pose proof (zlen_nonneg bs'); lia).
    rewrite <- app_assoc. cbn [app]. rewrite byte_at_app. rewrite (proj2 (Z.ltb_ge _ 1)), (proj2 (Z.ltb_lt 0 _)) by lia. cbn [orb].
    destruct (Z.eqb_spec k 0), (Z.eqb_spec (b .& (Z.shiftl 1 k - 1)) 0); cbn [negb andb];
      first [rewrite bool_decide_eq_true_2 by (split; [lia|tauto]) | rewrite bool_decide_eq_false_2 by tauto]; try done;
      (replace (bs' ++ b :: rest) with ((bs' ++ [b]) ++ rest) by by rewrite <- app_assoc);
      rewrite take_app_zlen, drop_app_zlen; eexists; (split; [done|]); done.
Qed.
End Contents.


(** ** BIT STRING: single bits *)

(** Bit [n] of a string of bytes, false behind its end. *)
Definition bit_at (d : bytes) (n : Z) : bool := Z.testbit (byte_at d (n / 8)) (7 - n mod 8).
(** The block holds the string. *)
Definition wf_string (s : asn1_string) : Prop := 0 ≤ slength s ≤ zlen (data_of s) ∧ bytes_ok (data_of s).
Definition contents (s : asn1_string) : bytes := take (Z.to_nat (slength s)) (data_of s).

Lemma byte_at_take d len i : 0 ≤ i → byte_at (take (Z.to_nat len) d) i = if i <? len then byte_at d i else 0.
Proof.
  intros Hi. unfold byte_at. destruct (Z.ltb_spec i len).
  - destruct (decide (i < zlen d)) as [Hd|Hd]; unfold zlen in Hd.
    + rewrite <- (take_drop (Z.to_nat len) d) at 2. rewrite app_nth1; [done|]. rewrite length_take. lia.
    + rewrite !nth_overflow; [done|lia|rewrite length_take; lia].
  - apply nth_overflow. rewrite length_take. lia.
Qed.
Lemma bit_at_take d len n : 0 ≤ n → bit_at (take (Z.to_nat len) d) n = if n / 8 <? len then bit_at d n else false.
Proof. intros Hn. unfold bit_at. rewrite byte_at_take by lia. destruct (_ <? len); [done|]. apply Z.testbit_0_l. Qed.
Lemma strip_zeros_bits fuel d len n : 0 ≤ n →
  bit_at (take (Z.to_nat (strip_zeros fuel d len)) d) n = bit_at (take (Z.to_nat len) d) n ∧ (0 ≤ len → 0 ≤ strip_zeros fuel d len ≤ len).
Proof.
  intros Hn. revert len. induction fuel as [|fuel IH]; intros len; [cbn; split; [done|lia]|]. cbn [strip_zeros].
  destruct (Z.ltb_spec 0 len), (Z.eqb_spec (byte_at d (len - 1)) 0) as [Hz|]; cbn [andb]; try (split; [done|lia]).
  destruct (IH (len - 1)) as [-> Hr]. split; [|lia]. rewrite !bit_at_take by done. destruct (Z.ltb_spec (n / 8) (len - 1)), (Z.ltb_spec (n / 8) len); try done; [lia|].
  unfold bit_at. assert (n / 8 = len - 1) as -> by lia. by rewrite Hz, Z.testbit_0_l.
Qed.
Lemma land_shiftl_bit x i : 0 ≤ i → negb (x .& Z.shiftl 1 i =? 0) = Z.testbit x i.
Proof.
  intros Hi. rewrite Z.shiftl_1_l. destruct (Z.testbit x i) eqn:E.
  - apply negb_true_iff, Z.eqb_neq. intros H. apply (f_equal (λ x, Z.testbit x i)) in H. rewrite Z.land_spec, E, Z.pow2_bits_true, Z.bits_0 in H by done. done.
  - apply negb_false_iff, Z.eqb_eq. apply Z.bits_inj'. intros j Hj. rewrite Z.land_spec, Z.bits_0. destruct (decide (i = j)) as [<-|]; [by rewrite E|].
    rewrite Z.pow2_bits_false by done. apply andb_false_r.
Qed.
Lemma get_bit_spec a n : 0 ≤ n → ASN1_BIT_STRING_get_bit (Some a) n = bit_at (contents a) n.
Proof.
  intros Hn. unfold ASN1_BIT_STRING_get_bit, contents. rewrite bit_at_take by done. rewrite Z.quot_div_nonneg, land_7 by lia.
  rewrite land_shiftl_bit by lia. destruct (Z.ltb_spec (slength a) (n / 8 + 1)), (Z.ltb_spec (n / 8) (slength a)); cbn [orb]; try (done || lia).
  case_bool_decide as Hd; [|done]. unfold bit_at, data_of. rewrite Hd. cbn [default from_option id]. unfold byte_at. rewrite nth_overflow by (cbn; lia). by rewrite Z.testbit_0_l.
Qed.
Lemma set_byte_bits x b i value : is_u8 x → 0 ≤ b < 8 → 0 ≤ i < 8 →
  let v := Z.shiftl 1 b in let v' := if value =? 0 then 0 else v in
  Z.testbit (u8 ((x .& Z.lnot v) .| v')) i = if i =? b then negb (value =? 0) else Z.testbit x i.
Proof.
  intros Hx Hb Hi v v'. unfold wrap. rewrite Z.mod_pow2_bits_low by lia. rewrite Z.lor_spec, Z.land_spec, Z.lnot_spec by lia.
  assert (Z.testbit v i = (i =? b)) as Hv.
  { unfold v. rewrite Z.shiftl_1_l. destruct (Z.eqb_spec i b) as [->|]; [apply Z.pow2_bits_true; lia|apply Z.pow2_bits_false; lia]. }
  unfold v'. rewrite Hv. destruct (value =? 0); [rewrite Z.bits_0|rewrite Hv]; destruct (i =? b), (Z.testbit x i); done.
Qed.
Lemma byte_at_write w b d i : 0 ≤ w < zlen d → 0 ≤ i → byte_at (write_at w [b] d) i = if i =? w then b else byte_at d i.
Proof.
  intros Hw Hi. unfold zlen in Hw. destruct (nth_split d 0 (n := Z.to_nat w)) as (l1 & l2 & E & Hl); [lia|].
  assert (w = zlen l1) as -> by (unfold zlen; lia). set (x := nth _ _ _) in E. clearbody x. subst d. change (x :: l2) with ([x] ++ l2). rewrite write_at_app by done.
  unfold byte_at, zlen. destruct (Z.eqb_spec i (Z.of_nat (length l1))) as [->|].
  - rewrite app_nth2, Nat2Z.id, Nat.sub_diag by lia. done.
  - destruct (decide (i < Z.of_nat (length l1))); [rewrite !app_nth1 by lia; done|]. do 2 rewrite (app_nth2 l1) by lia.
    destruct (Z.to_nat i - length l1)%nat eqn:Hn; [lia|done].
Qed.
Lemma zlen_write_at w b d : 0 ≤ w < zlen d → zlen (write_at w [b] d) = zlen d.
Proof. intros Hw. unfold write_at, zlen in *. rewrite !length_app, length_take, length_drop. cbn [length]. lia. Qed.
Lemma bytes_ok_write_at w b d : is_u8 b → bytes_ok d → bytes_ok (write_at w [b] d).
Proof. intros. unfold write_at. rewrite !bytes_ok_app. split_and!; auto with bytesdb. by apply Forall_cons. Qed.

Section Bits.
Context `{!Allocator}.
Lemma set_in_block data len w b n value : 0 ≤ w < len → len ≤ zlen data → bytes_ok data → 0 ≤ b < 8 →
  let v := Z.shiftl 1 b in let v' := if value =? 0 then 0 else v in
  let data' := write_at w [u8 ((byte_at data w .& Z.lnot v) .| v')] data in
  let len' := strip_zeros (Z.to_nat len) data' len in
  0 ≤ n → (0 ≤ len' ≤ zlen data' ∧ bytes_ok data') ∧
    bit_at (take (Z.to_nat len') data') n = if n =? 8 * w + (7 - b) then negb (value =? 0) else bit_at (take (Z.to_nat len) data) n.
Proof.
  intros Hw Hlen Hok Hb v v' data' len' Hn. subst len'. destruct (strip_zeros_bits (Z.to_nat len) data' len n Hn) as [-> Hr].
  assert (zlen data' = zlen data) as Hz by (apply zlen_write_at; lia). split.
  { split; [lia|]. apply bytes_ok_write_at; [|done]. apply wrap_is_uint. lia. }
  rewrite !bit_at_take by done. unfold bit_at, data'. rewrite byte_at_write by lia.
  assert (is_u8 (byte_at data w)) as Hbyte.
  { unfold byte_at. destruct (nth_in_or_default (Z.to_nat w) data 0) as [Hin| ->]; [|done]. by apply (proj1 (List.Forall_forall _ data) Hok). }
  destruct (Z.eqb_spec (n / 8) w) as [<-|Hne].
  - unfold v', v. rewrite set_byte_bits by (done || lia). rewrite (proj2 (Z.ltb_lt (n / 8) len)) by lia.
    destruct (Z.eqb_spec (7 - n mod 8) b), (Z.eqb_spec n (8 * (n / 8) + (7 - b))); (done || lia).
  - destruct (Z.eqb_spec n (8 * w + (7 - b))); [lia|done].
Qed.
Lemma bytes_ok_fresh from n : bytes_ok (fresh_bytes from n).
Proof. unfold fresh_bytes. apply Forall_fmap, Forall_forall. intros i _. apply wrap_is_uint. lia. Qed.
(** The longer block: the contents and zeros. *)
Lemma grown_block data len w : 0 ≤ len ≤ zlen data → len ≤ w → bytes_ok data →
  let old := take (Z.to_nat (w + 1)) data in
  let c0 := old ++ fresh_bytes (length old) (Z.to_nat (w + 1) - length old) in
  write_at len (repeat 0 (Z.to_nat (w + 1 - len))) c0 = take (Z.to_nat len) data ++ repeat 0 (Z.to_nat (w + 1 - len)).
Proof.
  intros Hlen Hw Hok old c0. unfold write_at. unfold zlen in Hlen.
  assert (length c0 = Z.to_nat (w + 1)) as Hc by (unfold c0, old, fresh_bytes; rewrite length_app, length_fmap, length_seq, length_take; lia).
  rewrite (drop_ge c0), app_nil_r by (rewrite repeat_length; lia). f_equal. unfold c0, old. rewrite take_app_le by (rewrite length_take; lia).
  rewrite take_take. f_equal. lia.
Qed.
Lemma set_bit_ok a n value m : wf_string a → 0 ≤ n → 0 ≤ m →
  match ASN1_BIT_STRING_set_bit (Some a) n value with
  | (true, Some a') => wf_string a' ∧ bit_at (contents a') m = if m =? n then negb (value =? 0) else bit_at (contents a) m
  | (false, Some a') => (¬ ∀ n, malloc_ok n = true) ∧ wf_string a' ∧ bit_at (contents a') m = bit_at (contents a) m
  | (_, None) => False
  end.
Proof.
  intros [Hl Hok] Hn Hm. unfold ASN1_BIT_STRING_set_bit. cbv zeta. cbn [slength stype sdata]. rewrite Z.quot_div_nonneg, land_7 by lia.
  set (w := n / 8). set (b := 7 - n mod 8). assert (n = 8 * w + (7 - b)) as En by (unfold w, b; lia). assert (0 ≤ b < 8) as Hb by (unfold b; lia). assert (0 ≤ w) as Hw by (unfold w; lia).
  destruct ((slength a <? w + 1) || bool_decide (sdata a = None)) eqn:Hc.
  - assert (slength a ≤ w) as Hshort.
    { apply orb_true_iff in Hc as [Hc%Z.ltb_lt|Hc%bool_decide_eq_true]; [lia|]. unfold data_of in Hl. rewrite Hc in Hl. change (zlen (default [] None)) with 0 in Hl. lia. }
    destruct (Z.eqb_spec value 0) as [Hv|Hv].
    + split; [done|]. unfold contents at 1. cbn [slength data_of sdata]. destruct (Z.eqb_spec m n) as [->|]; [|done]. fold (contents a). unfold contents. rewrite bit_at_take by done. fold w. rewrite (proj2 (Z.ltb_ge _ _)) by lia. done.
    + change (data_of _) with (data_of a). destruct (malloc_ok (w + 1)) eqn:Hmem; [|split; [intros Hall; specialize (Hall (w + 1)); congruence|done]].
      rewrite (proj2 (Z.ltb_lt 0 _)) by lia. rewrite grown_block by done. fold (contents a). set (c := contents a ++ _).
      assert (zlen (contents a) = slength a) as Hzc by (unfold contents, zlen in *; rewrite length_take; lia).
      assert (zlen c = w + 1) as Hz by (unfold c; rewrite zlen_app, Hzc; unfold zlen; rewrite repeat_length; lia).
      assert (bytes_ok c) as Hcok.
      { unfold c. apply bytes_ok_app. split; [by apply bytes_ok_take|]. apply Forall_forall. by intros x ->%list_elem_of_In%repeat_spec. }
      destruct (set_in_block c (w + 1) w b m value ltac:(lia) ltac:(lia) Hcok Hb Hm) as [Hwf Hbit]. rewrite (proj2 (Z.eqb_neq value 0)) in Hwf, Hbit by done.
      split; [exact Hwf|]. unfold contents at 1. cbn [slength data_of sdata default from_option id]. rewrite Hbit, <- En.
      destruct (Z.eqb_spec m n) as [|Hmn]; [done|]. rewrite bit_at_take by done. unfold bit_at, c, byte_at. destruct (Z.ltb_spec (m / 8) (w + 1)) as [Hin|Hout].
      * destruct (Z.ltb_spec (m / 8) (slength a)); [rewrite app_nth1 by (unfold zlen in Hzc; lia); done|].
        rewrite app_nth2, nth_repeat by (unfold zlen in Hzc; lia). rewrite (nth_overflow (contents a)) by (unfold zlen in Hzc; lia). done.
      * rewrite (nth_overflow (contents a)) by (unfold zlen in Hzc; lia). by rewrite Z.testbit_0_l.
  - apply orb_false_iff in Hc as [Hlt%Z.ltb_ge _]. destruct (set_in_block (data_of a) (slength a) w b m value ltac:(lia) ltac:(lia) Hok Hb Hm) as [Hwf Hbit].
    split; [exact Hwf|]. refine (eq_trans Hbit _). by rewrite <- En.
Qed.
End Bits.


(** The two modules agree on the bits of a BIT STRING. *)
Lemma has_bit_get_bit s k bs n : holds_bits s k bs → CBS_is_valid_asn1_bitstring (k :: bs) = true → 0 ≤ n < 2 ^ 31 →
  CBS_asn1_bitstring_has_bit (k :: bs) n = ASN1_BIT_STRING_get_bit (Some s) n.
Proof.
  intros (Hl & Hd & _) Hv Hn. change (2 ^ 31) with 2147483648 in Hn. unfold CBS_asn1_bitstring_has_bit. rewrite Hv. cbn [negb]. rewrite get_bit_spec by lia.
  unfold contents. rewrite Hl, Hd, bit_at_take by lia. rewrite shiftr_div, land_7 by lia. change (2 ^ 3) with 8.
  unfold wrap. change (2 ^ 32) with 4294967296. rewrite (Z.mod_small (n / 8 + 1)) by lia. unfold CBS_len. rewrite zlen_cons, land_shiftl_bit by lia.
  destruct (Z.ltb_spec (n / 8 + 1) (1 + zlen bs)), (Z.ltb_spec (n / 8) (zlen bs)); try (done || lia). unfold bit_at, byte_at.
  replace (Z.to_nat (n / 8 + 1)) with (S (Z.to_nat (n / 8))) by lia. done.
Qed.

(** ** The theorems *)

(** C20: [c2i_ASN1_BIT_STRING] accepts exactly the contents that [CBS_is_valid_asn1_bitstring] accepts,
    consumes them, and leaves the caller's string and the input alone otherwise; [i2c_ASN1_BIT_STRING] writes
    the same octets back, in the size it announces, and nothing else; both readers of single bits agree.
    [ASN1_BIT_STRING_set_bit] changes one bit of any string, in place or growing it, or reports that
    there is no memory. *)
Theorem ASN1_BIT_STRING_exact `{!Allocator} a len content rest pre hole post : bytes_ok content → zlen content = len → 1 ≤ len ≤ INT_MAX →
  (∀ n, malloc_ok n = true) → zlen hole = len →
  (if CBS_is_valid_asn1_bitstring content
   then ∃ s, c2i_ASN1_BIT_STRING len (a, content ++ rest) = (Some s, (Some s, rest)) ∧
     i2c_ASN1_BIT_STRING (Some s) None = (len, None) ∧
     i2c_ASN1_BIT_STRING (Some s) (Some (pre ++ hole ++ post, zlen pre)) = (len, Some (pre ++ content ++ post, zlen pre + len)) ∧
     ∀ n, 0 ≤ n < 2 ^ 31 → CBS_asn1_bitstring_has_bit content n = ASN1_BIT_STRING_get_bit (Some s) n
   else c2i_ASN1_BIT_STRING len (a, content ++ rest) = (None, (a, content ++ rest))) ∧
  ∀ s n value, wf_string s → 0 ≤ n → ∃ s', ASN1_BIT_STRING_set_bit (Some s) n value = (true, Some s') ∧ wf_string s' ∧
    ∀ m, 0 ≤ m → ASN1_BIT_STRING_get_bit (Some s') m = if m =? n then negb (value =? 0) else ASN1_BIT_STRING_get_bit (Some s) m.
Proof.
  intros Hok Hlen Hl Hm Hh. split.
  - pose proof (c2i_bits a len content rest Hlen Hl Hok Hm) as Hc. destruct (CBS_is_valid_asn1_bitstring content) eqn:Hv; [|done].
    destruct Hc as (s & -> & Hs). exists s. split; [done|]. destruct content as [|k bs]; [change (zlen (@nil Z)) with 0 in Hlen; lia|]. cbn [hd tl] in Hs.
    apply bytes_ok_cons in Hok as [Hk Hok]. rewrite zlen_cons in Hlen. subst len.
    assert (0 ≤ k ≤ 7) as Hk7.
    { unfold CBS_is_valid_asn1_bitstring in Hv. rewrite get_u8_cons in Hv. destruct (Z.ltb_spec 7 k); [done|]. word_lia. }
    destruct (i2c_bits s k bs pre hole post Hs Hok Hk7 Hv Hh) as [-> ->]. split; [done|]. split; [done|]. intros n Hn. by apply has_bit_get_bit.
  - intros s n value Hs Hn. pose proof (λ m, set_bit_ok s n value m Hs Hn) as Hset. pose proof (Hset 0 ltac:(done)) as H0.
    destruct (ASN1_BIT_STRING_set_bit (Some s) n value) as [[] [s'|]]; [|done|by destruct H0|done].
    exists s'. split; [done|]. split; [by apply H0|]. intros m Hm'. rewrite !get_bit_spec by done. by apply Hset.
Qed.
#[local] Instance roomy_strings : Allocator := {| malloc_ok _ := true; junk _ := 7 |}.
(** Twelve bits, read, written and extended by the bit 17. *)
Lemma ASN1_BIT_STRING_exact_witness : ∃ s,
  c2i_ASN1_BIT_STRING 3 (None, [4; 0xA5; 0xF0; 9]) = (Some s, (Some s, [9])) ∧
  i2c_ASN1_BIT_STRING (Some s) (Some ([1; 2; 3; 4; 5], 1)) = (3, Some ([1; 4; 0xA5; 0xF0; 5], 4)) ∧
  ∃ s', ASN1_BIT_STRING_set_bit (Some s) 17 1 = (true, Some s') ∧ sdata s' = Some [0xA5; 0xF0; 0x40].
Proof.
  destruct (ASN1_BIT_STRING_exact None 3 [4; 0xA5; 0xF0] [9] [1] [2; 3; 4] [5]) as [(s & E & _ & Ew & _) _];
    [repeat constructor; by vm_compute|reflexivity|by vm_compute|reflexivity|reflexivity|].
  exists s. split; [exact E|]. split; [exact Ew|]. vm_compute in E. injection E as <-. eexists. split; reflexivity.
Defined.
