(* ===== verification/AsnInt.v ===== *)
(** * INTEGER and ENUMERATED ([crypto/asn1/a_int.c], [crypto/asn1/a_enum.c])

    An integer is an [asn1_string] that holds the magnitude, most significant byte first, with the sign in
    the type.  The contents octets of DER are two's complement; both conversions negate from the least
    significant byte upwards, zeros first, then one complement plus one, then complements. *)
From S2P Require Export AsnString Words.

Definition V_ASN1_NEG : Z := 0x100.
Definition V_ASN1_ENUMERATED : Z := 10.
Definition V_ASN1_NEG_INTEGER : Z := V_ASN1_INTEGER .| V_ASN1_NEG.
Definition V_ASN1_NEG_ENUMERATED : Z := V_ASN1_ENUMERATED .| V_ASN1_NEG.
Definition LONG_MAX : Z := 2 ^ 63 - 1.

(** ** The conversions *)

(** [while (!*n && i > stop)], with the destination buffer, the indices [n] (source) and [p] (destination), and [i]. *)
Fixpoint copy_zeros (stop : Z) (fuel : nat) (src : bytes) (buf : bytes) (n p i : Z) : bytes * Z * Z * Z :=
  match fuel with
  | O => (buf, n, p, i)
  | S fuel => if (byte_at src n =? 0) && (stop <? i) then copy_zeros stop fuel src (write_at p [0] buf) (n - 1) (p - 1) (i - 1) else (buf, n, p, i)
  end.
(** [for (; i > 0; i--)] *)
Fixpoint complement_rest (fuel : nat) (src : bytes) (buf : bytes) (n p i : Z) : bytes :=
  match fuel with
  | O => buf
  | S fuel => if 0 <? i then complement_rest fuel src (write_at p [Z.lxor (byte_at src n) 0xff] buf) (n - 1) (p - 1) (i - 1) else buf
  end.
(** Complement and increment one byte, complement the ones before it. *)
Definition complement_increment (src buf : bytes) (n p i : Z) : bytes :=
  complement_rest (Z.to_nat i) src (write_at p [u8 (Z.lxor (byte_at src n) 0xff + 1)] buf) (n - 1) (p - 1) (i - 1).

(** [for (i = 1; i < a->length; i++) if (a->data[i])] *)
Definition any_nonzero (data : bytes) (length : Z) : bool := existsb (λ b, negb (b =? 0)) (drop 1 (take (Z.to_nat length) data)).
(** The sign to use, and the padding byte if there is one. *)
Definition integer_pad (a : asn1_string) : bool * option Z :=
  let neg := negb (stype a .& V_ASN1_NEG =? 0) in
  if slength a =? 0 then (neg, None)
  else
    let i := byte_at (data_of a) 0 in
    let neg := if (slength a =? 1) && (i =? 0) then false else neg in
    (neg,
     if negb neg && (127 <? i) then Some 0
     else if neg then
       if 128 <? i then Some 0xFF
       else if (i =? 128) && any_nonzero (data_of a) (slength a) then Some 0xFF else None
     else None).
Definition i2c_ASN1_INTEGER (a : option asn1_string) (pp : output) : Z * output :=
  match a with
  | None => (0, pp)
  | Some a =>
      let '(neg, pad) := integer_pad a in
      let ret := (if slength a =? 0 then 1 else slength a) + match pad with Some _ => 1 | None => 0 end in
      match pp with
      | None => (ret, None)
      | Some (buf, start) =>
          let '(buf, p) := match pad with Some pb => (write_at start [pb] buf, start + 1) | None => (buf, start) end in
          let buf :=
            if slength a =? 0 then write_at p [0] buf
            else if negb neg then write_at p (take (Z.to_nat (slength a)) (data_of a)) buf
            else
              let '(buf, n, p, i) := copy_zeros 1 (Z.to_nat (slength a)) (data_of a) buf (slength a - 1) (p + slength a - 1) (slength a) in
              complement_increment (data_of a) buf n p i in
          (ret, Some (buf, start + ret))
      end
  end.

Section Integers.
Context `{!Allocator}.

(** The magnitude of [len] bytes of two's complement: the type, the block and the length. *)
Definition integer_magnitude (input : bytes) (len : Z) (s : bytes) : Z * bytes * Z :=
  if len =? 0 then (V_ASN1_INTEGER, s, 0)
  else if negb (byte_at input 0 .& 0x80 =? 0) then
    let '(p, len) := if (byte_at input 0 =? 0xff) && negb (len =? 1) then (1, len - 1) else (0, len) in
    let '(s, p, to, i) := copy_zeros 0 (Z.to_nat len) input s (p + len - 1) (len - 1) len in
    if i =? 0 then (V_ASN1_NEG_INTEGER, write_at len [0] (write_at 0 [1] s), len + 1)
    else (V_ASN1_NEG_INTEGER, complement_increment input s p to i, len)
  else
    let '(p, len) := if (byte_at input 0 =? 0) && negb (len =? 1) then (1, len - 1) else (0, len) in
    (V_ASN1_INTEGER, write_at 0 (read_at p len input) s, len).
(** The contents of the next [len] bytes of the input; the state is [*a] and the input. *)
Definition c2i_ASN1_INTEGER (len : Z) : st (option asn1_string * bytes) asn1_string := λ '(a, input),
  if (len <? 0) || (INT_MAX ÷ 2 <? len) then (None, (a, input))
  else
    match reused a V_ASN1_INTEGER with
    | None => (None, (a, input))
    | Some ret =>
        if malloc_ok (len + 1)
        then
          let '(type, s, len') := integer_magnitude input len (fresh_bytes 0 (Z.to_nat (len + 1))) in
          let ret := {| slength := len'; stype := type; sdata := Some s; sflags := sflags ret |} in
          (Some ret, (Some ret, drop (Z.to_nat len) input))
        else (None, (a, input))
    end.

(** ** Machine integers *)

Fixpoint leading_zeros_loop (fuel : nat) (data : bytes) (leading_zeros : Z) : Z :=
  match fuel with
  | O => leading_zeros
  | S fuel => if leading_zeros <? 8 - 1 then if negb (byte_at data leading_zeros =? 0) then leading_zeros else leading_zeros_loop fuel data (leading_zeros + 1) else leading_zeros
  end.
Definition ASN1_INTEGER_set_uint64 (out : asn1_string) (v : Z) : bool * asn1_string :=
  if malloc_ok 8
  then
    let data := le_bytes 8 (CRYPTO_bswap8 v) in
    let leading_zeros := leading_zeros_loop 8 data 0 in
    let length := 8 - leading_zeros in
    (true, {| slength := length; stype := V_ASN1_INTEGER; sdata := Some (write_at 0 (read_at leading_zeros length data) data); sflags := sflags out |})
  else (false, out).
Definition ASN1_INTEGER_set (a : asn1_string) (v : Z) : bool * asn1_string :=
  if 0 <=? v then ASN1_INTEGER_set_uint64 a v
  else
    match ASN1_INTEGER_set_uint64 a (u64 (0 - u64 v)) with
    | (true, a) => (true, {| slength := slength a; stype := V_ASN1_NEG_INTEGER; sdata := sdata a; sflags := sflags a |})
    | r => r
    end.
(** The bytes of the enumerated value, least significant first, and their number. *)
Fixpoint enumerated_bytes (fuel : nat) (d : Z) : bytes :=
  match fuel with
  | O => []
  | S fuel => if d =? 0 then [] else (s32 d .& 0xff) :: enumerated_bytes fuel (d >>> 8)
  end.
(** With [v] above the least [long], which [-d] could not negate. *)
Definition ASN1_ENUMERATED_set (a : asn1_string) (v : Z) : bool * asn1_string :=
  let data :=
    if slength a <? 9 then if malloc_ok 9 then Some (repeat 0 9) else None else sdata a in
  match data with
  | None => (false, {| slength := slength a; stype := V_ASN1_ENUMERATED; sdata := None; sflags := sflags a |})
  | Some data =>
      let '(d, type) := if v <? 0 then (- v, V_ASN1_NEG_ENUMERATED) else (v, V_ASN1_ENUMERATED) in
      let buf := enumerated_bytes 8 d in
      (true, {| slength := zlen buf; stype := type; sdata := Some (write_at 0 (rev buf) data); sflags := sflags a |})
  end.
End Integers.

Definition get_loop (data : bytes) (length : Z) : Z :=
  foldl (λ r64 b, u64 (Z.shiftl r64 8) .| b) 0 (take (Z.to_nat length) data).
(** The common code of the two readers. *)
Definition get_long (type neg_type : Z) (a : option asn1_string) : Z :=
  match a with
  | None => 0
  | Some a =>
      if negb (stype a =? neg_type) && negb (stype a =? type) then -1
      else if 8 <? slength a then -1
      else
        let r64 := match sdata a with Some data => get_loop data (slength a) | None => 0 end in
        if LONG_MAX <? r64 then -1 else if stype a =? neg_type then - r64 else r64
  end.
Definition ASN1_INTEGER_get : option asn1_string → Z := get_long V_ASN1_INTEGER V_ASN1_NEG_INTEGER.
Definition ASN1_ENUMERATED_get : option asn1_string → Z := get_long V_ASN1_ENUMERATED V_ASN1_NEG_ENUMERATED.
Definition ASN1_INTEGER_dup `{!Allocator} (x : option asn1_string) : option asn1_string := ASN1_STRING_dup x.
Definition ASN1_INTEGER_cmp `{!Memcmp} (x y : asn1_string) : Z :=
  let neg := stype x .& V_ASN1_NEG in
  if negb (neg =? stype y .& V_ASN1_NEG) then if negb (neg =? 0) then -1 else 1
  else
    let ret := ASN1_STRING_cmp x y in
    if negb (neg =? 0) then s32 (- ret) else ret.


(** ** Negation of a string of bytes *)

Lemma zlen_repeat {A} (x : A) k : zlen (repeat x k) = Z.of_nat k.
Proof. unfold zlen. by rewrite repeat_length. Qed.
Lemma copy_zeros_spec stop pre_s post_s preb : 0 ≤ stop → ∀ D hole postb fuel, length hole = length D → (length D ≤ fuel)%nat →
  ∃ D1 k hole1, D = D1 ++ repeat 0 k ∧ length hole1 = length D1 ∧ (zlen D1 ≤ stop ∨ List.last D1 0 ≠ 0) ∧ (stop ≤ zlen D → stop ≤ zlen D1) ∧
    copy_zeros stop fuel (pre_s ++ D ++ post_s) (preb ++ hole ++ postb) (zlen pre_s + zlen D - 1) (zlen preb + zlen D - 1) (zlen D) =
    (preb ++ hole1 ++ repeat 0 k ++ postb, zlen pre_s + zlen D1 - 1, zlen preb + zlen D1 - 1, zlen D1).
Proof.
  intros Hstop D. revert post_s. induction D as [|b D IH] using rev_ind; intros post_s hole postb fuel Hh Hf.
  - exists [], 0%nat, []. destruct hole; [|done]. split_and!; [done|done|by left|done|]. destruct fuel; [done|]. cbn [copy_zeros].
    change (zlen []) with 0. rewrite (proj2 (Z.ltb_ge stop 0)) by lia. by rewrite andb_false_r.
  - rewrite length_app in Hh, Hf. cbn [length] in Hh, Hf. destruct (exists_last (l := hole)) as (hole0 & h & ->); [by destruct hole; [cbn in Hh; lia|]|].
    rewrite length_app in Hh. cbn [length] in Hh. destruct fuel as [|fuel]; [lia|]. cbn [copy_zeros].
    assert (zlen (D ++ [b]) = zlen D + 1) as Hz by by rewrite zlen_app.
    replace (zlen pre_s + zlen (D ++ [b]) - 1) with (zlen (pre_s ++ D)) by (rewrite zlen_app; lia).
    replace (zlen preb + zlen (D ++ [b]) - 1) with (zlen (preb ++ hole0)) by (rewrite zlen_app; unfold zlen in *; lia).
    replace (pre_s ++ (D ++ [b]) ++ post_s) with ((pre_s ++ D) ++ b :: post_s) by by rewrite <- !app_assoc. rewrite byte_at_app.
    destruct (Z.eqb_spec b 0) as [Hb|Hb], (Z.ltb_spec stop (zlen (D ++ [b]))); cbn [andb];
      try (exists (D ++ [b]), 0%nat, (hole0 ++ [h]); rewrite app_nil_r, List.last_last, !length_app; cbn [length repeat app]; split_and!; [done|lia|lia|done|];
           rewrite Hz, <- !app_assoc, !zlen_app; cbn [app]; repeat f_equal; unfold zlen in *; lia).
    + subst b. replace (preb ++ (hole0 ++ [h]) ++ postb) with ((preb ++ hole0) ++ [h] ++ postb) by by rewrite <- !app_assoc. rewrite write_at_app by done.
      replace ((preb ++ hole0) ++ [0] ++ postb) with (preb ++ hole0 ++ 0 :: postb) by by rewrite <- !app_assoc.
      replace ((pre_s ++ D) ++ 0 :: post_s) with (pre_s ++ D ++ 0 :: post_s) by by rewrite <- !app_assoc.
      replace (zlen (pre_s ++ D) - 1) with (zlen pre_s + zlen D - 1) by (rewrite zlen_app; lia).
      replace (zlen (preb ++ hole0) - 1) with (zlen preb + zlen D - 1) by (rewrite zlen_app; unfold zlen; lia).
      replace (zlen (D ++ [0]) - 1) with (zlen D) by lia.
      destruct (IH (0 :: post_s) hole0 (0 :: postb) fuel ltac:(lia) ltac:(lia)) as (D1 & k & hole1 & -> & Hh1 & Hl & Hst & ->).
      exists D1, (S k), hole1. split_and!; [|done|done|intros _; apply Hst; lia|].
      * by rewrite <- app_assoc, <- repeat_cons.
      * cbn [repeat]. rewrite (repeat_cons k 0), <- app_assoc. done.
Qed.
Definition complements (D : bytes) : bytes := (λ b, Z.lxor b 0xff) <$> D.
Lemma complement_rest_spec pre_s preb : ∀ D post_s hole postb fuel, length hole = length D → (length D ≤ fuel)%nat →
  complement_rest fuel (pre_s ++ D ++ post_s) (preb ++ hole ++ postb) (zlen pre_s + zlen D - 1) (zlen preb + zlen D - 1) (zlen D) = preb ++ complements D ++ postb.
Proof.
  intros D. induction D as [|b D IH] using rev_ind; intros post_s hole postb fuel Hh Hf.
  - destruct hole; [|done]. by destruct fuel.
  - rewrite length_app in Hh, Hf. cbn [length] in Hh, Hf. destruct (exists_last (l := hole)) as (hole0 & h & ->); [by destruct hole; [cbn in Hh; lia|]|].
    rewrite length_app in Hh. cbn [length] in Hh. destruct fuel as [|fuel]; [lia|]. cbn [complement_rest].
    assert (zlen (D ++ [b]) = zlen D + 1) as Hz by by rewrite zlen_app. rewrite (proj2 (Z.ltb_lt 0 _)) by (pose proof (zlen_nonneg D); lia).
    replace (zlen pre_s + zlen (D ++ [b]) - 1) with (zlen (pre_s ++ D)) by (rewrite zlen_app; lia).
    replace (zlen preb + zlen (D ++ [b]) - 1) with (zlen (preb ++ hole0)) by (rewrite zlen_app; unfold zlen in *; lia).
    replace (pre_s ++ (D ++ [b]) ++ post_s) with ((pre_s ++ D) ++ b :: post_s) by by rewrite <- !app_assoc. rewrite byte_at_app.
    replace (preb ++ (hole0 ++ [h]) ++ postb) with ((preb ++ hole0) ++ [h] ++ postb) by by rewrite <- !app_assoc. rewrite write_at_app by done.
    replace ((preb ++ hole0) ++ [Z.lxor b 255] ++ postb) with (preb ++ hole0 ++ Z.lxor b 255 :: postb) by by rewrite <- !app_assoc.
    replace ((pre_s ++ D) ++ b :: post_s) with (pre_s ++ D ++ b :: post_s) by by rewrite <- !app_assoc.
    replace (zlen (pre_s ++ D) - 1) with (zlen pre_s + zlen D - 1) by (rewrite zlen_app; lia).
    replace (zlen (preb ++ hole0) - 1) with (zlen preb + zlen D - 1) by (rewrite zlen_app; unfold zlen; lia).
    replace (zlen (D ++ [b]) - 1) with (zlen D) by lia. rewrite IH by lia. unfold complements. rewrite fmap_app. by rewrite <- app_assoc.
Qed.

Lemma complement_byte b : is_u8 b → Z.lxor b 0xff = 255 - b.
Proof. intros Hb. byte_crush b Hb. Qed.
Lemma bytes_ok_complements D : bytes_ok D → bytes_ok (complements D).
Proof.
  intros HD. unfold complements. apply Forall_fmap. eapply Forall_impl; [exact HD|]. intros b Hb. cbn. rewrite complement_byte by done. word_lia.
Qed.
Lemma be_val_complements D : bytes_ok D → be_val (complements D) = 256 ^ zlen D - 1 - be_val D.
Proof.
  intros HD. induction D as [|b D IH]; [done|]. apply bytes_ok_cons in HD as [Hb HD]. unfold complements in *. rewrite fmap_cons, !be_val_cons, IH, complement_byte by done.
  rewrite zlen_cons, Z.pow_add_r by (pose proof (zlen_nonneg D); lia). assert (zlen ((λ b, Z.lxor b 255) <$> D) = zlen D) as -> by (unfold zlen; by rewrite length_fmap). lia.
Qed.
Lemma be_val_repeat_0 k : be_val (repeat 0 k) = 0.
Proof. induction k as [|k IH]; [done|]. cbn [repeat]. rewrite be_val_cons, IH. lia. Qed.
Lemma bytes_ok_repeat_0 k : bytes_ok (repeat 0 k).
Proof. apply Forall_forall. by intros x ->%list_elem_of_In%repeat_spec. Qed.
Lemma negated_bytes D0 b k : bytes_ok D0 → is_u8 b → (b ≠ 0 ∨ D0 = []) → let D := D0 ++ b :: repeat 0 k in
  complements D0 ++ u8 (Z.lxor b 0xff + 1) :: repeat 0 k = be_bytes (length D) (- be_val D).
Proof.
  intros HD Hb Hz D. assert (length (complements D0) = length D0) as Hl by (unfold complements; apply length_fmap).
  apply be_val_inj.
  - apply bytes_ok_app. split; [by apply bytes_ok_complements|]. apply bytes_ok_cons. split; [apply wrap_is_uint; lia|apply bytes_ok_repeat_0].
  - auto with bytesdb.
  - rewrite length_be_bytes. unfold D. rewrite !length_app, Hl. done.
  - rewrite be_val_be_bytes. unfold D. rewrite !be_val_app, !be_val_cons, be_val_repeat_0, be_val_complements, complement_byte by done.
    rewrite length_app. cbn [length]. rewrite repeat_length. unfold zlen. cbn [length]. rewrite repeat_length.
    pose proof (be_val_bound D0 HD) as HX. unfold zlen in HX. set (X := be_val D0) in *.
    assert (0 < 256 ^ Z.of_nat k) as HK by (apply Z.pow_pos_nonneg; lia).
    assert (0 < 256 ^ Z.of_nat (length D0)) as HM by (apply Z.pow_pos_nonneg; lia).
    rewrite Nat2Z.inj_add, Nat2Z.inj_succ, Z.pow_add_r, Z.pow_succ_r by lia.
    set (K := 256 ^ Z.of_nat k) in *. set (M := 256 ^ Z.of_nat (length D0)) in *.
    destruct (decide (b = 0)) as [->|Hne].
    + destruct Hz as [|E]; [done|]. assert (M = 1 ∧ X = 0) as [-> ->] by (unfold M, X; by rewrite E). change (u8 (255 - 0 + 1)) with 0.
      apply Z.mod_unique_pos with (q := 0); lia.
    + assert (u8 (255 - b + 1) = 256 - b) as ->.
      { unfold wrap. change (2 ^ 8) with 256. rewrite Z.mod_small; word_lia. }
      word_bounds. apply Z.mod_unique_pos with (q := -1); [|lia]. clear -HX HK HM Hb Hne. split; nia.
Qed.
(** Zeros, one increment, complements: the negation, in place of [hole]. *)
Lemma negate_spec stop pre_s post_s preb D hole postb : 0 ≤ stop ≤ 1 → bytes_ok D → D ≠ [] → (stop = 0 → be_val D ≠ 0) → length hole = length D →
  ∃ buf n p i, copy_zeros stop (Z.to_nat (zlen D)) (pre_s ++ D ++ post_s) (preb ++ hole ++ postb) (zlen pre_s + zlen D - 1) (zlen preb + zlen D - 1) (zlen D) = (buf, n, p, i) ∧
    0 < i ∧ complement_increment (pre_s ++ D ++ post_s) buf n p i = preb ++ be_bytes (length D) (- be_val D) ++ postb.
Proof.
  intros Hstop Hok Hne Hnz Hh. rewrite to_nat_zlen.
  destruct (copy_zeros_spec stop pre_s post_s preb ltac:(lia) D hole postb (length D) Hh ltac:(lia)) as (D1 & k & hole1 & E & Hh1 & Hl & Hst & ->).
  do 4 eexists. split; [done|].
  assert (1 ≤ zlen D) as HD1 by (destruct D; [done|]; rewrite zlen_cons; pose proof (zlen_nonneg D); lia).
  assert (D1 ≠ []) as Hne1.
  { intros ->. change (zlen []) with 0 in Hst. apply Hnz; [lia|]. rewrite E. apply be_val_repeat_0. }
  destruct (exists_last Hne1) as (D0 & b & ->). rewrite List.last_last, zlen_app in Hl. change (zlen [b]) with 1 in Hl.
  assert (b ≠ 0 ∨ D0 = []) as Hb by (destruct Hl; [right; destruct D0; [done|]; rewrite zlen_cons in *; pose proof (zlen_nonneg D0); lia|by left]).
  rewrite <- app_assoc in E. cbn [app] in E. subst D. apply bytes_ok_app in Hok as [Hok0 [Hokb _]%bytes_ok_cons].
  rewrite <- negated_bytes by done. rewrite !zlen_app. change (zlen [b]) with 1. pose proof (zlen_nonneg D0). split; [lia|].
  destruct (exists_last (l := hole1)) as (hole0 & h & ->); [intros ->; rewrite length_app in Hh1; cbn in Hh1; lia|]. rewrite !length_app in Hh1. cbn [length] in Hh1.
  unfold complement_increment. replace (zlen pre_s + (zlen D0 + 1) - 1) with (zlen (pre_s ++ D0)) by (rewrite zlen_app; lia).
  replace (zlen preb + (zlen D0 + 1) - 1) with (zlen (preb ++ hole0)) by (rewrite zlen_app; unfold zlen; lia).
  replace (pre_s ++ (D0 ++ b :: repeat 0 k) ++ post_s) with ((pre_s ++ D0) ++ b :: repeat 0 k ++ post_s) by by rewrite <- !app_assoc. rewrite byte_at_app.
  replace (preb ++ (hole0 ++ [h]) ++ repeat 0 k ++ postb) with ((preb ++ hole0) ++ [h] ++ repeat 0 k ++ postb) by by rewrite <- !app_assoc. rewrite write_at_app by done.
  set (c := u8 _). rewrite <- !app_assoc. replace (zlen (pre_s ++ D0) - 1) with (zlen pre_s + zlen D0 - 1) by (rewrite zlen_app; lia).
  replace (zlen (preb ++ hole0) - 1) with (zlen preb + zlen D0 - 1) by (rewrite zlen_app; unfold zlen; lia). replace (zlen D0 + 1 - 1) with (zlen D0) by lia.
  rewrite complement_rest_spec by (unfold zlen; lia). done.
Qed.


(** ** Representation *)

(** The value of the object: the magnitude in the contents, the sign in the type. *)
Definition integer_value (a : asn1_string) : Z := (if stype a .& V_ASN1_NEG =? 0 then 1 else -1) * be_val (contents a).
(** The one representation of [v] without leading zeros. *)
Record represents (a : asn1_string) (v : Z) : Prop := {
  rep_wf : wf_string a;
  rep_type : stype a = if v <? 0 then V_ASN1_NEG_INTEGER else V_ASN1_INTEGER;
  rep_value : be_val (contents a) = Z.abs v;
  rep_length : 1 ≤ slength a;
  rep_minimal : slength a = 1 ∨ 256 ^ (slength a - 1) ≤ Z.abs v }.

Lemma zlen_contents a : wf_string a → zlen (contents a) = slength a.
Proof. intros [Hl _]. unfold contents, zlen in *. rewrite length_take. lia. Qed.
Lemma bytes_ok_contents a : wf_string a → bytes_ok (contents a).
Proof. intros [_ Hok]. by apply bytes_ok_take. Qed.
Lemma contents_block a : wf_string a → data_of a = contents a ++ drop (length (contents a)) (data_of a).
Proof.
  intros Ha. rewrite <- (to_nat_zlen (contents a)), zlen_contents by done. unfold contents. by rewrite take_drop.
Qed.
(** Two's complement of [m] bytes. *)
Lemma int_val_be_bytes m v : (1 ≤ m)%nat → - 256 ^ Z.of_nat m ≤ 2 * v < 256 ^ Z.of_nat m → int_val (be_bytes m v) = v.
Proof.
  intros Hm Hv. destruct m as [|k]; [lia|]. unfold int_val. rewrite be_val_be_bytes, zlen_be_bytes. cbn [be_bytes hd].
  rewrite Nat2Z.inj_succ, Z.pow_succ_r in * by lia. set (K := 256 ^ Z.of_nat k) in *. assert (0 < K) by (apply Z.pow_pos_nonneg; lia).
  pose proof (Z.div_mod v K ltac:(lia)) as Hdm. pose proof (Z.mod_pos_bound v K ltac:(lia)) as Hmb.
  rewrite (Z.mul_comm 256), Z.rem_mul_r by lia. set (q := v / K) in *. set (r := v mod K) in *.
  assert (-128 ≤ q < 128) by (clear -Hv Hdm Hmb; clearbody q r K; nia).
  case_decide; [assert (q mod 256 = q + 256) as -> by lia|assert (q mod 256 = q) as -> by lia]; lia.
Qed.
Lemma int_octets_intro m v : (1 ≤ m)%nat → - 256 ^ Z.of_nat m ≤ 2 * v < 256 ^ Z.of_nat m →
  (m = 1%nat ∨ 2 * v < - 256 ^ (Z.of_nat m - 1) ∨ 256 ^ (Z.of_nat m - 1) ≤ 2 * v) → be_bytes m v = int_octets v.
Proof. intros. unfold int_octets. by rewrite (int_octets_length v m). Qed.

(** The octets that [i2c_ASN1_INTEGER] writes. *)
Definition integer_octets (a : asn1_string) : bytes :=
  if slength a =? 0 then [0]
  else let '(neg, pad) := integer_pad a in
    (match pad with Some pb => [pb] | None => [] end) ++ (if neg then be_bytes (length (contents a)) (- be_val (contents a)) else contents a).
Lemma i2c_octets a pre hole post : wf_string a → zlen hole = zlen (integer_octets a) →
  i2c_ASN1_INTEGER (Some a) None = (zlen (integer_octets a), None) ∧
  i2c_ASN1_INTEGER (Some a) (Some (pre ++ hole ++ post, zlen pre)) =
    (zlen (integer_octets a), Some (pre ++ integer_octets a ++ post, zlen pre + zlen (integer_octets a))).
Proof.
  intros Ha. pose proof (zlen_contents a Ha) as Hz. unfold integer_octets, i2c_ASN1_INTEGER.
  destruct (Z.eqb_spec (slength a) 0) as [H0|H0].
  { unfold integer_pad. rewrite (proj2 (Z.eqb_eq _ _)) by done. intros Hh. split; [done|]. destruct hole as [|h [|? ?]]; [done| |rewrite !zlen_cons in Hh; change (zlen [0]) with 1 in Hh; pose proof (zlen_nonneg l); change (zlen (@nil Z)) with 0 in *; lia].
    by rewrite (write_at_app pre [h]). }
  destruct (integer_pad a) as [neg pad]. set (body := if neg then _ else _).
  assert (zlen body = slength a) as Hb by (subst body; destruct neg; [unfold zlen; rewrite length_be_bytes|]; exact Hz).
  rewrite zlen_app. assert (zlen match pad with Some pb => [pb] | None => [] end = match pad with Some _ => 1 | None => 0 end) as -> by by destruct pad.
  intros Hh. split; [f_equal; lia|].
  assert (∀ pre' hole', zlen hole' = slength a →
    (if negb neg then write_at (zlen pre') (take (Z.to_nat (slength a)) (data_of a)) (pre' ++ hole' ++ post)
     else let '(buf, n, p, i) := copy_zeros 1 (Z.to_nat (slength a)) (data_of a) (pre' ++ hole' ++ post) (slength a - 1) (zlen pre' + slength a - 1) (slength a) in
       complement_increment (data_of a) buf n p i) = pre' ++ body ++ post) as Hbody.
  { intros pre' hole' Hh'. fold (contents a). subst body. destruct neg; cbn [negb]; [|apply write_at_app; unfold zlen in *; lia].
    assert (contents a ≠ []) as Hne by (intros E; rewrite E in Hz; change (zlen (@nil Z)) with 0 in Hz; lia).
    destruct (negate_spec 1 [] (drop (length (contents a)) (data_of a)) pre' (contents a) hole' post ltac:(lia) (bytes_ok_contents a Ha) Hne ltac:(lia) ltac:(unfold zlen in *; lia)) as (buf & n & p & i & E & _ & Ec).
    cbn [app] in E, Ec. rewrite <- contents_block in E, Ec by done. change (zlen []) with 0 in E. rewrite Z.add_0_l, Hz in E. by rewrite E. }
  destruct pad as [pb|].
  - destruct hole as [|h hole]; [change (zlen (@nil Z)) with 0 in Hh; pose proof (zlen_nonneg body); lia|]. rewrite zlen_cons in Hh.
    change ((h :: hole) ++ post) with ([h] ++ hole ++ post). rewrite (write_at_app pre [h]) by done.
    replace (pre ++ [pb] ++ hole ++ post) with ((pre ++ [pb]) ++ hole ++ post) by by rewrite <- app_assoc.
    assert (zlen pre + 1 = zlen (pre ++ [pb])) as -> by by rewrite zlen_app. rewrite Hbody by lia. rewrite Hb, <- !app_assoc. by rewrite (Z.add_comm (slength a)).
  - rewrite Hbody by lia. rewrite Hb. cbn [app]. by rewrite Z.add_0_r, Z.add_0_l.
Qed.


Lemma any_nonzero_spec d : bytes_ok d → any_nonzero d (zlen d) = negb (be_val (drop 1 d) =? 0).
Proof.
  intros Hok. unfold any_nonzero. rewrite to_nat_zlen, firstn_all. assert (bytes_ok (drop 1 d)) as H by auto with bytesdb. clear Hok.
  induction H as [|b l Hb Hl IH]; [done|]. cbn [existsb]. rewrite IH, be_val_cons. pose proof (be_val_bound l Hl).
  destruct (Z.eqb_spec b 0) as [->|], (Z.eqb_spec (be_val l) 0) as [->|]; cbn [negb orb]; symmetry; try (apply negb_true_iff, Z.eqb_neq); try (apply negb_false_iff, Z.eqb_eq); try lia; word_bounds; nia.
Qed.
Lemma be_bytes_pad pb m v : pb = (v / 256 ^ Z.of_nat m) mod 256 → [pb] ++ be_bytes m v = be_bytes (S m) v.
Proof. by intros ->. Qed.
(** The first byte bounds the value from both sides. *)
Lemma head_bounds b l : is_u8 b → bytes_ok l → let X := be_val (b :: l) in let M := 256 ^ zlen l in
  0 < M ∧ b * M ≤ X < (b + 1) * M ∧ X = b * M + be_val l ∧ 256 ^ zlen (b :: l) = 256 * M.
Proof.
  intros Hb Hl X M. pose proof (be_val_bound l Hl). unfold X. rewrite be_val_cons, zlen_cons, Z.pow_add_r, Z.pow_1_r by (pose proof (zlen_nonneg l); lia). fold M in H |- *. split_and!; lia.
Qed.
(** [e] is the two's complement of [v], and a shortest one if [strong]. *)
Definition twos_complement (e : bytes) (v : Z) (strong : Prop) : Prop := ∃ m, (1 ≤ m)%nat ∧ e = be_bytes m v ∧
  - 256 ^ Z.of_nat m ≤ 2 * v < 256 ^ Z.of_nat m ∧
  (strong → m = 1%nat ∨ 2 * v < - 256 ^ (Z.of_nat m - 1) ∨ 256 ^ (Z.of_nat m - 1) ≤ 2 * v).
Lemma magnitude_octets b l strong : is_u8 b → bytes_ok l → (strong → b ≠ 0 ∨ l = []) →
  let d := b :: l in let X := be_val d in let n := length d in let M := 256 ^ zlen l in
  (b ≤ 127 → twos_complement d X strong) ∧ (127 < b → twos_complement ([0] ++ d) X strong) ∧
  (X ≤ 128 * M → twos_complement (be_bytes n (- X)) (- X) strong) ∧ (128 * M < X → twos_complement ([255] ++ be_bytes n (- X)) (- X) strong).
Proof.
  intros Hb Hl Hstrong d X n M. destruct (head_bounds b l Hb Hl) as (HM & HX & EX & EM). fold d X M in HM, HX, EX, EM. pose proof (be_val_bound l Hl) as Hlb.
  assert (be_bytes n X = d) as Hself by (apply (be_bytes_be_val d); by apply bytes_ok_cons).
  assert (256 ^ Z.of_nat n = 256 * M) as En by exact EM. assert (256 ^ (Z.of_nat n - 1) = M) as En1 by (unfold M, n, d; cbn [length]; f_equal; unfold zlen; lia).
  assert (256 ^ Z.of_nat (S n) = 65536 * M) as ES by (rewrite Nat2Z.inj_succ, Z.pow_succ_r, En by lia; lia).
  assert (256 ^ (Z.of_nat (S n) - 1) = 256 * M) as ES1 by (rewrite <- En; f_equal; lia).
  assert (l = [] → n = 1%nat) as Hn1 by (unfold n, d; by intros ->). assert (1 ≤ n)%nat as Hn by (unfold n, d; cbn; lia).
  assert (0 ≤ X < 256 * M) as HX0 by (word_bounds; nia). clearbody X M n. unfold twos_complement.
  split_and!; intros Hc.
  - exists n. rewrite En, En1. split; [done|]. split; [done|]. split; [nia|]. intros [?|?]%Hstrong; [right; right; word_bounds; nia|left; auto].
  - exists (S n). rewrite ES, ES1. split; [lia|]. split.
    { rewrite <- (be_bytes_pad 0), Hself; [done|]. by rewrite En, Z.div_small by lia. }
    split; [lia|]. intros _. right. right. nia.
  - exists n. rewrite En, En1. split; [done|]. split; [done|]. split; [lia|]. intros [?|?]%Hstrong; [right; left; word_bounds; nia|left; auto].
  - exists (S n). rewrite ES, ES1. split; [lia|]. split.
    { rewrite <- (be_bytes_pad 255); [done|]. rewrite En. apply Z.mod_unique_pos with (q := -1); [lia|].
      symmetry. apply Z.div_unique_pos with (r := 256 * M - X); lia. }
    split; [lia|]. intros _. right. left. lia.
Qed.
Lemma integer_octets_value a : wf_string a →
  twos_complement (integer_octets a) (integer_value a) (slength a ≤ 1 ∨ hd 0 (contents a) ≠ 0).
Proof.
  intros Ha. pose proof (zlen_contents a Ha) as Hz. pose proof (bytes_ok_contents a Ha) as Hok. unfold integer_octets, integer_value.
  destruct (Z.eqb_spec (slength a) 0) as [H0|H0].
  { assert (contents a = []) as -> by (destruct (contents a); [done|rewrite zlen_cons in Hz; pose proof (zlen_nonneg l); lia]).
    exists 1%nat. change (be_val []) with 0. rewrite Z.mul_0_r. split; [lia|]. split; [done|]. split; [done|by left]. }
  unfold integer_pad. rewrite (proj2 (Z.eqb_neq _ 0)) by done.
  destruct (contents a) as [|b l] eqn:Hc; [change (zlen (@nil Z)) with 0 in Hz; lia|].
  assert (byte_at (data_of a) 0 = b) as -> by (rewrite (contents_block a Ha), Hc; done).
  assert (any_nonzero (data_of a) (slength a) = negb (be_val l =? 0)) as ->.
  { refine (eq_trans _ (any_nonzero_spec (b :: l) Hok)). unfold any_nonzero. rewrite to_nat_zlen, firstn_all. fold (contents a). by rewrite Hc. }
  apply bytes_ok_cons in Hok as [Hb Hl]. rewrite zlen_cons in Hz.
  assert (slength a ≤ 1 ∨ hd 0 (b :: l) ≠ 0 → b ≠ 0 ∨ l = []) as Hstrong.
  { intros [?|?]; [right; apply nil_length_inv; unfold zlen in Hz; lia|by left]. }
  destruct (magnitude_octets b l _ Hb Hl Hstrong) as (HA & HB & HC & HD). cbv zeta in HA, HB, HC, HD.
  destruct (head_bounds b l Hb Hl) as (HM & HX & EX & _). cbv zeta in HM, HX, EX. pose proof (be_val_bound l Hl) as Hlb.
  destruct (Z.eqb_spec (stype a .& V_ASN1_NEG) 0) as [Hs|Hs]; cbn [negb].
  { rewrite Z.mul_1_l. replace (if (slength a =? 1) && (b =? 0) then false else false) with false by (by destruct (_ && _)). cbn [negb andb].
    destruct (Z.ltb_spec 127 b) as [H7|H7]; auto. }
  replace (-1 * be_val (b :: l)) with (- be_val (b :: l)) by lia.
  destruct ((slength a =? 1) && (b =? 0)) eqn:Hzero.
  { apply andb_true_iff in Hzero as [?%Z.eqb_eq ->%Z.eqb_eq]. assert (l = []) as -> by (apply nil_length_inv; unfold zlen in Hz; lia). cbn. exists 1%nat. repeat split; try done. by left. }
  cbn [negb andb]. set (X := be_val (b :: l)) in *. set (M := 256 ^ zlen l) in *. destruct (Z.ltb_spec 128 b).
  - apply HD. nia.
  - destruct (Z.eqb_spec b 128) as [->|Hne]; cbn [andb].
    + destruct (Z.eqb_spec (be_val l) 0) as [E0|E0]; cbn [negb]; [apply HC; lia|apply HD; lia].
    + apply HC. assert ((b + 1) * M ≤ 128 * M) by (apply Z.mul_le_mono_nonneg_r; lia). lia.
Qed.


(** ** Reading contents octets *)

(** What the conversion leaves: the magnitude [mag] at the start of the block. *)
Definition magnitude_result (r : Z * bytes * Z) (v : Z) (mag : bytes) : Prop :=
  ∃ tail, r = (if v <? 0 then V_ASN1_NEG_INTEGER else V_ASN1_INTEGER, mag ++ tail, zlen mag) ∧ bytes_ok mag ∧ bytes_ok tail ∧ be_val mag = Z.abs v.
Lemma negative_magnitude D pre rest s v : bytes_ok D → D ≠ [] → bytes_ok s → length s = S (length D) ∨ length s = S (S (length D)) → v = be_val D - 256 ^ zlen D → (be_val D = 0 → length s = S (S (length D))) →
  ∃ mag, (be_val D ≠ 0 → length mag = length D) ∧ (be_val D = 0 → length mag = S (length D)) ∧ magnitude_result
    (let '(s, p, to, i) := copy_zeros 0 (Z.to_nat (zlen D)) (pre ++ D ++ rest) s (zlen pre + zlen D - 1) (zlen D - 1) (zlen D) in
     if i =? 0 then (V_ASN1_NEG_INTEGER, write_at (zlen D) [0] (write_at 0 [1] s), zlen D + 1)
     else (V_ASN1_NEG_INTEGER, complement_increment (pre ++ D ++ rest) s p to i, zlen D)) v mag.
Proof.
  intros HD Hne Hs Hlen Hv Hspecial. pose proof (be_val_bound D HD) as HX. assert (v < 0) as Hneg by lia.
  destruct (split_block s (length D)) as (hole & tail & -> & Hh); [lia|]. rewrite length_app in *. apply bytes_ok_app in Hs as [_ Htail].
  destruct (decide (be_val D = 0)) as [Hz|Hnz].
  - specialize (Hspecial Hz). assert (D = repeat 0 (length D)) as ED.
    { apply be_val_inj; [done|apply bytes_ok_repeat_0|by rewrite repeat_length|by rewrite be_val_repeat_0]. }
    destruct (copy_zeros_spec 0 pre rest [] ltac:(lia) D hole tail (length D) Hh ltac:(lia)) as (D1 & k & hole1 & E & Hh1 & Hl & _ & Eq).
    assert (D1 = []) as ->.
    { destruct Hl as [Hl|Hl]; [apply nil_length_inv; unfold zlen in Hl; lia|]. destruct (exists_last (l := D1)) as (D0 & b & ->); [intros ->; done|].
      rewrite List.last_last in Hl. destruct Hl. rewrite E in ED. apply (f_equal (λ l, nth (length D0) l 0)) in ED. rewrite <- app_assoc, app_nth2, Nat.sub_diag in ED by lia. cbn in ED. by rewrite nth_repeat in ED. }
    destruct hole1; [|done]. cbn [app] in E, Eq. change (zlen []) with 0 in Eq. rewrite Z.add_0_l in Eq. rewrite to_nat_zlen, Eq. change (0 =? 0) with true. cbv iota.
    assert (k = length D) as -> by (rewrite E, repeat_length; done). destruct (length D) as [|d] eqn:Hd; [by destruct D|].
    destruct tail as [|t0 tail]; [cbn in Hspecial; lia|]. apply bytes_ok_cons in Htail as [_ Htail]. assert (zlen D = 1 + Z.of_nat d) as HzD by (unfold zlen; lia).
    exists (1 :: repeat 0 (S d)). split; [done|]. split; [intros _; cbn [length]; by rewrite repeat_length|]. exists tail. split; [|split_and!].
    + cbn [repeat]. change (write_at 0 [1] ((0 :: repeat 0 d) ++ t0 :: tail)) with (1 :: repeat 0 d ++ t0 :: tail). rewrite (proj2 (Z.ltb_lt v 0)) by done.
      replace (1 :: repeat 0 d ++ t0 :: tail) with ((1 :: repeat 0 d) ++ [t0] ++ tail) by done. replace (zlen D) with (zlen (1 :: repeat 0 d)) by (rewrite zlen_cons, zlen_repeat; lia).
      rewrite (write_at_app (1 :: repeat 0 d) [t0] tail [0]) by done. f_equal; [f_equal|rewrite !zlen_cons, !zlen_repeat; lia]. cbn [app]. f_equal. change (0 :: tail) with ([0] ++ tail). rewrite app_assoc, <- repeat_cons. done.
    + apply bytes_ok_cons. split; [done|apply bytes_ok_repeat_0].
    + done.
    + rewrite be_val_cons, zlen_repeat, be_val_repeat_0, Hv, Hz. unfold zlen. rewrite Hd. lia.
  - destruct (negate_spec 0 pre rest [] D hole tail ltac:(lia) HD Hne ltac:(done) Hh) as (buf & n & p & i & E & Hi & Ec).
    change (zlen []) with 0 in E. rewrite Z.add_0_l in E. cbn [app] in E, Ec. rewrite E, (proj2 (Z.eqb_neq i 0)), Ec by lia.
    exists (be_bytes (length D) (- be_val D)). split; [intros _; apply length_be_bytes|]. split; [done|]. exists tail. split_and!; [|auto with bytesdb|done|].
    + rewrite (proj2 (Z.ltb_lt v 0)) by done. by rewrite zlen_be_bytes.
    + rewrite be_val_be_bytes, Hv. fold (zlen D). symmetry. apply Z.mod_unique_pos with (q := -1); lia.
Qed.

(** No shorter two's complement has the value. *)
Definition minimal_length (n v : Z) : Prop := n = 1 ∨ 2 * v < - 256 ^ (n - 1) ∨ 256 ^ (n - 1) ≤ 2 * v.
Lemma high_bit b : is_u8 b → negb (b .& 0x80 =? 0) = (128 <=? b).
Proof. intros Hb. byte_crush b Hb. Qed.
Lemma copied_magnitude pre D rest s v : bytes_ok D → bytes_ok s → (length D ≤ length s)%nat → v = be_val D →
  magnitude_result (V_ASN1_INTEGER, write_at 0 (read_at (zlen pre) (zlen D) (pre ++ D ++ rest)) s, zlen D) v D.
Proof.
  intros HD Hs Hlen Hv. destruct (split_block s (length D)) as (hole & tail & -> & Hh); [lia|]. apply bytes_ok_app in Hs as [_ Htail]. pose proof (be_val_bound D HD).
  exists tail. rewrite (proj2 (Z.ltb_ge v 0)) by lia. split_and!; [|done|done|lia]. unfold read_at. rewrite drop_app_zlen, take_app_zlen.
  f_equal. f_equal. exact (write_at_app [] hole tail D Hh).
Qed.
Lemma integer_magnitude_ok content rest s : bytes_ok content → bytes_ok s → length s = S (length content) → ∃ mag,
  magnitude_result (integer_magnitude (content ++ rest) (zlen content) s) (int_val content) mag ∧
  (1 ≤ zlen content → minimal_length (zlen content) (int_val content) → 1 ≤ zlen mag ∧ (zlen mag = 1 ∨ 256 ^ (zlen mag - 1) ≤ Z.abs (int_val content))).
Proof.
  intros Hok Hs Hlen. unfold integer_magnitude. destruct content as [|b l].
  { exists []. split; [|by intros]. exists s. split_and!; [done|constructor|done|done]. }
  destruct (bytes_ok_cons b l) as [[Hb Hl] _]; [done|]. rewrite zlen_cons. rewrite (proj2 (Z.eqb_neq _ 0)) by (pose proof (zlen_nonneg l); lia).
  change (byte_at ((b :: l) ++ rest) 0) with b. rewrite high_bit by done. destruct (head_bounds b l Hb Hl) as (HM & HX & EX & EM). cbv zeta in HM, HX, EX, EM.
  pose proof (be_val_bound l Hl) as Hlb. unfold int_val. cbn [hd]. unfold minimal_length.
  assert (b ≠ 0 ∨ l = [] ∨ (b = 0 ∧ l ≠ [])) as Hshape by (destruct (decide (b = 0)), l; auto).
  assert (l ≠ [] → 1 ≤ zlen l ∧ 256 ^ zlen l = 256 * 256 ^ (zlen l - 1) ∧ 0 < 256 ^ (zlen l - 1)) as Hpred.
  { intros Hne. assert (1 ≤ zlen l) by (destruct l; [done|]; rewrite zlen_cons; pose proof (zlen_nonneg l); lia).
    split_and!; [done| |apply Z.pow_pos_nonneg; lia]. rewrite <- Z.pow_succ_r by lia. f_equal. lia. }
  assert ((1 + zlen l =? 1) = bool_decide (l = [])) as ->.
  { case_bool_decide as E; [by rewrite E|]. apply Z.eqb_neq. destruct (Hpred E). lia. }
  destruct (Z.leb_spec 128 b) as [H128|H128].
  - rewrite decide_True by done. set (v := be_val (b :: l) - _).
    destruct (Z.eqb_spec b 255) as [->|Hne]; [|set (c := bool_decide _); change (false && negb c) with false; cbv iota; subst c].
    + case_bool_decide as El; cbn [negb andb].
      * subst l. destruct (negative_magnitude [255] [] rest s v) as (mag & Hm & _ & Hr); [done..|by left|done|done|]. exists mag. split; [exact Hr|].
        intros _ _. specialize (Hm ltac:(done)). unfold zlen. rewrite Hm. cbn. split; [lia|by left].
      * replace (1 + zlen l - 1) with (zlen l) by lia. destruct (Hpred El) as (H1 & Ep & Hp).
        destruct (negative_magnitude l [255] rest s v) as (mag & Hm & Hm0 & Hr); [done..|by right|unfold v; lia|by intros _|]. exists mag.
        split; [exact Hr|]. intros _ Hmin. assert (v = be_val l - 256 ^ zlen l) as Ev by (unfold v; lia).
        destruct (decide (be_val l = 0)) as [Hz|Hnz].
        -- specialize (Hm0 Hz). assert (zlen mag = 1 + zlen l) as -> by (unfold zlen; lia). split; [lia|right]. replace (1 + zlen l - 1) with (zlen l) by lia. lia.
        -- specialize (Hm Hnz). assert (zlen mag = zlen l) as -> by (unfold zlen; lia). split; [lia|right]. replace (1 + zlen l - 1) with (zlen l) in Hmin by lia. lia.
    + destruct (negative_magnitude (b :: l) [] rest s v) as (mag & Hm & _ & Hr); [done..|by left|done|word_bounds; nia|].
      exists mag. rewrite zlen_cons in Hr. split; [exact Hr|]. intros _ _. specialize (Hm ltac:(word_bounds; nia)). assert (zlen mag = 1 + zlen l) as -> by (unfold zlen; rewrite Hm; cbn; lia).
      split; [pose proof (zlen_nonneg l); lia|]. right. replace (1 + zlen l - 1) with (zlen l) by lia. unfold v. rewrite EM. word_bounds. nia.
  - rewrite decide_False by lia. rewrite Z.sub_0_r. set (v := be_val (b :: l)) in *.
    destruct (Z.eqb_spec b 0) as [->|Hne]; [|set (c := bool_decide _); change (false && negb c) with false; cbv iota; subst c].
    + case_bool_decide as El; cbn [negb andb].
      * subst l. exists [0]. split; [apply (copied_magnitude [] [0]); [done|done|cbn in *; lia|done]|]. intros _ _. split; [done|by left].
      * replace (1 + zlen l - 1) with (zlen l) by lia. destruct (Hpred El) as (H1 & Ep & Hp). exists l. split.
        -- apply (copied_magnitude [0] l); [done|done|cbn in Hlen; lia|unfold v; lia].
        -- intros _ Hmin. split; [lia|right]. replace (1 + zlen l - 1) with (zlen l) in Hmin by lia. lia.
    + exists (b :: l). split.
      * pose proof (copied_magnitude [] (b :: l) rest s v ltac:(done) ltac:(done) ltac:(lia) eq_refl) as Hc. rewrite zlen_cons in Hc. exact Hc.
      * intros _ _. rewrite zlen_cons. split; [pose proof (zlen_nonneg l); lia|right]. replace (1 + zlen l - 1) with (zlen l) by lia. word_bounds. nia.
Qed.


(** ** Machine integers *)

Lemma leading_zeros_spec fuel data z : (Z.to_nat z + fuel = 7)%nat → 0 ≤ z → (∀ i, 0 ≤ i < z → byte_at data i = 0) →
  let k := leading_zeros_loop (S fuel) data z in z ≤ k ≤ 7 ∧ (∀ i, 0 ≤ i < k → byte_at data i = 0) ∧ (k = 7 ∨ byte_at data k ≠ 0).
Proof.
  revert z. induction fuel as [|fuel IH]; intros z Hf Hz H0; cbn [leading_zeros_loop].
  - assert (z = 7) as -> by lia. change (7 <? 8 - 1) with false. cbv iota. split_and!; [done|done|done|by left].
  - rewrite (proj2 (Z.ltb_lt z _)) by lia. destruct (Z.eqb_spec (byte_at data z) 0) as [E|E]; cbn [negb].
    + destruct (IH (z + 1) ltac:(lia) ltac:(lia)) as (H1 & H2 & H3).
      { intros i Hi. destruct (decide (i = z)) as [->|]; [done|]. apply H0. lia. }
      cbn [leading_zeros_loop] in H1, H2, H3. split_and!; [lia|lia|done|done].
    + split_and!; [lia|lia|done|by right].
Qed.
Lemma represents_intro a v mag tail : sdata a = Some (mag ++ tail) → slength a = zlen mag → bytes_ok mag → bytes_ok tail →
  stype a = (if v <? 0 then V_ASN1_NEG_INTEGER else V_ASN1_INTEGER) → be_val mag = Z.abs v → 1 ≤ zlen mag → zlen mag = 1 ∨ 256 ^ (zlen mag - 1) ≤ Z.abs v →
  represents a v.
Proof.
  intros Hd Hl Hm Ht Hty Hv H1 Hmin. assert (contents a = mag) as Hc.
  { unfold contents, data_of. rewrite Hd, Hl. apply take_app_zlen. }
  split; [|done|by rewrite Hc|lia|by rewrite Hl]. split; [unfold data_of; rewrite Hd, Hl; cbn [default from_option id]; rewrite zlen_app; pose proof (zlen_nonneg mag); pose proof (zlen_nonneg tail); lia|].
  unfold data_of. rewrite Hd. by apply bytes_ok_app.
Qed.
Lemma be_val_leading_zeros k l : be_val (repeat 0 k ++ l) = be_val l.
Proof. rewrite be_val_app, be_val_repeat_0. lia. Qed.
Section Machine.
Context `{!Allocator}.
Lemma set_uint64_ok a v : is_u64 v → malloc_ok 8 = true →
  ∃ s, ASN1_INTEGER_set_uint64 a v = (true, s) ∧ represents s v ∧ sflags s = sflags a.
Proof.
  intros Hv Hm. unfold ASN1_INTEGER_set_uint64. rewrite Hm. eexists. split; [done|]. split; [|done].
  assert (le_bytes 8 (CRYPTO_bswap8 v) = be_bytes 8 v) as -> by exact (store_u64_be_bytes v Hv).
  set (data := be_bytes 8 v). destruct (leading_zeros_spec 7 data 0 eq_refl ltac:(done) ltac:(lia)) as (Hk & H0 & Hk7).
  set (k := leading_zeros_loop 8 data 0) in *. clearbody k.
  assert (length data = 8%nat) as Hlen by apply length_be_bytes. assert (bytes_ok data) as Hok by (unfold data; auto with bytesdb).
  assert (data = repeat 0 (Z.to_nat k) ++ drop (Z.to_nat k) data) as Hsplit.
  { rewrite <- (take_drop (Z.to_nat k) data) at 1. f_equal. apply (nth_ext _ _ 0 0); [rewrite repeat_length, length_take; lia|].
    intros i Hi. rewrite length_take in Hi. rewrite nth_repeat. specialize (H0 (Z.of_nat i) ltac:(lia)). unfold byte_at in H0. rewrite Nat2Z.id in H0.
    refine (eq_trans _ H0). rewrite <- (take_drop (Z.to_nat k) data) at 2. rewrite app_nth1; [done|rewrite length_take; lia]. }
  set (mag := drop (Z.to_nat k) data) in *. assert (zlen mag = 8 - k) as Hz by (unfold mag, zlen; rewrite length_drop; lia).
  assert (bytes_ok mag) as Hmok by (unfold mag; auto with bytesdb).
  assert (be_val mag = v) as Hval.
  { rewrite <- (be_val_leading_zeros (Z.to_nat k)), <- Hsplit. apply be_val_be_bytes_small. exact Hv. }
  assert (read_at k (8 - k) data = mag) as -> by (unfold read_at; fold mag; rewrite <- Hz, to_nat_zlen; apply firstn_all).
  assert (0 ≤ v) as Hv0 by word_lia.
  assert (zlen mag = 1 ∨ 256 ^ (zlen mag - 1) ≤ Z.abs v) as Hmin.
  { destruct Hk7 as [->|Hne]; [left; lia|right]. destruct mag as [|b l] eqn:Emag; [change (zlen (@nil Z)) with 0 in Hz; lia|].
    assert (b = byte_at data k) as Eb.
    { unfold byte_at. rewrite Hsplit. rewrite app_nth2; rewrite repeat_length; [|lia]. by rewrite Nat.sub_diag. }
    apply bytes_ok_cons in Hmok as [Hb Hl]. destruct (head_bounds b l Hb Hl) as (HM & HX & _). rewrite Hval in HX. rewrite zlen_cons. replace (1 + zlen l - 1) with (zlen l) by lia.
    rewrite <- Eb in Hne. word_bounds. nia. }
  destruct (split_block data (length mag)) as (hole & tail & Ed & Hh); [unfold mag; rewrite length_drop; lia|].
  assert (write_at 0 mag data = mag ++ tail) as Hw by (rewrite Ed; exact (write_at_app [] hole tail mag Hh)).
  apply (represents_intro _ v mag tail); cbn [sdata slength stype]; [by rewrite Hw|lia|done|rewrite Ed in Hok; by apply bytes_ok_app in Hok as [_ ?]|by rewrite (proj2 (Z.ltb_ge v 0)) by lia|lia|lia|done].
Qed.
Lemma set_ok a v : - 2 ^ 63 ≤ v < 2 ^ 63 → malloc_ok 8 = true → ∃ s, ASN1_INTEGER_set a v = (true, s) ∧ represents s v.
Proof.
  intros Hv Hm. change (2 ^ 63) with 9223372036854775808 in Hv. unfold ASN1_INTEGER_set. destruct (Z.leb_spec 0 v).
  - destruct (set_uint64_ok a v ltac:(word_lia) Hm) as (s & E & Hs & _). eauto.
  - assert (u64 (0 - u64 v) = - v) as ->.
    { unfold wrap. change (2 ^ 64) with 18446744073709551616. lia. }
    destruct (set_uint64_ok a (- v) ltac:(word_lia) Hm) as (s & -> & [Hwf Hty Hval Hl Hmin] & _). eexists. split; [done|].
    rewrite Z.abs_opp in *. split; cbn [slength stype]; [exact Hwf|by rewrite (proj2 (Z.ltb_lt v 0))|exact Hval|done|done].
Qed.
End Machine.

Lemma get_loop_eq l : bytes_ok l → ∀ r, 0 ≤ r → (r + 1) * 256 ^ zlen l ≤ 2 ^ 64 →
  foldl (λ r64 b, u64 (Z.shiftl r64 8) .| b) r l = r * 256 ^ zlen l + be_val l.
Proof.
  induction 1 as [|b l Hb Hl IH]; intros r Hr Hbound; [cbn; change (zlen []) with 0; lia|]. cbn [foldl].
  rewrite zlen_cons, Z.pow_add_r, Z.pow_1_r in * by (pose proof (zlen_nonneg l); lia). assert (0 < 256 ^ zlen l) by (apply Z.pow_pos_nonneg; [lia|apply zlen_nonneg]).
  assert (u64 (Z.shiftl r 8) = Z.shiftl r 8) as ->.
  { apply wrap_small. rewrite Z.shiftl_mul_pow2 by lia. change (2 ^ 8) with 256. split; [lia|]. nia. }
  rewrite lor_shiftl_add by (done || lia). change (2 ^ 8) with 256. rewrite IH, be_val_cons; [lia|word_lia|]. word_bounds. nia.
Qed.
Lemma get_ok a v : represents a v → ASN1_INTEGER_get (Some a) = if decide (- 2 ^ 63 < v < 2 ^ 63) then v else -1.
Proof.
  intros [Hwf Hty Hv H1 Hmin]. change (2 ^ 63) with 9223372036854775808. unfold ASN1_INTEGER_get, get_long. rewrite Hty.
  pose proof (zlen_contents a Hwf) as Hz. pose proof (be_val_bound _ (bytes_ok_contents a Hwf)) as Hb. rewrite Hz, Hv in Hb.
  replace (negb _ && negb _) with false by by destruct (v <? 0).
  destruct (Z.ltb_spec 8 (slength a)) as [H8|H8].
  { rewrite decide_False; [done|]. destruct Hmin as [?|Hmin]; [lia|]. assert (256 ^ 8 ≤ 256 ^ (slength a - 1)) by (apply Z.pow_le_mono_r; lia). change (256 ^ 8) with 18446744073709551616 in *. lia. }
  assert (∃ d, sdata a = Some d) as [d Hd].
  { destruct Hwf as [Hl _]. unfold data_of in Hl. destruct (sdata a); [eauto|]. change (zlen (default [] None)) with 0 in Hl. lia. }
  rewrite Hd. assert (take (Z.to_nat (slength a)) d = contents a) as Hc by (unfold contents, data_of; by rewrite Hd). unfold get_loop. rewrite Hc.
  rewrite get_loop_eq; [|by apply bytes_ok_contents|done|].
  2:{ rewrite Hz. assert (256 ^ slength a ≤ 256 ^ 8) by (apply Z.pow_le_mono_r; lia). change (256 ^ 8) with (2 ^ 64) in *. lia. }
  rewrite Hv, Z.mul_0_l, Z.add_0_l. unfold LONG_MAX. change (2 ^ 63) with 9223372036854775808.
  assert (((if v <? 0 then V_ASN1_NEG_INTEGER else V_ASN1_INTEGER) =? V_ASN1_NEG_INTEGER) = (v <? 0)) as -> by by destruct (v <? 0).
  destruct (Z.ltb_spec v 0), (Z.ltb_spec (9223372036854775808 - 1) (Z.abs v)); case_decide; lia.
Qed.


(** ** Comparison *)

Definition sign_of (c : comparison) : Z := match c with Lt => -1 | Eq => 0 | Gt => 1 end.
Lemma memcmp_sign_spec n a b : bytes_ok a → bytes_ok b → (n ≤ length a)%nat → (n ≤ length b)%nat →
  memcmp_sign a b n = sign_of (be_val (take n a) ?= be_val (take n b)).
Proof.
  revert a b. induction n as [|n IH]; intros a b Ha Hb La Lb; [done|]. destruct a as [|x a]; [cbn in La; lia|]. destruct b as [|y b]; [cbn in Lb; lia|].
  apply bytes_ok_cons in Ha as [Hx Ha]. apply bytes_ok_cons in Hb as [Hy Hb]. cbn [length] in La, Lb. cbn [memcmp_sign hd tl take]. rewrite IH by (done || lia).
  rewrite !be_val_cons. assert (zlen (take n a) = Z.of_nat n ∧ zlen (take n b) = Z.of_nat n) as [-> ->] by (unfold zlen; rewrite !length_take; lia).
  pose proof (be_val_bound (take n a) ltac:(auto with bytesdb)) as Ba. pose proof (be_val_bound (take n b) ltac:(auto with bytesdb)) as Bb.
  assert (zlen (take n a) = Z.of_nat n ∧ zlen (take n b) = Z.of_nat n) as [E1 E2] by (unfold zlen; rewrite !length_take; lia). rewrite E1 in Ba. rewrite E2 in Bb.
  set (A := be_val (take n a)) in *. set (B := be_val (take n b)) in *. set (M := 256 ^ Z.of_nat n) in *. clearbody A B M.
  destruct (Z.ltb_spec x y); [|destruct (Z.ltb_spec y x)].
  - assert (x * M + A < y * M + B) as E by nia. apply Z.compare_lt_iff in E. by rewrite E.
  - assert (y * M + B < x * M + A) as E by nia. apply Z.compare_gt_iff in E. by rewrite E.
  - assert (x = y) as -> by lia. by rewrite Z.add_compare_mono_l.
Qed.
Section Compare.
Context `{!Memcmp}.
Lemma memcmp_spec n a b : bytes_ok a → bytes_ok b → (n ≤ length a)%nat → (n ≤ length b)%nat →
  Z.sgn (memcmp a b n) = sign_of (be_val (take n a) ?= be_val (take n b)).
Proof.
  intros Ha Hb La Lb. unfold memcmp. pose proof (memcmp_magnitude_ok a b n). rewrite Z.sgn_mul, (Z.sgn_pos (memcmp_magnitude a b n)), Z.mul_1_r by lia.
  rewrite memcmp_sign_spec by done. by destruct (_ ?= _).
Qed.
Lemma memcmp_sign_range n : ∀ a b, -1 ≤ memcmp_sign a b n ≤ 1.
Proof. induction n as [|n IH]; intros a b; cbn [memcmp_sign]; [lia|]. repeat case_match; (lia || apply IH). Qed.
Lemma string_cmp_range a b : - 2 ^ 31 < ASN1_STRING_cmp a b < 2 ^ 31.
Proof.
  unfold ASN1_STRING_cmp. destruct (if stype a =? _ then _ else _) as [la pa], (if stype b =? _ then _ else _) as [lb pb]. change (2 ^ 31) with 2147483648.
  repeat case_match; try lia. unfold memcmp. pose proof (memcmp_magnitude_ok (data_of a) (data_of b) (Z.to_nat la)) as Hm. change (2 ^ 31) with 2147483648 in Hm.
  pose proof (memcmp_sign_range (Z.to_nat la) (data_of a) (data_of b)). nia.
Qed.
Lemma integer_cmp_ok x y vx vy : represents x vx → represents y vy → Z.sgn (ASN1_INTEGER_cmp x y) = sign_of (vx ?= vy).
Proof.
  intros [Wx Tx Vx Lx Mx] [Wy Ty Vy Ly My]. unfold ASN1_INTEGER_cmp. rewrite Tx, Ty.
  assert (∀ v : Z, (if v <? 0 then V_ASN1_NEG_INTEGER else V_ASN1_INTEGER) .& V_ASN1_NEG = if v <? 0 then 256 else 0) as Hn by (intros v; by destruct (v <? 0)).
  rewrite !Hn. destruct (decide ((vx <? 0) = (vy <? 0))) as [Es|Es].
  2:{ destruct (Z.ltb_spec vx 0), (Z.ltb_spec vy 0); try done; cbn -[Z.compare];
      [assert (vx < vy) as E by lia; apply Z.compare_lt_iff in E|assert (vy < vx) as E by lia; apply Z.compare_gt_iff in E]; by rewrite E. }
  rewrite Es, Z.eqb_refl. cbn [negb].
  assert (Z.sgn (ASN1_STRING_cmp x y) = sign_of (Z.abs vx ?= Z.abs vy)) as Hcmp.
  { pose proof (zlen_contents x Wx) as Zx. pose proof (zlen_contents y Wy) as Zy. pose proof (be_val_bound _ (bytes_ok_contents x Wx)) as Bx. pose proof (be_val_bound _ (bytes_ok_contents y Wy)) as By.
    rewrite Zx, Vx in Bx. rewrite Zy, Vy in By. unfold ASN1_STRING_cmp. rewrite Tx, Ty, Es.
    replace ((if vy <? 0 then V_ASN1_NEG_INTEGER else V_ASN1_INTEGER) =? V_ASN1_BIT_STRING) with false by (by destruct (vy <? 0)).
    assert (∀ m n u v, 1 ≤ m < n → 0 ≤ u < 256 ^ m → n = 1 ∨ 256 ^ (n - 1) ≤ v → u < v) as Hlonger.
    { intros m n u v Hmn Hu [?|Hv]; [lia|]. assert (256 ^ m ≤ 256 ^ (n - 1)) by (apply Z.pow_le_mono_r; lia). lia. }
    destruct (Z.ltb_spec (slength x) (slength y)) as [Hl|Hl].
    { assert (Z.abs vx < Z.abs vy) as E by (eapply (Hlonger (slength x) (slength y)); eauto; lia). apply Z.compare_lt_iff in E. by rewrite E. }
    destruct (Z.ltb_spec (slength y) (slength x)) as [Hl'|Hl'].
    { assert (Z.abs vy < Z.abs vx) as E by (eapply (Hlonger (slength y) (slength x)); eauto; lia). apply Z.compare_gt_iff in E. by rewrite E. }
    assert (slength y = slength x) as Hxy by lia. change (0 <? 0) with false. cbv iota zeta.
    assert (Z.sgn (memcmp (data_of x) (data_of y) (Z.to_nat (slength x))) = sign_of (Z.abs vx ?= Z.abs vy)) as Hm.
    { rewrite memcmp_spec; [|apply Wx|apply Wy|destruct Wx as [? _]; unfold zlen in *; lia|destruct Wy as [? _]; unfold zlen in *; lia].
      fold (contents x). rewrite <- Hxy at 1. fold (contents y). by rewrite Vx, Vy. }
    destruct (Z.eqb_spec (memcmp (data_of x) (data_of y) (Z.to_nat (slength x))) 0) as [E|E]; cbn [negb]; [|exact Hm].
    rewrite E in Hm. by rewrite Z.ltb_irrefl. }
  pose proof (string_cmp_range x y) as Hrange.
  destruct (Z.ltb_spec vy 0), (Z.ltb_spec vx 0); try done; cbn [Z.eqb negb].
  - rewrite s32_id by lia. rewrite Z.sgn_opp, Hcmp. destruct (Z.compare_spec (Z.abs vx) (Z.abs vy)) as [E|E|E]; cbn; symmetry.
    + assert (vx = vy) as -> by lia. by rewrite Z.compare_refl.
    + assert (vy < vx) as E' by lia. apply Z.compare_gt_iff in E'. by rewrite E'.
    + assert (vx < vy) as E' by lia. apply Z.compare_lt_iff in E'. by rewrite E'.
  - by rewrite Hcmp, !Z.abs_eq by lia.
Qed.
End Compare.

(** ENUMERATED: without leading zeros, zero without any byte. *)
Lemma enumerated_bytes_spec fuel d : 0 ≤ d < 256 ^ Z.of_nat fuel → bytes_ok (enumerated_bytes fuel d) ∧ le_val (enumerated_bytes fuel d) = d ∧ (length (enumerated_bytes fuel d) ≤ fuel)%nat.
Proof.
  revert d. induction fuel as [|fuel IH]; intros d Hd; [cbn in *; split; [constructor|lia]|]. cbn [enumerated_bytes].
  destruct (Z.eqb_spec d 0) as [->|Hne]; [cbn; split; [constructor|lia]|]. rewrite Nat2Z.inj_succ, Z.pow_succ_r in Hd by lia.
  rewrite shiftr_div by lia. change (2 ^ 8) with 256. destruct (IH (d / 256)) as (H1 & H2 & H3); [lia|].
  assert (s32 d .& 255 = d mod 256) as ->.
  { rewrite land_ff. unfold swrap, wrap. change (2 ^ 32) with 4294967296. change (2 ^ (32 - 1)) with 2147483648. destruct (_ <? _); lia. }
  split; [apply bytes_ok_cons; split; [word_lia|done]|]. cbn [le_val length]. rewrite H2. split; lia.
Qed.
Lemma enumerated_ok `{!Allocator} a v : wf_string a → - 2 ^ 63 < v < 2 ^ 63 → (∀ n, malloc_ok n = true) →
  ∃ s, ASN1_ENUMERATED_set a v = (true, s) ∧ ASN1_ENUMERATED_get (Some s) = v.
Proof.
  intros Ha Hv Hm. change (2 ^ 63) with 9223372036854775808 in Hv. unfold ASN1_ENUMERATED_set. rewrite Hm.
  assert (∃ data, (if slength a <? 9 then Some (repeat 0 9) else sdata a) = Some data ∧ (9 ≤ length data)%nat) as (data & -> & Hlen).
  { destruct (Z.ltb_spec (slength a) 9); [by exists (repeat 0 9)|]. destruct Ha as [Hl _]. unfold data_of, zlen in Hl. destruct (sdata a) as [d|]; cbn in Hl; [|lia]. exists d. split; [done|lia]. }
  assert (∃ type, (if v <? 0 then (- v, V_ASN1_NEG_ENUMERATED) else (v, V_ASN1_ENUMERATED)) = (Z.abs v, type) ∧ type = if v <? 0 then V_ASN1_NEG_ENUMERATED else V_ASN1_ENUMERATED) as (type & -> & Ht).
  { destruct (Z.ltb_spec v 0); eexists; (split; [f_equal; lia|done]). }
  destruct (enumerated_bytes_spec 8 (Z.abs v)) as (Hok & Hval & Hl8); [change (256 ^ Z.of_nat 8) with 18446744073709551616; lia|]. set (buf := enumerated_bytes 8 (Z.abs v)) in *.
  eexists. split; [done|]. unfold ASN1_ENUMERATED_get, get_long. cbn [stype slength sdata]. replace (negb (type =? V_ASN1_NEG_ENUMERATED) && negb (type =? V_ASN1_ENUMERATED)) with false by (rewrite Ht; by destruct (v <? 0)).
  rewrite (proj2 (Z.ltb_ge 8 _)) by (unfold zlen; lia). destruct (split_block data (length (rev buf))) as (hole & tail & -> & Hh); [rewrite length_rev; lia|].
  assert (write_at 0 (rev buf) (hole ++ tail) = rev buf ++ tail) as -> by exact (write_at_app [] hole tail (rev buf) Hh).
  unfold get_loop. assert (zlen buf = zlen (rev buf)) as -> by (unfold zlen; by rewrite length_rev). rewrite take_app_zlen.
  rewrite get_loop_eq; [|by apply Forall_rev|done|]; rewrite <- ?le_val_rev, ?Hval.
  - rewrite Z.mul_0_l, Z.add_0_l. unfold LONG_MAX. change (2 ^ 63) with 9223372036854775808. rewrite (proj2 (Z.ltb_ge _ _)) by lia.
    assert ((type =? V_ASN1_NEG_ENUMERATED) = (v <? 0)) as -> by (rewrite Ht; by destruct (v <? 0)). destruct (Z.ltb_spec v 0); lia.
  - unfold zlen. rewrite length_rev. assert (256 ^ Z.of_nat (length buf) ≤ 256 ^ 8) by (apply Z.pow_le_mono_r; lia). change (256 ^ 8) with (2 ^ 64) in *. lia.
Qed.


(** ** The theorems *)

Lemma type_sign v : ((if v <? 0 then V_ASN1_NEG_INTEGER else V_ASN1_INTEGER) .& V_ASN1_NEG =? 0) = negb (v <? 0).
Proof. by destruct (v <? 0). Qed.
Lemma c2i_ok `{!Allocator} a content rest : bytes_ok content → zlen content ≤ INT_MAX ÷ 2 → (∀ n, malloc_ok n = true) →
  ∃ t, c2i_ASN1_INTEGER (zlen content) (a, content ++ rest) = (Some t, (Some t, rest)) ∧ wf_string t ∧ integer_value t = int_val content ∧
    ∀ v, content = int_octets v → represents t v.
Proof.
  intros Hok Hl Hm. unfold c2i_ASN1_INTEGER. pose proof (zlen_nonneg content) as H0. rewrite !(proj2 (Z.ltb_ge _ _)) by lia. cbn [orb].
  destruct (reused_some a V_ASN1_INTEGER Hm) as [ret ->]. rewrite Hm. set (s := fresh_bytes 0 _).
  destruct (integer_magnitude_ok content rest s) as (mag & (tail & -> & Hmag & Htail & Hv) & Hmin); [done|apply bytes_ok_fresh|unfold s, fresh_bytes, zlen; rewrite length_fmap, length_seq; lia|].
  eexists. rewrite drop_app_zlen. split; [done|]. cbn.
  assert (∀ t, sdata t = Some (mag ++ tail) → slength t = zlen mag → wf_string t ∧ contents t = mag) as Hwf.
  { intros t Hd Hlen. unfold wf_string, contents, data_of. rewrite Hd, Hlen. cbn [default from_option id]. rewrite take_app_zlen, zlen_app. split; [|done].
    split; [pose proof (zlen_nonneg mag); pose proof (zlen_nonneg tail); lia|by apply bytes_ok_app]. }
  destruct (Hwf {| slength := zlen mag; stype := if int_val content <? 0 then V_ASN1_NEG_INTEGER else V_ASN1_INTEGER; sdata := Some (mag ++ tail); sflags := sflags ret |} eq_refl eq_refl) as [Hw Hc].
  split; [done|]. split.
  - unfold integer_value. rewrite Hc, Hv. cbn [stype]. rewrite type_sign. destruct (Z.ltb_spec (int_val content) 0); cbn [negb]; lia.
  - intros v ->. rewrite int_val_octets in *. destruct (int_octets_range v) as (Hn & _ & Hr). rewrite zlen_int_octets in Hmin.
    destruct Hmin as [H1 Hmin]; [lia|unfold minimal_length; destruct Hr as [Hr|Hr]; [left; lia|by right]|]. by apply (represents_intro _ v mag tail).
Qed.

(** C6: [c2i_ASN1_INTEGER] reads any contents octets as the two's complement number they are, and the
    shortest ones into the unique representation of the number; [i2c_ASN1_INTEGER] writes, at the place it is
    given and in the size it announces, two's complement octets of the number an object holds, the
    DER contents when the object is in that representation.  In particular they are inverse. *)
Theorem ASN1_INTEGER_contents_exact `{!Allocator} a content rest s :
  bytes_ok content → zlen content ≤ INT_MAX ÷ 2 → (∀ n, malloc_ok n = true) → wf_string s →
  (∃ t, c2i_ASN1_INTEGER (zlen content) (a, content ++ rest) = (Some t, (Some t, rest)) ∧ wf_string t ∧ integer_value t = int_val content ∧
     ∀ v, content = int_octets v → represents t v) ∧
  (∃ e, int_val e = integer_value s ∧ (∀ v, represents s v → e = int_octets v) ∧ i2c_ASN1_INTEGER (Some s) None = (zlen e, None) ∧
     ∀ pre hole post, zlen hole = zlen e →
       i2c_ASN1_INTEGER (Some s) (Some (pre ++ hole ++ post, zlen pre)) = (zlen e, Some (pre ++ e ++ post, zlen pre + zlen e))).
Proof.
  intros Hok Hl Hm Hs. split; [by apply c2i_ok|]. exists (integer_octets s). destruct (integer_octets_value s Hs) as (m & Hm1 & E & Hr & Hmin).
  split; [rewrite E; by apply int_val_be_bytes|]. split.
  - intros v [_ Ht Hv Hl1 Hmin']. rewrite E. assert (integer_value s = v) as Ev.
    { unfold integer_value. rewrite Hv, Ht, type_sign. destruct (Z.ltb_spec v 0); cbn [negb]; lia. }
    rewrite Ev in *. apply int_octets_intro; [done|done|]. apply Hmin. destruct Hmin' as [?|Hmin']; [left; lia|right].
    pose proof (zlen_contents s Hs) as Hz. pose proof (bytes_ok_contents s Hs) as Hokc. destruct (contents s) as [|b l]; [change (zlen (@nil Z)) with 0 in Hz; lia|].
    cbn [hd]. intros ->. rewrite zlen_cons in Hz. rewrite be_val_cons in Hv. apply bytes_ok_cons in Hokc as [_ Hl']. pose proof (be_val_bound l Hl').
    replace (slength s - 1) with (zlen l) in Hmin' by lia. lia.
  - split; [by apply (i2c_octets s [] (integer_octets s) [])|]. intros pre hole post Hh. by apply i2c_octets.
Qed.
#[local] Instance roomy_integers : Allocator := {| malloc_ok _ := true; junk _ := 7 |}.
(** The number -256, which needs one byte less than its magnitude has, and back. *)
Lemma ASN1_INTEGER_contents_exact_witness : ∃ t,
  c2i_ASN1_INTEGER 2 (None, [0xFF; 0; 5]) = (Some t, (Some t, [5])) ∧ stype t = V_ASN1_NEG_INTEGER ∧ take 2 (data_of t) = [1; 0] ∧
  i2c_ASN1_INTEGER (Some t) (Some ([9; 9; 9; 9], 1)) = (2, Some ([9; 0xFF; 0; 9], 3)).
Proof.
  set (t := {| slength := 2; stype := V_ASN1_NEG_INTEGER; sdata := Some [1; 0; 7]; sflags := 0 |}).
  destruct (ASN1_INTEGER_contents_exact None [0xFF; 0] [5] t) as [(t' & E & _) (e & _ & _ & En & Ew)];
    [repeat constructor; by vm_compute|by vm_compute|reflexivity|split; [by vm_compute|repeat constructor; by vm_compute]|].
  exists t. split; [reflexivity|]. split; [reflexivity|]. split; [reflexivity|]. reflexivity.
Defined.

(** C22: [ASN1_INTEGER_set] stores every [long] in the representation of its value, or reports that there is
    no memory; [ASN1_INTEGER_get] returns the value of a representation when it is a [long], but not the
    least one, and -1 when it is not a [long]; [ASN1_INTEGER_cmp] orders representations as the numbers.
    What [ASN1_ENUMERATED_set] stores, the least [long] aside, [ASN1_ENUMERATED_get] returns. *)
Theorem ASN1_INTEGER_arithmetic_exact `{!Allocator, !Memcmp} a v x y vx vy : - 2 ^ 63 ≤ v < 2 ^ 63 → represents x vx → represents y vy →
  (if malloc_ok 8 then ∃ s, ASN1_INTEGER_set a v = (true, s) ∧ represents s v else (ASN1_INTEGER_set a v).1 = false) ∧
  (vx ≠ - 2 ^ 63 → ASN1_INTEGER_get (Some x) = if decide (- 2 ^ 63 ≤ vx < 2 ^ 63) then vx else -1) ∧
  Z.sgn (ASN1_INTEGER_cmp x y) = sign_of (vx ?= vy) ∧
  (wf_string a → - 2 ^ 63 < v → (∀ n, malloc_ok n = true) → ∃ s, ASN1_ENUMERATED_set a v = (true, s) ∧ ASN1_ENUMERATED_get (Some s) = v).
Proof.
  intros Hv Hx Hy. split; [|split; [|split; [by apply integer_cmp_ok|intros Ha Hlo Hm; apply enumerated_ok; [done|split; [done|apply Hv]|done]]]].
  - destruct (malloc_ok 8) eqn:Hm; [by apply set_ok|]. unfold ASN1_INTEGER_set, ASN1_INTEGER_set_uint64. rewrite Hm. by destruct (0 <=? v).
  - intros Hne. rewrite (get_ok x vx Hx). repeat case_decide; (done || lia).
Qed.
#[local] Instance by_sevens : Memcmp.
Proof. refine {| memcmp_magnitude _ _ _ := 7 |}. done. Defined.
Lemma ASN1_INTEGER_arithmetic_exact_witness :
  let x := {| slength := 2; stype := V_ASN1_NEG_INTEGER; sdata := Some [1; 0]; sflags := 0 |} in
  let y := {| slength := 1; stype := V_ASN1_NEG_INTEGER; sdata := Some [255; 3]; sflags := 0 |} in
  ASN1_INTEGER_get (Some x) = -256 ∧ Z.sgn (ASN1_INTEGER_cmp x y) = -1.
Proof.
  intros x y. destruct (ASN1_INTEGER_arithmetic_exact x 0 x y (-256) (-255)) as (_ & Hg & Hc & _); [by vm_compute|..|split; [by apply Hg|exact Hc]].
  - split; [split; [by vm_compute|repeat constructor; by vm_compute]|reflexivity|reflexivity|by vm_compute|right; by vm_compute].
  - split; [split; [by vm_compute|repeat constructor; by vm_compute]|reflexivity|reflexivity|by vm_compute|left; by vm_compute].
Defined.
(** The least [long] is stored but not returned. *)
Example least_long_lost : let s := (ASN1_INTEGER_set {| slength := 0; stype := 2; sdata := None; sflags := 0 |} (- 2 ^ 63)).2 in
  stype s = V_ASN1_NEG_INTEGER ∧ sdata s = Some [128; 0; 0; 0; 0; 0; 0; 0] ∧ ASN1_INTEGER_get (Some s) = -1.
Proof. by vm_compute. Qed.
(** A new object and an object set to zero both have the value zero, but do not compare equal. *)
Example zeros_differ : let new := {| slength := 0; stype := V_ASN1_INTEGER; sdata := None; sflags := 0 |} in
  ASN1_INTEGER_get (Some new) = 0 ∧ ASN1_INTEGER_get (Some (ASN1_INTEGER_set new 0).2) = 0 ∧ ASN1_INTEGER_cmp new (ASN1_INTEGER_set new 0).2 = -1.
Proof. by vm_compute. Qed.
