(* ===== verification/AsnHeader.v ===== *)
(** * Element headers ([crypto/asn1/asn1_lib.c]) and BOOLEAN ([crypto/asn1/a_bool.c])

    The older reader and writer of tags and lengths, which the ASN.1 engine and the [d2i] and [i2d] functions
    use, against the encodings of [Der]. *)
From S2P Require Export AsnString.

Definition V_ASN1_UNIVERSAL : Z := 0.
Definition V_ASN1_PRIVATE : Z := 0xc0.
Definition V_ASN1_CONSTRUCTED : Z := 0x20.
Definition V_ASN1_PRIMITIVE_TAG : Z := 0x1f.
Definition V_ASN1_MAX_UNIVERSAL : Z := 0xff.
Definition V_ASN1_BOOLEAN : Z := 1.

(** ** Writing *)

(** A buffer and the pointer into it. *)
Definition cursor : Type := bytes * Z.
(** [*(p++) = b] *)
Definition put_byte (b : Z) (out : cursor) : cursor := let '(buf, p) := out in (write_at p [u8 b] buf, p + 1).
(** [for (i = 0; v > 0; i++) v >>= k] *)
Fixpoint count_digits (k : Z) (fuel : nat) (v : Z) : Z :=
  match fuel with O => 0 | S fuel => if 0 <? v then 1 + count_digits k fuel (v >>> k) else 0 end.
(** [while (i-- > 0)]: the digits from the last one to the first; [last] is the number of digits. *)
Fixpoint put_tag_digits (i : nat) (last tag : Z) (out : cursor) : cursor :=
  match i with
  | O => out
  | S i =>
      let '(buf, p) := out in
      let digit := tag .& 0x7f in
      let digit := if Z.of_nat i =? last - 1 then digit else digit .| 0x80 in
      put_tag_digits i last (tag >>> 7) (write_at (p + Z.of_nat i) [digit] buf, p)
  end.
Fixpoint put_length_digits (i : nat) (length : Z) (out : cursor) : cursor :=
  match i with
  | O => out
  | S i => let '(buf, p) := out in put_length_digits i (length >>> 8) (write_at (p + Z.of_nat i) [length .& 0xff] buf, p)
  end.
Definition advance (n : Z) (out : cursor) : cursor := (out.1, out.2 + n).
Definition asn1_put_length (length : Z) (out : cursor) : cursor :=
  if length <=? 127 then put_byte length out
  else
    let l := count_digits 8 4 length in
    advance l (put_length_digits (Z.to_nat l) length (put_byte (l .| 0x80) out)).
Definition ASN1_put_object (constructed length tag xclass : Z) (out : cursor) : cursor :=
  let i := (if constructed =? 0 then 0 else V_ASN1_CONSTRUCTED) .| (xclass .& V_ASN1_PRIVATE) in
  let out :=
    if tag <? 31 then put_byte (i .| (tag .& V_ASN1_PRIMITIVE_TAG)) out
    else
      let out := put_byte (i .| V_ASN1_PRIMITIVE_TAG) out in
      let ttag := count_digits 7 5 tag in
      advance ttag (put_tag_digits (Z.to_nat ttag) ttag tag out) in
  if constructed =? 2 then put_byte 0x80 out else asn1_put_length length out.
Definition ASN1_put_eoc (out : cursor) : cursor := put_byte 0 (put_byte 0 out).
Definition ASN1_object_size (constructed length tag : Z) : Z :=
  if length <? 0 then -1
  else
    let ret := 1 + (if 31 <=? tag then count_digits 7 5 tag else 0) in
    let ret :=
      if constructed =? 2 then ret + 3
      else ret + 1 + (if 127 <? length then count_digits 8 4 length else 0) in
    if INT_MAX - length <=? ret then -1 else ret + length.

(** ** Reading *)

(** The digits of a high tag number; [max] is how much of the input is left and must not reach zero. *)
Fixpoint get_tag_digits (p : bytes) (l max : Z) : option (Z * bytes * Z) :=
  match p with
  | [] => None
  | b :: p =>
      if negb (b .& 0x80 =? 0) then
        let l := Z.shiftl l 7 .| (b .& 0x7f) in
        let max := max - 1 in
        if max =? 0 then None else if INT_MAX >>> 7 <? l then None else get_tag_digits p l max
      else
        let l := Z.shiftl l 7 .| (b .& 0x7f) in
        let max := max - 1 in
        if max =? 0 then None else Some (l, p, max)
  end.
Fixpoint get_length_digits (i : nat) (p : bytes) (ret : Z) : Z * bytes :=
  match i with
  | O => (ret, p)
  | S i => get_length_digits i (tl p) (u64 (Z.shiftl ret 8) .| hd 0 p)
  end.
Definition asn1_get_length (p : bytes) (max : Z) : option (Z * bytes) :=
  if max <? 1 then None
  else
    let max := max - 1 in
    let b := hd 0 p in
    if b =? 0x80 then None
    else
      let i := b .& 0x7f in
      let p := tl p in
      match (if negb (b .& 0x80 =? 0) then if (8 <? i) || (max <? i) then None else Some (get_length_digits (Z.to_nat i) p 0) else Some (i, p)) with
      | None => None
      | Some (ret, p) => if INT_MAX ÷ 2 <? ret then None else Some (ret, p)
      end.
(** The constructed bit, the length, the tag and the class with the input after the header; [None] for the
    return value 0x80, which leaves the input alone. *)
Definition ASN1_get_object (omax : Z) : st bytes (Z * Z * Z * Z) := λ pp,
  let max := omax in
  if max =? 0 then (None, pp)
  else
    let b := hd 0 pp in
    let ret := b .& V_ASN1_CONSTRUCTED in
    let xclass := b .& V_ASN1_PRIVATE in
    let i := b .& V_ASN1_PRIMITIVE_TAG in
    match (if i =? V_ASN1_PRIMITIVE_TAG
           then let max := max - 1 in if max =? 0 then None else get_tag_digits (tl pp) 0 max
           else let max := max - 1 in if max =? 0 then None else Some (i, tl pp, max)) with
    | None => (None, pp)
    | Some (tag, p, max) =>
        if (xclass =? V_ASN1_UNIVERSAL) && (V_ASN1_MAX_UNIVERSAL <? tag) then (None, pp)
        else
          match asn1_get_length p max with
          | None => (None, pp)
          | Some (plength, p) =>
              if omax - (zlen pp - zlen p) <? plength then (None, pp) else (Some (ret, plength, tag, xclass), p)
          end
    end.

(** ** BOOLEAN *)

(** The destination: no pointer, a pointer to [NULL], or a place in a buffer; the result is the size
    or -1, and what [*pp] is then. *)
Inductive destination := Size_only | Allocate | Place (out : cursor).
Definition i2d_ASN1_BOOLEAN `{!Allocator} (a : Z) (pp : destination) : Z * destination :=
  let r := ASN1_object_size 0 1 V_ASN1_BOOLEAN in
  let write out := let '(buf, p) := ASN1_put_object 0 1 V_ASN1_BOOLEAN V_ASN1_UNIVERSAL out in (write_at p [if a =? 0 then 0 else 0xff] buf, p) in
  match pp with
  | Size_only => (r, Size_only)
  | Allocate => if malloc_ok r then (r, Place ((write (fresh_bytes 0 (Z.to_nat r), 0)).1, 0)) else (-1, Allocate)
  | Place out => let '(buf, p) := write out in (r, Place (buf, p + 1))
  end.
(** -1 for an error. *)
Definition d2i_ASN1_BOOLEAN (length : Z) (pp : bytes) : Z * bytes :=
  match ASN1_get_object length pp with
  | (None, _) => (-1, pp)
  | (Some (inf, len, tag, xclass), p) =>
      if negb (inf .& V_ASN1_CONSTRUCTED =? 0) then (-1, pp)
      else if negb (tag =? V_ASN1_BOOLEAN) || negb (xclass =? V_ASN1_UNIVERSAL) then (-1, pp)
      else if negb (len =? 1) then (-1, pp)
      else (hd 0 p, tl p)
  end.


(** ** The writers write the header of [Der] *)

(** Digits of a base-128 number that all have the continuation bit. *)
Fixpoint continued (n : nat) (v : Z) : bytes := match n with O => [] | S i => (v / 128 ^ Z.of_nat i) mod 128 + 128 :: continued i v end.
Lemma continued_last n v : continued (S n) v = continued n (v / 128) ++ [v mod 128 + 128].
Proof.
  induction n as [|n IH]; [cbn; by rewrite Z.div_1_r|].
  change (continued (S (S n)) v) with ((v / 128 ^ Z.of_nat (S n)) mod 128 + 128 :: continued (S n) v). rewrite IH. cbn [continued app]. do 3 f_equal.
  rewrite Nat2Z.inj_succ, Z.pow_succ_r, Z.div_div by (try apply Z.pow_pos_nonneg; lia). done.
Qed.
Lemma b128_bytes_last n v : b128_bytes (S n) v = continued n (v / 128) ++ [v mod 128].
Proof.
  induction n as [|n IH]; [cbn [b128_bytes continued app]; rewrite decide_True by done; change (128 ^ Z.of_nat 0) with 1; rewrite Z.div_1_r; f_equal; lia|].
  change (b128_bytes (S (S n)) v) with ((v / 128 ^ Z.of_nat (S n)) mod 128 + (if decide (S n = 0%nat) then 0 else 128) :: b128_bytes (S n) v). rewrite IH.
  rewrite decide_False by done. cbn [continued app]. do 3 f_equal.
  rewrite Nat2Z.inj_succ, Z.pow_succ_r, Z.div_div by (try apply Z.pow_pos_nonneg; lia). done.
Qed.
Lemma put_byte_app b pre x post : is_u8 b → put_byte b (pre ++ x :: post, zlen pre) = ((pre ++ [b]) ++ post, zlen (pre ++ [b])).
Proof. intros Hb. unfold put_byte. rewrite wrap_small by done. change (x :: post) with ([x] ++ post). rewrite (write_at_app pre [x]) by done. by rewrite zlen_app, <- app_assoc. Qed.
Lemma put_length_digits_app i pre hole post v : length hole = i → put_length_digits i v (pre ++ hole ++ post, zlen pre) = (pre ++ be_bytes i v ++ post, zlen pre).
Proof.
  revert hole post v. induction i as [|i IH]; intros hole post v Hh; [by destruct hole|].
  destruct (exists_last (l := hole)) as (hole0 & h & ->); [by destruct hole|]. rewrite length_app in Hh. cbn [length] in Hh. cbn [put_length_digits].
  replace (pre ++ (hole0 ++ [h]) ++ post) with ((pre ++ hole0) ++ [h] ++ post) by by rewrite <- !app_assoc.
  replace (zlen pre + Z.of_nat i) with (zlen (pre ++ hole0)) by (rewrite zlen_app; unfold zlen; lia). rewrite write_at_app by done.
  rewrite <- app_assoc, IH by lia. rewrite be_bytes_snoc, land_ff, shiftr_div by lia. change (2 ^ 8) with 256. by rewrite <- app_assoc.
Qed.
Lemma put_tag_digits_continued i last pre hole post v : length hole = i → Z.of_nat i < last →
  put_tag_digits i last v (pre ++ hole ++ post, zlen pre) = (pre ++ continued i v ++ post, zlen pre).
Proof.
  revert hole post v. induction i as [|i IH]; intros hole post v Hh Hl; [by destruct hole|].
  destruct (exists_last (l := hole)) as (hole0 & h & ->); [by destruct hole|]. rewrite length_app in Hh. cbn [length] in Hh. cbn [put_tag_digits].
  rewrite (proj2 (Z.eqb_neq _ _)) by lia. replace (pre ++ (hole0 ++ [h]) ++ post) with ((pre ++ hole0) ++ [h] ++ post) by by rewrite <- !app_assoc.
  replace (zlen pre + Z.of_nat i) with (zlen (pre ++ hole0)) by (rewrite zlen_app; unfold zlen; lia). rewrite write_at_app by done.
  rewrite <- app_assoc, IH by lia. rewrite continued_last, land_7f, shiftr_div by lia. change (2 ^ 7) with 128.
  assert (v mod 128 .| 128 = v mod 128 + 128) as ->.
  { rewrite Z.lor_comm. pose proof (lor_shiftl_add 1 7 (v mod 128) ltac:(done) ltac:(split; change (2 ^ 7) with 128; lia)) as E. change (Z.shiftl 1 7) with 128 in E. rewrite E. lia. }
  by rewrite <- app_assoc.
Qed.
Lemma put_tag_digits_app n pre hole post v : (1 ≤ n)%nat → length hole = n →
  put_tag_digits n (Z.of_nat n) v (pre ++ hole ++ post, zlen pre) = (pre ++ b128_bytes n v ++ post, zlen pre).
Proof.
  intros Hn Hh. destruct n as [|n]; [lia|]. destruct (exists_last (l := hole)) as (hole0 & h & ->); [by destruct hole|]. rewrite length_app in Hh. cbn [length] in Hh. cbn [put_tag_digits].
  rewrite (proj2 (Z.eqb_eq _ _)) by lia. replace (pre ++ (hole0 ++ [h]) ++ post) with ((pre ++ hole0) ++ [h] ++ post) by by rewrite <- !app_assoc.
  replace (zlen pre + Z.of_nat n) with (zlen (pre ++ hole0)) by (rewrite zlen_app; unfold zlen; lia). rewrite write_at_app by done.
  rewrite <- app_assoc, put_tag_digits_continued by lia. rewrite b128_bytes_last, land_7f, shiftr_div by lia. change (2 ^ 7) with 128. by rewrite <- app_assoc.
Qed.
Lemma count_digits_spec k fuel v : 0 < k → 0 < v < 2 ^ (k * Z.of_nat fuel) → count_digits k fuel v = Z.of_nat (ndigits k v).
Proof.
  intros Hk. revert v. induction fuel as [|fuel IH]; intros v Hv; [rewrite Z.mul_0_r in Hv; change (2 ^ 0) with 1 in Hv; lia|]. cbn [count_digits].
  rewrite (proj2 (Z.ltb_lt 0 v)), shiftr_div by lia. assert (0 < 2 ^ k) as Hp by (apply Z.pow_pos_nonneg; lia).
  destruct (decide (v < 2 ^ k)) as [Hs|Hl].
  - rewrite Z.div_small by lia. assert (∀ f, count_digits k f 0 = 0) as -> by (by intros []).
    rewrite <- (ndigits_unique k v 1); [done|lia|lia|lia|by rewrite Z.mul_1_r|by left].
  - rewrite Nat2Z.inj_succ in Hv. replace (k * Z.succ (Z.of_nat fuel)) with (k + k * Z.of_nat fuel) in Hv by lia. rewrite Z.pow_add_r in Hv by lia.
    assert (0 < v / 2 ^ k) as Hq by (apply Z.div_str_pos; lia).
    rewrite IH by (split; [done|apply Z.div_lt_upper_bound; lia]).
    pose proof (ndigits_pos k (v / 2 ^ k) Hk). pose proof (ndigits_upper k (v / 2 ^ k) Hk ltac:(lia)) as Hu. pose proof (ndigits_lower k (v / 2 ^ k) Hk ltac:(lia)) as Hlo.
    set (n := ndigits k (v / 2 ^ k)) in *. rewrite <- (ndigits_unique k v (S n)); [lia|lia|lia|lia| |right].
    + rewrite Nat2Z.inj_succ. replace (k * Z.succ (Z.of_nat n)) with (k + k * Z.of_nat n) by lia. rewrite Z.pow_add_r by lia.
      pose proof (Z.div_mod v (2 ^ k) ltac:(lia)). pose proof (Z.mod_pos_bound v (2 ^ k) ltac:(lia)). nia.
    + replace (Z.of_nat (S n) - 1) with (Z.of_nat n) by lia. pose proof (Z.mul_div_le v (2 ^ k) ltac:(lia)). destruct Hlo as [Hn1|Hlo].
      * rewrite Hn1. replace (k * Z.of_nat 1) with k by lia. lia.
      * replace (k * Z.of_nat n) with (k + k * (Z.of_nat n - 1)) by lia. rewrite Z.pow_add_r by nia. nia.
Qed.


(** [f] writes [d] over as many bytes and moves behind them. *)
Definition writes (f : cursor → cursor) (d : bytes) : Prop := ∀ pre hole post, length hole = length d →
  f (pre ++ hole ++ post, zlen pre) = (pre ++ d ++ post, zlen pre + zlen d).
Lemma writes_compose f g d1 d2 : writes f d1 → writes g d2 → writes (λ out, g (f out)) (d1 ++ d2).
Proof.
  intros Hf Hg pre hole post Hh. rewrite length_app in Hh. rewrite <- (take_drop (length d1) hole), <- app_assoc. rewrite Hf by (rewrite length_take; lia).
  rewrite (app_assoc pre), <- zlen_app, Hg by (rewrite length_drop; lia). rewrite <- !app_assoc, !zlen_app. by rewrite Z.add_assoc.
Qed.
Lemma writes_byte b : is_u8 b → writes (put_byte b) [b].
Proof. intros Hb pre [|x [|? ?]] post Hh; [done| |done]. change ([x] ++ post) with (x :: post). rewrite (put_byte_app b pre x post Hb), zlen_app. by rewrite <- app_assoc. Qed.
Lemma writes_length n : 0 ≤ n < 2 ^ 31 → writes (asn1_put_length n) (der_length n).
Proof.
  intros Hn. change (2 ^ 31) with 2147483648 in Hn. unfold asn1_put_length, der_length. destruct (Z.leb_spec n 127).
  - rewrite decide_True by lia. apply writes_byte. word_lia.
  - rewrite decide_False by lia. rewrite (count_digits_spec 8 4 n) by (change (2 ^ (8 * Z.of_nat 4)) with 4294967296; lia). pose proof (ndigits_8_bounds n) as Hd. change (2 ^ 32) with 4294967296 in Hd.
    set (k := ndigits 8 n) in *. assert (Z.of_nat k .| 128 = 128 + Z.of_nat k) as ->.
    { rewrite Z.lor_comm. pose proof (lor_shiftl_add 1 7 (Z.of_nat k) ltac:(done) ltac:(split; change (2 ^ 7) with 128; lia)) as E. change (Z.shiftl 1 7) with 128 in E. rewrite E. lia. }
    apply (writes_compose (put_byte (128 + Z.of_nat k)) (λ out, advance (Z.of_nat k) (put_length_digits (Z.to_nat (Z.of_nat k)) n out)) [128 + Z.of_nat k] (be_bytes k n)).
    + apply writes_byte. word_lia.
    + intros pre hole post Hh. rewrite Nat2Z.id. rewrite length_be_bytes in Hh. rewrite put_length_digits_app by done. unfold advance. cbn [fst snd]. by rewrite zlen_be_bytes.
Qed.
Lemma class_byte cls : 0 ≤ cls < 8 → ((if cls mod 2 =? 0 then 0 else V_ASN1_CONSTRUCTED) .| (cls / 2 * 64 .& V_ASN1_PRIVATE)) = Z.shiftl cls 5.
Proof. intros Hc. pattern cls. apply (padding_cases _ cls); [lia|done..]. Qed.
Lemma writes_object tag n : is_u32 tag → 0 ≤ n < 2 ^ 31 →
  writes (ASN1_put_object (tag_class tag mod 2) n (tag_number tag) (tag_class tag / 2 * 64)) (der_header tag n).
Proof.
  intros Ht Hn. destruct (tag_split tag Ht) as (_ & Hcls & Hnum). set (cls := tag_class tag) in *. set (num := tag_number tag) in *.
  assert (0 ≤ num < 536870912) as Hnum' by exact Hnum.
  assert (∀ out, ASN1_put_object (cls mod 2) n num (cls / 2 * 64) out = asn1_put_length n
    ((λ out, if num <? 31 then put_byte (Z.shiftl cls 5 .| (num .& V_ASN1_PRIMITIVE_TAG)) out
      else advance (count_digits 7 5 num) (put_tag_digits (Z.to_nat (count_digits 7 5 num)) (count_digits 7 5 num) num (put_byte (Z.shiftl cls 5 .| V_ASN1_PRIMITIVE_TAG) out))) out)) as E.
  { intros out. unfold ASN1_put_object. rewrite class_byte by done. rewrite (proj2 (Z.eqb_neq (cls mod 2) 2)) by lia. done. }
  intros pre hole post Hh. rewrite E. revert pre hole post Hh. unfold der_header.
  assert (∀ x, is_uint 5 x → Z.shiftl cls 5 .| x = cls * 32 + x) as Hlor by (intros x Hx; by apply (lor_shiftl_add cls 5 x)).
  apply (writes_compose (λ out, if num <? 31 then _ else _) (asn1_put_length n)); [|by apply writes_length].
  unfold der_tag. fold cls num. destruct (Z.ltb_spec num 31).
  - rewrite decide_True by done. unfold V_ASN1_PRIMITIVE_TAG. rewrite land_1f, Z.mod_small, Hlor by (lia || (split; change (2 ^ 5) with 32; lia)). apply writes_byte. word_lia.
  - rewrite decide_False by lia. unfold V_ASN1_PRIMITIVE_TAG. rewrite Hlor by done. unfold base128.
    rewrite (count_digits_spec 7 5 num) by (change (2 ^ (7 * Z.of_nat 5)) with 34359738368; lia). set (k := ndigits 7 num).
    apply (writes_compose (put_byte (cls * 32 + 31)) (λ out, advance (Z.of_nat k) (put_tag_digits (Z.to_nat (Z.of_nat k)) (Z.of_nat k) num out)) [_]); [apply writes_byte; word_lia|].
    intros pre hole post Hh. rewrite Nat2Z.id. rewrite length_b128_bytes in Hh. rewrite put_tag_digits_app by (done || by apply ndigits_pos). unfold advance. cbn [fst snd]. unfold zlen. by rewrite length_b128_bytes.
Qed.
Lemma object_size_ok tag n : is_u32 tag → 0 ≤ n ≤ INT_MAX ÷ 2 → ASN1_object_size (tag_class tag mod 2) n (tag_number tag) = zlen (der_header tag n) + n.
Proof.
  intros Ht Hn. destruct (tag_split tag Ht) as (_ & Hcls & Hnum). change (INT_MAX ÷ 2) with 1073741823 in Hn. set (num := tag_number tag) in *.
  assert (0 ≤ num < 536870912) as Hnum' by exact Hnum.
  unfold ASN1_object_size. rewrite (proj2 (Z.ltb_ge n 0)), (proj2 (Z.eqb_neq (tag_class tag mod 2) 2)) by lia.
  assert (zlen (der_tag tag) = 1 + (if 31 <=? num then count_digits 7 5 num else 0)) as Ez.
  { unfold der_tag. fold num. destruct (Z.leb_spec 31 num); [rewrite decide_False by lia|rewrite decide_True by lia; done].
    rewrite (count_digits_spec 7 5 num) by (change (2 ^ (7 * Z.of_nat 5)) with 34359738368; lia). unfold base128. rewrite zlen_cons. unfold zlen. by rewrite length_b128_bytes. }
  assert (zlen (der_length n) = 1 + (if 127 <? n then count_digits 8 4 n else 0)) as El.
  { unfold der_length. destruct (Z.ltb_spec 127 n); [rewrite decide_False by lia|rewrite decide_True by lia; done].
    rewrite (count_digits_spec 8 4 n) by (change (2 ^ (8 * Z.of_nat 4)) with 4294967296; lia). by rewrite zlen_cons, zlen_be_bytes. }
  pose proof (zlen_der_tag tag Ht). pose proof (zlen_der_length n ltac:(word_lia)). rewrite <- Ez. unfold der_header. rewrite zlen_app.
  replace (zlen (der_tag tag) + 1 + (if 127 <? n then count_digits 8 4 n else 0)) with (zlen (der_tag tag) + zlen (der_length n)) by lia.
  unfold INT_MAX. change (2 ^ 31 - 1) with 2147483647. by rewrite (proj2 (Z.leb_gt _ _)) by lia.
Qed.


(** ** The reader reads it back *)

Lemma get_tag_digits_b128 n v c max : 0 ≤ v < 2 ^ 31 → (1 ≤ n)%nat → Z.of_nat n < max →
  get_tag_digits (b128_bytes n v ++ c) (v / 128 ^ Z.of_nat n) max = Some (v, c, max - Z.of_nat n).
Proof.
  intros Hv. change (2 ^ 31) with 2147483648 in Hv. revert max. induction n as [|n IH]; intros max Hn Hm; [lia|]. cbn [b128_bytes app get_tag_digits].
  set (q := v / 128 ^ Z.of_nat n). assert (0 < 128 ^ Z.of_nat n) as Hp by (apply Z.pow_pos_nonneg; lia).
  assert (0 ≤ q ≤ v) as Hq by (unfold q; split; [apply Z.div_pos|apply Z.div_le_upper_bound]; nia).
  assert (v / 128 ^ Z.of_nat (S n) = q / 128) as -> by (unfold q; rewrite Nat2Z.inj_succ, Z.pow_succ_r, (Z.mul_comm 128), Z.div_div by lia; done).
  assert (∀ f, f = 0 ∨ f = 128 → Z.shiftl (q / 128) 7 .| ((q mod 128 + f) .& 127) = q) as Hacc.
  { intros f Hf. rewrite land_7f. assert ((q mod 128 + f) mod 128 = q mod 128) as -> by (destruct Hf as [-> | ->]; lia).
    rewrite lor_shiftl_add by (done || (split; change (2 ^ 7) with 128; lia)). change (2 ^ 7) with 128. lia. }
  rewrite bit7_clear by (case_decide; word_lia). rewrite Hacc by (case_decide; tauto). rewrite (proj2 (Z.eqb_neq (max - 1) 0)) by lia.
  case_decide as Hz.
  - subst n. rewrite bool_decide_eq_true_2 by lia. cbn [negb]. unfold q. change (128 ^ Z.of_nat 0) with 1. rewrite Z.div_1_r. done.
  - rewrite bool_decide_eq_false_2 by lia. cbn [negb]. unfold q in *. rewrite IH by lia.
    assert (v / 128 ^ Z.of_nat n ≤ 16777215) as Hsmall.
    { destruct n as [|n]; [lia|]. apply Z.lt_succ_r, Z.div_lt_upper_bound; [lia|]. rewrite Nat2Z.inj_succ, Z.pow_succ_r by lia.
      assert (0 < 128 ^ Z.of_nat n) by (apply Z.pow_pos_nonneg; lia). nia. }
    change (INT_MAX >>> 7) with 16777215. rewrite (proj2 (Z.ltb_ge _ _)) by lia. do 2 f_equal. lia.
Qed.
Lemma get_length_digits_be n v c : 0 ≤ v < 2 ^ 64 → get_length_digits n (be_bytes n v ++ c) (v / 256 ^ Z.of_nat n) = (v, c).
Proof.
  intros Hv. induction n as [|n IH]; [cbn; by rewrite Z.div_1_r|]. cbn [get_length_digits be_bytes app hd tl].
  assert (0 < 256 ^ Z.of_nat n) as Hp by (apply Z.pow_pos_nonneg; lia). set (q := v / 256 ^ Z.of_nat n) in *.
  assert (v / 256 ^ Z.of_nat (S n) = q / 256) as -> by (unfold q; rewrite Nat2Z.inj_succ, Z.pow_succ_r, (Z.mul_comm 256), Z.div_div by lia; done).
  assert (0 ≤ q ≤ v) as Hq by (unfold q; split; [apply Z.div_pos|apply Z.div_le_upper_bound]; nia). word_bounds.
  assert (u64 (Z.shiftl (q / 256) 8) .| q mod 256 = q) as ->; [|exact IH].
  rewrite wrap_small by (rewrite Z.shiftl_mul_pow2 by lia; change (2 ^ 8) with 256; split; word_bounds; lia).
  rewrite lor_shiftl_add by (done || (split; change (2 ^ 8) with 256; lia)). change (2 ^ 8) with 256. lia.
Qed.
Lemma get_length_ok n c : 0 ≤ n ≤ INT_MAX ÷ 2 → asn1_get_length (der_length n ++ c) (zlen (der_length n ++ c)) = Some (n, c).
Proof.
  intros Hn. change (INT_MAX ÷ 2) with 1073741823 in Hn. unfold asn1_get_length. pose proof (zlen_der_length n ltac:(word_lia)) as Hz. rewrite zlen_app. pose proof (zlen_nonneg c).
  rewrite (proj2 (Z.ltb_ge _ 1)) by lia. unfold der_length in *. destruct (decide (n < 128)) as [Hs|Hl]; cbn [app hd tl].
  - rewrite (proj2 (Z.eqb_neq n 128)) by lia. rewrite bit7_clear by word_lia. rewrite bool_decide_eq_true_2 by lia. cbn [negb]. rewrite land_7f, Z.mod_small by lia.
    change (INT_MAX ÷ 2) with 1073741823. by rewrite (proj2 (Z.ltb_ge _ _)) by lia.
  - pose proof (ndigits_8_bounds n ltac:(word_lia)) as Hd. pose proof (ndigits8_range n ltac:(lia)) as Hr. set (k := ndigits 8 n) in *.
    rewrite (proj2 (Z.eqb_neq _ 128)) by lia. rewrite bit7_clear by word_lia. rewrite bool_decide_eq_false_2 by lia. cbn [negb]. rewrite land_7f.
    assert ((128 + Z.of_nat k) mod 128 = Z.of_nat k) as -> by lia. rewrite zlen_cons, zlen_be_bytes in *. rewrite !(proj2 (Z.ltb_ge _ _)) by lia. cbn [orb].
    rewrite Nat2Z.id. pose proof (get_length_digits_be k n c ltac:(change (2 ^ 64) with 18446744073709551616; lia)) as E. rewrite Z.div_small in E by lia. rewrite E.
    change (INT_MAX ÷ 2) with 1073741823. by rewrite (proj2 (Z.ltb_ge _ _)) by lia.
Qed.
Lemma identifier_constructed b : is_u8 b → b .& V_ASN1_CONSTRUCTED = b / 32 mod 2 * 32.
Proof. intros Hb. byte_crush b Hb. Qed.
Lemma identifier_class b : is_u8 b → b .& V_ASN1_PRIVATE = b / 32 / 2 * 64.
Proof. intros Hb. byte_crush b Hb. Qed.
Lemma get_object_ok tag n body : is_u32 tag → 0 ≤ n ≤ INT_MAX ÷ 2 → (tag_class tag / 2 = 0 → tag_number tag ≤ V_ASN1_MAX_UNIVERSAL) →
  let c := der_header tag n ++ body in
  ASN1_get_object (zlen c) c = if zlen body <? n then (None, c) else (Some (tag_class tag mod 2 * 32, n, tag_number tag, tag_class tag / 2 * 64), body).
Proof.
  intros Ht Hn Huniv c. destruct (tag_split tag Ht) as (_ & Hcls & Hnum). pose proof (zlen_der_tag tag Ht) as Hzt. pose proof (zlen_nonneg body).
  assert (zlen c = zlen (der_tag tag) + (zlen (der_length n) + zlen body)) as Hzc by (unfold c, der_header; rewrite !zlen_app; lia).
  change (INT_MAX ÷ 2) with 1073741823 in Hn. pose proof (zlen_der_length n ltac:(word_lia)) as Hzl. change 1073741823 with (INT_MAX ÷ 2) in Hn.
  set (cls := tag_class tag) in *. set (num := tag_number tag) in *. assert (0 ≤ num < 536870912) as Hnum' by exact Hnum.
  unfold ASN1_get_object. set (N := zlen c) in *. clearbody N. rewrite (proj2 (Z.eqb_neq N 0)) by lia.
  assert (∃ low, hd 0 c = cls * 32 + low ∧ 0 ≤ low < 32 ∧ (if low =? V_ASN1_PRIMITIVE_TAG
           then if N - 1 =? 0 then None else get_tag_digits (tl c) 0 (N - 1)
           else if N - 1 =? 0 then None else Some (low, tl c, N - 1)) = Some (num, der_length n ++ body, zlen (der_length n ++ body))) as (low & -> & Hlow & Etag).
  { rewrite (proj2 (Z.eqb_neq (N - 1) 0)) by lia. rewrite (zlen_app (der_length n)). unfold c, der_header, der_tag in *. fold cls num in Hzt, Hzc |- *. destruct (decide (num < 31)) as [Hs|Hl].
    - exists num. cbn [app hd tl]. split; [done|]. split; [lia|]. unfold V_ASN1_PRIMITIVE_TAG. rewrite (proj2 (Z.eqb_neq num 31)) by lia. do 2 f_equal. rewrite Hzc. rewrite zlen_cons. change (zlen (@nil Z)) with 0. lia.
    - exists 31. cbn [app hd tl]. split; [done|]. split; [lia|]. change (31 =? V_ASN1_PRIMITIVE_TAG) with true. cbv iota. unfold base128 in *. set (k := ndigits 7 num) in *.
      rewrite zlen_cons in Hzc. assert (zlen (b128_bytes k num) = Z.of_nat k) as Ek by (unfold zlen; by rewrite length_b128_bytes). rewrite Ek in Hzc.
      rewrite <- app_assoc. pose proof (get_tag_digits_b128 k num (der_length n ++ body) (N - 1) ltac:(change (2 ^ 31) with 2147483648; lia) ltac:(by apply ndigits_pos) ltac:(lia)) as E.
      rewrite Z.div_small in E by (split; [lia|]; rewrite pow128_pow2 by lia; apply ndigits_upper; lia).
      rewrite E. do 2 f_equal. lia. }
  assert ((((cls * 32 + low) .& V_ASN1_CONSTRUCTED), ((cls * 32 + low) .& V_ASN1_PRIVATE), ((cls * 32 + low) .& V_ASN1_PRIMITIVE_TAG)) = (cls mod 2 * 32, cls / 2 * 64, low)) as [= -> -> ->].
  { rewrite identifier_constructed, identifier_class by word_lia. unfold V_ASN1_PRIMITIVE_TAG. rewrite land_1f.
    assert ((cls * 32 + low) / 32 = cls ∧ (cls * 32 + low) mod 32 = low) as [-> ->] by lia. done. }
  rewrite Etag. assert ((cls / 2 * 64 =? V_ASN1_UNIVERSAL) && (V_ASN1_MAX_UNIVERSAL <? num) = false) as ->.
  { destruct (Z.eqb_spec (cls / 2 * 64) V_ASN1_UNIVERSAL) as [E|]; [|done]. apply Z.ltb_ge, Huniv. unfold V_ASN1_UNIVERSAL in E. lia. }
  rewrite get_length_ok by done. rewrite Hzc. replace (zlen (der_tag tag) + (zlen (der_length n) + zlen body) - (zlen (der_tag tag) + (zlen (der_length n) + zlen body) - zlen body)) with (zlen body) by lia. done.
Qed.


(** ** What the reader accepts lies in the input *)

Lemma get_tag_digits_sound p : ∀ l max t p' max', bytes_ok p → 0 ≤ l < 2 ^ 24 → get_tag_digits p l max = Some (t, p', max') →
  0 ≤ t < 2 ^ 31 ∧ ∃ d, p = d ++ p' ∧ max' = max - zlen d ∧ max' ≠ 0 ∧ 1 ≤ zlen d.
Proof.
  induction p as [|b p IH]; intros l max t p' max' Hok Hl H; [done|]. apply bytes_ok_cons in Hok as [Hb Hok]. change (2 ^ 24) with 16777216 in Hl. cbn [get_tag_digits] in H.
  assert (0 ≤ Z.shiftl l 7 .| (b .& 0x7f) < 2147483648) as Hacc.
  { rewrite land_7f, lor_shiftl_add by (done || (split; change (2 ^ 7) with 128; lia)). change (2 ^ 7) with 128. lia. }
  set (l' := Z.shiftl l 7 .| (b .& 127)) in *. destruct (Z.eqb_spec (max - 1) 0); [by destruct (negb _)|]. destruct (negb (b .& 128 =? 0)).
  - change (INT_MAX >>> 7) with 16777215 in H. destruct (Z.ltb_spec 16777215 l'); [done|]. apply IH in H as (Ht & d & -> & -> & Hne & Hd); [|done|change (2 ^ 24) with 16777216; lia].
    split; [done|]. exists (b :: d). rewrite zlen_cons. split_and!; [done|lia|done|lia].
  - injection H as <- <- <-. split; [done|]. by exists [b].
Qed.
Lemma get_length_digits_sound i : ∀ p ret ret' p', (i ≤ length p)%nat → get_length_digits i p ret = (ret', p') → p = take i p ++ p'.
Proof.
  induction i as [|i IH]; intros p ret ret' p' Hi H; [by injection H as <- <-|]. destruct p as [|b p]; [cbn in Hi; lia|]. cbn [get_length_digits hd tl length] in H, Hi.
  apply IH in H; [|lia]. cbn [take app]. by rewrite <- H.
Qed.
Lemma get_length_digits_nonneg i : ∀ p ret, bytes_ok p → 0 ≤ ret → 0 ≤ (get_length_digits i p ret).1.
Proof.
  induction i as [|i IH]; intros p ret Hp Hr; [done|]. cbn [get_length_digits]. apply IH; [destruct Hp; [constructor|done]|]. apply Z.lor_nonneg. split; [apply wrap_is_uint; lia|].
  destruct Hp as [|b p Hb]; [done|]. cbn [hd]. word_lia.
Qed.
Lemma get_length_sound p max n p' : bytes_ok p → max ≤ zlen p → asn1_get_length p max = Some (n, p') → 0 ≤ n ≤ INT_MAX ÷ 2 ∧ ∃ d, p = d ++ p' ∧ 1 ≤ zlen d.
Proof.
  intros Hok Hm H. unfold asn1_get_length in H. destruct (Z.ltb_spec max 1); [done|]. destruct p as [|b p]; [change (zlen (@nil Z)) with 0 in Hm; lia|].
  rewrite zlen_cons in Hm. apply bytes_ok_cons in Hok as [Hb Hok]. cbn [hd tl] in H. destruct (b =? 128); [done|]. rewrite land_7f in H. destruct (negb (b .& 128 =? 0)).
  - destruct (Z.ltb_spec 8 (b mod 128)); [done|]. destruct (Z.ltb_spec (max - 1) (b mod 128)); [done|]. cbn [orb] in H.
    destruct (get_length_digits _ p 0) as [ret p1] eqn:E. destruct (Z.ltb_spec (INT_MAX ÷ 2) ret); [done|]. injection H as <- <-.
    pose proof (get_length_digits_nonneg (Z.to_nat (b mod 128)) p 0 Hok ltac:(done)) as Hn. rewrite E in Hn. cbn in Hn. split; [lia|].
    apply get_length_digits_sound in E; [|unfold zlen in Hm; lia]. eexists (b :: _). cbn [app]. split; [f_equal; exact E|]. rewrite zlen_cons. match goal with |- _ ≤ _ + ?z => assert (0 ≤ z) by apply zlen_nonneg end. lia.
  - destruct (Z.ltb_spec (INT_MAX ÷ 2) (b mod 128)); [done|]. injection H as <- <-. split; [lia|]. by exists [b].
Qed.
Lemma get_object_sound c r n tag cls rest : bytes_ok c → ASN1_get_object (zlen c) c = (Some (r, n, tag, cls), rest) →
  0 ≤ tag < 2 ^ 31 ∧ 0 ≤ n ≤ zlen rest ∧ ∃ h, c = h ++ rest ∧ 2 ≤ zlen h.
Proof.
  intros Hok H. unfold ASN1_get_object in H. destruct (Z.eqb_spec (zlen c) 0); [done|]. destruct c as [|b p]; [done|]. apply bytes_ok_cons in Hok as [Hb Hok]. cbn [hd tl] in H. rewrite zlen_cons in H.
  destruct (if b .& V_ASN1_PRIMITIVE_TAG =? V_ASN1_PRIMITIVE_TAG then _ else _) as [[[t p1] max]|] eqn:E; [|done].
  assert (0 ≤ t < 2 ^ 31 ∧ ∃ d, p = d ++ p1 ∧ max = zlen p1) as (Ht & d & -> & Hmax).
  { replace (1 + zlen p - 1) with (zlen p) in E by lia. destruct (b .& V_ASN1_PRIMITIVE_TAG =? V_ASN1_PRIMITIVE_TAG), (zlen p =? 0); try done.
    - apply get_tag_digits_sound in E as (Ht & d & -> & -> & _); [|done|done]. split; [done|]. exists d. split; [done|]. rewrite zlen_app. lia.
    - injection E as <- <- <-. split; [|by exists []]. unfold V_ASN1_PRIMITIVE_TAG. rewrite land_1f. change (2 ^ 31) with 2147483648. lia. }
  destruct (_ && _); [done|]. apply bytes_ok_app in Hok as [_ Hok1]. destruct (asn1_get_length p1 max) as [[n1 p2]|] eqn:El; [|done].
  apply get_length_sound in El as (Hn & d2 & -> & Hd2); [|done|lia]. destruct (Z.ltb_spec (1 + zlen (d ++ d2 ++ p2) - (1 + zlen (d ++ d2 ++ p2) - zlen p2)) n1); [done|]. injection H as <- <- <- <- <-.
  split; [done|]. split; [lia|]. exists (b :: d ++ d2). rewrite zlen_cons, zlen_app. split; [cbn; by rewrite <- app_assoc|]. pose proof (zlen_nonneg d). lia.
Qed.

(** ** BOOLEAN *)

Lemma boolean_ok `{!Allocator} a pre hole post rest : length hole = 3%nat →
  let e := [1; 1; if a =? 0 then 0 else 0xff] in
  i2d_ASN1_BOOLEAN a Size_only = (3, Size_only) ∧
  i2d_ASN1_BOOLEAN a (Place (pre ++ hole ++ post, zlen pre)) = (3, Place (pre ++ e ++ post, zlen pre + 3)) ∧
  i2d_ASN1_BOOLEAN a Allocate = (if malloc_ok 3 then (3, Place (e, 0)) else (-1, Allocate)) ∧
  d2i_ASN1_BOOLEAN (zlen (e ++ rest)) (e ++ rest) = (if a =? 0 then 0 else 0xff, rest).
Proof.
  intros Hh e. destruct hole as [|h0 [|h1 [|h2 [|? ?]]]]; try done. unfold i2d_ASN1_BOOLEAN. change (ASN1_object_size 0 1 V_ASN1_BOOLEAN) with 3.
  pose proof (writes_object 1 1 ltac:(done) ltac:(done)) as Hw. change (der_header 1 1) with [1; 1] in Hw. change (ASN1_put_object _ _ _ _) with (ASN1_put_object 0 1 V_ASN1_BOOLEAN V_ASN1_UNIVERSAL) in Hw.
  assert (∀ pre h0 h1 h2 post, let '(buf, p) := ASN1_put_object 0 1 V_ASN1_BOOLEAN V_ASN1_UNIVERSAL (pre ++ [h0; h1; h2] ++ post, zlen pre) in
    (write_at p [if a =? 0 then 0 else 0xff] buf, p) = (pre ++ e ++ post, zlen pre + 2)) as Hwrite.
  { intros pre' x0 x1 x2 post'. change (pre' ++ [x0; x1; x2] ++ post') with (pre' ++ [x0; x1] ++ x2 :: post'). rewrite Hw by done. change (zlen [1; 1]) with 2.
    f_equal. replace (zlen pre' + 2) with (zlen (pre' ++ [1; 1])) by (rewrite zlen_app; done). rewrite app_assoc. change (x2 :: post') with ([x2] ++ post'). rewrite write_at_app by done. by rewrite <- app_assoc. }
  split; [done|]. split.
  { specialize (Hwrite pre h0 h1 h2 post). destruct (ASN1_put_object _ _ _ _ _) as [buf p]. injection Hwrite as -> ->. do 3 f_equal. lia. }
  split.
  { destruct (malloc_ok 3); [|done]. specialize (Hwrite [] (u8 (junk 0)) (u8 (junk 1)) (u8 (junk 2)) []). cbn [app] in Hwrite. change (zlen []) with 0 in Hwrite.
    change (fresh_bytes 0 (Z.to_nat 3)) with [u8 (junk 0); u8 (junk 1); u8 (junk 2)]. destruct (ASN1_put_object _ _ _ _ _) as [buf p]. injection Hwrite as -> ->. done. }
  unfold d2i_ASN1_BOOLEAN. pose proof (get_object_ok 1 1 ((if a =? 0 then 0 else 255) :: rest) ltac:(done) ltac:(done) ltac:(done)) as Hg. cbv zeta in Hg.
  change (der_header 1 1 ++ _) with (e ++ rest) in Hg. rewrite Hg, zlen_cons, (proj2 (Z.ltb_ge _ 1)) by (pose proof (zlen_nonneg rest); lia). done.
Qed.


(** ** The theorem *)

(** C18: For every tag in the form of [Cbs] (universal ones up to 255) and every length up to INT_MAX / 2,
    [ASN1_put_object] writes exactly the DER header at the place it is given, [ASN1_object_size] is the
    size of the element, and [ASN1_get_object] reads header and tag back unless the contents are cut
    short, which it refuses.  On any input at all what it accepts is inside the input: the header is a
    prefix and the announced contents fit in the rest.  BOOLEAN in its three output forms is read back. *)
Theorem ASN1_object_header_exact `{!Allocator} tag n body pre hole post c a b3 : is_u32 tag → 0 ≤ n ≤ INT_MAX ÷ 2 →
  (tag_class tag / 2 = 0 → tag_number tag ≤ V_ASN1_MAX_UNIVERSAL) → length hole = length (der_header tag n) → bytes_ok c → length b3 = 3%nat →
  let constructed := tag_class tag mod 2 in let xclass := tag_class tag / 2 * 64 in
  ASN1_put_object constructed n (tag_number tag) xclass (pre ++ hole ++ post, zlen pre) = (pre ++ der_header tag n ++ post, zlen pre + zlen (der_header tag n)) ∧
  ASN1_object_size constructed n (tag_number tag) = zlen (der_header tag n) + n ∧
  ASN1_get_object (zlen (der_header tag n ++ body)) (der_header tag n ++ body) =
    (if zlen body <? n then (None, der_header tag n ++ body) else (Some (constructed * 32, n, tag_number tag, xclass), body)) ∧
  (∀ r n' tag' cls rest, ASN1_get_object (zlen c) c = (Some (r, n', tag', cls), rest) → 0 ≤ tag' < 2 ^ 31 ∧ 0 ≤ n' ≤ zlen rest ∧ ∃ h, c = h ++ rest ∧ 2 ≤ zlen h) ∧
  let e := [1; 1; if a =? 0 then 0 else 0xff] in
  i2d_ASN1_BOOLEAN a Size_only = (3, Size_only) ∧ i2d_ASN1_BOOLEAN a (Place (pre ++ b3 ++ post, zlen pre)) = (3, Place (pre ++ e ++ post, zlen pre + 3)) ∧
  i2d_ASN1_BOOLEAN a Allocate = (if malloc_ok 3 then (3, Place (e, 0)) else (-1, Allocate)) ∧
  d2i_ASN1_BOOLEAN (zlen (e ++ body)) (e ++ body) = (if a =? 0 then 0 else 0xff, body).
Proof.
  intros Ht Hn Huniv Hh Hok H3 constructed xclass. split; [apply writes_object; [done|change (INT_MAX ÷ 2) with 1073741823 in Hn; change (2 ^ 31) with 2147483648; lia|done]|].
  split; [by apply object_size_ok|]. split; [by apply get_object_ok|]. split; [intros; by eapply get_object_sound|]. by apply boolean_ok.
Qed.
#[local] Instance roomy_headers : Allocator := {| malloc_ok _ := true; junk _ := 7 |}.
(** The constructed context-specific tag 200 with 300 bytes of contents. *)
Lemma ASN1_object_header_exact_witness :
  ASN1_put_object 1 300 200 128 (repeat 7 8, 1) = ([7; 0xBF; 0x81; 0x48; 0x82; 0x01; 0x2C; 7], 7) ∧
  ASN1_get_object 306 ([0xBF; 0x81; 0x48; 0x82; 0x01; 0x2C] ++ repeat 5 300) = (Some (0x20, 300, 200, 0x80), repeat 5 300).
Proof.
  destruct (ASN1_object_header_exact (5 * 2 ^ 29 + 200) 300 (repeat 5 300) [7] (repeat 7 6) [7] [] 1 [0; 0; 0]) as (Hput & _ & Hget & _);
    [by vm_compute|by vm_compute|by vm_compute|reflexivity|constructor|reflexivity|].
  split; [exact Hput|exact Hget].
Defined.
