(* ===== verification/Julian.v ===== *)
(** * Calendar arithmetic ([crypto/asn1/time_support.c])

    Dates to and from Julian day numbers with the formulas of Fliegel and Van Flandern, and the
    arithmetic on [struct tm] above them.  C division truncates: [Z.quot].  The code computes in [int]
    and [long]; the calendar is proved for the formulas over the integers, [day_number] and [day_date],
    which the code agrees with where nothing overflows. *)
From S2P Require Export Prelude.

(** ** Operations *)

(** The fields of [struct tm] that the code uses. *)
Record tm := { tm_sec : Z; tm_min : Z; tm_hour : Z; tm_mday : Z; tm_mon : Z; tm_year : Z }.
Definition SECS_PER_DAY : Z := 24 * 60 * 60.

(** ** Arithmetic of [int] and [long]

    An operation of type [int] or [long] has its exact value when that is in the range of the type;
    otherwise C leaves it undefined.  The functions are written once, over two such arithmetics: one
    that wraps around, which the callers use, and one that fails. *)
Class Arith (M : Type → Type) := { arith_ret :: MRet M; arith_bind :: MBind M; int : Z → M Z; long : Z → M Z }.
Definition in_width (w z : Z) : option Z := if decide (- 2 ^ (w - 1) ≤ z < 2 ^ (w - 1)) then Some z else None.
Definition wrapping : Arith (λ A, A) := {| arith_ret := λ A x, x; arith_bind := λ A B f x, f x; int := s32; long := s64 |}.
Definition checked : Arith option := {| arith_ret := _; arith_bind := _; int := in_width 32; long := in_width 64 |}.

Section Operations.
Context {M : Type → Type} {A : Arith M}.

(** The parameters are [int]s.  Divisors are positive constants: no overflow there. *)
Definition date_to_julian_with (y m d : Z) : M Z :=
  m14 ← int (m - 14);
  let q := m14 ÷ 12 in
  y1 ← int (y + 4800); y1 ← int (y1 + q); y1 ← int (1461 * y1);
  m1 ← int (m - 2); q12 ← int (12 * q); m1 ← int (m1 - q12); m1 ← int (367 * m1);
  y2 ← int (y + 4900); y2 ← int (y2 + q); y2 ← int (3 * (y2 ÷ 100));
  r ← int (y1 ÷ 4 + m1 ÷ 12); r ← int (r - y2 ÷ 4); r ← int (r + d); int (r - 32075).
(** Year, month and day. *)
Definition julian_to_date_with (jd : Z) : M (Z * Z * Z) :=
  L ← long (jd + 68569);
  n ← long (4 * L);
  let n := n ÷ 146097 in
  t ← long (146097 * n); t ← long (t + 3); L ← long (L - t ÷ 4);
  i ← long (L + 1); i ← long (4000 * i);
  let i := i ÷ 1461001 in
  t ← long (1461 * i); L ← long (L - t ÷ 4); L ← long (L + 31);
  j ← long (80 * L);
  let j := j ÷ 2447 in
  t ← long (2447 * j); t ← long (L - t ÷ 80); d ← int t;
  let L := j ÷ 11 in
  t ← long (12 * L); m ← long (j + 2); m ← long (m - t); m ← int m;
  y ← long (n - 49); y ← long (100 * y); y ← long (y + i); y ← long (y + L); y ← int y;
  mret (y, m, d).

(** The day, with an offset, and the second of the day. *)
Definition julian_day_with (t : tm) (offset_day offset_hms : Z) : M (option (Z * Z)) :=
  time_year ← int (tm_year t + 1900);
  time_month ← int (tm_mon t + 1);
  let time_day := tm_mday t in
  time_jd ← date_to_julian_with time_year time_month time_day;
  time_jd ← long (time_jd + offset_day);
  mret (if time_jd <? 0 then None else Some (time_jd, offset_hms)).
Definition julian_adj_with (t : tm) (off_day offset_sec : Z) : M (option (Z * Z)) :=
  offset_day ← int (offset_sec ÷ SECS_PER_DAY);
  whole ← int (offset_day * SECS_PER_DAY); part ← long (offset_sec - whole); offset_hms ← int part;
  offset_day ← int (offset_day + off_day);
  h ← int (tm_hour t * 3600); m ← int (tm_min t * 60); now ← int (h + m); now ← int (now + tm_sec t);
  offset_hms ← int (offset_hms + now);
  if SECS_PER_DAY <=? offset_hms then day ← int (offset_day + 1); hms ← int (offset_hms - SECS_PER_DAY); julian_day_with t day hms
  else if offset_hms <? 0 then day ← int (offset_day - 1); hms ← int (offset_hms + SECS_PER_DAY); julian_day_with t day hms
  else julian_day_with t offset_day offset_hms.

Definition gmtime_adj_with (t : tm) (off_day offset_sec : Z) : M (option tm) :=
  r ← julian_adj_with t off_day offset_sec;
  match r with
  | None => mret None
  | Some (time_jd, time_sec) =>
      '(time_year, time_month, time_day) ← julian_to_date_with time_jd;
      if (time_year <? 1900) || (9999 <? time_year) then mret None
      else
        year ← int (time_year - 1900);
        mon ← int (time_month - 1);
        mret (Some {| tm_year := year; tm_mon := mon; tm_mday := time_day;
                      tm_hour := time_sec ÷ 3600; tm_min := Z.rem (time_sec ÷ 60) 60; tm_sec := Z.rem time_sec 60 |})
  end.

(** Days and seconds. *)
Definition gmtime_diff_with (from to : tm) : M (option (Z * Z)) :=
  r ← julian_adj_with from 0 0;
  match r with
  | None => mret None
  | Some (from_jd, from_sec) =>
      r ← julian_adj_with to 0 0;
      match r with
      | None => mret None
      | Some (to_jd, to_sec) =>
          diff_day ← long (to_jd - from_jd);
          diff_sec ← int (to_sec - from_sec);
          '(diff_day, diff_sec) ←
            (if (0 <? diff_day) && (diff_sec <? 0)
             then day ← long (diff_day - 1); sec ← int (diff_sec + SECS_PER_DAY); mret (day, sec) else mret (diff_day, diff_sec));
          '(diff_day, diff_sec) ←
            (if (diff_day <? 0) && (0 <? diff_sec)
             then day ← long (diff_day + 1); sec ← int (diff_sec - SECS_PER_DAY); mret (day, sec) else mret (diff_day, diff_sec));
          diff_day ← int diff_day;
          mret (Some (diff_day, diff_sec))
      end
  end.
End Operations.
Definition date_to_julian : Z → Z → Z → Z := date_to_julian_with (A := wrapping).
Definition julian_to_date : Z → Z * Z * Z := julian_to_date_with (A := wrapping).
Definition julian_adj : tm → Z → Z → option (Z * Z) := julian_adj_with (A := wrapping).
Definition OPENSSL_gmtime_adj : tm → Z → Z → option tm := gmtime_adj_with (A := wrapping).
Definition OPENSSL_gmtime_diff : tm → tm → option (Z * Z) := gmtime_diff_with (A := wrapping).

Example julian_epoch : date_to_julian 1970 1 1 = 2440588 ∧ julian_to_date 2440588 = (1970, 1, 1).
Proof. done. Qed.

(** What the failing arithmetic computes, the wrapping one computes too. *)
Lemma s32_in_width z v : in_width 32 z = Some v → s32 z = v.
Proof. unfold in_width. case_decide as H; [|done]. intros [= <-]. by apply s32_id. Qed.
Lemma s64_in_width z v : in_width 64 z = Some v → s64 z = v.
Proof. unfold in_width. case_decide as H; [|done]. intros [= <-]. by apply s64_id. Qed.
Lemma in_width_small w z : - 2 ^ (w - 1) ≤ z < 2 ^ (w - 1) → in_width w z = Some z.
Proof. intros H. unfold in_width. by rewrite decide_True. Qed.
Definition agree {T} (c : option T) (w : T) : Prop := ∀ v, c = Some v → w = v.
Lemma agree_bind {T U} (f : T → option U) (g : T → U) c w : agree c w → (∀ x, agree (f x) (g x)) →
  agree (@mbind option (@arith_bind _ checked) T U f c) (@mbind (λ T, T) (@arith_bind _ wrapping) T U g w).
Proof. intros Hc Hf v E. apply bind_Some in E as (x & E & Ef). apply Hc in E as <-. by apply Hf. Qed.
Lemma agree_ret {T} (x : T) : agree (@mret option (@arith_ret _ checked) T x) (@mret (λ T, T) (@arith_ret _ wrapping) T x).
Proof. by intros v [= <-]. Qed.
Lemma agree_int z : agree (@int _ checked z) (@int _ wrapping z).
Proof. intros v E. cbn in E. unfold in_width in E. case_decide as H; [|done]. injection E as <-. by apply s32_id. Qed.
Lemma agree_long z : agree (@long _ checked z) (@long _ wrapping z).
Proof. intros v E. cbn in E. unfold in_width in E. case_decide as H; [|done]. injection E as <-. by apply s64_id. Qed.
(** Along the operations and the branches. *)
Ltac agreeing := cbv zeta; repeat (first [apply agree_int | apply agree_long | apply agree_ret | apply agree_bind; [|intros ?] | eassumption | match goal with
  | |- agree (let '(_, _) := ?p in _) _ => destruct p
  | |- agree (match ?p with Some _ => _ | None => _ end) _ => destruct p
  | |- agree (if ?b then _ else _) _ => destruct b end]; cbv beta zeta).
Lemma date_to_julian_agree y m d : agree (date_to_julian_with (A := checked) y m d) (date_to_julian_with (A := wrapping) y m d).
Proof. unfold date_to_julian_with. agreeing. Qed.
Lemma julian_to_date_agree jd : agree (julian_to_date_with (A := checked) jd) (julian_to_date_with (A := wrapping) jd).
Proof. unfold julian_to_date_with. agreeing. Qed.
Lemma julian_adj_agree t a b : agree (julian_adj_with (A := checked) t a b) (julian_adj_with (A := wrapping) t a b).
Proof. unfold julian_adj_with. agreeing. Qed.
Lemma gmtime_adj_agree t a b : agree (gmtime_adj_with (A := checked) t a b) (OPENSSL_gmtime_adj t a b).
Proof. unfold OPENSSL_gmtime_adj, gmtime_adj_with. agreeing. Qed.
Lemma gmtime_diff_agree from to : agree (gmtime_diff_with (A := checked) from to) (OPENSSL_gmtime_diff from to).
Proof. unfold OPENSSL_gmtime_diff, gmtime_diff_with. agreeing. Qed.
(** ** Day numbers

    The formulas of Fliegel and Van Flandern over the integers. *)
Definition day_number (y m d : Z) : Z :=
  (1461 * (y + 4800 + (m - 14) ÷ 12)) ÷ 4 + (367 * (m - 2 - 12 * ((m - 14) ÷ 12))) ÷ 12
  - (3 * ((y + 4900 + (m - 14) ÷ 12) ÷ 100)) ÷ 4 + d - 32075.
(** Year, month and day. *)
Definition day_date (jd : Z) : Z * Z * Z :=
  let L := jd + 68569 in
  let n := (4 * L) ÷ 146097 in
  let L := L - (146097 * n + 3) ÷ 4 in
  let i := (4000 * (L + 1)) ÷ 1461001 in
  let L := L - (1461 * i) ÷ 4 + 31 in
  let j := (80 * L) ÷ 2447 in
  let d := L - (2447 * j) ÷ 80 in
  let L := j ÷ 11 in
  let m := j + 2 - 12 * L in
  let y := 100 * (n - 49) + i + L in
  (y, m, d).

(** ** The calendar *)

Definition leap (y : Z) : bool := (y mod 4 =? 0) && (negb (y mod 100 =? 0) || (y mod 400 =? 0)).
Definition month_length (y m : Z) : Z :=
  if m =? 2 then (if leap y then 29 else 28)
  else if (m =? 4) || (m =? 6) || (m =? 9) || (m =? 11) then 30 else 31.
Definition valid_date (y m d : Z) : Prop := 1 ≤ m ≤ 12 ∧ 1 ≤ d ≤ month_length y m.
Definition next_day (y m d : Z) : Z * Z * Z :=
  if d <? month_length y m then (y, m, d + 1) else if m <? 12 then (y, m + 1, 1) else (y + 1, 1, 1).

(** The formulas in terms of years that start in March: [Y] counts them, [k] their months. *)
Definition march (y m : Z) : Z * Z := if m <=? 2 then (y + 4799, m + 10) else (y + 4800, m - 2).
Lemma day_number_march y m d : 1 ≤ m ≤ 12 → -4799 ≤ y →
  day_number y m d = let '(Y, k) := march y m in
    (146097 * (Y / 100)) / 4 + (1461 * (Y mod 100)) / 4 + (367 * k) / 12 + d - 32075.
Proof.
  intros Hm Hy. unfold day_number, march. destruct (Z.leb_spec m 2).
  - assert ((m - 14) ÷ 12 = -1) as -> by lia. rewrite !Z.quot_div_nonneg by lia.
    replace (y + 4900 + -1) with (y + 4799 + 1 * 100) by lia. rewrite Z.div_add by done.
    replace (y + 4800 + -1) with (y + 4799) by lia. replace (m - 2 - 12 * -1) with (m + 10) by lia. set (Y := y + 4799). lia.
  - assert ((m - 14) ÷ 12 = 0) as -> by lia. rewrite !Z.quot_div_nonneg by lia.
    replace (y + 4900 + 0) with (y + 4800 + 1 * 100) by lia. rewrite Z.div_add by done.
    replace (y + 4800 + 0) with (y + 4800) by lia. replace (m - 2 - 12 * 0) with (m - 2) by lia. set (Y := y + 4800). lia.
Qed.

(** ** The formulas invert each other *)

(** The century, from the days counted from a multiple of four centuries. *)
Lemma julian_century c D : 0 ≤ c → 0 ≤ D → D ≤ 36523 ∨ (D ≤ 36524 ∧ c mod 4 = 3) →
  let L := (146097 * c) / 4 + D + 36525 in (4 * L) / 146097 = c + 1 ∧ L - (146097 * (c + 1) + 3) / 4 = D.
Proof. intros Hc HD Hlast L. unfold L. split; lia. Qed.
Lemma julian_year r e : 0 ≤ r < 100 → 0 ≤ e → e ≤ 364 ∨ (e ≤ 365 ∧ r mod 4 = 3) →
  (4000 * ((1461 * r) / 4 + e + 1)) / 1461001 = r.
Proof. intros Hr He Hlast. lia. Qed.
(** Days of the months from March on. *)
Definition march_length (k : Z) : Z := if k =? 12 then 29 else if (k =? 2) || (k =? 4) || (k =? 7) || (k =? 9) then 30 else 31.
Lemma month_cases (P : Z → Prop) m : 1 ≤ m ≤ 12 → P 1 → P 2 → P 3 → P 4 → P 5 → P 6 → P 7 → P 8 → P 9 → P 10 → P 11 → P 12 → P m.
Proof.
  intros Hm. assert (m = 1 ∨ m = 2 ∨ m = 3 ∨ m = 4 ∨ m = 5 ∨ m = 6 ∨ m = 7 ∨ m = 8 ∨ m = 9 ∨ m = 10 ∨ m = 11 ∨ m = 12) as H by lia.
  intros. by repeat destruct H as [->|H]; subst.
Qed.
Lemma julian_month k d : 1 ≤ k ≤ 12 → 1 ≤ d ≤ march_length k → (80 * ((367 * k) / 12 + d)) / 2447 = k ∧ (2447 * k) / 80 = (367 * k) / 12.
Proof.
  intros Hk. revert d. apply (month_cases (λ k, ∀ d, 1 ≤ d ≤ march_length k → (80 * ((367 * k) / 12 + d)) / 2447 = k ∧ (2447 * k) / 80 = (367 * k) / 12) k Hk);
    intros d Hd; cbn in Hd; lia.
Qed.
Lemma leap_mod y : leap y = true ↔ y mod 4 = 0 ∧ (y mod 100 ≠ 0 ∨ y mod 400 = 0).
Proof. unfold leap. rewrite andb_true_iff, orb_true_iff, negb_true_iff, !Z.eqb_eq, Z.eqb_neq. done. Qed.
Lemma day_date_march Y k d : 0 ≤ Y → 1 ≤ k ≤ 12 → 1 ≤ d ≤ march_length k → (k = 12 → d = 29 → leap (Y - 4799) = true) →
  day_date ((146097 * (Y / 100)) / 4 + (1461 * (Y mod 100)) / 4 + (367 * k) / 12 + d - 32075) = (Y - 4800 + k / 11, k + 2 - 12 * (k / 11), d).
Proof.
  intros HY Hk Hd Hleap. set (c := Y / 100). set (r := Y mod 100). set (e := (367 * k) / 12 + d - 31).
  assert (0 ≤ c ∧ 0 ≤ r < 100 ∧ Y = 100 * c + r) as (Hc & Hr & HYcr) by (unfold c, r; lia).
  assert (0 ≤ e ∧ (e ≤ 364 ∨ (e = 365 ∧ k = 12 ∧ d = 29))) as [He Hfeb].
  { clear -Hk Hd. subst e. revert d Hd.
    apply (month_cases (λ k, ∀ d, 1 ≤ d ≤ march_length k → 0 ≤ (367 * k) / 12 + d - 31 ∧ ((367 * k) / 12 + d - 31 ≤ 364 ∨ (367 * k) / 12 + d - 31 = 365 ∧ k = 12 ∧ d = 29)) k Hk);
      intros d Hd; cbn in Hd; lia. }
  assert (e ≤ 364 ∨ (e ≤ 365 ∧ r mod 4 = 3)) as Hy.
  { destruct Hfeb as [?|(? & Hk12 & Hd29)]; [by left|right]. pose proof (Hleap Hk12 Hd29) as Hl%leap_mod. lia. }
  assert ((1461 * r) / 4 + e ≤ 36523 ∨ ((1461 * r) / 4 + e ≤ 36524 ∧ c mod 4 = 3)) as HD.
  { destruct Hfeb as [?|(? & Hk12 & Hd29)]; [left; lia|]. pose proof (Hleap Hk12 Hd29) as Hl%leap_mod. lia. }
  destruct (julian_century c ((1461 * r) / 4 + e) Hc ltac:(lia) HD) as [Hn HL]. pose proof (julian_year r e Hr He Hy) as Hi.
  destruct (julian_month k d Hk Hd) as [Hj Hj'].
  unfold day_date. replace (146097 * c / 4 + 1461 * r / 4 + 367 * k / 12 + d - 32075 + 68569) with (146097 * c / 4 + (1461 * r / 4 + e) + 36525) by (unfold e; lia).
  set (L := 146097 * c / 4 + (1461 * r / 4 + e) + 36525) in *. cbv zeta in Hn, HL.
  rewrite (Z.quot_div_nonneg (4 * L)) by lia. rewrite Hn. rewrite (Z.quot_div_nonneg (146097 * (c + 1) + 3)) by lia. rewrite HL.
  rewrite (Z.quot_div_nonneg (4000 * _)) by lia. rewrite Hi. rewrite (Z.quot_div_nonneg (1461 * r)) by lia.
  replace (1461 * r / 4 + e - 1461 * r / 4 + 31) with (367 * k / 12 + d) by (unfold e; lia).
  rewrite (Z.quot_div_nonneg (80 * _)) by lia. rewrite Hj. rewrite (Z.quot_div_nonneg (2447 * k)), Hj' by lia.
  rewrite (Z.quot_div_nonneg k) by lia. f_equal; [f_equal|]; lia.
Qed.

(** The first formula gives each date a number that the second one takes back. *)
Lemma valid_march y m d : valid_date y m d → let '(Y, k) := march y m in
  1 ≤ k ≤ 12 ∧ 1 ≤ d ≤ march_length k ∧ (k = 12 → d = 29 → leap (Y - 4799) = true) ∧ y = Y - 4800 + k / 11 ∧ m = k + 2 - 12 * (k / 11).
Proof.
  intros [Hm Hd]. assert (m = 2 → d = 29 → leap y = true) as Hleap by (intros -> ->; cbn in Hd; destruct (leap y); [done|lia]).
  assert (1 ≤ d ≤ march_length (march y m).2) as Hlen.
  { clear Hleap. unfold march. revert d Hd. apply (month_cases (λ m, ∀ d, 1 ≤ d ≤ month_length y m → 1 ≤ d ≤ march_length (if m <=? 2 then (y + 4799, m + 10) else (y + 4800, m - 2)).2) m Hm);
      unfold march_length; intros d; cbn -[leap]; try destruct (leap y); repeat case_match; lia. }
  unfold march in *. destruct (Z.leb_spec m 2); (split; [lia|]; split; [done|]; split; [|lia]); intros Hk H29; [|lia].
  replace (y + 4799 - 4799) with y by lia. apply Hleap; [lia|done].
Qed.
Lemma julian_roundtrip y m d : -4799 ≤ y → valid_date y m d → day_date (day_number y m d) = (y, m, d).
Proof.
  intros Hy Hv. rewrite day_number_march by (done || apply Hv). pose proof (valid_march y m d Hv) as H.
  assert (0 ≤ (march y m).1) as HY by (unfold march; destruct (m <=? 2); cbn; lia). destruct (march y m) as [Y k]. cbn [fst] in HY.
  destruct H as (Hk & Hd & Hl & -> & ->). by rewrite day_date_march.
Qed.
(** And the numbers are consecutive. *)
Lemma next_day_valid y m d : valid_date y m d → let '(y', m', d') := next_day y m d in valid_date y' m' d' ∧ y ≤ y'.
Proof.
  intros [Hm Hd]. unfold next_day. destruct (Z.ltb_spec d (month_length y m)); [split; [|done]; split; [done|lia]|].
  assert (∀ y m, 28 ≤ month_length y m) as Hlen by (intros; unfold month_length; repeat case_match; lia).
  destruct (Z.ltb_spec m 12); (split; [|lia]; split; [lia|]); [specialize (Hlen y (m + 1))|specialize (Hlen (y + 1) 1)]; lia.
Qed.
Lemma march_year Y : 0 ≤ Y → (146097 * ((Y + 1) / 100)) / 4 + (1461 * ((Y + 1) mod 100)) / 4 =
  (146097 * (Y / 100)) / 4 + (1461 * (Y mod 100)) / 4 + (if leap (Y - 4799) then 366 else 365).
Proof.
  intros HY. destruct (leap (Y - 4799)) eqn:Hl; [apply leap_mod in Hl; lia|].
  assert (¬ ((Y - 4799) mod 4 = 0 ∧ ((Y - 4799) mod 100 ≠ 0 ∨ (Y - 4799) mod 400 = 0))) as Hl' by (rewrite <- leap_mod; congruence). lia.
Qed.
(** Inside a year that starts in March the months follow each other. *)
Lemma march_month_end y m : 1 ≤ m < 12 → m ≠ 2 → let '(Y, k) := march y m in march y (m + 1) = (Y, k + 1) ∧ (367 * (k + 1)) / 12 + 1 = (367 * k) / 12 + month_length y m + 1.
Proof.
  intros Hm Hne. assert (1 ≤ m ≤ 12) as Hm' by lia. revert Hm Hne. unfold march, month_length.
  apply (month_cases (λ m, 1 ≤ m < 12 → m ≠ 2 → let '(Y, k) := if m <=? 2 then (y + 4799, m + 10) else (y + 4800, m - 2) in
    (if m + 1 <=? 2 then (y + 4799, m + 1 + 10) else (y + 4800, m + 1 - 2)) = (Y, k + 1) ∧
    (367 * (k + 1)) / 12 + 1 = (367 * k) / 12 + (if m =? 2 then if leap y then 29 else 28 else if (m =? 4) || (m =? 6) || (m =? 9) || (m =? 11) then 30 else 31) + 1) m Hm');
    intros Hm Hne; (done || lia || (split; reflexivity)).
Qed.
Lemma julian_next_day y m d : -4799 ≤ y → valid_date y m d →
  let '(y', m', d') := next_day y m d in day_number y' m' d' = day_number y m d + 1.
Proof.
  intros Hy [Hm Hd]. unfold next_day. destruct (Z.ltb_spec d (month_length y m)) as [Hlt|Hge].
  { rewrite !day_number_march by lia. destruct (march y m). lia. }
  assert (d = month_length y m) as -> by lia. clear Hd Hge. destruct (decide (m = 2)) as [->|Hm2].
  - change (2 <? 12) with true. cbv iota. rewrite !day_number_march by lia. change (march y (2 + 1)) with (y + 4800, 1). change (march y 2) with (y + 4799, 12).
    replace (y + 4800) with (y + 4799 + 1) by lia. pose proof (march_year (y + 4799) ltac:(lia)) as HY. replace (y + 4799 - 4799) with y in HY by lia.
    change (367 * 1 / 12) with 30. change (367 * 12 / 12) with 367.
    assert (month_length y 2 = if leap y then 29 else 28) as -> by done. destruct (leap y); lia.
  - destruct (Z.ltb_spec m 12).
    + rewrite !day_number_march by lia. pose proof (march_month_end y m ltac:(lia) Hm2) as H1. destruct (march y m) as [Y k]. destruct H1 as [-> ?]. lia.
    + assert (m = 12) as -> by lia. rewrite !day_number_march by lia. change (march (y + 1) 1) with (y + 1 + 4799, 11). change (march y 12) with (y + 4800, 10).
      change (month_length y 12) with 31. change (367 * 11 / 12) with 336. change (367 * 10 / 12) with 305. replace (y + 1 + 4799) with (y + 4800) by lia. lia.
Qed.
(** Every day from the first one on has its date. *)
Lemma julian_dates jd : 0 ≤ jd → ∃ y m d, -4713 ≤ y ∧ valid_date y m d ∧ day_number y m d = jd.
Proof.
  revert jd. apply natlike_ind.
  - exists (-4713), 11, 24. done.
  - intros jd Hjd (y & m & d & Hy & Hv & E). pose proof (julian_next_day y m d ltac:(lia) Hv) as Hn. pose proof (next_day_valid y m d Hv) as Hv'.
    destruct (next_day y m d) as [[y' m'] d']. exists y', m', d'. destruct Hv' as [Hv' Hyy]. split_and!; [lia|done|lia].
Qed.
Lemma day_date_valid jd : 0 ≤ jd → let '(y, m, d) := day_date jd in -4713 ≤ y ∧ valid_date y m d ∧ day_number y m d = jd.
Proof. intros Hjd. destruct (julian_dates jd Hjd) as (y & m & d & Hy & Hv & <-). rewrite julian_roundtrip by (done || lia). done. Qed.

(** ** Moments *)

(** A moment of the calendar; no leap seconds. *)
Record tm_ok (t : tm) : Prop := {
  ok_date : valid_date (tm_year t + 1900) (tm_mon t + 1) (tm_mday t);
  ok_year : -4712 ≤ tm_year t + 1900 < 100000;
  ok_hour : 0 ≤ tm_hour t < 24; ok_min : 0 ≤ tm_min t < 60; ok_sec : 0 ≤ tm_sec t < 60 }.
(** The seconds since the start of the Julian day count. *)
Definition seconds (t : tm) : Z :=
  day_number (tm_year t + 1900) (tm_mon t + 1) (tm_mday t) * 86400 + tm_hour t * 3600 + tm_min t * 60 + tm_sec t.

Lemma month_length_bound y m : 28 ≤ month_length y m ≤ 31.
Proof. unfold month_length. repeat case_match; lia. Qed.
(** The first day of a year bounds the dates of the years before and after. *)
Lemma julian_year_bound y m d : -4799 ≤ y → valid_date y m d → day_number y 1 1 ≤ day_number y m d < day_number (y + 1) 1 1.
Proof.
  intros Hy [Hm Hd]. rewrite !day_number_march by lia. change (march y 1) with (y + 4799, 11). change (march (y + 1) 1) with (y + 1 + 4799, 11).
  pose proof (march_year (y + 4799) ltac:(lia)) as HY. replace (y + 4799 - 4799) with y in HY by lia. replace (y + 1 + 4799) with (y + 4799 + 1) by lia.
  change (367 * 11 / 12) with 336. unfold march. destruct (Z.leb_spec m 2).
  - assert (m = 1 ∨ m = 2) as [-> | ->] by lia.
    + change (month_length y 1) with 31 in Hd. change (367 * (1 + 10) / 12) with 336. destruct (leap y); lia.
    + assert (month_length y 2 = if leap y then 29 else 28) as E by done. rewrite E in Hd. change (367 * (2 + 10) / 12) with 367. destruct (leap y); lia.
  - replace (y + 4800) with (y + 4799 + 1) by lia. pose proof (month_length_bound y m).
    assert (30 ≤ (367 * (m - 2)) / 12 ≤ 305) by lia. destruct (leap y); lia.
Qed.
Lemma julian_years y y' : -4799 ≤ y ≤ y' → day_number y 1 1 ≤ day_number y' 1 1.
Proof.
  intros [Hy Hyy]. rewrite !day_number_march by lia.
  change (march y 1) with (y + 4799, 11). change (march y' 1) with (y' + 4799, 11). cbv iota beta zeta. lia.
Qed.
Lemma julian_day_bounds y m d : -4712 ≤ y < 100000 → valid_date y m d → 38 ≤ day_number y m d < 40000000.
Proof.
  intros Hy Hv. pose proof (julian_year_bound y m d ltac:(lia) Hv) as Hb. pose proof (julian_years (-4712) y ltac:(lia)) as H1.
  pose proof (julian_years (y + 1) 100000 ltac:(lia)) as H2. change (day_number (-4712) 1 1) with 38 in H1.
  change (day_number 100000 1 1) with 38245310 in H2. lia.
Qed.


(** ** The code computes day numbers *)

(** Nothing overflows up to the year 1465000. *)
Definition int_year (y : Z) : Prop := -4799 ≤ y ≤ 1465000.
Ltac widths := change (2 ^ (32 - 1)) with 2147483648 in *; change (2 ^ (64 - 1)) with 9223372036854775808 in *.
Lemma check_int {T} z (f : Z → option T) : - 2147483648 ≤ z < 2147483648 → (@mbind option (@arith_bind _ checked) Z T f (@int _ checked z)) = f z.
Proof. intros H. cbn. by rewrite in_width_small. Qed.
Lemma bind_checked {T U} (f : T → option U) x : @mbind option (@arith_bind _ checked) T U f (Some x) = f x.
Proof. done. Qed.
Lemma ret_checked {T} (x : T) : @mret option (@arith_ret _ checked) T x = Some x.
Proof. done. Qed.
Lemma check_long {T} z (f : Z → option T) : - 9223372036854775808 ≤ z < 9223372036854775808 → (@mbind option (@arith_bind _ checked) Z T f (@long _ checked z)) = f z.
Proof. intros H. cbn. by rewrite in_width_small. Qed.
(** The first operation does not overflow. *)
Ltac checks_int := match goal with |- @mbind _ _ _ _ ?f (@int _ _ ?z) = _ => rewrite (check_int z f) by lia; cbv beta end.
Ltac checks_long := match goal with |- @mbind _ _ _ _ ?f (@long _ _ ?z) = _ => rewrite (check_long z f) by lia; cbv beta end.
Ltac check_all := repeat first [rewrite ret_checked | rewrite bind_checked | match goal with
  | |- context [@mbind _ _ _ _ ?f (@int _ _ ?z)] => rewrite (check_int z f) by lia; cbv beta
  | |- context [@mbind _ _ _ _ ?f (@long _ _ ?z)] => rewrite (check_long z f) by lia; cbv beta end].
Lemma date_to_julian_checked y m d : int_year y → 1 ≤ m ≤ 12 → 1 ≤ d ≤ 31 → date_to_julian_with (A := checked) y m d = Some (day_number y m d).
Proof.
  intros Hy Hm Hd. unfold int_year in Hy. unfold date_to_julian_with, day_number. assert (-1 ≤ (m - 14) ÷ 12 ≤ 0) as Hq by lia.
  rewrite check_int by lia. cbv zeta. set (q := (m - 14) ÷ 12) in *. clearbody q.
  repeat rewrite check_int by lia. cbn. rewrite in_width_small; [done|]. change (2 ^ (32 - 1)) with 2147483648. lia.
Qed.
Lemma julian_to_date_checked jd y m d : - 32000 ≤ jd < 2 ^ 40 → day_date jd = (y, m, d) → - 2 ^ 31 ≤ y < 2 ^ 31 → 1 ≤ m ≤ 12 → 1 ≤ d ≤ 31 →
  julian_to_date_with (A := checked) jd = Some (y, m, d).
Proof.
  intros Hjd E Hy Hm Hd. unfold day_date in E. change (2 ^ 40) with 1099511627776 in Hjd. change (2 ^ 31) with 2147483648 in Hy.
  unfold julian_to_date_with. rewrite check_long by lia. set (L := jd + 68569) in *. assert (36569 ≤ L < 1099511700000) as HL by lia. clearbody L.
  rewrite check_long by lia. cbv zeta. set (n := (4 * L) ÷ 146097) in *. assert (0 ≤ 4 * L - 146097 * n < 146097) as Hn by (unfold n; lia). clearbody n.
  do 3 rewrite check_long by lia. set (L1 := L - (146097 * n + 3) ÷ 4) in *. assert (-1 ≤ L1 < 36525) as HL1 by (unfold L1; lia). clearbody L1.
  do 2 rewrite check_long by lia. set (i := (4000 * (L1 + 1)) ÷ 1461001) in *. assert (0 ≤ i < 100) as Hi by (unfold i; lia). clearbody i.
  do 3 rewrite check_long by lia. set (L2 := L1 - (1461 * i) ÷ 4 + 31) in *. assert (-36525 ≤ L2 < 36556) as HL2 by (unfold L2; lia). clearbody L2.
  rewrite check_long by lia. cbv zeta. set (j := (80 * L2) ÷ 2447) in *. assert (-1200 ≤ j < 1200) as Hj by (unfold j; lia). clearbody j.
  injection E as Ey Em Ed. do 2 rewrite check_long by lia. rewrite check_int by lia. rewrite !check_long by lia. rewrite check_int by lia. rewrite !check_long by lia. rewrite check_int by lia.
  cbn. repeat f_equal; lia.
Qed.

Definition small_offset (off_day offset_sec : Z) : Prop := - 2 ^ 30 ≤ off_day ≤ 2 ^ 30 ∧ - 2 ^ 31 < offset_sec < 2 ^ 31.
Lemma julian_adj_checked t off_day offset_sec : tm_ok t → small_offset off_day offset_sec →
  let target := seconds t + off_day * 86400 + offset_sec in
  julian_adj_with (A := checked) t off_day offset_sec = Some (if target / 86400 <? 0 then None else Some (target / 86400, target mod 86400)).
Proof.
  intros [Hd Hy Hh Hmi Hs] [Ho Hos] target. pose proof (julian_day_bounds _ _ _ Hy Hd) as Hjd. pose proof Hd as [Hm0 _]. unfold julian_adj_with.
  change SECS_PER_DAY with 86400. change (2 ^ 31) with 2147483648 in *. change (2 ^ 30) with 1073741824 in *.
  set (q := offset_sec ÷ 86400). assert (-24855 ≤ q ≤ 24855 ∧ -86400 < offset_sec - q * 86400 < 86400) as [Hq Hr] by (unfold q; lia). clearbody q.
  do 2 checks_int. checks_long. do 6 checks_int.
  set (sod := tm_hour t * 3600 + tm_min t * 60 + tm_sec t). assert (0 ≤ sod < 86400) as Hsod by (unfold sod; lia). checks_int.
  set (jd := day_number (tm_year t + 1900) (tm_mon t + 1) (tm_mday t)) in *.
  assert (target = (jd + off_day) * 86400 + sod + offset_sec) as Htarget by (unfold target, seconds, sod, jd; lia).
  assert (∀ day hms, jd + day = target / 86400 → hms = target mod 86400 → -1073800000 < day < 1073800000 →
    julian_day_with (A := checked) t day hms = Some (if target / 86400 <? 0 then None else Some (target / 86400, target mod 86400))) as Hend.
  { intros day hms Hday -> Hb. unfold julian_day_with. do 2 checks_int. cbv zeta.
    pose proof (month_length_bound (tm_year t + 1900) (tm_mon t + 1)). rewrite date_to_julian_checked by (destruct Hd; unfold int_year; lia). fold jd.
    rewrite bind_checked. checks_long. by rewrite Hday. }
  clearbody target sod jd. destruct (Z.leb_spec 86400 (offset_sec - q * 86400 + sod)); [|destruct (Z.ltb_spec (offset_sec - q * 86400 + sod) 0)].
  - do 2 checks_int. apply Hend; lia.
  - do 2 checks_int. apply Hend; lia.
  - apply Hend; lia.
Qed.

Lemma julian_adj_ok t off_day offset_sec : tm_ok t → small_offset off_day offset_sec →
  let target := seconds t + off_day * 86400 + offset_sec in
  julian_adj t off_day offset_sec = if target / 86400 <? 0 then None else Some (target / 86400, target mod 86400).
Proof. intros Ht Ho target. exact (julian_adj_agree t off_day offset_sec _ (julian_adj_checked t off_day offset_sec Ht Ho)). Qed.
(** The year of a day number below 2^30. *)
Lemma day_date_checked jd : 0 ≤ jd < 1200000000 → julian_to_date_with (A := checked) jd = Some (day_date jd).
Proof.
  intros Hjd. pose proof (day_date_valid jd ltac:(lia)) as Hv. destruct (day_date jd) as [[y m] d] eqn:E. destruct Hv as (Hy & Hv & Hn).
  pose proof (julian_year_bound y m d ltac:(lia) Hv) as Hb. pose proof Hv as [Hm Hd]. pose proof (month_length_bound y m).
  assert (y < 5000000) as Hy5.
  { apply Z.nle_gt. intros Hle. pose proof (julian_years 5000000 y ltac:(lia)) as Hyr. change (day_number 5000000 1 1) with 1827933560 in Hyr. lia. }
  change (2 ^ 40) with 1099511627776 in *. apply julian_to_date_checked; [change (2 ^ 40) with 1099511627776; lia|done|change (2 ^ 31) with 2147483648; lia|done|lia].
Qed.
(** The years that [OPENSSL_gmtime_adj] accepts. *)
Definition years_1900_9999 (moment : Z) : Prop := day_number 1900 1 1 * 86400 ≤ moment < day_number 10000 1 1 * 86400.
Definition adjusted_to (target : Z) (r : option tm) : Prop :=
  match r with Some t' => tm_ok t' ∧ seconds t' = target ∧ 0 ≤ tm_year t' ≤ 8099 | None => ¬ years_1900_9999 target end.
Lemma moment_of_day target y m d : 0 ≤ target → day_date (target / 86400) = (y, m, d) → 1900 ≤ y ≤ 9999 → let s := target mod 86400 in
  adjusted_to target (Some {| tm_year := y - 1900; tm_mon := m - 1; tm_mday := d; tm_hour := s ÷ 3600; tm_min := Z.rem (s ÷ 60) 60; tm_sec := Z.rem s 60 |}).
Proof.
  intros Ht E Hy1 s. pose proof (day_date_valid (target / 86400) ltac:(lia)) as Hv. rewrite E in Hv. destruct Hv as (Hy & Hv & Hjd).
  assert (0 ≤ s < 86400) as Hs by (unfold s; lia). split_and!; [|unfold seconds|..]; cbn [tm_year tm_mon tm_mday tm_hour tm_min tm_sec]; try lia.
  - split; cbn [tm_year tm_mon tm_mday tm_hour tm_min tm_sec]; [|lia..].
    by replace (y - 1900 + 1900) with y by lia; replace (m - 1 + 1) with m by lia.
  - replace (y - 1900 + 1900) with y by lia. replace (m - 1 + 1) with m by lia. rewrite Hjd. unfold s in *. clear -Hs. set (q := target / 86400) in *.
    assert (target = q * 86400 + target mod 86400) by (unfold q; lia). set (r := target mod 86400) in *. clearbody q r.
    assert (r = r ÷ 3600 * 3600 + Z.rem (r ÷ 60) 60 * 60 + Z.rem r 60) by lia. lia.
Qed.
Lemma gmtime_adj_checked t off_day offset_sec : tm_ok t → small_offset off_day offset_sec →
  ∃ r, gmtime_adj_with (A := checked) t off_day offset_sec = Some r ∧ adjusted_to (seconds t + off_day * 86400 + offset_sec) r.
Proof.
  intros Ht Hoff. unfold gmtime_adj_with. rewrite julian_adj_checked by done. set (target := seconds t + off_day * 86400 + offset_sec).
  assert (target / 86400 < 1200000000) as Hlt.
  { destruct Ht as [Hd Hy Hh Hmi Hs]. pose proof (julian_day_bounds _ _ _ Hy Hd). destruct Hoff as [Ho Hos]. unfold target, seconds.
    change (2 ^ 31) with 2147483648 in *. change (2 ^ 30) with 1073741824 in *. lia. }
  clearbody target. destruct (Z.ltb_spec (target / 86400) 0).
  { exists None. split; [done|]. unfold adjusted_to, years_1900_9999. change (day_number 1900 1 1) with 2415021. lia. }
  rewrite bind_checked. rewrite day_date_checked by lia.
  pose proof (day_date_valid (target / 86400) ltac:(lia)) as Hv. destruct (day_date (target / 86400)) as [[y m] d] eqn:E. destruct Hv as (Hy & Hv & Hjd).
  rewrite bind_checked.
  pose proof (julian_year_bound y m d ltac:(lia) Hv) as Hb. unfold adjusted_to, years_1900_9999. change (day_number 1900 1 1) with 2415021. change (day_number 10000 1 1) with 5373485.
  destruct (Z.ltb_spec y 1900).
  { exists None. split; [done|]. pose proof (julian_years (y + 1) 1900 ltac:(lia)) as Hyr. change (day_number 1900 1 1) with 2415021 in Hyr. lia. }
  destruct (Z.ltb_spec 9999 y).
  { exists None. split; [done|]. pose proof (julian_years 10000 y ltac:(lia)) as Hyr. change (day_number 10000 1 1) with 5373485 in Hyr. lia. }
  cbn [orb]. destruct Hv as [Hm _]. eexists. split; [do 2 checks_int; reflexivity|]. by apply moment_of_day; [lia|exact E|lia].
Qed.
Lemma gmtime_adj_ok t off_day offset_sec : tm_ok t → small_offset off_day offset_sec →
  adjusted_to (seconds t + off_day * 86400 + offset_sec) (OPENSSL_gmtime_adj t off_day offset_sec).
Proof. intros Ht Ho. destruct (gmtime_adj_checked t off_day offset_sec Ht Ho) as (r & E & Hr). by rewrite (gmtime_adj_agree _ _ _ _ E). Qed.
(** Days and seconds of one sign, the latter less than a day. *)
Definition split_difference (difference : Z) (r : option (Z * Z)) : Prop :=
  ∃ days secs, r = Some (days, secs) ∧ days * 86400 + secs = difference ∧ ((0 ≤ days ∧ 0 ≤ secs < 86400) ∨ (days ≤ 0 ∧ -86400 < secs ≤ 0)).
Lemma seconds_bounds t : tm_ok t → 38 ≤ seconds t / 86400 < 40000000.
Proof. intros [Hd Hy Hh Hmi Hs]. pose proof (julian_day_bounds _ _ _ Hy Hd). unfold seconds. lia. Qed.
Lemma gmtime_diff_checked from to : tm_ok from → tm_ok to →
  ∃ r, gmtime_diff_with (A := checked) from to = Some r ∧ split_difference (seconds to - seconds from) r.
Proof.
  intros Hf Ht. assert (small_offset 0 0) as H0 by done. unfold gmtime_diff_with.
  rewrite !julian_adj_checked by done. rewrite Z.mul_0_l, !Z.add_0_r. pose proof (seconds_bounds from Hf) as Bf. pose proof (seconds_bounds to Ht) as Bt.
  rewrite (proj2 (Z.ltb_ge (seconds from / 86400) 0)), (proj2 (Z.ltb_ge (seconds to / 86400) 0)) by lia. rewrite !bind_checked.
  set (F := seconds from) in *. set (T := seconds to) in *. clearbody F T. change SECS_PER_DAY with 86400.
  assert (F = F / 86400 * 86400 + F mod 86400 ∧ T = T / 86400 * 86400 + T mod 86400 ∧ 0 ≤ F mod 86400 < 86400 ∧ 0 ≤ T mod 86400 < 86400) as (HF & HT & RF & RT) by lia.
  set (fd := F / 86400) in *. set (fs := F mod 86400) in *. set (td := T / 86400) in *. set (ts := T mod 86400) in *. clearbody fd fs td ts.
  rewrite (check_long (td - fd)) by lia. rewrite (check_int (ts - fs)) by lia.
  destruct (Z.ltb_spec 0 (td - fd)), (Z.ltb_spec (ts - fs) 0); cbn [andb]; check_all.
  all: match goal with |- context [(?d <? 0) && (0 <? ?s)] => destruct (Z.ltb_spec d 0), (Z.ltb_spec 0 s) end; cbn [andb]; check_all.
  all: eexists; split; [reflexivity|]; do 2 eexists; split; [reflexivity|]; lia.
Qed.
Lemma gmtime_diff_ok from to : tm_ok from → tm_ok to → split_difference (seconds to - seconds from) (OPENSSL_gmtime_diff from to).
Proof. intros Hf Ht. destruct (gmtime_diff_checked from to Hf Ht) as (r & E & Hr). by rewrite (gmtime_diff_agree _ _ _ E). Qed.


(** ** The theorems *)

(** C7. The two formulas are the Gregorian calendar, and nothing overflows in them, from the year -4799 up to
    the year 1465000, where the products of [date_to_julian] come to the end of [int]: the date of the number
    of a valid date is that date again, consecutive dates have consecutive numbers, the date of a number is
    a valid one and has this number; 1 January 1970 is day 2440588. *)
Theorem julian_calendar y m d jd : -4799 ≤ y < 1465000 → valid_date y m d → 0 ≤ jd ≤ 536801687 →
  (date_to_julian_with (A := checked) y m d = Some (date_to_julian y m d) ∧ julian_to_date_with (A := checked) jd = Some (julian_to_date jd)) ∧
  julian_to_date (date_to_julian y m d) = (y, m, d) ∧
  (let '(y', m', d') := next_day y m d in valid_date y' m' d' ∧ date_to_julian y' m' d' = date_to_julian y m d + 1) ∧
  (let '(y', m', d') := julian_to_date jd in valid_date y' m' d' ∧ date_to_julian y' m' d' = jd) ∧
  date_to_julian 1970 1 1 = 2440588.
Proof.
  intros Hy Hv Hjd. pose proof (julian_next_day y m d ltac:(lia) Hv) as Hn. pose proof (next_day_valid y m d Hv) as Hv'.
  assert (∀ y m d, int_year y → valid_date y m d → date_to_julian_with (A := checked) y m d = Some (day_number y m d)) as Hc.
  { clear. intros y m d Hy [Hm Hd]. pose proof (month_length_bound y m). apply date_to_julian_checked; [done|done|lia]. }
  assert (∀ y m d, int_year y → valid_date y m d → date_to_julian y m d = day_number y m d) as Hd.
  { intros y' m' d' H1 H2. exact (date_to_julian_agree _ _ _ _ (Hc y' m' d' H1 H2)). }
  assert (∀ jd, 0 ≤ jd ≤ 536801687 → julian_to_date jd = day_date jd) as Hj.
  { intros k Hk. apply (julian_to_date_agree k). apply day_date_checked. lia. }
  assert (int_year y) as Hyr by (unfold int_year; lia). rewrite (Hd y m d Hyr Hv), (Hj jd Hjd). split_and!; [by apply Hc|apply day_date_checked; lia| | | |done].
  - apply (julian_to_date_agree (day_number y m d)). destruct Hv as [Hm Hdd]. pose proof (month_length_bound y m).
    pose proof (julian_year_bound y m d ltac:(lia) (conj Hm Hdd)) as Hb. pose proof (julian_years (-4799) y ltac:(lia)) as H1. pose proof (julian_years (y + 1) 1465001 ltac:(lia)) as H2.
    change (day_number (-4799) 1 1) with (-31738) in H1. change (day_number 1465001 1 1) with 536801688 in H2.
    apply julian_to_date_checked; [change (2 ^ 40) with 1099511627776; lia|by apply julian_roundtrip; [lia|]|change (2 ^ 31) with 2147483648; lia|done|lia].
  - assert ((next_day y m d).1.1 ≤ y + 1) as Hle by (unfold next_day; repeat case_match; cbn; lia). destruct (next_day y m d) as [[y' m'] d']. cbn in Hle. destruct Hv' as [Hv' ?].
    split; [done|]. rewrite Hd; [done|unfold int_year; lia|done].
  - pose proof (day_date_valid jd ltac:(lia)) as Hdv. destruct (day_date jd) as [[y' m'] d']. destruct Hdv as (Hlo & Hv2 & E). split; [done|]. rewrite Hd; [done| |done].
    unfold int_year. split; [lia|]. apply Z.nlt_ge. intros Hlt. pose proof (julian_years 1465001 y' ltac:(lia)) as Hyy. change (day_number 1465001 1 1) with 536801688 in Hyy.
    pose proof (julian_year_bound y' m' d' ltac:(lia) Hv2). lia.
Qed.
Lemma julian_calendar_witness :
  next_day 2024 2 28 = (2024, 2, 29) ∧ julian_to_date (date_to_julian 2024 2 28) = (2024, 2, 28) ∧
  (valid_date 2024 2 29 ∧ date_to_julian 2024 2 29 = date_to_julian 2024 2 28 + 1) ∧
  (valid_date 2000 2 29 ∧ date_to_julian 2000 2 29 = 2451604) ∧ date_to_julian 1970 1 1 = 2440588.
Proof. split; [reflexivity|]. apply (julian_calendar 2024 2 28 2451604); [lia|split; vm_compute; split; discriminate|lia]. Defined.

(** C19. For moments of the years -4712 to 99999, offsets of at most 2^30 days and less than 2^31 seconds:
    adding an offset moves the moment by exactly that many seconds, over days, months and years, and fails
    exactly when the result is outside the years 1900 to 9999; the fields of the result are in range.  The
    difference of two moments is split into days and seconds of the same sign, with less than a day of
    seconds.  No operation of [int] or [long] overflows on the way. *)
Theorem gmtime_arithmetic_exact t t' off_day offset_sec : tm_ok t → tm_ok t' → small_offset off_day offset_sec →
  adjusted_to (seconds t + off_day * 86400 + offset_sec) (OPENSSL_gmtime_adj t off_day offset_sec) ∧
  split_difference (seconds t' - seconds t) (OPENSSL_gmtime_diff t t') ∧
  gmtime_adj_with (A := checked) t off_day offset_sec = Some (OPENSSL_gmtime_adj t off_day offset_sec) ∧
  gmtime_diff_with (A := checked) t t' = Some (OPENSSL_gmtime_diff t t').
Proof.
  intros Ht Ht' Hoff. destruct (gmtime_adj_checked t off_day offset_sec Ht Hoff) as (r & E & _). destruct (gmtime_diff_checked t t' Ht Ht') as (r' & E' & _).
  split_and!; [by apply gmtime_adj_ok|by apply gmtime_diff_ok| |].
  - by rewrite (gmtime_adj_agree _ _ _ _ E).
  - by rewrite (gmtime_diff_agree _ _ _ E').
Qed.
Definition new_year : tm := {| tm_sec := 59; tm_min := 59; tm_hour := 23; tm_mday := 31; tm_mon := 11; tm_year := 99 |}.
Definition leap_day : tm := {| tm_sec := 0; tm_min := 0; tm_hour := 0; tm_mday := 29; tm_mon := 1; tm_year := 100 |}.
Lemma new_year_ok : tm_ok new_year.
Proof. split; vm_compute; repeat split; discriminate. Qed.
Lemma leap_day_ok : tm_ok leap_day.
Proof. split; vm_compute; repeat split; discriminate. Qed.
Lemma gmtime_arithmetic_exact_witness :
  OPENSSL_gmtime_adj new_year 59 1 = Some leap_day ∧ OPENSSL_gmtime_diff leap_day new_year = Some (-59, -1) ∧
  adjusted_to (seconds new_year + 59 * 86400 + 1) (OPENSSL_gmtime_adj new_year 59 1) ∧ split_difference (seconds leap_day - seconds new_year) (OPENSSL_gmtime_diff new_year leap_day) ∧
  gmtime_adj_with (A := checked) new_year 59 1 = Some (OPENSSL_gmtime_adj new_year 59 1) ∧ gmtime_diff_with (A := checked) new_year leap_day = Some (OPENSSL_gmtime_diff new_year leap_day).
Proof.
  split; [reflexivity|]. split; [reflexivity|].
  apply (gmtime_arithmetic_exact new_year leap_day 59 1 new_year_ok leap_day_ok). split; vm_compute; split; discriminate || reflexivity.
Defined.
