(* ===== verification/AsnTime.v ===== *)
(** * UTCTime and GeneralizedTime ([crypto/asn1/a_gentm.c], [a_utctm.c], [a_time.c])

    Times are text in an [ASN1_STRING].  Both parsers read the text two digits at a time, with bounds
    from two tables, into a [struct tm] that may be absent, and end with an optional time zone; the
    printers go through [gmtime].  The text of a string is followed by a NUL in its memory block. *)
From S2P Require Export MbString Julian.

Definition V_ASN1_UTCTIME : Z := 23.
Definition V_ASN1_GENERALIZEDTIME : Z := 24.

(** ** Parsing *)

(** The [tm] argument: [None] for a null pointer. *)
Abbreviation tm_st := (st (option tm)).
Definition on_tm (f : tm → tm) : tm_st unit := st_modify (option_map f).
Definition set_sec n t := {| tm_sec := n; tm_min := tm_min t; tm_hour := tm_hour t; tm_mday := tm_mday t; tm_mon := tm_mon t; tm_year := tm_year t |}.
Definition set_min n t := {| tm_sec := tm_sec t; tm_min := n; tm_hour := tm_hour t; tm_mday := tm_mday t; tm_mon := tm_mon t; tm_year := tm_year t |}.
Definition set_hour n t := {| tm_sec := tm_sec t; tm_min := tm_min t; tm_hour := n; tm_mday := tm_mday t; tm_mon := tm_mon t; tm_year := tm_year t |}.
Definition set_mday n t := {| tm_sec := tm_sec t; tm_min := tm_min t; tm_hour := tm_hour t; tm_mday := n; tm_mon := tm_mon t; tm_year := tm_year t |}.
Definition set_mon n t := {| tm_sec := tm_sec t; tm_min := tm_min t; tm_hour := tm_hour t; tm_mday := tm_mday t; tm_mon := n; tm_year := tm_year t |}.
Definition set_year n t := {| tm_sec := tm_sec t; tm_min := tm_min t; tm_hour := tm_hour t; tm_mday := tm_mday t; tm_mon := tm_mon t; tm_year := n |}.

(** [a[o]]. *)
Definition char_at (a : bytes) (o : Z) : Z := nth (Z.to_nat o) a 0.
Definition is_digit (c : Z) : bool := negb ((c <? 48) || (57 <? c)).
Definition is_zone (c : Z) : bool := (c =? 90) || (c =? 43) || (c =? 45).

Section Parser.
Context (a : bytes) (l : Z).

(** One field: the number and the next offset. *)
Definition two_digits (o : Z) : tm_st (Z * Z) :=
  _ ← st_assert (is_digit (char_at a o));
  let n := char_at a o - 48 in
  let o := o + 1 in
  _ ← st_assert (negb (l <? o));
  _ ← st_assert (is_digit (char_at a o));
  let n := n * 10 + char_at a o - 48 in
  let o := o + 1 in
  _ ← st_assert (negb (l <? o));
  mret (n, o).
Definition in_table (min max : list Z) (i n : Z) : bool :=
  negb ((n <? nth (Z.to_nat i) min 0) || (nth (Z.to_nat i) max 0 <? n)).
(** The loop over the fields; [seconds_at] is the number of the seconds, which may be missing. *)
Fixpoint fields_loop (seconds_at : Z) (min max : list Z) (store : Z → Z → tm → tm) (steps : nat) (i o : Z) : tm_st Z :=
  match steps with
  | O => mret o
  | S steps =>
      if (i =? seconds_at) && is_zone (char_at a o) then _ ← on_tm (set_sec 0); mret o
      else
        '(n, o) ← two_digits o;
        _ ← st_assert (in_table min max i n);
        _ ← on_tm (store i n);
        fields_loop seconds_at min max store steps (i + 1) o
  end.
(** The hours and minutes of a time zone; they are known to be inside the text. *)
Definition zone_field (min max : list Z) (i o : Z) : tm_st (Z * Z) :=
  _ ← st_assert (is_digit (char_at a o));
  let n := char_at a o - 48 in
  let o := o + 1 in
  _ ← st_assert (is_digit (char_at a o));
  let n := n * 10 + char_at a o - 48 in
  _ ← st_assert (in_table min max i n);
  mret (n, o + 1).
(** [first] is the number of the hours in the tables. *)
Definition zone_offset (min max : list Z) (first o : Z) : tm_st Z :=
  let offsign := if char_at a o =? 45 then 1 else -1 in
  let o := o + 1 in
  _ ← st_assert (negb (l <? o + 4));
  '(h, o) ← zone_field min max first o;
  '(m, o) ← zone_field min max (first + 1) o;
  t ← st_get;
  match t with
  | None => mret o
  | Some t =>
      let offset := h * 3600 + m * 60 in
      if offset =? 0 then mret o
      else match OPENSSL_gmtime_adj t 0 (offset * offsign) with Some t => _ ← st_put (Some t); mret o | None => st_fail end
  end.
Fixpoint skip_digits (fuel : nat) (o : Z) : Z :=
  match fuel with
  | O => o
  | S fuel => if is_digit (char_at a o) && (o <=? l) then skip_digits fuel (o + 1) else o
  end.
End Parser.

Definition gen_min : list Z := [0; 0; 1; 1; 0; 0; 0; 0; 0].
Definition gen_max : list Z := [99; 99; 12; 31; 23; 59; 59; 12; 59].
Definition gen_store (i n : Z) (t : tm) : tm :=
  if i =? 0 then set_year (n * 100 - 1900) t else if i =? 1 then set_year (tm_year t + n) t
  else if i =? 2 then set_mon (n - 1) t else if i =? 3 then set_mday n t
  else if i =? 4 then set_hour n t else if i =? 5 then set_min n t else if i =? 6 then set_sec n t else t.
(** The text after the fields. *)
Definition gen_rest (a : bytes) (l o : Z) : tm_st unit :=
  o ← (if char_at a o =? 46
       then
         let o := o + 1 in
         _ ← st_assert (negb (l <? o));
         let i := o in
         let o := skip_digits a l (S (Z.to_nat (l - o))) o in
         _ ← st_assert (negb (i =? o));
         mret o
       else mret o);
  o ← (if char_at a o =? 90 then mret (o + 1)
       else if (char_at a o =? 43) || (char_at a o =? 45) then zone_offset a l gen_min gen_max 7 o
       else if negb (char_at a o =? 0) then st_fail else mret o);
  st_assert (o =? l).
Definition asn1_generalizedtime_to_tm (d : asn1_string) : tm_st unit :=
  if negb (stype d =? V_ASN1_GENERALIZEDTIME) then st_fail
  else
    let l := slength d in
    let a := default [] (sdata d) in
    if l <? 13 then st_fail
    else o ← fields_loop a l 6 gen_min gen_max gen_store 7 0 0; gen_rest a l o.

Definition utc_min : list Z := [0; 1; 1; 0; 0; 0; 0; 0].
Definition utc_max : list Z := [99; 12; 31; 23; 59; 59; 12; 59].
Definition utc_store (i n : Z) (t : tm) : tm :=
  if i =? 0 then set_year (if n <? 50 then n + 100 else n) t
  else if i =? 1 then set_mon (n - 1) t else if i =? 2 then set_mday n t
  else if i =? 3 then set_hour n t else if i =? 4 then set_min n t else if i =? 5 then set_sec n t else t.
Definition utc_rest (a : bytes) (l o : Z) : tm_st unit :=
  o ← (if char_at a o =? 90 then mret (o + 1)
       else if (char_at a o =? 43) || (char_at a o =? 45) then zone_offset a l utc_min utc_max 6 o
       else mret o);
  st_assert (o =? l).
Definition asn1_utctime_to_tm (d : asn1_string) : tm_st unit :=
  if negb (stype d =? V_ASN1_UTCTIME) then st_fail
  else
    let l := slength d in
    let a := default [] (sdata d) in
    if l <? 11 then st_fail
    else o ← fields_loop a l 5 utc_min utc_max utc_store 6 0 0; utc_rest a l o.

Definition succeeds {S A} (r : option A * S) : bool := match r.1 with Some _ => true | None => false end.
Definition ASN1_GENERALIZEDTIME_check (d : asn1_string) : bool := succeeds (asn1_generalizedtime_to_tm d None).
Definition ASN1_UTCTIME_check (d : asn1_string) : bool := succeeds (asn1_utctime_to_tm d None).
Definition ASN1_TIME_check (t : asn1_string) : bool :=
  if stype t =? V_ASN1_GENERALIZEDTIME then ASN1_GENERALIZEDTIME_check t
  else if stype t =? V_ASN1_UTCTIME then ASN1_UTCTIME_check t else false.
(** With a time that is not null. *)
Definition asn1_time_to_tm (t : asn1_string) : tm_st unit :=
  if stype t =? V_ASN1_UTCTIME then asn1_utctime_to_tm t
  else if stype t =? V_ASN1_GENERALIZEDTIME then asn1_generalizedtime_to_tm t else st_fail.
(** Local [tm] objects have any contents at first. *)
Definition ASN1_TIME_diff (junk_from junk_to : tm) (from to : asn1_string) : option (Z * Z) :=
  match asn1_time_to_tm from (Some junk_from) with
  | (Some _, Some tm_from) =>
      match asn1_time_to_tm to (Some junk_to) with
      | (Some _, Some tm_to) => OPENSSL_gmtime_diff tm_from tm_to
      | _ => None
      end
  | _ => None
  end.

(** ** Printing *)

(** [gmtime_r]: the calendar, which repeats every 400 years, or [None] when the year is not an [int]. *)
Definition EPOCH : Z := 2440588.
Definition OPENSSL_gmtime (time : Z) : option tm :=
  let days := time / 86400 in
  let '(y, m, d) := day_date (EPOCH + days mod 146097) in
  let y := y + 400 * (days / 146097) - 1900 in
  let s := time mod 86400 in
  if (- 2 ^ 31 <=? y) && (y <? 2 ^ 31)
  then Some {| tm_year := y; tm_mon := m - 1; tm_mday := d; tm_hour := s / 3600; tm_min := s / 60 mod 60; tm_sec := s mod 60 |}
  else None.
(** ["%0wd"] of a number that has at most [w] digits. *)
Fixpoint dec (w : nat) (n : Z) : bytes := match w with O => [] | S w => dec w (n / 10) ++ [48 + n mod 10] end.

Section Printing.
Context `{!Allocator}.

(** The common end of the two printers: a block of twenty bytes that holds the text. *)
Definition print_time (s : asn1_string) (type : Z) (text : bytes) : option asn1_string :=
  let len := 20 in
  let block :=
    if bool_decide (sdata s = None) || (slength s <? len)
    then if malloc_ok len then Some (fresh_bytes 0 20) else None
    else sdata s in
  match block with
  | None => None
  | Some p => Some {| slength := zlen text; stype := type; sdata := Some (write_at 0 (text ++ [0]) p); sflags := sflags s |}
  end.
(** [gmtime] and the offset, if there is one. *)
Definition adjusted (t off_day offset_sec : Z) : option tm :=
  match OPENSSL_gmtime t with
  | None => None
  | Some ts => if negb (off_day =? 0) || negb (offset_sec =? 0) then OPENSSL_gmtime_adj ts off_day offset_sec else Some ts
  end.
Definition gen_text (ts : tm) : bytes :=
  dec 4 (tm_year ts + 1900) ++ dec 2 (tm_mon ts + 1) ++ dec 2 (tm_mday ts) ++ dec 2 (tm_hour ts) ++ dec 2 (tm_min ts) ++ dec 2 (tm_sec ts) ++ [90].
Definition utc_text (ts : tm) : bytes :=
  dec 2 (Z.rem (tm_year ts) 100) ++ dec 2 (tm_mon ts + 1) ++ dec 2 (tm_mday ts) ++ dec 2 (tm_hour ts) ++ dec 2 (tm_min ts) ++ dec 2 (tm_sec ts) ++ [90].
(** [s] is [None] when the caller wants a new string. *)
Definition target_string (s : option asn1_string) (type : Z) : option asn1_string :=
  match s with
  | Some s => Some s
  | None => match ASN1_STRING_type_new type with Obj s => Some s | _ => None end
  end.
Definition ASN1_GENERALIZEDTIME_adj (s : option asn1_string) (t off_day offset_sec : Z) : option asn1_string :=
  match target_string s V_ASN1_GENERALIZEDTIME with
  | None => None
  | Some tmps =>
      match adjusted t off_day offset_sec with
      | None => None
      | Some ts =>
          if (tm_year ts <? 0 - 1900) || (9999 - 1900 <? tm_year ts) then None
          else print_time tmps V_ASN1_GENERALIZEDTIME (gen_text ts)
      end
  end.
Definition ASN1_UTCTIME_adj (s : option asn1_string) (t off_day offset_sec : Z) : option asn1_string :=
  match target_string s V_ASN1_UTCTIME with
  | None => None
  | Some s =>
      match adjusted t off_day offset_sec with
      | None => None
      | Some ts =>
          if (tm_year ts <? 50) || (150 <=? tm_year ts) then None
          else print_time s V_ASN1_UTCTIME (utc_text ts)
      end
  end.
Definition ASN1_TIME_adj (s : option asn1_string) (t off_day offset_sec : Z) : option asn1_string :=
  match adjusted t off_day offset_sec with
  | None => None
  | Some ts =>
      if (50 <=? tm_year ts) && (tm_year ts <? 150) then ASN1_UTCTIME_adj s t off_day offset_sec
      else ASN1_GENERALIZEDTIME_adj s t off_day offset_sec
  end.
Definition ASN1_GENERALIZEDTIME_set (s : option asn1_string) (t : Z) := ASN1_GENERALIZEDTIME_adj s t 0 0.
Definition ASN1_UTCTIME_set (s : option asn1_string) (t : Z) := ASN1_UTCTIME_adj s t 0 0.
Definition ASN1_TIME_set (s : option asn1_string) (t : Z) := ASN1_TIME_adj s t 0 0.
End Printing.


(** ** The printed fields are the parsed ones *)

Lemma char_at_app p c x : char_at (p ++ c :: x) (zlen p) = c.
Proof. unfold char_at, zlen. rewrite Nat2Z.id, app_nth2, Nat.sub_diag by lia. done. Qed.
Lemma dec2 n : dec 2 n = [48 + n / 10 mod 10; 48 + n mod 10].
Proof. done. Qed.
Lemma dec4 n : dec 4 n = dec 2 (n / 100) ++ dec 2 (n mod 100).
Proof. rewrite !dec2. cbn [dec app].
  assert (n / 10 / 10 / 10 mod 10 = n / 100 / 10 mod 10 ∧ n / 10 mod 10 = n mod 100 / 10 mod 10 ∧ n mod 10 = n mod 100 mod 10 ∧ n / 10 / 10 mod 10 = n / 100 mod 10) as (-> & -> & -> & ->) by lia.
  done. Qed.
Lemma is_digit_dec n : is_digit (48 + n mod 10) = true.
Proof. unfold is_digit. destruct (Z.ltb_spec (48 + n mod 10) 48), (Z.ltb_spec 57 (48 + n mod 10)); (done || lia). Qed.
Lemma is_zone_dec n : is_zone (48 + n mod 10) = false.
Proof. unfold is_zone. destruct (Z.eqb_spec (48 + n mod 10) 90), (Z.eqb_spec (48 + n mod 10) 43), (Z.eqb_spec (48 + n mod 10) 45); (done || lia). Qed.
Lemma two_digits_dec p n x l (s : option tm) : 0 ≤ n < 100 → zlen p + 2 ≤ l →
  two_digits (p ++ dec 2 n ++ x) l (zlen p) s = (Some (n, zlen p + 2), s).
Proof.
  intros Hn Hl. unfold two_digits. rewrite dec2. cbn [app]. rewrite char_at_app.
  replace (p ++ 48 + n / 10 mod 10 :: 48 + n mod 10 :: x) with ((p ++ [48 + n / 10 mod 10]) ++ 48 + n mod 10 :: x) by by rewrite <- app_assoc.
  assert (zlen p + 1 = zlen (p ++ [48 + n / 10 mod 10])) as E by (rewrite zlen_app; done).
  unfold mbind, st_bind, st_assert, mret, st_ret. rewrite is_digit_dec, E, char_at_app, is_digit_dec, <- E.
  rewrite !(proj2 (Z.ltb_ge _ _)) by lia. cbn [negb]. assert ((48 + n / 10 mod 10 - 48) * 10 + (48 + n mod 10) - 48 = n) as -> by lia. by rewrite <- Z.add_assoc.
Qed.

Definition digits (ns : list Z) : bytes := flat_map (dec 2) ns.
Fixpoint store_all (store : Z → Z → tm → tm) (i : Z) (ns : list Z) (t : tm) : tm :=
  match ns with [] => t | n :: ns => store_all store (i + 1) ns (store i n t) end.
(** Each number fits its entry of the tables. *)
Fixpoint in_tables (min max : list Z) (i : Z) (ns : list Z) : Prop :=
  match ns with [] => True | n :: ns => (0 ≤ n < 100 ∧ in_table min max i n = true) ∧ in_tables min max (i + 1) ns end.
Lemma zlen_date_digits ns : zlen (digits ns) = 2 * zlen ns.
Proof. induction ns as [|n ns IH]; [done|]. unfold digits in *. cbn [flat_map]. rewrite zlen_app, IH, zlen_cons, dec2, !zlen_cons, (@zlen_nil Z). lia. Qed.
Lemma fields_loop_digits seconds_at min max store ns p x i l t : in_tables min max i ns → zlen p + 2 * zlen ns ≤ l →
  fields_loop (p ++ digits ns ++ x) l seconds_at min max store (length ns) i (zlen p) t = (Some (zlen p + 2 * zlen ns), store_all store i ns <$> t).
Proof.
  revert p i t. induction ns as [|n ns IH]; intros p i t Hns Hl.
  - cbn. unfold mret, st_ret. rewrite option_fmap_id. do 2 f_equal. rewrite (@zlen_nil Z). lia.
  - destruct Hns as [[Hn Ht] Hns]. cbn [length fields_loop]. unfold digits in *. cbn [flat_map].
    rewrite <- (app_assoc (dec 2 n)). assert (is_zone (char_at (p ++ dec 2 n ++ flat_map (dec 2) ns ++ x) (zlen p)) = false) as ->.
    { rewrite dec2. cbn [app]. rewrite char_at_app. apply is_zone_dec. }
    rewrite andb_false_r. rewrite zlen_cons in Hl. unfold mbind at 1, st_bind.
    rewrite two_digits_dec by (pose proof (zlen_nonneg ns); lia). unfold mbind, st_bind, st_assert, on_tm, st_modify. rewrite Ht.
    assert (zlen p + 2 = zlen (p ++ dec 2 n)) as E by (rewrite zlen_app; done). rewrite (app_assoc p), E.
    rewrite IH by (done || (rewrite <- E; lia)). f_equal.
    + f_equal. rewrite <- E, zlen_cons. lia.
    + destruct t; done.
Qed.


(** ** The calendar of [gmtime] *)

Lemma valid_date_period y m d k : valid_date y m d → valid_date (y + 400 * k) m d.
Proof.
  intros [Hm Hd]. split; [done|]. unfold month_length in *. replace (leap (y + 400 * k)) with (leap y); [done|].
  apply eq_true_iff_eq. rewrite !leap_mod. lia.
Qed.
Lemma day_number_period y m d k : 1 ≤ m ≤ 12 → -4799 ≤ y → -4799 ≤ y + 400 * k →
  day_number (y + 400 * k) m d = day_number y m d + 146097 * k.
Proof. intros Hm Hy Hk. rewrite !day_number_march by done. unfold march. destruct (m <=? 2); lia. Qed.
(** From before the year -2400 to after 70000. *)
Definition time_range (t : Z) : Prop := - 2 ^ 37 ≤ t ≤ 2 ^ 41.
Lemma gmtime_ok t : time_range t → ∃ ts, OPENSSL_gmtime t = Some ts ∧ tm_ok ts ∧ seconds ts = EPOCH * 86400 + t.
Proof.
  intros Ht. unfold time_range in Ht. change (2 ^ 37) with 137438953472 in Ht. change (2 ^ 41) with 2199023255552 in Ht.
  unfold OPENSSL_gmtime. set (k := t / 86400 / 146097). set (r := t / 86400 mod 146097).
  assert (0 ≤ r < 146097 ∧ t / 86400 = 146097 * k + r ∧ - 12 < k < 176) as (Hr & Ek & Hk) by (unfold r, k; lia).
  pose proof (day_date_valid (EPOCH + r) ltac:(unfold EPOCH; lia)) as Hv. destruct (day_date (EPOCH + r)) as [[y m] d]. destruct Hv as (Hy & Hv & Hj).
  pose proof (julian_year_bound y m d ltac:(lia) Hv) as Hb. unfold EPOCH in Hj.
  assert (1900 ≤ y < 2371) as Hy1.
  { split; apply Z.nle_gt || apply Z.nlt_ge; intros Hge.
    - pose proof (julian_years (y + 1) 1900 ltac:(lia)) as H. change (day_number 1900 1 1) with 2415021 in H. lia.
    - pose proof (julian_years 2371 y ltac:(lia)) as H. change (day_number 2371 1 1) with 2587050 in H. lia. }
  change (2 ^ 31) with 2147483648. rewrite (proj2 (Z.leb_le _ _)), (proj2 (Z.ltb_lt _ _)) by lia. cbn [andb]. eexists. split; [done|].
  set (s := t mod 86400). assert (0 ≤ s < 86400 ∧ t = (146097 * k + r) * 86400 + s) as [Hs Et] by (unfold s; lia).
  pose proof (valid_date_period y m d k Hv) as Hvk. pose proof (day_number_period y m d k (proj1 Hv) ltac:(lia) ltac:(lia)) as Ep.
  split; [split|unfold seconds]; cbn [tm_year tm_mon tm_mday tm_hour tm_min tm_sec]; replace (y + 400 * k - 1900 + 1900) with (y + 400 * k) by lia;
    replace (m - 1 + 1) with m by lia; try done; clearbody s k r; unfold EPOCH; lia.
Qed.


(** ** Reading what was printed *)

Lemma in_table_intro min max i n : nth (Z.to_nat i) min 0 ≤ n ≤ nth (Z.to_nat i) max 0 → in_table min max i n = true.
Proof. intros H. unfold in_table. by rewrite !(proj2 (Z.ltb_ge _ _)) by lia. Qed.
Ltac table_fits := apply in_table_intro; match goal with |- ?a ≤ ?n ≤ ?b =>
  let a' := eval vm_compute in a in let b' := eval vm_compute in b in change (a' ≤ n ≤ b') end; lia.
Lemma gen_text_digits ts x : gen_text ts ++ x =
  digits [(tm_year ts + 1900) / 100; (tm_year ts + 1900) mod 100; tm_mon ts + 1; tm_mday ts; tm_hour ts; tm_min ts; tm_sec ts] ++ 90 :: x.
Proof. unfold gen_text, digits. rewrite dec4. cbn [flat_map]. by rewrite <- !app_assoc. Qed.
Lemma utc_text_digits ts x : utc_text ts ++ x =
  digits [Z.rem (tm_year ts) 100; tm_mon ts + 1; tm_mday ts; tm_hour ts; tm_min ts; tm_sec ts] ++ 90 :: x.
Proof. unfold utc_text, digits. cbn [flat_map]. by rewrite <- !app_assoc. Qed.
Lemma tm_ext t t' : tm_year t = tm_year t' → tm_mon t = tm_mon t' → tm_mday t = tm_mday t' → tm_hour t = tm_hour t' → tm_min t = tm_min t' → tm_sec t = tm_sec t' → t = t'.
Proof. destruct t, t'. cbn. congruence. Qed.
(** The text in a block, with its terminator. *)
Definition text_string (type : Z) (text rest : bytes) (flags : Z) : asn1_string :=
  {| slength := zlen text; stype := type; sdata := Some (text ++ 0 :: rest); sflags := flags |}.
Lemma gen_rest_utc p x l t : l = zlen p + 1 → gen_rest (p ++ 90 :: x) l (zlen p) t = (Some tt, t).
Proof. intros ->. unfold gen_rest. rewrite char_at_app. change (90 =? 46) with false. unfold mbind, st_bind, mret, st_ret, st_assert. cbv beta iota zeta. rewrite char_at_app. change (90 =? 90) with true. cbv beta iota. by rewrite Z.eqb_refl. Qed.
Lemma utc_rest_utc p x l t : l = zlen p + 1 → utc_rest (p ++ 90 :: x) l (zlen p) t = (Some tt, t).
Proof. intros ->. unfold utc_rest. rewrite char_at_app. change (90 =? 90) with true. unfold mbind, st_bind, mret, st_ret, st_assert. cbv beta iota zeta. by rewrite Z.eqb_refl. Qed.
Lemma gen_store_all c y m d h mi sec t : store_all gen_store 0 [c; y; m; d; h; mi; sec] t =
  {| tm_sec := sec; tm_min := mi; tm_hour := h; tm_mday := d; tm_mon := m - 1; tm_year := c * 100 - 1900 + y |}.
Proof. reflexivity. Qed.
Lemma utc_store_all y m d h mi sec t : store_all utc_store 0 [y; m; d; h; mi; sec] t =
  {| tm_sec := sec; tm_min := mi; tm_hour := h; tm_mday := d; tm_mon := m - 1; tm_year := if y <? 50 then y + 100 else y |}.
Proof. reflexivity. Qed.
Lemma gen_parse ts rest flags t : tm_ok ts → 0 ≤ tm_year ts + 1900 ≤ 9999 →
  asn1_generalizedtime_to_tm (text_string V_ASN1_GENERALIZEDTIME (gen_text ts) rest flags) t = (Some tt, (λ _, ts) <$> t).
Proof.
  intros [[Hm Hd] _ Hh Hmi Hs] Hy. pose proof (month_length_bound (tm_year ts + 1900) (tm_mon ts + 1)).
  unfold asn1_generalizedtime_to_tm, text_string. cbn [stype slength sdata default from_option id]. rewrite gen_text_digits.
  assert (zlen (gen_text ts) = 15) as -> by done. cbn [negb]. change (negb _) with false. change (15 <? 13) with false. cbv iota.
  unfold mbind, st_bind.
  set (ns := [(tm_year ts + 1900) / 100; _; _; _; _; _; _]).
  pose proof (fields_loop_digits 6 gen_min gen_max gen_store ns [] (90 :: 0 :: rest) 0 15 t) as E. change (length ns) with 7%nat in E. change (zlen ns) with 7 in E.
  cbn [app] in E. change (zlen []) with 0 in E.
  rewrite E; [|unfold ns; cbn [in_tables]; split_and!; try done; (lia || table_fits)|lia].
  change (0 + 2 * 7) with (zlen (digits ns)). rewrite gen_rest_utc by done. f_equal. destruct t as [t|]; [|done]. cbn [fmap option_fmap option_map].
  unfold ns. rewrite gen_store_all. f_equal. apply tm_ext; cbn [tm_year tm_mon tm_mday tm_hour tm_min tm_sec]; lia.
Qed.
Lemma utc_parse ts rest flags t : tm_ok ts → 50 ≤ tm_year ts < 150 →
  asn1_utctime_to_tm (text_string V_ASN1_UTCTIME (utc_text ts) rest flags) t = (Some tt, (λ _, ts) <$> t).
Proof.
  intros [[Hm Hd] _ Hh Hmi Hs] Hy. pose proof (month_length_bound (tm_year ts + 1900) (tm_mon ts + 1)).
  unfold asn1_utctime_to_tm, text_string. cbn [stype slength sdata default from_option id]. rewrite utc_text_digits.
  assert (zlen (utc_text ts) = 13) as -> by done. cbn [negb]. change (negb _) with false. change (13 <? 11) with false. cbv iota.
  unfold mbind, st_bind. set (ns := [Z.rem (tm_year ts) 100; _; _; _; _; _]).
  pose proof (fields_loop_digits 5 utc_min utc_max utc_store ns [] (90 :: 0 :: rest) 0 13 t) as E. change (length ns) with 6%nat in E. change (zlen ns) with 6 in E.
  cbn [app] in E. change (zlen []) with 0 in E.
  rewrite E; [|unfold ns; cbn [in_tables]; split_and!; try done; (lia || table_fits)|lia].
  change (0 + 2 * 6) with (zlen (digits ns)). rewrite utc_rest_utc by done. f_equal. destruct t as [t|]; [|done]. cbn [fmap option_fmap option_map].
  unfold ns. rewrite utc_store_all. f_equal. apply tm_ext; cbn [tm_year tm_mon tm_mday tm_hour tm_min tm_sec]; try lia.
  destruct (Z.ltb_spec (Z.rem (tm_year ts) 100) 50); lia.
Qed.


(** ** Printing *)

(** The block of a string is at least as long as the string. *)
Definition string_ok (s : option asn1_string) : Prop :=
  match s with Some s => match sdata s with Some b => 0 ≤ slength s ≤ zlen b | None => True end | None => True end.
(** Every reading of the string gives this moment. *)
Definition denotes (s : asn1_string) (moment : Z) : Prop :=
  ASN1_TIME_check s = true ∧ ∃ ts, tm_ok ts ∧ seconds ts = moment ∧ ∀ junk, asn1_time_to_tm s (Some junk) = (Some tt, Some ts).

Section Printing.
Context `{!Allocator}.

Lemma stype_text type text rest flags : stype (text_string type text rest flags) = type.
Proof. done. Qed.
Lemma write_text text b : (length text < length b)%nat → write_at 0 (text ++ [0]) b = text ++ 0 :: drop (length text + 1) b.
Proof. intros Hl. unfold write_at. rewrite length_app. cbn. by rewrite <- app_assoc. Qed.
Lemma print_time_ok s type text : string_ok (Some s) → zlen text < 20 →
  match print_time s type text with
  | Some s' => ∃ rest, s' = text_string type text rest (sflags s)
  | None => ¬ ∀ n, malloc_ok n = true
  end.
Proof.
  intros Hs Hl. unfold print_time. destruct (bool_decide (sdata s = None) || (slength s <? 20)) eqn:Hc.
  - destruct (malloc_ok 20) eqn:Hm; [|intros Hall; specialize (Hall 20); congruence]. eexists. unfold text_string.
    rewrite write_text; [done|]. unfold fresh_bytes. rewrite length_fmap, length_seq. unfold zlen in Hl. lia.
  - apply orb_false_iff in Hc as [Hd%bool_decide_eq_false Hlen%Z.ltb_ge]. unfold string_ok in Hs. destruct (sdata s) as [b|]; [|done].
    eexists. unfold text_string. rewrite write_text; [done|]. unfold zlen in *. lia.
Qed.
Lemma target_string_ok s type : string_ok s → match target_string s type with
  | Some s' => string_ok (Some s') | None => ¬ ∀ n, malloc_ok n = true end.
Proof.
  intros Hs. unfold target_string, ASN1_STRING_type_new. destruct s as [s|]; [done|].
  destruct (malloc_ok sizeof_ASN1_STRING) eqn:Hm; [done|]. intros Hall. specialize (Hall sizeof_ASN1_STRING). congruence.
Qed.

Definition moment_of (t off_day offset_sec : Z) : Z := EPOCH * 86400 + t + off_day * 86400 + offset_sec.
Lemma adjusted_ok t off_day offset_sec : time_range t → small_offset off_day offset_sec →
  match adjusted t off_day offset_sec with
  | Some ts => tm_ok ts ∧ seconds ts = moment_of t off_day offset_sec
  | None => ¬ years_1900_9999 (moment_of t off_day offset_sec)
  end.
Proof.
  intros Ht Ho. unfold adjusted, moment_of. destruct (gmtime_ok t Ht) as (ts & -> & Hts & Hs).
  destruct (negb _ || _) eqn:Hz.
  - pose proof (gmtime_adj_ok ts off_day offset_sec Hts Ho) as Ha. unfold adjusted_to in Ha. rewrite Hs in Ha. destruct (OPENSSL_gmtime_adj _ _ _); [|done]. by destruct Ha as (? & ? & ?).
  - apply orb_false_iff in Hz as [H1%negb_false_iff%Z.eqb_eq H2%negb_false_iff%Z.eqb_eq]. subst. split; [done|]. lia.
Qed.
(** A moment of these years has such a year. *)
Lemma tm_year_range ts : tm_ok ts → years_1900_9999 (seconds ts) → 0 ≤ tm_year ts ≤ 8099.
Proof.
  intros [Hd Hy Hh Hmi Hs]. unfold years_1900_9999, seconds. change (day_number 1900 1 1) with 2415021. change (day_number 10000 1 1) with 5373485.
  intros Hm. pose proof (julian_year_bound (tm_year ts + 1900) _ _ ltac:(lia) Hd) as Hb. split; apply Z.nlt_ge; intros Hlt.
  - pose proof (julian_years (tm_year ts + 1900 + 1) 1900 ltac:(lia)) as Hyr. change (day_number 1900 1 1) with 2415021 in Hyr. lia.
  - pose proof (julian_years 10000 (tm_year ts + 1900) ltac:(lia)) as Hyr. change (day_number 10000 1 1) with 5373485 in Hyr. lia.
Qed.
(** What the three printers promise. *)
Definition prints (s' : option asn1_string) (t off_day offset_sec : Z) : Prop :=
  match s' with
  | Some s' => denotes s' (moment_of t off_day offset_sec) ∧ zlen (default [] (sdata s')) > slength s'
  | None => (¬ ∀ n, malloc_ok n = true) ∨ ¬ years_1900_9999 (moment_of t off_day offset_sec)
  end.
Lemma gen_adj_ok s t off_day offset_sec : string_ok s → time_range t → small_offset off_day offset_sec →
  prints (ASN1_GENERALIZEDTIME_adj s t off_day offset_sec) t off_day offset_sec.
Proof.
  intros Hs Ht Ho. unfold ASN1_GENERALIZEDTIME_adj, prints. pose proof (target_string_ok s V_ASN1_GENERALIZEDTIME Hs) as Htarget.
  destruct (target_string s _) as [s1|]; [|by left]. pose proof (adjusted_ok t off_day offset_sec Ht Ho) as Ha.
  destruct (adjusted t off_day offset_sec) as [ts|]; [|by right]. destruct Ha as [Hts Hm].
  destruct (Z.ltb_spec (tm_year ts) (0 - 1900)), (Z.ltb_spec (9999 - 1900) (tm_year ts)); cbn [orb]; try (right; rewrite <- Hm; intros Hyr%tm_year_range; [lia|done]).
  pose proof (print_time_ok s1 V_ASN1_GENERALIZEDTIME (gen_text ts) Htarget ltac:(done)) as Hp.
  destruct (print_time _ _ _) as [s'|]; [|by left]. destruct Hp as [rest ->]. split.
  - pose proof (λ t, gen_parse ts rest (sflags s1) t Hts ltac:(lia)) as Hg. split.
    + unfold ASN1_TIME_check, ASN1_GENERALIZEDTIME_check. rewrite stype_text, Z.eqb_refl. by rewrite Hg.
    + exists ts. split_and!; [done..|]. intros junk. unfold asn1_time_to_tm. rewrite stype_text, ?Z.eqb_refl. by rewrite Hg.
  - unfold text_string. cbn [sdata slength default from_option id]. rewrite zlen_app, zlen_cons. pose proof (zlen_nonneg rest). lia.
Qed.
Lemma utc_adj_ok s t off_day offset_sec ts : string_ok s → time_range t → small_offset off_day offset_sec →
  adjusted t off_day offset_sec = Some ts → 50 ≤ tm_year ts < 150 → prints (ASN1_UTCTIME_adj s t off_day offset_sec) t off_day offset_sec.
Proof.
  intros Hs Ht Ho Ha Hy. unfold ASN1_UTCTIME_adj, prints. pose proof (target_string_ok s V_ASN1_UTCTIME Hs) as Htarget.
  destruct (target_string s _) as [s1|]; [|by left]. pose proof (adjusted_ok t off_day offset_sec Ht Ho) as Had. rewrite Ha in Had |- *. destruct Had as [Hts Hm].
  rewrite (proj2 (Z.ltb_ge _ _)), (proj2 (Z.leb_gt _ _)) by lia. cbn [orb].
  pose proof (print_time_ok s1 V_ASN1_UTCTIME (utc_text ts) Htarget ltac:(done)) as Hp.
  destruct (print_time _ _ _) as [s'|]; [|by left]. destruct Hp as [rest ->]. split.
  - pose proof (λ t, utc_parse ts rest (sflags s1) t Hts Hy) as Hg. split.
    + unfold ASN1_TIME_check, ASN1_UTCTIME_check. rewrite stype_text, Z.eqb_refl. by rewrite Hg.
    + exists ts. split_and!; [done..|]. intros junk. unfold asn1_time_to_tm. rewrite stype_text, ?Z.eqb_refl. by rewrite Hg.
  - unfold text_string. cbn [sdata slength default from_option id]. rewrite zlen_app, zlen_cons. pose proof (zlen_nonneg rest). lia.
Qed.
Lemma time_adj_ok s t off_day offset_sec : string_ok s → time_range t → small_offset off_day offset_sec →
  prints (ASN1_TIME_adj s t off_day offset_sec) t off_day offset_sec.
Proof.
  intros Hs Ht Ho. unfold ASN1_TIME_adj. destruct (adjusted t off_day offset_sec) as [ts|] eqn:Ha.
  - destruct (Z.leb_spec 50 (tm_year ts)), (Z.ltb_spec (tm_year ts) 150); cbn [andb]; try by apply gen_adj_ok. by eapply utc_adj_ok.
  - right. pose proof (adjusted_ok t off_day offset_sec Ht Ho) as Had. by rewrite Ha in Had.
Qed.
End Printing.

Lemma diff_ok junk1 junk2 from to a b : denotes from a → denotes to b →
  ∃ days secs, ASN1_TIME_diff junk1 junk2 from to = Some (days, secs) ∧ days * 86400 + secs = b - a ∧
    ((0 ≤ days ∧ 0 ≤ secs < 86400) ∨ (days ≤ 0 ∧ -86400 < secs ≤ 0)).
Proof.
  intros (_ & tf & Hf & <- & Ef) (_ & tt' & Ht & <- & Et). unfold ASN1_TIME_diff. rewrite Ef, Et. by apply gmtime_diff_ok.
Qed.


(** ** The theorems *)

(** C26. [ASN1_TIME_adj] prints the moment it is asked for, whatever string it reuses: the text is accepted
    by [ASN1_TIME_check], reading it gives a valid calendar time with exactly that moment, and the terminator
    is inside the block; it gives up only when there is no memory or outside the years 1900 to 9999.  The
    difference of two such texts is exact: [to] minus [from], with days and seconds of one sign, so that both
    are positive when [from] is before [to] (the comment in [asn1.h] has these signs the other way round:
    see [time_diff_sign] below).  The base times reach beyond the years -2000 and 70000, the offsets are less than 2^30 days and 2^31 seconds. *)
Theorem ASN1_TIME_adj_roundtrip `{!Allocator} s1 t1 day1 sec1 s2 t2 day2 sec2 junk1 junk2 :
  string_ok s1 → string_ok s2 → time_range t1 → time_range t2 → small_offset day1 sec1 → small_offset day2 sec2 →
  prints (ASN1_TIME_adj s1 t1 day1 sec1) t1 day1 sec1 ∧
  ∀ a b, ASN1_TIME_adj s1 t1 day1 sec1 = Some a → ASN1_TIME_adj s2 t2 day2 sec2 = Some b →
    ∃ days secs, ASN1_TIME_diff junk1 junk2 a b = Some (days, secs) ∧
      days * 86400 + secs = moment_of t2 day2 sec2 - moment_of t1 day1 sec1 ∧
      ((0 ≤ days ∧ 0 ≤ secs < 86400) ∨ (days ≤ 0 ∧ -86400 < secs ≤ 0)).
Proof.
  intros Hs1 Hs2 Ht1 Ht2 Ho1 Ho2. pose proof (time_adj_ok s1 t1 day1 sec1 Hs1 Ht1 Ho1) as H1. split; [done|].
  intros a b Ea Eb. pose proof (time_adj_ok s2 t2 day2 sec2 Hs2 Ht2 Ho2) as H2. rewrite Ea in H1. rewrite Eb in H2.
  apply diff_ok; [apply H1|apply H2].
Qed.
#[local] Instance roomy : Allocator := {| malloc_ok _ := true; junk _ := 7 |}.
(** The first and the last second of UTCTime, and a minute later. *)
Lemma ASN1_TIME_adj_roundtrip_witness :
  sdata <$> ASN1_TIME_adj None (-631152000) 0 0 = Some (Some ([53; 48; 48; 49; 48; 49; 48; 48; 48; 48; 48; 48; 90; 0] ++ repeat 7 6)) ∧
  sdata <$> ASN1_TIME_adj None 2524607999 0 60 = Some (Some ([50; 48; 53; 48; 48; 49; 48; 49; 48; 48; 48; 48; 53; 57; 90; 0] ++ repeat 7 4)) ∧
  prints (ASN1_TIME_adj None (-631152000) 0 0) (-631152000) 0 0.
Proof.
  split; [reflexivity|]. split; [reflexivity|].
  pose (t0 := {| tm_sec := 0; tm_min := 0; tm_hour := 0; tm_mday := 0; tm_mon := 0; tm_year := 0 |}).
  apply (ASN1_TIME_adj_roundtrip None (-631152000) 0 0 None 2524607999 0 60 t0 t0);
    vm_compute; repeat split; discriminate.
Defined.

(** A time without a zone is accepted, although the code has a branch for a missing zone. *)
Example generalizedtime_without_zone : ASN1_GENERALIZEDTIME_check (text_string V_ASN1_GENERALIZEDTIME [50; 48; 50; 48; 48; 49; 48; 49; 48; 48; 48; 48; 48; 48] [] 0) = true.
Proof. reflexivity. Qed.
(** [asn1.h] says that both outputs of [ASN1_TIME_diff] are at most 0 when [from] is before [to]. *)
Example time_diff_sign (junk : tm) :
  let before := text_string V_ASN1_UTCTIME [55; 48; 48; 49; 48; 49; 48; 48; 48; 48; 48; 48; 90] [] 0 in
  let after := text_string V_ASN1_UTCTIME [55; 48; 48; 49; 48; 50; 48; 48; 48; 48; 48; 49; 90] [] 0 in
  ASN1_TIME_diff junk junk before after = Some (1, 1).
Proof. reflexivity. Qed.
