(* ===== verification/AsnTimeConv.v ===== *)
(** * Conversions of ASN.1 times ([crypto/asn1/a_time.c], [a_gentm.c], [a_utctm.c])

    Times from C strings, UTCTime to GeneralizedTime, and comparison with a [time_t], with the two string
    functions of [crypto/mem.c] that the conversion uses. *)
From S2P Require Export AsnTime AsnString.

(** ** C strings *)

(** The loop of [OPENSSL_strlcpy]: what it copies, and what is left of the source. *)
Fixpoint strlcpy_loop (dst_size : Z) (src : bytes) : bytes * bytes :=
  match src with
  | [] => ([], [])
  | c :: src' => if (1 <? dst_size) && negb (c =? 0) then let '(d, r) := strlcpy_loop (dst_size - 1) src' in (c :: d, r) else ([], src)
  end.
(** At the offset [at_] of the block [dst]. *)
Definition OPENSSL_strlcpy (dst : bytes) (at_ : Z) (src : bytes) (dst_size : Z) : Z * bytes :=
  let '(copied, rest) := strlcpy_loop dst_size src in
  (zlen copied + strlen rest, write_at at_ (copied ++ (if dst_size - zlen copied =? 0 then [] else [0])) dst).
Fixpoint strlcat_loop (dst_size : Z) (dst : bytes) : Z :=
  match dst with c :: dst => if (0 <? dst_size) && negb (c =? 0) then 1 + strlcat_loop (dst_size - 1) dst else 0 | [] => 0 end.
Definition OPENSSL_strlcat (dst : bytes) (src : bytes) (dst_size : Z) : Z * bytes :=
  let l := strlcat_loop dst_size dst in
  let '(r, dst) := OPENSSL_strlcpy dst l src (dst_size - l) in
  (l + r, dst).

(** ** Times from C strings *)

(** The temporary string around [str]. *)
Definition string_view (type : Z) (str : bytes) : asn1_string := {| slength := strlen str; stype := type; sdata := Some str; sflags := 0 |}.
Definition retype (type : Z) (s : asn1_string) : asn1_string := {| slength := slength s; stype := type; sdata := sdata s; sflags := sflags s |}.

Section Conversions.
Context `{!Allocator}.

(** [s] is [None] for a null pointer, when the text is only checked. *)
Definition set_checked (check : asn1_string → bool) (type : Z) (s : option asn1_string) (str : bytes) : bool * option asn1_string :=
  let t := string_view type str in
  if check t then
    match s with
    | Some s =>
        match ASN1_STRING_set s (Some str) (slength t) with
        | (false, s) => (false, Some s)
        | (true, s) => (true, Some (retype type s))
        end
    | None => (true, None)
    end
  else (false, s).
Definition ASN1_GENERALIZEDTIME_set_string := set_checked ASN1_GENERALIZEDTIME_check V_ASN1_GENERALIZEDTIME.
Definition ASN1_UTCTIME_set_string := set_checked ASN1_UTCTIME_check V_ASN1_UTCTIME.
Definition ASN1_TIME_set_string (s : option asn1_string) (str : bytes) : bool * option asn1_string :=
  let t := string_view V_ASN1_UTCTIME str in
  let finish t :=
    match s with
    | Some s => let '(ok, s) := ASN1_STRING_copy s (Some t) in (ok, Some s)
    | None => (true, None)
    end in
  if ASN1_TIME_check t then finish t
  else
    let t := string_view V_ASN1_GENERALIZEDTIME str in
    if ASN1_TIME_check t then finish t else (false, s).

(** [out] is [None] for a null pointer, else [*out]. *)
Definition ASN1_TIME_to_generalizedtime (t : asn1_string) (out : option (option asn1_string)) : option asn1_string * option (option asn1_string) :=
  if negb (ASN1_TIME_check t) then (None, out)
  else
    match (match out with Some (Some g) => Some g | _ => match ASN1_STRING_type_new V_ASN1_GENERALIZEDTIME with Obj g => Some g | _ => None end end) with
    | None => (None, out)
    | Some ret =>
        let done ret := (Some ret, match out with Some _ => Some (Some ret) | None => None end) in
        if stype t =? V_ASN1_GENERALIZEDTIME
        then match ASN1_STRING_set ret (sdata t) (slength t) with (true, ret) => done ret | (false, _) => (None, out) end
        else
          match ASN1_STRING_set ret None (slength t + 2) with
          | (false, _) => (None, out)
          | (true, ret) =>
              let newlen := slength t + 2 + 1 in
              let str := data_of ret in
              let str := (OPENSSL_strlcpy str 0 (if 53 <=? byte_at (data_of t) 0 then [49; 57; 0] else [50; 48; 0]) newlen).2 in
              let str := (OPENSSL_strlcat str (data_of t) newlen).2 in
              done {| slength := slength ret; stype := stype ret; sdata := Some str; sflags := sflags ret |}
          end
    end.
End Conversions.

Definition ASN1_UTCTIME_cmp_time_t (junk : tm) (s : asn1_string) (t : Z) : Z :=
  match asn1_utctime_to_tm s (Some junk) with
  | (Some _, Some stm) =>
      match OPENSSL_gmtime t with
      | None => -2
      | Some ttm =>
          match OPENSSL_gmtime_diff ttm stm with
          | None => -2
          | Some (day, sec) => if 0 <? day then 1 else if day <? 0 then -1 else if 0 <? sec then 1 else if sec <? 0 then -1 else 0
          end
      end
  | _ => -2
  end.


(** ** The parsers do not look behind the terminator, and a prefix only shifts them *)

Definition shifted {A} (k : Z) (f : A → Z → A) (x : option A * option tm) : option A * option tm := ((λ a, f a k) <$> x.1, x.2).
Section Shift.
Context (a b : bytes) (l k : Z).
Hypothesis Hab : ∀ o, 0 ≤ o ≤ l → char_at b (o + k) = char_at a o.
Hypothesis Hend : char_at a l = 0.

Lemma two_digits_shift o s : 0 ≤ o ≤ l → two_digits b (l + k) (o + k) s = shifted k (λ '(n, o) k, (n, o + k)) (two_digits a l o s) ∧
  (∀ n o' s', two_digits a l o s = (Some (n, o'), s') → o' = o + 2 ∧ o' ≤ l ∧ s' = s ∧ is_digit (char_at a o) = true ∧ is_digit (char_at a (o + 1)) = true ∧ n = (char_at a o - 48) * 10 + char_at a (o + 1) - 48).
Proof.
  intros Ho. unfold two_digits, mbind, st_bind, st_assert, mret, st_ret, shifted. rewrite Hab by lia. replace (o + k + 1) with (o + 1 + k) by lia.
  destruct (is_digit (char_at a o)) eqn:E1; [|done]. destruct (Z.ltb_spec l (o + 1)), (Z.ltb_spec (l + k) (o + 1 + k)); try lia; [done|]. cbn [negb]. rewrite Hab by lia.
  destruct (is_digit (char_at a (o + 1))) eqn:E2; [|done]. replace (o + 1 + k + 1) with (o + 1 + 1 + k) by lia. destruct (Z.ltb_spec l (o + 1 + 1)), (Z.ltb_spec (l + k) (o + 1 + 1 + k)); try lia; [done|].
  split; [done|]. intros n o' s' [= <- <- <-]. split_and!; (done || lia).
Qed.
(** The tables and stores of the two loops agree with an offset of [d] between the numbers of the fields. *)
Lemma fields_shift d sec min max store min' max' store' steps i o s : 0 ≤ i → 0 ≤ o ≤ l →
  (∀ j n, i ≤ j → in_table min' max' (j + d) n = in_table min max j n) → (∀ j n, i ≤ j → store' (j + d) n = store j n) →
  fields_loop b (l + k) (sec + d) min' max' store' steps (i + d) (o + k) s = shifted k Z.add (fields_loop a l sec min max store steps i o s) ∧
  (∀ o' s', fields_loop a l sec min max store steps i o s = (Some o', s') → o ≤ o' ≤ l ∧ ∀ j, o ≤ j < o' → char_at a j ≠ 0).
Proof.
  intros Hi Ho Ht Hst. revert i o s Hi Ho Ht Hst. induction steps as [|steps IH]; intros i o s Hi Ho Ht Hst; cbn [fields_loop].
  { split; [done|]. intros o' s' [= <- <-]. split; [lia|]. intros j Hj. lia. }
  rewrite Hab by lia. assert ((i + d =? sec + d) = (i =? sec)) as -> by (destruct (Z.eqb_spec i sec), (Z.eqb_spec (i + d) (sec + d)); (done || lia)).
  destruct ((i =? sec) && is_zone (char_at a o)).
  { split; [done|]. unfold mbind, st_bind, on_tm, st_modify, mret, st_ret. intros o' s' [= <- <-]. split; [lia|]. intros j Hj. lia. }
  destruct (two_digits_shift o s Ho) as [E Hd]. unfold mbind, st_bind. rewrite E. destruct (two_digits a l o s) as [[[n o1]|] s1]; [|done].
  destruct (Hd n o1 s1 eq_refl) as (-> & Hl & -> & D1 & D2 & _). unfold shifted at 1. cbn [fst snd fmap option_fmap option_map]. rewrite Ht by lia.
  unfold st_assert, on_tm, st_modify. destruct (in_table min max i n); [|done]. rewrite Hst by lia.
  replace (i + d + 1) with (i + 1 + d) by lia. destruct (IH (i + 1) (o + 2) (option_map (store i n) s)) as [-> Hnz]; [lia|lia|intros; apply Ht; lia|intros; apply Hst; lia|].
  split; [done|]. intros o' s' H. destruct (Hnz o' s' H) as [Hr Hn0]. split; [lia|]. intros j Hj.
  assert (j = o ∨ j = o + 1 ∨ o + 2 ≤ j) as [-> | [-> | ?]] by lia; [intros H0; by rewrite H0 in D1|intros H0; by rewrite H0 in D2|apply Hn0; lia].
Qed.
Lemma zone_field_shift d min max min' max' i o s : 0 ≤ o → o + 1 ≤ l → (∀ n, in_table min' max' (i + d) n = in_table min max i n) →
  zone_field b min' max' (i + d) (o + k) s = shifted k (λ '(n, o) k, (n, o + k)) (zone_field a min max i o s) ∧
  (∀ n o' s', zone_field a min max i o s = (Some (n, o'), s') → o' = o + 2 ∧ s' = s ∧ char_at a o ≠ 0 ∧ char_at a (o + 1) ≠ 0).
Proof.
  intros Ho Hl Ht. unfold zone_field, mbind, st_bind, st_assert, mret, st_ret, shifted. rewrite Hab by lia. destruct (is_digit (char_at a o)) eqn:E1; [|done].
  replace (o + k + 1) with (o + 1 + k) by lia. rewrite Hab by lia. destruct (is_digit (char_at a (o + 1))) eqn:E2; [|done]. rewrite Ht. destruct (in_table _ _ _ _); [|done].
  replace (o + 1 + k + 1) with (o + 1 + 1 + k) by lia. split; [done|]. intros n o' s' [= <- <- <-]. split_and!; [lia|done|intros H; by rewrite H in E1|intros H; by rewrite H in E2].
Qed.
Lemma zone_offset_shift d min max min' max' first o s : 0 ≤ o ≤ l → (∀ j n, first ≤ j → in_table min' max' (j + d) n = in_table min max j n) →
  zone_offset b (l + k) min' max' (first + d) (o + k) s = shifted k Z.add (zone_offset a l min max first o s) ∧
  (∀ o' s', zone_offset a l min max first o s = (Some o', s') → o' = o + 5 ∧ o' ≤ l ∧ ∀ j, o + 1 ≤ j < o' → char_at a j ≠ 0).
Proof.
  intros Ho Ht. unfold zone_offset. rewrite Hab by lia. set (sign := if char_at a o =? 45 then 1 else -1). replace (o + k + 1) with (o + 1 + k) by lia.
  unfold mbind, st_bind, st_assert. destruct (Z.ltb_spec l (o + 1 + 4)), (Z.ltb_spec (l + k) (o + 1 + k + 4)); try lia; [done|]. cbn [negb].
  destruct (zone_field_shift d min max min' max' first (o + 1) s ltac:(lia) ltac:(lia) ltac:(intros; apply Ht; lia)) as [E1 Hz1].
  rewrite E1. destruct (zone_field a min max first (o + 1) s) as [[[h o1]|] s1]; [|done]. destruct (Hz1 h o1 s1 eq_refl) as (-> & -> & N1 & N2).
  unfold shifted at 1. cbn [fst snd fmap option_fmap option_map]. replace (first + d + 1) with (first + 1 + d) by lia.
  destruct (zone_field_shift d min max min' max' (first + 1) (o + 1 + 2) s ltac:(lia) ltac:(lia) ltac:(intros; apply Ht; lia)) as [E2 Hz2].
  rewrite E2. destruct (zone_field a min max (first + 1) (o + 1 + 2) s) as [[[m o2]|] s2]; [|done]. destruct (Hz2 m o2 s2 eq_refl) as (-> & -> & N3 & N4).
  unfold shifted at 1. cbn [fst snd fmap option_fmap option_map]. unfold st_get, st_put, st_fail, mret, st_ret.
  assert (∀ j, o + 1 ≤ j < o + 1 + 2 + 2 → char_at a j ≠ 0) as Hnz.
  { intros j Hj. assert (j = o + 1 ∨ j = o + 1 + 1 ∨ j = o + 1 + 2 ∨ j = o + 1 + 2 + 1) as [-> | [-> | [-> | ->]]] by lia; done. }
  destruct s as [t|]; [|split; [done|]; intros o' s' [= <- <-]; split; [lia|]; split; [lia|exact Hnz]].
  destruct (h * 3600 + m * 60 =? 0); [split; [done|]; intros o' s' [= <- <-]; split; [lia|]; split; [lia|exact Hnz]|].
  destruct (OPENSSL_gmtime_adj t 0 _); [|done]. split; [done|]; intros o' s' [= <- <-]; split; [lia|]; split; [lia|exact Hnz].
Qed.
Lemma skip_digits_shift fuel o : 0 ≤ o ≤ l → skip_digits b (l + k) fuel (o + k) = skip_digits a l fuel o + k ∧ o ≤ skip_digits a l fuel o ≤ l.
Proof.
  revert o. induction fuel as [|fuel IH]; intros o Ho; [split; [done|cbn; lia]|]. cbn [skip_digits]. rewrite Hab by lia. rewrite !(proj2 (Z.leb_le _ _)) by lia. rewrite !andb_true_r.
  destruct (is_digit (char_at a o)) eqn:E; [|lia]. assert (o ≠ l) by (intros ->; by rewrite Hend in E). replace (o + k + 1) with (o + 1 + k) by lia.
  destruct (IH (o + 1)) as [-> ?]; lia.
Qed.
End Shift.

Lemma gen_rest_shift a b l k o s : 0 ≤ k → (∀ o, 0 ≤ o ≤ l → char_at b (o + k) = char_at a o) → char_at a l = 0 → 0 ≤ o ≤ l →
  gen_rest b (l + k) (o + k) s = gen_rest a l o s.
Proof.
  intros Hk Hab Hend Ho. unfold gen_rest. rewrite !Hab by lia.
  set (fracb := if char_at a o =? 46 then (_ : tm_st Z) else mret (o + k)). set (fraca := if char_at a o =? 46 then (_ : tm_st Z) else mret o).
  assert (fracb s = shifted k Z.add (fraca s) ∧ ∀ o' s', fraca s = (Some o', s') → 0 ≤ o' ≤ l ∧ s' = s) as [Ef Hf].
  { subst fracb fraca. destruct (char_at a o =? 46); [|split; [done|]; by intros o' s' [= <- <-]].
    unfold mbind, st_bind, st_assert, mret, st_ret. replace (o + k + 1) with (o + 1 + k) by lia. destruct (Z.ltb_spec l (o + 1)), (Z.ltb_spec (l + k) (o + 1 + k)); try lia; [done|]. cbn [negb].
    replace (l + k - (o + 1 + k)) with (l - (o + 1)) by lia. destruct (skip_digits_shift a b l k Hab Hend (S (Z.to_nat (l - (o + 1)))) (o + 1) ltac:(lia)) as [-> Hr].
    set (e := skip_digits a l _ _) in *. assert ((o + 1 + k =? e + k) = (o + 1 =? e)) as -> by (destruct (Z.eqb_spec (o + 1) e), (Z.eqb_spec (o + 1 + k) (e + k)); (done || lia)).
    destruct (o + 1 =? e); [done|]. split; [done|]. intros o' s' [= <- <-]. split; [lia|done]. }
  unfold mbind, st_bind. rewrite Ef. destruct (fraca s) as [[o1|] s1]; [|done]. destruct (Hf o1 s1 eq_refl) as [Ho1 ->]. unfold shifted. cbn [fst snd fmap option_fmap option_map].
  rewrite !Hab by lia. assert (∀ x, (x + k =? l + k) = (x =? l)) as Heq by (intros x; destruct (Z.eqb_spec x l), (Z.eqb_spec (x + k) (l + k)); (done || lia)).
  destruct (char_at a o1 =? 90); [unfold mret, st_ret, st_assert; replace (o1 + k + 1) with (o1 + 1 + k) by lia; by rewrite Heq|].
  destruct (_ || _).
  - pose proof (proj1 (zone_offset_shift a b l k Hab 0 gen_min gen_max gen_min gen_max 7 o1 s Ho1 ltac:(intros; by rewrite Z.add_0_r))) as E. change (7 + 0) with 7 in E. rewrite E.
    destruct (zone_offset a l gen_min gen_max 7 o1 s) as [[o2|] s2]; [|done]. unfold shifted. cbn [fst snd fmap option_fmap option_map]. unfold st_assert. by rewrite Heq.
  - destruct (negb (char_at a o1 =? 0)); [done|]. unfold mret, st_ret, st_assert. by rewrite Heq.
Qed.
(** The same text in another block. *)
Lemma gen_copy a b l fa fb s : (∀ o, 0 ≤ o ≤ l → char_at b o = char_at a o) → char_at a l = 0 →
  asn1_generalizedtime_to_tm {| slength := l; stype := V_ASN1_GENERALIZEDTIME; sdata := Some b; sflags := fb |} s =
  asn1_generalizedtime_to_tm {| slength := l; stype := V_ASN1_GENERALIZEDTIME; sdata := Some a; sflags := fa |} s.
Proof.
  intros Hab Hend. unfold asn1_generalizedtime_to_tm. cbn [slength stype sdata default from_option id]. destruct (negb _); [done|]. destruct (Z.ltb_spec l 13) as [|Hl]; [done|].
  assert (∀ o, 0 ≤ o ≤ l → char_at b (o + 0) = char_at a o) as Hab0 by (intros o Ho; rewrite Z.add_0_r; auto).
  destruct (fields_shift a b l 0 Hab0 0 6 gen_min gen_max gen_store gen_min gen_max gen_store 7 0 0 s) as [E Hr]; [done|lia|intros; by rewrite Z.add_0_r..|].
  rewrite !Z.add_0_r in E. change (6 + 0) with 6 in E. unfold mbind, st_bind. rewrite E. destruct (fields_loop a l _ _ _ _ _ _ _ s) as [[o1|] s1]; [|done].
  destruct (Hr o1 s1 eq_refl) as [Ho1 _]. unfold shifted. cbn [fst snd fmap option_fmap option_map].
  pose proof (gen_rest_shift a b l 0 o1 s1 ltac:(done) Hab0 Hend ltac:(lia)) as Eg. by rewrite Z.add_0_r in Eg.
Qed.

(** ** UTCTime texts with their century are GeneralizedTime texts *)

Lemma utc_rest_gen a b l o s s' : (∀ o, 0 ≤ o ≤ l → char_at b (o + 2) = char_at a o) → char_at a l = 0 → 0 ≤ o ≤ l →
  utc_rest a l o s = (Some tt, s') → gen_rest b (l + 2) (o + 2) s = (Some tt, s') ∧ ∀ j, o ≤ j < l → char_at a j ≠ 0.
Proof.
  intros Hab Hend Ho H. unfold utc_rest, mbind, st_bind in H. unfold gen_rest. rewrite !Hab by lia.
  assert (∀ x, (x + 2 =? l + 2) = (x =? l)) as Heq by (intros x; destruct (Z.eqb_spec x l), (Z.eqb_spec (x + 2) (l + 2)); (done || lia)).
  destruct (Z.eqb_spec (char_at a o) 90) as [E90|E90].
  { rewrite E90. change (90 =? 46) with false. unfold mbind, st_bind, mret, st_ret. rewrite Hab, E90 by lia. change (90 =? 90) with true. cbv beta iota.
    unfold mret, st_ret, st_assert in *. replace (o + 2 + 1) with (o + 1 + 2) by lia. rewrite Heq. destruct (Z.eqb_spec (o + 1) l); [|done]. split; [done|].
    intros j Hj. assert (j = o) as -> by lia. by rewrite E90. }
  destruct ((char_at a o =? 43) || (char_at a o =? 45)) eqn:Ez.
  - assert ((char_at a o =? 46) = false) as -> by (apply orb_true_iff in Ez as [E%Z.eqb_eq|E%Z.eqb_eq]; by rewrite E).
    unfold mbind, st_bind, mret, st_ret. rewrite !Hab, Ez, (proj2 (Z.eqb_neq _ 90)) by (done || lia).
    destruct (zone_offset_shift a b l 2 Hab 1 utc_min utc_max gen_min gen_max 6 o s Ho) as [E Hz].
    { intros j n Hj. unfold in_table. destruct j as [|j|j]; try lia. rewrite Z2Nat.inj_add by lia. rewrite Nat.add_comm. done. }
    change (6 + 1) with 7 in E. rewrite E. destruct (zone_offset a l utc_min utc_max 6 o s) as [[o2|] s2]; [|done]. unfold shifted. cbn [fst snd fmap option_fmap option_map].
    unfold st_assert in *. rewrite Heq. destruct (Z.eqb_spec o2 l) as [El|]; [|done]. split; [done|]. destruct (Hz o2 s2 eq_refl) as (E5 & _ & Hn). intros j Hj.
    destruct (decide (j = o)) as [->|]; [intros H0; by rewrite H0 in Ez|apply Hn; lia].
  - unfold mret, st_ret, st_assert in H. destruct (Z.eqb_spec o l) as [->|]; [|done]. rewrite Hend. change (0 =? 46) with false. unfold mbind, st_bind, mret, st_ret. rewrite !Hab, Hend by lia.
    change (0 =? 90) with false. change ((0 =? 43) || (0 =? 45)) with false. change (negb (0 =? 0)) with false. cbv beta iota. unfold st_assert. rewrite Z.eqb_refl. split; [done|]. intros j Hj. lia.
Qed.
Lemma two_digits_state a l o s1 s2 : two_digits a l o s1 = ((two_digits a l o s2).1, s1).
Proof. unfold two_digits, mbind, st_bind, st_assert, mret, st_ret. by repeat case_match. Qed.
Lemma is_digit_true c : is_digit c = true → 48 ≤ c ≤ 57.
Proof. unfold is_digit. destruct (Z.ltb_spec c 48), (Z.ltb_spec 57 c); (done || lia). Qed.
Lemma utc_gen_tables j n : 1 ≤ j → in_table gen_min gen_max (j + 1) n = in_table utc_min utc_max j n ∧ gen_store (j + 1) n = utc_store j n.
Proof.
  intros Hj. split.
  - unfold in_table. rewrite Z2Nat.inj_add, Nat.add_comm by lia. change (Z.to_nat 1 + Z.to_nat j)%nat with (S (Z.to_nat j)). cbn [nth gen_min gen_max]. destruct (Z.to_nat j) eqn:E; [lia|]. done.
  - unfold gen_store, utc_store. rewrite (proj2 (Z.eqb_neq (j + 1) 0)), (proj2 (Z.eqb_neq (j + 1) 1)), (proj2 (Z.eqb_neq j 0)) by lia.
    assert (∀ m, (j + 1 =? m + 1) = (j =? m)) as Hm by (intros m; destruct (Z.eqb_spec j m), (Z.eqb_spec (j + 1) (m + 1)); (done || lia)).
    rewrite (Hm 1 : (j + 1 =? 2) = _), (Hm 2 : (j + 1 =? 3) = _), (Hm 3 : (j + 1 =? 4) = _), (Hm 4 : (j + 1 =? 5) = _), (Hm 5 : (j + 1 =? 6) = _). done.
Qed.
Lemma century_store n c s : 0 ≤ n < 100 → c = (if n <? 50 then 20 else 19) → option_map (gen_store 1 n) (option_map (gen_store 0 c) s) = option_map (utc_store 0 n) s.
Proof.
  intros Hn ->. destruct s as [t|]; [|done]. cbn [option_map]. f_equal. apply tm_ext; try done. cbn. destruct (Z.ltb_spec n 50); lia.
Qed.
Lemma utc_to_gen a b l s s' fa fb : (∀ o, 0 ≤ o ≤ l → char_at b (o + 2) = char_at a o) → char_at a l = 0 →
  char_at b 0 = (if 53 <=? char_at a 0 then 49 else 50) → char_at b 1 = (if 53 <=? char_at a 0 then 57 else 48) →
  asn1_utctime_to_tm {| slength := l; stype := V_ASN1_UTCTIME; sdata := Some a; sflags := fa |} s = (Some tt, s') →
  asn1_generalizedtime_to_tm {| slength := l + 2; stype := V_ASN1_GENERALIZEDTIME; sdata := Some b; sflags := fb |} s = (Some tt, s') ∧ ∀ j, 0 ≤ j < l → char_at a j ≠ 0.
Proof.
  intros Hab Hend H0 H1 H. unfold asn1_utctime_to_tm in H. unfold asn1_generalizedtime_to_tm. cbn [slength stype sdata default from_option id] in *. change (negb (V_ASN1_UTCTIME =? V_ASN1_UTCTIME)) with false in H.
  change (negb (V_ASN1_GENERALIZEDTIME =? V_ASN1_GENERALIZEDTIME)) with false. cbv iota in *. destruct (Z.ltb_spec l 11) as [|Hl]; [done|]. rewrite (proj2 (Z.ltb_ge (l + 2) 13)) by lia.
  assert (∃ five, five = 5%nat) as [five H5] by eauto. replace 6%nat with (S five) in H by (by subst). replace 7%nat with (S (S five)) by (by subst). cbn [fields_loop] in H |- *.
  change (0 =? 5) with false in H. change (0 =? 6) with false. change (0 + 1 =? 6) with false. cbn [andb] in H |- *.
  unfold mbind, st_bind in H |- *. set (c := if 53 <=? char_at a 0 then 19 else 20).
  assert (two_digits b (l + 2) 0 s = (Some (c, 2), s)) as ->.
  { unfold two_digits, mbind, st_bind, st_assert, mret, st_ret. rewrite H0. change (0 + 1) with 1. rewrite H1. unfold c.
    rewrite (proj2 (Z.ltb_ge (l + 2) 1)), (proj2 (Z.ltb_ge (l + 2) (1 + 1))) by lia. by destruct (53 <=? char_at a 0). }
  destruct (two_digits_shift a b l 2 Hab 0 s ltac:(lia)) as [E2 Hd]. unfold st_assert, on_tm, st_modify in H |- *.
  assert (in_table gen_min gen_max 0 c = true) as -> by (unfold c; by destruct (53 <=? char_at a 0)).
  destruct (two_digits_shift a b l 2 Hab 0 (option_map (gen_store 0 c) s) ltac:(lia)) as [E2' _]. change (0 + 2) with 2 in E2'. rewrite E2'.
  rewrite (two_digits_state a l 0 (option_map _ s) s). destruct (two_digits a l 0 s) as [[[n o1]|] s1] eqn:E1; [|done]. destruct (Hd n o1 s1 eq_refl) as (-> & Hl2 & -> & D1 & D2 & En).
  unfold shifted at 1. cbn [fst snd fmap option_fmap option_map]. change (in_table gen_min gen_max (0 + 1) n) with (in_table utc_min utc_max 0 n). destruct (in_table utc_min utc_max 0 n) eqn:Et; [|done].
  apply is_digit_true in D1, D2. change (0 + 1 + 1) with (1 + 1). change (0 + 1) with 1 in *. change (0 + 2) with 2 in *.
  rewrite century_store; [|lia|unfold c; destruct (Z.leb_spec 53 (char_at a 0)), (Z.ltb_spec n 50); (done || lia)].
  destruct (fields_shift a b l 2 Hab 1 5 utc_min utc_max utc_store gen_min gen_max gen_store five 1 2 (option_map (utc_store 0 n) s)) as [E Hn]; [lia|lia|intros; by apply utc_gen_tables..|].
  change (5 + 1) with 6 in E. rewrite E. destruct (fields_loop a l 5 _ _ _ five 1 2 _) as [[o2|] s2]; [|done]. destruct (Hn o2 s2 eq_refl) as [Ho2 Hnz].
  unfold shifted. cbn [fst snd fmap option_fmap option_map]. destruct (utc_rest_gen a b l o2 s2 s' Hab Hend ltac:(lia) H) as [Eg Hnz2]. split; [done|].
  intros j Hj. assert (j = 0 ∨ j = 1 ∨ (2 ≤ j < o2) ∨ o2 ≤ j) as [-> | [-> | [Hj2 | Hj2]]] by lia; [lia|lia|by apply Hnz|apply Hnz2; lia].
Qed.


(** ** The conversion *)

(** The string is followed by a NUL in its block. *)
Definition terminated (t : asn1_string) : Prop := ∃ text rest, sdata t = Some (text ++ 0 :: rest) ∧ slength t = zlen text.
Lemma terminated_end text rest : char_at (text ++ 0 :: rest) (zlen text) = 0.
Proof. apply char_at_app. Qed.
Lemma strlcpy_loop_all text rest n : Forall (λ c, c ≠ 0) text → zlen text < n → strlcpy_loop n (text ++ 0 :: rest) = (text, 0 :: rest).
Proof.
  intros Ht. revert n. induction Ht as [|c text Hc Ht IH]; intros n Hn.
  - cbn. by rewrite andb_false_r.
  - rewrite zlen_cons in Hn. pose proof (zlen_nonneg text). cbn [app strlcpy_loop]. rewrite (proj2 (Z.ltb_lt 1 n)), (proj2 (Z.eqb_neq c 0)) by (done || lia). cbn [negb andb]. by rewrite IH by lia.
Qed.
Lemma century_and_text c1 c2 text rest block : c1 ≠ 0 → c2 ≠ 0 → Forall (λ c, c ≠ 0) text → (length text + 3 ≤ length block)%nat →
  (OPENSSL_strlcat (OPENSSL_strlcpy block 0 [c1; c2; 0] (zlen text + 3)).2 (text ++ 0 :: rest) (zlen text + 3)).2 = [c1; c2] ++ text ++ 0 :: drop (length text + 3) block.
Proof.
  intros H1 H2 Ht Hb. pose proof (zlen_nonneg text) as H0. unfold OPENSSL_strlcpy at 1.
  assert (strlcpy_loop (zlen text + 3) [c1; c2; 0] = ([c1; c2], [0])) as -> by (apply (strlcpy_loop_all [c1; c2] []); [by repeat constructor|change (zlen [c1; c2]) with 2; lia]).
  cbn [snd]. change (zlen [c1; c2]) with 2. rewrite (proj2 (Z.eqb_neq _ 0)) by lia.
  destruct block as [|b0 [|b1 [|b2 block]]]; [cbn in Hb; lia..|]. cbn [length] in Hb. change (write_at 0 ([c1; c2] ++ [0]) (b0 :: b1 :: b2 :: block)) with ([c1; c2] ++ 0 :: block).
  unfold OPENSSL_strlcat. assert (strlcat_loop (zlen text + 3) ([c1; c2] ++ 0 :: block) = 2) as ->.
  { cbn [strlcat_loop app]. rewrite (proj2 (Z.eqb_neq c1 0)), (proj2 (Z.eqb_neq c2 0)), !(proj2 (Z.ltb_lt 0 _)) by (done || lia). reflexivity. }
  unfold OPENSSL_strlcpy. rewrite strlcpy_loop_all by (done || lia). cbn [snd]. replace (zlen text + 3 - 2 - zlen text) with 1 by lia. change (1 =? 0) with false. cbv iota.
  destruct (split_block (0 :: block) (length text + 1)) as (hole & tail & E & Hh); [cbn; lia|]. rewrite E. change 2 with (zlen [c1; c2]). rewrite write_at_app by (rewrite length_app; cbn; lia).
  rewrite <- app_assoc. cbn [app]. do 4 f_equal. assert (tail = drop (length text + 1) (hole ++ tail)) as Etail by (rewrite <- Hh; by rewrite drop_app_length).
  rewrite Etail, <- E. replace (length text + 1)%nat with (S (length text)) by lia. replace (length text + 3)%nat with (S (S (S (length text)))) by lia. done.
Qed.
Lemma char_at_prefix c1 c2 text x y o : 0 ≤ o ≤ zlen text → char_at ([c1; c2] ++ text ++ 0 :: y) (o + 2) = char_at (text ++ 0 :: x) o.
Proof.
  intros Ho. unfold char_at. replace (Z.to_nat (o + 2)) with (S (S (Z.to_nat o))) by lia. cbn [app nth]. unfold zlen in Ho.
  destruct (decide (o < Z.of_nat (length text))); [by rewrite !app_nth1 by lia|]. rewrite !app_nth2 by lia. by replace (Z.to_nat o - length text)%nat with 0%nat by lia.
Qed.
Lemma char_at_same text x y o : 0 ≤ o ≤ zlen text → char_at (text ++ 0 :: y) o = char_at (text ++ 0 :: x) o.
Proof. intros Ho. rewrite <- (char_at_prefix 1 1 text x y o Ho). symmetry. apply (char_at_prefix 1 1 text y y o Ho). Qed.

Section Conversion.
Context `{!Allocator}.

(** The block that [ASN1_STRING_set] works on. *)
Lemma set_block_ok s len : 0 ≤ len → string_ok (Some s) →
  match (if (slength s <=? len) || bool_decide (sdata s = None) then
      if malloc_ok (len + 1) then
        let old := take (Z.to_nat (len + 1)) (default [] (sdata s)) in
        Some (old ++ fresh_bytes (length old) (Z.to_nat (len + 1) - length old))
      else None else sdata s) with
  | Some blk => len + 1 ≤ zlen blk
  | None => ¬ ∀ n, malloc_ok n = true
  end.
Proof.
  intros Hl Hs. destruct (_ || _) eqn:E.
  - destruct (malloc_ok (len + 1)) eqn:Hm; [|intros Hall; by rewrite Hall in Hm]. cbv beta iota zeta. rewrite zlen_app. unfold fresh_bytes, zlen. rewrite length_fmap, length_seq. lia.
  - apply orb_false_iff in E as [E1%Z.leb_gt E2%bool_decide_eq_false]. unfold string_ok in Hs. destruct (sdata s) as [b|]; [lia|done].
Qed.
(** [ASN1_STRING_set] of contents, and without contents. *)
Lemma string_set_text s text rest : string_ok (Some s) → match ASN1_STRING_set s (Some (text ++ rest)) (zlen text) with
  | (true, s') => slength s' = zlen text ∧ stype s' = stype s ∧ ∃ y, sdata s' = Some (text ++ 0 :: y)
  | (false, _) => ¬ ∀ n, malloc_ok n = true
  end.
Proof.
  intros Hs. unfold ASN1_STRING_set. pose proof (zlen_nonneg text) as H0. rewrite (proj2 (Z.ltb_ge (zlen text) 0)) by done. rewrite take_app_zlen.
  pose proof (set_block_ok s (zlen text) H0 Hs) as Hb. cbv zeta in Hb |- *. destruct (if _ || _ then _ else _) as [blk|]; [|done].
  split; [done|]. split; [done|]. exists (drop (length text + 1) blk). cbn [sdata]. rewrite write_text; [done|]. unfold zlen in Hb. lia.
Qed.
Lemma string_grow s len : 0 ≤ len → string_ok (Some s) → match ASN1_STRING_set s None len with
  | (true, s') => slength s' = len ∧ stype s' = stype s ∧ len + 1 ≤ zlen (data_of s')
  | (false, _) => ¬ ∀ n, malloc_ok n = true
  end.
Proof.
  intros Hl Hs. unfold ASN1_STRING_set. rewrite (proj2 (Z.ltb_ge len 0)) by lia. pose proof (set_block_ok s len Hl Hs) as Hb. cbv zeta in Hb |- *. by destruct (if _ || _ then _ else _) as [blk|].
Qed.
(** A place for the result: nothing, a null pointer, or a GeneralizedTime. *)
Definition good_out (out : option (option asn1_string)) : Prop :=
  match out with Some (Some g) => string_ok (Some g) ∧ stype g = V_ASN1_GENERALIZEDTIME | _ => True end.
Lemma to_generalizedtime_ok t out : terminated t → good_out out →
  match ASN1_TIME_to_generalizedtime t out with
  | (Some g, out') => ASN1_TIME_check t = true ∧ out' = (match out with Some _ => Some (Some g) | None => None end) ∧ stype g = V_ASN1_GENERALIZEDTIME ∧ terminated g ∧
      ∀ s s', asn1_time_to_tm t s = (Some tt, s') → asn1_time_to_tm g s = (Some tt, s')
  | (None, out') => out' = out ∧ (ASN1_TIME_check t = false ∨ ¬ ∀ n, malloc_ok n = true)
  end.
Proof.
  intros (text & rest & Hd & Hl) Hout. unfold ASN1_TIME_to_generalizedtime. destruct (ASN1_TIME_check t) eqn:Hc; cbn [negb]; [|by split; [|left]].
  set (target := match out with Some (Some g) => _ | _ => _ end). assert (match target with Some g => string_ok (Some g) ∧ stype g = V_ASN1_GENERALIZEDTIME | None => ¬ ∀ n, malloc_ok n = true end) as Htarget.
  { subst target. unfold good_out, ASN1_STRING_type_new in *. destruct out as [[g|]|]; [done|..]; (destruct (malloc_ok sizeof_ASN1_STRING) eqn:Hm; [done|intros Hall; by rewrite Hall in Hm]). }
  destruct target as [ret|]; [|by split; [|right]]. destruct Htarget as [Hret Hty]. assert (data_of t = text ++ 0 :: rest) as Hdt by (unfold data_of; by rewrite Hd). rewrite Hd, Hl, Hdt.
  assert (∀ g, stype g = V_ASN1_GENERALIZEDTIME → ∀ s, asn1_time_to_tm g s = asn1_generalizedtime_to_tm g s) as Hgen by (intros g Hg s; unfold asn1_time_to_tm; by rewrite Hg).
  destruct (Z.eqb_spec (stype t) V_ASN1_GENERALIZEDTIME) as [Egen|Egen].
  - pose proof (string_set_text ret text (0 :: rest) Hret) as Hset. destruct (ASN1_STRING_set ret _ _) as [[] g]; [|by split; [|right]].
    destruct Hset as (Hgl & Hgt & y & Hgd). split; [done|]. split; [by destruct out as [[]|]|]. split; [by rewrite Hgt|]. split; [by exists text, y|].
    intros s s'. rewrite !Hgen by (done || by rewrite Hgt). intros Hp. destruct t as [tl tty td tf], g as [gl gty gd gf]. cbn in *. subst. rewrite <- Hp, Hty.
    apply gen_copy; [intros o Ho; by apply char_at_same|apply terminated_end].
  - assert (stype t = V_ASN1_UTCTIME) as Hutc.
    { unfold ASN1_TIME_check in Hc. rewrite (proj2 (Z.eqb_neq _ _)) in Hc by done. by destruct (Z.eqb_spec (stype t) V_ASN1_UTCTIME). }
    pose proof (string_grow ret (zlen text + 2) ltac:(pose proof (zlen_nonneg text); lia) Hret) as Hset. destruct (ASN1_STRING_set ret _ _) as [[] g]; [|by split; [|right]].
    destruct Hset as (Hgl & Hgt & Hgb). cbv zeta. set (cent := if 53 <=? _ then _ else _). replace (zlen text + 2 + 1) with (zlen text + 3) by lia.
    assert (∃ c1 c2, cent = [c1; c2; 0] ∧ c1 = (if 53 <=? char_at (text ++ 0 :: rest) 0 then 49 else 50) ∧ c2 = (if 53 <=? char_at (text ++ 0 :: rest) 0 then 57 else 48) ∧ c1 ≠ 0 ∧ c2 ≠ 0) as (c1 & c2 & -> & E1 & E2 & N1 & N2).
    { subst cent. unfold char_at, byte_at. destruct (53 <=? _); (do 2 eexists; split; [reflexivity|]; by split_and!). }
    assert (∀ s s', asn1_time_to_tm t s = (Some tt, s') → asn1_utctime_to_tm {| slength := zlen text; stype := V_ASN1_UTCTIME; sdata := Some (text ++ 0 :: rest); sflags := sflags t |} s = (Some tt, s')) as Hparse.
    { intros s s' Hp. unfold asn1_time_to_tm in Hp. rewrite Hutc in Hp. destruct t as [tl tty td tf]. cbn in *. by subst. }
    assert (∀ fl y s s', asn1_time_to_tm t s = (Some tt, s') → asn1_generalizedtime_to_tm {| slength := zlen text + 2; stype := V_ASN1_GENERALIZEDTIME; sdata := Some ([c1; c2] ++ text ++ 0 :: y); sflags := fl |} s = (Some tt, s') ∧ ∀ j, 0 ≤ j < zlen text → char_at (text ++ 0 :: rest) j ≠ 0) as Hconv.
    { intros fl y s s' Hp%Hparse. eapply utc_to_gen; [intros o Ho; by apply char_at_prefix|apply terminated_end|by rewrite <- E1|by rewrite <- E2|exact Hp]. }
    assert (Forall (λ c, c ≠ 0) text) as Hnz.
    { unfold ASN1_TIME_check in Hc. rewrite (proj2 (Z.eqb_neq _ _)) in Hc by done. rewrite Hutc in Hc. change (V_ASN1_UTCTIME =? V_ASN1_UTCTIME) with true in Hc. cbv iota in Hc. unfold ASN1_UTCTIME_check, succeeds in Hc.
      destruct (asn1_utctime_to_tm t None) as [[[]|] s'] eqn:Ep; [|done]. destruct (Hconv 0 [] None s') as [_ Hn]; [unfold asn1_time_to_tm; by rewrite Hutc|].
      apply List.Forall_forall. intros c Hin. apply (In_nth _ _ 0) in Hin as (j & Hj & <-). specialize (Hn (Z.of_nat j)). unfold char_at, zlen in Hn. rewrite Nat2Z.id, app_nth1 in Hn by lia. apply Hn. lia. }
    rewrite century_and_text by (done || (unfold zlen in Hgb; lia)). split; [done|]. split; [by destruct out as [[]|]|]. split; [by rewrite <- Hty, <- Hgt|]. split.
    + exists ([c1; c2] ++ text), (drop (length text + 3) (data_of g)). cbn [sdata slength]. rewrite <- app_assoc. split; [done|]. rewrite zlen_app. change (zlen [c1; c2]) with 2. lia.
    + intros s s' Hp. rewrite Hgen by (cbn; by rewrite Hgt). rewrite Hgl, Hgt, Hty. by apply Hconv.
Qed.
End Conversion.


(** ** The theorem *)

Lemma cmp_time_ok junk s m t : stype s = V_ASN1_UTCTIME → denotes s m → time_range t →
  ASN1_UTCTIME_cmp_time_t junk s t = Z.sgn (m - (EPOCH * 86400 + t)).
Proof.
  intros Hty (_ & ts & Hts & <- & Hp) Ht. unfold ASN1_UTCTIME_cmp_time_t. specialize (Hp junk). unfold asn1_time_to_tm in Hp. rewrite Hty in Hp. change (V_ASN1_UTCTIME =? V_ASN1_UTCTIME) with true in Hp.
  cbv iota in Hp. rewrite Hp. destruct (gmtime_ok t Ht) as (ttm & -> & Httm & <-). destruct (gmtime_diff_ok ttm ts Httm Hts) as (days & secs & -> & Hd & Hs).
  rewrite <- Hd. destruct (Z.ltb_spec 0 days); [|destruct (Z.ltb_spec days 0); [|destruct (Z.ltb_spec 0 secs); [|destruct (Z.ltb_spec secs 0)]]]; symmetry;
    [apply Z.sgn_pos|apply Z.sgn_neg|apply Z.sgn_pos|apply Z.sgn_neg|apply Z.sgn_null]; lia.
Qed.
#[local] Instance roomy_times : Allocator := {| malloc_ok _ := true; junk _ := 7 |}.
