(* ===== verification/Oid.v ===== *)
(** * Object identifiers as text ([cbb.c] and [cbs.c])

    [CBB_add_asn1_oid_from_text] parses a dotted-decimal OID and writes its contents octets;
    [CBS_asn1_oid_to_text] is the inverse. *)
From S2P Require Export Builder.

Definition UINT64_MAX : Z := 0xffffffffffffffff.

(** The [for (;;)] loop of [parse_dotted_decimal]: [out] is [*out], [seen_digit] the flag.  A
    failing call has consumed what it read. *)
Fixpoint dotted_decimal_loop (out : Z) (seen_digit : bool) (c : cbs) : option Z * cbs :=
  match c with
  | [] => (if seen_digit then Some out else None, [])
  | u :: c =>
      if (u =? 46) && (0 <? CBS_len c) then (if seen_digit then Some out else None, c)
      else if (u <? 48) || (57 <? u) || (seen_digit && (out =? 0)) || (UINT64_MAX / 10 <? out) ||
              (UINT64_MAX - (u - 48) <? u64 (out * 10))
      then (None, c)
      else dotted_decimal_loop (u64 (u64 (out * 10) + (u - 48))) true c
  end.
Definition parse_dotted_decimal : CBS_M Z := dotted_decimal_loop 0 false.

(** [%] PRIu64 of the C library: decimal without leading zeros, at most 20 digits. *)
Fixpoint decimal_fuel (n : nat) (v : Z) : bytes :=
  match n with
  | O => []
  | S n => if v <? 10 then [48 + v] else decimal_fuel n (v / 10) ++ [48 + v mod 10]
  end.
Definition decimal (v : Z) : bytes := decimal_fuel 20 v.

Section Oid.
Context `{Allocator}.

(** [while (CBS_len(&cbs) > 0)]: every component consumes a byte. *)
Fixpoint oid_from_text_loop (fuel : nat) (p : loc) (c : cbs) : CBB_M unit :=
  match fuel with
  | O => if 0 <? CBS_len c then st_fail else mret tt
  | S fuel =>
      if 0 <? CBS_len c then
        match parse_dotted_decimal c with
        | (None, _) => st_fail
        | (Some a, c) => add_base128_integer p a;; oid_from_text_loop fuel p c
        end
      else mret tt
  end.
Definition CBB_add_asn1_oid_from_text (p : loc) (text : bytes) (len : Z) : CBB_M unit :=
  CBB_flush p;;
  match parse_dotted_decimal (take (Z.to_nat len) text) with
  | (None, _) => st_fail
  | (Some a, c) =>
      match parse_dotted_decimal c with
      | (None, _) => st_fail
      | (Some b, c) =>
          if (2 <? a) || ((a <? 2) && (39 <? b)) || (UINT64_MAX - 80 <? b) then st_fail
          else add_base128_integer p (u64 (40 * a + b));; oid_from_text_loop (length c) p c
      end
  end.

Definition add_decimal (out : loc) (v : Z) : CBB_M unit := CBB_add_bytes out (decimal v).

Fixpoint oid_to_text_loop (fuel : nat) (p : loc) (c : cbs) : CBB_M unit :=
  if CBS_len c =? 0 then mret tt
  else match fuel with
  | O => st_fail
  | S fuel =>
      match parse_base128_integer c with
      | (None, _) => st_fail
      | (Some v, c) => CBB_add_u8 p 46;; add_decimal p v;; oid_to_text_loop fuel p c
      end
  end.
(** Everything between [CBB_init] and [CBB_finish]. *)
Definition oid_to_text_body (p : loc) (c : cbs) : CBB_M unit :=
  match parse_base128_integer c with
  | (None, _) => st_fail
  | (Some v, c) =>
      (if 80 <=? v then CBB_add_bytes p [50; 46];; add_decimal p (v - 80)
       else add_decimal p (v / 40);; CBB_add_u8 p 46;; add_decimal p (v mod 40));;
      oid_to_text_loop (length c) p c;;
      CBB_add_u8 p 0
  end.
Definition CBS_asn1_oid_to_text (c : cbs) : option bytes :=
  match (CBB_init 0%nat 32;; oid_to_text_body 0%nat c;; CBB_finish 0%nat false false) empty_store with
  | (Some (txt, txt_len), _) => Some (take (Z.to_nat txt_len) txt)
  | (None, _) => None
  end.

(** ** Specification *)

Definition oid_ok (arcs : list Z) : Prop :=
  match arcs with
  | a :: b :: rest => 0 ≤ a ≤ 2 ∧ 0 ≤ b ≤ UINT64_MAX - 80 ∧ (a < 2 → b ≤ 39) ∧ Forall is_u64 rest
  | _ => False
  end.
Definition dotted (arcs : list Z) : bytes := concat (map (λ a, 46 :: decimal a) arcs).
Definition oid_text (arcs : list Z) : bytes :=
  match arcs with a :: b :: rest => decimal a ++ dotted (b :: rest) | _ => [] end.
Definition oid_der (arcs : list Z) : bytes :=
  match arcs with a :: b :: rest => base128 (40 * a + b) ++ concat (map base128 rest) | _ => [] end.

(** ** Decimal numerals *)

Lemma decimal_fuel_S n v : 0 ≤ v < 10 ^ Z.of_nat n → decimal_fuel (S n) v = decimal_fuel n v ∨ n = 0%nat.
Proof.
  revert v. induction n as [|n IH]; intros v Hv; [by right|left].
  rewrite Nat2Z.inj_succ, Z.pow_succ_r in Hv by lia.
  change (decimal_fuel (S (S n)) v) with (if v <? 10 then [48 + v] else decimal_fuel (S n) (v / 10) ++ [48 + v mod 10]).
  cbn [decimal_fuel]. destruct (Z.ltb_spec v 10); [done|].
  destruct (IH (v / 10)) as [<- | ->]; [lia|done|]. change (10 ^ Z.of_nat 0) with 1 in Hv. lia.
Qed.
Lemma u64_10_20 v : is_u64 v → 0 ≤ v < 10 ^ 20.
Proof. change (10 ^ 20) with 100000000000000000000. word_lia. Qed.

Lemma decimal_snoc v d : is_u64 (v * 10 + d) → 0 < v → 0 ≤ d < 10 → decimal (v * 10 + d) = decimal v ++ [48 + d].
Proof.
  intros Hu Hv Hd. unfold decimal.
  change (decimal_fuel 20 (v * 10 + d)) with
    (if v * 10 + d <? 10 then [48 + (v * 10 + d)] else decimal_fuel 19 ((v * 10 + d) / 10) ++ [48 + (v * 10 + d) mod 10]).
  destruct (Z.ltb_spec (v * 10 + d) 10); [lia|].
  replace ((v * 10 + d) / 10) with v by lia. replace ((v * 10 + d) mod 10) with d by lia. apply (f_equal (λ l, l ++ [48 + d])). symmetry.
  assert (0 ≤ v < 10 ^ Z.of_nat 19) as Hv' by (change (10 ^ Z.of_nat 19) with 10000000000000000000; word_lia).
  destruct (decimal_fuel_S 19 v Hv') as [E|E]; [exact E|discriminate].
Qed.
Lemma decimal_small d : 0 ≤ d < 10 → decimal d = [48 + d].
Proof. intros Hd. unfold decimal. cbn [decimal_fuel]. by rewrite (proj2 (Z.ltb_lt d 10)) by lia. Qed.

Lemma decimal_digits v : 0 ≤ v → Forall (λ b, 48 ≤ b ≤ 57) (decimal v).
Proof.
  unfold decimal. generalize 20%nat. intros n. revert v. induction n as [|n IH]; intros v Hv; cbn [decimal_fuel]; [done|].
  destruct (Z.ltb_spec v 10); [repeat constructor; lia|]. apply Forall_app. split; [apply IH; lia|].
  repeat constructor; lia.
Qed.
Lemma decimal_length v : 1 ≤ zlen (decimal v) ≤ 20.
Proof.
  unfold decimal. assert (∀ n v, (1 ≤ n)%nat → 1 ≤ zlen (decimal_fuel n v) ≤ Z.of_nat n) as Hn.
  { clear v. induction n as [|n IH]; intros v Hn; [lia|]. cbn [decimal_fuel]. destruct (v <? 10); [rewrite zlen_cons, zlen_nil; lia|].
    rewrite zlen_app, zlen_cons, zlen_nil. destruct n as [|n]; [cbn; rewrite zlen_nil; lia|].
    specialize (IH (v / 10) ltac:(lia)). lia. }
  apply (Hn 20%nat). lia.
Qed.

(** ** Parsing one component *)

(** One digit of the loop. *)
Lemma dotted_digit v d seen c : is_u64 (v * 10 + d) → 0 ≤ v → 0 ≤ d < 10 → (seen = true → 0 < v) →
  dotted_decimal_loop v seen ((48 + d) :: c) = dotted_decimal_loop (v * 10 + d) true c.
Proof.
  intros Hu Hv Hd Hs. cbn [dotted_decimal_loop]. rewrite (proj2 (Z.eqb_neq (48 + d) 46)) by lia. cbn [andb].
  unfold UINT64_MAX in *. change (0xffffffffffffffff / 10) with 1844674407370955161.
  rewrite (wrap_small 64 (v * 10)) by word_lia.
  replace (48 + d - 48) with d by lia. rewrite wrap_small by done.
  assert (((48 + d <? 48) || (57 <? 48 + d) || seen && (v =? 0) || (1844674407370955161 <? v) ||
    (18446744073709551615 - d <? v * 10)) = false) as ->; [|done].
  destruct seen; [specialize (Hs eq_refl)|]; word_lia.
Qed.

Lemma dotted_digit_inv u v seen c r : is_u8 u → is_u64 v → (seen = false → v = 0) →
  (u =? 46) && (0 <? CBS_len c) = false → dotted_decimal_loop v seen (u :: c) = (Some r.1, r.2) →
  ∃ d, u = 48 + d ∧ 0 ≤ d < 10 ∧ is_u64 (v * 10 + d) ∧ (seen = true → 0 < v) ∧
    dotted_decimal_loop (v * 10 + d) true c = (Some r.1, r.2).
Proof.
  intros Hu Hv Hs Hdot. cbn [dotted_decimal_loop]. rewrite Hdot.
  unfold UINT64_MAX. change (0xffffffffffffffff / 10) with 1844674407370955161.
  destruct (_ || _) eqn:E; [done|]. rewrite !orb_false_iff in E. destruct E as ((((E1 & E2) & E3) & E4) & E5).
  rewrite (wrap_small 64 (v * 10)) in * by word_lia. intros Hl. exists (u - 48).
  assert (is_u64 (v * 10 + (u - 48))) by word_lia. rewrite wrap_small in Hl by done.
  split_and!; [lia|lia|lia|done| |done]. intros ->. word_lia.
Qed.

(** What a component may be followed by: the end, or a dot that is not the last character. *)
Definition component_end (t c' : bytes) : Prop := (t = [] ∧ c' = []) ∨ (t = 46 :: c' ∧ c' ≠ []).

Lemma dotted_end v seen t c' : component_end t c' →
  dotted_decimal_loop v seen t = (if seen then Some v else None, c').
Proof.
  intros [[-> ->]|[-> Hc]]; [by destruct seen|]. cbn [dotted_decimal_loop].
  assert ((0 <? CBS_len c') = true) as -> by (destruct c'; [done|]; unfold CBS_len; rewrite zlen_cons; pose proof (zlen_nonneg c'); lia).
  by destruct seen.
Qed.

Lemma decimal_fuel_div n v : 10 ≤ v → decimal_fuel (S n) v = decimal_fuel n (v / 10) ++ [48 + v mod 10].
Proof. intros Hv. cbn [decimal_fuel]. by rewrite (proj2 (Z.ltb_ge v 10)) by lia. Qed.

Lemma parse_decimal_prefix n : ∀ v t, 0 ≤ v < 10 ^ Z.of_nat n → is_u64 v →
  dotted_decimal_loop 0 false (decimal_fuel (S n) v ++ t) = dotted_decimal_loop v true t.
Proof.
  induction n as [|n IH]; intros v t Hv Hu.
  - change (10 ^ Z.of_nat 0) with 1 in Hv. assert (v = 0) as -> by lia.
    cbn [decimal_fuel app Z.ltb Z.compare]. by apply (dotted_digit 0 0 false t).
  - destruct (Z.lt_ge_cases v 10) as [Hs|Hs].
    + cbn [decimal_fuel]. rewrite (proj2 (Z.ltb_lt v 10)) by lia. cbn [app].
      apply (dotted_digit 0 v false t); [word_lia|lia|lia|done].
    + rewrite decimal_fuel_div, <- app_assoc by done. rewrite Nat2Z.inj_succ, Z.pow_succ_r in Hv by lia.
      rewrite IH by word_lia. cbn [app]. rewrite dotted_digit by word_lia. f_equal. lia.
Qed.

Lemma parse_decimal_complete v t c' : is_u64 v → component_end t c' →
  parse_dotted_decimal (decimal v ++ t) = (Some v, c').
Proof.
  intros Hv Ht. unfold parse_dotted_decimal, decimal.
  assert (decimal_fuel 20 v = decimal_fuel 21 v) as ->.
  { pose proof (u64_10_20 v Hv) as Hb. destruct (decimal_fuel_S 20 v) as [E|E]; [exact Hb|by symmetry|discriminate]. }
  rewrite parse_decimal_prefix; [|apply u64_10_20, Hv|done]. by apply (dotted_end v true).
Qed.

Lemma parse_decimal_loop_sound c : ∀ v (seen : bool) pre r c', bytes_ok c → is_u64 v →
  (if seen then pre = decimal v else v = 0 ∧ pre = []) →
  dotted_decimal_loop v seen c = (Some r, c') →
  is_u64 r ∧ ∃ t, pre ++ c = decimal r ++ t ∧ component_end t c'.
Proof.
  induction c as [|u c IH]; intros v seen pre r c' Hc Hv Hpre Hl.
  - cbn in Hl. destruct seen; [|done]. injection Hl as <- <-. split; [done|]. exists []. subst pre. by split; [|left].
  - apply bytes_ok_cons in Hc as [Hu Hc]. destruct ((u =? 46) && (0 <? CBS_len c)) eqn:Hdot.
    + cbn [dotted_decimal_loop] in Hl. rewrite Hdot in Hl. destruct seen; [|done]. injection Hl as <- <-.
      split; [done|]. apply andb_true_iff in Hdot as [Hdot Hlen]. apply Z.eqb_eq in Hdot as ->. subst pre.
      exists (46 :: c). split; [done|]. right. split; [done|]. by intros ->.
    + apply (dotted_digit_inv u v seen c (r, c')) in Hl as (d & -> & Hd & Hu' & Hs & Hl); [|done|done| |done].
      2:{ intros ->. by destruct Hpre. }
      assert (pre ++ [48 + d] = decimal (v * 10 + d)) as Hpre'.
      { destruct seen; [subst pre; rewrite decimal_snoc; auto|]. destruct Hpre as [-> ->]. cbn [app].
        by rewrite decimal_small by lia. }
      apply (IH (v * 10 + d) true (pre ++ [48 + d])) in Hl; [|done|done|done].
      by rewrite <- app_assoc in Hl.
Qed.

Lemma parse_decimal_sound c r c' : bytes_ok c → parse_dotted_decimal c = (Some r, c') →
  is_u64 r ∧ ∃ t, c = decimal r ++ t ∧ component_end t c'.
Proof. intros Hc Hp. by apply (parse_decimal_loop_sound c 0 false []) in Hp. Qed.

(** ** Whole identifiers *)

(** Dot-separated components. *)
Definition join (xs : list Z) : bytes := match xs with [] => [] | x :: xs => decimal x ++ dotted xs end.

Lemma decimal_ne v : decimal v ≠ [].
Proof. pose proof (decimal_length v) as Hl. intros E. rewrite E, zlen_nil in Hl. lia. Qed.
Lemma join_end xs : component_end (dotted xs) (join xs).
Proof.
  destruct xs as [|x xs]; [by left|right]. split; [done|]. cbn. intros [Hd _]%app_nil. by apply (decimal_ne x).
Qed.
Lemma join_parse x xs : is_u64 x → parse_dotted_decimal (join (x :: xs)) = (Some x, join xs).
Proof. intros Hx. apply parse_decimal_complete; [done|apply join_end]. Qed.
Lemma join_cons_inv c r c' xs : parse_dotted_decimal c = (Some r, c') → c = join xs → Forall is_u64 xs → c ≠ [] →
  ∃ xs', xs = r :: xs' ∧ c' = join xs'.
Proof.
  intros Hp -> Hxs Hne. destruct Hxs as [|x xs Hx Hxs]; [done|]. rewrite join_parse in Hp by done.
  injection Hp as <- <-. eauto.
Qed.
Lemma component_end_join r t xs : component_end t (join xs) → decimal r ++ t = join (r :: xs).
Proof.
  cbn [join]. intros [[-> Hj]|[-> Hj]]; destruct xs as [|x xs]; try done.
  cbn in Hj. apply app_nil in Hj as [Hd _]. by apply decimal_ne in Hd.
Qed.

Lemma parse_shorter c r c' : bytes_ok c → parse_dotted_decimal c = (Some r, c') → bytes_ok c' ∧ (length c' < length c)%nat.
Proof.
  intros Hc Hp. destruct (parse_decimal_sound c r c' Hc Hp) as (_ & t & -> & Ht).
  apply bytes_ok_app in Hc as [_ Hc]. rewrite length_app.
  pose proof (decimal_length r) as Hl. unfold zlen in Hl.
  destruct Ht as [[-> ->]|[-> _]]; [split; [done|cbn [length]; lia]|]. apply bytes_ok_cons in Hc as [_ Hc].
  split; [done|]. cbn [length]. lia.
Qed.

Lemma from_text_loop_spec p fuel : ∀ c, bytes_ok c → (length c ≤ fuel)%nat →
  (∃ xs, c = join xs ∧ Forall is_u64 xs ∧ extends (oid_from_text_loop fuel p c) p (concat (map base128 xs))) ∨
  ((∀ xs, c = join xs → ¬ Forall is_u64 xs) ∧ ∀ s, fst (oid_from_text_loop fuel p c s) = None).
Proof.
  induction fuel as [|fuel IH]; intros c Hc Hf.
  { destruct c; [|cbn in Hf; lia]. left. exists []. split_and!; [done|done|apply extends_ret]. }
  cbn [oid_from_text_loop]. destruct (Z.ltb_spec 0 (CBS_len c)) as [Hl|Hl].
  2:{ assert (c = []) as -> by (destruct c; [done|]; unfold CBS_len in Hl; rewrite zlen_cons in Hl; pose proof (zlen_nonneg c); lia).
      left. exists []. split_and!; [done|done|apply extends_ret]. }
  assert (c ≠ []) as Hne by (by intros ->).
  destruct (parse_dotted_decimal c) as [[r|] c'] eqn:Hp.
  2:{ right. split; [|done]. intros [|x xs] -> Hxs; [done|]. apply Forall_cons in Hxs as [Hx _].
      by rewrite join_parse in Hp by done. }
  destruct (parse_decimal_sound c r c' Hc Hp) as (Hr & t & Hct & Ht). destruct (parse_shorter c r c' Hc Hp) as [Hc' Hlt].
  destruct (IH c' Hc' ltac:(lia)) as [(xs & -> & Hxs & He)|[Hno Hfail]].
  - left. exists (r :: xs). split_and!; [by rewrite Hct, (component_end_join r t xs Ht)|by constructor|].
    apply (extends_seq p _ _ (base128 r) (concat (map base128 xs))); [by apply extends_base128|done].
  - right. split.
    + intros xs Hc2 Hxs. destruct (join_cons_inv c r c' xs Hp Hc2 Hxs Hne) as (xs' & -> & Hc2').
      apply Forall_cons in Hxs as [_ Hxs]. by apply (Hno xs').
    + intros s. unfold mbind, st_bind. destruct (add_base128_integer p r s) as [[?|] s1]; [apply Hfail|done].
Qed.

Lemma oid_text_join arcs : oid_ok arcs → oid_text arcs = join arcs.
Proof. by destruct arcs as [|a [|b arcs]]. Qed.
Lemma oid_ok_u64 arcs : oid_ok arcs → Forall is_u64 arcs.
Proof.
  destruct arcs as [|a [|b arcs]]; try done. intros (Ha & Hb & _ & Hr). unfold UINT64_MAX in *.
  repeat constructor; try done; word_lia.
Qed.

(** C13: [CBB_add_asn1_oid_from_text] is exact.  For every byte string, either it is the dotted
    decimal form (no stray zeros, no empty component, every component below 2^64) of an object
    identifier whose first arcs the encoding allows, and then the call appends its DER contents
    octets to the builder in any state; or the call returns 0. *)
Theorem CBB_add_asn1_oid_from_text_exact p text : bytes_ok text →
  (∃ arcs, oid_ok arcs ∧ text = oid_text arcs ∧
     appends (CBB_add_asn1_oid_from_text p text (zlen text)) p (oid_der arcs)) ∨
  ((∀ arcs, oid_ok arcs → text ≠ oid_text arcs) ∧
   ∀ s, fst (CBB_add_asn1_oid_from_text p text (zlen text) s) = None).
Proof.
  intros Hok. unfold CBB_add_asn1_oid_from_text. rewrite to_nat_zlen, firstn_all.
  assert (∀ (k : CBB_M unit), (∀ s, fst (k s) = None) → ∀ s, fst ((CBB_flush p;; k) s) = None) as Hfail.
  { intros k Hk s. unfold mbind, st_bind. by destruct (CBB_flush p s) as [[?|] ?]. }
  assert (∀ arcs, oid_ok arcs → text = oid_text arcs → ∃ a b xs, arcs = a :: b :: xs ∧
    parse_dotted_decimal text = (Some a, join (b :: xs)) ∧ parse_dotted_decimal (join (b :: xs)) = (Some b, join xs)) as Hdec.
  { intros arcs Ha ->. rewrite oid_text_join by done. pose proof (oid_ok_u64 arcs Ha) as Hu.
    destruct arcs as [|a [|b xs]]; try done. rewrite !Forall_cons in Hu. exists a, b, xs.
    by rewrite !join_parse by tauto. }
  destruct (parse_dotted_decimal text) as [[a|] c1] eqn:H1.
  2:{ right. split; [|by apply Hfail]. intros arcs Ha Ht. destruct (Hdec arcs Ha Ht) as (? & ? & ? & _ & E & _). congruence. }
  destruct (parse_decimal_sound _ _ _ Hok H1) as (Ha & t1 & Ht1 & He1). destruct (parse_shorter _ _ _ Hok H1) as [Hc1 _].
  destruct (parse_dotted_decimal c1) as [[b|] c2] eqn:H2.
  2:{ right. split; [|by apply Hfail]. intros arcs Har Ht. destruct (Hdec arcs Har Ht) as (? & ? & ? & _ & E1 & E2). congruence. }
  destruct (parse_decimal_sound _ _ _ Hc1 H2) as (Hb & t2 & Ht2 & He2). destruct (parse_shorter _ _ _ Hc1 H2) as [Hc2 _].
  destruct (_ || _) eqn:Hbad.
  { right. split; [|by apply Hfail]. intros arcs Har Ht. destruct (Hdec arcs Har Ht) as (a' & b' & xs & -> & E1 & E2).
    assert (a' = a ∧ b' = b) as [-> ->] by (split; congruence). cbn in Har. unfold UINT64_MAX in *. word_lia. }
  rewrite !orb_false_iff in Hbad. unfold UINT64_MAX in Hbad.
  rewrite wrap_small by word_lia.
  destruct (from_text_loop_spec p (length c2) c2 Hc2 ltac:(lia)) as [(xs & -> & Hxs & Hx)|[Hno Hf]].
  - left. exists (a :: b :: xs). split; [cbn; unfold UINT64_MAX; word_lia; intuition lia|].
    rewrite (component_end_join b t2 xs He2) in Ht2. subst c1.
    rewrite (component_end_join a t1 (b :: xs) He1) in Ht1. split; [done|].
    apply extends_appends, extends_seq; [apply extends_base128; word_lia|done].
  - right. split.
    + intros arcs Har Ht. destruct (Hdec arcs Har Ht) as (a' & b' & xs & -> & E1 & E2).
      assert (c2 = join xs) as -> by congruence. cbn in Har. apply (Hno xs); [done|tauto].
    + apply Hfail. intros s. unfold mbind, st_bind. by destruct (add_base128_integer p _ s) as [[?|] s1].
Qed.

(** ** From contents octets to text *)

Lemma add_decimal_extends p v : extends (add_decimal p v) p (decimal v).
Proof.
  apply appends_extends, add_bytes_op_spec. pose proof (decimal_length v). lia.
Qed.
Lemma add_dot_extends p : extends (CBB_add_u8 p 46) p [46].
Proof. by apply appends_extends, appends_add_u8. Qed.

Lemma base128_ne v : base128 v ≠ [].
Proof.
  unfold base128. pose proof (length_b128_bytes (ndigits 7 v) v) as Hl. intros E. rewrite E in Hl.
  unfold ndigits in Hl. pose proof (Z.log2_nonneg v). cbn in Hl. lia.
Qed.

Lemma to_text_loop_complete p xs : ∀ fuel, Forall is_u64 xs → (length (concat (map base128 xs)) ≤ fuel)%nat →
  extends (oid_to_text_loop fuel p (concat (map base128 xs))) p (dotted xs).
Proof.
  induction xs as [|x xs IH]; intros fuel Hxs Hf; [destruct fuel; apply extends_ret|].
  apply Forall_cons in Hxs as [Hx Hxs]. cbn [map concat] in *. rewrite length_app in Hf.
  pose proof (base128_ne x) as Hne. destruct (base128 x) as [|b l] eqn:Eb; [done|]. cbn [length] in Hf.
  destruct fuel as [|fuel]; [lia|]. cbn [oid_to_text_loop].
  destruct (Z.eqb_spec (CBS_len ((b :: l) ++ concat (map base128 xs))) 0) as [Hz|_].
  { unfold CBS_len, zlen in Hz. cbn in Hz. lia. }
  rewrite <- Eb, base128_complete by done. unfold dotted. cbn [map concat].
  apply (extends_seq p _ _ [46] (decimal x ++ dotted xs)); [apply add_dot_extends|].
  apply extends_seq; [apply add_decimal_extends|]. apply IH; [done|lia].
Qed.

Lemma to_text_loop_sound p fuel : ∀ c s, bytes_ok c → fst (oid_to_text_loop fuel p c s) ≠ None →
  ∃ xs, Forall is_u64 xs ∧ c = concat (map base128 xs).
Proof.
  induction fuel as [|fuel IH]; intros c s Hc; cbn [oid_to_text_loop];
    (destruct (Z.eqb_spec (CBS_len c) 0) as [Hz|_]; [by destruct c; [exists []|]|]); [done|].
  destruct (parse_base128_integer c) as [[v|] c'] eqn:Hp; [|done].
  apply base128_sound in Hp as [Hv ->]; [|done]. apply bytes_ok_app in Hc as [_ Hc].
  unfold mbind, st_bind. destruct (CBB_add_u8 p 46 s) as [[?|] s1]; [|done].
  destruct (add_decimal p v s1) as [[?|] s2]; [|done]. intros (xs & Hxs & ->)%IH; [|done].
  exists (v :: xs). split; [by constructor|done].
Qed.

(** The first component of the encoding stands for the first two arcs. *)
Lemma first_arcs v : is_u64 v → ∃ a b, v = 40 * a + b ∧ 0 ≤ a ≤ 2 ∧ 0 ≤ b ≤ UINT64_MAX - 80 ∧ (a < 2 → b ≤ 39).
Proof.
  intros Hv. unfold UINT64_MAX. destruct (Z.lt_ge_cases v 80); [exists (v / 40), (v mod 40)|exists 2, (v - 80)]; word_lia.
Qed.

Lemma to_text_body_complete p arcs : oid_ok arcs → extends (oid_to_text_body p (oid_der arcs)) p (oid_text arcs ++ [0]).
Proof.
  destruct arcs as [|a [|b xs]]; try done. intros (Ha & Hb & Hab & Hxs). unfold UINT64_MAX in *.
  unfold oid_to_text_body, oid_der, oid_text. rewrite base128_complete by word_lia.
  unfold dotted. cbn [map concat]. fold (dotted xs). rewrite <- (app_assoc (decimal a)). cbn [app].
  change (46 :: (decimal b ++ dotted xs) ++ [0]) with ([46] ++ (decimal b ++ dotted xs) ++ [0]).
  rewrite <- (app_assoc (decimal b)), (app_assoc [46]), (app_assoc (decimal a)).
  apply extends_seq; [|apply extends_seq; [by apply to_text_loop_complete|by apply appends_extends, appends_add_u8]].
  destruct (Z.leb_spec 80 (40 * a + b)) as [Hge|Hlt].
  - assert (a = 2) as -> by lia. replace (40 * 2 + b - 80) with b by lia.
    change (decimal 2 ++ [46] ++ decimal b) with ([50; 46] ++ decimal b).
    apply extends_seq; [by apply appends_extends, add_bytes_op_spec|apply add_decimal_extends].
  - assert (a < 2) by lia. specialize (Hab ltac:(lia)).
    replace ((40 * a + b) / 40) with a by lia. replace ((40 * a + b) mod 40) with b by lia.
    apply extends_seq; [apply add_decimal_extends|]. apply extends_seq; [apply add_dot_extends|apply add_decimal_extends].
Qed.
Lemma to_text_body_sound p c s : bytes_ok c → fst (oid_to_text_body p c s) ≠ None → ∃ arcs, oid_ok arcs ∧ c = oid_der arcs.
Proof.
  intros Hc. unfold oid_to_text_body. destruct (parse_base128_integer c) as [[v|] c'] eqn:Hp; [|done].
  apply base128_sound in Hp as [Hv ->]; [|done]. apply bytes_ok_app in Hc as [_ Hc].
  set (m := if 80 <=? v then _ else _). unfold mbind, st_bind. destruct (m s) as [[?|] s1]; [|done].
  pose proof (to_text_loop_sound p (length c') c' s1 Hc) as Hl.
  destruct (oid_to_text_loop _ p c' s1) as [[?|] s2]; [|done]. intros _.
  destruct Hl as (xs & Hxs & ->); [done|]. destruct (first_arcs v Hv) as (a & b & -> & ?). exists (a :: b :: xs). split; [cbn; tauto|done].
Qed.

Lemma oid_text_length arcs : oid_ok arcs → zlen (oid_text arcs) ≤ 21 * zlen arcs.
Proof.
  assert (∀ xs, zlen (dotted xs) ≤ 21 * zlen xs) as Hd.
  { induction xs as [|x xs IH]; [done|]. unfold dotted in *. cbn [map concat]. rewrite zlen_app, !zlen_cons.
    pose proof (decimal_length x). lia. }
  intros Ha. rewrite oid_text_join by done. destruct arcs as [|a xs]; [done|]. cbn [join].
  rewrite zlen_app, zlen_cons. pose proof (decimal_length a). specialize (Hd xs). lia.
Qed.
Lemma oid_der_length arcs : oid_ok arcs → zlen arcs ≤ 1 + zlen (oid_der arcs).
Proof.
  assert (∀ v, 1 ≤ zlen (base128 v)) as Hb.
  { intros v. pose proof (base128_ne v). destruct (base128 v) as [|b l]; [done|]. rewrite zlen_cons. pose proof (zlen_nonneg l). lia. }
  assert (∀ xs, zlen xs ≤ zlen (concat (map base128 xs))) as Hc.
  { induction xs as [|x xs IH]; [done|]. cbn [map concat]. rewrite zlen_app, zlen_cons. specialize (Hb x). lia. }
  destruct arcs as [|a [|b xs]]; try done. intros _. cbn [oid_der]. rewrite zlen_app, !zlen_cons.
  specialize (Hb (40 * a + b)). specialize (Hc xs). lia.
Qed.

(** C14: [CBS_asn1_oid_to_text] is exact and inverts the writer.  When no allocation fails, it
    returns a NUL-terminated string exactly for the contents octets of an object identifier, and
    the string is its dotted decimal form. *)
Theorem CBS_asn1_oid_to_text_exact c t : bytes_ok c → zlen c < 2 ^ 32 → (∀ m, malloc_ok m = true) →
  CBS_asn1_oid_to_text c = Some t ↔ ∃ arcs, oid_ok arcs ∧ c = oid_der arcs ∧ t = oid_text arcs ++ [0].
Proof.
  intros Hc Hlen Hm. unfold CBS_asn1_oid_to_text. pose proof (init_spec 32) as Hi. rewrite !Hm in Hi.
  cbn [negb andb] in Hi. rewrite andb_false_r in Hi. cbn [negb andb] in Hi. rewrite (bind_some _ _ _ _ _ Hi).
  set (s0 := store0 _ _ _).
  assert (∀ arcs, oid_ok arcs → c = oid_der arcs → ∃ data s,
    (oid_to_text_body 0%nat c;; CBB_finish 0%nat false false) s0 = (Some (data, zlen (oid_text arcs ++ [0])), s) ∧
    take (Z.to_nat (zlen (oid_text arcs ++ [0]))) data = oid_text arcs ++ [0]) as Hgo.
  { intros arcs Ha ->. pose proof (run_writer _ _ 32 (to_text_body_complete 0%nat arcs Ha) ltac:(done)) as Hr.
    fold s0 in Hr. destruct ((oid_to_text_body _ _;; _) s0) as [[[data len]|] s].
    - destruct Hr as [-> Ht]. exists data, s. by rewrite to_nat_zlen.
    - destruct Hr. split; [done|]. pose proof (oid_text_length arcs Ha). pose proof (oid_der_length arcs Ha).
      rewrite zlen_app. change (zlen [0]) with 1. word_lia. }
  split.
  - destruct ((oid_to_text_body _ _;; _) s0) as [[[data len]|] s] eqn:E; [|done]. intros [= <-].
    destruct (to_text_body_sound 0%nat c s0 Hc) as (arcs & Ha & ->).
    { unfold mbind, st_bind in E. by destruct (oid_to_text_body 0%nat c s0) as [[?|] ?]. }
    destruct (Hgo arcs Ha eq_refl) as (data' & s' & [= <- <-] & Ht). eauto.
  - intros (arcs & Ha & Hd & ->). destruct (Hgo arcs Ha Hd) as (data & s & -> & Ht). by rewrite Ht.
Qed.
End Oid.

(** 1.2.840.113549 both ways. *)
Lemma CBB_add_asn1_oid_from_text_exact_witness : let text := [49; 46; 50; 46; 56; 52; 48; 46; 49; 49; 51; 53; 52; 57] in
  (∃ arcs, oid_ok arcs ∧ text = oid_text arcs ∧
     @appends demo_allocator (@CBB_add_asn1_oid_from_text demo_allocator 0%nat text 14) 0 (oid_der arcs)) ∨
  ((∀ arcs, oid_ok arcs → text ≠ oid_text arcs) ∧
   ∀ s, fst (@CBB_add_asn1_oid_from_text demo_allocator 0%nat text 14 s) = None).
Proof.
  exact (@CBB_add_asn1_oid_from_text_exact demo_allocator 0%nat [49; 46; 50; 46; 56; 52; 48; 46; 49; 49; 51; 53; 52; 57]
    ltac:(bytes_ok_tac)).
Defined.
Lemma CBS_asn1_oid_to_text_exact_witness : @CBS_asn1_oid_to_text demo_allocator [0x2a; 0x86; 0x48; 0x86; 0xf7; 0x0d] =
  Some [49; 46; 50; 46; 56; 52; 48; 46; 49; 49; 51; 53; 52; 57; 0].
Proof.
  apply (@CBS_asn1_oid_to_text_exact demo_allocator [0x2a; 0x86; 0x48; 0x86; 0xf7; 0x0d]); [bytes_ok_tac|done|done|].
  exists [1; 2; 840; 113549]. split; [|by vm_compute]. cbn. unfold UINT64_MAX.
  split_and!; try lia. repeat (constructor; [done|]). constructor.
Defined.
