(* ===== verification/SetOf.v ===== *)
(** * Sorting a SET OF ([cbb.c]) and finishing into a caller's buffer ([asn1_compat.c]) *)
From S2P Require Export Builder.
From Stdlib Require Import Sorted Permutation.

(** [memcmp] of the C library, up to the sign of the result. *)
Fixpoint memcmp (a b : bytes) (n : nat) : Z :=
  match n, a, b with
  | S n, x :: a, y :: b => if x <? y then -1 else if y <? x then 1 else memcmp a b n
  | _, _, _ => 0
  end.
Definition compare_set_of_element (a b : cbs) : Z :=
  let a_len := CBS_len a in
  let b_len := CBS_len b in
  let min_len := if a_len <? b_len then a_len else b_len in
  let ret := memcmp a b (Z.to_nat min_len) in
  if negb (ret =? 0) then ret
  else if a_len =? b_len then 0
  else if a_len <? b_len then -1 else 1.

(** [qsort] of the C library.  The comparison orders byte strings totally, so every sorting
    algorithm returns the same array. *)
Section Qsort.
Context {A : Type} (compare : A → A → Z).
Fixpoint qsort_insert (x : A) (l : list A) : list A :=
  match l with
  | [] => [x]
  | y :: l' => if compare x y <=? 0 then x :: l else y :: qsort_insert x l'
  end.
Fixpoint qsort (l : list A) : list A :=
  match l with [] => [] | x :: l => qsort_insert x (qsort l) end.
End Qsort.

(** The loops over [CBS_get_any_asn1_element]; each element is at least two bytes long. *)
Fixpoint set_of_children (fuel : nat) (c : cbs) : option (list bytes) :=
  if CBS_len c =? 0 then Some []
  else match fuel with
  | O => None
  | S fuel =>
      match CBS_get_any_asn1_element c with
      | (None, _) => None
      | (Some e, c) => rest ← set_of_children fuel c; Some (el_out e :: rest)
      end
  end.

Section SetOf.
Context `{Allocator}.

(** [sizeof(CBS)] on a 64-bit target. *)
Definition sizeof_CBS : Z := 16.

Fixpoint add_children (p : loc) (children : list bytes) : CBB_M unit :=
  match children with
  | [] => mret tt
  | x :: children => CBB_add_bytes p x;; add_children p children
  end.

Definition CBB_flush_asn1_set_of (p : loc) : CBB_M unit :=
  CBB_flush p;;
  s ← st_get;
  let c := take (Z.to_nat (CBB_len s p)) (CBB_data s p) in
  match set_of_children (length c) c with
  | None => st_fail
  | Some found =>
      let num_children := zlen found in
      if num_children <? 2 then mret tt
      else if (2 ^ 64 - 1) / sizeof_CBS <? num_children then st_fail
      else
        let buf_len := CBB_len s p in
        (* [OPENSSL_memdup] and [OPENSSL_malloc] *)
        st_assert (malloc_ok buf_len && malloc_ok (num_children * sizeof_CBS));;
        match set_of_children (length c) c with
        | None => st_fail
        | Some children =>
            let children := qsort compare_set_of_element children in
            st_modify (λ s, match buffer s with
              | Some b => set_buffer (Build_cbb_buffer (buf b) (u64 (offset (get_cbb s p) + pending_len_len (get_cbb s p)))
                                        (cap b) (can_resize b) (error b)) s
              | None => s end);;
            add_children p children
        end
  end.

(** The [uint8_t **outp] argument of the [i2d] functions: a null pointer, a pointer to a null
    pointer, or a pointer into the caller's array. *)
Inductive i2d_out := OutNull | OutAlloc | OutInto (dst : bytes) (pos : Z).
(** What [*outp] is afterwards. *)
Inductive i2d_result := Unchanged | Allocated (der : bytes) | Written (dst : bytes) (pos : Z).

(** [None] is a failed assertion, that the buffer can be resized ([assert(cbb->base->can_resize)])
    or that the builder that is cleaned up is no child, or the use of a null [base].  Else the
    returned number, [*outp] and the store. *)
Definition CBB_finish_i2d (p : loc) (outp : i2d_out) (s : store) : option (Z * i2d_result * store) :=
  b ← (if base (get_cbb s p) then buffer s else None);
  if negb (can_resize b) then None else
  match CBB_finish p false false s with
  | (None, s) => if is_child (get_cbb s p) then None else Some (-1, Unchanged, snd (CBB_cleanup p s))
  | (Some (der, der_len), s) =>
      if INT_MAX <? der_len then Some (-1, Unchanged, s)
      else Some (der_len, match outp with
        | OutNull => Unchanged
        | OutAlloc => Allocated der
        | OutInto dst pos => Written (write_at pos (take (Z.to_nat der_len) der) dst) (pos + der_len)
        end, s)
  end.

(** ** The order *)

Lemma memcmp_diag a n : memcmp a a n = 0.
Proof.
  revert a. induction n as [|n IH]; intros [|x a]; try done. cbn. by rewrite Z.ltb_irrefl.
Qed.

(** Lexicographic order, shorter first. *)
Fixpoint lex_le (a b : bytes) : Prop :=
  match a, b with
  | [], _ => True
  | _ :: _, [] => False
  | x :: a, y :: b => x < y ∨ (x = y ∧ lex_le a b)
  end.

Lemma compare_cons x a y b : compare_set_of_element (x :: a) (y :: b) =
  if x <? y then -1 else if y <? x then 1 else compare_set_of_element a b.
Proof.
  unfold compare_set_of_element, CBS_len. rewrite !zlen_cons.
  pose proof (zlen_nonneg a). pose proof (zlen_nonneg b).
  replace (1 + zlen a <? 1 + zlen b) with (zlen a <? zlen b) by lia.
  replace (1 + zlen a =? 1 + zlen b) with (zlen a =? zlen b) by lia.
  set (m := if zlen a <? zlen b then zlen a else zlen b).
  assert ((if zlen a <? zlen b then 1 + zlen a else 1 + zlen b) = 1 + m) as -> by (subst m; by destruct (_ <? _)).
  assert (0 ≤ m) by (subst m; destruct (_ <? _); lia).
  replace (Z.to_nat (1 + m)) with (S (Z.to_nat m)) by lia. cbn [memcmp].
  by destruct (x <? y); [|destruct (y <? x)].
Qed.
Lemma compare_lex a : ∀ b, (compare_set_of_element a b <=? 0) = true ↔ lex_le a b.
Proof.
  induction a as [|x a IH]; intros [|y b]; try done.
  rewrite compare_cons. cbn [lex_le]. specialize (IH b).
  destruct (Z.ltb_spec x y); [split; [by left|done]|]. destruct (Z.ltb_spec y x); [split; [done|intros [?|[? _]]; lia]|].
  rewrite IH. split; [right; split; [lia|done]|intros [?|[_ ?]]; [lia|done]].
Qed.
Lemma lex_le_total a : ∀ b, lex_le a b ∨ lex_le b a.
Proof.
  induction a as [|x a IH]; intros [|y b]; cbn; auto. destruct (IH b); destruct (Z.lt_total x y) as [|[|]]; auto.
Qed.
Lemma lex_le_antisym a : ∀ b, lex_le a b → lex_le b a → a = b.
Proof.
  induction a as [|x a IH]; intros [|y b]; cbn; try done. intros [?|[-> ?]] [?|[? ?]]; try lia. f_equal. auto.
Qed.
Lemma lex_le_trans a : ∀ b c, lex_le a b → lex_le b c → lex_le a c.
Proof.
  induction a as [|x a IH]; intros [|y b] [|z c]; cbn; try done.
  intros [?|[-> ?]] [?|[-> ?]]; [left; lia|by left|by left|right; eauto].
Qed.

Lemma qsort_insert_perm x l : Permutation (x :: l) (qsort_insert compare_set_of_element x l).
Proof.
  induction l as [|y l IH]; [done|]. cbn. destruct (_ <=? 0); [done|]. rewrite <- IH. constructor.
Qed.
Lemma qsort_perm l : Permutation l (qsort compare_set_of_element l).
Proof. induction l as [|x l IH]; [done|]. cbn. by rewrite <- qsort_insert_perm, <- IH. Qed.
Lemma qsort_insert_sorted x l : StronglySorted lex_le l → StronglySorted lex_le (qsort_insert compare_set_of_element x l).
Proof.
  induction 1 as [|y l Hl IH Hy]; cbn; [by repeat constructor|].
  destruct (compare_set_of_element x y <=? 0) eqn:E.
  - apply compare_lex in E. constructor; [by constructor|]. constructor; [done|].
    eapply Forall_impl; [exact Hy|]. intros z Hz. by eapply lex_le_trans.
  - assert (lex_le y x) as Hyx.
    { destruct (lex_le_total x y) as [Hxy|]; [|done]. apply compare_lex in Hxy. congruence. }
    constructor; [exact IH|]. rewrite <- qsort_insert_perm. by constructor.
Qed.
Lemma qsort_sorted l : StronglySorted lex_le (qsort compare_set_of_element l).
Proof. induction l; cbn; [constructor|by apply qsort_insert_sorted]. Qed.

(** ** Functional correctness *)

Definition is_der (x : bytes) : Prop := ∃ tag d, is_u32 tag ∧ zlen d < 2 ^ 32 ∧ x = der tag d.

Lemma is_der_length x : is_der x → (2 ≤ length x)%nat.
Proof.
  intros (tag & d & Ht & Hd & ->). pose proof (zlen_der_tag tag Ht). pose proof (zlen_nonneg d).
  pose proof (zlen_der_length (zlen d) ltac:(lia)). unfold der, der_header. unfold zlen in *. rewrite !length_app. lia.
Qed.

Lemma children_complete els : ∀ fuel, Forall is_der els → (length (concat els) ≤ fuel)%nat →
  set_of_children fuel (concat els) = Some els.
Proof.
  induction els as [|x els IH]; intros fuel Hx Hf; [by destruct fuel|].
  apply Forall_cons in Hx as [Hx Hels]. pose proof (is_der_length x Hx) as Hl. cbn [concat] in *.
  rewrite length_app in Hf. destruct fuel as [|fuel]; [lia|]. cbn [set_of_children].
  destruct (Z.eqb_spec (CBS_len (x ++ concat els)) 0) as [Hz|_].
  { unfold CBS_len, zlen in Hz. rewrite length_app in Hz. lia. }
  destruct Hx as (tag & d & Ht & Hd & ->). unfold CBS_get_any_asn1_element.
  rewrite any_element_complete by done. by rewrite IH by (done || lia).
Qed.
Lemma children_sound fuel : ∀ c els, bytes_ok c → set_of_children fuel c = Some els → c = concat els ∧ Forall is_der els.
Proof.
  induction fuel as [|fuel IH]; intros c els Hc; cbn [set_of_children];
    (destruct (Z.eqb_spec (CBS_len c) 0) as [Hz|_]; [destruct c; [by intros [= <-]|done]|]); [done|].
  destruct (CBS_get_any_asn1_element c) as [[e|] rest] eqn:E; [|done].
  pose proof (der_mode_not_ber _ _ _ E) as Hb. apply any_element_sound in E as (d & -> & Ht & Hd & ->); [|done|done].
  apply bytes_ok_app in Hc as [_ Hc]. destruct (set_of_children fuel rest) as [els'|] eqn:E'; [|done].
  intros [= <-]. apply IH in E' as [-> Hels]; [|done]. split; [done|]. constructor; [|done]. eexists _, d. done.
Qed.

Lemma add_children_extends p els : Forall (λ x, zlen x < 2 ^ 64) els → extends (add_children p els) p (concat els).
Proof.
  induction 1 as [|x els Hx _ IH]; [apply extends_ret|]. apply (extends_seq p _ _ x); [|exact IH].
  by apply appends_extends, add_bytes_op_spec.
Qed.

Lemma focus_data s p off pl asn isch pre e : focus s p off pl asn isch pre e [] → 0 ≤ off → 0 ≤ pl →
  CBB_len s p = zlen e ∧ take (Z.to_nat (zlen e)) (CBB_data s p) = e.
Proof.
  intros ([Hp _] & Hc & _ & Hpre) Ho Hpl. pose proof (contents_bound s _ Hc) as Hbd.
  pose proof (buffer_len_contents s _ Hc) as Hlen. cbn [layout] in Hc, Hbd, Hlen. rewrite app_nil_r in Hc, Hbd, Hlen.
  unfold CBB_len, CBB_data. rewrite Hp, Hlen. cbn [offset pending_len_len]. rewrite zlen_app in *.
  pose proof (zlen_nonneg e). pose proof (zlen_nonneg pre). split; [rewrite wrap_small; word_lia|].
  destruct Hc as (b & t & -> & -> & _). rewrite <- Hpre, <- app_assoc, drop_app_zlen. apply take_app_zlen.
Qed.

(** Rewinding to the start of the object's contents. *)
Lemma rewind_focus s p off pl asn isch pre e : focus s p off pl asn isch pre e [] → 0 ≤ off → 0 ≤ pl →
  let s' := match buffer s with
    | Some b => set_buffer (Build_cbb_buffer (buf b) (u64 (offset (get_cbb s p) + pending_len_len (get_cbb s p)))
                              (cap b) (can_resize b) (error b)) s
    | None => s end in
  focus s' p off pl asn isch pre [] [] ∧ same_below s s' p ∧ room s' (zlen pre + zlen e).
Proof.
  intros Hf Ho Hpl. pose proof (contents_bound _ _ (proj1 (proj2 Hf))) as Hbd. rewrite zlen_app in Hbd.
  pose proof (zlen_nonneg (e ++ layout [])). pose proof (zlen_nonneg pre).
  destruct Hf as ([Hp _] & (b & t & Hb & Hbuf & Hl & Hcap & Hlt & He) & Hd & Hpre).
  cbn [layout] in *. rewrite app_nil_r in *. rewrite Hb. cbv zeta. split; [|split; [done|]].
  - split; [by split|]. split; [|done]. eexists _, (e ++ t). split; [done|]. cbn [buf b_len cap error layout].
    rewrite app_nil_r. split_and!; [by rewrite app_assoc| |by rewrite app_assoc|done|done].
    rewrite Hp. cbn. rewrite wrap_small; word_lia.
  - eexists. split; [done|left]. cbn. rewrite Hcap, !zlen_app. pose proof (zlen_nonneg t). lia.
Qed.

(** C15: [CBB_flush_asn1_set_of] sorts a SET OF.  On success everything opened below the object
    was closed, its contents were a sequence of DER elements, and they are now the same elements
    in ascending lexicographic order; the rest of the buffer and the enclosing objects are
    unchanged.  It succeeds on every such contents when memory suffices. *)
Theorem CBB_flush_asn1_set_of_sorts s p off pl asn isch pre c fs :
  focus s p off pl asn isch pre c fs → 0 ≤ off → 0 ≤ pl → (∀ e, close c fs = Some e → bytes_ok e) →
  match CBB_flush_asn1_set_of p s with
  | (Some _, s') => ∃ els els', close c fs = Some (concat els) ∧ Forall is_der els ∧
      Permutation els els' ∧ StronglySorted lex_le els' ∧
      focus s' p off pl asn isch pre (concat els') [] ∧ same_below s s' p
  | (None, _) => ∀ els, close c fs = Some (concat els) → Forall is_der els →
      ¬ (room s (zlen pre + zlen (concat els)) ∧ zlen (concat els) < 2 ^ 60 ∧ ∀ n, malloc_ok n = true)
  end.
Proof.
  intros Hf Ho Hpl Hok. unfold CBB_flush_asn1_set_of. pose proof (flush_op s p off pl asn isch pre c fs Hf) as Hr.
  unfold runs in Hr. unfold mbind at 1, st_bind at 1. destruct (CBB_flush p s) as [[[]|] s1].
  2:{ destruct Hr as (_ & _ & Hn). intros els He Hels (Hroom & _). apply Hn. eauto. }
  destruct Hr as (Hg & e & He & Hf1 & Hs1). specialize (Hok e He).
  destruct (focus_data s1 p off pl asn isch pre e Hf1 Ho Hpl) as [Hlen Hdata].
  unfold mbind at 1, st_bind at 1, st_get at 1. cbv beta zeta. rewrite Hlen, Hdata.
  destruct (set_of_children (length e) e) as [els|] eqn:Hch.
  2:{ intros els He' Hels _. rewrite He in He'. injection He' as ->. by rewrite children_complete in Hch by done. }
  destruct (children_sound _ _ _ Hok Hch) as [-> Hels].
  destruct (Z.ltb_spec (zlen els) 2) as [H2|H2].
  { exists els, els. split_and!; try done. destruct els as [|x [|y els]]; [constructor|by repeat constructor|].
    rewrite !zlen_cons in H2. pose proof (zlen_nonneg els). lia. }
  assert (zlen els ≤ zlen (concat els)) as Hnum.
  { clear -Hels. induction Hels as [|x els Hx _ IH]; [done|]. cbn [concat]. rewrite zlen_cons, zlen_app.
    pose proof (is_der_length x Hx). unfold zlen at 2. lia. }
  assert (∀ els', close c fs = Some (concat els') → concat els' = concat els) as Hsame by congruence.
  change ((2 ^ 64 - 1) / sizeof_CBS) with 1152921504606846975. change (2 ^ 60) with 1152921504606846976.
  destruct (Z.ltb_spec 1152921504606846975 (zlen els)).
  { intros els' He' _ (_ & Hsz & _). rewrite (Hsame els' He') in Hsz. lia. }
  unfold st_assert, mbind at 1, st_bind at 1. destruct (malloc_ok (zlen (concat els)) && malloc_ok (zlen els * sizeof_CBS)) eqn:Hm.
  2:{ intros els' _ _ (_ & _ & Hall). by rewrite !Hall in Hm. }
  set (els' := qsort compare_set_of_element els).
  assert (Forall (λ x, zlen x < 2 ^ 64) els') as Hel.
  { unfold els'. rewrite <- qsort_perm. eapply Forall_impl; [exact Hels|]. cbn. intros x (t & d & Ht & Hd & ->).
    pose proof (zlen_der_tag t Ht). pose proof (zlen_nonneg d). pose proof (zlen_der_length (zlen d) ltac:(lia)).
    unfold der, der_header. rewrite !zlen_app. word_lia. }
  destruct (rewind_focus s1 p off pl asn isch pre (concat els) Hf1 Ho Hpl) as (Hf2 & Hs2 & Hroom2).
  unfold mbind, st_bind, st_modify. set (s2 := match buffer s1 with Some _ => _ | None => _ end) in *.
  pose proof (add_children_extends p els' Hel s2 off pl asn isch pre [] Hf2) as Hr. unfold runs in Hr.
  assert (zlen (concat els') = zlen (concat els)) as Hlen'.
  { unfold zlen. f_equal. clear. assert (∀ l l' : list bytes, Permutation l l' → length (concat l') = length (concat l)) as Hp.
    { induction 1; cbn; rewrite ?length_app; lia. } apply Hp, qsort_perm. }
  destruct (add_children p els' s2) as [[[]|] s3].
  - destruct Hr as (_ & [Hf3 Hs3] & _). exists els, els'. split_and!; try done; [apply qsort_perm|apply qsort_sorted|].
    intros q Hq. by rewrite Hs3, Hs2, Hs1.
  - destruct Hr as (_ & _ & Hn). exfalso. apply Hn. cbn [app]. by rewrite Hlen'.
Qed.

(** ** [CBB_finish_i2d] *)

(** The same objects are children in [s0] and [s]; a call changes nothing of that. *)
Definition children_like (s0 s : store) : Prop := ∀ p, is_child (get_cbb s p) = is_child (get_cbb s0 p).
Class KeepsChildren (s0 : store) {A} (m : CBB_M A) :=
  keeps_children : ∀ s, children_like s0 s → children_like s0 (snd (m s)).

Section Keeps.
Context (s0 : store).
#[local] Instance keeps_ret {A} (a : A) : KeepsChildren s0 (mret a).
Proof. by intros s Hs. Qed.
#[local] Instance keeps_get : KeepsChildren s0 (@st_get store).
Proof. by intros s Hs. Qed.
#[local] Instance keeps_error {A} : KeepsChildren s0 (@cbb_error A).
Proof. intros s Hs p. unfold cbb_error. specialize (Hs p). by destruct (buffer s). Qed.
#[local] Instance keeps_write i d : KeepsChildren s0 (write_buf i d).
Proof. intros s Hs p. unfold write_buf. specialize (Hs p). by destruct (buffer s). Qed.
#[local] Instance keeps_bind {A B} (m : CBB_M A) (f : A → CBB_M B) :
  KeepsChildren s0 m → (∀ a, KeepsChildren s0 (f a)) → KeepsChildren s0 (m ≫= f).
Proof.
  intros Hm Hf s Hs. specialize (Hm s Hs). unfold mbind, st_bind.
  destruct (m s) as [[a|] s']; [by apply (Hf a)|done].
Qed.
Lemma keeps_set c q s : children_like s0 s → is_child q = is_child (get_cbb s0 c) → children_like s0 (set_cbb c q s).
Proof.
  intros Hs Hq p. specialize (Hs p). unfold get_cbb, set_cbb in *. cbn. destruct (decide (c = p)) as [->|].
  - by rewrite lookup_insert_eq.
  - by rewrite lookup_insert_ne.
Qed.
#[local] Instance keeps_add n : KeepsChildren s0 (cbb_buffer_add n).
Proof.
  apply keeps_bind; [intros s Hs; unfold cbb_buffer_reserve; cbv zeta; repeat case_match; (done || by apply keeps_error)|].
  intros a. apply keeps_bind; [|intros []; apply _]. intros s Hs p. specialize (Hs p).
  unfold st_modify. cbn. by destruct (buffer s).
Qed.
#[local] Instance keeps_add_u n : ∀ out v, KeepsChildren s0 (add_u_loop n out v).
Proof. induction n as [|n IH]; intros out v; cbn [add_u_loop]; apply _. Qed.

Lemma keeps_flush_child p c : KeepsChildren s0 (flush_child p c).
Proof.
  intros s Hs. unfold flush_child. destruct (_ || _); [by apply keeps_error|].
  match goal with |- children_like s0 (snd (?m s)) => assert (KeepsChildren s0 m) as Hm; [|by apply Hm] end.
  apply keeps_bind; [repeat case_match; apply _|]. intros [[off pll] len].
  apply keeps_bind; [intros s' Hs'; apply keeps_set; [done|apply Hs]|]. intros _. apply keeps_bind; [apply _|]. intros l.
  destruct (negb _); [apply _|]. apply keeps_bind; intros; intros s' Hs'; (apply keeps_set; [done|apply Hs']).
Qed.

Lemma keeps_flush fuel : ∀ p, KeepsChildren s0 (flush_fuel fuel p).
Proof.
  induction fuel as [|fuel IH]; intros p s Hs; [done|]. cbn [flush_fuel].
  destruct (buffer s) as [b|]; [|done]. destruct (_ || _); [done|]. destruct (child _) as [c|]; [|done].
  destruct (_ =? 0); [done|]. pose proof (IH c s Hs) as Hc. destruct (flush_fuel fuel c s) as [[[]|] s1].
  - by apply keeps_flush_child.
  - by apply keeps_error.
Qed.
End Keeps.

(** [CBB_finish] on the root fails before it cleans up. *)
Lemma finish_keeps s p : is_child (get_cbb s p) = false →
  match CBB_finish p false false s with
  | (Some _, s') => base (get_cbb s' p) = false
  | (None, s') => is_child (get_cbb s' p) = false
  end.
Proof.
  intros Hp. unfold CBB_finish, st_get, st_assert, mbind, st_bind. cbv beta iota. rewrite Hp. cbn [negb].
  pose proof (keeps_flush s (S (size (cbbs s))) p s (λ _, eq_refl) p) as Hk.
  change (flush_fuel (S (size (cbbs s))) p s) with (CBB_flush p s) in Hk. rewrite Hp in Hk.
  destruct (CBB_flush p s) as [[[]|] s1]; [|done]. cbn [snd] in Hk.
  destruct (buffer s1) as [b|]; [|done]. rewrite andb_false_r. cbn [negb]. unfold CBB_cleanup. rewrite Hk.
  unfold get_cbb, set_cbb. cbn. by rewrite lookup_insert_eq.
Qed.

(** C16: [CBB_finish_i2d] on a builder with a buffer of its own follows the [i2d] convention.  On success
    it returns the length of the finished encoding, at most [INT_MAX]; the encoding is handed over in a new buffer, or written
    at [*outp], which then points just past it, with every other byte of the caller's array
    unchanged.  It returns -1 and leaves [*outp] alone only when there is no encoding, when
    memory runs out, or when the length does not fit an [int].  Either way no assertion fails and the builder is
    cleaned up. *)
Theorem CBB_finish_i2d_exact s b c fs outp : builds s (c, fs) → buffer s = Some b → can_resize b = true →
  ∃ n r s', CBB_finish_i2d 0%nat outp s = Some (n, r, s') ∧ base (get_cbb s' 0%nat) = false ∧
    ((n = -1 ∧ r = Unchanged ∧ ∀ out, close c fs = Some out → room s (zlen out) → INT_MAX < zlen out) ∨
     ∃ out, close c fs = Some out ∧ n = zlen out ∧ n ≤ INT_MAX ∧
       match outp, r with
       | OutNull, Unchanged => True
       | OutAlloc, Allocated der => ∃ rest, der = out ++ rest
       | OutInto dst pos, Written dst' pos' => pos' = pos + n ∧
           ∀ before old after, dst = before ++ old ++ after → zlen before = pos → zlen old = n →
             dst' = before ++ out ++ after
       | _, _ => False
       end).
Proof.
  intros Hb Hbuf Hres. pose proof (finish_spec s c fs Hb) as Hf. unfold CBB_finish_i2d.
  pose proof Hb as (Hch & _). cbn in Hch. pose proof (chain_get _ _ _ _ _ _ _ _ _ Hch) as Hp.
  pose proof (finish_keeps s 0%nat ltac:(by rewrite Hp)) as Hk.
  rewrite Hp, Hbuf. cbn [base mbind option_bind]. rewrite Hres. cbn [negb].
  destruct (CBB_finish 0%nat false false s) as [[[der len]|] s'].
  - destruct Hf as (out & b' & Hc & -> & Ht & _). destruct (Z.ltb_spec INT_MAX (zlen out)) as [Hi|Hi].
    + eexists _, _, _. split_and!; [done..|]. left. split_and!; [done..|]. intros out' Hc' _. congruence.
    + eexists _, _, _. split_and!; [done..|]. right. exists out. split_and!; [done..|]. destruct outp as [| |dst pos]; [done| |].
      * exists (drop (length out) der). rewrite <- Ht at 1. by rewrite take_drop.
      * split; [done|]. rewrite to_nat_zlen, Ht. intros before old after -> <- Hl.
        apply write_at_app. unfold zlen in Hl. lia.
  - rewrite Hk. eexists _, _, _. split; [done|]. split.
    + unfold CBB_cleanup. rewrite Hk. unfold get_cbb, set_cbb. cbn. by rewrite lookup_insert_eq.
    + left. split_and!; [done..|]. intros out Hc Hr. by destruct (Hf out Hc).
Qed.
End SetOf.

(** A buffer that holds NULL, INTEGER 2 and INTEGER 1, with four bytes to spare. *)
Definition set_of_contents : bytes := [5; 0; 2; 1; 2; 2; 1; 1].
Definition set_of_store : store :=
  {| buffer := Some (Build_cbb_buffer (set_of_contents ++ [9; 9; 9; 9]) 8 12 true false);
     cbbs := {[0%nat := Build_cbb true None 0 0 false false]} |}.
Lemma set_of_builds : builds set_of_store (set_of_contents, []).
Proof.
  split; [by vm_compute|]. split; [|split; [|done]].
  - eexists _, [9; 9; 9; 9]. split; [done|]. by vm_compute.
  - intros q Hq. unfold get_cbb, set_of_store. cbn [cbbs length] in *. rewrite lookup_singleton_ne by lia. done.
Qed.

Lemma CBB_flush_asn1_set_of_sorts_witness :
  match @CBB_flush_asn1_set_of demo_allocator 0%nat set_of_store with
  | (Some _, s') => ∃ els els', close set_of_contents [] = Some (concat els) ∧ Forall is_der els ∧
      Permutation els els' ∧ StronglySorted lex_le els' ∧
      focus s' 0 0 0 false false [] (concat els') [] ∧ same_below set_of_store s' 0
  | (None, _) => ∀ els, close set_of_contents [] = Some (concat els) → Forall is_der els →
      ¬ (@room demo_allocator set_of_store (zlen (@nil Z) + zlen (concat els)) ∧ zlen (concat els) < 2 ^ 60 ∧ ∀ n, @malloc_ok demo_allocator n = true)
  end.
Proof.
  apply (@CBB_flush_asn1_set_of_sorts demo_allocator set_of_store 0 0 0 false false [] set_of_contents [] set_of_builds); [done..|].
  intros e [= <-]. bytes_ok_tac.
Defined.
Lemma CBB_finish_i2d_exact_witness :
  ∃ n r s', @CBB_finish_i2d demo_allocator 0%nat (OutInto (replicate 10 7) 1) set_of_store = Some (n, r, s') ∧
    base (get_cbb s' 0%nat) = false ∧
    ((n = -1 ∧ r = Unchanged ∧ ∀ out, close set_of_contents [] = Some out → @room demo_allocator set_of_store (zlen out) → INT_MAX < zlen out) ∨
     ∃ out, close set_of_contents [] = Some out ∧ n = zlen out ∧ n ≤ INT_MAX ∧
       match OutInto (replicate 10 7) 1, r with
       | OutNull, Unchanged => True
       | OutAlloc, Allocated der => ∃ rest, der = out ++ rest
       | OutInto dst pos, Written dst' pos' => pos' = pos + n ∧
           ∀ before old after, dst = before ++ old ++ after → zlen before = pos → zlen old = n →
             dst' = before ++ out ++ after
       | _, _ => False
       end).
Proof. by eapply (@CBB_finish_i2d_exact demo_allocator set_of_store _ set_of_contents [] (OutInto (replicate 10 7) 1) set_of_builds). Defined.
