(* ===== verification/Ber.v ===== *)
(** * Converting BER to DER ([crypto/bytestring/ber.c]) *)
From S2P Require Export Builder.

Definition kMaxDepth : Z := 2048.

Definition is_string_type (tag : Z) : bool :=
  let t := Z.ldiff tag CBS_ASN1_CONSTRUCTED in
  (t =? CBS_ASN1_OCTETSTRING) || (t =? CBS_ASN1_UTF8STRING) || (t =? CBS_ASN1_NUMERICSTRING) ||
  (t =? CBS_ASN1_PRINTABLESTRING) || (t =? CBS_ASN1_T61STRING) || (t =? CBS_ASN1_VIDEOTEXSTRING) ||
  (t =? CBS_ASN1_IA5STRING) || (t =? CBS_ASN1_GRAPHICSTRING) || (t =? CBS_ASN1_VISIBLESTRING) ||
  (t =? CBS_ASN1_GENERALSTRING) || (t =? CBS_ASN1_UNIVERSALSTRING) || (t =? CBS_ASN1_BMPSTRING).
Definition constructed (tag : Z) : bool := negb (tag .& CBS_ASN1_CONSTRUCTED =? 0).

(** The walk of [cbs_find_ber]: one round of its [while] loop per call, [ber_found] being the
    current value of [*ber_found].  Both the loop and the recursion consume input, so the length
    of the input is enough [fuel]; [None] is the zero return. *)
Fixpoint find_ber_loop (fuel : nat) (depth : Z) (ber_found : bool) (c : cbs) : option bool :=
  if CBS_len c =? 0 then Some ber_found
  else match fuel with
  | O => None
  | S fuel =>
      match CBS_get_any_ber_asn1_element c with
      | (None, _) => None
      | (Some e, c) =>
          if el_ber_found e then Some true
          else if constructed (el_tag e) then
            if is_string_type (el_tag e) then Some true
            else
              match CBS_skip (el_header_len e) (el_out e) with
              | (None, _) => None
              | (Some _, contents) =>
                  if kMaxDepth <? depth + 1 then None
                  else ber_found ← find_ber_loop fuel (depth + 1) false contents;
                       find_ber_loop fuel depth ber_found c
              end
          else find_ber_loop fuel depth false c
      end
  end.
Definition cbs_find_ber (orig_in : cbs) (depth : Z) : option bool :=
  if kMaxDepth <? depth then None else find_ber_loop (length orig_in) depth false orig_in.

Definition is_eoc (header_len : Z) (contents : cbs) : bool :=
  (header_len =? 2) && (CBS_len contents =? 2) && bool_decide (contents = [0; 0]).

Section Ber.
Context `{Allocator}.

(** Where the contents of the element read go, and the [string_tag] of its children. *)
Definition open_contents (out : loc) (string_tag tag : Z) : CBB_M (loc * Z) :=
  if negb (string_tag =? 0) then
    st_assert (Z.ldiff tag CBS_ASN1_CONSTRUCTED =? string_tag);;
    mret (out, string_tag)
  else
    let '(out_tag, child_string_tag) :=
      if constructed tag && is_string_type tag
      then (Z.ldiff tag CBS_ASN1_CONSTRUCTED, Z.ldiff tag CBS_ASN1_CONSTRUCTED)
      else (tag, string_tag) in
    CBB_add_asn1 out (S out) out_tag;;
    mret (S out, child_string_tag).

(** [cbs_convert_ber]: a round of the [while] loop per call, which leaves the test of the depth
    unchanged; the result is what is left of [in].  The local [out_contents_storage] of the call
    that writes to [out] has the address [S out]. *)
Fixpoint cbs_convert_ber (fuel : nat) (in_ : cbs) (out : loc) (string_tag : Z) (looking_for_eoc : bool)
    (depth : Z) : CBB_M cbs :=
  if kMaxDepth <? depth then st_fail
  else if CBS_len in_ =? 0 then (if looking_for_eoc then st_fail else mret in_)
  else match fuel with
  | O => st_fail
  | S fuel =>
      match CBS_get_any_ber_asn1_element in_ with
      | (None, _) => st_fail
      | (Some e, in_) =>
          let contents := el_out e in
          let tag := el_tag e in
          let header_len := el_header_len e in
          if is_eoc header_len contents then (if looking_for_eoc then mret in_ else st_fail)
          else
            r ← open_contents out string_tag tag;
            let '(out_contents, child_string_tag) := r in
            if (CBS_len contents =? header_len) && (0 <? header_len) &&
               (nth (Z.to_nat (header_len - 1)) contents 0 =? 0x80)
            then
              in_ ← cbs_convert_ber fuel in_ out_contents child_string_tag true (depth + 1);
              CBB_flush out;;
              cbs_convert_ber fuel in_ out string_tag looking_for_eoc depth
            else
              match CBS_skip header_len contents with
              | (None, _) => st_fail
              | (Some _, contents) =>
                  (if constructed tag then
                     _ ← cbs_convert_ber fuel contents out_contents child_string_tag false (depth + 1); mret tt
                   else CBB_add_bytes out_contents contents);;
                  CBB_flush out;;
                  cbs_convert_ber fuel in_ out string_tag looking_for_eoc depth
              end
      end
  end.

(** [(out, out_storage)]: [out_storage] is [None] when nothing was allocated. *)
Definition CBS_asn1_ber_to_der : CBS_M (cbs * option bytes) := λ in_,
  match cbs_find_ber in_ 0 with
  | None => (None, in_)
  | Some false =>
      (e ← CBS_get_any_asn1_element; mret (el_out e, None)) in_
  | Some true =>
      match (CBB_init 0%nat (CBS_len in_);;
             rest ← cbs_convert_ber (length in_) in_ 0%nat 0 false 0;
             r ← CBB_finish 0%nat false false;
             mret (rest, r)) empty_store with
      | (Some (rest, (data, len)), _) => (Some (take (Z.to_nat len) data, Some data), rest)
      | (None, _) => (None, in_)
      end
  end.

(** The loop of [CBS_get_asn1_implicit_string]; every chunk is at least two bytes long. *)
Fixpoint implicit_string_loop (fuel : nat) (child : cbs) (inner_tag : Z) : CBB_M unit :=
  if CBS_len child =? 0 then mret tt
  else match fuel with
  | O => st_fail
  | S fuel =>
      match CBS_get_asn1 inner_tag child with
      | (None, _) => st_fail
      | (Some chunk, child) => CBB_add_bytes 0%nat chunk;; implicit_string_loop fuel child inner_tag
      end
  end.
Definition CBS_get_asn1_implicit_string (outer_tag inner_tag : Z) : CBS_M (cbs * option bytes) := λ in_,
  if CBS_peek_asn1_tag in_ outer_tag then
    (out ← CBS_get_asn1 outer_tag; mret (out, None)) in_
  else
    match CBB_init 0%nat (CBS_len in_) empty_store with
    | (None, _) => (None, in_)
    | (Some _, s) =>
        match CBS_get_asn1 (outer_tag .| CBS_ASN1_CONSTRUCTED) in_ with
        | (None, in_) => (None, in_)
        | (Some child, in_) =>
            match (implicit_string_loop (length child) child inner_tag;; CBB_finish 0%nat false false) s with
            | (Some (data, len), _) => (Some (take (Z.to_nat len) data, Some data), in_)
            | (None, _) => (None, in_)
            end
        end
    end.
End Ber.

(** ** The length of the input is enough fuel

    Whatever the input is: the element read is not empty, its contents are shorter than it, and what the
    conversion leaves is no longer than what it was given, so no fuel beyond the length of the
    input changes anything. *)
Lemma get_ber_element_shrinks c e rest : bytes_ok c → CBS_get_any_ber_asn1_element c = (Some e, rest) →
  c = el_out e ++ rest ∧ 1 ≤ el_header_len e ∧ (1 ≤ length (el_out e))%nat.
Proof.
  unfold CBS_get_any_ber_asn1_element, cbs_get_any_asn1_element. intros Hok He.
  destruct (parse_asn1_tag c) as [[tag|] header] eqn:Etag; [|done].
  apply parse_asn1_tag_sound in Etag as [Ht ->]; [|done]. apply bytes_ok_app in Hok as [_ Hok].
  destruct (CBS_get_u8 header) as [[b|] header'] eqn:Eb; [|done]. apply get_u8_inv in Eb as ->.
  apply bytes_ok_cons in Hok as [Hb Hok]. unfold CBS_len in He.
  pose proof (zlen_der_tag tag Ht) as Htl. rewrite bit7_clear, land_7f in He by done.
  assert (zlen (der_tag tag ++ b :: header') - zlen header' = zlen (der_tag tag) + 1) as Hh
    by (autorewrite with bytesdb; lia).
  rewrite Hh in He. set (in_ := der_tag tag ++ b :: header') in *. clearbody in_.
  assert (∀ n h f, 1 ≤ n → 1 ≤ h → (out ← CBS_get_bytes n; mret (Build_element out tag h f)) in_ = (Some e, rest) →
    in_ = el_out e ++ rest ∧ 1 ≤ el_header_len e ∧ (1 ≤ length (el_out e))%nat) as Hget.
  { intros n h f Hn Hh1 Hg. apply bind_inv in Hg as (out & c1 & Hout & Hg). apply ret_inv in Hg as [<- ->].
    apply cbs_get_inv in Hout as [-> Hlen]. cbn [el_out el_header_len]. unfold zlen in Hlen. split_and!; [done|done|lia]. }
  case_bool_decide as Hs; [apply Hget in He; [done|rewrite wrap_small; word_lia|lia]|].
  destruct (_ && _ && _); [apply Hget in He; [done|lia|lia]|].
  destruct (_ || (4 <? _)) eqn:Ek; [done|]. apply orb_false_iff in Ek as [Ek0 Ek4].
  destruct (cbs_get_u _ header') as [[n|] header''] eqn:Eu; [|done].
  assert (0 < b mod 128 ≤ 4) as Hk by word_lia.
  apply cbs_get_u_inv in Eu as (d & -> & Hd & -> & Hdok); [|done|lia].
  pose proof (be_val_bound d Hdok) as Hn. rewrite Hd in Hn.
  assert (256 ^ (b mod 128) ≤ 256 ^ 4) by (apply Z.pow_le_mono_r; lia). change (256 ^ 4) with 4294967296 in *.
  cbn [negb andb] in He. destruct (_ <? be_val d); [done|]. apply Hget in He; [done|rewrite wrap_small; word_lia|lia].
Qed.

Lemma find_ber_fuel f1 : ∀ f2 depth flag c, bytes_ok c → (length c ≤ f1)%nat → (length c ≤ f2)%nat →
  find_ber_loop f1 depth flag c = find_ber_loop f2 depth flag c.
Proof.
  induction f1 as [|f1 IH]; intros [|f2] depth flag c Hc H1 H2; try (by destruct c; [|cbn in *; lia]).
  cbn [find_ber_loop]. destruct (_ =? 0); [done|].
  destruct (CBS_get_any_ber_asn1_element c) as [[e|] rest] eqn:E; [|done].
  apply get_ber_element_shrinks in E as (-> & Hh & Hl); [|done]. rewrite length_app in H1, H2.
  apply bytes_ok_app in Hc as [Ho Hr]. assert (∀ g, find_ber_loop f1 depth g rest = find_ber_loop f2 depth g rest) as Hmore
    by (intros g; apply IH; (done || lia)).
  destruct (el_ber_found e), (constructed (el_tag e)), (is_string_type (el_tag e)); try done.
  rewrite cbs_get_skip. destruct (cbs_get (el_header_len e) (el_out e)) as [[hd|] contents] eqn:Eg; [|done].
  apply cbs_get_inv in Eg as [Eg Hd]. cbn [fst snd mbind option_bind].
  rewrite Eg in Ho, H1, H2. rewrite length_app in H1, H2. apply bytes_ok_app in Ho as [_ Ho]. unfold zlen in Hd.
  rewrite (IH f2) by (done || lia). destruct (kMaxDepth <? depth + 1); [done|].
  destruct (find_ber_loop f2 _ _ contents); [apply Hmore|done].
Qed.

Lemma convert_fuel `{Allocator} f1 : ∀ f2 in_ p st looking d s, bytes_ok in_ →
  (length in_ ≤ f1)%nat → (length in_ ≤ f2)%nat →
  cbs_convert_ber f1 in_ p st looking d s = cbs_convert_ber f2 in_ p st looking d s ∧
  ∀ z s', cbs_convert_ber f2 in_ p st looking d s = (Some z, s') → z `suffix_of` in_.
Proof.
  induction f1 as [|f1 IH]; intros [|f2] in_ p st looking d s Hc H1 H2;
    try (destruct in_; [|cbn in *; lia]; split; [done|]; cbn [cbs_convert_ber];
         destruct (_ <? d); [done|]; by destruct looking; [|intros z s' [= <- _]]).
  cbn [cbs_convert_ber]. destruct (_ <? d); [done|]. destruct (CBS_len in_ =? 0).
  { split; [done|]. by destruct looking; [|intros z s' [= <- _]]. }
  destruct (CBS_get_any_ber_asn1_element in_) as [[e|] rest] eqn:E; [|done].
  apply get_ber_element_shrinks in E as (-> & Hh & Hl); [|done]. rewrite length_app in H1, H2.
  apply bytes_ok_app in Hc as [Ho Hr].
  assert (rest `suffix_of` el_out e ++ rest) as Hsuf by by eexists.
  assert (∀ z q ct l d s, z `suffix_of` rest → cbs_convert_ber f1 z q ct l d s = cbs_convert_ber f2 z q ct l d s ∧
    ∀ z' s', cbs_convert_ber f2 z q ct l d s = (Some z', s') → z' `suffix_of` rest) as Hmore.
  { intros z q ct l d' s' Hz. assert (bytes_ok z) by (destruct Hz as [? ->]; by apply bytes_ok_app in Hr as [_ ?]).
    pose proof (suffix_length _ _ Hz). destruct (IH f2 z q ct l d' s') as [-> Hx]; [done|lia|lia|].
    split; [done|]. intros z' s2 Hz'. etrans; [by eapply Hx|done]. }
  destruct (is_eoc _ _). { split; [done|]. destruct looking; [by intros z s' [= <- _]|done]. }
  unfold mbind, st_bind. destruct (open_contents p st (el_tag e) s) as [[[q ct]|] s1]; [|done].
  destruct (_ && _ && _).
  - destruct (Hmore rest q ct true (d + 1) s1) as [-> Hx]; [done|].
    destruct (cbs_convert_ber f2 rest q ct true (d + 1) s1) as [[z|] s2]; [|done]. specialize (Hx z s2 eq_refl).
    destruct (CBB_flush p s2) as [[[]|] s3]; [|done]. destruct (Hmore z p st looking d s3 Hx) as [-> Hy].
    split; [done|]. intros z' s' Hz'. etrans; [by eapply Hy|done].
  - rewrite cbs_get_skip. destruct (cbs_get (el_header_len e) (el_out e)) as [[hd|] contents] eqn:Eg; [|done].
    apply cbs_get_inv in Eg as [Eg Hd]. cbn [fst snd mbind option_bind].
    assert (bytes_ok contents) by (rewrite Eg in Ho; by apply bytes_ok_app in Ho as [_ ?]).
    assert (length contents < length (el_out e))%nat by (rewrite Eg, length_app; unfold zlen in Hd; lia).
    assert (∀ s, cbs_convert_ber f1 contents q ct false (d + 1) s = cbs_convert_ber f2 contents q ct false (d + 1) s) as Hin
      by (intros s2; by destruct (IH f2 contents q ct false (d + 1) s2) as [-> _]; [done|lia|lia|]).
    assert (∀ k : CBB_M unit, (match k s1 with (Some _, s2) => match CBB_flush p s2 with
        (Some _, s3) => cbs_convert_ber f1 rest p st looking d s3 | (None, s3) => (None, s3) end | (None, s2) => (None, s2) end) =
      (match k s1 with (Some _, s2) => match CBB_flush p s2 with
        (Some _, s3) => cbs_convert_ber f2 rest p st looking d s3 | (None, s3) => (None, s3) end | (None, s2) => (None, s2) end) ∧
      ∀ z s', (match k s1 with (Some _, s2) => match CBB_flush p s2 with
        (Some _, s3) => cbs_convert_ber f2 rest p st looking d s3 | (None, s3) => (None, s3) end | (None, s2) => (None, s2) end) =
        (Some z, s') → z `suffix_of` el_out e ++ rest) as Hk.
    { intros k. destruct (k s1) as [[[]|] s2]; [|done]. destruct (CBB_flush p s2) as [[[]|] s3]; [|done].
      destruct (Hmore rest p st looking d s3) as [-> Hy]; [done|]. split; [done|]. intros z' s' Hz'.
      etrans; [by eapply Hy|done]. }
    destruct (constructed (el_tag e)).
    + rewrite Hin. apply (Hk (λ s, match cbs_convert_ber f2 contents q ct false (d + 1) s with
        (Some _, s2) => (Some tt, s2) | (None, s2) => (None, s2) end)).
    + apply (Hk (CBB_add_bytes q contents)).
Qed.

(** ** A nested indefinite-length element is overlooked when a sibling follows it

    SEQUENCE { SEQUENCE { SEQUENCE (indefinite length) {} }, NULL }: the recursive call finds BER,
    but the next round of the loop overwrites the flag, so the input is returned as if it were DER. *)
Definition overlooked : bytes := [0x30; 8; 0x30; 4; 0x30; 0x80; 0; 0; 5; 0].

(** A nested indefinite-length element is overlooked when its parent has a following sibling:
    the walk reports no BER and the conversion hands the input back unchanged, although the inner
    element, read by itself, is reported as BER. *)
Lemma overlooked_ber `{Allocator} :
  cbs_find_ber overlooked 0 = Some false ∧ fst (CBS_asn1_ber_to_der overlooked) = Some (overlooked, None) ∧
  (∃ e rest, CBS_get_any_ber_asn1_element (drop 4 overlooked) = (Some e, rest) ∧ el_ber_found e = true).
Proof. split; [by vm_compute|]. split; [by vm_compute|]. eexists _, _. split; [by vm_compute|done]. Qed.

(** ** BER values *)

(** The form of the length octets. *)
Inductive len_form := Minimal | Padded (n : nat) | Indefinite.
#[export] Instance len_form_eq_dec : EqDecision len_form.
Proof. solve_decision. Defined.
Inductive ber := BPrim (f : len_form) (tag : Z) (c : bytes) | BNode (f : len_form) (tag : Z) (kids : list ber).

Definition ber_element (f : len_form) (tag : Z) (c : bytes) : bytes :=
  match f with
  | Minimal => der tag c
  | Padded n => der_tag tag ++ (128 + Z.of_nat n :: be_bytes n (zlen c)) ++ c
  | Indefinite => der_tag tag ++ [128] ++ c ++ [0; 0]
  end.
Fixpoint ber_enc (t : ber) : bytes :=
  match t with
  | BPrim f tag c => ber_element f tag c
  | BNode f tag kids => ber_element f tag (concat (map ber_enc kids))
  end.

(** Inside a constructed string ([string_tag ≠ 0]) the fragments are concatenated; a constructed
    string becomes a primitive one; everything else keeps its structure with minimal lengths. *)
Definition child_string_tag (string_tag tag : Z) : Z :=
  if decide (string_tag = 0) then (if is_string_type tag then Z.ldiff tag CBS_ASN1_CONSTRUCTED else 0) else string_tag.
Definition out_tag (tag : Z) : Z := if is_string_type tag then Z.ldiff tag CBS_ASN1_CONSTRUCTED else tag.
Fixpoint ber_conv (string_tag : Z) (t : ber) : bytes :=
  match t with
  | BPrim _ tag c => if decide (string_tag = 0) then der tag c else c
  | BNode _ tag kids =>
      let body := concat (map (ber_conv (child_string_tag string_tag tag)) kids) in
      if decide (string_tag = 0) then der (out_tag tag) body else body
  end.

Definition form_ok (f : len_form) (n : Z) : Prop :=
  match f with
  | Minimal => n < 2 ^ 32
  | Padded k => (1 ≤ k ≤ 4)%nat ∧ n < 256 ^ Z.of_nat k
  | Indefinite => True
  end.

(** The length octets are not the minimal ones. *)
Definition nonminimal (f : len_form) (n : Z) : bool :=
  match f with
  | Minimal => false
  | Padded k => (n <? 128) || (n >>> ((Z.of_nat k - 1) * 8) =? 0)
  | Indefinite => true
  end.

(** Well-formed values at recursion depth [d] inside a string of type [string_tag]. *)
Inductive ber_ok : Z → Z → ber → Prop :=
  | ok_prim st d f tag c : is_u32 tag → tag ≠ 0 → constructed tag = false → f ≠ Indefinite →
      form_ok f (zlen c) → zlen c ≤ 0xfffffffe → (st ≠ 0 → tag = st) → ber_ok st d (BPrim f tag c)
  | ok_node st d f tag kids : is_u32 tag → constructed tag = true →
      form_ok f (zlen (concat (map ber_enc kids))) → d + 1 ≤ kMaxDepth →
      (st ≠ 0 → Z.ldiff tag CBS_ASN1_CONSTRUCTED = st) →
      (st = 0 → zlen (concat (map (ber_conv (child_string_tag st tag)) kids)) ≤ 0xfffffffe) →
      Forall (ber_ok (child_string_tag st tag) (d + 1)) kids → ber_ok st d (BNode f tag kids).

(** ** Reading one BER element *)

Lemma padded_element n tag c rest : is_u32 tag → (1 ≤ n ≤ 4)%nat → zlen c < 256 ^ Z.of_nat n →
  CBS_get_any_ber_asn1_element (ber_element (Padded n) tag c ++ rest) =
    (Some (Build_element (ber_element (Padded n) tag c) tag (zlen (der_tag tag) + 1 + Z.of_nat n)
             ((zlen c <? 128) || (zlen c >>> ((Z.of_nat n - 1) * 8) =? 0))), rest).
Proof.
  intros Ht Hn Hc. pose proof (zlen_nonneg c). pose proof (zlen_der_tag tag Ht).
  assert (256 ^ Z.of_nat n ≤ 2 ^ 32).
  { change (2 ^ 32) with (256 ^ 4). apply Z.pow_le_mono_r; lia. }
  assert (zlen (ber_element (Padded n) tag c) = zlen (der_tag tag) + 1 + Z.of_nat n + zlen c) as Hlen.
  { cbn [ber_element]. autorewrite with bytesdb. rewrite zlen_be_bytes. lia. }
  assert (∀ m, m = zlen (ber_element (Padded n) tag c) → CBS_get_bytes m (ber_element (Padded n) tag c ++ rest) =
    (Some (ber_element (Padded n) tag c), rest)) as Hget by (intros m ->; apply cbs_get_app).
  rewrite Hlen in Hget. unfold CBS_get_any_ber_asn1_element, cbs_get_any_asn1_element, CBS_len.
  assert (parse_asn1_tag (ber_element (Padded n) tag c ++ rest) =
    (Some tag, 128 + Z.of_nat n :: be_bytes n (zlen c) ++ c ++ rest)) as ->.
  { cbn [ber_element]. rewrite <- !app_assoc. cbn [app]. by apply parse_asn1_tag_complete. }
  rewrite get_u8_cons, zlen_app, Hlen. set (E := ber_element _ _ _) in *. clearbody E.
  rewrite bit7_clear by word_lia. rewrite bool_decide_eq_false_2 by lia.
  rewrite land_7f. replace ((128 + Z.of_nat n) mod 128) with (Z.of_nat n) by lia.
  rewrite (proj2 (Z.eqb_neq (Z.of_nat n) 0)), andb_false_r by lia.
  rewrite (proj2 (Z.ltb_ge 4 (Z.of_nat n))) by lia. cbn [orb negb andb].
  rewrite cbs_get_u_bytes by lia. autorewrite with bytesdb. rewrite zlen_be_bytes. word_bounds.
  match goal with |- context [u64 (zlen c + ?h + Z.of_nat n)] => replace h with (zlen (der_tag tag) + 1) by lia end.
  rewrite wrap_small by word_lia. rewrite (proj2 (Z.ltb_ge _ (zlen c))) by lia.
  erewrite bind_some by (apply Hget; lia). unfold mret, st_ret. do 3 f_equal.
Qed.

Lemma indefinite_element tag rest : is_u32 tag → constructed tag = true →
  CBS_get_any_ber_asn1_element (der_tag tag ++ 128 :: rest) =
    (Some (Build_element (der_tag tag ++ [128]) tag (zlen (der_tag tag) + 1) true), rest).
Proof.
  intros Ht Hc. pose proof (zlen_der_tag tag Ht).
  assert (∀ m, m = zlen (der_tag tag) + 1 → CBS_get_bytes m (der_tag tag ++ 128 :: rest) = (Some (der_tag tag ++ [128]), rest)) as Hget.
  { intros m ->. change (128 :: rest) with ([128] ++ rest). rewrite app_assoc.
    replace (zlen (der_tag tag) + 1) with (zlen (der_tag tag ++ [128])) by (by rewrite zlen_app). apply cbs_get_app. }
  unfold CBS_get_any_ber_asn1_element, cbs_get_any_asn1_element, CBS_len.
  rewrite parse_asn1_tag_complete by done. rewrite get_u8_cons. cbn [Z.land Pos.land Z.eqb].
  change (128 .& 128 =? 0) with false. change (128 .& 127 =? 0) with true. unfold constructed in Hc. rewrite Hc. cbn [andb].
  autorewrite with bytesdb. erewrite bind_some by (apply Hget; lia). unfold mret, st_ret. do 3 f_equal. lia.
Qed.

(** The test [cbs_convert_ber] uses to recognise an indefinite length. *)
Definition indefinite_test (header_len : Z) (contents : cbs) : bool :=
  (CBS_len contents =? header_len) && (0 <? header_len) && (nth (Z.to_nat (header_len - 1)) contents 0 =? 0x80).

Lemma nth_last_app (l : bytes) x : nth (Z.to_nat (zlen (l ++ [x]) - 1)) (l ++ [x]) 0 = x.
Proof.
  rewrite zlen_app. replace (zlen l + zlen [x] - 1) with (zlen l) by (change (zlen [x]) with 1; lia).
  rewrite to_nat_zlen, app_nth2 by lia. by rewrite Nat.sub_diag.
Qed.

Lemma der_tag_inv tag : is_u32 tag → der_tag tag = [0] → tag = 0.
Proof.
  intros Ht E. destruct (tag_split tag Ht) as (Hs & Hc & Hn). unfold der_tag in E.
  case_decide; [|by destruct (base128 (tag_number tag)) eqn:Eb; [apply (f_equal length) in Eb; unfold base128 in Eb;
    rewrite length_b128_bytes in Eb; pose proof (ndigits_pos 7 (tag_number tag) ltac:(lia)); cbn in Eb; lia|]].
  injection E as E. assert (0 ≤ tag_number tag) by apply Hn. assert (tag_class tag = 0 ∧ tag_number tag = 0) as [E1 E2] by lia.
  rewrite Hs, E1, E2. done.
Qed.

(** A definite-length element: its header, and that it is neither an end-of-contents marker nor
    taken for an indefinite-length element. *)
Lemma definite_element f tag c : is_u32 tag → f ≠ Indefinite → form_ok f (zlen c) → tag ≠ 0 →
  ∃ hdr, ber_element f tag c = hdr ++ c ∧ (2 ≤ length hdr)%nat ∧ is_eoc (zlen hdr) (hdr ++ c) = false ∧
    indefinite_test (zlen hdr) (hdr ++ c) = false ∧
    ∀ rest, CBS_get_any_ber_asn1_element (ber_element f tag c ++ rest) = (Some (Build_element (hdr ++ c) tag (zlen hdr) (nonminimal f (zlen c))), rest).
Proof.
  intros Ht Hf Hok H0. pose proof (zlen_der_tag tag Ht) as Htl. pose proof (zlen_nonneg c).
  assert (∃ len : bytes, ber_element f tag c = (der_tag tag ++ len) ++ c ∧ (1 ≤ length len)%nat ∧
    (zlen c = 0 → ∃ l x, len = l ++ [x] ∧ x = 0 ∧ (l = [] → len = [0])) ∧
    ∀ rest, CBS_get_any_ber_asn1_element (ber_element f tag c ++ rest) =
      (Some (Build_element ((der_tag tag ++ len) ++ c) tag (zlen (der_tag tag ++ len)) (nonminimal f (zlen c))), rest)) as (len & He & Hl & Hz & Hget).
  { destruct f as [|n|]; [| |done]; cbn [form_ok] in Hok.
    - exists (der_length (zlen c)). split_and!; [done| | |].
      + pose proof (zlen_der_length (zlen c) ltac:(lia)) as Hl. unfold zlen at 1 in Hl. lia.
      + intros ->. by exists [], 0.
      + intros rest. unfold CBS_get_any_ber_asn1_element. cbn [ber_element].
        rewrite any_element_complete by done. done.
    - destruct Hok as [Hn Hc]. exists (128 + Z.of_nat n :: be_bytes n (zlen c)). cbn [length].
      split_and!; [cbn [ber_element]; by rewrite <- app_assoc|lia| |].
      + intros ->. destruct n as [|n]; [lia|]. rewrite be_bytes_snoc. exists (128 + Z.of_nat (S n) :: be_bytes n (0 / 256)), 0.
        by split_and!.
      + assert (ber_element (Padded n) tag c = (der_tag tag ++ 128 + Z.of_nat n :: be_bytes n (zlen c)) ++ c) as E
          by (cbn [ber_element]; by rewrite <- app_assoc).
        assert (zlen (der_tag tag ++ 128 + Z.of_nat n :: be_bytes n (zlen c)) = zlen (der_tag tag) + 1 + Z.of_nat n) as El
          by (autorewrite with bytesdb; rewrite zlen_be_bytes; lia).
        intros rest. by rewrite padded_element, <- E, El. }
  exists (der_tag tag ++ len). split_and!; [done| | | |exact Hget].
  - rewrite length_app. unfold zlen in Htl. lia.
  - unfold is_eoc. destruct (Z.eqb_spec (zlen (der_tag tag ++ len)) 2) as [E2|]; [|done]. cbn [andb].
    rewrite zlen_app in E2. unfold zlen in E2, Htl.
    destruct (Z.eqb_spec (CBS_len ((der_tag tag ++ len) ++ c)) 2) as [E3|]; [|done]. cbn [andb].
    apply bool_decide_eq_false. intros E. destruct (der_tag tag) as [|x [|]] eqn:Et; cbn [length] in *; try lia.
    cbn in E. injection E as -> _. by apply H0, der_tag_inv.
  - unfold indefinite_test, CBS_len. rewrite zlen_app. destruct (Z.eqb_spec (zlen (der_tag tag ++ len) + zlen c) (zlen (der_tag tag ++ len))) as [E|]; [|done].
    destruct Hz as (l & x & -> & -> & _); [lia|]. assert (c = []) as -> by (destruct c; [done|]; rewrite zlen_cons in E; pose proof (zlen_nonneg c); lia).
    rewrite app_nil_r, app_assoc, nth_last_app. cbn [Z.eqb]. by rewrite andb_false_r.
Qed.

(** ** The conversion of a sequence of well-formed values *)

Lemma ldiff_sub a b : Z.ldiff a b = a - (a .& b).
Proof.
  assert (Z.ldiff a b .& (a .& b) = 0) as E.
  { apply Z.bits_inj'. intros k Hk. rewrite !Z.land_spec, Z.ldiff_spec, Z.bits_0. by destruct (Z.testbit a k), (Z.testbit b k). }
  pose proof (Z.add_lor_land (Z.ldiff a b) (a .& b)) as Hs. rewrite E, Z.lor_ldiff_and in Hs. lia.
Qed.
Lemma ldiff_constructed tag : is_u32 tag → is_u32 (Z.ldiff tag CBS_ASN1_CONSTRUCTED).
Proof.
  intros [H0 H1]. split; [by apply Z.ldiff_nonneg; left|]. rewrite ldiff_sub.
  assert (0 ≤ tag .& CBS_ASN1_CONSTRUCTED) by (apply Z.land_nonneg; by left). lia.
Qed.
Lemma ldiff_primitive tag : constructed tag = false → Z.ldiff tag CBS_ASN1_CONSTRUCTED = tag.
Proof. unfold constructed. intros E%negb_false_iff%Z.eqb_eq. rewrite ldiff_sub. lia. Qed.

Section Convert.
Context `{Allocator}.
Abbreviation extends m p bs := (extends_to m p bs tt).

(** What [open_contents] chooses, as functions of the two tags. *)
Definition code_out_tag (tag : Z) : Z := if constructed tag then out_tag tag else tag.
Definition code_child_tag (st tag : Z) : Z := if constructed tag then child_string_tag st tag else st.

(** One element: its contents are written to the object [open_contents] returns, then flushed. *)
Lemma extends_element {A} p st tag (body : loc → Z → CBB_M A) (k : A → CBB_M cbs) x y a b :
  is_u32 tag → (st ≠ 0 → Z.ldiff tag CBS_ASN1_CONSTRUCTED = st) → (st = 0 → zlen x ≤ 0xfffffffe) →
  (∀ q, extends_to (body q (code_child_tag st tag)) q x a) → extends_to (k a) p y b →
  extends_to (r ← open_contents p st tag; let '(q, c) := r in z ← body q c; CBB_flush p;; k z) p
    ((if decide (st = 0) then der (code_out_tag tag) x else x) ++ y) b.
Proof.
  intros Ht Hst Hx Hb Hk. destruct (decide (st = 0)) as [->|Hn].
  - apply (extends_ext _ _ (z ← (CBB_add_asn1 p (S p) (code_out_tag tag);;
             z ← body (S p) (code_child_tag 0 tag); CBB_flush p;; mret z); k z)).
    + intros s. unfold open_contents, code_out_tag, code_child_tag, child_string_tag, out_tag. cbn [Z.eqb negb].
      rewrite decide_True by done.
      destruct (constructed tag); cbn [andb]; [destruct (is_string_type tag)|]; unfold mbind, st_bind, mret, st_ret;
        (destruct (CBB_add_asn1 _ _ _ s) as [[[]|] s1]; [|done]); cbv beta iota;
        (destruct (body (S p) _ s1) as [[z|] s2]; [|done]); (destruct (CBB_flush p s2) as [[[]|] s3]; reflexivity).
    + apply (extends_bind p _ k _ y a b); [|exact Hk]. apply extends_child; [|by apply Hx|apply Hb].
      unfold code_out_tag, out_tag. destruct (constructed tag), (is_string_type tag); auto using ldiff_constructed.
  - assert (code_child_tag st tag = st) as Hc.
    { unfold code_child_tag, child_string_tag. rewrite decide_False by done. by destruct (constructed tag). }
    rewrite Hc in Hb. apply (extends_ext _ _ (z ← body p st; CBB_flush p;; k z)).
    + intros s. unfold open_contents. by rewrite (proj2 (Z.eqb_neq st 0)), (Hst Hn), Z.eqb_refl by done.
    + apply (extends_bind p (body p st) (λ z, CBB_flush p;; k z) x ([] ++ y) a b); [apply Hb|].
      apply (extends_bind p (CBB_flush p) (λ _, k a) [] y tt b); [apply extends_flush|exact Hk].
Qed.

Lemma convert_round fuel in_ p st looking d e in' : d ≤ kMaxDepth → in_ ≠ [] →
  CBS_get_any_ber_asn1_element in_ = (Some e, in') → is_eoc (el_header_len e) (el_out e) = false →
  cbs_convert_ber (S fuel) in_ p st looking d =
    (r ← open_contents p st (el_tag e);
     let '(q, c) := r in
     if indefinite_test (el_header_len e) (el_out e)
     then z ← cbs_convert_ber fuel in' q c true (d + 1); CBB_flush p;; cbs_convert_ber fuel z p st looking d
     else
       match CBS_skip (el_header_len e) (el_out e) with
       | (None, _) => st_fail
       | (Some _, contents) =>
           (if constructed (el_tag e) then
              _ ← cbs_convert_ber fuel contents q c false (d + 1); mret tt
            else CBB_add_bytes q contents);;
           CBB_flush p;;
           cbs_convert_ber fuel in' p st looking d
       end).
Proof.
  intros Hd Hin Hget Heoc. cbn [cbs_convert_ber]. rewrite (proj2 (Z.ltb_ge _ _)) by done.
  unfold CBS_len at 1. rewrite (proj2 (Z.eqb_neq (zlen in_) 0)) by (destruct in_; [done|rewrite zlen_cons; pose proof (zlen_nonneg in_); lia]).
  by rewrite Hget, Heoc.
Qed.
Lemma convert_end fuel p st d : d ≤ kMaxDepth → cbs_convert_ber fuel [] p st false d = mret [].
Proof. intros Hd. destruct fuel; cbn [cbs_convert_ber]; by rewrite (proj2 (Z.ltb_ge _ _)). Qed.
Lemma convert_eoc fuel rest p st d : d ≤ kMaxDepth → cbs_convert_ber (S fuel) (0 :: 0 :: rest) p st true d = mret rest.
Proof.
  intros Hd. cbn [cbs_convert_ber]. rewrite (proj2 (Z.ltb_ge _ _)) by done.
  unfold CBS_len at 1. rewrite !zlen_cons, (proj2 (Z.eqb_neq _ 0)) by (pose proof (zlen_nonneg rest); lia).
  change (0 :: 0 :: rest) with (der 0 [] ++ rest). unfold CBS_get_any_ber_asn1_element.
  by rewrite any_element_complete.
Qed.

(** A definite-length element is one round, whose body is [body]. *)
Lemma convert_definite fuel p st looking d f tag c rest body :
  d ≤ kMaxDepth → is_u32 tag → f ≠ Indefinite → form_ok f (zlen c) → tag ≠ 0 →
  (body = λ q ct, if constructed tag then _ ← cbs_convert_ber fuel c q ct false (d + 1); mret tt else CBB_add_bytes q c) →
  cbs_convert_ber (S fuel) (ber_element f tag c ++ rest) p st looking d =
    (r ← open_contents p st tag; let '(q, ct) := r in
     _ ← body q ct; CBB_flush p;; cbs_convert_ber fuel rest p st looking d).
Proof.
  intros Hd Ht Hf Hok H0 ->. destruct (definite_element f tag c Ht Hf Hok H0) as (hdr & He & Hl & Heoc & Hind & Hget).
  erewrite convert_round; [|done| |apply Hget|exact Heoc]; cbn [el_header_len el_out el_tag].
  - rewrite Hind, cbs_get_skip, cbs_get_app. done.
  - rewrite He. destruct hdr; [cbn in Hl; lia|done].
Qed.
Lemma convert_indefinite fuel p st looking d tag rest :
  d ≤ kMaxDepth → is_u32 tag → constructed tag = true →
  cbs_convert_ber (S fuel) (der_tag tag ++ 128 :: rest) p st looking d =
    (r ← open_contents p st tag; let '(q, ct) := r in
     z ← cbs_convert_ber fuel rest q ct true (d + 1); CBB_flush p;; cbs_convert_ber fuel z p st looking d).
Proof.
  intros Hd Ht Hc. erewrite convert_round; [|done| |by apply indefinite_element|]; cbn [el_header_len el_out el_tag].
  - unfold indefinite_test, CBS_len. rewrite zlen_app. change (zlen [128]) with 1. rewrite Z.eqb_refl.
    pose proof (zlen_der_tag tag Ht). rewrite (proj2 (Z.ltb_lt _ _)) by lia.
    replace (zlen (der_tag tag) + 1) with (zlen (der_tag tag ++ [128])) by by rewrite zlen_app.
    by rewrite nth_last_app.
  - by destruct (der_tag tag).
  - unfold is_eoc. destruct (bool_decide_reflect (der_tag tag ++ [128] = [0; 0])) as [E|]; [|by rewrite andb_false_r].
    apply (f_equal (λ l, last l)) in E. by rewrite last_snoc in E.
Qed.

Lemma ber_element_length f tag c : is_u32 tag → (length c + 2 ≤ length (ber_element f tag c))%nat.
Proof.
  intros Ht. pose proof (zlen_der_tag tag Ht) as Hl. unfold zlen in Hl.
  destruct f; cbn [ber_element]; unfold der, der_header; rewrite !length_app; cbn [length app]; rewrite ?length_app; [|cbn; lia..].
  unfold der_length. case_decide; cbn [length]; lia.
Qed.
Lemma ber_enc_length st d t : ber_ok st d t → (2 ≤ length (ber_enc t))%nat.
Proof.
  intros [??? tag c Ht|??? tag kids Ht]; cbn [ber_enc]; [pose proof (ber_element_length f tag c Ht)|
    pose proof (ber_element_length f tag (concat (map ber_enc kids)) Ht)]; lia.
Qed.

(** Every well-formed sequence of values is converted, whatever the fuel beyond its length. *)
Lemma convert_spec fuel : ∀ ts p st (looking : bool) d rest in_,
  Forall (ber_ok st d) ts → d ≤ kMaxDepth →
  in_ = concat (map ber_enc ts) ++ (if looking then 0 :: 0 :: rest else []) → (length in_ ≤ fuel)%nat →
  extends_to (cbs_convert_ber fuel in_ p st looking d) p (concat (map (ber_conv st) ts)) (if looking then rest else []).
Proof.
  induction fuel as [|fuel IH]; intros ts p st looking d rest in_ Hts Hd -> Hf.
  { destruct looking; [rewrite length_app in Hf; cbn [length] in Hf; lia|].
    destruct Hts as [|t ts Ht _]; [rewrite convert_end by done; apply extends_ret|].
    pose proof (ber_enc_length _ _ _ Ht). cbn [map concat] in Hf. rewrite !length_app in Hf. lia. }
  destruct Hts as [|t ts Ht Hts].
  { cbn [map concat app]. destruct looking; [rewrite convert_eoc by done|rewrite convert_end by done]; apply extends_ret. }
  pose proof (ber_enc_length _ _ _ Ht) as Hlt. cbn [map concat] in Hf |- *. rewrite <- app_assoc in Hf |- *.
  set (more := concat (map ber_enc ts) ++ _) in *. rewrite length_app in Hf.
  assert (extends_to (cbs_convert_ber fuel more p st looking d) p (concat (map (ber_conv st) ts))
            (if looking then rest else [])) as Hmore by (apply IH; (done || lia)).
  destruct Ht as [st d f tag c Ht H0 Hc Hfi Hok Hl Hst|st d f tag kids Ht Hc Hok Hd' Hst Hl Hkids].
  - cbn [ber_enc ber_conv]. erewrite convert_definite by done.
    replace (der tag c) with (der (code_out_tag tag) c) by by (unfold code_out_tag; rewrite Hc).
    apply (extends_element p st tag (λ q ct, if constructed tag then _ else CBB_add_bytes q c) (λ _, _) c _ tt); try done.
    + rewrite ldiff_primitive by done. exact Hst.
    + intros q. rewrite Hc. apply appends_extends, add_bytes_op_spec. lia.
  - cbn [ber_enc ber_conv] in Hf |- *. set (kc := concat (map ber_enc kids)) in *.
    assert (tag ≠ 0) as H0 by (intros ->; by vm_compute in Hc).
    replace (out_tag tag) with (code_out_tag tag) by (unfold code_out_tag; by rewrite Hc).
    assert (child_string_tag st tag = code_child_tag st tag) as Hct by (unfold code_child_tag; by rewrite Hc).
    rewrite Hct in *. destruct (decide (f = Indefinite)) as [->|Hfi].
    + cbn [ber_element] in Hf |- *. rewrite <- !app_assoc. cbn [app]. rewrite convert_indefinite by done.
      apply (extends_element p st tag (λ q ct, cbs_convert_ber fuel _ q ct true _) (λ z, cbs_convert_ber fuel z p st looking d)
               _ _ more); try done.
      intros q. apply (IH kids q _ true (d + 1) more); try done.
      rewrite !length_app in *. cbn [length app] in *. rewrite ?length_app in *. cbn [length] in *. lia.
    + erewrite convert_definite by done.
      apply (extends_element p st tag (λ q ct, if constructed tag then _ else CBB_add_bytes q kc) (λ _, _) _ _ tt); try done.
      intros q. rewrite Hc. rewrite <- (app_nil_r (concat _)).
      apply (extends_bind q _ (λ _, mret tt) _ [] []); [|apply extends_ret].
      apply (IH kids q _ false (d + 1) []); try done; [by rewrite app_nil_r|].
      pose proof (ber_element_length f tag kc Ht). lia.
Qed.
End Convert.

(** ** What [cbs_find_ber] finds

    An element found to be BER at the level of the walk ends it.  A nested one is remembered only
    when its ancestor at this level is the last element. *)
Definition flagged (t : ber) : bool :=
  match t with
  | BPrim f _ c => nonminimal f (zlen c)
  | BNode f tag kids => nonminimal f (zlen (concat (map ber_enc kids))) || is_string_type tag
  end.
Fixpoint nested (t : ber) : bool :=
  match t with
  | BPrim _ _ _ => false
  | BNode _ _ kids =>
      (fix go (ts : list ber) : bool :=
         match ts with
         | [] => false
         | t :: ts => flagged t || match ts with [] => nested t | _ => go ts end
         end) kids
  end.
Fixpoint found (ts : list ber) : bool :=
  match ts with
  | [] => false
  | t :: ts => flagged t || match ts with [] => nested t | _ => found ts end
  end.
Lemma nested_node f tag kids : nested (BNode f tag kids) = found kids.
Proof. cbn [nested]. induction kids as [|t ts IH]; [done|]. cbn [found]. rewrite <- IH. done. Qed.

Lemma find_ber_spec fuel : ∀ ts flag d, Forall (ber_ok 0 d) ts → d ≤ kMaxDepth →
  (length (concat (map ber_enc ts)) ≤ fuel)%nat →
  find_ber_loop fuel d flag (concat (map ber_enc ts)) = Some (match ts with [] => flag | _ => found ts end).
Proof.
  induction fuel as [|fuel IH]; intros ts flag d Hts Hd Hf.
  { destruct Hts as [|t ts Ht _]; [done|].
    pose proof (ber_enc_length _ _ _ Ht). cbn [map concat] in Hf. rewrite !length_app in Hf. lia. }
  destruct Hts as [|t ts Ht Hts]; [done|]. pose proof (ber_enc_length _ _ _ Ht) as Hlt.
  cbn [map concat] in Hf |- *. set (more := concat (map ber_enc ts)) in *. rewrite length_app in Hf.
  cbn [find_ber_loop]. unfold CBS_len. rewrite (proj2 (Z.eqb_neq (zlen (ber_enc t ++ more)) 0)) by (rewrite zlen_app; unfold zlen; lia).
  assert (∀ flag, find_ber_loop fuel d flag more = Some (match ts with [] => flag | _ => found ts end)) as Hmore
    by (intros; apply IH; (done || fold more; lia)).
  inversion Ht as [st' d' f tag c Ht' H0 Hc Hfi Hok Hl Hst|st' d' f tag kids Ht' Hc Hok Hd' Hst Hl Hkids]; subst.
  - destruct (definite_element f tag c Ht' Hfi Hok H0) as (hdr & He & _ & _ & _ & Hget).
    cbn [ber_enc found flagged nested]. rewrite Hget. cbn [el_ber_found el_tag]. rewrite Hc.
    destruct (nonminimal f (zlen c)); [done|]. rewrite Hmore. by destruct ts.
  - assert (child_string_tag 0 tag = if is_string_type tag then Z.ldiff tag CBS_ASN1_CONSTRUCTED else 0) as Hct
      by (unfold child_string_tag; by rewrite decide_True).
    assert (tag ≠ 0) as H0 by (intros ->; by vm_compute in Hc).
    assert (found (BNode f tag kids :: ts) = flagged (BNode f tag kids) || match ts with [] => nested (BNode f tag kids) | _ => found ts end)
      as -> by done.
    rewrite nested_node. cbn [ber_enc flagged] in Hf |- *. set (kc := concat (map ber_enc kids)) in *.
    destruct (decide (f = Indefinite)) as [->|Hfi].
    { cbn [ber_element]. rewrite <- !app_assoc. cbn [app]. by rewrite indefinite_element. }
    destruct (definite_element f tag kc Ht' Hfi Hok H0) as (hdr & He & _ & _ & _ & Hget).
    rewrite Hget. cbn [el_ber_found el_tag el_out el_header_len]. rewrite Hc.
    destruct (nonminimal f (zlen kc)); [done|]. destruct (is_string_type tag); [done|].
    rewrite cbs_get_skip, cbs_get_app. cbn [fst snd mbind option_bind]. rewrite Hct in Hkids.
    rewrite (proj2 (Z.ltb_ge _ _)) by done. pose proof (ber_element_length f tag kc Ht').
    unfold kc. rewrite (IH kids false (d + 1)) by (done || (fold kc; lia)). cbn [mbind option_bind].
    rewrite Hmore. destruct ts; [|done]. by destruct kids.
Qed.

(** An element whose own header is minimal is read back by the DER reader. *)
Lemma unflagged_der f tag c : form_ok f (zlen c) → nonminimal f (zlen c) = false →
  ber_element f tag c = der tag c ∧ zlen c < 2 ^ 32.
Proof.
  intros Hok Hm. destruct f as [|k|]; [done| |done]. cbn [nonminimal form_ok] in Hok, Hm. destruct Hok as [Hk Hc].
  apply orb_false_iff in Hm as [Hm1 Hm2]. pose proof (zlen_nonneg c).
  assert (256 ^ Z.of_nat k ≤ 256 ^ 4) by (apply Z.pow_le_mono_r; lia). change (256 ^ 4) with (2 ^ 32) in *. split; [|lia].
  assert (Z.of_nat (ndigits 8 (zlen c)) = Z.of_nat k) as Hn by (apply der_length_long; lia).
  cbn [ber_element]. unfold der, der_header, der_length. rewrite decide_False, Hn by lia.
  replace (ndigits 8 (zlen c)) with k by lia. by rewrite <- app_assoc.
Qed.
Lemma unflagged_element f tag c rest : is_u32 tag → form_ok f (zlen c) → nonminimal f (zlen c) = false →
  CBS_get_any_asn1_element (ber_element f tag c ++ rest) =
    (Some (Build_element (ber_element f tag c) tag (zlen (der_header tag (zlen c))) false), rest).
Proof.
  intros Ht Hok Hm. destruct (unflagged_der f tag c Hok Hm) as [-> Hl]. by apply any_element_complete.
Qed.

(** ** Values that need converting

    [t], or an element inside it, has a length that is not minimal or is a constructed string. *)
Fixpoint uses_ber (t : ber) : bool :=
  flagged t || match t with BPrim _ _ _ => false | BNode _ _ kids => existsb uses_ber kids end.
(** [t] shows that it needs converting: it is itself in such a form, or one of its kids is, or its
    last kid shows it.  (What is nested in another kid may be overlooked, see [overlooked_ber].) *)
Fixpoint in_sight (t : ber) : bool :=
  flagged t ||
  match t with
  | BPrim _ _ _ => false
  | BNode _ _ kids => existsb flagged kids ||
      (fix last_in_sight (ts : list ber) : bool :=
         match ts with [] => false | [k] => in_sight k | _ :: ts => last_in_sight ts end) kids
  end.

Lemma in_sight_found : ∀ t, found [t] = in_sight t.
Proof.
  fix IH 1. intros t. cbn [found]. destruct t as [f tag c|f tag kids]; [done|]. rewrite nested_node.
  cbn [in_sight]. f_equal. clear f tag. induction kids as [|k kids IHk]; [done|].
  cbn [found existsb]. destruct kids as [|k' kids].
  - cbn [existsb]. rewrite orb_false_r. specialize (IH k). cbn [found] in IH. rewrite <- IH. by destruct (flagged k).
  - rewrite IHk. by rewrite orb_assoc.
Qed.

Lemma nested_uses : ∀ t, nested t = true → uses_ber t = true.
Proof.
  fix IH 1. intros [f tag c|f tag kids]; [done|]. rewrite nested_node. cbn [uses_ber]. intros Hf.
  apply orb_true_iff. right. clear f tag. induction kids as [|k kids IHk]; [done|]. cbn [found existsb] in Hf |- *.
  apply orb_true_iff in Hf as [Hf|Hf]; apply orb_true_iff.
  - left. destruct k; cbn [uses_ber]; by rewrite Hf.
  - destruct kids; [left; by apply IH|right; by apply IHk].
Qed.
Lemma found_uses ts : found ts = true → existsb uses_ber ts = true.
Proof.
  induction ts as [|t ts IH]; [done|]. cbn [found existsb]. intros Hf.
  apply orb_true_iff in Hf as [Hf|Hf]; apply orb_true_iff.
  - left. destruct t; cbn [uses_ber]; by rewrite Hf.
  - destruct ts; [left; by apply nested_uses|right; by apply IH].
Qed.

(** A value that uses nothing of BER is its own conversion. *)
Lemma der_unchanged : ∀ t d, ber_ok 0 d t → uses_ber t = false → ber_conv 0 t = ber_enc t.
Proof.
  fix IH 1. intros [f tag c|f tag kids] d Hok Hu; inversion Hok; subst; cbn [uses_ber flagged] in Hu;
    apply orb_false_iff in Hu as [Hf Hk].
  - cbn [ber_conv ber_enc]. rewrite decide_True by done. symmetry. by apply unflagged_der.
  - apply orb_false_iff in Hf as [Hf Hs]. cbn [ber_conv ber_enc].
    assert (child_string_tag 0 tag = 0) as Hct by (unfold child_string_tag; by rewrite decide_True, Hs by done).
    rewrite Hct in *. rewrite decide_True by done. unfold out_tag. rewrite Hs.
    assert (map (ber_conv 0) kids = map ber_enc kids) as ->; [|symmetry; by apply unflagged_der].
    match goal with X : Forall _ kids |- _ => rename X into Hkids end. clear -IH Hk Hkids. induction kids as [|k kids IHk]; [done|]. cbn [existsb] in Hk.
    apply orb_false_iff in Hk as [Hk Hks]. apply Forall_cons in Hkids as [Hok Hoks]. cbn [map].
    by rewrite (IH k _ Hok Hk), (IHk Hks Hoks).
Qed.

Section Theorems.
Context `{Allocator}.

(** The conversion on one run of the builder. *)
Lemma convert_run ts : Forall (ber_ok 0 0) ts → let in_ := concat (map ber_enc ts) in is_u64 (zlen in_) →
  let out := concat (map (ber_conv 0) ts) in
  match (CBB_init 0%nat (CBS_len in_);;
         rest ← cbs_convert_ber (length in_) in_ 0%nat 0 false 0;
         r ← CBB_finish 0%nat false false;
         mret (rest, r)) empty_store with
  | (Some (rest, (data, len)), _) => rest = [] ∧ len = zlen out ∧ take (length out) data = out
  | (None, _) => ¬ ((∀ n, malloc_ok n = true) ∧ zlen out < 2 ^ 64)
  end.
Proof.
  intros Hts in_ Hin out. pose proof (init_spec (CBS_len in_)) as Hi.
  destruct (_ && _) eqn:Ea in Hi; [rewrite (bind_some _ _ _ _ _ Hi)|rewrite (bind_none _ _ _ _ Hi)].
  - apply run_writer_to; [|done].
    apply (convert_spec _ ts 0%nat 0 false 0 [] in_); [done|done|by rewrite app_nil_r|done].
  - intros [Hm _]. by rewrite !Hm, andb_false_r in Ea.
Qed.

End Theorems.

(** SEQUENCE (indefinite) { OCTET STRING (constructed, long form) { OCTET STRING 01, OCTET STRING 02 03 } }. *)
Definition ber_demo : ber :=
  BNode Indefinite CBS_ASN1_SEQUENCE
    [BNode (Padded 2) (CBS_ASN1_OCTETSTRING .| CBS_ASN1_CONSTRUCTED)
       [BPrim Minimal CBS_ASN1_OCTETSTRING [1]; BPrim (Padded 1) CBS_ASN1_OCTETSTRING [2; 3]]].
Example ber_demo_output : fst <$> fst (@CBS_asn1_ber_to_der demo_allocator (ber_enc ber_demo)) =
  Some [0x30; 5; 4; 3; 1; 2; 3].
Proof. by vm_compute. Qed.

(** When the input goes on behind a value that is converted, everything is converted and consumed,
    not that value alone: here an empty SEQUENCE of indefinite length and a NULL. *)
Lemma trailing_values_converted :
  let input := [0x30; 0x80; 0; 0; 5; 0] in
  ∃ storage, @CBS_asn1_ber_to_der demo_allocator input = (Some ([0x30; 0; 5; 0], storage), []).
Proof. eexists. by vm_compute. Qed.
