(* ===== verification/Heap.v ===== *)
(** * The binary heap of libuv ([Libuv-gRPC/src/heap-inl.h])

    The nodes are embedded in the objects they order and linked by three pointers; the heap is a
    complete binary tree.  The model keeps the store of nodes by address and runs the pointer
    assignments as the code has them, so a dereference of [NULL] is a failure of the monad. *)
From stdpp Require Export gmap.
From Stdlib Require Export ZifyNat.
From S2P Require Export Prelude.

(** ** Memory *)

Abbreviation node_ptr := (option positive).
Record heap_node := { left : node_ptr; right : node_ptr; parent : node_ptr }.
Record heap := { min : node_ptr; nelts : Z }.
(** The heap object and the nodes in memory. *)
Record heap_mem := { hp : heap; nodes : gmap positive heap_node }.
Abbreviation heap_st := (st heap_mem).

Definition load (p : positive) : heap_st heap_node := λ m, (nodes m !! p, m).
Definition deref (p : node_ptr) : heap_st positive := λ m, (p, m).
Definition alter_node (f : heap_node → heap_node) (p : positive) (m : heap_mem) : heap_mem :=
  {| hp := hp m; nodes := alter f p (nodes m) |}.
Definition update (f : heap_node → heap_node) (p : positive) : heap_st unit := _ ← load p; st_modify (alter_node f p).
Definition with_left (v : node_ptr) (n : heap_node) := {| left := v; right := right n; parent := parent n |}.
Definition with_right (v : node_ptr) (n : heap_node) := {| left := left n; right := v; parent := parent n |}.
Definition with_parent (v : node_ptr) (n : heap_node) := {| left := left n; right := right n; parent := v |}.
Definition set_left (p : positive) (v : node_ptr) : heap_st unit := update (with_left v) p.
Definition set_right (p : positive) (v : node_ptr) : heap_st unit := update (with_right v) p.
Definition set_parent (p : positive) (v : node_ptr) : heap_st unit := update (with_parent v) p.
Definition set_min (v : node_ptr) : heap_st unit := st_modify (λ m, {| hp := {| min := v; nelts := nelts (hp m) |}; nodes := nodes m |}).
Definition set_nelts (v : Z) : heap_st unit := st_modify (λ m, {| hp := {| min := min (hp m); nelts := v |}; nodes := nodes m |}).
Definition get_heap : heap_st heap := λ m, (Some (hp m), m).

(** [struct heap_node**]: the addresses the code takes. *)
Inductive slot := AtMin | AtLeft (p : positive) | AtRight (p : positive).
Definition read_slot (s : slot) : heap_st node_ptr :=
  match s with
  | AtMin => h ← get_heap; mret (min h)
  | AtLeft p => n ← load p; mret (left n)
  | AtRight p => n ← load p; mret (right n)
  end.
Definition write_slot (s : slot) (v : node_ptr) : heap_st unit :=
  match s with AtMin => set_min v | AtLeft p => set_left p v | AtRight p => set_right p v end.

(** ** Operations *)

Definition heap_init : heap := {| min := None; nelts := 0 |}.
Definition heap_min (h : heap) : node_ptr := min h.

(** [if (p != NULL) p->parent = v;] *)
Definition set_parent_of (p : node_ptr) (v : node_ptr) : heap_st unit :=
  match p with Some p => set_parent p v | None => mret tt end.

Definition heap_node_swap (p c : positive) : heap_st unit :=
  t ← load p; n ← load c;
  _ ← update (λ _, n) p; _ ← update (λ _, t) c;
  _ ← set_parent p (Some c);
  n ← load c;
  sibling ← (if decide (left n = Some c)
             then _ ← set_left c (Some p); n ← load c; mret (right n)
             else _ ← set_right c (Some p); n ← load c; mret (left n));
  _ ← set_parent_of sibling (Some c);
  n ← load p; _ ← set_parent_of (left n) (Some p);
  n ← load p; _ ← set_parent_of (right n) (Some p);
  n ← load c;
  match parent n with
  | None => set_min (Some c)
  | Some q =>
      nq ← load q;
      if decide (left nq = Some p) then set_left q (Some c) else set_right q (Some c)
  end.

(** The path from the root to the [n]-th node in level order, lowest bit first.  [unsigned int]
    has 32 bits, so 32 rounds are enough. *)
Fixpoint path_loop (fuel : nat) (path k n : Z) : Z * Z :=
  match fuel with
  | O => (path, k)
  | S fuel => if 2 <=? n then path_loop fuel ((path <<32 1) .| (n .& 1)) (u32 (k + 1)) (n / 2) else (path, k)
  end.
Definition compute_path (n : Z) : Z * Z := path_loop 32 0 0 n.

(** [child = &( *child)->right] or [left], as the path says; the parent's slot follows. *)
Definition step_slot (path : Z) (s : slot) : heap_st slot :=
  v ← read_slot s; x ← deref v; mret (if path .& 1 =? 0 then AtLeft x else AtRight x).
Fixpoint traverse (fuel : nat) (path k : Z) (parent child : slot) : heap_st (slot * slot) :=
  match fuel with
  | O => st_fail
  | S fuel =>
      if 0 <? k
      then next ← step_slot path child; traverse fuel (path >>> 1) (k - 1) child next
      else mret (parent, child)
  end.

(** [heap_remove]: the node [child] takes the place of [x]. *)
Definition replace_node (x child : positive) : heap_st unit :=
  n ← load x; _ ← set_left child (left n);
  n ← load x; _ ← set_right child (right n);
  n ← load x; _ ← set_parent child (parent n);
  c ← load child; _ ← set_parent_of (left c) (Some child);
  c ← load child; _ ← set_parent_of (right c) (Some child);
  n ← load x;
  match parent n with
  | None => set_min (Some child)
  | Some q =>
      nq ← load q;
      if decide (left nq = Some x) then set_left q (Some child) else set_right q (Some child)
  end.

Section Operations.
Context (less_than : positive → positive → bool).

(** [while (x->parent != NULL && less_than(x, x->parent)) heap_node_swap(heap, x->parent, x);] *)
Fixpoint walk_up (fuel : nat) (x : positive) : heap_st unit :=
  match fuel with
  | O => st_fail
  | S fuel =>
      n ← load x;
      match parent n with
      | Some p => if less_than x p then _ ← heap_node_swap p x; walk_up fuel x else mret tt
      | None => mret tt
      end
  end.
Definition smaller (candidate : node_ptr) (smallest : positive) : positive :=
  match candidate with Some y => if less_than y smallest then y else smallest | None => smallest end.
Fixpoint walk_down (fuel : nat) (x : positive) : heap_st unit :=
  match fuel with
  | O => st_fail
  | S fuel =>
      n ← load x;
      let smallest := smaller (right n) (smaller (left n) x) in
      if decide (smallest = x) then mret tt
      else _ ← heap_node_swap x smallest; walk_down fuel x
  end.

Definition heap_insert (x : positive) : heap_st unit :=
  _ ← set_left x None; _ ← set_right x None; _ ← set_parent x None;
  h ← get_heap;
  let '(path, k) := compute_path (u32 (1 + nelts h)) in
  '(ps, cs) ← traverse 33 path k AtMin AtMin;
  p ← read_slot ps; _ ← set_parent x p; _ ← write_slot cs (Some x);
  h ← get_heap; _ ← set_nelts (u32 (nelts h + 1));
  walk_up (S (Z.to_nat (nelts h + 1))) x.

Definition heap_remove (x : positive) : heap_st unit :=
  h ← get_heap;
  if nelts h =? 0 then mret tt
  else
    let '(path, k) := compute_path (nelts h) in
    '(_, max) ← traverse 33 path k AtMin AtMin;
    _ ← set_nelts (u32 (nelts h - 1));
    v ← read_slot max; child ← deref v; _ ← write_slot max None;
    if decide (child = x) then
      h ← get_heap;
      if decide (min h = Some child) then set_min None else mret tt
    else
      _ ← replace_node x child;
      h ← get_heap;
      _ ← walk_down (S (Z.to_nat (nelts h))) child;
      walk_up (S (Z.to_nat (nelts h))) child.

(** [heap_dequeue] passes [NULL] on when the heap is empty; [heap_remove] then returns at once. *)
Definition heap_dequeue : heap_st unit :=
  h ← get_heap;
  if nelts h =? 0 then mret tt else x ← deref (min h); heap_remove x.
End Operations.

(** ** The tree in level order

    The list of the nodes in level order stands for the tree: the children of place [i] are at
    [2 i + 1] and [2 i + 2], so completeness is part of the representation. *)

Definition par (i : nat) : nat := ((i - 1) / 2)%nat.
Definition node_at (l : list positive) (i : nat) : heap_node :=
  {| left := l !! (2 * i + 1)%nat; right := l !! (2 * i + 2)%nat; parent := if decide (i = 0%nat) then None else l !! par i |}.
Record rep (l : list positive) (m : heap_mem) : Prop := {
  rep_min : min (hp m) = l !! 0%nat;
  rep_nelts : nelts (hp m) = zlen l;
  rep_nodup : NoDup l;
  rep_nodes i x : l !! i = Some x → nodes m !! x = Some (node_at l i)
}.
Definition swap (l : list positive) (i j : nat) : list positive :=
  match l !! i, l !! j with Some x, Some y => <[i := y]> (<[j := x]> l) | _, _ => l end.

(** Changing the node at a place, if there is one. *)
Definition alter_at (l : list positive) (f : heap_node → heap_node) (a : nat) (m : heap_mem) : heap_mem :=
  match l !! a with Some x => alter_node f x m | None => m end.
Definition alloc (l : list positive) (m : heap_mem) : Prop := ∀ a x, l !! a = Some x → is_Some (nodes m !! x).

Lemma hp_alter_at l f a m : hp (alter_at l f a m) = hp m.
Proof. unfold alter_at. by destruct (l !! a). Qed.
Lemma nodes_alter_at l f a b m y : NoDup l → l !! b = Some y →
  nodes (alter_at l f a m) !! y = if decide (a = b) then f <$> nodes m !! y else nodes m !! y.
Proof.
  intros Hn Hb. unfold alter_at. destruct (l !! a) as [x|] eqn:Ha.
  - unfold alter_node. cbn [nodes]. case_decide as Hab.
    + subst b. assert (x = y) as -> by congruence. apply lookup_alter_eq.
    + apply lookup_alter_ne. intros ->. apply Hab. by eapply NoDup_lookup.
  - case_decide; [congruence|done].
Qed.
Lemma alloc_alter_at l f a m : alloc l m → alloc l (alter_at l f a m).
Proof.
  intros Hm b y Hb. unfold alter_at. destruct (l !! a) as [x|]; [|by eapply Hm].
  unfold alter_node. cbn [nodes]. destruct (decide (x = y)) as [->|].
  - rewrite lookup_alter_eq. by apply fmap_is_Some, (Hm b).
  - rewrite lookup_alter_ne by done. by apply (Hm b).
Qed.
Lemma nodes_alter_at_out l f a m y : y ∉ l → nodes (alter_at l f a m) !! y = nodes m !! y.
Proof.
  intros Hy. unfold alter_at. destruct (l !! a) as [x|] eqn:Ha; [|done].
  apply lookup_alter_ne. intros ->. apply Hy. by eapply list_elem_of_lookup_2.
Qed.
Lemma rep_alloc l m : rep l m → alloc l m.
Proof. intros Hm a x Ha. rewrite (rep_nodes l m Hm a x Ha). by eexists. Qed.

(** The stores of the code, at places. *)
Lemma run_load x m n : nodes m !! x = Some n → load x m = (Some n, m).
Proof. intros H. unfold load. by rewrite H. Qed.
Lemma run_update l f a x m : alloc l m → l !! a = Some x → update f x m = (Some tt, alter_at l f a m).
Proof.
  intros Hm Ha. destruct (Hm a x Ha) as [n Hx]. unfold update. rewrite (bind_some _ _ _ n m) by by apply run_load.
  unfold alter_at. by rewrite Ha.
Qed.
Lemma run_set_parent_of l a v m : alloc l m → set_parent_of (l !! a) v m = (Some tt, alter_at l (with_parent v) a m).
Proof.
  intros Hm. destruct (l !! a) as [x|] eqn:Ha; cbn [set_parent_of].
  - by apply run_update.
  - unfold alter_at. by rewrite Ha.
Qed.

Lemma lookup_swap l i j k : (i < length l)%nat → (j < length l)%nat →
  swap l i j !! k = if decide (k = i) then l !! j else if decide (k = j) then l !! i else l !! k.
Proof.
  intros Hi Hj. unfold swap. destruct (lookup_lt_is_Some_2 l i Hi) as [x Hx]. destruct (lookup_lt_is_Some_2 l j Hj) as [y Hy].
  rewrite Hx, Hy. destruct (decide (k = i)) as [->|].
  - apply list_lookup_insert_eq. by rewrite length_insert.
  - rewrite list_lookup_insert_ne by done. destruct (decide (k = j)) as [->|]; [by apply list_lookup_insert_eq|].
    by apply list_lookup_insert_ne.
Qed.
Lemma length_swap l i j : length (swap l i j) = length l.
Proof. unfold swap. destruct (l !! i), (l !! j); by rewrite ?length_insert. Qed.
Lemma swap_perm l i j : Permutation (swap l i j) l.
Proof.
  unfold swap. destruct (l !! i) as [x|] eqn:Hi, (l !! j) as [y|] eqn:Hj; try done.
  by apply Permutation_insert_swap.
Qed.

(** ** Swapping a parent and its child *)

(** Looking up through stores at known places. *)
Ltac at_lookup := repeat match goal with
  | Hn : NoDup ?l, Hb : ?l !! ?b = Some ?y |- context [nodes (alter_at ?l ?f ?a ?m) !! ?y] =>
      rewrite (nodes_alter_at l f a b m y Hn Hb); destruct (decide (a = b)); try (exfalso; lia)
  end.
Ltac at_alloc := repeat apply alloc_alter_at; first [done|by apply rep_alloc].

Section Swap.
Context (l : list positive) (m : heap_mem) (i j : nat) (p c : positive).
Hypotheses (Hm : rep l m) (Hi : l !! i = Some p) (Hj : l !! j = Some c) (Hij : (j = 2 * i + 1 ∨ j = 2 * i + 2)%nat).
(** The place of the sibling of the child. *)
Let o : nat := (4 * i + 3 - j)%nat.

Definition swapped : heap_mem :=
  let m := alter_at l (λ _, node_at l j) i m in
  let m := alter_at l (λ _, node_at l i) j m in
  let m := alter_at l (with_parent (Some c)) i m in
  let m := alter_at l (if decide (j = 2 * i + 1)%nat then with_left (Some p) else with_right (Some p)) j m in
  let m := alter_at l (with_parent (Some c)) o m in
  let m := alter_at l (with_parent (Some p)) (2 * j + 1) m in
  let m := alter_at l (with_parent (Some p)) (2 * j + 2) m in
  if decide (i = 0%nat) then {| hp := {| min := Some c; nelts := nelts (hp m) |}; nodes := nodes m |}
  else alter_at l (if decide (i = 2 * par i + 1)%nat then with_left (Some c) else with_right (Some c)) (par i) m.

Lemma place_inj a x : l !! a = Some x → ∀ b, l !! b = Some x ↔ a = b.
Proof. intros Ha b. pose proof (rep_nodup l m Hm). split; [by intros Hb; eapply NoDup_lookup|by intros <-]. Qed.

Lemma swap_run : heap_node_swap p c m = (Some tt, swapped).
Proof using Hm Hi Hj Hij.
  pose proof (rep_nodup l m Hm) as Hn. unfold heap_node_swap.
  rewrite (bind_some _ _ _ (node_at l i) m) by (by apply run_load, (rep_nodes l m)).
  rewrite (bind_some _ _ _ (node_at l j) m) by (by apply run_load, (rep_nodes l m)).
  erewrite bind_some by (eapply run_update; [at_alloc|exact Hi]).
  erewrite bind_some by (eapply run_update; [at_alloc|exact Hj]).
  erewrite bind_some by (eapply run_update; [at_alloc|exact Hi]).
  set (m3 := alter_at l (with_parent _) i _). assert (alloc l m3) as A3 by at_alloc.
  assert (nodes m3 !! c = Some (node_at l i)) as N3.
  { subst m3. at_lookup. by rewrite (rep_nodes l m Hm _ _ Hj). }
  assert (nodes m3 !! p = Some (with_parent (Some c) (node_at l j))) as P3.
  { subst m3. at_lookup. by rewrite (rep_nodes l m Hm _ _ Hi). }
  rewrite (bind_some _ _ _ (node_at l i) m3) by by apply run_load.
  set (m4 := alter_at l (if decide (j = 2 * i + 1)%nat then with_left (Some p) else with_right (Some p)) j m3).
  assert (alloc l m4) as A4 by at_alloc.
  assert (nodes m4 !! c = Some ((if decide (j = 2 * i + 1)%nat then with_left (Some p) else with_right (Some p)) (node_at l i))) as C4
    by (subst m4; at_lookup; by rewrite N3).
  assert (nodes m4 !! p = nodes m3 !! p) as P4. { subst m4. by at_lookup. }
  rewrite (bind_some _ _ _ (l !! o) m4).
  2:{ cbn [node_at left]. destruct Hij as [Ej|Ej].
      - rewrite decide_True by (by rewrite <- Ej).
        erewrite bind_some by (eapply run_update; [exact A3|exact Hj]). fold (with_left (Some p)).
        assert (m4 = alter_at l (with_left (Some p)) j m3) as E4 by (subst m4; by rewrite decide_True by done).
        rewrite <- E4. rewrite (bind_some _ _ _ (with_left (Some p) (node_at l i)) m4).
        + cbn [with_left node_at right]. by replace o with (2 * i + 2)%nat by (subst o; lia).
        + apply run_load. rewrite E4. at_lookup. by rewrite N3.
      - rewrite decide_False by (intros E; apply (place_inj _ _ Hj) in E; lia).
        erewrite bind_some by (eapply run_update; [exact A3|exact Hj]).
        assert (m4 = alter_at l (with_right (Some p)) j m3) as E4 by (subst m4; by rewrite decide_False by lia).
        rewrite <- E4. rewrite (bind_some _ _ _ (with_right (Some p) (node_at l i)) m4).
        + cbn [with_right node_at left]. by replace o with (2 * i + 1)%nat by (subst o; lia).
        + apply run_load. rewrite E4. at_lookup. by rewrite N3. }
  erewrite bind_some by by apply run_set_parent_of.
  set (m5 := alter_at l _ o m4). assert (alloc l m5) as A5 by at_alloc.
  assert (nodes m5 !! p = Some (with_parent (Some c) (node_at l j))) as P5 by (subst m5; at_lookup; by rewrite P4).
  rewrite (bind_some _ _ _ _ m5 (run_load _ _ _ P5)).
  erewrite bind_some by by apply run_set_parent_of.
  set (m6 := alter_at l _ (2 * j + 1) m5). assert (alloc l m6) as A6 by at_alloc.
  assert (nodes m6 !! p = Some (with_parent (Some c) (node_at l j))) as P6 by (subst m6; by at_lookup).
  rewrite (bind_some _ _ _ _ m6 (run_load _ _ _ P6)).
  erewrite bind_some by by apply run_set_parent_of.
  set (m7 := alter_at l _ (2 * j + 2) m6). assert (alloc l m7) as A7 by at_alloc.
  assert (nodes m7 !! c = nodes m4 !! c) as C7 by (subst m7 m6 m5; by at_lookup).
  rewrite (bind_some _ _ _ _ m7 (run_load _ _ _ (eq_trans C7 C4))).
  assert (parent ((if decide (j = 2 * i + 1)%nat then with_left (Some p) else with_right (Some p)) (node_at l i)) =
    parent (node_at l i)) as -> by by case_decide.
  cbn [node_at parent]. unfold swapped. fold o m3 m4 m5 m6 m7.
  destruct (decide (i = 0%nat)) as [|H0]; [done|].
  assert (par i = (i - 1) / 2)%nat as Hpar by done.
  destruct (lookup_lt_is_Some_2 l (par i)) as [q Hq]; [apply lookup_lt_Some in Hi; lia|]. rewrite Hq.
  assert (nodes m7 !! q = Some (node_at l (par i))) as Q7.
  { subst m7 m6 m5 m4 m3. at_lookup. apply (rep_nodes l m Hm). exact Hq. }
  rewrite (bind_some _ _ _ _ m7 (run_load _ _ _ Q7)). cbn [node_at left].
  assert (l !! (2 * par i + 1)%nat = Some p ↔ i = 2 * par i + 1)%nat as E by (by apply place_inj).
  destruct (decide (i = 2 * par i + 1)%nat) as [H|H].
  - rewrite decide_True by by apply E. by apply run_update.
  - rewrite decide_False by naive_solver. by apply run_update.
Qed.

Lemma swap_frame y : y ∉ l → nodes swapped !! y = nodes m !! y.
Proof using Type. intros Hy. unfold swapped. case_decide; cbn [nodes]; by rewrite !nodes_alter_at_out. Qed.

(** Equations between nodes, field by field. *)
Ltac node_eq :=
  try match goal with |- context [if decide (?a = ?b) then with_left _ else with_right _] => destruct (decide (a = b)) end;
  unfold node_at, with_left, with_right, with_parent; cbn [left right parent fmap option_fmap option_map];
  rewrite ?lookup_swap by lia; f_equal; f_equal;
  repeat match goal with |- context [decide (?a = ?b)] => destruct (decide (a = b)); try (exfalso; lia) end;
  first [congruence|f_equal; lia].

Lemma swap_rep : rep (swap l i j) swapped.
Proof using Hm Hi Hj Hij.
  pose proof (rep_nodup l m Hm) as Hn. pose proof (lookup_lt_Some _ _ _ Hi). pose proof (lookup_lt_Some _ _ _ Hj).
  assert (i = 0 ∨ i = 2 * par i + 1 ∨ i = 2 * par i + 2)%nat as Hpi by (unfold par; lia).
  split.
  - rewrite lookup_swap by done. unfold swapped. destruct (decide (i = 0%nat)) as [->|].
    + cbn [hp min]. by rewrite (decide_True (P := 0%nat = 0%nat)) by done.
    + rewrite !hp_alter_at, (rep_min l m Hm), (decide_False (P := 0%nat = i)), (decide_False (P := 0%nat = j)) by lia. done.
  - unfold zlen. rewrite length_swap. unfold swapped. destruct (decide (i = 0%nat)); cbn [hp nelts]; rewrite !hp_alter_at; apply (rep_nelts l m Hm).
  - by rewrite swap_perm.
  - intros k y. rewrite lookup_swap by done. assert (k = 0 ∨ k = 2 * par k + 1 ∨ k = 2 * par k + 2)%nat as Hpk by (unfold par; lia).
    assert (∀ f g y, nodes (if decide (i = 0%nat) then {| hp := f; nodes := nodes g |} else alter_at l (if decide (i = 2 * par i + 1)%nat then with_left (Some c) else with_right (Some c)) (par i) g) !! y =
      nodes (if decide (i = 0%nat) then g else alter_at l (if decide (i = 2 * par i + 1)%nat then with_left (Some c) else with_right (Some c)) (par i) g) !! y) as Hif
      by (intros; by case_decide).
    unfold swapped. rewrite Hif. clear Hif. assert (o + j = 4 * i + 3)%nat as Ho by (subst o; lia). clearbody o.
    destruct (decide (k = i)) as [->|]; [|destruct (decide (k = j)) as [->|]]; intros Hy.
    + assert (y = c) as -> by congruence.
      destruct (decide (i = 0%nat)); at_lookup; rewrite (rep_nodes l m Hm _ _ Hj); node_eq.
    + assert (y = p) as -> by congruence.
      destruct (decide (i = 0%nat)); at_lookup; rewrite (rep_nodes l m Hm _ _ Hi); node_eq.
    + destruct (decide (i = 0%nat)); at_lookup; rewrite (rep_nodes l m Hm _ _ Hy); node_eq.
Qed.
End Swap.

(** ** The heap order *)

(** What a comparison must satisfy: "not greater" is a total preorder. *)
Class HeapOrder (less_than : positive → positive → bool) : Prop := {
  lt_asym x y : less_than x y = true → less_than y x = false;
  le_trans x y z : less_than y x = false → less_than z y = false → less_than z x = false
}.

Section Order.
Context (less_than : positive → positive → bool) `{!HeapOrder less_than}.
Definition le (x y : positive) : Prop := less_than y x = false.
Definition le_at (l : list positive) (a b : nat) : Prop := ∀ x y, l !! a = Some x → l !! b = Some y → le x y.
Definition ordered (l : list positive) : Prop := ∀ k, (0 < k)%nat → le_at l (par k) k.
(** Ordered but for the node at [i] against its parent. *)
Definition up_ok (l : list positive) (i : nat) : Prop :=
  (∀ k, (0 < k)%nat → k ≠ i → le_at l (par k) k) ∧
  ((0 < i)%nat → ∀ k, (0 < k)%nat → par k = i → le_at l (par i) k).
(** Ordered but for the node at [i] against its parent and its children. *)
Definition down_ok (l : list positive) (i : nat) : Prop :=
  (∀ k, (0 < k)%nat → k ≠ i → par k ≠ i → le_at l (par k) k) ∧
  ((0 < i)%nat → ∀ k, (0 < k)%nat → par k = i → le_at l (par i) k).

Lemma le_refl x : le x x.
Proof. unfold le. destruct (less_than x x) eqn:E; [|done]. pose proof (lt_asym _ _ E). congruence. Qed.
Lemma lt_le x y : less_than x y = true → le x y.
Proof. apply lt_asym. Qed.
Lemma le_at_trans l a b c y : l !! b = Some y → le_at l a b → le_at l b c → le_at l a c.
Proof. intros Hb H1 H2 x z Hx Hz. apply (le_trans x y z); [by apply H1|by apply H2]. Qed.

(** The root is a least element. *)
Lemma ordered_root l k : ordered l → le_at l 0 k.
Proof.
  intros Ho. induction k as [k IH] using lt_wf_ind. intros x z Hx Hz.
  destruct (decide (k = 0%nat)) as [->|]; [assert (x = z) as -> by congruence; apply le_refl|].
  assert (par k < k)%nat as Hp by (unfold par; lia).
  destruct (lookup_lt_is_Some_2 l (par k)) as [y Hy]; [apply lookup_lt_Some in Hz; lia|].
  exact (le_at_trans l 0 (par k) k y Hy (IH _ Hp) (Ho k ltac:(lia)) x z Hx Hz).
Qed.

Lemma le_at_swap l i j a b : (i < length l)%nat → (j < length l)%nat →
  le_at l (if decide (a = i) then j else if decide (a = j) then i else a)
          (if decide (b = i) then j else if decide (b = j) then i else b) → le_at (swap l i j) a b.
Proof.
  intros Hi Hj H x y. rewrite !lookup_swap by done. intros Ha Hb. apply H; repeat case_decide; done.
Qed.

(** The node at [i] is smaller than its parent: one step up. *)
Lemma up_step l i x p : (0 < i)%nat → l !! i = Some x → l !! par i = Some p → less_than x p = true →
  up_ok l i → up_ok (swap l (par i) i) (par i).
Proof.
  intros Hi Hx Hp Hlt [H1 H2]. pose proof (lookup_lt_Some _ _ _ Hx). pose proof (lookup_lt_Some _ _ _ Hp).
  assert (par i < i)%nat as Hpi by (unfold par; lia).
  assert (le_at l i (par i)) as Hxp by (intros ? ? E1 E2; apply lt_le; congruence).
  split.
  - intros k Hk Hki. apply le_at_swap; [done..|]. rewrite (decide_False (P := k = par i)) by done.
    destruct (decide (k = i)) as [->|]; [by rewrite decide_True by done|].
    destruct (decide (par k = par i)) as [E|]; [apply (le_at_trans l _ (par i) _ p Hp Hxp); rewrite <- E; by apply H1|].
    destruct (decide (par k = i)); [by apply H2|]. by apply H1.
  - intros Hpp k Hk Hkp. assert (par (par i) < par i)%nat by (unfold par in *; lia).
    apply le_at_swap; [done..|]. rewrite (decide_False (P := par (par i) = par i)), (decide_False (P := par (par i) = i)) by lia.
    assert (k ≠ par i) by (intros ->; lia). rewrite (decide_False (P := k = par i)) by done.
    destruct (decide (k = i)) as [->|]; [apply H1; lia|].
    apply (le_at_trans l _ (par i) _ p Hp); [apply H1; lia|]. rewrite <- Hkp. by apply H1.
Qed.

(** The child at [j] is smaller than the node at [i] and no greater than the other child: one step down. *)
Lemma down_step l i j s : (0 < j)%nat → par j = i → l !! j = Some s →
  (∀ k, (0 < k)%nat → par k = i → le_at l j k) → le_at l j i → down_ok l i → down_ok (swap l i j) j.
Proof.
  intros Hj Hij Hs Hmin Hji [H1 H2]. pose proof (lookup_lt_Some _ _ _ Hs).
  assert (i < j)%nat by (unfold par in *; lia). split.
  - intros k Hk Hkj Hpk. apply le_at_swap; [lia..|]. rewrite (decide_False (P := k = j)), (decide_False (P := par k = j)) by done.
    destruct (decide (k = i)) as [->|].
    + rewrite (decide_False (P := par i = i)) by (unfold par; lia). by apply H2.
    + destruct (decide (par k = i)); [by apply Hmin|by apply H1].
  - intros _ k Hk Hkj. apply le_at_swap; [lia..|]. rewrite Hij, decide_True by done.
    assert (j < k)%nat by (unfold par in *; lia). rewrite !decide_False by lia. rewrite <- Hkj. apply H1; lia.
Qed.

(** ** The loops *)

Definition same_outside (l : list positive) (m m' : heap_mem) : Prop := ∀ y, y ∉ l → nodes m' !! y = nodes m !! y.

Lemma swap_spec l m i j p c : rep l m → l !! i = Some p → l !! j = Some c → (0 < j)%nat → par j = i →
  ∃ m', heap_node_swap p c m = (Some tt, m') ∧ rep (swap l i j) m' ∧ same_outside l m m'.
Proof.
  intros Hm Hi Hj Hj0 Hij. assert (j = 2 * i + 1 ∨ j = 2 * i + 2)%nat by (unfold par in Hij; lia).
  exists (swapped l m i j p c). split; [by apply swap_run|]. split; [by apply swap_rep|]. intros y. by apply swap_frame.
Qed.
Lemma lookup_swap_l (l : list positive) i j x y : l !! i = Some x → l !! j = Some y → swap l i j !! i = Some y.
Proof. intros Hi Hj. rewrite lookup_swap, decide_True by (done || by eapply lookup_lt_Some). done. Qed.
Lemma lookup_swap_r (l : list positive) i j x y : l !! i = Some x → l !! j = Some y → swap l i j !! j = Some x.
Proof.
  intros Hi Hj. rewrite lookup_swap by (by eapply lookup_lt_Some). case_decide; [congruence|by rewrite decide_True].
Qed.

Lemma walk_up_spec fuel : ∀ l m i x, rep l m → l !! i = Some x → (i < fuel)%nat → up_ok l i →
  ∃ l' m', walk_up less_than fuel x m = (Some tt, m') ∧ rep l' m' ∧ ordered l' ∧ Permutation l' l ∧ same_outside l m m'.
Proof.
  induction fuel as [|fuel IH]; intros l m i x Hm Hx Hf Hok; [lia|]. cbn [walk_up].
  rewrite (bind_some _ _ _ _ m (run_load _ _ _ (rep_nodes l m Hm i x Hx))). cbn [node_at parent].
  destruct (decide (i = 0%nat)) as [->|Hi].
  { exists l, m. split_and!; try done. intros k Hk. apply Hok; lia. }
  assert (par i < i)%nat as Hpi by (unfold par; lia).
  destruct (lookup_lt_is_Some_2 l (par i)) as [p Hp]; [apply lookup_lt_Some in Hx; lia|]. rewrite Hp.
  destruct (less_than x p) eqn:Hlt.
  - destruct (swap_spec l m (par i) i p x Hm Hp Hx ltac:(lia) eq_refl) as (m1 & E1 & Hm1 & Hs1).
    rewrite (bind_some _ _ _ _ _ E1).
    destruct (IH (swap l (par i) i) m1 (par i) x) as (l' & m' & -> & Hm' & Ho & Hp' & Hs'); [done|by eapply lookup_swap_l|lia|by eapply up_step; [lia|..]|].
    exists l', m'. split_and!; try done; [by rewrite Hp', swap_perm|].
    intros y Hy. rewrite Hs', Hs1; [done|done|by rewrite swap_perm].
  - exists l, m. split_and!; try done. intros k Hk. destruct (decide (k = i)) as [->|]; [|by apply Hok].
    intros a b Ha Hb. unfold le. congruence.
Qed.

(** What the two comparisons find. *)
Lemma smallest_spec (l : list positive) i x : l !! i = Some x →
  let s := smaller less_than (l !! (2 * i + 2)%nat) (smaller less_than (l !! (2 * i + 1)%nat) x) in
  le s x ∧ (∀ k, (0 < k)%nat → par k = i → ∀ y, l !! k = Some y → le s y) ∧
  (s = x ∨ ∃ j, (0 < j)%nat ∧ par j = i ∧ l !! j = Some s ∧ less_than s x = true).
Proof.
  intros Hx. set (j1 := (2 * i + 1)%nat). set (j2 := (2 * i + 2)%nat).
  set (s1 := smaller less_than (l !! j1) x).
  assert (le s1 x ∧ (∀ y, l !! j1 = Some y → le s1 y) ∧ (s1 = x ∨ l !! j1 = Some s1 ∧ less_than s1 x = true)) as (A1 & B1 & C1).
  { subst s1. destruct (l !! j1) as [y|] eqn:Ej; cbn [smaller]; [|split_and!; [apply le_refl|done|by left]].
    destruct (less_than y x) eqn:Hlt; split_and!; try (intros ? [= <-]); auto using le_refl, lt_le. }
  clearbody s1. intros s. subst s. assert (∀ k, (0 < k)%nat → par k = i → k = j1 ∨ k = j2) as Hk by (intros k; unfold par; lia).
  assert (par j1 = i ∧ par j2 = i) as [Hj1 Hj2] by (unfold par; lia).
  destruct (l !! j2) as [y|] eqn:Ej; cbn [smaller].
  - destruct (less_than y s1) eqn:Hlt.
    + assert (le y x) as Hyx by (apply (le_trans y s1 x); [by apply lt_le|done]).
      split_and!; [done| |].
      * intros k Hk0 Hki z Hz. destruct (Hk k Hk0 Hki) as [->| ->].
        -- apply (le_trans y s1 z); [by apply lt_le|by apply B1].
        -- assert (y = z) as -> by congruence. apply le_refl.
      * right. exists j2. split_and!; [lia|done|done|]. destruct C1 as [->|[_ C1]]; [done|].
        destruct (less_than y x) eqn:E; [done|]. pose proof (le_trans x y s1 E (lt_asym _ _ Hlt)) as Hc. congruence.
    + split_and!; [done| |].
      * intros k Hk0 Hki z Hz. destruct (Hk k Hk0 Hki) as [->| ->]; [by apply B1|]. unfold le. congruence.
      * destruct C1 as [->|[E C1]]; [by left|right]. exists j1. split_and!; [lia|done|done|done].
  - split_and!; [done| |].
    + intros k Hk0 Hki z Hz. destruct (Hk k Hk0 Hki) as [->| ->]; [by apply B1|congruence].
    + destruct C1 as [->|[E C1]]; [by left|right]. exists j1. split_and!; [lia|done|done|done].
Qed.

Lemma walk_down_spec fuel : ∀ l m i x, rep l m → l !! i = Some x → (length l - i < fuel)%nat → down_ok l i →
  ∃ l' m' i', walk_down less_than fuel x m = (Some tt, m') ∧ rep l' m' ∧ l' !! i' = Some x ∧ up_ok l' i' ∧
    Permutation l' l ∧ same_outside l m m'.
Proof.
  induction fuel as [|fuel IH]; intros l m i x Hm Hx Hf Hok; [lia|]. cbn [walk_down].
  rewrite (bind_some _ _ _ _ m (run_load _ _ _ (rep_nodes l m Hm i x Hx))). cbn [node_at left right].
  destruct (smallest_spec l i x Hx) as (Hsx & Hmin & Hs). set (s := smaller _ _ _) in *. cbv zeta. clearbody s.
  destruct (decide (s = x)) as [->|Hne].
  - exists l, m, i. split_and!; try done. split; [|apply Hok]. intros k Hk Hki.
    destruct (decide (par k = i)) as [E|]; [|by apply Hok]. rewrite E. intros a b Ha Hb.
    assert (a = x) as -> by congruence. by eapply Hmin.
  - destruct Hs as [|(j & Hj0 & Hji & Hj & Hlt)]; [done|].
    destruct (swap_spec l m i j x s Hm Hx Hj Hj0 Hji) as (m1 & E1 & Hm1 & Hs1).
    rewrite (bind_some _ _ _ _ _ E1). pose proof (lookup_lt_Some _ _ _ Hj).
    destruct (IH (swap l i j) m1 j x) as (l' & m' & i' & -> & Hm' & Hi' & Ho & Hp' & Hs'); [done|by eapply lookup_swap_r| | |].
    + rewrite length_swap. unfold par in Hji. lia.
    + eapply down_step; [done..| | |done].
      * intros k Hk0 Hki a b Ha Hb. assert (a = s) as -> by congruence. by eapply Hmin.
      * intros a b Ha Hb. assert (a = s) as -> by congruence. by assert (b = x) as -> by congruence.
    + exists l', m', i'. split_and!; try done; [by rewrite Hp', swap_perm|].
      intros y Hy. rewrite Hs', Hs1; [done|done|by rewrite swap_perm].
Qed.
End Order.

(** ** The path to a place *)

(** The turns from the root to the [p]-th node in level order; [true] is right. *)
Fixpoint path_bits (p : positive) : list bool :=
  match p with xH => [] | xO p => path_bits p ++ [false] | xI p => path_bits p ++ [true] end.
Fixpoint bits_val (bs : list bool) : Z := match bs with [] => 0 | b :: bs => Z.b2z b + 2 * bits_val bs end.
Definition turn (i : nat) (b : bool) : nat := (2 * i + 1 + (if b then 1 else 0))%nat.
Definition place (i : nat) (bs : list bool) : nat := foldl turn i bs.

Lemma place_path p : place 0 (path_bits p) = (Pos.to_nat p - 1)%nat.
Proof.
  induction p as [p IH|p IH|]; cbn [path_bits]; [..|done]; unfold place in *; rewrite foldl_app, IH; cbn [foldl]; unfold turn; lia.
Qed.
Lemma bits_val_bound bs : 0 ≤ bits_val bs < 2 ^ zlen bs.
Proof.
  induction bs as [|b bs IH]; [done|]. cbn [bits_val]. rewrite zlen_cons, Z.pow_add_r by (pose proof (zlen_nonneg bs); lia).
  change (2 ^ 1) with 2. destruct b; cbn [Z.b2z]; lia.
Qed.
Lemma path_bits_length p : 2 ^ zlen (path_bits p) ≤ Z.pos p.
Proof.
  induction p as [p IH|p IH|]; cbn [path_bits]; [..|done];
    rewrite zlen_app, Z.pow_add_r by (apply zlen_nonneg || done); change (2 ^ zlen [_]) with 2; lia.
Qed.
Lemma path_loop_spec fuel : ∀ p bs, (length (path_bits p) < fuel)%nat → zlen (path_bits p) + zlen bs < 32 →
  path_loop fuel (bits_val bs) (zlen bs) (Z.pos p) = (bits_val (path_bits p ++ bs), zlen (path_bits p ++ bs)).
Proof.
  induction fuel as [|fuel IH]; intros p bs Hf Hb; [lia|]. cbn [path_loop].
  assert (∀ b q, (length (path_bits q) < fuel)%nat →
    zlen (path_bits q) + 1 + zlen bs < 32 →
    path_loop fuel ((bits_val bs <<32 1) .| Z.b2z b) (u32 (zlen bs + 1)) (Z.pos q) =
    (bits_val ((path_bits q ++ [b]) ++ bs), zlen ((path_bits q ++ [b]) ++ bs))) as Hstep.
  { intros b q Hq Hl. pose proof (bits_val_bound bs) as Hv. pose proof (zlen_nonneg (path_bits q)). pose proof (zlen_nonneg bs).
    assert (2 ^ zlen bs ≤ 2 ^ 30) by (apply Z.pow_le_mono_r; lia). change (2 ^ 30) with 1073741824 in *.
    rewrite <- app_assoc. cbn [app]. rewrite <- (IH q (b :: bs)) by (rewrite ?zlen_cons; lia). f_equal.
    - rewrite wrap_small by (rewrite Z.shiftl_mul_pow2 by done; change (2 ^ 1) with 2; word_lia).
      rewrite lor_shiftl_add by (destruct b; done || lia). cbn [bits_val]. change (2 ^ 1) with 2. lia.
    - rewrite zlen_cons, wrap_small by word_lia. lia. }
  destruct p as [p|p|]; [| |done].
  - rewrite (proj2 (Z.leb_le 2 (Z.pos p~1))) by lia. replace (Z.pos p~1 / 2) with (Z.pos p) by lia.
    replace (Z.pos p~1 .& 1) with (Z.b2z true) by (rewrite land_1; cbn; lia). cbn [path_bits] in *.
    rewrite zlen_app in Hb. rewrite length_app in Hf. change (zlen [true]) with 1 in Hb. cbn [length] in Hf. apply Hstep; lia.
  - rewrite (proj2 (Z.leb_le 2 (Z.pos p~0))) by lia. replace (Z.pos p~0 / 2) with (Z.pos p) by lia.
    replace (Z.pos p~0 .& 1) with (Z.b2z false) by (rewrite land_1; cbn; lia). cbn [path_bits] in *.
    rewrite zlen_app in Hb. rewrite length_app in Hf. change (zlen [false]) with 1 in Hb. cbn [length] in Hf. apply Hstep; lia.
Qed.
Lemma compute_path_spec p : Z.pos p < 2 ^ 32 →
  compute_path (Z.pos p) = (bits_val (path_bits p), zlen (path_bits p)) ∧ zlen (path_bits p) < 32.
Proof.
  intros Hp. pose proof (path_bits_length p) as Hl.
  assert (zlen (path_bits p) < 32) as Hz by (apply (Z.pow_lt_mono_r_iff 2); lia).
  split; [|done]. unfold compute_path. 
  pose proof (path_loop_spec 32 p []) as E. rewrite app_nil_r in E. apply E; change (zlen (@nil bool)) with 0; unfold zlen in *; lia.
Qed.

(** The pointer to the place [i]. *)
Inductive slot_at (l : list positive) : nat → slot → Prop :=
  | SlotMin : slot_at l 0 AtMin
  | SlotLeft a x : l !! a = Some x → slot_at l (2 * a + 1) (AtLeft x)
  | SlotRight a x : l !! a = Some x → slot_at l (2 * a + 2) (AtRight x).

Lemma read_slot_spec l m i s : rep l m → slot_at l i s → read_slot s m = (Some (l !! i), m).
Proof.
  intros Hm [|a x Ha|a x Ha]; cbn [read_slot].
  - unfold get_heap. rewrite (bind_some _ _ _ (hp m) m) by done. by rewrite (rep_min l m Hm).
  - by rewrite (bind_some _ _ _ _ m (run_load _ _ _ (rep_nodes l m Hm a x Ha))).
  - by rewrite (bind_some _ _ _ _ m (run_load _ _ _ (rep_nodes l m Hm a x Ha))).
Qed.
Lemma step_slot_spec l m i x s b path : rep l m → slot_at l i s → l !! i = Some x → path .& 1 = Z.b2z b →
  ∃ s', step_slot path s m = (Some s', m) ∧ slot_at l (turn i b) s'.
Proof.
  intros Hm Hs Hx Hb. unfold step_slot. rewrite (bind_some _ _ _ _ m (read_slot_spec l m i s Hm Hs)), Hx.
  rewrite (bind_some _ _ _ x m) by done. rewrite Hb. eexists. split; [reflexivity|]. unfold turn.
  destruct b; cbn; [rewrite <- Nat.add_assoc; by apply SlotRight|rewrite Nat.add_0_r; by apply SlotLeft].
Qed.
Lemma place_le i bs : (i ≤ place i bs)%nat.
Proof. revert i. induction bs as [|b bs IH]; intros i; [done|]. 
  change (place i (b :: bs)) with (place (turn i b) bs). specialize (IH (turn i b)). assert (i < turn i b)%nat by (unfold turn; lia). lia.
Qed.
Lemma traverse_spec fuel : ∀ bs l m i s ps, rep l m → slot_at l i s → (length bs < fuel)%nat → (place i bs ≤ length l)%nat →
  ∃ ps' s', traverse fuel (bits_val bs) (zlen bs) ps s m = (Some (ps', s'), m) ∧ slot_at l (place i bs) s' ∧
    (bs = [] ∧ ps' = ps ∨ bs ≠ [] ∧ slot_at l (par (place i bs)) ps').
Proof.
  induction fuel as [|fuel IH]; intros bs l m i s ps Hm Hs Hf Hl; [lia|]. cbn [traverse].
  destruct bs as [|b bs]; [exists ps, s; split_and!; [done|done|by left]|].
  rewrite zlen_cons, (proj2 (Z.ltb_lt 0 (1 + zlen bs))) by (pose proof (zlen_nonneg bs); lia).
  pose proof (place_le (turn i b) bs) as Hple. change (place i (b :: bs)) with (place (turn i b) bs) in *.
  assert (i < turn i b)%nat by (unfold turn; lia).
  destruct (lookup_lt_is_Some_2 l i) as [x Hx]; [lia|].
  destruct (step_slot_spec l m i x s b (bits_val (b :: bs)) Hm Hs Hx) as (s1 & E1 & Hs1).
  { rewrite land_1. cbn [bits_val]. destruct b; cbn [Z.b2z]; lia. }
  rewrite (bind_some _ _ _ _ _ E1).
  destruct (IH bs l m (turn i b) s1 s Hm Hs1) as (ps' & s' & E & Hs' & Hps'); [cbn in Hf; lia|done|].
  assert (bits_val (b :: bs) >>> 1 = bits_val bs) as ->.
  { rewrite shiftr_div by done. cbn [bits_val]. change (2 ^ 1) with 2. destruct b; cbn [Z.b2z]; lia. }
  replace (1 + zlen bs - 1) with (zlen bs) by lia. rewrite E. exists ps', s'. split_and!; [done|done|right].
  split; [done|]. destruct Hps' as [[-> ->]|[_ Hps']]; [|done]. cbn [place foldl].
  replace (par (turn i b)) with i; [done|]. unfold par, turn. destruct b; lia.
Qed.
(** To the [n]-th node, or to the free place behind the last. *)
Lemma traverse_path l m p : rep l m → Z.pos p < 2 ^ 32 → (Pos.to_nat p ≤ S (length l))%nat →
  ∃ ps s, (let '(path, k) := compute_path (Z.pos p) in traverse 33 path k AtMin AtMin m) = (Some (ps, s), m) ∧
    slot_at l (Pos.to_nat p - 1) s ∧ slot_at l (par (Pos.to_nat p - 1)) ps.
Proof.
  intros Hm Hp Hl. destruct (compute_path_spec p Hp) as [-> Hz]. pose proof (place_path p) as Hpl.
  destruct (traverse_spec 33 (path_bits p) l m 0 AtMin AtMin Hm (SlotMin l)) as (ps & s & E & Hs & Hps);
    [unfold zlen in Hz; lia|lia|]. rewrite Hpl in *. exists ps, s. split_and!; [done|done|].
  destruct Hps as [[Hn ->]|[_ Hps]]; [|done]. rewrite Hn in Hpl. cbn in Hpl. rewrite <- Hpl. apply SlotMin.
Qed.

(** ** Insertion *)

Lemma run_update_any f x m n : nodes m !! x = Some n → update f x m = (Some tt, alter_node f x m).
Proof. intros Hx. unfold update. by rewrite (bind_some _ _ _ n m) by by apply run_load. Qed.
Lemma run_set_left x v m n : nodes m !! x = Some n → set_left x v m = (Some tt, alter_node (with_left v) x m).
Proof. apply run_update_any. Qed.
Lemma run_set_right x v m n : nodes m !! x = Some n → set_right x v m = (Some tt, alter_node (with_right v) x m).
Proof. apply run_update_any. Qed.
Lemma run_set_parent x v m n : nodes m !! x = Some n → set_parent x v m = (Some tt, alter_node (with_parent v) x m).
Proof. apply run_update_any. Qed.
Lemma rep_alter_out l m f x : rep l m → x ∉ l → rep l (alter_node f x m).
Proof.
  intros [H1 H2 H3 H4] Hx. split; [done..|]. intros i y Hy. unfold alter_node. cbn [nodes].
  rewrite lookup_alter_ne; [by apply H4|]. intros ->. apply Hx. by eapply list_elem_of_lookup_2.
Qed.
(** A node outside the heap is overwritten. *)
Lemma reset_node l m x v : rep l m → x ∉ l → is_Some (nodes m !! x) →
  ∃ m', rep l m' ∧ hp m' = hp m ∧ nodes m' !! x = Some {| left := None; right := None; parent := v |} ∧
    (∀ y, y ≠ x → nodes m' !! y = nodes m !! y) ∧
    (_ ← set_left x None; _ ← set_right x None; set_parent x v) m = (Some tt, m').
Proof.
  intros Hm Hx [n Hn]. exists (alter_node (with_parent v) x (alter_node (with_right None) x (alter_node (with_left None) x m))).
  assert (∀ f m n, nodes m !! x = Some n → nodes (alter_node f x m) !! x = Some (f n)) as Ha
    by (intros f m0 n0 H0; unfold alter_node; cbn [nodes]; by rewrite lookup_alter_eq, H0).
  split_and!; [by repeat apply rep_alter_out|done|by rewrite (Ha _ _ _ (Ha _ _ _ (Ha _ _ _ Hn)))| |].
  - intros y Hy. unfold alter_node. cbn [nodes]. by rewrite !lookup_alter_ne.
  - unfold set_left, set_right, set_parent.
    rewrite (bind_some _ _ _ tt _ (run_update_any _ _ _ _ Hn)), (bind_some _ _ _ tt _ (run_update_any _ _ _ _ (Ha _ _ _ Hn))).
    apply (run_update_any _ _ _ _ (Ha _ _ _ (Ha _ _ _ Hn))).
Qed.

(** What a pointer to a place says, in terms of the place. *)
Lemma slot_inv l i s : slot_at l i s →
  match s with
  | AtMin => i = 0%nat
  | AtLeft q => i = (2 * par i + 1)%nat ∧ l !! par i = Some q
  | AtRight q => i = (2 * par i + 2)%nat ∧ l !! par i = Some q
  end.
Proof.
  intros [|a x Ha|a x Ha]; [done|..].
  - assert (par (2 * a + 1) = a) as -> by (unfold par; lia). done.
  - assert (par (2 * a + 2) = a) as -> by (unfold par; lia). done.
Qed.

(** Linking a node with the right parent behind the last place. *)
Lemma link_last l m s x : rep l m → x ∉ l → slot_at l (length l) s →
  nodes m !! x = Some {| left := None; right := None; parent := if decide (length l = 0%nat) then None else l !! par (length l) |} →
  zlen l + 1 < 2 ^ 32 →
  ∃ m', write_slot s (Some x) m = (Some tt, m') ∧ nelts (hp m') = zlen l ∧
    rep (l ++ [x]) {| hp := {| min := min (hp m'); nelts := u32 (zlen l + 1) |}; nodes := nodes m' |} ∧
    (∀ y, y ∉ l → nodes m' !! y = nodes m !! y).
Proof.
  intros Hm Hx Hs%slot_inv Hnx Hlen. pose proof (rep_nodup l m Hm) as Hnd.
  set (m1 := match s with AtMin => {| hp := {| min := Some x; nelts := nelts (hp m) |}; nodes := nodes m |}
             | AtLeft q => alter_at l (with_left (Some x)) (par (length l)) m
             | AtRight q => alter_at l (with_right (Some x)) (par (length l)) m end).
  assert (write_slot s (Some x) m = (Some tt, m1) ∧ nelts (hp m1) = nelts (hp m)) as [E1 En].
  { subst m1. destruct s as [|q|q]; [done|..]; destruct Hs as [_ Ha]; rewrite hp_alter_at; (split; [|done]);
      (apply run_update; [by apply rep_alloc|done]). }
  exists m1.
  assert (length l = 0 ∨ length l = 2 * par (length l) + 1 ∨ length l = 2 * par (length l) + 2)%nat as Hp by (unfold par; lia).
  split; [done|]. split; [by rewrite En, (rep_nelts l m Hm)|]. split.
  - pose proof (zlen_nonneg l). split; cbn [hp min nelts nodes].
    + subst m1. destruct s as [|q|q]; cbn [hp min]; rewrite ?hp_alter_at.
      * destruct l; [done|discriminate].
      * rewrite (rep_min l m Hm). destruct l; [cbn in Hs; lia|done].
      * rewrite (rep_min l m Hm). destruct l; [cbn in Hs; lia|done].
    + rewrite wrap_small by word_lia. by rewrite zlen_app.
    + apply NoDup_app. split_and!; [done| |apply NoDup_singleton]. intros y Hy ->%list_elem_of_singleton. done.
    + intros i y Hy.
      assert (∀ k, (l ++ [x]) !! k = if decide (k = length l) then Some x else l !! k) as Hl.
      { intros k. destruct (decide (k = length l)) as [Hk|Hk]; [by apply list_lookup_middle|]. destruct (decide (k < length l)%nat); [by apply lookup_app_l|].
        rewrite !lookup_ge_None_2; [done|lia|rewrite length_app; cbn; lia]. }
      rewrite Hl in Hy. unfold node_at. rewrite !Hl. destruct (decide (i = length l)) as [->|Hi].
      * assert (y = x) as -> by congruence. assert (nodes m1 !! x = nodes m !! x) as ->.
        { subst m1. destruct s; [done|by apply nodes_alter_at_out..]. }
        rewrite Hnx, (decide_False (P := (2 * length l + 1)%nat = length l)), (decide_False (P := (2 * length l + 2)%nat = length l)) by lia.
        rewrite (lookup_ge_None_2 l (2 * length l + 1)), (lookup_ge_None_2 l (2 * length l + 2)) by lia.
        destruct (decide (length l = 0%nat)); [done|].
        by rewrite (decide_False (P := par (length l) = length l)) by lia.
      * pose proof (lookup_lt_Some _ _ _ Hy). pose proof (rep_nodes l m Hm i y Hy) as Hny.
        assert (par i ≠ length l) by (unfold par; lia). rewrite (decide_False (P := par i = length l)) by done.
        subst m1. destruct s as [|q|q].
        -- destruct l; [done|discriminate].
        -- rewrite (nodes_alter_at l _ _ i m y Hnd Hy), Hny. unfold with_left, node_at. cbn [fmap option_fmap option_map left right parent].
           repeat case_decide; try lia; done.
        -- rewrite (nodes_alter_at l _ _ i m y Hnd Hy), Hny. unfold with_right, node_at. cbn [fmap option_fmap option_map left right parent].
           repeat case_decide; try lia; done.
  - intros y Hy. subst m1. destruct s; [done|by apply nodes_alter_at_out..].
Qed.

Section Exact.
Context (less_than : positive → positive → bool) `{!HeapOrder less_than}.

(** Behind the last place only the new node can be out of order. *)
Lemma snoc_up_ok l x : ordered less_than l → up_ok less_than (l ++ [x]) (length l).
Proof.
  intros Ho. assert (∀ k, k ≠ length l → (l ++ [x]) !! k = l !! k) as Hl.
  { intros k Hk. destruct (decide (k < length l)%nat); [by apply lookup_app_l|].
    rewrite !lookup_ge_None_2; [done|lia|rewrite length_app; cbn; lia]. }
  split.
  - intros k Hk Hkl a b Ha Hb. rewrite Hl in Hb by done. pose proof (lookup_lt_Some _ _ _ Hb).
    rewrite Hl in Ha by (unfold par; lia). by apply (Ho k).
  - intros Hl0 k Hk Hkp a b Ha Hb. rewrite Hl in Hb by (unfold par in Hkp; lia). pose proof (lookup_lt_Some _ _ _ Hb). unfold par in Hkp. lia.
Qed.

Lemma heap_insert_spec l m x : rep l m → ordered less_than l → x ∉ l → is_Some (nodes m !! x) → zlen l + 1 < 2 ^ 32 →
  ∃ l' m', heap_insert less_than x m = (Some tt, m') ∧ rep l' m' ∧ ordered less_than l' ∧ Permutation l' (x :: l) ∧
    (∀ y, y ∉ x :: l → nodes m' !! y = nodes m !! y).
Proof.
  intros Hm Ho Hx Hn Hlen. pose proof (zlen_nonneg l).
  destruct (reset_node l m x None Hm Hx Hn) as (m1 & Hm1 & Hh1 & Hn1 & Hs1 & E1).
  unfold heap_insert.
  assert (∀ A (f : heap_st A), (_ ← set_left x None; _ ← set_right x None; _ ← set_parent x None; f) m = f m1) as ->.
  { intros A f. revert E1. unfold mbind, st_bind. repeat case_match; naive_solver. }
  unfold get_heap at 1. rewrite (bind_some _ _ _ (hp m1) m1) by done.
  rewrite (rep_nelts l m1 Hm1), wrap_small by (unfold is_uint; lia).
  assert (1 + zlen l = Z.pos (Pos.of_succ_nat (length l))) as -> by (unfold zlen; lia).
  destruct (traverse_path l m1 (Pos.of_succ_nat (length l)) Hm1) as (ps & s & E & Hs & Hps); [unfold zlen in *; lia|lia|].
  rewrite SuccNat2Pos.id_succ in Hs, Hps. cbn [Nat.sub] in Hs, Hps. rewrite Nat.sub_0_r in Hs, Hps.
  destruct (compute_path _) as [path k]. rewrite (bind_some _ _ _ _ _ E). cbv beta iota.
  rewrite (bind_some _ _ _ _ _ (read_slot_spec l m1 _ ps Hm1 Hps)).
  rewrite (bind_some _ _ _ tt _ (run_set_parent x _ m1 _ Hn1)).
  set (m2 := alter_node (with_parent (l !! par (length l))) x m1).
  assert (rep l m2) as Hm2 by by apply rep_alter_out.
  destruct (link_last l m2 s x Hm2 Hx Hs) as (m3 & E3 & En3 & Hm3 & Hs3); [|lia|].
  { subst m2. unfold alter_node. cbn [nodes]. rewrite lookup_alter_eq, Hn1. cbn. unfold with_parent. cbn [left right]. do 2 f_equal.
    destruct (decide (length l = 0%nat)) as [E0|]; [|done]. by apply length_zero_iff_nil in E0 as ->. }
  rewrite (bind_some _ _ _ _ _ E3). unfold get_heap. rewrite (bind_some _ _ _ (hp m3) m3) by done. rewrite En3.
  set (m4 := {| hp := {| min := min (hp m3); nelts := u32 (zlen l + 1) |}; nodes := nodes m3 |}) in *.
  rewrite (bind_some _ _ _ tt m4) by done.
  destruct (walk_up_spec less_than (S (Z.to_nat (zlen l + 1))) (l ++ [x]) m4 (length l) x) as (l' & m' & -> & Hm' & Ho' & Hp & Hs4);
    [done|by apply list_lookup_middle|unfold zlen; lia|by apply snoc_up_ok|].
  exists l', m'. split_and!; try done; [by rewrite Hp, Permutation_app_comm|].
  intros y Hy. rewrite not_elem_of_cons in Hy. destruct Hy as [Hyx Hyl]. 
  rewrite Hs4 by (intros [?|?%list_elem_of_singleton]%elem_of_app; by auto).
  cbn [nodes]. rewrite Hs3 by done. subst m2. unfold alter_node. cbn [nodes]. rewrite lookup_alter_ne by done. by apply Hs1.
Qed.
End Exact.

(** ** Removal *)

Definition with_nelts (n : Z) (m : heap_mem) : heap_mem := {| hp := {| min := min (hp m); nelts := n |}; nodes := nodes m |}.
Lemma lookup_snoc (l : list positive) x k : (l ++ [x]) !! k = if decide (k = length l) then Some x else l !! k.
Proof.
  destruct (decide (k = length l)) as [->|Hk]; [by apply list_lookup_middle|].
  destruct (decide (k < length l)%nat); [by apply lookup_app_l|].
  rewrite !lookup_ge_None_2; [done|lia|rewrite length_app; cbn; lia].
Qed.
Lemma read_slot_nelts l m i s n : rep l m → slot_at l i s → read_slot s (with_nelts n m) = (Some (l !! i), with_nelts n m).
Proof.
  intros Hm [|a x Ha|a x Ha]; cbn [read_slot].
  - unfold get_heap. rewrite (bind_some _ _ _ (hp (with_nelts n m)) (with_nelts n m)) by done. cbn [with_nelts hp min].
    by rewrite (rep_min l m Hm).
  - rewrite (bind_some _ _ _ (node_at l a) (with_nelts n m)); [done|]. apply run_load, (rep_nodes l m Hm a x Ha).
  - rewrite (bind_some _ _ _ (node_at l a) (with_nelts n m)); [done|]. apply run_load, (rep_nodes l m Hm a x Ha).
Qed.

(** Cutting off the last node. *)
Lemma unlink_last l c m s : rep (l ++ [c]) m → slot_at (l ++ [c]) (length l) s →
  ∃ m', write_slot s None (with_nelts (zlen l) m) = (Some tt, m') ∧ rep l m' ∧
    nodes m' !! c = nodes m !! c ∧ (∀ y, y ∉ l → nodes m' !! y = nodes m !! y).
Proof.
  intros Hm Hs%slot_inv. pose proof (rep_nodup _ m Hm) as Hnd.
  pose proof Hnd as [Hn [Hc _]]%NoDup_app. assert (c ∉ l) as Hcl by (intros Hc'; apply (Hc c Hc'); by apply list_elem_of_singleton).
  set (m0 := with_nelts (zlen l) m).
  set (m1 := match s with AtMin => {| hp := {| min := None; nelts := zlen l |}; nodes := nodes m |}
             | AtLeft q => alter_at l (with_left None) (par (length l)) m0
             | AtRight q => alter_at l (with_right None) (par (length l)) m0 end).
  assert (∀ a x, l !! a = Some x → nodes m !! x = Some (node_at (l ++ [c]) a)) as Hnodes.
  { intros a x Ha. apply (rep_nodes _ m Hm). by apply lookup_app_l_Some. }
  assert (alloc l m0) as Hal by (intros a x Ha; eexists; exact (Hnodes a x Ha)).
  assert (length l = 0 ∨ length l = 2 * par (length l) + 1 ∨ length l = 2 * par (length l) + 2)%nat as Hp by (unfold par; lia).
  rewrite lookup_snoc in Hs. exists m1. split.
  { subst m1. destruct s as [|q|q]; [done|..]; destruct Hs as [Hq Ha]; rewrite decide_False in Ha by lia; by apply run_update. }
  assert (∀ y, y ∉ l → nodes m1 !! y = nodes m !! y) as Hframe
    by (intros y Hy; subst m1; destruct s; [done|by rewrite nodes_alter_at_out..]).
  split; [|by split; [apply Hframe|]]. split.
  - pose proof (rep_min _ m Hm) as Hmin. rewrite lookup_snoc in Hmin. subst m1.
    destruct s as [|q|q]; cbn [hp min]; rewrite ?hp_alter_at; [by destruct l|..]; destruct Hs as [Hq Ha]; cbn [m0 with_nelts hp min];
      by rewrite Hmin, decide_False by lia.
  - subst m1. destruct s; cbn [hp nelts]; by rewrite ?hp_alter_at.
  - done.
  - intros i y Hy. pose proof (lookup_lt_Some _ _ _ Hy). pose proof (Hnodes i y Hy) as Hny. unfold node_at in Hny |- *.
    rewrite !lookup_snoc in Hny. assert (par i ≠ length l) by (unfold par; lia). rewrite (decide_False (P := par i = length l)) in Hny by done.
    subst m1. destruct s as [|q|q]; [destruct l; done|..]; destruct Hs as [Hq Ha];
      rewrite (nodes_alter_at l _ _ i m0 y Hn Hy); cbn [m0 with_nelts nodes]; rewrite Hny; unfold with_left, with_right;
      cbn [fmap option_fmap option_map left right parent];
      repeat match goal with |- context [decide (?a = ?b)] => destruct (decide (a = b)); try (exfalso; lia) end; try done;
      f_equal; f_equal; by rewrite lookup_ge_None_2 by lia.
Qed.

(** Putting a node outside the heap in the place of another. *)
Section Replace.
Context (l : list positive) (m : heap_mem) (i : nat) (x c : positive) (nc : heap_node).
Hypotheses (Hm : rep l m) (Hi : l !! i = Some x) (Hc : c ∉ l) (Hnc : nodes m !! c = Some nc).

Definition replaced : heap_mem :=
  let m := alter_node (λ _, node_at l i) c m in
  let m := alter_at l (with_parent (Some c)) (2 * i + 1) m in
  let m := alter_at l (with_parent (Some c)) (2 * i + 2) m in
  if decide (i = 0%nat) then {| hp := {| min := Some c; nelts := nelts (hp m) |}; nodes := nodes m |}
  else alter_at l (if decide (i = 2 * par i + 1)%nat then with_left (Some c) else with_right (Some c)) (par i) m.

Lemma nodes_alter_self f m0 n0 : nodes m0 !! c = Some n0 → nodes (alter_node f c m0) !! c = Some (f n0).
Proof using Type. intros H. unfold alter_node. cbn [nodes]. by rewrite lookup_alter_eq, H. Qed.
Lemma nodes_alter_other f m0 y : y ∈ l → nodes (alter_node f c m0) !! y = nodes m0 !! y.
Proof using Hc. intros Hy. unfold alter_node. cbn [nodes]. apply lookup_alter_ne. intros E. apply Hc. by rewrite E. Qed.

(** The three assignments amount to copying the node. *)
Lemma copy_node : alter_node (with_parent (parent (node_at l i))) c (alter_node (with_right (right (node_at l i))) c
  (alter_node (with_left (left (node_at l i))) c m)) = alter_node (λ _, node_at l i) c m.
Proof using Hnc.
  unfold alter_node. cbn [hp nodes]. f_equal. apply map_eq. intros y.
  destruct (decide (c = y)) as [<-|Hy]; [by rewrite !lookup_alter_eq, Hnc|by rewrite !lookup_alter_ne].
Qed.

Lemma replace_run : replace_node x c m = (Some tt, replaced).
Proof using Hm Hi Hc Hnc.
  pose proof (rep_nodup l m Hm) as Hn. pose proof (rep_nodes l m Hm i x Hi) as Hx.
  assert (x ∈ l) as Hxl by by eapply list_elem_of_lookup_2. unfold replace_node.
  rewrite (bind_some _ _ _ _ m (run_load _ _ _ Hx)). 
  rewrite (bind_some _ _ _ tt _ (run_set_left _ _ _ _ Hnc)). set (m1 := alter_node _ c m).
  assert (nodes m1 !! x = Some (node_at l i)) as Hx1 by (subst m1; by rewrite nodes_alter_other).
  pose proof (nodes_alter_self (with_left (left (node_at l i))) m nc Hnc) as Hc1. fold m1 in Hc1.
  rewrite (bind_some _ _ _ _ m1 (run_load _ _ _ Hx1)).
  rewrite (bind_some _ _ _ tt _ (run_set_right _ _ _ _ Hc1)). set (m2 := alter_node _ c m1).
  assert (nodes m2 !! x = Some (node_at l i)) as Hx2 by (subst m2; by rewrite nodes_alter_other).
  pose proof (nodes_alter_self (with_right (right (node_at l i))) m1 _ Hc1) as Hc2. fold m2 in Hc2.
  rewrite (bind_some _ _ _ _ m2 (run_load _ _ _ Hx2)).
  rewrite (bind_some _ _ _ tt _ (run_set_parent _ _ _ _ Hc2)).
  unfold m2, m1. rewrite copy_node. clear m1 m2 Hx1 Hx2 Hc1 Hc2.
  set (m3 := alter_node _ c m).
  pose proof (nodes_alter_self (λ _, node_at l i) m nc Hnc) as Hc3. fold m3 in Hc3.
  assert (∀ y, y ∈ l → nodes m3 !! y = nodes m !! y) as Hl3 by (intros y Hy; by apply nodes_alter_other).
  assert (alloc l m3) as A3.
  { intros a y Ha. rewrite Hl3 by (by eapply list_elem_of_lookup_2). by eapply (rep_alloc l m Hm). }
  rewrite (bind_some _ _ _ _ m3 (run_load _ _ _ Hc3)). cbn [node_at left].
  erewrite bind_some by by apply run_set_parent_of. set (m4 := alter_at l _ (2 * i + 1) m3).
  assert (alloc l m4) as A4 by by apply alloc_alter_at.
  assert (nodes m4 !! c = Some (node_at l i)) as Hc4 by (subst m4; by rewrite nodes_alter_at_out).
  rewrite (bind_some _ _ _ _ m4 (run_load _ _ _ Hc4)). cbn [node_at right].
  erewrite bind_some by by apply run_set_parent_of. set (m5 := alter_at l _ (2 * i + 2) m4).
  assert (alloc l m5) as A5 by by apply alloc_alter_at.
  assert (i = 0 ∨ i = 2 * par i + 1 ∨ i = 2 * par i + 2)%nat as Hpi by (unfold par; lia).
  assert (nodes m5 !! x = Some (node_at l i)) as Hx5 by (subst m5 m4; at_lookup; by rewrite Hl3).
  rewrite (bind_some _ _ _ _ m5 (run_load _ _ _ Hx5)). cbn [node_at parent].
  unfold replaced. fold m3 m4 m5. destruct (decide (i = 0%nat)) as [|H0]; [done|].
  destruct (lookup_lt_is_Some_2 l (par i)) as [q Hq]; [apply lookup_lt_Some in Hi; lia|]. rewrite Hq.
  assert (nodes m5 !! q = Some (node_at l (par i))) as Hq5.
  { subst m5 m4. at_lookup. rewrite Hl3 by (by eapply list_elem_of_lookup_2). by apply (rep_nodes l m Hm). }
  rewrite (bind_some _ _ _ _ m5 (run_load _ _ _ Hq5)). cbn [node_at left].
  pose proof (place_inj l m Hm i x Hi (2 * par i + 1)%nat) as E.
  destruct (decide (i = 2 * par i + 1)%nat) as [H|H].
  - rewrite decide_True by by apply E. by apply run_update.
  - rewrite decide_False by naive_solver. by apply run_update.
Qed.

Lemma replace_frame y : y ∉ c :: l → nodes replaced !! y = nodes m !! y.
Proof using Type.
  intros [Hy1 Hy2]%not_elem_of_cons. unfold replaced. case_decide; cbn [nodes]; rewrite !nodes_alter_at_out by done;
    unfold alter_node; cbn [nodes]; by rewrite lookup_alter_ne.
Qed.

Lemma replace_rep : rep (<[i := c]> l) replaced.
Proof using Hm Hi Hc Hnc.
  pose proof (rep_nodup l m Hm) as Hn. pose proof (lookup_lt_Some _ _ _ Hi) as Hil.
  assert (∀ k, <[i := c]> l !! k = if decide (k = i) then Some c else l !! k) as Hl.
  { intros k. destruct (decide (k = i)) as [->|]; [by apply list_lookup_insert_eq|by apply list_lookup_insert_ne]. }
  assert (i = 0 ∨ i = 2 * par i + 1 ∨ i = 2 * par i + 2)%nat as Hpi by (unfold par; lia).
  split.
  - rewrite Hl. unfold replaced. destruct (decide (i = 0%nat)) as [->|].
    + by rewrite (decide_True (P := 0%nat = 0%nat)) by done.
    + rewrite !hp_alter_at, (decide_False (P := 0%nat = i)) by lia. apply (rep_min l m Hm).
  - unfold zlen. rewrite length_insert. unfold replaced.
    destruct (decide (i = 0%nat)); cbn [hp nelts]; rewrite !hp_alter_at; apply (rep_nelts l m Hm).
  - apply NoDup_alt. intros a b y. rewrite !Hl. intros Ha Hb.
    assert (∀ k, l !! k ≠ Some c) as Hck by (intros k Hk; apply Hc; by eapply list_elem_of_lookup_2).
    destruct (decide (a = i)) as [->|], (decide (b = i)) as [->|]; [done| | |by eapply NoDup_lookup];
      exfalso; [exact (Hck b (eq_trans Hb (eq_sym Ha)))|exact (Hck a (eq_trans Ha (eq_sym Hb)))].
  - intros k y. rewrite Hl. intros Hy. assert (k = 0 ∨ k = 2 * par k + 1 ∨ k = 2 * par k + 2)%nat as Hpk by (unfold par; lia).
    set (m3 := alter_node (λ _, node_at l i) c m).
    assert (∀ y, y ∈ l → nodes m3 !! y = nodes m !! y) as Hl3 by (intros z Hz; by apply nodes_alter_other).
    assert (∀ m5 z, nodes (if decide (i = 0%nat) then {| hp := {| min := Some c; nelts := nelts (hp m5) |}; nodes := nodes m5 |}
        else alter_at l (if decide (i = 2 * par i + 1)%nat then with_left (Some c) else with_right (Some c)) (par i) m5) !! z =
      nodes (if decide (i = 0%nat) then m5
        else alter_at l (if decide (i = 2 * par i + 1)%nat then with_left (Some c) else with_right (Some c)) (par i) m5) !! z) as Hif
      by (intros; by destruct (decide (i = 0%nat))).
    unfold replaced. fold m3. rewrite Hif. clear Hif.
    destruct (decide (k = i)) as [->|Hk].
    + assert (y = c) as -> by congruence.
      assert (nodes m3 !! c = Some (node_at l i)) as Hc3 by (by apply (nodes_alter_self _ m nc)).
      destruct (decide (i = 0%nat)); rewrite !nodes_alter_at_out, Hc3 by done; unfold node_at; rewrite !Hl;
        rewrite (decide_False (P := (2 * i + 1)%nat = i)), (decide_False (P := (2 * i + 2)%nat = i)) by lia; do 2 f_equal;
        destruct (decide (i = 0%nat)); try done; by rewrite decide_False by lia.
    + assert (y ∈ l) as Hyl by by eapply list_elem_of_lookup_2. pose proof (rep_nodes l m Hm k y Hy) as Hny.
      destruct (decide (i = 0%nat)); at_lookup; rewrite Hl3, Hny by done;
        try match goal with |- context [if decide (?a = ?b) then with_left _ else with_right _] => destruct (decide (a = b)) end;
        unfold node_at, with_left, with_right, with_parent; cbn [left right parent fmap option_fmap option_map];
        rewrite ?Hl; f_equal; f_equal;
        repeat match goal with |- context [decide (?a = ?b)] => destruct (decide (a = b)); try (exfalso; lia) end;
        first [congruence|done].
Qed.
End Replace.

Section ExactRemove.
Context (less_than : positive → positive → bool) `{!HeapOrder less_than}.

Lemma ordered_prefix l c : ordered less_than (l ++ [c]) → ordered less_than l.
Proof.
  intros Ho k Hk a b Ha Hb. apply (Ho k Hk); by apply lookup_app_l_Some.
Qed.
(** The node that takes the place of a removed one can be out of order in both directions. *)
Lemma replace_down_ok l i x c : ordered less_than l → l !! i = Some x → down_ok less_than (<[i := c]> l) i.
Proof.
  intros Ho Hi. pose proof (lookup_lt_Some _ _ _ Hi) as Hil. split.
  - intros k Hk Hki Hpk a b. rewrite !list_lookup_insert_ne by done. by apply Ho.
  - intros Hi0 k Hk Hki a b. rewrite !list_lookup_insert_ne by (unfold par in *; lia). intros Ha Hb.
    refine (le_at_trans less_than l (par i) i k x Hi _ _ a b Ha Hb); [by apply Ho|]. rewrite <- Hki. by apply Ho.
Qed.
Lemma replace_perm (l : list positive) i x c : l !! i = Some x → Permutation (x :: <[i := c]> l) (c :: l).
Proof.
  intros Hi. pose proof (lookup_lt_Some _ _ _ Hi).
  pose proof (delete_Permutation (<[i := c]> l) i c ltac:(by apply list_lookup_insert_eq)) as Hc.
  assert (delete i (<[i := c]> l) = delete i l) as E by (rewrite !delete_take_drop, take_insert_ge, drop_insert_lt by lia; done).
  rewrite E in Hc. rewrite Hc, Permutation_swap. constructor. symmetry. by apply delete_Permutation.
Qed.

Lemma heap_remove_spec l m x : rep l m → ordered less_than l → x ∈ l → zlen l < 2 ^ 32 →
  ∃ l' m', heap_remove less_than x m = (Some tt, m') ∧ rep l' m' ∧ ordered less_than l' ∧ Permutation (x :: l') l ∧
    (∀ y, y ∉ l → nodes m' !! y = nodes m !! y).
Proof.
  intros Hm Ho [i Hi]%list_elem_of_lookup Hlen. pose proof (lookup_lt_Some _ _ _ Hi) as Hil.
  destruct (exists_last (l := l)) as (l0 & c & ->); [by intros ->|]. rewrite lookup_snoc in Hi.
  unfold heap_remove, get_heap. rewrite (bind_some _ _ _ (hp m) m) by done. rewrite (rep_nelts _ m Hm), zlen_app.
  change (zlen [c]) with 1. rewrite zlen_app in Hlen. change (zlen [c]) with 1 in Hlen. pose proof (zlen_nonneg l0).
  destruct (Z.eqb_spec (zlen l0 + 1) 0) as [|_]; [lia|].
  assert (zlen l0 + 1 = Z.pos (Pos.of_succ_nat (length l0))) as Hpos by (unfold zlen; lia).
  replace (compute_path (zlen l0 + 1)) with (compute_path (Z.pos (Pos.of_succ_nat (length l0)))) by (by rewrite Hpos).
  destruct (traverse_path (l0 ++ [c]) m (Pos.of_succ_nat (length l0)) Hm) as (ps & s & E & Hs & _);
    [lia|rewrite length_app; cbn; lia|]. rewrite SuccNat2Pos.id_succ in Hs. cbn [Nat.sub] in Hs. rewrite Nat.sub_0_r in Hs.
  destruct (compute_path _) as [path k]. rewrite (bind_some _ _ _ _ _ E). cbv beta iota.
  replace (u32 (zlen l0 + 1 - 1)) with (zlen l0) by (rewrite wrap_small; unfold is_uint; lia).
  rewrite (bind_some _ _ _ tt (with_nelts (zlen l0) m)) by done.
  pose proof (read_slot_nelts _ m _ s (zlen l0) Hm Hs) as Er. rewrite list_lookup_middle in Er by done.
  rewrite (bind_some _ _ _ _ _ Er), (bind_some _ _ _ c (with_nelts (zlen l0) m)) by done.
  destruct (unlink_last l0 c m s Hm Hs) as (m1 & E1 & Hm1 & Hc1 & Hs1). rewrite (bind_some _ _ _ _ _ E1).
  assert (c ∉ l0) as Hc.
  { pose proof (rep_nodup _ m Hm) as [_ [Hc _]]%NoDup_app. intros Hc'. apply (Hc c Hc'). by apply list_elem_of_singleton. }
  pose proof (ordered_prefix _ _ Ho) as Ho1.
  assert (∀ y, y ∉ (l0 ++ [c]) → (y ∉ l0) ∧ (y ∉ (c :: l0))) as Hout.
  { intros y Hy. rewrite not_elem_of_cons. split_and!; [|intros ->|]; try (intros Hy'; apply Hy, elem_of_app; by left).
    apply Hy, elem_of_app. right. by apply list_elem_of_singleton. }
  destruct (decide (c = x)) as [->|Hcx].
  - rewrite (bind_some _ _ _ (hp m1) m1) by done. rewrite decide_False.
    2:{ rewrite (rep_min _ m1 Hm1). intros E0. by apply Hc, (list_elem_of_lookup_2 _ 0). }
    exists l0, m1. split_and!; try done; [by rewrite Permutation_app_comm|]. intros y [Hy _]%Hout. by apply Hs1.
  - destruct (decide (i = length l0)); [congruence|].
    assert (nodes m1 !! c = Some (node_at (l0 ++ [c]) (length l0))) as Hnc.
    { rewrite Hc1. apply (rep_nodes _ m Hm). by apply list_lookup_middle. }
    rewrite (bind_some _ _ _ _ _ (replace_run l0 m1 i x c _ Hm1 Hi Hc Hnc)).
    pose proof (replace_rep l0 m1 i x c _ Hm1 Hi Hc Hnc) as Hm2. set (m2 := replaced l0 m1 i c) in *.
    pose proof (lookup_lt_Some _ _ _ Hi) as Hi0.
    rewrite (bind_some _ _ _ (hp m2) m2), (rep_nelts _ m2 Hm2) by done.
    assert (zlen (<[i := c]> l0) = zlen l0) as -> by (unfold zlen; by rewrite length_insert).
    destruct (walk_down_spec less_than (S (Z.to_nat (zlen l0))) (<[i := c]> l0) m2 i c) as (l1 & m3 & i1 & E3 & Hm3 & Hi1 & Ho3 & Hp3 & Hs3);
      [done|by apply list_lookup_insert_eq|rewrite length_insert; unfold zlen; lia|by eapply replace_down_ok|].
    rewrite (bind_some _ _ _ _ _ E3).
    pose proof (lookup_lt_Some _ _ _ Hi1) as Hi1l. rewrite Hp3, length_insert in Hi1l.
    destruct (walk_up_spec less_than (S (Z.to_nat (zlen l0))) l1 m3 i1 c) as (l2 & m4 & -> & Hm4 & Ho4 & Hp4 & Hs4);
      [done|done|unfold zlen; lia|done|].
    exists l2, m4. split_and!; try done.
    + rewrite Hp4, Hp3, replace_perm by done. by rewrite Permutation_app_comm.
    + intros y [Hy1 Hy2]%Hout. assert (y ∉ <[i := c]> l0) as Hy3.
      { intros [j Hj]%list_elem_of_lookup. destruct (decide (j = i)) as [->|].
        - rewrite list_lookup_insert_eq in Hj by done. apply Hy2. injection Hj as ->. by left.
        - rewrite list_lookup_insert_ne in Hj by done. apply Hy1. by eapply list_elem_of_lookup_2. }
      rewrite Hs4 by (by rewrite Hp3). rewrite Hs3 by done. subst m2. rewrite (replace_frame l0 m1 i c) by done. by apply Hs1.
Qed.
End ExactRemove.

(** ** No operation frees a node *)

Class Keeps {A} (m : heap_st A) : Prop := keeps h : ∀ y, is_Some (nodes h !! y) → is_Some (nodes (m h).2 !! y).
#[export] Instance keeps_ret {A} (a : A) : Keeps (mret a).
Proof. by intros h y. Qed.
#[export] Instance keeps_fail {A} : Keeps (st_fail (A := A)).
Proof. by intros h y. Qed.
#[export] Instance keeps_bind {A B} (m : heap_st A) (f : A → heap_st B) : Keeps m → (∀ a, Keeps (f a)) → Keeps (m ≫= f).
Proof.
  intros Hm Hf h y Hy. unfold mbind, st_bind. specialize (Hm h y Hy). destruct (m h) as [[a|] h']; [by apply Hf|done].
Qed.
#[export] Instance keeps_load p : Keeps (load p).
Proof. by intros h y. Qed.
#[export] Instance keeps_deref p : Keeps (deref p).
Proof. by intros h y. Qed.
#[export] Instance keeps_get : Keeps get_heap.
Proof. by intros h y. Qed.
#[export] Instance keeps_min v : Keeps (set_min v).
Proof. by intros h y. Qed.
#[export] Instance keeps_nelts v : Keeps (set_nelts v).
Proof. by intros h y. Qed.
#[export] Instance keeps_update f p : Keeps (update f p).
Proof.
  intros h y Hy. unfold update, mbind, st_bind, load. destruct (nodes h !! p); [|done]. cbn.
  destruct (decide (p = y)) as [->|]; [rewrite lookup_alter_eq; by apply fmap_is_Some|by rewrite lookup_alter_ne].
Qed.
Ltac solve_keeps := repeat first
  [ exact _ | apply keeps_bind; [|intros ?] | apply keeps_update
  | match goal with |- Keeps (if ?b then _ else _) => destruct b | |- Keeps (match ?b with _ => _ end) => destruct b end ].
#[export] Instance keeps_swap p c : Keeps (heap_node_swap p c).
Proof. unfold heap_node_swap, set_parent_of. solve_keeps. Qed.
#[export] Instance keeps_replace x c : Keeps (replace_node x c).
Proof. unfold replace_node, set_parent_of. solve_keeps. Qed.
#[export] Instance keeps_read s : Keeps (read_slot s).
Proof. unfold read_slot. solve_keeps. Qed.
#[export] Instance keeps_write s v : Keeps (write_slot s v).
Proof. unfold write_slot. solve_keeps. Qed.
#[export] Instance keeps_traverse fuel : ∀ path k ps s, Keeps (traverse fuel path k ps s).
Proof. induction fuel; intros; cbn [traverse]; unfold step_slot; solve_keeps. Qed.
#[export] Instance keeps_up lt fuel x : Keeps (walk_up lt fuel x).
Proof. induction fuel; cbn [walk_up]; solve_keeps. Qed.
#[export] Instance keeps_down lt fuel x : Keeps (walk_down lt fuel x).
Proof. induction fuel; cbn [walk_down]; solve_keeps. Qed.
#[export] Instance keeps_insert lt x : Keeps (heap_insert lt x).
Proof. unfold heap_insert. solve_keeps. Qed.
#[export] Instance keeps_remove lt x : Keeps (heap_remove lt x).
Proof. unfold heap_remove. solve_keeps. Qed.
Lemma run_keeps {A} (m : heap_st A) `{!Keeps m} h r h' y : m h = (r, h') → is_Some (nodes h !! y) → is_Some (nodes h' !! y).
Proof. intros E Hy. pose proof (keeps h y Hy) as H. by rewrite E in H. Qed.

(** ** The heap as its clients see it *)

(** The heap in memory is well formed, in order, and holds the nodes of [l]. *)
Definition heap_ok (less_than : positive → positive → bool) (l : list positive) (m : heap_mem) : Prop :=
  ∃ t, rep t m ∧ ordered less_than t ∧ Permutation t l.
(** Only the nodes of [l] changed. *)
Definition only_changed (l : list positive) (m m' : heap_mem) : Prop := ∀ y, y ∉ l → nodes m' !! y = nodes m !! y.

Lemma heap_ok_insert less_than `{!HeapOrder less_than} l m x :
  heap_ok less_than l m → x ∉ l → is_Some (nodes m !! x) → zlen l + 1 < 2 ^ 32 →
  ∃ m', heap_insert less_than x m = (Some tt, m') ∧ heap_ok less_than (x :: l) m' ∧ only_changed (x :: l) m m'.
Proof.
  intros (t & Hm & Ho & Hp) Hx Hn Hl. assert (zlen t = zlen l) as Hz by (unfold zlen; by rewrite Hp).
  destruct (heap_insert_spec less_than t m x) as (t' & m' & E & Hm' & Ho' & Hp' & Hs); [done|done|by rewrite Hp|done|by rewrite Hz|].
  exists m'. split_and!; [done|exists t'; split_and!; try done; by rewrite Hp', Hp|].
  intros y Hy. apply Hs. by rewrite Hp.
Qed.
Lemma heap_ok_remove less_than `{!HeapOrder less_than} l m x :
  heap_ok less_than (x :: l) m → zlen (x :: l) < 2 ^ 32 →
  ∃ m', heap_remove less_than x m = (Some tt, m') ∧ heap_ok less_than l m' ∧ only_changed (x :: l) m m'.
Proof.
  intros (t & Hm & Ho & Hp) Hl. assert (zlen t = zlen (x :: l)) as Hz by (unfold zlen; by rewrite Hp).
  destruct (heap_remove_spec less_than t m x) as (t' & m' & E & Hm' & Ho' & Hp' & Hs); [done|done|rewrite Hp; by left|by rewrite Hz|].
  exists m'. split_and!; [done|exists t'; split_and!; try done|].
  - apply (Permutation_cons_inv (a := x)). by rewrite Hp', Hp.
  - intros y Hy. apply Hs. by rewrite Hp.
Qed.
Lemma heap_ok_min less_than `{!HeapOrder less_than} l m : heap_ok less_than l m →
  match heap_min (hp m) with
  | None => l = []
  | Some x => x ∈ l ∧ ∀ y, y ∈ l → less_than y x = false
  end.
Proof.
  intros (t & Hm & Ho & Hp). unfold heap_min. rewrite (rep_min t m Hm). destruct t as [|x t]; cbn.
  - by apply Permutation_nil_l in Hp.
  - split; [rewrite <- Hp; by left|]. intros y Hy. rewrite <- Hp in Hy. apply list_elem_of_lookup in Hy as [i Hi].
    by apply (ordered_root less_than (x :: t) i Ho x y).
Qed.

(** C32: [heap_insert] keeps a well-formed heap well-formed: for any heap in memory that is a
    complete binary tree in order, and any allocated node outside it, the pointer assignments reach
    no [NULL], all loops end, and the heap afterwards is again a complete tree in order, holding the
    old nodes and the new one; no other node is written. *)
Theorem heap_insert_exact less_than `{!HeapOrder less_than} l m x :
  heap_ok less_than l m → x ∉ l → is_Some (nodes m !! x) → zlen l + 1 < 2 ^ 32 →
  ∃ m', heap_insert less_than x m = (Some tt, m') ∧ heap_ok less_than (x :: l) m' ∧ only_changed (x :: l) m m'.
Proof. by apply heap_ok_insert. Qed.

(** C33: [heap_remove] takes any node out of the heap and leaves a complete tree in order with the
    others; [heap_min] is [NULL] for the empty heap only and otherwise a least node, so
    [heap_dequeue] removes a least node. *)
Theorem heap_remove_exact less_than `{!HeapOrder less_than} l m x :
  heap_ok less_than (x :: l) m → zlen (x :: l) < 2 ^ 32 →
  (∃ m', heap_remove less_than x m = (Some tt, m') ∧ heap_ok less_than l m' ∧ only_changed (x :: l) m m') ∧
  ∃ y r m', heap_min (hp m) = Some y ∧ Permutation (x :: l) (y :: r) ∧ (∀ z, z ∈ r → less_than z y = false) ∧
    heap_dequeue less_than m = (Some tt, m') ∧ heap_ok less_than r m'.
Proof.
  intros Hok Hl. split; [by apply heap_ok_remove|]. pose proof (heap_ok_min less_than _ m Hok) as Hmin.
  destruct (heap_min (hp m)) as [y|] eqn:Ey; [|done]. destruct Hmin as [Hy Hmin].
  pose proof Hy as [r Hr]%elem_of_Permutation. assert (heap_ok less_than (y :: r) m) as Hok' by (unfold heap_ok in *; by setoid_rewrite <- Hr).
  destruct (heap_ok_remove less_than r m y Hok') as (m' & E & Hm' & _); [unfold zlen in *; by rewrite <- Hr|].
  exists y, r, m'. split_and!; try done.
  - intros z Hz. apply Hmin. rewrite Hr. by right.
  - unfold heap_dequeue, get_heap. rewrite (bind_some _ _ _ (hp m) m) by done.
    destruct Hok as (t & Hm & _ & Hp). rewrite (rep_nelts t m Hm).
    assert (zlen t = zlen (x :: l)) as -> by (unfold zlen; by rewrite Hp). rewrite zlen_cons.
    destruct (Z.eqb_spec (1 + zlen l) 0) as [|_]; [pose proof (zlen_nonneg l); lia|].
    unfold heap_min in Ey. rewrite Ey. by rewrite (bind_some _ _ _ y m).
Qed.

(** ** An instance: nodes ordered by their address *)

#[export] Instance pos_order : HeapOrder Pos.ltb.
Proof. split; intros *; rewrite ?Pos.ltb_lt, ?Pos.ltb_ge; lia. Qed.
Definition demo_heap : heap_mem := {|
  hp := {| min := Some 2%positive; nelts := 3 |};
  nodes := list_to_map [(2, {| left := Some 5; right := Some 3; parent := None |});
    (5, {| left := None; right := None; parent := Some 2 |}); (3, {| left := None; right := None; parent := Some 2 |});
    (1, {| left := Some 7; right := None; parent := Some 9 |})]%positive |}.
Lemma demo_heap_ok : heap_ok Pos.ltb [2; 5; 3]%positive demo_heap.
Proof.
  exists [2; 5; 3]%positive. split_and!; [|by intros [|[|[|k]]] Hk x y; [lia|intros [= <-] [= <-]..|]|done].
  split; [done|done|by repeat constructor; set_solver|]. intros [|[|[|i]]] x; intros [= <-]; reflexivity.
Qed.
Lemma heap_insert_exact_witness :
  ∃ m', heap_insert Pos.ltb 1 demo_heap = (Some tt, m') ∧ heap_ok Pos.ltb [1; 2; 5; 3]%positive m' ∧
    only_changed [1; 2; 5; 3]%positive demo_heap m'.
Proof. apply (heap_insert_exact Pos.ltb _ _ _ demo_heap_ok); [set_solver|by eexists|done]. Defined.
Lemma heap_remove_exact_witness :
  (∃ m', heap_remove Pos.ltb 2 demo_heap = (Some tt, m') ∧ heap_ok Pos.ltb [5; 3]%positive m' ∧
    only_changed [2; 5; 3]%positive demo_heap m') ∧
  ∃ y r m', heap_min (hp demo_heap) = Some y ∧ Permutation [2; 5; 3]%positive (y :: r) ∧ (∀ z, z ∈ r → Pos.ltb z y = false) ∧
    heap_dequeue Pos.ltb demo_heap = (Some tt, m') ∧ heap_ok Pos.ltb r m'.
Proof. apply (heap_remove_exact Pos.ltb _ _ _ demo_heap_ok). done. Defined.
