(* ===== verification/Timer.v ===== *)
(** * Timers of the event loop ([Libuv-gRPC/src/timer.c])

    A timer is a handle with a heap node inside; active timers are in the loop's heap, ordered by
    expiry and, at the same expiry, by the order they were started in. *)
From stdpp Require Export fin_maps fin_map_dom.
From S2P Require Export Heap.
From Stdlib Require Import Sorted.

(** ** State *)

(** A callback is a function pointer, here its address. *)
Record uv_timer := { timer_cb : option positive; timeout : Z; repeat : Z; start_id : Z; flags : Z }.
(** The fields of [uv_loop_t] that timers use.  The handles are found at the addresses of their heap
    nodes; the queue of all handles is the list of its members. *)
Record uv_loop := {
  time : Z; timer_counter : Z; active_handles : Z;
  timer_heap : heap_mem; handles : gmap positive uv_timer; handle_queue : list positive }.
Abbreviation loop_st := (st uv_loop).

Definition UV_EINVAL : Z := -22.
Definition UV_HANDLE_CLOSING : Z := 0x00000001.
Definition UV_HANDLE_CLOSED : Z := 0x00000002.
Definition UV_HANDLE_ACTIVE : Z := 0x00000004.
Definition UV_HANDLE_REF : Z := 0x00000008.
Definition uv__is_active (t : uv_timer) : bool := negb (flags t .& UV_HANDLE_ACTIVE =? 0).
Definition uv__is_closing (t : uv_timer) : bool := negb (flags t .& (UV_HANDLE_CLOSING .| UV_HANDLE_CLOSED) =? 0).
Definition uv__has_ref (t : uv_timer) : bool := negb (flags t .& UV_HANDLE_REF =? 0).

Definition with_flags (f : Z) (t : uv_timer) : uv_timer :=
  {| timer_cb := timer_cb t; timeout := timeout t; repeat := repeat t; start_id := start_id t; flags := f |}.
Definition with_repeat (r : Z) (t : uv_timer) : uv_timer :=
  {| timer_cb := timer_cb t; timeout := timeout t; repeat := r; start_id := start_id t; flags := flags t |}.

Definition get_timer (x : positive) : loop_st uv_timer := λ L, (handles L !! x, L).
Definition set_timer (x : positive) (t : uv_timer) : loop_st unit := st_modify (λ L,
  {| time := time L; timer_counter := timer_counter L; active_handles := active_handles L; timer_heap := timer_heap L;
     handles := <[x := t]> (handles L); handle_queue := handle_queue L |}).
Definition set_active_handles (n : Z) : loop_st unit := st_modify (λ L,
  {| time := time L; timer_counter := timer_counter L; active_handles := n; timer_heap := timer_heap L;
     handles := handles L; handle_queue := handle_queue L |}).
Definition set_timer_counter (n : Z) : loop_st unit := st_modify (λ L,
  {| time := time L; timer_counter := n; active_handles := active_handles L; timer_heap := timer_heap L;
     handles := handles L; handle_queue := handle_queue L |}).
(** An operation on the loop's heap. *)
Definition on_heap {A} (m : heap_st A) : loop_st A := λ L,
  let '(r, h) := m (timer_heap L) in
  (r, {| time := time L; timer_counter := timer_counter L; active_handles := active_handles L; timer_heap := h;
         handles := handles L; handle_queue := handle_queue L |}).

(** [container_of] of a node in the heap.  Every node in the heap is in a handle; elsewhere the
    fields do not matter. *)
Definition timer_at (hs : gmap positive uv_timer) (x : positive) : uv_timer :=
  default {| timer_cb := None; timeout := 0; repeat := 0; start_id := 0; flags := 0 |} (hs !! x).
Definition timer_less_than (hs : gmap positive uv_timer) (ha hb : positive) : bool :=
  let a := timer_at hs ha in
  let b := timer_at hs hb in
  if timeout a <? timeout b then true
  else if timeout b <? timeout a then false
  else start_id a <? start_id b.

(** ** Operations *)

Definition uv__handle_start (x : positive) : loop_st unit :=
  t ← get_timer x;
  if uv__is_active t then mret tt
  else
    let t := with_flags (flags t .| UV_HANDLE_ACTIVE) t in
    _ ← set_timer x t;
    if uv__has_ref t then L ← st_get; set_active_handles (u32 (active_handles L + 1)) else mret tt.
Definition uv__handle_stop (x : positive) : loop_st unit :=
  t ← get_timer x;
  if negb (uv__is_active t) then mret tt
  else
    let t := with_flags (Z.ldiff (flags t) UV_HANDLE_ACTIVE) t in
    _ ← set_timer x t;
    if uv__has_ref t then L ← st_get; set_active_handles (u32 (active_handles L - 1)) else mret tt.

(** [uv__handle_init] also links the handle at the tail of the loop's queue.  The fields that
    [uv_timer_init] does not set keep what the memory held: [junk]. *)
Definition uv_timer_init (x : positive) (junk : uv_timer) : loop_st Z :=
  _ ← st_modify (λ L, {| time := time L; timer_counter := timer_counter L; active_handles := active_handles L;
    timer_heap := timer_heap L;
    handles := <[x := {| timer_cb := None; timeout := timeout junk; repeat := 0; start_id := start_id junk; flags := UV_HANDLE_REF |}]> (handles L);
    handle_queue := handle_queue L ++ [x] |});
  mret 0.

Definition uv_timer_stop (x : positive) : loop_st Z :=
  t ← get_timer x;
  if negb (uv__is_active t) then mret 0
  else
    L ← st_get;
    _ ← on_heap (heap_remove (timer_less_than (handles L)) x);
    _ ← uv__handle_stop x;
    mret 0.

Definition uv_timer_start (x : positive) (cb : option positive) (timeout_ repeat_ : Z) : loop_st Z :=
  t ← get_timer x;
  if uv__is_closing t || bool_decide (cb = None) then mret UV_EINVAL
  else
    _ ← (if uv__is_active t then uv_timer_stop x else mret 0);
    L ← st_get;
    let clamped_timeout := u64 (time L + timeout_) in
    let clamped_timeout := if clamped_timeout <? timeout_ then 2 ^ 64 - 1 else clamped_timeout in
    t ← get_timer x;
    _ ← set_timer x {| timer_cb := cb; timeout := clamped_timeout; repeat := repeat_; start_id := timer_counter L; flags := flags t |};
    _ ← set_timer_counter (u64 (timer_counter L + 1));
    L ← st_get;
    _ ← on_heap (heap_insert (timer_less_than (handles L)) x);
    _ ← uv__handle_start x;
    mret 0.

Definition uv_timer_again (x : positive) : loop_st Z :=
  t ← get_timer x;
  if bool_decide (timer_cb t = None) then mret UV_EINVAL
  else
    _ ← (if negb (repeat t =? 0)
         then _ ← uv_timer_stop x; t ← get_timer x; uv_timer_start x (timer_cb t) (repeat t) (repeat t)
         else mret 0);
    mret 0.

Definition uv_timer_set_repeat (x : positive) (r : Z) : loop_st unit := t ← get_timer x; set_timer x (with_repeat r t).
Definition uv_timer_get_repeat (x : positive) : loop_st Z := t ← get_timer x; mret (repeat t).
Definition uv__timer_close (x : positive) : loop_st unit := _ ← uv_timer_stop x; mret tt.

Definition uv__next_timeout (L : uv_loop) : Z :=
  match heap_min (hp (timer_heap L)) with
  | None => -1
  | Some x =>
      let handle := timer_at (handles L) x in
      if timeout handle <=? time L then 0
      else
        let diff := u64 (timeout handle - time L) in
        if INT_MAX <? diff then INT_MAX else diff
  end.

(** [run_cb] is what a callback does to the loop when it is called with a handle.  The result is
    the handles whose callbacks ran, in order. *)
Fixpoint uv__run_timers (run_cb : positive → positive → loop_st unit) (fuel : nat) : loop_st (list positive) :=
  match fuel with
  | O => st_fail
  | S fuel =>
      L ← st_get;
      match heap_min (hp (timer_heap L)) with
      | None => mret []
      | Some x =>
          handle ← get_timer x;
          if time L <? timeout handle then mret []
          else
            _ ← uv_timer_stop x;
            _ ← uv_timer_again x;
            handle ← get_timer x;
            match timer_cb handle with
            | None => st_fail
            | Some cb => _ ← run_cb cb x; fired ← uv__run_timers run_cb fuel; mret (x :: fired)
            end
      end
  end.

(** ** The abstract machine: timers without the heap *)

Record timers := { a_time : Z; a_counter : Z; a_active : Z; a_handles : gmap positive uv_timer }.
Definition abs (L : uv_loop) : timers :=
  {| a_time := time L; a_counter := timer_counter L; a_active := active_handles L; a_handles := handles L |}.
Definition put (x : positive) (t : uv_timer) (A : timers) : timers :=
  {| a_time := a_time A; a_counter := a_counter A; a_active := a_active A; a_handles := <[x := t]> (a_handles A) |}.
Definition count (d : Z) (t : uv_timer) (A : timers) : timers :=
  if uv__has_ref t
  then {| a_time := a_time A; a_counter := a_counter A; a_active := u32 (a_active A + d); a_handles := a_handles A |} else A.
Definition spec_stop (x : positive) (A : timers) : timers :=
  match a_handles A !! x with
  | Some t => if uv__is_active t then count (-1) t (put x (with_flags (Z.ldiff (flags t) UV_HANDLE_ACTIVE) t) A) else A
  | None => A
  end.
Definition expiry (now after : Z) : Z := if now + after <? 2 ^ 64 then now + after else 2 ^ 64 - 1.
Definition spec_start (x : positive) (cb : option positive) (after every : Z) (A : timers) : Z * timers :=
  match a_handles A !! x with
  | Some t =>
      if uv__is_closing t || bool_decide (cb = None) then (UV_EINVAL, A)
      else
        let A := spec_stop x A in
        let t' := {| timer_cb := cb; timeout := expiry (a_time A) after; repeat := every; start_id := a_counter A;
                     flags := flags t .| UV_HANDLE_ACTIVE |} in
        let A := count 1 t (put x t' A) in
        (0, {| a_time := a_time A; a_counter := u64 (a_counter A + 1); a_active := a_active A; a_handles := a_handles A |})
  | None => (0, A)
  end.
Definition spec_again (x : positive) (A : timers) : Z * timers :=
  match a_handles A !! x with
  | Some t =>
      if bool_decide (timer_cb t = None) then (UV_EINVAL, A)
      else if repeat t =? 0 then (0, A)
      else (0, (spec_start x (timer_cb t) (repeat t) (repeat t) (spec_stop x A)).2)
  | None => (0, A)
  end.
Definition spec_set_repeat (x : positive) (r : Z) (A : timers) : timers :=
  match a_handles A !! x with Some t => put x (with_repeat r t) A | None => A end.

(** ** Flags *)

Lemma land_pow2 f k : 0 ≤ k → negb (f .& 2 ^ k =? 0) = Z.testbit f k.
Proof.
  intros Hk. destruct (Z.testbit f k) eqn:Ef.
  - apply negb_true_iff, Z.eqb_neq. intros E. apply (f_equal (λ z, Z.testbit z k)) in E.
    rewrite Z.land_spec, Z.pow2_bits_true, Ef, Z.testbit_0_l in E by done. done.
  - apply negb_false_iff, Z.eqb_eq. apply Z.bits_inj'. intros n Hn. rewrite Z.land_spec, Z.testbit_0_l.
    destruct (decide (n = k)) as [->|]; [by rewrite Ef|]. rewrite Z.pow2_bits_false by done. apply andb_false_r.
Qed.
Lemma is_active_bit t : uv__is_active t = Z.testbit (flags t) 2.
Proof. apply (land_pow2 _ 2). done. Qed.
Lemma has_ref_bit t : uv__has_ref t = Z.testbit (flags t) 3.
Proof. apply (land_pow2 _ 3). done. Qed.
Lemma active_set t : uv__is_active (with_flags (flags t .| UV_HANDLE_ACTIVE) t) = true.
Proof. rewrite is_active_bit. cbn [with_flags flags]. rewrite Z.lor_spec. apply orb_true_r. Qed.
Lemma active_clear t : uv__is_active (with_flags (Z.ldiff (flags t) UV_HANDLE_ACTIVE) t) = false.
Proof. rewrite is_active_bit. cbn [with_flags flags]. rewrite Z.ldiff_spec. apply andb_false_r. Qed.
Lemma has_ref_set t f : f = flags t .| UV_HANDLE_ACTIVE ∨ f = Z.ldiff (flags t) UV_HANDLE_ACTIVE →
  uv__has_ref (with_flags f t) = uv__has_ref t.
Proof.
  intros Hf. rewrite !has_ref_bit. cbn [with_flags flags]. destruct Hf as [->| ->]; rewrite ?Z.lor_spec, ?Z.ldiff_spec.
  - apply orb_false_r.
  - apply andb_true_r.
Qed.

(** ** The invariant *)

Definition active_in (hs : gmap positive uv_timer) (x : positive) : Prop := ∃ t, hs !! x = Some t ∧ uv__is_active t = true.
Definition timer_ok (t : uv_timer) : Prop :=
  is_u64 (timeout t) ∧ is_u64 (repeat t) ∧ (uv__is_active t = true → timer_cb t ≠ None).
(** The heap is well formed and holds exactly the active timers. *)
Record timers_ok (L : uv_loop) : Prop := {
  ok_heap : ∃ l, heap_ok (timer_less_than (handles L)) l (timer_heap L) ∧ ∀ x, x ∈ l ↔ active_in (handles L) x;
  ok_nodes x : is_Some (handles L !! x) → is_Some (nodes (timer_heap L) !! x);
  ok_timers x t : handles L !! x = Some t → timer_ok t;
  ok_time : is_u64 (time L);
  ok_size : Z.of_nat (size (handles L)) < 2 ^ 32
}.

#[export] Instance timer_order hs : HeapOrder (timer_less_than hs).
Proof.
  split; intros *; unfold timer_less_than;
    repeat match goal with |- context [?a <? ?b] => destruct (Z.ltb_spec a b) end; try done; lia.
Qed.

Lemma heap_ok_ext lt lt' l m : (∀ a b, a ∈ l → b ∈ l → lt a b = lt' a b) → heap_ok lt l m → heap_ok lt' l m.
Proof.
  intros Hlt (t & Hm & Ho & Hp). exists t. split_and!; [done| |done]. intros k Hk x y Hx Hy.
  unfold le. rewrite <- Hlt; [by eapply Ho|rewrite <- Hp; by eapply list_elem_of_lookup_2..].
Qed.
Lemma heap_ok_perm lt l l' m : Permutation l l' → heap_ok lt l m → heap_ok lt l' m.
Proof. intros Hl (t & Hm & Ho & Hp). exists t. by rewrite <- Hl. Qed.
Lemma heap_ok_nodup lt l m : heap_ok lt l m → NoDup l.
Proof. intros (t & Hm & _ & <-). by apply rep_nodup in Hm. Qed.

(** Handles outside the heap do not influence the order. *)
Lemma less_than_outside hs x t (l : list positive) : x ∉ l → ∀ a b, a ∈ l → b ∈ l → timer_less_than hs a b = timer_less_than (<[x := t]> hs) a b.
Proof.
  intros Hx a b Ha Hb. unfold timer_less_than, timer_at. by rewrite !lookup_insert_ne by (intros ->; done).
Qed.
Lemma less_than_key hs x t t' : hs !! x = Some t → timeout t' = timeout t → start_id t' = start_id t →
  ∀ a b, timer_less_than hs a b = timer_less_than (<[x := t']> hs) a b.
Proof.
  intros Hx Ht Hs a b. unfold timer_less_than. assert (∀ y, timeout (timer_at hs y) = timeout (timer_at (<[x := t']> hs) y) ∧
    start_id (timer_at hs y) = start_id (timer_at (<[x := t']> hs) y)) as E.
  { intros y. unfold timer_at. destruct (decide (x = y)) as [<-|]; [rewrite lookup_insert_eq, Hx; by cbn|by rewrite lookup_insert_ne]. }
  destruct (E a) as [-> ->], (E b) as [-> ->]. done.
Qed.
Lemma active_in_insert hs x t y : active_in (<[x := t]> hs) y ↔ (x = y ∧ uv__is_active t = true) ∨ (x ≠ y ∧ active_in hs y).
Proof.
  unfold active_in. destruct (decide (x = y)) as [<-|].
  - setoid_rewrite lookup_insert_eq. naive_solver.
  - setoid_rewrite lookup_insert_ne; [|done..]. naive_solver.
Qed.
(** There are no more nodes in the heap than handles. *)
Lemma nodup_size (hs : gmap positive uv_timer) (l : list positive) : NoDup l → (∀ x, x ∈ l → is_Some (hs !! x)) → (length l ≤ size hs)%nat.
Proof.
  intros Hl Hd. rewrite <- size_dom, <- (size_list_to_set (C := gset positive)) by done.
  apply subseteq_size. intros x Hx%elem_of_list_to_set. by apply elem_of_dom, Hd.
Qed.


(** ** The operations implement the abstract machine *)

Definition mk (A : timers) (h : heap_mem) (q : list positive) : uv_loop :=
  {| time := a_time A; timer_counter := a_counter A; active_handles := a_active A; timer_heap := h; handles := a_handles A; handle_queue := q |}.
Lemma mk_abs L : mk (abs L) (timer_heap L) (handle_queue L) = L.
Proof. by destruct L. Qed.

Lemma run_get_timer x L t : handles L !! x = Some t → get_timer x L = (Some t, L).
Proof. intros H. unfold get_timer. by rewrite H. Qed.
Lemma run_on_heap {A} (m : heap_st A) a h' B h q : m h = (Some a, h') → on_heap m (mk B h q) = (Some a, mk B h' q).
Proof. intros H. unfold on_heap. cbn [timer_heap mk]. by rewrite H. Qed.
Lemma count_handles d t A : a_handles (count d t A) = a_handles A.
Proof. unfold count. by destruct (uv__has_ref t). Qed.
Lemma count_time d t A : a_time (count d t A) = a_time A.
Proof. unfold count. by destruct (uv__has_ref t). Qed.
Lemma run_handle_stop x t A h q : a_handles A !! x = Some t → uv__is_active t = true →
  uv__handle_stop x (mk A h q) = (Some tt, mk (count (-1) t (put x (with_flags (Z.ldiff (flags t) UV_HANDLE_ACTIVE) t) A)) h q).
Proof.
  intros Hx Ha. unfold uv__handle_stop. rewrite (bind_some _ _ _ t _ (run_get_timer x (mk A h q) t Hx)), Ha. cbn [negb].
  set (t' := with_flags _ t). rewrite (bind_some _ _ _ tt (mk (put x t' A) h q)) by done.
  assert (uv__has_ref t' = uv__has_ref t) as -> by (apply has_ref_set; by right).
  unfold count. by destruct (uv__has_ref t).
Qed.
Lemma run_handle_start x t A h q : a_handles A !! x = Some t → uv__is_active t = false →
  uv__handle_start x (mk A h q) = (Some tt, mk (count 1 t (put x (with_flags (flags t .| UV_HANDLE_ACTIVE) t) A)) h q).
Proof.
  intros Hx Ha. unfold uv__handle_start. rewrite (bind_some _ _ _ t _ (run_get_timer x (mk A h q) t Hx)), Ha.
  set (t' := with_flags _ t). rewrite (bind_some _ _ _ tt (mk (put x t' A) h q)) by done.
  assert (uv__has_ref t' = uv__has_ref t) as -> by (apply has_ref_set; by left).
  unfold count. by destruct (uv__has_ref t).
Qed.

(** Storing a timer that is not in the heap, with the heap holding exactly the others. *)
Lemma timers_ok_put A h q x t l : heap_ok (timer_less_than (a_handles A)) l h →
  (∀ y, y ∈ l ↔ x ≠ y ∧ active_in (a_handles A) y) → uv__is_active t = false → timer_ok t →
  is_Some (a_handles A !! x) → (∀ y, is_Some (a_handles A !! y) → is_Some (nodes h !! y)) →
  (∀ y t, a_handles A !! y = Some t → timer_ok t) → is_u64 (a_time A) → Z.of_nat (size (a_handles A)) < 2 ^ 32 →
  ∀ B, a_time B = a_time A → a_handles B = <[x := t]> (a_handles A) → timers_ok (mk B h q).
Proof.
  intros Hh Hl Ht Htok Hx Hn Hts Htime Hsize B HBt HBh. split; cbn [mk handles timer_heap time]; rewrite ?HBt, ?HBh.
  - exists l. split.
    + eapply heap_ok_ext; [|exact Hh]. apply less_than_outside. rewrite Hl. naive_solver.
    + intros y. rewrite active_in_insert, Hl. split; [by right|intros [[_ H]|H]; [congruence|done]].
  - intros y [s Hy]. apply Hn. destruct (decide (x = y)) as [<-|]; [done|]. rewrite lookup_insert_ne in Hy by done. by eexists.
  - intros y s. destruct (decide (x = y)) as [<-|]; [rewrite lookup_insert_eq; by intros [= <-]|].
    rewrite lookup_insert_ne by done. apply Hts.
  - done.
  - destruct Hx as [s Hx]. by rewrite map_size_insert_Some by (by eexists).
Qed.

Lemma timer_ok_flags t f : uv__is_active (with_flags f t) = false → timer_ok t → timer_ok (with_flags f t).
Proof. intros Hf (? & ? & _). split_and!; [done|done|]. rewrite Hf. done. Qed.

(** No heap node is lost. *)
Definition cells_kept (h h' : heap_mem) : Prop := ∀ y, is_Some (nodes h !! y) → is_Some (nodes h' !! y).
#[export] Instance cells_kept_order : PreOrder cells_kept.
Proof. split; [by intros h y|intros h1 h2 h3 H1 H2 y Hy; by apply H2, H1]. Qed.

Lemma stop_spec x t A h q : timers_ok (mk A h q) → a_handles A !! x = Some t →
  ∃ h', uv_timer_stop x (mk A h q) = (Some 0, mk (spec_stop x A) h' q) ∧ timers_ok (mk (spec_stop x A) h' q) ∧ cells_kept h h'.
Proof.
  intros HL Hx. unfold uv_timer_stop, spec_stop. rewrite Hx.
  rewrite (bind_some _ _ _ t (mk A h q) (run_get_timer x (mk A h q) t Hx)).
  destruct (uv__is_active t) eqn:Ha; cbn [negb]; [|by exists h].
  rewrite (bind_some _ _ _ (mk A h q) (mk A h q)) by done. destruct (ok_heap _ HL) as (l & Hl & Hact).
  cbn [mk handles timer_heap] in *.
  assert (x ∈ l) as [r Hr]%elem_of_Permutation by (apply Hact; by exists t).
  apply (heap_ok_perm _ _ _ _ Hr) in Hl. pose proof (heap_ok_nodup _ _ _ Hl) as [Hxr Hnd]%NoDup_cons.
  destruct (heap_ok_remove _ r h x Hl) as (h' & E & Hh' & Hsame).
  { unfold zlen. eapply Z.le_lt_trans; [|apply (ok_size _ HL)]. apply inj_le, nodup_size; [by eapply heap_ok_nodup|].
    intros y Hy. rewrite <- Hr, Hact in Hy. destruct Hy as (s & Hs & _). by exists s. }
  rewrite (bind_some _ _ _ _ _ (run_on_heap _ _ _ _ _ _ E)), (bind_some _ _ _ _ _ (run_handle_stop x t A h' q Hx Ha)).
  exists h'. split; [done|]. split; [|intros y Hy; by apply (run_keeps _ _ _ _ y E)].
  apply (timers_ok_put A h' q x (with_flags (Z.ldiff (flags t) UV_HANDLE_ACTIVE) t) r); try done.
  - intros y. rewrite <- Hact, Hr, elem_of_cons. split; [intros Hy; split; [by intros ->|by right]|].
    intros [Hne [Hyx|Hy]]; [congruence|done].
  - apply active_clear.
  - apply timer_ok_flags; [apply active_clear|by apply (ok_timers _ HL x)].
  - intros y Hy. apply (run_keeps _ _ _ _ y E). by apply (ok_nodes _ HL).
  - apply (ok_timers _ HL).
  - apply HL.
  - apply HL.
  - by rewrite count_time.
  - by rewrite count_handles.
Qed.

Lemma spec_stop_other x A : a_time (spec_stop x A) = a_time A ∧ a_counter (spec_stop x A) = a_counter A ∧
  ∀ y, y ≠ x → a_handles (spec_stop x A) !! y = a_handles A !! y.
Proof.
  unfold spec_stop. destruct (a_handles A !! x) as [t|]; [|done]. destruct (uv__is_active t); [|done].
  rewrite count_time, count_handles. split_and!; [done|unfold count; by destruct (uv__has_ref t)|].
  intros y Hy. cbn [put a_handles]. by rewrite lookup_insert_ne.
Qed.
(** What stopping leaves of the handle itself. *)
Lemma spec_stop_self x A t : a_handles A !! x = Some t →
  ∃ t1, a_handles (spec_stop x A) !! x = Some t1 ∧ uv__is_active t1 = false ∧ flags t1 .| UV_HANDLE_ACTIVE = flags t .| UV_HANDLE_ACTIVE ∧
    uv__is_closing t1 = uv__is_closing t ∧ uv__has_ref t1 = uv__has_ref t ∧
    timer_cb t1 = timer_cb t ∧ repeat t1 = repeat t ∧ timeout t1 = timeout t ∧ start_id t1 = start_id t ∧
    ∀ t', <[x := t']> (a_handles (spec_stop x A)) = <[x := t']> (a_handles A).
Proof.
  intros Hx. unfold spec_stop. rewrite Hx. destruct (uv__is_active t) eqn:Ha; [|by exists t; split_and!].
  rewrite count_handles. cbn [put a_handles]. eexists. split; [apply lookup_insert_eq|].
  split_and!; try done; [apply active_clear| | |by apply has_ref_set; right|intros; by rewrite insert_insert_eq].
  - cbn [with_flags flags]. apply Z.bits_inj'. intros n Hn. rewrite !Z.lor_spec, Z.ldiff_spec.
    by destruct (Z.testbit (flags t) n), (Z.testbit UV_HANDLE_ACTIVE n).
  - unfold uv__is_closing. cbn [with_flags flags]. do 2 f_equal. apply Z.bits_inj'. intros n Hn.
    rewrite !Z.land_spec, Z.ldiff_spec. destruct (Z.testbit (flags t) n); [|done]. cbn [andb].
    destruct (decide (n < 3)); [|by rewrite (Z.bits_above_log2 (UV_HANDLE_CLOSING .| UV_HANDLE_CLOSED) n), !andb_false_r by (done || (change (Z.log2 (UV_HANDLE_CLOSING .| UV_HANDLE_CLOSED)) with 1; lia))].
    assert (n = 0 ∨ n = 1 ∨ n = 2) as [->|[->| ->]] by lia; done.
Qed.

Definition started (x : positive) (cb : option positive) (after every : Z) (f : Z) (A : timers) : uv_timer :=
  {| timer_cb := cb; timeout := expiry (a_time A) after; repeat := every; start_id := a_counter A; flags := f |}.
Definition tick (A : timers) : timers :=
  {| a_time := a_time A; a_counter := u64 (a_counter A + 1); a_active := a_active A; a_handles := a_handles A |}.

(** [uv_timer_start] behind its call of [uv_timer_stop]. *)
Lemma start_spec_inactive x t cb after every A h q : timers_ok (mk A h q) → a_handles A !! x = Some t → uv__is_active t = false →
  cb ≠ None → is_u64 after → is_u64 every →
  let t0 := started x cb after every (flags t) A in
  let A' := count 1 t0 (put x (with_flags (flags t .| UV_HANDLE_ACTIVE) t0) (tick (put x t0 A))) in
  ∃ h', (L ← st_get;
    let clamped_timeout := u64 (time L + after) in
    let clamped_timeout := if clamped_timeout <? after then 2 ^ 64 - 1 else clamped_timeout in
    t ← get_timer x;
    _ ← set_timer x {| timer_cb := cb; timeout := clamped_timeout; repeat := every; start_id := timer_counter L; flags := flags t |};
    _ ← set_timer_counter (u64 (timer_counter L + 1));
    L ← st_get;
    _ ← on_heap (heap_insert (timer_less_than (handles L)) x);
    _ ← uv__handle_start x;
    mret 0) (mk A h q) = (Some 0, mk A' h' q) ∧ timers_ok (mk A' h' q) ∧ cells_kept h h'.
Proof.
  intros HL Hx Ha Hcb Hafter Hevery t0 A'. rewrite (bind_some _ _ _ (mk A h q) (mk A h q)) by done. cbn [time mk timer_counter].
  pose proof (ok_time _ HL) as Htime. cbn [mk time] in Htime.
  assert ((if u64 (a_time A + after) <? after then 2 ^ 64 - 1 else u64 (a_time A + after)) = expiry (a_time A) after) as ->.
  { unfold expiry, wrap. word_bounds. destruct (Z.ltb_spec (a_time A + after) 18446744073709551616).
    - rewrite Z.mod_small by lia. by rewrite (proj2 (Z.ltb_ge (a_time A + after) after)) by lia.
    - assert ((a_time A + after) mod 18446744073709551616 = a_time A + after - 18446744073709551616) as -> by lia.
      by rewrite (proj2 (Z.ltb_lt (a_time A + after - 18446744073709551616) after)) by lia. }
  rewrite (bind_some _ _ _ t (mk A h q) (run_get_timer x (mk A h q) t Hx)). fold (started x cb after every (flags t) A). fold t0.
  rewrite (bind_some _ _ _ tt (mk (put x t0 A) h q)) by done. rewrite (bind_some _ _ _ tt (mk (tick (put x t0 A)) h q)) by done.
  set (B := tick (put x t0 A)) in *. rewrite (bind_some _ _ _ (mk B h q) (mk B h q)) by done. cbn [handles mk].
  destruct (ok_heap _ HL) as (l & Hl & Hact). cbn [mk handles timer_heap] in *.
  assert (x ∉ l) as Hxl by (rewrite Hact; intros (s & Hs & Has); congruence).
  assert (heap_ok (timer_less_than (a_handles B)) l h) as HlB by (eapply heap_ok_ext; [by apply less_than_outside|exact Hl]).
  pose proof (heap_ok_nodup _ _ _ Hl) as Hnd.
  destruct (heap_ok_insert _ l h x HlB Hxl) as (h' & E & Hh' & Hsame).
  { apply (ok_nodes _ HL). by exists t. }
  { unfold zlen. eapply Z.le_lt_trans; [|apply (ok_size _ HL)]. cbn [mk handles].
    pose proof (nodup_size (a_handles A) (x :: l) ltac:(by constructor)) as Hsz. cbn [length] in Hsz. apply (Z.le_trans _ (Z.of_nat (S (length l)))); [lia|].
    apply inj_le, Hsz. intros y [->|Hy]%elem_of_cons; [by exists t|]. apply Hact in Hy as (s & Hs & _). by exists s. }
  rewrite (bind_some _ _ _ _ _ (run_on_heap _ _ _ _ _ _ E)).
  assert (a_handles B !! x = Some t0) as Hx0 by apply lookup_insert_eq.
  rewrite (bind_some _ _ _ _ _ (run_handle_start x t0 B h' q Hx0 Ha)). exists h'. split; [done|]. split; [|intros y Hy; by apply (run_keeps _ _ _ _ y E)].
  change (flags t0) with (flags t). fold A'.
  assert (a_handles A' = <[x := with_flags (flags t .| UV_HANDLE_ACTIVE) t0]> (a_handles B)) as HA' by (unfold A'; by rewrite count_handles).
  split; cbn [mk handles timer_heap time]; rewrite ?HA'.
  - exists (x :: l). split.
    + eapply heap_ok_ext; [|exact Hh']. intros a b _ _. by apply (less_than_key _ x t0).
    + intros y. rewrite active_in_insert, elem_of_cons, Hact.
      change (uv__is_active (with_flags (flags t .| UV_HANDLE_ACTIVE) t0)) with (uv__is_active (with_flags (flags t0 .| UV_HANDLE_ACTIVE) t0)).
      rewrite (active_set t0).
      unfold B, tick, put. cbn [a_handles]. rewrite active_in_insert. change (uv__is_active t0) with (uv__is_active t). rewrite Ha.
      destruct (decide (x = y)) as [<-|]; [by split; [left|left]|].
      split; [intros [->|Hy]; [done|right; split; [done|by right]]|intros [[-> _]|[_ [[-> _]|[_ Hy]]]]; [done..|by right]].
  - intros y [s Hy]. apply (run_keeps _ _ _ _ y E), (ok_nodes _ HL). cbn [mk handles].
    destruct (decide (x = y)) as [<-|]; [by exists t|].
    unfold B, tick, put in Hy. cbn [a_handles] in Hy. rewrite !lookup_insert_ne in Hy by done. by exists s.
  - intros y s Hy. destruct (decide (x = y)) as [<-|].
    + rewrite lookup_insert_eq in Hy. injection Hy as <-. split_and!; [|done|done]. cbn [with_flags timeout t0 started].
      unfold expiry. word_bounds. destruct (Z.ltb_spec (a_time A + after) 18446744073709551616); lia.
    + unfold B, tick, put in Hy. cbn [a_handles] in Hy. rewrite !lookup_insert_ne in Hy by done. by apply (ok_timers _ HL y).
  - unfold A'. rewrite count_time. apply HL.
  - rewrite map_size_insert_Some by (by eexists). unfold B, tick, put. cbn [a_handles].
    rewrite map_size_insert_Some by (by eexists). apply (ok_size _ HL).
Qed.
(** What [spec_start] does to a timer that is not active. *)
Lemma spec_start_fields x t cb after every A : a_handles A !! x = Some t → uv__is_closing t = false → cb ≠ None →
  spec_start x cb after every A =
  (0, let A1 := spec_stop x A in tick (count 1 t (put x (started x cb after every (flags t .| UV_HANDLE_ACTIVE) A1) A1))).
Proof.
  intros Hx Hc Hcb. unfold spec_start. rewrite Hx, Hc, (bool_decide_eq_false_2 _ Hcb). done.
Qed.

Lemma start_spec x t cb after every A h q : timers_ok (mk A h q) → a_handles A !! x = Some t → is_u64 after → is_u64 every →
  ∃ h', uv_timer_start x cb after every (mk A h q) = (Some (spec_start x cb after every A).1, mk (spec_start x cb after every A).2 h' q) ∧
    timers_ok (mk (spec_start x cb after every A).2 h' q) ∧ cells_kept h h'.
Proof.
  intros HL Hx Hafter Hevery. unfold uv_timer_start.
  rewrite (bind_some _ _ _ t (mk A h q) (run_get_timer x (mk A h q) t Hx)).
  destruct (uv__is_closing t || bool_decide (cb = None)) eqn:Hguard; [unfold spec_start; rewrite Hx, Hguard; by exists h|].
  apply orb_false_iff in Hguard as [Hcl Hcb%bool_decide_eq_false]. rewrite (spec_start_fields x t cb after every A Hx Hcl Hcb).
  destruct (stop_spec x t A h q HL Hx) as (h1 & Estop & HL1 & Hk1).
  destruct (spec_stop_self x A t Hx) as (t1 & Hx1 & Ha1 & Hf1 & _ & Hr1 & _ & _ & _ & _ & _).
  rewrite (bind_some _ _ _ 0 (mk (spec_stop x A) h1 q)).
  2:{ destruct (uv__is_active t) eqn:Ha; [done|].
      revert Estop. unfold uv_timer_stop. rewrite (bind_some _ _ _ t (mk A h q) (run_get_timer x (mk A h q) t Hx)), Ha. done. }
  cbv zeta. cbn [fst snd]. set (A1 := spec_stop x A) in *.
  destruct (start_spec_inactive x t1 cb after every A1 h1 q HL1 Hx1 Ha1 Hcb Hafter Hevery) as (h' & E & Hok & Hk).
  exists h'. set (B := tick _). match type of Hok with timers_ok (mk ?C h' q) => assert (B = C) as -> end.
  { assert (uv__has_ref t = uv__has_ref (started x cb after every (flags t1) A1)) as Hr by (by rewrite <- Hr1).
    unfold B, count. rewrite <- Hr, <- Hf1. destruct (uv__has_ref t); unfold tick, put; cbn; by rewrite insert_insert_eq. }
  split; [exact E|]. split; [exact Hok|]. by etrans.
Qed.
Lemma again_spec x t A h q : timers_ok (mk A h q) → a_handles A !! x = Some t →
  ∃ h', uv_timer_again x (mk A h q) = (Some (spec_again x A).1, mk (spec_again x A).2 h' q) ∧
    timers_ok (mk (spec_again x A).2 h' q) ∧ cells_kept h h'.
Proof.
  intros HL Hx. unfold uv_timer_again, spec_again. rewrite (bind_some _ _ _ t (mk A h q) (run_get_timer x (mk A h q) t Hx)), Hx.
  destruct (bool_decide (timer_cb t = None)); [by exists h|].
  destruct (repeat t =? 0) eqn:Hr; [by exists h|]. cbn [negb].
  destruct (stop_spec x t A h q HL Hx) as (h1 & E1 & HL1 & Hk1).
  destruct (spec_stop_self x A t Hx) as (t1 & Hx1 & _ & _ & _ & _ & Hcb & Hrep & _).
  destruct (ok_timers _ HL x t Hx) as (_ & Hu & _).
  destruct (start_spec x t1 (timer_cb t) (repeat t) (repeat t) (spec_stop x A) h1 q HL1 Hx1 Hu Hu) as (h' & E & Hok & Hk).
  exists h'. split; [|split; [done|by etrans]].
  erewrite bind_some; [reflexivity|].
  rewrite (bind_some _ _ _ _ _ E1), (bind_some _ _ _ t1 _ (run_get_timer x (mk (spec_stop x A) h1 q) t1 Hx1)), Hcb, Hrep. exact E.
Qed.

Lemma set_repeat_spec x t r A h q : timers_ok (mk A h q) → a_handles A !! x = Some t → is_u64 r →
  uv_timer_set_repeat x r (mk A h q) = (Some tt, mk (spec_set_repeat x r A) h q) ∧ timers_ok (mk (spec_set_repeat x r A) h q).
Proof.
  intros HL Hx Hr. unfold uv_timer_set_repeat, spec_set_repeat. rewrite (bind_some _ _ _ t (mk A h q) (run_get_timer x (mk A h q) t Hx)), Hx.
  split; [done|]. split; cbn [mk handles timer_heap time put a_handles a_time].
  - destruct (ok_heap _ HL) as (l & Hl & Hact). exists l. split; [eapply heap_ok_ext; [|exact Hl]; intros a b _ _; by apply less_than_key with t|].
    intros y. rewrite active_in_insert, Hact. cbn [mk handles]. destruct (decide (x = y)) as [<-|]; [|naive_solver].
    unfold active_in. rewrite Hx. change (uv__is_active (with_repeat r t)) with (uv__is_active t). naive_solver.
  - intros y [s Hy]. apply (ok_nodes _ HL). cbn [mk handles].
    destruct (decide (x = y)) as [<-|]; [by exists t|]. rewrite lookup_insert_ne in Hy by done. by exists s.
  - intros y s. destruct (decide (x = y)) as [<-|]; [|rewrite lookup_insert_ne by done; apply (ok_timers _ HL)].
    rewrite lookup_insert_eq. intros [= <-]. destruct (ok_timers _ HL x t Hx) as (? & _ & ?). by split_and!.
  - apply HL.
  - rewrite map_size_insert_Some by (by eexists). apply (ok_size _ HL).
Qed.

(** A handle of the loop's own memory is a new timer. *)
Definition fresh_timer (junk : uv_timer) : uv_timer :=
  {| timer_cb := None; timeout := timeout junk; repeat := 0; start_id := start_id junk; flags := UV_HANDLE_REF |}.
Lemma timer_init_spec x junk A h q : timers_ok (mk A h q) → a_handles A !! x = None → is_Some (nodes h !! x) → is_u64 (timeout junk) →
  Z.of_nat (size (a_handles A)) + 1 < 2 ^ 32 →
  uv_timer_init x junk (mk A h q) = (Some 0, mk (put x (fresh_timer junk) A) h (q ++ [x])) ∧
  timers_ok (mk (put x (fresh_timer junk) A) h (q ++ [x])).
Proof.
  intros HL Hx Hn Ht Hsize. split; [done|]. split; cbn [mk handles timer_heap time put a_handles a_time].
  - destruct (ok_heap _ HL) as (l & Hl & Hact). exists l.
    assert (x ∉ l) as Hxl by (rewrite Hact; intros (s & Hs & _); cbn [mk handles] in Hs; congruence).
    split; [eapply heap_ok_ext; [|exact Hl]; by apply less_than_outside|].
    intros y. rewrite active_in_insert, Hact. cbn [mk handles]. change (uv__is_active (fresh_timer junk)) with false.
    destruct (decide (x = y)) as [<-|]; [|naive_solver]. unfold active_in. rewrite Hx. naive_solver.
  - intros y [s Hy]. destruct (decide (x = y)) as [<-|]; [done|]. rewrite lookup_insert_ne in Hy by done. apply (ok_nodes _ HL). by exists s.
  - intros y s. destruct (decide (x = y)) as [<-|]; [|rewrite lookup_insert_ne by done; apply (ok_timers _ HL)].
    rewrite lookup_insert_eq. intros [= <-]. by split_and!.
  - apply HL.
  - rewrite map_size_insert_None by done. lia.
Qed.

(** ** Sequences of operations *)

Inductive timer_op :=
  | Init (x : positive) (junk : uv_timer) | Start (x : positive) (cb : option positive) (after every : Z)
  | Stop (x : positive) | Again (x : positive) | Set_repeat (x : positive) (r : Z) | Close (x : positive).
Definition run_op (o : timer_op) : loop_st Z :=
  match o with
  | Init x junk => uv_timer_init x junk
  | Start x cb after every => uv_timer_start x cb after every
  | Stop x => uv_timer_stop x
  | Again x => uv_timer_again x
  | Set_repeat x r => _ ← uv_timer_set_repeat x r; mret 0
  | Close x => _ ← uv__timer_close x; mret 0
  end.
Fixpoint run_ops (ops : list timer_op) : loop_st (list Z) :=
  match ops with [] => mret [] | o :: ops => r ← run_op o; rs ← run_ops ops; mret (r :: rs) end.
Definition spec_op (o : timer_op) (A : timers) : Z * timers :=
  match o with
  | Init x junk => (0, put x (fresh_timer junk) A)
  | Start x cb after every => spec_start x cb after every A
  | Stop x | Close x => (0, spec_stop x A)
  | Again x => spec_again x A
  | Set_repeat x r => (0, spec_set_repeat x r A)
  end.
Fixpoint spec_ops (ops : list timer_op) (A : timers) : list Z * timers :=
  match ops with
  | [] => ([], A)
  | o :: ops => let (r, A) := spec_op o A in let (rs, A) := spec_ops ops A in (r :: rs, A)
  end.
(** The caller's part: a handle is initialised once, at an address that holds a heap node ([cells]),
    before anything else is done with it. *)
Definition op_ok (cells : gset positive) (A : timers) (o : timer_op) : Prop :=
  match o with
  | Init x junk => a_handles A !! x = None ∧ x ∈ cells ∧ is_u64 (timeout junk) ∧ Z.of_nat (size (a_handles A)) + 1 < 2 ^ 32
  | Start x _ after every => is_Some (a_handles A !! x) ∧ is_u64 after ∧ is_u64 every
  | Stop x | Again x | Close x => is_Some (a_handles A !! x)
  | Set_repeat x r => is_Some (a_handles A !! x) ∧ is_u64 r
  end.
Fixpoint ops_ok (cells : gset positive) (ops : list timer_op) (A : timers) : Prop :=
  match ops with [] => True | o :: ops => op_ok cells A o ∧ ops_ok cells ops (spec_op o A).2 end.

(** The loop and the abstract machine agree, and the heap is right. *)
Definition refines (cells : gset positive) (L : uv_loop) (A : timers) : Prop :=
  abs L = A ∧ timers_ok L ∧ ∀ x, x ∈ cells → is_Some (nodes (timer_heap L) !! x).

Lemma op_refines cells o L A : refines cells L A → op_ok cells A o →
  ∃ L', run_op o L = (Some (spec_op o A).1, L') ∧ refines cells L' (spec_op o A).2.
Proof.
  intros (<- & HL & Hc) Ho. rewrite <- (mk_abs L) in HL |- *. set (A := abs L) in *. set (h := timer_heap L) in *. set (q := handle_queue L).
  assert (∀ B h' q', timers_ok (mk B h' q') → cells_kept h h' → refines cells (mk B h' q') B) as Hdone
    by (intros B h' q' HB Hk; split; [by destruct B|split; [done|]]; intros y Hy; by apply Hk, Hc).
  destruct o as [x junk|x cb after every|x|x|x r|x]; cbn [op_ok run_op spec_op] in *.
  - destruct Ho as (Hx & Hcx & Ht & Hs). destruct (timer_init_spec x junk A h q HL Hx (Hc x Hcx) Ht Hs) as [-> Hok]. eexists. split; [done|by apply Hdone].
  - destruct Ho as ([t Hx] & Ha & He). destruct (start_spec x t cb after every A h q HL Hx Ha He) as (h' & -> & Hok & Hk). eexists. split; [done|by apply Hdone].
  - destruct Ho as [t Hx]. destruct (stop_spec x t A h q HL Hx) as (h' & -> & Hok & Hk). eexists. split; [done|by apply Hdone].
  - destruct Ho as [t Hx]. destruct (again_spec x t A h q HL Hx) as (h' & -> & Hok & Hk). eexists. split; [done|by apply Hdone].
  - destruct Ho as [[t Hx] Hr]. destruct (set_repeat_spec x t r A h q HL Hx Hr) as (E & Hok). rewrite (bind_some _ _ _ _ _ E).
    eexists. split; [done|]. by apply Hdone.
  - destruct Ho as [t Hx]. destruct (stop_spec x t A h q HL Hx) as (h' & E & Hok & Hk).
    unfold uv__timer_close. erewrite bind_some; [|by rewrite (bind_some _ _ _ _ _ E)]. eexists. split; [done|by apply Hdone].
Qed.

(** C34. Any sequence of initialisations, starts, stops, restarts, changes of the repeat interval and
    closes does to the loop what the abstract machine does, with the same results: the handles, the
    clock, the counter of starts and the count of active handles agree after it, however the heap is
    shaped.  The heap holds exactly the active timers after it, in heap order. *)
Theorem timer_ops_refine cells ops L A : refines cells L A → ops_ok cells ops A →
  ∃ L', run_ops ops L = (Some (spec_ops ops A).1, L') ∧ refines cells L' (spec_ops ops A).2.
Proof.
  revert L A. induction ops as [|o ops IH]; intros L A HR Hops; [by exists L|]. destruct Hops as [Ho Hops]. cbn [run_ops spec_ops].
  destruct (op_refines cells o L A HR Ho) as (L1 & E & HR1). rewrite (bind_some _ _ _ _ _ E).
  destruct (spec_op o A) as [r A1]. destruct (IH L1 A1 HR1 Hops) as (L' & E' & HR'). cbn [fst snd] in *.
  rewrite (bind_some _ _ _ _ _ E'). destruct (spec_ops ops A1) as [rs A2]. by exists L'.
Qed.
(** ** When the next timer is due *)

Lemma u64_of_diff a b : is_u64 a → is_u64 b → b ≤ a → u64 (a - b) = a - b.
Proof. unfold wrap. word_bounds. intros. apply Z.mod_small. lia. Qed.

(** The loop may sleep until the first active timer expires: the time to wait that
    [uv__next_timeout] gives is -1 (no limit) exactly when no timer is active, and otherwise what the
    earliest expiry time of any active timer leaves, at least 0 and at most [INT_MAX]. *)
Theorem next_timeout_exact L : timers_ok L →
  (uv__next_timeout L = -1 ∧ ∀ x, ¬ active_in (handles L) x) ∨
  ∃ x t, handles L !! x = Some t ∧ uv__is_active t = true ∧
    (∀ y s, handles L !! y = Some s → uv__is_active s = true → timeout t ≤ timeout s) ∧
    uv__next_timeout L = Z.min INT_MAX (Z.max 0 (timeout t - time L)).
Proof.
  intros HL. destruct (ok_heap _ HL) as (l & Hl & Hact). pose proof (heap_ok_min _ _ _ Hl) as Hmin. unfold uv__next_timeout.
  destruct (heap_min (hp (timer_heap L))) as [x|]; [|left; split; [done|]; intros x; rewrite <- Hact, Hmin; set_solver].
  destruct Hmin as [Hx Hmin]. apply Hact in Hx as (t & Hx & Ht). right. exists x, t. split_and!; [done|done| |].
  - intros y s Hy Hs. assert (y ∈ l) as Hyl by (apply Hact; by exists s). specialize (Hmin y Hyl). revert Hmin.
    unfold timer_less_than, timer_at. rewrite Hx, Hy. cbn [default from_option id].
    destruct (Z.ltb_spec (timeout s) (timeout t)); [done|lia].
  - unfold timer_at. rewrite Hx. cbn [default from_option id]. destruct (ok_timers _ HL x t Hx) as (Htu & _ & _).
    pose proof (ok_time _ HL). destruct (Z.leb_spec (timeout t) (time L)); [unfold INT_MAX; lia|].
    rewrite u64_of_diff by (done || lia). destruct (Z.ltb_spec INT_MAX (timeout t - time L)); unfold INT_MAX in *; lia.
Qed.

(** ** Running the timers that are due *)

Definition due_in (now : Z) (hs : gmap positive uv_timer) (x : positive) : Prop :=
  ∃ t, hs !! x = Some t ∧ uv__is_active t = true ∧ timeout t ≤ now.
Definition due (L : uv_loop) : positive → Prop := due_in (time L) (handles L).

(** What happens to a due timer before its callback is called: it stops, or starts again later. *)
Lemma fire_spec x A h q : timers_ok (mk A h q) → due (mk A h q) x → a_time A < 2 ^ 64 - 1 →
  ∃ A' h' t' cb, (∀ B (k : uv_timer → loop_st B), (_ ← uv_timer_stop x; _ ← uv_timer_again x; t ← get_timer x; k t) (mk A h q) = k t' (mk A' h' q)) ∧
    timers_ok (mk A' h' q) ∧ a_time A' = a_time A ∧ a_handles A' !! x = Some t' ∧ timer_cb t' = Some cb ∧ ¬ due (mk A' h' q) x ∧
    ∀ y, y ≠ x → a_handles A' !! y = a_handles A !! y.
Proof.
  intros HL (t & Hx & Ha & Ht) Hnow. cbn [mk handles time] in *.
  destruct (ok_timers _ HL x t Hx) as (_ & _ & Hcb). destruct (timer_cb t) as [cb|] eqn:Ecb; [|by destruct Hcb]. clear Hcb.
  destruct (stop_spec x t A h q HL Hx) as (h1 & E1 & HL1 & _). destruct (spec_stop_other x A) as (Htime1 & _ & Ho1).
  destruct (spec_stop_self x A t Hx) as (t1 & Hx1 & Ha1 & _ & _ & _ & Hcb1 & Hrep1 & _).
  destruct (again_spec x t1 (spec_stop x A) h1 q HL1 Hx1) as (h2 & E2 & HL2 & _). rewrite Ecb in Hcb1.
  set (A1 := spec_stop x A) in *. assert (∃ t2, a_handles (spec_again x A1).2 !! x = Some t2 ∧ timer_cb t2 = Some cb ∧
    a_time (spec_again x A1).2 = a_time A1 ∧ (∀ y, y ≠ x → a_handles (spec_again x A1).2 !! y = a_handles A1 !! y) ∧
    (uv__is_active t2 = true → a_time A < timeout t2)) as (t2 & Hx2 & Hcb2 & Htime2 & Ho2 & Hdue).
  { unfold spec_again. rewrite Hx1, Hcb1. rewrite bool_decide_eq_false_2 by done.
    destruct (Z.eqb_spec (repeat t1) 0) as [|Hr]; [exists t1; split_and!; try done; by rewrite Ha1|]. cbn [snd].
    destruct (spec_stop_self x A1 t1 Hx1) as (t3 & Hx3 & Ha3 & _ & _ & _ & Hcb3 & _ & _ & _ & Hins).
    destruct (spec_stop_other x A1) as (Htime3 & _ & Ho3).
    destruct (uv__is_closing t3) eqn:Ecl.
    - unfold spec_start. rewrite Hx3, Ecl. cbn [orb snd]. exists t3. rewrite Hcb3. split_and!; try done. by rewrite Ha3.
    - rewrite (spec_start_fields x t3 (Some cb) (repeat t1) (repeat t1) _ Hx3 Ecl) by done. cbv zeta. cbn [snd tick a_handles a_time].
      destruct (spec_stop_other x (spec_stop x A1)) as (Htime4 & _ & Ho4).
      rewrite count_handles, count_time. cbn [put a_handles a_time]. eexists. split; [apply lookup_insert_eq|].
      split_and!; [done|congruence| |].
      + intros y Hy. rewrite lookup_insert_ne by done. by rewrite Ho4, Ho3.
      + intros _. cbn [started timeout]. rewrite Htime4, Htime3, Htime1. unfold expiry.
        destruct (ok_timers _ HL1 x t1 Hx1) as (_ & Hu & _). revert Hu Hnow. word_bounds. intros.
        destruct (Z.ltb_spec (a_time A + repeat t1) 18446744073709551616); lia. }
  exists (spec_again x A1).2, h2, t2, cb. split_and!; try done.
  - intros B k. rewrite (bind_some _ _ _ _ _ E1), (bind_some _ _ _ _ _ E2). by rewrite (bind_some _ _ _ t2 _ (run_get_timer x (mk (spec_again x A1).2 h2 q) t2 Hx2)).
  - cbn [mk]. congruence.
  - intros (s & Hs & Has & Hds). cbn [mk handles time] in *. rewrite Hx2 in Hs. injection Hs as <-. specialize (Hdue Has). rewrite Htime2, Htime1 in Hds. lia.
  - intros y Hy. by rewrite Ho2, Ho1.
Qed.

(** A timer is due exactly when the one at the root of the heap is. *)
Lemma min_due L : timers_ok L →
  match heap_min (hp (timer_heap L)) with
  | None => ∀ y, ¬ due L y
  | Some x => ∃ t, handles L !! x = Some t ∧ uv__is_active t = true ∧ (time L < timeout t → ∀ y, ¬ due L y) ∧
      ∀ y, active_in (handles L) y → timer_less_than (handles L) y x = false
  end.
Proof.
  intros HL. destruct (ok_heap _ HL) as (l & Hl & Hact). pose proof (heap_ok_min _ _ _ Hl) as Hmin.
  destruct (heap_min _) as [x|]; [|intros y (t & Hy & Ht & _); assert (y ∈ l) by (apply Hact; by exists t); set_solver].
  destruct Hmin as [Hx Hmin]. apply Hact in Hx as (t & Hx & Ht). exists t. split_and!; [done|done| |intros y Hy; by apply Hmin, Hact].
  intros Hlt y (s & Hy & Hs & Hle). assert (timer_less_than (handles L) y x = false) as Hyx by (apply Hmin, Hact; by exists s).
  revert Hyx. unfold timer_less_than, timer_at. rewrite Hx, Hy. cbn [default from_option id].
  by rewrite (proj2 (Z.ltb_lt (timeout s) (timeout t))) by lia.
Qed.

(** What the loop asks of the callbacks: they return, they leave the timers well formed, do not change
    the clock, and make no further timer due. *)
Class CallbacksOk (run_cb : positive → positive → loop_st unit) : Prop :=
  callback_ok cb x L : timers_ok L → ∃ L', run_cb cb x L = (Some tt, L') ∧ timers_ok L' ∧ time L' = time L ∧ ∀ y, due L' y → due L y.

Lemma run_timers_spec run_cb `{!CallbacksOk run_cb} fuel : ∀ (l : list positive) L, timers_ok L → time L < 2 ^ 64 - 1 →
  (∀ y, due L y → y ∈ l) → (length l < fuel)%nat →
  ∃ fired L', uv__run_timers run_cb fuel L = (Some fired, L') ∧ timers_ok L' ∧ time L' = time L ∧ (∀ y, ¬ due L' y) ∧
    NoDup fired ∧ ∀ y, y ∈ fired → due L y.
Proof.
  induction fuel as [|fuel IH]; intros l L HL Hnow Hl Hf; [lia|]. cbn [uv__run_timers].
  rewrite (bind_some _ _ _ L L) by done. pose proof (min_due L HL) as Hmin.
  assert ((∀ y, ¬ due L y) → ∃ fired L', (Some [], L) = (Some fired, L') ∧ timers_ok L' ∧ time L' = time L ∧ (∀ y, ¬ due L' y) ∧
    NoDup fired ∧ ∀ y, y ∈ fired → due L y) as Hstop.
  { intros Hno. exists [], L. split_and!; [done..|constructor|]. intros y Hy. by apply elem_of_nil in Hy. }
  destruct (heap_min (hp (timer_heap L))) as [x|]; [|by apply Hstop].
  destruct Hmin as (t & Hx & Ha & Hnone & _). rewrite (bind_some _ _ _ t _ (run_get_timer x L t Hx)).
  destruct (Z.ltb_spec (time L) (timeout t)) as [Hlt|Hle]; [apply Hstop, Hnone, Hlt|].
  assert (due L x) as Hdx by (by exists t). rewrite <- (mk_abs L) in HL, Hdx, Hnow, Hl |- *. set (A := abs L) in *.
  destruct (fire_spec x A _ _ HL Hdx Hnow) as (A1 & h1 & t1 & cb & E & HL1 & Htime & Hx1 & Hcb & Hnd & Ho). rewrite E, Hcb.
  destruct (callback_ok cb x _ HL1) as (L2 & E2 & HL2 & Htime2 & Hdue2). rewrite (bind_some _ _ _ _ _ E2).
  assert (∀ y, due L2 y → y ≠ x ∧ due (mk A (timer_heap L) (handle_queue L)) y) as Hold.
  { intros y Hy%Hdue2. assert (y ≠ x) as Hne by (by intros ->). split; [done|]. destruct Hy as (s & Hs & Has & Hds). exists s.
    cbn [mk handles time] in *. rewrite <- Ho, <- Htime by done. done. }
  apply Hl in Hdx as Hxl. apply elem_of_Permutation in Hxl as [l' Hl'].
  destruct (IH l' L2) as (fired & L' & E' & HL' & Htime' & Hno & Hnd' & Hfired); [done|rewrite Htime2; cbn [mk time]; rewrite Htime; done| | |].
  { intros y [Hne Hy]%Hold. apply Hl in Hy. rewrite Hl' in Hy. apply elem_of_cons in Hy as [|]; done. }
  { rewrite Hl' in Hf. cbn in Hf. lia. }
  rewrite (bind_some _ _ _ _ _ E'). exists (x :: fired), L'. split_and!; try done.
  - rewrite Htime', Htime2. cbn [mk time]. done.
  - constructor; [|done]. intros Hin%Hfired%Hold. by destruct Hin.
  - intros y [->|Hin]%elem_of_cons; [done|]. by apply Hold, Hfired.
Qed.
Lemma next_timeout_not_due L : timers_ok L → (∀ y, ¬ due L y) → uv__next_timeout L ≠ 0.
Proof.
  intros HL Hno. pose proof (min_due L HL) as Hmin. unfold uv__next_timeout.
  destruct (heap_min (hp (timer_heap L))) as [x|]; [|done]. destruct Hmin as (t & Hx & Ha & _). unfold timer_at. rewrite Hx. cbn [default from_option id].
  destruct (Z.leb_spec (timeout t) (time L)); [destruct (Hno x); by exists t|].
  destruct (ok_timers _ HL x t Hx) as (Htu & _). rewrite u64_of_diff by (done || lia || apply HL).
  destruct (INT_MAX <? _); unfold INT_MAX; lia.
Qed.
(** All handles of the loop are candidates. *)
Lemma due_handles L y : due L y → y ∈ elements (dom (handles L)).
Proof. intros (t & Ht & _). apply elem_of_elements, elem_of_dom. by exists t. Qed.
Lemma handles_count L : length (elements (dom (handles L))) = size (handles L).
Proof. rewrite <- size_dom. done. Qed.

(** C36. A pass over the timers ends, whatever the callbacks do to the timers, as long as they return,
    keep them well formed, leave the clock alone and make no further timer due: no more passes are
    needed than there are handles.  Each timer fires at most once, only timers that were due at the
    start fire, none is due at the end, and the loop will not be told to poll with timeout 0. *)
Theorem run_timers_terminates run_cb `{!CallbacksOk run_cb} fuel L : timers_ok L → time L < 2 ^ 64 - 1 → (size (handles L) < fuel)%nat →
  ∃ fired L', uv__run_timers run_cb fuel L = (Some fired, L') ∧ timers_ok L' ∧ time L' = time L ∧ (∀ y, ¬ due L' y) ∧
    NoDup fired ∧ (∀ y, y ∈ fired → due L y) ∧ uv__next_timeout L' ≠ 0.
Proof.
  intros HL Hnow Hf. destruct (run_timers_spec run_cb fuel (elements (dom (handles L))) L HL Hnow) as (fired & L' & E & HL' & ? & Hno & ? & ?).
  - apply due_handles.
  - by rewrite handles_count.
  - exists fired, L'. split_and!; try done. by apply next_timeout_not_due.
Qed.

Definition no_effect (cb x : positive) : loop_st unit := mret tt.
#[export] Instance no_effect_ok : CallbacksOk no_effect.
Proof. intros cb x L HL. by exists L. Qed.

Lemma run_timers_sorted fuel : ∀ (l : list positive) L, timers_ok L → time L < 2 ^ 64 - 1 →
  (∀ y, due L y → y ∈ l) → (length l < fuel)%nat →
  ∃ fired L', uv__run_timers no_effect fuel L = (Some fired, L') ∧
    StronglySorted (λ a b, timer_less_than (handles L) b a = false) fired ∧ (∀ y, y ∈ fired ↔ due L y).
Proof.
  induction fuel as [|fuel IH]; intros l L HL Hnow Hl Hf; [lia|]. cbn [uv__run_timers].
  rewrite (bind_some _ _ _ L L) by done. pose proof (min_due L HL) as Hmin.
  assert ((∀ y, ¬ due L y) → ∃ fired L', (Some [], L) = (Some fired, L') ∧
    StronglySorted (λ a b, timer_less_than (handles L) b a = false) fired ∧ (∀ y, y ∈ fired ↔ due L y)) as Hstop.
  { intros Hno. exists [], L. split_and!; [done|constructor|]. intros y. rewrite elem_of_nil. by specialize (Hno y). }
  destruct (heap_min (hp (timer_heap L))) as [x|]; [|by apply Hstop].
  destruct Hmin as (t & Hx & Ha & Hnone & Hleast). rewrite (bind_some _ _ _ t _ (run_get_timer x L t Hx)).
  destruct (Z.ltb_spec (time L) (timeout t)) as [Hlt|Hle]; [apply Hstop, Hnone, Hlt|].
  assert (due L x) as Hdx by (by exists t). rewrite <- (mk_abs L) in HL, Hdx, Hnow, Hl, Hleast |- *. set (A := abs L) in *.
  destruct (fire_spec x A _ _ HL Hdx Hnow) as (A1 & h1 & t1 & cb & E & HL1 & Htime & Hx1 & Hcb & Hnd & Ho). rewrite E, Hcb.
  rewrite (bind_some _ _ _ tt (mk A1 h1 (handle_queue L))) by done.
  set (L0 := mk A (timer_heap L) (handle_queue L)) in *. set (L1 := mk A1 h1 (handle_queue L)) in *.
  assert (∀ y, due L1 y ↔ y ≠ x ∧ due L0 y) as Hold.
  { intros y. unfold due, due_in, L0, L1 in *. cbn [mk time handles] in *. rewrite Htime in *. split.
    - intros Hy. assert (y ≠ x) as Hne by (by intros ->). split; [done|]. by rewrite <- Ho.
    - intros [Hne Hy]. by rewrite Ho. }
  assert (∀ a b, a ≠ x → b ≠ x → timer_less_than (handles L1) a b = timer_less_than (handles L0) a b) as Hkeys
    by (intros a b Ha' Hb'; unfold timer_less_than, timer_at; cbn [L1 L0 mk handles]; by rewrite !Ho).
  apply Hl in Hdx as Hxl. apply elem_of_Permutation in Hxl as [l' Hl'].
  destruct (IH l' L1) as (fired & L' & E' & Hsorted & Hfired); [done|cbn [L1 mk time]; by rewrite Htime| | |].
  { intros y [Hne Hy]%Hold. apply Hl in Hy. rewrite Hl' in Hy. apply elem_of_cons in Hy as [|]; done. }
  { rewrite Hl' in Hf. cbn in Hf. lia. }
  rewrite (bind_some _ _ _ _ _ E'). exists (x :: fired), L'. split_and!; [done| |].
  - assert (∀ y, y ∈ fired → y ≠ x ∧ due L0 y) as Hin by (intros y Hy; by apply Hold, Hfired).
    constructor; [|apply Forall_forall; intros y (_ & s & Hs & Has & _)%Hin; apply Hleast; by exists s].
    clear -Hsorted Hkeys Hin. induction Hsorted as [|y fired Hs IH Hall]; constructor.
    + apply IH. intros z Hz. apply Hin. by right.
    + rewrite Forall_forall in Hall |- *. intros z Hz. rewrite <- Hkeys; [by apply Hall|apply Hin; by right|apply Hin; by left].
  - intros y. rewrite elem_of_cons, Hfired, Hold. split; [by intros [->|[_ Hy]]|]. intros Hy. destruct (decide (y = x)); [by left|by right].
Qed.

(** [a] expires before [b], or at the same time and was not started after it. *)
Definition fires_before (L : uv_loop) (a b : positive) : Prop := ∃ s t, handles L !! a = Some s ∧ handles L !! b = Some t ∧
  (timeout s < timeout t ∨ timeout s = timeout t ∧ start_id s ≤ start_id t).
Lemma not_less_than L a b : due L a → due L b → timer_less_than (handles L) b a = false → fires_before L a b.
Proof.
  intros (s & Ha & _) (t & Hb & _) H. exists s, t. split_and!; [done|done|]. unfold timer_less_than, timer_at in H. rewrite Ha, Hb in H. cbn in H.
  destruct (Z.ltb_spec (timeout t) (timeout s)); [done|]. destruct (Z.ltb_spec (timeout s) (timeout t)); [by left|]. apply Z.ltb_ge in H. right. lia.
Qed.
Lemma sorted_fires L l : (∀ y, y ∈ l → due L y) → StronglySorted (λ a b, timer_less_than (handles L) b a = false) l → StronglySorted (fires_before L) l.
Proof.
  intros Hd Hs. induction Hs as [|a l Hs IH Ha]; constructor.
  - apply IH. intros y Hy. apply Hd. by right.
  - rewrite Forall_forall in Ha |- *. intros b Hb. apply not_less_than; [apply Hd; by left|apply Hd; by right|by apply Ha].
Qed.

(** C37. With callbacks that leave the loop alone, a pass fires exactly the timers that were due, each once,
    in the order of their expiry times, those with the same expiry time in the order of their start
    numbers. *)
Theorem run_timers_order fuel L : timers_ok L → time L < 2 ^ 64 - 1 → (size (handles L) < fuel)%nat →
  ∃ fired L', uv__run_timers no_effect fuel L = (Some fired, L') ∧ NoDup fired ∧ StronglySorted (fires_before L) fired ∧ (∀ y, y ∈ fired ↔ due L y).
Proof.
  intros HL Hnow Hf. rewrite <- handles_count in Hf.
  destruct (run_timers_sorted fuel _ L HL Hnow (due_handles L) Hf) as (fired & L' & E & Hs & Hin). exists fired, L'.
  destruct (run_timers_spec no_effect fuel _ L HL Hnow (due_handles L) Hf) as (fired' & L'' & E' & _ & _ & _ & Hnd & _).
  rewrite E in E'. injection E' as <- _. split_and!; [done|done| |done]. apply sorted_fires; [|done]. intros y. apply Hin.
Qed.

(** ** A loop with timers *)

Definition demo_cells : heap_mem := {| hp := {| min := None; nelts := 0 |};
  nodes := list_to_map [(1, {| left := None; right := None; parent := None |}); (2, {| left := None; right := None; parent := None |})]%positive |}.
Definition demo_start : uv_loop :=
  {| time := 10; timer_counter := 0; active_handles := 0; timer_heap := demo_cells; handles := ∅; handle_queue := [] |}.
Lemma demo_start_refines : refines {[1%positive; 2%positive]} demo_start (abs demo_start).
Proof.
  split; [done|]. split.
  - split; [|intros x [t Ht]; cbn in Ht; by rewrite lookup_empty in Ht|intros x t Ht; cbn in Ht; by rewrite lookup_empty in Ht|done|done].
    exists []. split.
    + exists []. split_and!; [|by intros k Hk x y|done]. split; [done|done|constructor|done].
    + intros x. unfold active_in. split; [intros Hx; by apply elem_of_nil in Hx|by intros (? & ? & _)].
  - intros x. rewrite elem_of_union, !elem_of_singleton. intros [-> | ->]; by eexists.
Qed.
Definition junk_timer : uv_timer := {| timer_cb := None; timeout := 77; repeat := 5; start_id := 3; flags := 0 |}.
Definition demo_ops : list timer_op :=
  [Init 1 junk_timer; Init 2 junk_timer; Start 1 (Some 7%positive) 20 0; Start 2 (Some 7%positive) 5 3; Start 1 None 0 0; Again 2; Stop 1].
Lemma timer_ops_refine_witness : ∃ L', run_ops demo_ops demo_start = (Some [0; 0; 0; 0; -22; 0; 0], L') ∧
  refines {[1%positive; 2%positive]} L' (spec_ops demo_ops (abs demo_start)).2.
Proof.
  apply (timer_ops_refine _ demo_ops _ _ demo_start_refines).
  repeat apply conj; try done; try (by eexists); try (apply elem_of_union; rewrite !elem_of_singleton; auto).
Defined.

(** Two timers that are due, the one at address 2 first; the other repeats. *)
Definition demo_loop : uv_loop :=
  {| time := 30; timer_counter := 2; active_handles := 2;
     timer_heap := {| hp := {| min := Some 2%positive; nelts := 2 |}; nodes := list_to_map
       [(2, {| left := Some 1; right := None; parent := None |}); (1, {| left := None; right := None; parent := Some 2 |})]%positive |};
     handles := list_to_map [(1%positive, {| timer_cb := Some 7%positive; timeout := 30; repeat := 4; start_id := 0; flags := 12 |});
       (2%positive, {| timer_cb := Some 8%positive; timeout := 15; repeat := 0; start_id := 1; flags := 12 |})];
     handle_queue := [1; 2]%positive |}.
Lemma demo_loop_ok : timers_ok demo_loop.
Proof.
  assert (∀ x t, handles demo_loop !! x = Some t → (x = 1%positive ∨ x = 2%positive) ∧ uv__is_active t = true ∧ timer_ok t) as Hall.
  { intros x t. cbn [demo_loop handles]. cbn [list_to_map foldr fst snd curry].
    intros [[<- <-]|[_ [[<- <-]|[_ Hx]]%lookup_insert_Some]]%lookup_insert_Some; [..|done]; (split; [auto|split; [done|by repeat split]]). }
  split.
  - exists [2; 1]%positive. split.
    + exists [2; 1]%positive. split_and!; [|by intros [|[|k]] Hk x y; [lia|intros [= <-] [= <-]|]|done].
      split; [done|done|by repeat constructor; set_solver|]. intros [|[|i]] x; intros [= <-]; reflexivity.
    + intros x. rewrite !elem_of_cons, elem_of_nil. split; [intros [->|[->|[]]]; by eexists|].
      intros (t & Hx & _). destruct (Hall x t Hx) as [[-> | ->] _]; auto.
  - intros x [t Hx]. destruct (Hall x t Hx) as [[-> | ->] _]; by eexists.
  - intros x t Hx. destruct (Hall x t Hx) as (_ & _ & Hok); exact Hok.
  - done.
  - done.
Qed.
Lemma next_timeout_exact_witness : uv__next_timeout demo_loop = 0 ∧
  ((uv__next_timeout demo_loop = -1 ∧ ∀ x, ¬ active_in (handles demo_loop) x) ∨
  ∃ x t, handles demo_loop !! x = Some t ∧ uv__is_active t = true ∧
    (∀ y s, handles demo_loop !! y = Some s → uv__is_active s = true → timeout t ≤ timeout s) ∧
    uv__next_timeout demo_loop = Z.min INT_MAX (Z.max 0 (timeout t - time demo_loop))).
Proof. split; [reflexivity|]. apply (next_timeout_exact _ demo_loop_ok). Defined.

(** A callback that stops the timer at address 1. *)
Definition stop_one (cb x : positive) : loop_st unit :=
  λ L, match handles L !! 1%positive with Some _ => (_ ← uv_timer_stop 1; mret tt) L | None => (Some tt, L) end.
#[export] Instance stop_one_ok : CallbacksOk stop_one.
Proof.
  intros cb x L HL. unfold stop_one. destruct (handles L !! 1%positive) as [t|] eqn:Hx; [|by exists L].
  rewrite <- (mk_abs L) in HL |- *. set (A := abs L) in *.
  destruct (stop_spec 1 t A _ _ HL Hx) as (h' & E & HL' & _). rewrite (bind_some _ _ _ _ _ E). eexists. split_and!; [done|done| |].
  - apply spec_stop_other.
  - intros y (s & Hs & Has & Hle). cbn [mk handles time] in *. destruct (spec_stop_other 1 A) as (Htime & _ & Ho). rewrite Htime in Hle.
    destruct (decide (y = 1%positive)) as [->|Hne]; [|exists s; cbn [mk handles time]; by rewrite <- Ho].
    destruct (spec_stop_self 1 A t Hx) as (t1 & Hx1 & Ha1 & _). congruence.
Qed.
Lemma run_timers_terminates_witness : ∃ L', uv__run_timers stop_one 3 demo_loop = (Some [2%positive], L') ∧
  ∃ fired L', uv__run_timers stop_one 3 demo_loop = (Some fired, L') ∧ timers_ok L' ∧ time L' = time demo_loop ∧ (∀ y, ¬ due L' y) ∧
    NoDup fired ∧ (∀ y, y ∈ fired → due demo_loop y) ∧ uv__next_timeout L' ≠ 0.
Proof. eexists. split; [vm_compute; reflexivity|]. apply (run_timers_terminates stop_one 3 _ demo_loop_ok); [done|vm_compute; lia]. Defined.
Lemma run_timers_order_witness : ∃ L', uv__run_timers no_effect 3 demo_loop = (Some [2%positive; 1%positive], L') ∧
  ∃ fired L', uv__run_timers no_effect 3 demo_loop = (Some fired, L') ∧ NoDup fired ∧
    StronglySorted (fires_before demo_loop) fired ∧ (∀ y, y ∈ fired ↔ due demo_loop y).
Proof. eexists. split; [vm_compute; reflexivity|]. apply (run_timers_order 3 _ demo_loop_ok); [done|vm_compute; lia]. Defined.
