(* ===== verification/PbStream.v ===== *)
(** * Streams and wire format of nanopb ([nanopb/pb_encode.c], [nanopb/pb_decode.c])

    Encoders write to an output stream, decoders read from an input stream; both move their bytes
    through a callback, which is a buffer of the library or code of the user.  What a callback
    promises is a class, so that every encoder and decoder is proved once for all streams.  Messages
    are described by tables that the generated code supplies; an encoder of messages is a parameter
    here.  Objects in memory are their bytes on the little-endian targets of the build. *)
From stdpp Require Import strings.
From S2P Require Export Prelude.

(** ** Input streams *)

(** [fetch] is the callback: it stores [count] bytes and moves its state, or reports an I/O error.
    [buffered] says that it is the library's own [buf_read], which may be called without a buffer. *)
Class Source (X : Type) := { buffered : bool; fetch : X → Z → option bytes * X }.
Record pb_istream (X : Type) := Istream { state : X; bytes_left : Z; errmsg : option string }.
Arguments Istream {X}. Arguments state {X}. Arguments bytes_left {X}. Arguments errmsg {X}.

(** The state of a buffer is the memory from its pointer on. *)
Definition buf_read (source : bytes) (count : Z) : option bytes * bytes :=
  (Some (take (Z.to_nat count) source), drop (Z.to_nat count) source).
#[export] Instance buf_source : Source bytes := {| buffered := true; fetch := buf_read |}.
Definition pb_istream_from_buffer (buf : bytes) (bufsize : Z) : pb_istream bytes := Istream buf bufsize None.

Inductive wire_type := PB_WT_VARINT | PB_WT_64BIT | PB_WT_STRING | PB_WT_32BIT | Invalid_wire_type (n : Z).
Definition wire_type_of (n : Z) : wire_type :=
  if n =? 0 then PB_WT_VARINT else if n =? 1 then PB_WT_64BIT else if n =? 2 then PB_WT_STRING
  else if n =? 5 then PB_WT_32BIT else Invalid_wire_type n.
Definition wire_number (w : wire_type) : Z :=
  match w with PB_WT_VARINT => 0 | PB_WT_64BIT => 1 | PB_WT_STRING => 2 | PB_WT_32BIT => 5 | Invalid_wire_type n => n end.

Section Input.
Context {X : Type} `{!Source X}.
Abbreviation istream := (pb_istream X).

(** [PB_RETURN_ERROR]: the first message stays. *)
Definition in_error {A} (msg : string) : st istream A := λ s,
  (None, Istream (state s) (bytes_left s) (Some (default msg (errmsg s)))).
Definition in_callback (count : Z) : st istream bytes := λ s,
  let '(r, x) := fetch (state s) count in
  match r with
  | Some bs => (Some bs, Istream x (bytes_left s) (errmsg s))
  | None => in_error "io error" (Istream x (bytes_left s) (errmsg s))
  end.

(** [pb_read] behind its special cases. *)
Definition read_bytes (count : Z) : st istream bytes :=
  s ← st_get;
  if bytes_left s <? count then in_error "end-of-stream"
  else
    bs ← in_callback count;
    _ ← st_modify (λ s, Istream (state s) (bytes_left s - count) (errmsg s));
    mret bs.
(** Bytes to skip are read in pieces of sixteen. *)
Fixpoint skip_loop (fuel : nat) (count : Z) : st istream bytes :=
  match fuel with
  | O => st_fail
  | S fuel =>
      if 16 <? count then _ ← read_bytes 16; skip_loop fuel (count - 16)
      else if count =? 0 then mret [] else read_bytes count
  end.
(** [buf] says whether there is a buffer to store the bytes in. *)
Definition pb_read (buf : bool) (count : Z) : st istream bytes :=
  if count =? 0 then mret []
  else if negb buf && negb buffered then skip_loop (Z.to_nat count) count
  else read_bytes count.
Definition pb_readbyte : st istream Z :=
  s ← st_get;
  if bytes_left s =? 0 then in_error "end-of-stream"
  else
    bs ← in_callback 1;
    _ ← st_modify (λ s, Istream (state s) (bytes_left s - 1) (errmsg s));
    mret (hd 0 bs).

(** [bitpos] is a [uint_fast8_t], one byte on these targets. *)
Fixpoint varint32_loop (fuel : nat) (bitpos result : Z) : st istream (Z * Z * Z) :=
  match fuel with
  | O => st_fail
  | S fuel =>
      byte ← pb_readbyte;
      result ← (if 32 <=? bitpos
                then
                  let sign_extension := if bitpos <? 63 then 0xFF else 0x01 in
                  if negb (byte .& 0x7F =? 0) && ((result >>> 31 =? 0) || negb (byte =? sign_extension))
                  then in_error "varint overflow" else mret result
                else mret (result .| ((byte .& 0x7F) <<32 bitpos)));
      let bitpos := u8 (bitpos + 7) in
      if byte .& 0x80 =? 0 then mret (byte, bitpos, result) else varint32_loop fuel bitpos result
  end.
(** The second result is [*eof]. *)
Definition pb_decode_varint32_eof : istream → (option Z * bool) * istream := λ s,
  match pb_readbyte s with
  | (None, s) => ((None, bytes_left s =? 0), s)
  | (Some byte, s) =>
      if byte .& 0x80 =? 0 then ((Some byte, false), s)
      else
        match varint32_loop (S (Z.to_nat (bytes_left s))) 7 (byte .& 0x7F) s with
        | (None, s) => ((None, false), s)
        | (Some (byte, bitpos, result), s) =>
            if (bitpos =? 35) && negb (byte .& 0x70 =? 0)
            then ((None, false), (in_error (A := Z) "varint overflow" s).2)
            else ((Some result, false), s)
        end
  end.
Definition pb_decode_varint32 : st istream Z := λ s,
  let '((r, _), s) := pb_decode_varint32_eof s in (r, s).

Fixpoint varint_loop (fuel : nat) (bitpos result : Z) : st istream Z :=
  match fuel with
  | O => st_fail
  | S fuel =>
      if 64 <=? bitpos then in_error "varint overflow"
      else
        byte ← pb_readbyte;
        let result := result .| ((byte .& 0x7F) <<64 bitpos) in
        let bitpos := u8 (bitpos + 7) in
        if byte .& 0x80 =? 0 then mret result else varint_loop fuel bitpos result
  end.
Definition pb_decode_varint : st istream Z := varint_loop 11 0 0.

Fixpoint skip_varint_loop (fuel : nat) : st istream unit :=
  match fuel with
  | O => st_fail
  | S fuel => bs ← pb_read true 1; if hd 0 bs .& 0x80 =? 0 then mret tt else skip_varint_loop fuel
  end.
Definition pb_skip_varint : st istream unit := s ← st_get; skip_varint_loop (S (Z.to_nat (bytes_left s))).
Definition pb_skip_string : st istream unit := length ← pb_decode_varint32; _ ← pb_read false length; mret tt.

(** The wire type and the tag, and [*eof]. *)
Definition pb_decode_tag : istream → (option (wire_type * Z) * bool) * istream := λ s,
  match pb_decode_varint32_eof s with
  | ((None, eof), s) => ((None, eof), s)
  | ((Some temp, eof), s) =>
      if temp =? 0 then ((None, true), s) else ((Some (wire_type_of (temp .& 7), temp >>> 3), eof), s)
  end.
Definition pb_skip_field (w : wire_type) : st istream unit :=
  match w with
  | PB_WT_VARINT => pb_skip_varint
  | PB_WT_64BIT => _ ← pb_read false 8; mret tt
  | PB_WT_STRING => pb_skip_string
  | PB_WT_32BIT => _ ← pb_read false 4; mret tt
  | Invalid_wire_type _ => in_error "invalid wire_type"
  end.

(** The substream takes over the callback's state until it is closed. *)
Definition pb_make_string_substream : st istream istream :=
  size ← pb_decode_varint32;
  s ← st_get;
  if bytes_left s <? size then in_error "parent stream too short"
  else
    _ ← st_put (Istream (state s) (bytes_left s - size) (errmsg s));
    mret (Istream (state s) size (errmsg s)).
Definition pb_close_string_substream (substream : istream) : st istream unit := λ s,
  let '(r, sub) := if negb (bytes_left substream =? 0) then pb_read false (bytes_left substream) substream else (Some [], substream) in
  match r with
  | None => (None, s)
  | Some _ => (Some tt, Istream (state sub) (bytes_left s) (errmsg sub))
  end.

Definition pb_decode_svarint : st istream Z :=
  value ← pb_decode_varint;
  mret (if value .& 1 =? 0 then s64 (value >>> 1) else s64 (Z.lnot (value >>> 1))).
Definition pb_decode_fixed32 : st istream Z :=
  b ← pb_read true 4;
  mret (nth 0 b 0 .| (nth 1 b 0 <<32 8) .| (nth 2 b 0 <<32 16) .| (nth 3 b 0 <<32 24)).
Definition pb_decode_fixed64 : st istream Z :=
  b ← pb_read true 8;
  mret (nth 0 b 0 .| (nth 1 b 0 <<64 8) .| (nth 2 b 0 <<64 16) .| (nth 3 b 0 <<64 24)
        .| (nth 4 b 0 <<64 32) .| (nth 5 b 0 <<64 40) .| (nth 6 b 0 <<64 48) .| (nth 7 b 0 <<64 56)).
End Input.

(** ** Output streams *)

Class Sink (X : Type) := { put_bytes : X → bytes → bool * X }.
(** [o_callback] says whether there is a callback; a stream without one only counts. *)
Record pb_ostream (X : Type) := Ostream {
  o_callback : bool; o_state : X; max_size : Z; bytes_written : Z; o_errmsg : option string }.
Arguments Ostream {X}. Arguments o_callback {X}. Arguments o_state {X}. Arguments max_size {X}.
Arguments bytes_written {X}. Arguments o_errmsg {X}.

(** The state of a buffer is the array and the place of the pointer in it. *)
Definition buf_write (dest : bytes * Z) (buf : bytes) : bool * (bytes * Z) :=
  let '(mem, pos) := dest in
  (true, (take (Z.to_nat pos) mem ++ buf ++ drop (Z.to_nat pos + length buf) mem, pos + zlen buf)).
#[export] Instance buf_sink : Sink (bytes * Z) := {| put_bytes := buf_write |}.
Definition pb_ostream_from_buffer (buf : bytes) (bufsize : Z) : pb_ostream (bytes * Z) := Ostream true (buf, 0) bufsize 0 None.

Section Output.
Context {X : Type} `{!Sink X}.
Abbreviation ostream := (pb_ostream X).

Definition PB_OSTREAM_SIZING (null : X) : ostream := Ostream false null 0 0 None.
Definition set_errmsg (msg : option string) : st ostream unit := st_modify (λ s,
  Ostream (o_callback s) (o_state s) (max_size s) (bytes_written s) msg).
Definition out_error {A} (msg : string) : st ostream A := s ← st_get; _ ← set_errmsg (Some (default msg (o_errmsg s))); st_fail.
Definition set_state (x : X) : st ostream unit := st_modify (λ s,
  Ostream (o_callback s) x (max_size s) (bytes_written s) (o_errmsg s)).
Definition set_bytes_written (n : Z) : st ostream unit := st_modify (λ s,
  Ostream (o_callback s) (o_state s) (max_size s) n (o_errmsg s)).

(** [buf] may be [NULL], here the empty list, when nothing is written. *)
Definition pb_write (buf : bytes) (count : Z) : st ostream unit :=
  s ← st_get;
  _ ← (if (0 <? count) && o_callback s
       then
         if (u64 (bytes_written s + count) <? bytes_written s) || (max_size s <? u64 (bytes_written s + count))
         then out_error "stream full"
         else
           let '(ok, x) := put_bytes (o_state s) (take (Z.to_nat count) buf) in
           _ ← set_state x;
           if ok : bool then mret tt else out_error "io error"
       else mret tt);
  s ← st_get; set_bytes_written (u64 (bytes_written s + count)).

Fixpoint varint_bytes_loop (fuel : nat) (value : Z) : bytes :=
  match fuel with
  | O => []
  | S fuel => if value =? 0 then [] else u8 ((value .& 0x7F) .| 0x80) :: varint_bytes_loop fuel (value >>> 7)
  end.
Definition pb_encode_varint (value : Z) : st ostream unit :=
  if value <=? 0x7F then pb_write [u8 value] 1
  else
    let buffer := varint_bytes_loop 10 value in
    let i := length buffer in
    pb_write (alter (λ b, b .& 0x7F) (i - 1)%nat buffer) (zlen buffer).
Definition pb_encode_svarint (value : Z) : st ostream unit :=
  let zigzagged := if value <? 0 then u64 (Z.lnot (u64 value <<64 1)) else u64 value <<64 1 in
  pb_encode_varint zigzagged.
Definition pb_encode_fixed32 (val : Z) : st ostream unit :=
  pb_write [u8 (val .& 0xFF); u8 ((val >>> 8) .& 0xFF); u8 ((val >>> 16) .& 0xFF); u8 ((val >>> 24) .& 0xFF)] 4.
Definition pb_encode_fixed64 (val : Z) : st ostream unit :=
  pb_write [u8 (val .& 0xFF); u8 ((val >>> 8) .& 0xFF); u8 ((val >>> 16) .& 0xFF); u8 ((val >>> 24) .& 0xFF);
            u8 ((val >>> 32) .& 0xFF); u8 ((val >>> 40) .& 0xFF); u8 ((val >>> 48) .& 0xFF); u8 ((val >>> 56) .& 0xFF)] 8.
Definition pb_encode_tag (w : wire_type) (field_number : Z) : st ostream unit :=
  pb_encode_varint ((field_number <<64 3) .| wire_number w).
Definition pb_encode_string (buffer : bytes) (size : Z) : st ostream unit :=
  _ ← pb_encode_varint size; pb_write buffer size.

(** [pb_encode_submessage] behind the length: the second pass, over a substream that ends where the
    first pass ended.  [encode] is [pb_encode] with the description and the contents of the message. *)
Definition write_nested (encode : st ostream unit) (size : Z) : st ostream unit :=
  s ← st_get;
  if negb (o_callback s) then pb_write [] size
  else if max_size s <? u64 (bytes_written s + size) then out_error "stream full"
  else
    let '(status, substream) := encode (Ostream (o_callback s) (o_state s) size 0 None) in
    _ ← set_bytes_written (u64 (bytes_written s + bytes_written substream));
    _ ← set_state (o_state substream);
    _ ← set_errmsg (o_errmsg substream);
    if negb (bytes_written substream =? size) then out_error "submsg size changed"
    else match status with Some _ => mret tt | None => st_fail end.
Definition pb_encode_submessage (encode : st ostream unit) : st ostream unit :=
  s ← st_get;
  match encode (PB_OSTREAM_SIZING (o_state s)) with
  | (None, substream) => _ ← set_errmsg (o_errmsg substream); st_fail
  | (Some _, substream) =>
      let size := bytes_written substream in
      _ ← pb_encode_varint size;
      write_nested encode size
  end.
Definition pb_encode_delimited := pb_encode_submessage.
Definition pb_encode_nullterminated (encode : st ostream unit) : st ostream unit := _ ← encode; pb_write [0] 1.
(** The stream it counts on is its own. *)
Definition pb_get_encoded_size (null : X) (encode : st ostream unit) : option Z :=
  match encode (PB_OSTREAM_SIZING null) with (Some _, stream) => Some (bytes_written stream) | (None, _) => None end.
End Output.

(** ** Scalar fields *)

Inductive ltype := PB_LTYPE_BOOL | PB_LTYPE_VARINT | PB_LTYPE_UVARINT | PB_LTYPE_SVARINT | PB_LTYPE_FIXED32 | PB_LTYPE_FIXED64.
Definition int_size (size : Z) : bool := (size =? 1) || (size =? 2) || (size =? 4) || (size =? 8).

Section Scalars.
Context {X : Type} `{!Sink X} {Y : Type} `{!Source Y}.

Definition pb_enc_bool (src : bytes) : st (pb_ostream X) unit := pb_encode_varint (if hd 0 src =? 0 then 0 else 1).
Definition pb_enc_varint (data_size : Z) (src : bytes) : st (pb_ostream X) unit :=
  if int_size data_size then pb_encode_varint (u64 (swrap (8 * data_size) (le_val (take (Z.to_nat data_size) src))))
  else out_error "invalid data_size".
Definition pb_enc_uvarint (data_size : Z) (src : bytes) : st (pb_ostream X) unit :=
  if int_size data_size then pb_encode_varint (le_val (take (Z.to_nat data_size) src))
  else out_error "invalid data_size".
Definition pb_enc_svarint (data_size : Z) (src : bytes) : st (pb_ostream X) unit :=
  if int_size data_size then pb_encode_svarint (swrap (8 * data_size) (le_val (take (Z.to_nat data_size) src)))
  else out_error "invalid data_size".
Definition pb_enc_fixed32 (src : bytes) : st (pb_ostream X) unit := pb_encode_fixed32 (le_val (take 4 src)).
Definition pb_enc_fixed64 (src : bytes) : st (pb_ostream X) unit := pb_encode_fixed64 (le_val (take 8 src)).

(** The decoders return the bytes of the object they store; when they fail, the object may have been
    overwritten all the same. *)
Definition pb_dec_bool : st (pb_istream Y) bytes := value ← pb_decode_varint32; mret [if value =? 0 then 0 else 1].
Definition object_bytes (data_size value : Z) : bytes := le_bytes (Z.to_nat data_size) value.
Definition pb_dec_varint (data_size : Z) : st (pb_istream Y) bytes :=
  value ← pb_decode_varint;
  let svalue := if data_size =? 8 then s64 value else s32 value in
  if int_size data_size then
    let clamped := swrap (8 * data_size) svalue in
    if clamped =? svalue then mret (object_bytes data_size svalue) else in_error "integer too large"
  else in_error "invalid data_size".
Definition pb_dec_uvarint (data_size : Z) : st (pb_istream Y) bytes :=
  value ← pb_decode_varint;
  if int_size data_size then
    let clamped := wrap (8 * data_size) value in
    if clamped =? value then mret (object_bytes data_size value) else in_error "integer too large"
  else in_error "invalid data_size".
Definition pb_dec_svarint (data_size : Z) : st (pb_istream Y) bytes :=
  value ← pb_decode_svarint;
  if int_size data_size then
    let clamped := swrap (8 * data_size) value in
    if clamped =? value then mret (object_bytes data_size value) else in_error "integer too large"
  else in_error "invalid data_size".
Definition pb_dec_fixed32 : st (pb_istream Y) bytes := v ← pb_decode_fixed32; mret (object_bytes 4 v).
Definition pb_dec_fixed64 : st (pb_istream Y) bytes := v ← pb_decode_fixed64; mret (object_bytes 8 v).

(** The tables [PB_ENCODERS] and [PB_DECODERS] at the scalar types. *)
Definition PB_ENCODERS (t : ltype) (data_size : Z) (src : bytes) : st (pb_ostream X) unit :=
  match t with
  | PB_LTYPE_BOOL => pb_enc_bool src
  | PB_LTYPE_VARINT => pb_enc_varint data_size src
  | PB_LTYPE_UVARINT => pb_enc_uvarint data_size src
  | PB_LTYPE_SVARINT => pb_enc_svarint data_size src
  | PB_LTYPE_FIXED32 => pb_enc_fixed32 src
  | PB_LTYPE_FIXED64 => pb_enc_fixed64 src
  end.
Definition PB_DECODERS (t : ltype) (data_size : Z) : st (pb_istream Y) bytes :=
  match t with
  | PB_LTYPE_BOOL => pb_dec_bool
  | PB_LTYPE_VARINT => pb_dec_varint data_size
  | PB_LTYPE_UVARINT => pb_dec_uvarint data_size
  | PB_LTYPE_SVARINT => pb_dec_svarint data_size
  | PB_LTYPE_FIXED32 => pb_dec_fixed32
  | PB_LTYPE_FIXED64 => pb_dec_fixed64
  end.
(** The wire type [pb_encode_tag_for_field] gives a scalar. *)
Definition scalar_wire_type (t : ltype) : wire_type :=
  match t with
  | PB_LTYPE_BOOL | PB_LTYPE_VARINT | PB_LTYPE_UVARINT | PB_LTYPE_SVARINT => PB_WT_VARINT
  | PB_LTYPE_FIXED32 => PB_WT_32BIT
  | PB_LTYPE_FIXED64 => PB_WT_64BIT
  end.
Definition pb_encode_tag_for_field (t : ltype) (tag : Z) : st (pb_ostream X) unit := pb_encode_tag (scalar_wire_type t) tag.
End Scalars.

(** ** Packed arrays of scalars *)

Section Arrays.
Context {X : Type} `{!Sink X} {Y : Type} `{!Source Y}.

Fixpoint encode_items (t : ltype) (data_size : Z) (count : nat) (p : bytes) : st (pb_ostream X) unit :=
  match count with
  | O => mret tt
  | S count => _ ← PB_ENCODERS t data_size p; encode_items t data_size count (drop (Z.to_nat data_size) p)
  end.
(** The size of the items on the wire; items that vary in length are written to a stream that counts. *)
Definition packed_size (t : ltype) (data_size count : Z) (p : bytes) (null : X) : option Z :=
  match t with
  | PB_LTYPE_FIXED32 => Some (u64 (4 * count))
  | PB_LTYPE_FIXED64 => Some (u64 (8 * count))
  | _ => pb_get_encoded_size null (encode_items t data_size (Z.to_nat count) p)
  end.
(** [encode_array] at a packable type, of a field object_bytes in the message itself. *)
Definition encode_array (t : ltype) (tag data_size array_size : Z) (pData : bytes) (count : Z) : st (pb_ostream X) unit :=
  if count =? 0 then mret tt
  else if array_size <? count then out_error "array max size exceeded"
  else
    _ ← pb_encode_tag PB_WT_STRING tag;
    s ← st_get;
    match packed_size t data_size count pData (o_state s) with
    | None => st_fail
    | Some size =>
        _ ← pb_encode_varint size;
        s ← st_get;
        if negb (o_callback s) then pb_write [] size else encode_items t data_size (Z.to_nat count) pData
    end.

(** Reads items into the array until the substream or the array ends.  The results are the status,
    the substream, the array and the new count. *)
Fixpoint packed_loop (fuel : nat) (t : ltype) (data_size array_size : Z) (substream : pb_istream Y) (pData : bytes) (size : Z)
    : bool * pb_istream Y * bytes * Z :=
  match fuel with
  | O => (false, substream, pData, size)
  | S fuel =>
      if (0 <? bytes_left substream) && (size <? array_size) then
        match PB_DECODERS t data_size substream with
        | (None, substream) => (false, substream, pData, size)
        | (Some item, substream) =>
            let at_ := Z.to_nat (data_size * size) in
            packed_loop fuel t data_size array_size substream (take at_ pData ++ item ++ drop (at_ + length item) pData) (u32 (size + 1))
        end
      else (true, substream, pData, size)
  end.
(** The packed branch of [decode_static_field]: the array and the count. *)
Definition decode_packed (t : ltype) (data_size array_size : Z) (pData : bytes) (size : Z) : st (pb_istream Y) (bytes * Z) :=
  substream ← pb_make_string_substream;
  let '(status, substream, pData, size) := packed_loop (S (Z.to_nat (array_size - size))) t data_size array_size substream pData size in
  if negb (bytes_left substream =? 0) then in_error "array overflow"
  else
    _ ← pb_close_string_substream substream;
    if status : bool then mret (pData, size) else st_fail.
End Arrays.

(** ** Examples *)

Example encode_300 : pb_encode_varint 300 (pb_ostream_from_buffer [0; 0; 0] 3) = (Some tt, Ostream true ([0xac; 2; 0], 2) 3 2 None).
Proof. reflexivity. Qed.
Example decode_300 : pb_decode_varint (pb_istream_from_buffer [0xac; 2; 7] 3) = (Some 300, Istream [7] 1 None).
Proof. reflexivity. Qed.
Example encode_minus_two : pb_encode_svarint (-2) (pb_ostream_from_buffer [9] 1) = (Some tt, Ostream true ([3], 1) 1 1 None).
Proof. reflexivity. Qed.
