(* ===== verification/PbWire.v ===== *)
(** * The wire format of protocol buffers, and that nanopb writes and reads it

    A specification of the format ([varint], [wire], [message]), and the theorems that the encoders
    of [PbStream] write exactly this to any stream and the decoders read it back from any stream. *)
From stdpp Require Import strings.
From S2P Require Export PbStream.

(** ** The format *)

(** Base-128 digits, least significant first; all but the last byte carry the top bit. *)
Fixpoint digits (fuel : nat) (v : Z) : list Z :=
  match fuel with
  | O => []
  | S fuel => v mod 128 :: (if v / 128 =? 0 then [] else digits fuel (v / 128))
  end.
Fixpoint varint (ds : list Z) : bytes :=
  match ds with [] => [] | [d] => [d] | d :: ds => d + 128 :: varint ds end.
Fixpoint base128 (ds : list Z) : Z := match ds with [] => 0 | d :: ds => d + 128 * base128 ds end.
Definition digit (d : Z) : Prop := 0 ≤ d < 128.
(** The shortest encoding of a 64-bit number. *)
Definition varint_of (v : Z) : bytes := varint (digits 10 v).

Definition zigzag (v : Z) : Z := if v <? 0 then - 2 * v - 1 else 2 * v.

Lemma varint_cons d ds : ds ≠ [] → varint (d :: ds) = d + 128 :: varint ds.
Proof. by destruct ds. Qed.
Lemma digits_nonempty n v : digits (S n) v ≠ [].
Proof. done. Qed.
Lemma digits_digit n v : Forall digit (digits n v).
Proof.
  revert v. induction n as [|n IH]; intros v; constructor; [unfold digit; lia|].
  destruct (v / 128 =? 0); [constructor|apply IH].
Qed.
Lemma base128_digits n v : 0 ≤ v < 128 ^ Z.of_nat n → base128 (digits n v) = v.
Proof.
  revert v. induction n as [|n IH]; intros v Hv; [cbn in *; lia|]. cbn [digits base128].
  rewrite Nat2Z.inj_succ, Z.pow_succ_r in Hv by lia.
  destruct (Z.eqb_spec (v / 128) 0); cbn [base128]; [lia|]. rewrite IH; lia.
Qed.
Lemma base128_nonneg ds : Forall digit ds → 0 ≤ base128 ds.
Proof. induction 1 as [|d ds Hd _ IH]; cbn [base128]; unfold digit in *; lia. Qed.
Lemma base128_bound ds : Forall digit ds → base128 ds < 128 ^ zlen ds.
Proof.
  induction 1 as [|d ds Hd _ IH]; cbn [base128]; [done|]. rewrite zlen_cons, Z.pow_add_r by (pose proof (zlen_nonneg ds); lia).
  unfold digit in *. lia.
Qed.
Lemma length_digits n v : (length (digits n v) ≤ n)%nat.
Proof. revert v. induction n as [|n IH]; intros v; cbn [digits length]; [done|]. destruct (_ =? 0); cbn; [lia|]. specialize (IH (v / 128)). lia. Qed.
Lemma varint_bytes_ok ds : Forall digit ds → bytes_ok (varint ds).
Proof.
  induction 1 as [|d ds Hd Hds IH]; [constructor|]. unfold digit in *. destruct ds as [|e ds]; [bytes_ok_tac|].
  rewrite varint_cons by done. apply bytes_ok_cons. split; [word_lia|done].
Qed.
Lemma length_varint ds : length (varint ds) = length ds.
Proof. induction ds as [|d [|e ds] IH]; [done..|]. rewrite varint_cons by done. cbn [length]. by rewrite IH. Qed.
(** Encodings are self-delimiting. *)
Lemma varint_prefix_free ds es bs cs : Forall digit ds → Forall digit es → ds ≠ [] → es ≠ [] →
  varint ds ++ bs = varint es ++ cs → ds = es ∧ bs = cs.
Proof.
  revert es. induction ds as [|d ds IH]; intros es Hds Hes Hd He H; [done|]. destruct es as [|e es]; [done|].
  apply Forall_cons in Hds as [Hd1 Hds], Hes as [He1 Hes]. unfold digit in Hd1, He1.
  destruct ds as [|d' ds], es as [|e' es]; rewrite ?varint_cons in H by done; cbn [varint app] in H; injection H as H0 H; [by subst|lia|lia|].
  destruct (IH (e' :: es) Hds Hes) as [? ->]; [done..|exact H|]. split; [f_equal; [lia|done]|done].
Qed.

(** ** Input streams that deliver *)

(** [pending] is what the callback has still to give. *)
Class SourceOk (X : Type) `{!Source X} := {
  pending : X → bytes;
  fetch_ok x n : 0 ≤ n ≤ zlen (pending x) →
    ∃ x', fetch x n = (Some (take (Z.to_nat n) (pending x)), x') ∧ pending x' = drop (Z.to_nat n) (pending x) }.
#[export] Instance buf_source_ok : SourceOk bytes.
Proof. exists (λ x, x). intros x n _. by eexists. Defined.

Section Input.
Context {X : Type} `{!Source X, !SourceOk X}.
Abbreviation istream := (pb_istream X).

(** The stream has [bs] to give; [rest] is behind its end. *)
Record in_ok (s : istream) (bs rest : bytes) : Prop := {
  in_pending : pending (state s) = bs ++ rest; in_left : bytes_left s = zlen bs; in_bytes : bytes_ok bs }.
(** [m] takes exactly [e] from any stream that starts with it, and gives [v]. *)
Definition consumes {A} (m : st istream A) (e : bytes) (v : A) : Prop := ∀ s bs rest, in_ok s (e ++ bs) rest →
  ∃ s', m s = (Some v, s') ∧ in_ok s' bs rest ∧ errmsg s' = errmsg s.

Lemma consumes_bind {A B} (m : st istream A) (f : A → st istream B) e1 e2 v w :
  consumes m e1 v → consumes (f v) e2 w → consumes (m ≫= f) (e1 ++ e2) w.
Proof.
  intros Hm Hf s bs rest Hs. rewrite <- app_assoc in Hs. destruct (Hm s _ _ Hs) as (s1 & E1 & Hs1 & He1).
  destruct (Hf s1 _ _ Hs1) as (s2 & E2 & Hs2 & He2). exists s2. rewrite (bind_some _ _ _ _ _ E1). split_and!; [done|done|congruence].
Qed.
Lemma consumes_ret {A} (v : A) : consumes (mret v) [] v.
Proof. intros s bs rest Hs. by exists s. Qed.
Lemma consumes_map {A B} (m : st istream A) (f : A → B) e v : consumes m e v → consumes (x ← m; mret (f x)) e (f v).
Proof. intros Hm. rewrite <- (app_nil_r e). eapply consumes_bind; [exact Hm|apply consumes_ret]. Qed.

Lemma run_in_callback s e bs rest : in_ok s (e ++ bs) rest →
  ∃ s', in_callback (zlen e) s = (Some e, s') ∧ pending (state s') = bs ++ rest ∧ bytes_left s' = bytes_left s ∧ errmsg s' = errmsg s.
Proof.
  intros [Hp Hl Hb]. destruct (fetch_ok (state s) (zlen e)) as (x & E & Hx).
  { rewrite Hp, !zlen_app. pose proof (zlen_nonneg e). pose proof (zlen_nonneg bs). pose proof (zlen_nonneg rest). lia. }
  rewrite Hp, <- app_assoc in E, Hx. rewrite take_app_zlen in E. rewrite drop_app_zlen in Hx.
  unfold in_callback. rewrite E. by eexists.
Qed.
Lemma consumes_read_bytes e : consumes (read_bytes (zlen e)) e e.
Proof.
  intros s bs rest Hs. pose proof Hs as [Hp Hl Hb]. destruct (run_in_callback s e bs rest Hs) as (s1 & E & Hp1 & Hl1 & He1).
  unfold read_bytes. rewrite (bind_some _ _ _ s s) by done. rewrite Hl, zlen_app in *. pose proof (zlen_nonneg bs).
  destruct (Z.ltb_spec (zlen e + zlen bs) (zlen e)); [lia|]. rewrite (bind_some _ _ _ e s1 E).
  eexists. split; [reflexivity|]. split; [|done]. split; cbn [state bytes_left]; [done|lia|]. by apply bytes_ok_app in Hb as [_ ?].
Qed.
Lemma consumes_readbyte b : consumes pb_readbyte [b] b.
Proof.
  intros s bs rest Hs. pose proof Hs as [Hp Hl Hb]. destruct (run_in_callback s [b] bs rest Hs) as (s1 & E & Hp1 & Hl1 & He1).
  change (zlen [b]) with 1 in E. unfold pb_readbyte. rewrite (bind_some _ _ _ s s) by done. rewrite Hl, zlen_app in *. change (zlen [b]) with 1 in *.
  pose proof (zlen_nonneg bs). destruct (Z.eqb_spec (1 + zlen bs) 0); [lia|]. rewrite (bind_some _ _ _ [b] s1 E).
  eexists. split; [reflexivity|]. split; [|done]. split; cbn [state bytes_left]; [done|lia|]. by apply bytes_ok_app in Hb as [_ ?].
Qed.
(** What is skipped is dropped. *)
Definition skips (m : st istream bytes) (e : bytes) : Prop := ∃ r, consumes m e r.
Lemma skip_loop_skips fuel e : e ≠ [] → zlen e ≤ 16 * Z.of_nat fuel → skips (skip_loop fuel (zlen e)) e.
Proof.
  revert e. induction fuel as [|fuel IH]; intros e He Hf; [pose proof (zlen_nonneg e); destruct e; [done|rewrite zlen_cons in *; pose proof (zlen_nonneg e); lia]|].
  cbn [skip_loop]. destruct (Z.ltb_spec 16 (zlen e)) as [Hlt|Hle].
  - assert (zlen (take 16 e) = 16) as H16 by (unfold zlen in *; rewrite length_take; lia).
    assert (zlen (drop 16 e) = zlen e - 16) as Hd by (unfold zlen in *; rewrite length_drop; lia).
    destruct (IH (drop 16 e)) as [r Hr]; [intros E; rewrite E, zlen_nil in Hd; lia|lia|]. exists r.
    rewrite <- Hd. enough (consumes (_ ← read_bytes 16; skip_loop fuel (zlen (drop 16 e))) (take 16 e ++ drop 16 e) r) as H by (by rewrite take_drop in H).
    apply consumes_bind with (v := take 16 e); [|exact Hr]. rewrite <- H16 at 1. apply consumes_read_bytes.
  - exists e. destruct (Z.eqb_spec (zlen e) 0) as [E|_]; [destruct e; [done|rewrite zlen_cons in E; pose proof (zlen_nonneg e); lia]|].
    apply consumes_read_bytes.
Qed.
Lemma consumes_read e : consumes (pb_read true (zlen e)) e e.
Proof.
  unfold pb_read. destruct (Z.eqb_spec (zlen e) 0) as [E|_]; [|apply consumes_read_bytes].
  destruct e; [apply consumes_ret|rewrite zlen_cons in E; pose proof (zlen_nonneg e); lia].
Qed.
Lemma read_skips e : skips (pb_read false (zlen e)) e.
Proof.
  unfold pb_read. destruct (Z.eqb_spec (zlen e) 0) as [E|Hne].
  - destruct e; [exists []; apply consumes_ret|rewrite zlen_cons in E; pose proof (zlen_nonneg e); lia].
  - cbn [negb andb]. destruct (negb buffered); [|exists e; apply consumes_read_bytes].
    apply skip_loop_skips; [by intros ->|]. pose proof (zlen_nonneg e). lia.
Qed.

(** [m] fails, with a message, on any stream that has [bs] to give. *)
Definition fails {A} (m : st istream A) (bs : bytes) : Prop := ∀ s rest, in_ok s bs rest → ∃ s', m s = (None, s') ∧ errmsg s' ≠ None.
Lemma fails_first {A B} (m : st istream A) (f : A → st istream B) bs : fails m bs → fails (m ≫= f) bs.
Proof. intros Hm s rest Hs. destruct (Hm s rest Hs) as (s' & E & He). exists s'. by rewrite (bind_none _ _ _ _ E). Qed.
Lemma fails_then {A B} (m : st istream A) (f : A → st istream B) e v bs : consumes m e v → fails (f v) bs → fails (m ≫= f) (e ++ bs).
Proof.
  intros Hm Hf s rest Hs. destruct (Hm s bs rest Hs) as (s1 & E & Hs1 & _). rewrite (bind_some _ _ _ _ _ E). by apply (Hf s1 rest).
Qed.
Lemma fails_error {A} msg bs : fails (in_error (A := A) msg) bs.
Proof. intros s rest Hs. by eexists. Qed.
Lemma fails_read_bytes n bs : zlen bs < n → fails (read_bytes n) bs.
Proof.
  intros Hn s rest [_ Hl _]. unfold read_bytes. rewrite (bind_some _ _ _ s s) by done. rewrite Hl.
  rewrite (proj2 (Z.ltb_lt _ _) Hn). by eexists.
Qed.
Lemma fails_readbyte : fails pb_readbyte [].
Proof. intros s rest [_ Hl _]. unfold pb_readbyte. rewrite (bind_some _ _ _ s s) by done. rewrite Hl. by eexists. Qed.

(** ** Variable-length integers *)

Lemma more_digit d : digit d → (d + 128) .& 0x7F = d ∧ ((d + 128) .& 0x80 =? 0) = false.
Proof.
  intros Hd. unfold digit in Hd. assert (is_u8 (d + 128)) as Hb by word_lia. replace d with (d + 128 - 128) at 2 by lia. revert Hb.
  set (b := d + 128). assert (128 ≤ b) as H128 by lia. revert H128. clearbody b. clear d Hd. intros H Hb. revert H.
  byte_crush b Hb.
Qed.
Lemma last_digit d : digit d → d .& 0x7F = d ∧ (d .& 0x80 =? 0) = true.
Proof.
  intros Hd. unfold digit in Hd. assert (is_u8 d) as Hb by word_lia. assert (d < 128) as H by lia. clear Hd. revert H. byte_crush d Hb.
Qed.
Lemma lor_digit w r d p : 0 ≤ p < w → 0 ≤ r < 2 ^ p → 0 ≤ d → r .| wrap w (d ≪ p) = wrap w (r + d * 2 ^ p).
Proof.
  intros Hp Hr Hd. unfold wrap. pose proof (pow2_pos p ltac:(lia)). pose proof (pow2_pos (w - p) ltac:(lia)).
  assert (2 ^ w = 2 ^ (w - p) * 2 ^ p) as Hw by (rewrite <- Z.pow_add_r by lia; f_equal; lia).
  rewrite Z.shiftl_mul_pow2 by lia. rewrite Hw, Z.mul_mod_distr_r by lia.
  rewrite Z.lor_comm, <- Z.shiftl_mul_pow2, lor_shiftl_add by (done || lia).
  pose proof (Z.mod_pos_bound d (2 ^ (w - p)) ltac:(lia)).
  apply Z.mod_unique with (d / 2 ^ (w - p)); [left; nia|]. pose proof (Z.div_mod d (2 ^ (w - p))). nia.
Qed.
Lemma consumes_varint_loop ds : Forall digit ds → ds ≠ [] → ∀ k fuel r, 0 ≤ k → k + zlen ds ≤ 10 → 0 ≤ r < 2 ^ (7 * k) →
  (length ds ≤ fuel)%nat → consumes (varint_loop fuel (7 * k) r) (varint ds) (u64 (r + base128 ds * 2 ^ (7 * k))).
Proof.
  induction 1 as [|d ds Hd Hds IH]; [done|]. intros _ k fuel r Hk Hlen Hr Hfuel. rewrite zlen_cons in Hlen. pose proof (zlen_nonneg ds).
  destruct fuel as [|fuel]; [cbn in Hfuel; lia|]. cbn [varint_loop]. rewrite (proj2 (Z.leb_gt 64 (7 * k))) by lia.
  assert (∀ b, b .& 0x7F = d → r .| ((b .& 0x7F) <<64 (7 * k)) = u64 (r + d * 2 ^ (7 * k))) as Hor
    by (intros b ->; apply lor_digit; [lia|lia|unfold digit in Hd; lia]).
  assert (u8 (7 * k + 7) = 7 * (k + 1)) as Hpos by (unfold wrap; change (2 ^ 8) with 256; rewrite Z.mod_small; lia).
  destruct ds as [|d' ds].
  - change (varint [d]) with ([d] ++ []). destruct (last_digit d Hd) as [H7 H8]. eapply consumes_bind; [apply consumes_readbyte|].
    cbv zeta. rewrite H8, (Hor d H7). cbn [base128]. rewrite Z.mul_0_r, Z.add_0_r. apply consumes_ret.
  - rewrite varint_cons by done. destruct (more_digit d Hd) as [H7 H8]. change (?b :: ?l) with ([b] ++ l) at 1.
    eapply consumes_bind; [apply consumes_readbyte|]. cbv zeta. rewrite H8, (Hor _ H7), Hpos.
    assert (2 ^ (7 * (k + 1)) = 128 * 2 ^ (7 * k)) as Hpow by (rewrite Z.mul_add_distr_l, Z.pow_add_r by lia; lia).
    rewrite zlen_cons in Hlen. pose proof (zlen_nonneg ds). unfold digit in Hd.
    assert (r + d * 2 ^ (7 * k) < 2 ^ (7 * (k + 1))) as Hlt by nia.
    assert (2 ^ (7 * (k + 1)) ≤ 2 ^ 64) as H64 by (apply Z.pow_le_mono_r; lia).
    rewrite (wrap_small 64 (r + d * 2 ^ (7 * k))) by (split; [nia|lia]).
    specialize (IH ltac:(done) (k + 1) fuel (r + d * 2 ^ (7 * k)) ltac:(lia) ltac:(rewrite zlen_cons; lia) ltac:(nia) ltac:(cbn in *; lia)).
    replace (r + base128 (d :: d' :: ds) * 2 ^ (7 * k)) with (r + d * 2 ^ (7 * k) + base128 (d' :: ds) * 2 ^ (7 * (k + 1)))
      by (rewrite Hpow; change (base128 (d :: d' :: ds)) with (d + 128 * base128 (d' :: ds)); ring). exact IH.
Qed.
Lemma consumes_varint ds : Forall digit ds → ds ≠ [] → zlen ds ≤ 10 → consumes pb_decode_varint (varint ds) (u64 (base128 ds)).
Proof.
  intros Hds Hne Hlen. pose proof (consumes_varint_loop ds Hds Hne 0 11 0) as H. cbn [Z.mul Z.pow Z.pow_pos] in H.
  rewrite Z.add_0_l, Z.mul_1_r in H. apply H; unfold zlen in *; lia.
Qed.
(** The first byte ends the number or goes on with a digit. *)
Lemma byte_digit b : is_u8 b → ((b .& 0x80 =? 0) = true ∧ digit b) ∨ ((b .& 0x80 =? 0) = false ∧ b = (b - 128) + 128 ∧ digit (b - 128)).
Proof.
  intros Hb. unfold digit. destruct (Z.lt_ge_cases b 128); [left|right]; (split; [|word_lia]).
  - apply last_digit. unfold digit. word_lia.
  - replace b with (b - 128 + 128) by lia. apply more_digit. unfold digit. word_lia.
Qed.
Definition starts_varint (n : Z) (bs : bytes) : Prop := ∃ ds cs, bs = varint ds ++ cs ∧ Forall digit ds ∧ ds ≠ [] ∧ zlen ds ≤ n.
Lemma starts_varint_last n b bs : 1 ≤ n → digit b → starts_varint n (b :: bs).
Proof. intros Hn Hb. exists [b], bs. split_and!; [done|by constructor|done|done]. Qed.
Lemma starts_varint_more n b bs : digit b → starts_varint n bs → starts_varint (n + 1) (b + 128 :: bs).
Proof.
  intros Hb (ds & cs & -> & Hds & Hne & Hn). exists (b :: ds), cs. rewrite varint_cons by done.
  split_and!; [done|by constructor|done|rewrite zlen_cons; lia].
Qed.
Lemma fails_varint_loop fuel : ∀ k bs r, Z.of_nat fuel = 11 - k → 0 ≤ k ≤ 10 → bytes_ok bs →
  ¬ starts_varint (10 - k) bs → fails (varint_loop fuel (7 * k) r) bs.
Proof.
  induction fuel as [|fuel IH]; intros k bs r Hf Hk Hb Hno; cbn [varint_loop]; [lia|].
  destruct (Z.leb_spec 64 (7 * k)); [apply fails_error|].
  destruct bs as [|b bs]; [apply fails_first, fails_readbyte|]. apply bytes_ok_cons in Hb as [Hb Hbs].
  change (b :: bs) with ([b] ++ bs). eapply fails_then; [apply consumes_readbyte|]. cbv zeta.
  destruct (byte_digit b Hb) as [[_ Hd]|(-> & Hb' & Hd)]; [destruct Hno; apply starts_varint_last; [lia|done]|].
  assert (u8 (7 * k + 7) = 7 * (k + 1)) as -> by (unfold wrap; change (2 ^ 8) with 256; rewrite Z.mod_small; lia).
  apply IH; [lia|lia|done|]. intros Hs. apply Hno. rewrite Hb'. replace (10 - k) with (10 - (k + 1) + 1) by lia. by apply starts_varint_more.
Qed.
Lemma fails_varint bs : bytes_ok bs → ¬ starts_varint 10 bs → fails pb_decode_varint bs.
Proof. intros Hb Hno. by apply (fails_varint_loop 11 0). Qed.
Lemma zlen_digits n v : zlen (digits n v) ≤ Z.of_nat n.
Proof. pose proof (length_digits n v). unfold zlen. lia. Qed.
Lemma consumes_varint_of v : is_u64 v → consumes pb_decode_varint (varint_of v) v.
Proof.
  intros Hv. pose proof (consumes_varint (digits 10 v)) as H. rewrite base128_digits, wrap_small in H; [|done|word_lia].
  apply H; [apply digits_digit|done|apply (zlen_digits 10)].
Qed.


(** ** 32-bit variable-length integers *)

(** One byte of the loop below bit 32. *)
Lemma varint32_more fuel p r d e v : digit d → 0 ≤ p < 32 →
  consumes (varint32_loop fuel (p + 7) (r .| (d <<32 p))) e v →
  consumes (varint32_loop (S fuel) p r) (d + 128 :: e) v.
Proof.
  intros Hd Hp He. destruct (more_digit d Hd) as [H7 H8]. cbn [varint32_loop]. change (?b :: ?l) with ([b] ++ l) at 1.
  eapply consumes_bind; [apply consumes_readbyte|]. rewrite (proj2 (Z.leb_gt 32 p)) by lia. cbv zeta. rewrite H7, H8.
  assert (u8 (p + 7) = p + 7) as -> by (unfold wrap; change (2 ^ 8) with 256; rewrite Z.mod_small; lia). exact He.
Qed.
Lemma varint32_last fuel p r d : digit d → 0 ≤ p < 32 →
  consumes (varint32_loop (S fuel) p r) [d] (d, p + 7, r .| (d <<32 p)).
Proof.
  intros Hd Hp. destruct (last_digit d Hd) as [H7 H8]. cbn [varint32_loop]. change [d] with ([d] ++ []).
  eapply consumes_bind; [apply consumes_readbyte|]. rewrite (proj2 (Z.leb_gt 32 p)) by lia. cbv zeta. rewrite H7, H8.
  assert (u8 (p + 7) = p + 7) as -> by (unfold wrap; change (2 ^ 8) with 256; rewrite Z.mod_small; lia). apply consumes_ret.
Qed.
(** The whole number, from what the loop does behind its first byte. *)
Lemma consumes_varint32_more d e b p v : digit d → (∀ fuel, (length e ≤ fuel)%nat → consumes (varint32_loop fuel 7 d) e (b, p, v)) →
  (p =? 35) && negb (b .& 0x70 =? 0) = false → consumes pb_decode_varint32 (d + 128 :: e) v.
Proof.
  intros Hd He Hlast s bs rest Hs. destruct (more_digit d Hd) as [H7 H8]. destruct (consumes_readbyte (d + 128) s (e ++ bs) rest Hs) as (s1 & E1 & Hs1 & He1).
  unfold pb_decode_varint32, pb_decode_varint32_eof. rewrite E1, H8, H7.
  destruct (He (S (Z.to_nat (bytes_left s1))) ltac:(rewrite (in_left _ _ _ Hs1); unfold zlen; rewrite length_app; lia) s1 bs rest Hs1) as (s2 & E2 & Hs2 & He2).
  rewrite E2, Hlast. exists s2. split_and!; [done|done|congruence].
Qed.
Lemma consumes_varint32_last d : digit d → consumes pb_decode_varint32 [d] d.
Proof.
  intros Hd s bs rest Hs. destruct (last_digit d Hd) as [H7 H8]. destruct (consumes_readbyte d s bs rest Hs) as (s1 & E1 & Hs1 & He1).
  unfold pb_decode_varint32, pb_decode_varint32_eof. rewrite E1, H8. by exists s1.
Qed.

Lemma consumes_varint32_loop ds : Forall digit ds → ds ≠ [] → ∀ k fuel r, 0 ≤ k → k + zlen ds ≤ 5 → 0 ≤ r < 2 ^ (7 * k) →
  r + base128 ds * 2 ^ (7 * k) < 2 ^ 32 → (length ds ≤ fuel)%nat →
  consumes (varint32_loop fuel (7 * k) r) (varint ds) (List.last ds 0, 7 * (k + zlen ds), r + base128 ds * 2 ^ (7 * k)).
Proof.
  induction 1 as [|d ds Hd Hds IH]; [done|]. intros _ k fuel r Hk Hlen Hr Hv Hfuel. rewrite zlen_cons in Hlen. pose proof (zlen_nonneg ds).
  destruct fuel as [|fuel]; [cbn in Hfuel; lia|]. pose proof (pow2_pos (7 * k) ltac:(lia)) as Hpos.
  pose proof (base128_nonneg ds Hds) as Hn. cbn [base128] in Hv. unfold digit in Hd.
  assert (r .| (d <<32 (7 * k)) = r + d * 2 ^ (7 * k)) as Hor by (rewrite lor_digit by lia; apply wrap_small; split; nia).
  destruct ds as [|d' ds].
  - cbn [base128 varint List.last]. change (zlen [d]) with 1. rewrite Z.mul_0_r, Z.add_0_r, <- Hor. replace (7 * (k + 1)) with (7 * k + 7) by lia.
    apply varint32_last; [done|lia].
  - rewrite varint_cons by done. change (List.last (d :: d' :: ds) 0) with (List.last (d' :: ds) 0).
    assert (2 ^ (7 * (k + 1)) = 128 * 2 ^ (7 * k)) as Hpow by (rewrite Z.mul_add_distr_l, Z.pow_add_r by lia; lia).
    rewrite zlen_cons in Hlen. pose proof (zlen_nonneg ds). apply varint32_more; [done|lia|]. rewrite Hor.
    replace (7 * k + 7) with (7 * (k + 1)) by lia. rewrite (zlen_cons d), Z.add_assoc.
    replace (r + base128 (d :: d' :: ds) * 2 ^ (7 * k)) with (r + d * 2 ^ (7 * k) + base128 (d' :: ds) * 2 ^ (7 * (k + 1)))
      by (rewrite Hpow; change (base128 (d :: d' :: ds)) with (d + 128 * base128 (d' :: ds)); ring).
    apply IH; [done|lia|rewrite zlen_cons; lia|nia|nia|cbn in *; lia].
Qed.
Lemma base128_last ds : Forall digit ds → ds ≠ [] → List.last ds 0 * 128 ^ (zlen ds - 1) ≤ base128 ds.
Proof.
  induction 1 as [|d [|e ds] Hd Hds IH]; [done| |]; intros _; unfold digit in Hd; cbn [base128].
  - change (zlen [d]) with 1. cbn. lia.
  - specialize (IH ltac:(done)). change (List.last (d :: e :: ds) 0) with (List.last (e :: ds) 0).
    rewrite zlen_cons. replace (1 + zlen (e :: ds) - 1) with (zlen (e :: ds) - 1 + 1) by lia.
    rewrite Z.pow_add_r by (rewrite ?zlen_cons; pose proof (zlen_nonneg ds); lia). cbn [base128] in IH. lia.
Qed.
Lemma last_is_digit ds : Forall digit ds → ds ≠ [] → digit (List.last ds 0).
Proof. induction 1 as [|d [|e ds] Hd Hds IH]; [done|done|]. intros _. by apply IH. Qed.
(** A 32-bit number is read from its encoding, also a padded one of up to five bytes. *)
Lemma consumes_varint32 ds : Forall digit ds → ds ≠ [] → zlen ds ≤ 5 → base128 ds < 2 ^ 32 → consumes pb_decode_varint32 (varint ds) (base128 ds).
Proof.
  intros Hds Hne Hlen Hv. destruct ds as [|d ds]; [done|]. apply Forall_cons in Hds as [Hd Hds].
  destruct ds as [|e ds]; [replace (base128 [d]) with d by (cbn; lia); by apply consumes_varint32_last|].
  rewrite varint_cons by done. rewrite zlen_cons in Hlen. change (base128 (d :: e :: ds)) with (d + 128 * base128 (e :: ds)) in *. unfold digit in Hd.
  replace (d + 128 * base128 (e :: ds)) with (d + base128 (e :: ds) * 2 ^ (7 * 1)) by (change (2 ^ (7 * 1)) with 128; lia).
  eapply consumes_varint32_more; [done|intros fuel Hf; rewrite length_varint in Hf; change 7 with (7 * 1); apply (consumes_varint32_loop (e :: ds)); try done; change (2 ^ (7 * 1)) with 128; lia|].
  destruct (Z.eqb_spec (7 * (1 + zlen (e :: ds))) 35) as [Hp|]; [|done]. cbn [andb].
  pose proof (base128_last (e :: ds) Hds ltac:(done)) as Hlast. replace (zlen (e :: ds)) with 4 in Hlast by lia. change (128 ^ (4 - 1)) with 2097152 in Hlast.
  assert (digit (List.last (e :: ds) 0)) as [H0 _] by (by apply last_is_digit).
  change (2 ^ 32) with 4294967296 in Hv. assert (List.last (e :: ds) 0 < 16) as H16 by lia. clear - H0 H16. set (x := List.last (e :: ds) 0) in *. clearbody x.
  assert (is_u8 x) as Hx by word_lia. clear H0. revert H16. byte_crush x Hx.
Qed.


(** A negative number, whose encoding extends the sign to 64 bits. *)
Lemma varint32_sign_more fuel p r e v : 32 ≤ p < 63 → 2 ^ 31 ≤ r < 2 ^ 32 →
  consumes (varint32_loop fuel (p + 7) r) e v → consumes (varint32_loop (S fuel) p r) (255 :: e) v.
Proof.
  intros Hp Hr He. cbn [varint32_loop]. change (255 :: e) with ([255] ++ e). eapply consumes_bind; [apply consumes_readbyte|].
  rewrite (proj2 (Z.leb_le 32 p)), (proj2 (Z.ltb_lt p 63)) by lia. cbv zeta. rewrite shiftr_div by done.
  rewrite (proj2 (Z.eqb_neq (r / 2 ^ 31) 0)) by (change (2 ^ 31) with 2147483648 in *; change (2 ^ 32) with 4294967296 in *; lia).
  cbn [orb]. change (negb (255 .& 0x7F =? 0) && negb (255 =? 255)) with false. cbv iota.
  assert (u8 (p + 7) = p + 7) as -> by (unfold wrap; change (2 ^ 8) with 256; rewrite Z.mod_small; lia). exact He.
Qed.
Lemma varint32_sign_last fuel r : 2 ^ 31 ≤ r < 2 ^ 32 → consumes (varint32_loop (S fuel) 63 r) [1] (1, 70, r).
Proof.
  intros Hr. cbn [varint32_loop]. change [1] with ([1] ++ []). eapply consumes_bind; [apply consumes_readbyte|].
  change (32 <=? 63) with true. change (63 <? 63) with false. cbv zeta iota. rewrite shiftr_div by done.
  rewrite (proj2 (Z.eqb_neq (r / 2 ^ 31) 0)) by (change (2 ^ 31) with 2147483648 in *; change (2 ^ 32) with 4294967296 in *; lia).
  change (negb (1 .& 0x7F =? 0) && (false || negb (1 =? 1))) with false. cbv iota. apply consumes_ret.
Qed.
Lemma digits_step n d u : digit d → 0 < u → digits (S n) (d + 128 * u) = d :: digits n u.
Proof.
  intros Hd Hu. unfold digit in Hd. cbn [digits]. assert ((d + 128 * u) mod 128 = d) as -> by lia. assert ((d + 128 * u) / 128 = u) as -> by lia.
  by rewrite (proj2 (Z.eqb_neq u 0)) by lia.
Qed.
Lemma or_digit p r d : 0 ≤ p < 32 → 0 ≤ r < 2 ^ p → 0 ≤ d → r + d * 2 ^ p < 2 ^ 32 → r .| (d <<32 p) = r + d * 2 ^ p.
Proof. intros Hp Hr Hd Hlt. rewrite lor_digit by lia. apply wrap_small. split; [pose proof (pow2_pos p); nia|done]. Qed.
Lemma consumes_varint32_negative w : 2 ^ 31 ≤ w < 2 ^ 32 → consumes pb_decode_varint32 (varint_of (2 ^ 64 - 2 ^ 32 + w)) w.
Proof.
  intros Hw. pose (d0 := w mod 128). pose (d1 := w / 128 mod 128). pose (d2 := w / 16384 mod 128). pose (d3 := w / 2097152 mod 128). pose (x := w / 268435456).
  change (2 ^ 31) with 2147483648 in Hw. change (2 ^ 32) with 4294967296 in *.
  assert (8 ≤ x < 16) as Hx by (subst x; lia).
  assert (digit d0 ∧ digit d1 ∧ digit d2 ∧ digit d3 ∧ digit (112 + x)) as (H0 & H1 & H2 & H3 & H4)
    by (subst d0 d1 d2 d3; unfold digit; split_and!; lia).
  assert (w = d0 + 128 * (d1 + 128 * (d2 + 128 * (d3 + 128 * x)))) as E by (subst d0 d1 d2 d3 x; lia).
  assert (varint_of (2 ^ 64 - 4294967296 + w) = d0 + 128 :: d1 + 128 :: d2 + 128 :: d3 + 128 :: (112 + x) + 128 :: [255; 255; 255; 255; 1]) as ->.
  { unfold varint_of. replace (2 ^ 64 - 4294967296 + w) with (d0 + 128 * (d1 + 128 * (d2 + 128 * (d3 + 128 * ((112 + x) + 128 * 536870911))))) by lia.
    rewrite !digits_step by (done || unfold digit in *; lia). reflexivity. }
  apply consumes_varint32_more with (b := 1) (p := 70); [done|intros fuel Hf; cbn [length] in Hf; do 9 (destruct fuel as [|fuel]; [lia|])|done].
  unfold digit in H0, H1, H2, H3, H4. do 4 (apply varint32_more; [unfold digit; lia|lia|]). change (7 + 7 + 7 + 7 + 7) with 35. change (7 + 7 + 7 + 7) with 28. change (7 + 7 + 7) with 21. change (7 + 7) with 14.
  pose proof or_digit as Hor. change (2 ^ 32) with 4294967296 in Hor.
  rewrite (Hor 7) by (change (2 ^ 7) with 128; lia). change (2 ^ 7) with 128.
  rewrite (Hor 14) by (change (2 ^ 14) with 16384; lia). change (2 ^ 14) with 16384.
  rewrite (Hor 21) by (change (2 ^ 21) with 2097152; lia). change (2 ^ 21) with 2097152.
  rewrite lor_digit by (change (2 ^ 28) with 268435456; lia). change (2 ^ 28) with 268435456. unfold wrap. change (2 ^ 32) with 4294967296.
  replace (d0 + d1 * 128 + d2 * 16384 + d3 * 2097152 + (112 + x) * 268435456) with (w + 7 * 4294967296) by lia.
  rewrite Z.mod_add, (Z.mod_small w) by lia.
  do 4 (apply varint32_sign_more; [lia|done|]). by apply varint32_sign_last.
Qed.


Lemma consumes_varint32_of v : is_u32 v → consumes pb_decode_varint32 (varint_of v) v.
Proof.
  intros Hv. assert (digits 10 v = digits 5 v) as E.
  { clear - Hv. assert (∀ k n v, 0 ≤ v < 128 ^ Z.of_nat n → (0 < n)%nat → digits (n + k) v = digits n v) as H; [|apply (H 5%nat 5%nat v); word_lia].
    clear. intros k n. induction n as [|n IH]; intros v Hv Hn; [lia|]. cbn [digits Nat.add]. rewrite Nat2Z.inj_succ, Z.pow_succ_r in Hv by lia.
    destruct (Z.eqb_spec (v / 128) 0); [done|]. f_equal. apply IH; [lia|]. destruct n; [cbn in Hv; lia|lia]. }
  pose proof (consumes_varint32 (digits 5 v)) as H. rewrite base128_digits in H by (word_bounds; change (128 ^ Z.of_nat 5) with 34359738368; lia).
  unfold varint_of. rewrite E. apply H; [apply digits_digit|done|apply (zlen_digits 5)|apply Hv].
Qed.

(** ** Fixed-width and signed numbers *)

Lemma consumes_svarint v : - 2 ^ 63 ≤ v < 2 ^ 63 → consumes pb_decode_svarint (varint_of (zigzag v)) v.
Proof.
  intros Hv. assert (is_u64 (zigzag v)) as Hz by (unfold zigzag; word_bounds; change (2 ^ 63) with 9223372036854775808 in Hv; destruct (Z.ltb_spec v 0); lia).
  unfold pb_decode_svarint. rewrite <- (app_nil_r (varint_of _)). eapply consumes_bind; [by apply consumes_varint_of|].
  rewrite land_1, shiftr_div by done. change (2 ^ 1) with 2. unfold swrap, wrap, zigzag, Z.lnot. change (2 ^ 64) with 18446744073709551616.
  change (2 ^ (64 - 1)) with 9223372036854775808. change (2 ^ 63) with 9223372036854775808 in Hv.
  match goal with |- consumes (mret ?a) [] _ => assert (a = v) as ->; [|apply consumes_ret] end.
  repeat match goal with |- context [?a <? ?b] => destruct (Z.ltb_spec a b) | |- context [?a =? ?b] => destruct (Z.eqb_spec a b) end; lia.
Qed.
Lemma le_or4 b0 b1 b2 b3 : bytes_ok [b0; b1; b2; b3] → b0 .| (b1 <<32 8) .| (b2 <<32 16) .| (b3 <<32 24) = le_val [b0; b1; b2; b3].
Proof.
  unfold bytes_ok. rewrite !Forall_cons. word_bounds. intros (H0 & H1 & H2 & H3 & _). pose proof or_digit as Hor. change (2 ^ 32) with 4294967296 in Hor.
  rewrite (Hor 8) by (change (2 ^ 8) with 256; lia). change (2 ^ 8) with 256.
  rewrite (Hor 16) by (change (2 ^ 16) with 65536; lia). change (2 ^ 16) with 65536.
  rewrite (Hor 24) by (change (2 ^ 24) with 16777216; lia). change (2 ^ 24) with 16777216. cbn [le_val]. lia.
Qed.
Lemma or_digit64 p r d : 0 ≤ p < 64 → 0 ≤ r < 2 ^ p → 0 ≤ d → r + d * 2 ^ p < 2 ^ 64 → r .| (d <<64 p) = r + d * 2 ^ p.
Proof. intros Hp Hr Hd Hlt. rewrite lor_digit by lia. apply wrap_small. split; [pose proof (pow2_pos p); nia|done]. Qed.
Lemma le_or8 b0 b1 b2 b3 b4 b5 b6 b7 : bytes_ok [b0; b1; b2; b3; b4; b5; b6; b7] →
  b0 .| (b1 <<64 8) .| (b2 <<64 16) .| (b3 <<64 24) .| (b4 <<64 32) .| (b5 <<64 40) .| (b6 <<64 48) .| (b7 <<64 56)
  = le_val [b0; b1; b2; b3; b4; b5; b6; b7].
Proof.
  unfold bytes_ok. rewrite !Forall_cons. word_bounds. intros (H0 & H1 & H2 & H3 & H4 & H5 & H6 & H7 & _).
  pose proof or_digit64 as Hor. change (2 ^ 64) with 18446744073709551616 in Hor.
  rewrite (Hor 8) by (change (2 ^ 8) with 256; lia). change (2 ^ 8) with 256.
  rewrite (Hor 16) by (change (2 ^ 16) with 65536; lia). change (2 ^ 16) with 65536.
  rewrite (Hor 24) by (change (2 ^ 24) with 16777216; lia). change (2 ^ 24) with 16777216.
  rewrite (Hor 32) by (change (2 ^ 32) with 4294967296; lia). change (2 ^ 32) with 4294967296.
  rewrite (Hor 40) by (change (2 ^ 40) with 1099511627776; lia). change (2 ^ 40) with 1099511627776.
  rewrite (Hor 48) by (change (2 ^ 48) with 281474976710656; lia). change (2 ^ 48) with 281474976710656.
  rewrite (Hor 56) by (change (2 ^ 56) with 72057594037927936; lia). change (2 ^ 56) with 72057594037927936. cbn [le_val]. lia.
Qed.
Lemma consumes_fixed32 e : length e = 4%nat → bytes_ok e → consumes pb_decode_fixed32 e (le_val e).
Proof.
  intros Hl Hb. do 4 (destruct e as [|? e]; [done|]). destruct e; [|done]. rewrite <- le_or4 by done.
  match goal with |- consumes _ ?e _ => apply (consumes_map (pb_read true 4) (λ b, nth 0 b 0 .| (nth 1 b 0 <<32 8) .| (nth 2 b 0 <<32 16) .| (nth 3 b 0 <<32 24)) _ _ (consumes_read e)) end.
Qed.
Lemma consumes_fixed64 e : length e = 8%nat → bytes_ok e → consumes pb_decode_fixed64 e (le_val e).
Proof.
  intros Hl Hb. do 8 (destruct e as [|? e]; [done|]). destruct e; [|done]. rewrite <- le_or8 by done.
  match goal with |- consumes _ ?e _ => apply (consumes_map (pb_read true 8) (λ b, nth 0 b 0 .| (nth 1 b 0 <<64 8) .| (nth 2 b 0 <<64 16) .| (nth 3 b 0 <<64 24)
        .| (nth 4 b 0 <<64 32) .| (nth 5 b 0 <<64 40) .| (nth 6 b 0 <<64 48) .| (nth 7 b 0 <<64 56)) _ _ (consumes_read e)) end.
Qed.

(** ** Fields *)

Definition is_wire_type (w : wire_type) : Prop := match w with Invalid_wire_type _ => False | _ => True end.
Definition tag_of (w : wire_type) (tag : Z) : bytes := varint_of (tag * 8 + wire_number w).
Lemma decode_eof_some s v s' : pb_decode_varint32 s = (Some v, s') → pb_decode_varint32_eof s = ((Some v, false), s').
Proof.
  unfold pb_decode_varint32, pb_decode_varint32_eof. destruct (pb_readbyte s) as [[b|] s1]; [|done].
  destruct (_ =? 0); [by intros [= -> ->]|]. destruct (varint32_loop _ _ _ _) as [[[[? ?] ?]|] s2]; [|done].
  destruct (_ && _); [done|by intros [= -> ->]].
Qed.
Lemma decode_tag_ok w tag s bs rest : is_wire_type w → 0 < tag < 2 ^ 29 → in_ok s (tag_of w tag ++ bs) rest →
  ∃ s', pb_decode_tag s = ((Some (w, tag), false), s') ∧ in_ok s' bs rest ∧ errmsg s' = errmsg s.
Proof.
  intros Hw Ht Hs. change (2 ^ 29) with 536870912 in Ht. assert (0 ≤ wire_number w < 8) as Hn by (destruct w; done || (cbn; lia)).
  destruct (consumes_varint32_of (tag * 8 + wire_number w) ltac:(word_lia) s bs rest Hs) as (s' & E%decode_eof_some & Hs' & He).
  exists s'. split; [|done]. unfold pb_decode_tag. rewrite E. rewrite (proj2 (Z.eqb_neq (tag * 8 + wire_number w) 0)) by lia.
  rewrite land_7, shiftr_div by done. change (2 ^ 3) with 8. do 4 f_equal; [|lia].
  replace ((tag * 8 + wire_number w) mod 8) with (wire_number w) by lia. by destruct w.
Qed.
(** The end of the stream, and the zero that may end a message. *)
Lemma decode_tag_end s rest : in_ok s [] rest → ∃ s', pb_decode_tag s = ((None, true), s').
Proof.
  intros Hs. destruct (fails_readbyte s rest Hs) as (s1 & E & _). unfold pb_decode_tag, pb_decode_varint32_eof. rewrite E. exists s1.
  assert (bytes_left s1 = 0) as ->; [|done]. revert E. destruct Hs as [_ Hl _]. unfold pb_readbyte. rewrite (bind_some _ _ _ s s) by done.
  rewrite Hl. by intros [= <-].
Qed.

(** What may follow a tag with the wire type [w]. *)
Definition payload (w : wire_type) (e : bytes) : Prop :=
  match w with
  | PB_WT_VARINT => ∃ ds, e = varint ds ∧ Forall digit ds ∧ ds ≠ []
  | PB_WT_64BIT => zlen e = 8
  | PB_WT_STRING => ∃ bs, e = varint_of (zlen bs) ++ bs ∧ is_u32 (zlen bs)
  | PB_WT_32BIT => zlen e = 4
  | Invalid_wire_type _ => False
  end.
Lemma skip_varint_skips ds : Forall digit ds → ds ≠ [] → ∀ fuel, (length ds ≤ fuel)%nat → consumes (skip_varint_loop fuel) (varint ds) tt.
Proof.
  induction 1 as [|d ds Hd Hds IH]; [done|]. intros _ fuel Hf. destruct fuel as [|fuel]; [cbn in Hf; lia|]. cbn [skip_varint_loop].
  destruct ds as [|d' ds].
  - destruct (last_digit d Hd) as [_ H8]. change (varint [d]) with ([d] ++ []). eapply consumes_bind; [apply (consumes_read [d])|]. cbn [hd]. rewrite H8. apply consumes_ret.
  - destruct (more_digit d Hd) as [_ H8]. rewrite varint_cons by done. change (?b :: ?l) with ([b] ++ l) at 1.
    eapply consumes_bind; [apply (consumes_read [d + 128])|]. cbn [hd]. rewrite H8. apply IH; [done|cbn in *; lia].
Qed.
Lemma skip_field_ok w e : payload w e → consumes (pb_skip_field w) e tt.
Proof.
  destruct w; cbn [payload pb_skip_field]; intros Hp; [|..|done].
  - destruct Hp as (ds & -> & Hds & Hne). intros s bs rest Hs. unfold pb_skip_varint. rewrite (bind_some _ _ _ s s) by done.
    apply (skip_varint_skips ds Hds Hne (S (Z.to_nat (bytes_left s)))) with (2 := Hs).
    rewrite (in_left _ _ _ Hs), zlen_app. unfold zlen. rewrite length_varint. lia.
  - rewrite <- Hp. destruct (read_skips e) as [r Hr]. apply (consumes_map _ (λ _, tt) _ _ Hr).
  - destruct Hp as (bs & -> & Hl). unfold pb_skip_string. eapply consumes_bind; [by apply consumes_varint32_of|].
    destruct (read_skips bs) as [r Hr]. apply (consumes_map _ (λ _, tt) _ _ Hr).
  - rewrite <- Hp. destruct (read_skips e) as [r Hr]. apply (consumes_map _ (λ _, tt) _ _ Hr).
Qed.

(** ** Substreams *)

Lemma make_substream_ok s e bs rest : is_u32 (zlen e) → in_ok s (varint_of (zlen e) ++ e ++ bs) rest →
  ∃ sub s', pb_make_string_substream s = (Some sub, s') ∧ in_ok sub e (bs ++ rest) ∧ errmsg sub = errmsg s ∧ bytes_left s' = zlen bs ∧ errmsg s' = errmsg s.
Proof.
  intros He Hs. destruct (consumes_varint32_of _ He s (e ++ bs) rest Hs) as (s1 & E & [Hp Hl Hb] & Herr).
  unfold pb_make_string_substream. rewrite (bind_some _ _ _ _ _ E), (bind_some _ _ _ s1 s1) by done.
  rewrite Hl, zlen_app. pose proof (zlen_nonneg bs). rewrite (proj2 (Z.ltb_ge (zlen e + zlen bs) (zlen e))) by lia.
  eexists _, _. split; [reflexivity|]. apply bytes_ok_app in Hb as [Hb1 Hb2]. rewrite <- app_assoc in Hp.
  split_and!; cbn [bytes_left errmsg]; [by split|done|lia|done].
Qed.
Lemma close_substream_ok sub s e bs rest : in_ok sub e (bs ++ rest) → bytes_left s = zlen bs → bytes_ok bs →
  ∃ s', pb_close_string_substream sub s = (Some tt, s') ∧ in_ok s' bs rest ∧ errmsg s' = errmsg sub.
Proof.
  intros Hsub Hl Hb. unfold pb_close_string_substream. rewrite (in_left _ _ _ Hsub). destruct (Z.eqb_spec (zlen e) 0) as [E|_]; cbn [negb].
  - destruct e; [|rewrite zlen_cons in E; pose proof (zlen_nonneg e); lia]. eexists. split; [done|]. split; [|done]. split; [apply Hsub|done|done].
  - destruct (read_skips e) as [r Hr]. rewrite <- (app_nil_r e) in Hsub. destruct (Hr sub [] (bs ++ rest) Hsub) as (s1 & -> & Hs1 & He).
    eexists. split; [done|]. split; [|done]. split; [apply Hs1|done|done].
Qed.
End Input.


(** ** Output streams that accept *)

(** [written] is what the callback took so far; [room x n] says that it will take [n] more bytes. *)
Class SinkOk (X : Type) `{!Sink X} := {
  written : X → bytes;
  room : X → Z → Prop;
  room_less x m n : 0 ≤ m ≤ n → room x n → room x m;
  put_ok x bs n : 0 ≤ n → room x (zlen bs + n) → ∃ x', put_bytes x bs = (true, x') ∧ written x' = written x ++ bs ∧ room x' n }.
#[export] Instance buf_sink_ok : SinkOk (bytes * Z).
Proof.
  exists (λ x, take (Z.to_nat x.2) x.1) (λ x n, 0 ≤ x.2 ∧ x.2 + n ≤ zlen x.1).
  { intros [mem pos] m n. cbn [fst snd]. lia. }
  intros [mem pos] bs n Hn0 [Hpos Hn]. cbn [fst snd] in *. eexists. split; [reflexivity|]. cbn [fst snd]. pose proof (zlen_nonneg bs). split; [|split; [lia|]].
  - rewrite app_assoc. assert (Z.to_nat (pos + zlen bs) = length (take (Z.to_nat pos) mem ++ bs)) as ->.
    { rewrite length_app, length_take. unfold zlen in *. lia. } apply take_app_length.
  - autorewrite with bytesdb. unfold zlen in *. rewrite length_take, length_drop. lia.
Defined.

Section Output.
Context {X : Type} `{!Sink X, !SinkOk X}.
Abbreviation ostream := (pb_ostream X).

(** A stream in use.  Without a callback only the counter matters. *)
Record out_ok (s : ostream) : Prop := {
  out_count : 0 ≤ bytes_written s; out_max : is_u64 (max_size s);
  out_room : o_callback s = true → bytes_written s ≤ max_size s ∧ room (o_state s) (max_size s - bytes_written s) }.
Definition fits (s : ostream) (n : Z) : Prop := if o_callback s then bytes_written s + n ≤ max_size s else bytes_written s + n < 2 ^ 64.
Record wrote (s : ostream) (bs : bytes) (s' : ostream) : Prop := {
  wrote_ok : out_ok s'; wrote_count : bytes_written s' = bytes_written s + zlen bs;
  wrote_max : max_size s' = max_size s; wrote_cb : o_callback s' = o_callback s;
  wrote_err : o_errmsg s = None → o_errmsg s' = None;
  wrote_bytes : o_callback s = true → written (o_state s') = written (o_state s) ++ bs;
  wrote_room n : o_callback s = true → 0 ≤ n → room (o_state s) (zlen bs + n) → room (o_state s') n;
  wrote_null : o_callback s = false → o_state s' = o_state s }.
(** [m] writes exactly [bs], to any stream that has room for it; with less room it
    fails with a message. *)
Definition writes (m : st ostream unit) (bs : bytes) : Prop := ∀ s, out_ok s →
  (fits s (zlen bs) → ∃ s', m s = (Some tt, s') ∧ wrote s bs s') ∧
  (o_callback s = true → max_size s < bytes_written s + zlen bs < 2 ^ 64 → ∃ s', m s = (None, s') ∧ o_errmsg s' ≠ None).

Lemma fits_app s bs1 bs2 s1 : fits s (zlen (bs1 ++ bs2)) → wrote s bs1 s1 → fits s1 (zlen bs2).
Proof. unfold fits. rewrite zlen_app. intros H [_ -> -> -> _ _ _ _]. destruct (o_callback s); lia. Qed.
Lemma fits_le s n m : m ≤ n → fits s n → fits s m.
Proof. unfold fits. destruct (o_callback s); lia. Qed.
Lemma wrote_app s bs1 s1 bs2 s2 : wrote s bs1 s1 → wrote s1 bs2 s2 → wrote s (bs1 ++ bs2) s2.
Proof.
  intros [_ Hc1 Hm1 Hcb1 He1 Hb1 Hr1 Hn1] [Hok Hc2 Hm2 Hcb2 He2 Hb2 Hr2 Hn2]. rewrite Hcb1 in *. split; [done|rewrite zlen_app; lia|congruence|congruence|auto| | |].
  - intros H. by rewrite Hb2, Hb1, app_assoc by done.
  - intros n Hcb Hn H. apply Hr2; [done|done|]. apply Hr1; [done|pose proof (zlen_nonneg bs2); lia|]. by rewrite zlen_app, <- Z.add_assoc in H.
  - intros H. by rewrite Hn2, Hn1.
Qed.
Lemma writes_seq m1 m2 bs1 bs2 : writes m1 bs1 → writes m2 bs2 → writes (_ ← m1; m2) (bs1 ++ bs2).
Proof.
  intros H1 H2 s Hs. pose proof (zlen_nonneg bs1). pose proof (zlen_nonneg bs2). split.
  - intros Hf. destruct (H1 s Hs) as [[s1 [E1 W1]] _]; [eapply fits_le; [|exact Hf]; rewrite zlen_app; lia|].
    destruct (H2 s1) as [[s2 [E2 W2]] _]; [apply W1|by eapply fits_app|]. exists s2. rewrite (bind_some _ _ _ _ _ E1). split; [done|by eapply wrote_app].
  - intros Hcb Hf. rewrite zlen_app in Hf. destruct (Z.le_gt_cases (bytes_written s + zlen bs1) (max_size s)) as [Hle|Hgt].
    + destruct (H1 s Hs) as [[s1 [E1 W1]] _]; [unfold fits; by rewrite Hcb|]. rewrite (bind_some _ _ _ _ _ E1). destruct W1 as [Hok Hc Hm Hcb1 _ _ _ _].
      destruct (H2 s1 Hok) as [_ Hbad]. apply Hbad; [congruence|rewrite Hc, Hm; lia].
    + destruct (H1 s Hs) as [_ Hbad]. destruct Hbad as (s' & E & He); [done|lia|]. exists s'. by rewrite (bind_none _ _ _ _ E).
Qed.
Lemma writes_nothing : writes (mret tt) [].
Proof.
  intros s Hs. split; [|intros Hcb Hlt; rewrite zlen_nil in Hlt; destruct (out_room _ Hs Hcb); lia].
  intros _. exists s. split; [done|]. split; try done; [rewrite zlen_nil; lia|intros _; by rewrite app_nil_r].
Qed.
Lemma run_out_error {A} msg (s : ostream) : ∃ s', out_error (A := A) msg s = (None, s') ∧ o_errmsg s' ≠ None.
Proof. by eexists. Qed.
Lemma writes_write bs : writes (pb_write bs (zlen bs)) bs.
Proof.
  intros s Hs. pose proof (zlen_nonneg bs) as Hn. destruct Hs as [Hc Hm Hr]. unfold pb_write. rewrite (bind_some _ _ _ s s) by done.
  destruct (o_callback s) eqn:Hcb; rewrite ?andb_true_r, ?andb_false_r; cbv iota.
  - destruct (Hr eq_refl) as [Hle Hroom]. clear Hr. split.
    + unfold fits. rewrite Hcb. intros Hf. word_bounds. assert (u64 (bytes_written s + zlen bs) = bytes_written s + zlen bs) as Hu by (apply wrap_small; word_lia).
      destruct (Z.ltb_spec 0 (zlen bs)) as [Hpos|Hzero].
      * rewrite Hu, (proj2 (Z.ltb_ge (bytes_written s + zlen bs) (bytes_written s))), (proj2 (Z.ltb_ge (max_size s) (bytes_written s + zlen bs))) by lia. cbn [orb].
        rewrite to_nat_zlen, take_ge by done.
        destruct (put_ok (o_state s) bs (max_size s - bytes_written s - zlen bs)) as (x & E & Hx & Hxr); [lia|by replace (zlen bs + (max_size s - bytes_written s - zlen bs)) with (max_size s - bytes_written s) by lia|].
        rewrite E. eexists. split; [reflexivity|]. cbn. rewrite Hu.
        split; cbn; try done; try congruence; [|intros n _ Hn0 H; destruct (put_ok (o_state s) bs n Hn0 H) as (y & Ey & _ & Hy); congruence].
        split; cbn; [lia|word_lia|]. intros _. split; [lia|]. by replace (max_size s - (bytes_written s + zlen bs)) with (max_size s - bytes_written s - zlen bs) by lia.
      * assert (bs = []) as -> by (destruct bs; [done|rewrite zlen_cons in Hzero; pose proof (zlen_nonneg bs); lia]). rewrite zlen_nil in *.
        eexists. split; [reflexivity|]. cbn. rewrite Hu. split; cbn; rewrite ?app_nil_r; try done; try congruence; try lia.
        split; cbn; [lia|word_lia|]. intros _. rewrite Z.add_0_r. split; [lia|done].
    + intros _ Hlt. rewrite (proj2 (Z.ltb_lt 0 (zlen bs))) by lia.
      assert ((u64 (bytes_written s + zlen bs) <? bytes_written s) || (max_size s <? u64 (bytes_written s + zlen bs)) = true) as ->; [|by eexists].
      apply orb_true_iff. right. rewrite wrap_small by (word_bounds; lia). apply Z.ltb_lt. lia.
  - split; [|done]. unfold fits. rewrite Hcb. intros Hf. eexists. split; [reflexivity|]. cbn. rewrite wrap_small by (word_bounds; lia).
    split; cbn; try done; try congruence. split; cbn; [lia|done|congruence].
Qed.


(** ** What the encoders write *)

Lemma varint_bytes_digits n v : 0 < v < 128 ^ Z.of_nat n → varint_bytes_loop n v = map (λ d, d + 128) (digits n v).
Proof.
  revert v. induction n as [|n IH]; intros v Hv; [cbn in Hv; lia|]. rewrite Nat2Z.inj_succ, Z.pow_succ_r in Hv by lia.
  cbn [varint_bytes_loop digits map]. rewrite (proj2 (Z.eqb_neq v 0)) by lia. rewrite land_7f, shiftr_div by done. change (2 ^ 7) with 128.
  assert (u8 ((v mod 128) .| 0x80) = v mod 128 + 128) as ->.
  { change (Z.lor (v mod 128) 0x80) with (Z.lor (v mod 128) (1 ≪ 7)). rewrite Z.lor_comm, lor_shiftl_add by (done || (unfold is_uint; change (2 ^ 7) with 128; lia)).
    change (2 ^ 7) with 128. rewrite wrap_small by (word_bounds; lia). lia. }
  f_equal. destruct (Z.eqb_spec (v / 128) 0) as [->|]; [by destruct n|]. apply IH. lia.
Qed.
Lemma clear_last ds : Forall digit ds → ds ≠ [] →
  alter (λ b, b .& 0x7F) (length (map (λ d, (d + 128)%Z) ds) - 1)%nat (map (λ d, d + 128) ds) = varint ds.
Proof.
  induction 1 as [|d [|e ds] Hd Hds IH]; [done| |]; intros _.
  - cbn. f_equal. by apply more_digit.
  - rewrite varint_cons by done. rewrite <- IH by done. cbn [map length].
    replace (S (S (length (map (λ d, (d + 128)%Z) ds))) - 1)%nat with (S (S (length (map (λ d, (d + 128)%Z) ds)) - 1))%nat by lia. done.
Qed.
Lemma writes_varint v : is_u64 v → writes (pb_encode_varint v) (varint_of v).
Proof.
  intros Hv. unfold pb_encode_varint, varint_of. destruct (Z.leb_spec v 0x7F).
  - cbn [digits]. assert (v / 128 = 0) as -> by (word_bounds; lia). cbn [Z.eqb varint].
    assert (v mod 128 = u8 v) as -> by (word_bounds; unfold wrap; change (2 ^ 8) with 256; lia). apply (writes_write [u8 v]).
  - cbv zeta. rewrite varint_bytes_digits by (word_bounds; change (128 ^ Z.of_nat 10) with 1180591620717411303424; lia).
    rewrite clear_last by (apply digits_digit || done). assert (zlen (map (λ d, d + 128) (digits 10 v)) = zlen (varint (digits 10 v))) as ->.
    { unfold zlen. by rewrite length_map, length_varint. } apply writes_write.
Qed.
Lemma writes_svarint v : - 2 ^ 63 ≤ v < 2 ^ 63 → writes (pb_encode_svarint v) (varint_of (zigzag v)).
Proof.
  intros Hv. unfold pb_encode_svarint. change (2 ^ 63) with 9223372036854775808 in Hv. rewrite Z.shiftl_mul_pow2 by done.
  assert ((if v <? 0 then u64 (Z.lnot (u64 (u64 v * 2 ^ 1))) else u64 (u64 v * 2 ^ 1)) = zigzag v) as ->.
  { unfold zigzag, wrap, Z.lnot. change (2 ^ 64) with 18446744073709551616. change (2 ^ 1) with 2. destruct (Z.ltb_spec v 0); lia. }
  apply writes_varint. unfold zigzag. word_bounds. destruct (Z.ltb_spec v 0); lia.
Qed.
Lemma writes_fixed32 v : writes (pb_encode_fixed32 v) (le_bytes 4 v).
Proof.
  unfold pb_encode_fixed32. rewrite !land_ff, !shiftr_div by done. unfold wrap. rewrite !Zmod_mod.
  replace [v mod 2 ^ 8; (v / 2 ^ 8) mod 2 ^ 8; (v / 2 ^ 16) mod 2 ^ 8; (v / 2 ^ 24) mod 2 ^ 8] with (le_bytes 4 v).
  - apply (writes_write (le_bytes 4 v)).
  - cbn [le_bytes]. rewrite !Z.div_div by done. done.
Qed.
Lemma writes_fixed64 v : writes (pb_encode_fixed64 v) (le_bytes 8 v).
Proof.
  unfold pb_encode_fixed64. rewrite !land_ff, !shiftr_div by done. unfold wrap. rewrite !Zmod_mod.
  replace [v mod 2 ^ 8; (v / 2 ^ 8) mod 2 ^ 8; (v / 2 ^ 16) mod 2 ^ 8; (v / 2 ^ 24) mod 2 ^ 8;
    (v / 2 ^ 32) mod 2 ^ 8; (v / 2 ^ 40) mod 2 ^ 8; (v / 2 ^ 48) mod 2 ^ 8; (v / 2 ^ 56) mod 2 ^ 8] with (le_bytes 8 v).
  - apply (writes_write (le_bytes 8 v)).
  - cbn [le_bytes]. rewrite !Z.div_div by done. done.
Qed.
Lemma writes_tag w tag : is_wire_type w → 0 < tag < 2 ^ 29 → writes (pb_encode_tag w tag) (tag_of w tag).
Proof.
  intros Hw Ht. change (2 ^ 29) with 536870912 in Ht. assert (0 ≤ wire_number w < 8) as Hn by (destruct w; done || (cbn; lia)).
  unfold pb_encode_tag, tag_of. rewrite wrap_small by (rewrite Z.shiftl_mul_pow2 by done; word_bounds; change (2 ^ 3) with 8; lia).
  rewrite lor_shiftl_add by done. change (2 ^ 3) with 8. apply writes_varint. word_bounds. lia.
Qed.
Lemma writes_string bs : is_u64 (zlen bs) → writes (pb_encode_string bs (zlen bs)) (varint_of (zlen bs) ++ bs).
Proof. intros Hl. apply writes_seq; [by apply writes_varint|apply writes_write]. Qed.

(** A stream that only counts tells the size of what would be written. *)
Lemma writes_sizing m bs x : writes m bs → is_u64 (zlen bs) → ∃ s', m (PB_OSTREAM_SIZING x) = (Some tt, s') ∧ bytes_written s' = zlen bs.
Proof.
  intros Hm Hl. destruct (Hm (PB_OSTREAM_SIZING x)) as [[s' [E W]] _]; [by split|unfold fits; cbn; word_bounds; lia|].
  exists s'. split; [done|]. apply W.
Qed.
Lemma encoded_size m bs x : writes m bs → is_u64 (zlen bs) → pb_get_encoded_size x m = Some (zlen bs).
Proof. intros Hm Hl. unfold pb_get_encoded_size. destruct (writes_sizing m bs x Hm Hl) as (s' & -> & ->). done. Qed.
(** Writing nothing to a stream without a callback still counts. *)
Lemma run_write_null s n : o_callback s = false → 0 ≤ n → 0 ≤ bytes_written s → bytes_written s + n < 2 ^ 64 →
  pb_write [] n s = (Some tt, Ostream false (o_state s) (max_size s) (bytes_written s + n) (o_errmsg s)).
Proof.
  intros Hcb Hn Hc Hlt. unfold pb_write. rewrite (bind_some _ _ _ s s) by done. rewrite Hcb, andb_false_r, (bind_some _ _ _ tt s), (bind_some _ _ _ s s) by done.
  unfold set_bytes_written, st_modify. by rewrite Hcb, wrap_small by (word_bounds; lia).
Qed.
End Output.
