(* ===== verification/PbRoundtrip.v ===== *)
(** * Round trips of nanopb: scalars, packed arrays and nested messages

    What the encoders of [PbStream] write is read back by its decoders, on any pair of streams. *)
From stdpp Require Import strings.
From S2P Require Export PbWire.

(** ** Nested messages *)

(** Bytes behind their length. *)
Definition framed (e : bytes) : bytes := varint_of (zlen e) ++ e.

Section Submessage.
Context {X : Type} `{!Sink X, !SinkOk X}.
Abbreviation ostream := (pb_ostream X).

Lemma writes_nested m bs : writes m bs → writes (write_nested m (zlen bs)) bs.
Proof.
  intros Hm s Hs. pose proof (zlen_nonneg bs) as Hn. pose proof Hs as [Hc Hmax Hr]. unfold write_nested. rewrite (bind_some _ _ _ s s) by done.
  destruct (o_callback s) eqn:Hcb; cbn [negb].
  - destruct (Hr eq_refl) as [Hle Hroom]. clear Hr. split.
    + unfold fits. rewrite Hcb. intros Hf. rewrite wrap_small by (word_bounds; lia). rewrite (proj2 (Z.ltb_ge (max_size s) (bytes_written s + zlen bs))) by lia.
      destruct (Hm (Ostream true (o_state s) (zlen bs) 0 None)) as [[s1 [E [Hok1 Hc1 Hm1 Hcb1 He1 Hb1 Hr1 _]]] _]; cbn in *.
      { split; cbn; [done|word_bounds; lia|]. intros _. split; [lia|]. rewrite Z.sub_0_r. eapply room_less; [|exact Hroom]. lia. }
      { unfold fits. cbn. lia. }
      rewrite Z.add_0_l in Hc1. rewrite E. eexists. split; [unfold set_bytes_written, set_state, set_errmsg, st_modify, mbind, st_bind; cbn; rewrite Hc1, Z.eqb_refl; reflexivity|].
      cbn. rewrite wrap_small by (word_bounds; lia). split; cbn; try done; try congruence; [|intros _; apply He1; done|intros _; by apply Hb1|intros n _ ? ?; by apply Hr1].
      split; cbn; [lia|done|]. intros _. split; [lia|]. apply Hr1; [done|lia|]. by replace (zlen bs + (max_size s - (bytes_written s + zlen bs))) with (max_size s - bytes_written s) by lia.
    + intros _ Hlt. rewrite wrap_small by (word_bounds; lia). rewrite (proj2 (Z.ltb_lt (max_size s) (bytes_written s + zlen bs))) by lia. by eexists.
  - split; [|done]. unfold fits. rewrite Hcb. intros Hf. rewrite run_write_null by (done || lia). eexists. split; [reflexivity|].
    split; cbn; try done; try congruence. split; cbn; [lia|done|done].
Qed.
Lemma writes_submessage m bs : writes m bs → is_u64 (zlen bs) → writes (pb_encode_submessage m) (varint_of (zlen bs) ++ bs).
Proof.
  intros Hm Hl. assert (writes (_ ← pb_encode_varint (zlen bs); write_nested m (zlen bs)) (varint_of (zlen bs) ++ bs)) as H
    by (apply writes_seq; [by apply writes_varint|by apply writes_nested]).
  intros s Hs. specialize (H s Hs). unfold pb_encode_submessage. rewrite (bind_some _ _ _ s s) by done.
  destruct (writes_sizing m bs (o_state s) Hm Hl) as (s1 & -> & ->). exact H.
Qed.
End Submessage.


(** ** Scalars *)

(** The bytes of an object of the given type and size. *)
Definition object_ok (t : ltype) (data_size : Z) (obj : bytes) : Prop :=
  zlen obj = data_size ∧ bytes_ok obj ∧
  match t with
  | PB_LTYPE_BOOL => obj = [0] ∨ obj = [1]
  | PB_LTYPE_FIXED32 => data_size = 4
  | PB_LTYPE_FIXED64 => data_size = 8
  | _ => int_size data_size = true
  end.
(** What stands for it on the wire. *)
Definition wire (t : ltype) (obj : bytes) : bytes :=
  match t with
  | PB_LTYPE_BOOL | PB_LTYPE_UVARINT => varint_of (le_val obj)
  | PB_LTYPE_VARINT => varint_of (u64 (swrap (8 * zlen obj) (le_val obj)))
  | PB_LTYPE_SVARINT => varint_of (zigzag (swrap (8 * zlen obj) (le_val obj)))
  | PB_LTYPE_FIXED32 | PB_LTYPE_FIXED64 => obj
  end.

Lemma le_bytes_mod n v k : le_bytes n (v + k * 256 ^ Z.of_nat n) = le_bytes n v.
Proof.
  revert v. induction n as [|n IH]; intros v; [done|]. cbn [le_bytes]. rewrite Nat2Z.inj_succ, Z.pow_succ_r by lia.
  replace (v + k * (256 * 256 ^ Z.of_nat n)) with (v + (k * 256 ^ Z.of_nat n) * 256) by ring. rewrite Z.mod_add, Z.div_add by done.
  f_equal. apply IH.
Qed.
Lemma int_size_cases n : int_size n = true → n = 1 ∨ n = 2 ∨ n = 4 ∨ n = 8.
Proof. unfold int_size. rewrite !orb_true_iff, !Z.eqb_eq. tauto. Qed.
(** The value of an object as a signed number. *)
Lemma signed_object n obj : int_size n = true → zlen obj = n → bytes_ok obj → let v := swrap (8 * n) (le_val obj) in
  - 2 ^ (8 * n - 1) ≤ v < 2 ^ (8 * n - 1) ∧ object_bytes n v = obj.
Proof.
  intros Hn Hl Hb v. assert (0 ≤ le_val obj < 2 ^ (8 * n)) as Hle.
  { rewrite <- pow256_pow2, <- Hl by (pose proof (zlen_nonneg obj); lia). by apply le_val_bound. }
  assert (0 < n) as Hpos by (apply int_size_cases in Hn; lia).
  assert (2 ^ (8 * n) = 2 * 2 ^ (8 * n - 1)) as Hp by (rewrite <- Z.pow_succ_r by lia; f_equal; lia).
  unfold v, swrap. rewrite wrap_small by done. split; [destruct (Z.ltb_spec (le_val obj) (2 ^ (8 * n - 1))); lia|].
  unfold object_bytes. assert (Z.to_nat n = length obj) as -> by (unfold zlen in Hl; lia). transitivity (le_bytes (length obj) (le_val obj)); [|by apply le_bytes_le_val].
  destruct (Z.ltb_spec (le_val obj) (2 ^ (8 * n - 1))); [done|].
  replace (le_val obj - 2 ^ (8 * n)) with (le_val obj + (-1) * 256 ^ Z.of_nat (length obj)); [apply le_bytes_mod|].
  change (Z.of_nat (length obj)) with (zlen obj). rewrite pow256_pow2, Hl by (pose proof (zlen_nonneg obj); lia). lia.
Qed.
Lemma swrap_small w v : 0 < w → - 2 ^ (w - 1) ≤ v < 2 ^ (w - 1) → swrap w v = v.
Proof.
  intros Hw Hv. assert (2 ^ w = 2 * 2 ^ (w - 1)) as Hp by (rewrite <- Z.pow_succ_r by lia; f_equal; lia). unfold swrap, wrap.
  destruct (Z.lt_ge_cases v 0).
  - assert (v mod 2 ^ w = v + 2 ^ w) as -> by (symmetry; apply Z.mod_unique with (-1); lia). destruct (Z.ltb_spec (v + 2 ^ w) (2 ^ (w - 1))); lia.
  - rewrite Z.mod_small by lia. destruct (Z.ltb_spec v (2 ^ (w - 1))); lia.
Qed.
Lemma swrap_u64 w v : 0 < w ≤ 64 → swrap w (u64 v) = swrap w v.
Proof.
  intros Hw. unfold swrap. assert (wrap w (u64 v) = wrap w v) as ->; [|done]. unfold wrap.
  assert (2 ^ 64 = 2 ^ w * 2 ^ (64 - w)) as -> by (rewrite <- Z.pow_add_r by lia; f_equal; lia).
  pose proof (pow2_pos w ltac:(lia)). pose proof (pow2_pos (64 - w) ltac:(lia)).
  rewrite Z.rem_mul_r by lia. rewrite Z.mul_comm, Z.mod_add, Zmod_mod by lia. done.
Qed.
Lemma narrow_bound n : int_size n = true → 0 < 8 * n ≤ 64 ∧ 2 ^ (8 * n - 1) ≤ 2 ^ 63 ∧ (n ≠ 8 → 2 ^ (8 * n - 1) ≤ 2 ^ 31).
Proof. intros Hn%int_size_cases. destruct Hn as [->|[->|[->| ->]]]; (split; [lia|split; [by apply Z.leb_le|intros; by apply Z.leb_le]]). Qed.

Section Scalars.
Context {X : Type} `{!Sink X, !SinkOk X} {Y : Type} `{!Source Y, !SourceOk Y}.

Lemma writes_scalar t n obj : object_ok t n obj → writes (X := X) (PB_ENCODERS t n obj) (wire t obj).
Proof.
  intros (Hl & Hb & Ht). pose proof (le_val_bound obj Hb) as Hle. rewrite Hl in Hle.
  assert (take (Z.to_nat n) obj = obj) as Htake by (rewrite <- Hl, to_nat_zlen; by apply take_ge).
  destruct t; cbn [PB_ENCODERS wire]; rewrite ?Hl.
  - unfold pb_enc_bool. destruct Ht as [-> | ->]; by apply writes_varint.
  - unfold pb_enc_varint. rewrite Ht, Htake. apply writes_varint, wrap_is_uint. done.
  - unfold pb_enc_uvarint. rewrite Ht, Htake. apply writes_varint. apply int_size_cases in Ht. split; [lia|].
    eapply Z.lt_le_trans; [apply Hle|]. by destruct Ht as [->|[->|[->| ->]]].
  - unfold pb_enc_svarint. rewrite Ht, Htake. destruct (signed_object n obj Ht Hl Hb) as [Hv _]. destruct (narrow_bound n Ht) as (_ & Hn & _).
    apply writes_svarint. lia.
  - subst n. assert (length obj = 4%nat) as Hlen by (unfold zlen in Ht; lia). unfold pb_enc_fixed32. rewrite take_ge by lia.
    pose proof (le_bytes_le_val obj Hb) as E. rewrite Hlen in E. rewrite <- E at 2. apply writes_fixed32.
  - subst n. assert (length obj = 8%nat) as Hlen by (unfold zlen in Ht; lia). unfold pb_enc_fixed64. rewrite take_ge by lia.
    pose proof (le_bytes_le_val obj Hb) as E. rewrite Hlen in E. rewrite <- E at 2. apply writes_fixed64.
Qed.

Lemma consumes_if {A} (b : bool) (m m' : st (pb_istream Y) A) e v : b = true → consumes m e v → consumes (if b then m else m') e v.
Proof. by intros ->. Qed.
Lemma consumes_scalar t n obj : object_ok t n obj → consumes (X := Y) (PB_DECODERS t n) (wire t obj) obj.
Proof.
  intros (Hl & Hb & Ht). pose proof (le_val_bound obj Hb) as Hle. rewrite Hl in Hle.
  destruct t; cbn [PB_DECODERS wire]; rewrite ?Hl.
  - unfold pb_dec_bool. destruct Ht as [-> | ->].
    + apply (consumes_map pb_decode_varint32 (λ value, [if value =? 0 then 0 else 1]) _ 0). by apply consumes_varint32_of.
    + apply (consumes_map pb_decode_varint32 (λ value, [if value =? 0 then 0 else 1]) _ 1). by apply consumes_varint32_of.
  - destruct (signed_object n obj Ht Hl Hb) as [Hv Hst]. destruct (narrow_bound n Ht) as (Hn & H63 & H31). unfold pb_dec_varint.
    rewrite <- (app_nil_r (varint_of _)). eapply consumes_bind; [apply consumes_varint_of, wrap_is_uint; done|]. cbv zeta. rewrite Ht.
    assert ((if n =? 8 then s64 (u64 (swrap (8 * n) (le_val obj))) else s32 (u64 (swrap (8 * n) (le_val obj)))) = swrap (8 * n) (le_val obj)) as ->.
    { rewrite !swrap_u64 by done. destruct (Z.eqb_spec n 8); apply swrap_small; try done; [change (64 - 1) with 63; lia|change (32 - 1) with 31; lia]. }
    rewrite (swrap_small (8 * n) (swrap (8 * n) (le_val obj))) by (done || lia). rewrite Z.eqb_refl, Hst. apply consumes_ret.
  - unfold pb_dec_uvarint. assert (0 ≤ le_val obj < 2 ^ (8 * n)) as Hu by (rewrite <- pow256_pow2 by (pose proof (zlen_nonneg obj); lia); done).
    rewrite <- (app_nil_r (varint_of _)). eapply consumes_bind; [apply consumes_varint_of|].
    { destruct (narrow_bound n Ht) as (Hn & _). apply (is_uint_mono (8 * n) 64); [lia|done]. }
    rewrite Ht. cbv zeta. rewrite wrap_small, Z.eqb_refl by done. unfold object_bytes. rewrite <- Hl, to_nat_zlen, le_bytes_le_val by done. apply consumes_ret.
  - destruct (signed_object n obj Ht Hl Hb) as [Hv Hst]. destruct (narrow_bound n Ht) as (Hn & H63 & H31). unfold pb_dec_svarint.
    rewrite <- (app_nil_r (varint_of _)). eapply consumes_bind; [apply consumes_svarint; lia|]. rewrite Ht. cbv zeta.
    rewrite (swrap_small (8 * n) (swrap (8 * n) (le_val obj))) by (done || lia). rewrite Z.eqb_refl, Hst. apply consumes_ret.
  - subst n. assert (length obj = 4%nat) as Hlen by (unfold zlen in Ht; lia). unfold pb_dec_fixed32.
    pose proof (consumes_map pb_decode_fixed32 (object_bytes 4) _ _ (consumes_fixed32 obj Hlen Hb)) as H. unfold object_bytes in *. change (Z.to_nat 4) with 4%nat in *.
    by rewrite <- Hlen, le_bytes_le_val in H at 1.
  - subst n. assert (length obj = 8%nat) as Hlen by (unfold zlen in Ht; lia). unfold pb_dec_fixed64.
    pose proof (consumes_map pb_decode_fixed64 (object_bytes 8) _ _ (consumes_fixed64 obj Hlen Hb)) as H. unfold object_bytes in *. change (Z.to_nat 8) with 8%nat in *.
    by rewrite <- Hlen, le_bytes_le_val in H at 1.
Qed.
End Scalars.


(** ** Packed arrays *)

Definition payload_of (t : ltype) (objs : list bytes) : bytes := concat (map (wire t) objs).
Lemma zlen_varint_pos ds : ds ≠ [] → 0 < zlen (varint ds).
Proof. intros Hds. unfold zlen. rewrite length_varint. destruct ds; [done|cbn; lia]. Qed.
Lemma wire_nonempty t n obj : object_ok t n obj → 0 < zlen (wire t obj).
Proof.
  intros (Hl & _ & Ht). destruct t; cbn [wire]; try apply zlen_varint_pos, (digits_nonempty 9); rewrite Hl, Ht; done.
Qed.
Lemma zlen_object t n obj : object_ok t n obj → zlen obj = n.
Proof. by intros (? & _). Qed.
Lemma object_size_pos t n obj : object_ok t n obj → 0 < n.
Proof.
  intros (Hl & _ & Ht). destruct t; [|apply int_size_cases in Ht; lia..|lia|lia]. subst n. by destruct Ht as [-> | ->].
Qed.
Lemma zlen_concat_fixed n (ws : list bytes) : Forall (λ w, zlen w = n) ws → zlen (concat ws) = n * zlen ws.
Proof. induction 1 as [|w ws Hw _ IH]; cbn [concat]; autorewrite with bytesdb; lia. Qed.

Section Arrays.
Context {X : Type} `{!Sink X, !SinkOk X} {Y : Type} `{!Source Y, !SourceOk Y}.
Context (t : ltype) (n : Z).

Lemma encode_prefix obj q : object_ok t n obj → PB_ENCODERS (X := X) t n (obj ++ q) = PB_ENCODERS t n obj.
Proof.
  intros (Hl & Hb & Ht). assert (take (Z.to_nat n) (obj ++ q) = take (Z.to_nat n) obj) as Htake
    by (rewrite <- Hl, take_app_zlen, to_nat_zlen; symmetry; by apply take_ge).
  destruct t; cbn [PB_ENCODERS]; unfold pb_enc_bool, pb_enc_varint, pb_enc_uvarint, pb_enc_svarint, pb_enc_fixed32, pb_enc_fixed64; rewrite ?Htake; try done.
  - by destruct Ht as [-> | ->].
  - rewrite Ht in Htake. change (Z.to_nat 4) with 4%nat in Htake. by rewrite Htake.
  - rewrite Ht in Htake. change (Z.to_nat 8) with 8%nat in Htake. by rewrite Htake.
Qed.
Lemma writes_items objs q : Forall (object_ok t n) objs → writes (X := X) (encode_items t n (length objs) (concat objs ++ q)) (payload_of t objs).
Proof.
  induction 1 as [|obj objs Hobj _ IH]; [apply writes_nothing|]. cbn [encode_items length concat]. rewrite <- app_assoc, encode_prefix by done.
  assert (drop (Z.to_nat n) (obj ++ concat objs ++ q) = concat objs ++ q) as -> by (rewrite <- (zlen_object _ _ _ Hobj); apply drop_app_zlen).
  apply writes_seq; [by apply writes_scalar|exact IH].
Qed.
Lemma packed_size_ok objs q x : Forall (object_ok t n) objs → is_u64 (zlen (payload_of t objs)) → 
  packed_size (X := X) t n (zlen objs) (concat objs ++ q) x = Some (zlen (payload_of t objs)).
Proof.
  intros Hobjs Hl. assert (pb_get_encoded_size x (encode_items t n (Z.to_nat (zlen objs)) (concat objs ++ q)) = Some (zlen (payload_of t objs))) as Hvar
    by (apply encoded_size; [rewrite to_nat_zlen; by apply writes_items|done]).
  assert (∀ k, (t = PB_LTYPE_FIXED32 ∨ t = PB_LTYPE_FIXED64) → n = k → Some (u64 (k * zlen objs)) = Some (zlen (payload_of t objs))) as Hfix.
  { intros k Ht Hk. assert (zlen (payload_of t objs) = k * zlen objs) as E; [|rewrite <- E; f_equal; by apply wrap_small].
    unfold payload_of. rewrite (zlen_concat_fixed k); [unfold zlen; by rewrite length_map|]. apply Forall_map.
    eapply Forall_impl; [exact Hobjs|]. intros obj (Hobj & _ & _). destruct Ht as [-> | ->]; cbn; congruence. }
  destruct objs as [|obj objs]; [unfold payload_of in *; destruct t; done|]. apply Forall_cons in Hobjs as [(_ & _ & Ht) _].
  unfold packed_size. destruct t; try exact Hvar; apply Hfix; auto.
Qed.
Lemma writes_array tag array_size objs : Forall (object_ok t n) objs → objs ≠ [] → zlen objs ≤ array_size → 0 < tag < 2 ^ 29 →
  is_u64 (zlen (payload_of t objs)) →
  writes (X := X) (encode_array t tag n array_size (concat objs) (zlen objs)) (tag_of PB_WT_STRING tag ++ varint_of (zlen (payload_of t objs)) ++ payload_of t objs).
Proof.
  intros Hobjs Hne Hsize Ht Hl. unfold encode_array.
  destruct (Z.eqb_spec (zlen objs) 0) as [E|_]; [destruct objs; [done|rewrite zlen_cons in E; pose proof (zlen_nonneg objs); lia]|].
  rewrite (proj2 (Z.ltb_ge array_size (zlen objs))) by done. apply writes_seq; [by apply writes_tag|].
  pose proof (app_nil_r (concat objs)) as Happ. rewrite <- Happ.
  assert (writes (_ ← pb_encode_varint (zlen (payload_of t objs)); s ← st_get;
    if negb (o_callback s) then pb_write [] (zlen (payload_of t objs)) else encode_items (X := X) t n (Z.to_nat (zlen objs)) (concat objs ++ []))
    (varint_of (zlen (payload_of t objs)) ++ payload_of t objs)) as H.
  - apply writes_seq; [by apply writes_varint|]. intros s Hs. rewrite (bind_some _ _ _ s s) by done. destruct (o_callback s) eqn:Hcb; cbn [negb].
    + rewrite to_nat_zlen. pose proof (writes_items objs [] Hobjs s Hs) as H. by rewrite Hcb in H.
    + split; [|congruence]. unfold fits. rewrite Hcb. intros Hf. pose proof (zlen_nonneg (payload_of t objs)). destruct Hs as [Hc Hm _].
      rewrite run_write_null by (done || lia). eexists. split; [reflexivity|]. split; cbn; try done; try congruence. split; cbn; [lia|done|done].
  - intros s Hs. specialize (H s Hs). rewrite (bind_some _ _ _ s s) by done. by rewrite packed_size_ok.
Qed.

Lemma packed_loop_ok array_size objs : Forall (object_ok t n) objs → ∀ fuel k arr sub rest, in_ok sub (payload_of t objs) rest → 0 ≤ k →
  k + zlen objs ≤ array_size < 2 ^ 32 → zlen arr = n * array_size → (length objs < fuel)%nat →
  ∃ sub', packed_loop (Y := Y) fuel t n array_size sub arr k =
      (true, sub', take (Z.to_nat (n * k)) arr ++ concat objs ++ drop (Z.to_nat (n * (k + zlen objs))) arr, k + zlen objs) ∧
    in_ok sub' [] rest ∧ errmsg sub' = errmsg sub.
Proof.
  induction 1 as [|obj objs Hobj Hobjs IH]; intros fuel k arr sub rest Hsub Hk Hsize Harr Hf; (destruct fuel as [|fuel]; [cbn in Hf; lia|]); cbn [packed_loop].
  - rewrite (in_left _ _ _ Hsub). change (zlen (@nil bytes)) with 0. exists sub. split; [|done]. by rewrite Z.add_0_r, app_nil_l, take_drop.
  - change (payload_of t (obj :: objs)) with (wire t obj ++ payload_of t objs) in Hsub. rewrite (in_left _ _ _ Hsub), zlen_app.
    pose proof (wire_nonempty _ _ _ Hobj). pose proof (zlen_nonneg (payload_of t objs)). pose proof (zlen_nonneg objs). pose proof (object_size_pos _ _ _ Hobj) as Hn.
    rewrite zlen_cons in Hsize. rewrite (proj2 (Z.ltb_lt 0 _)), (proj2 (Z.ltb_lt k array_size)) by lia. cbn [andb].
    destruct (consumes_scalar t n obj Hobj sub _ _ Hsub) as (sub1 & -> & Hsub1 & He1).
    assert (u32 (k + 1) = k + 1) as -> by (apply wrap_small; word_bounds; lia). pose proof (zlen_object _ _ _ Hobj) as Hol.
    set (p := Z.to_nat (n * k)). assert (p + length obj ≤ length arr)%nat as Hp by (unfold p, zlen in *; nia).
    set (arr1 := take p arr ++ obj ++ drop (p + length obj) arr).
    assert (Z.to_nat (n * (k + 1)) = p + length obj)%nat as Hp1 by (unfold p, zlen in *; nia).
    destruct (IH fuel (k + 1) arr1 sub1 rest Hsub1) as (sub' & E & Hsub' & He'); [lia|lia| |cbn in Hf; lia|].
    { rewrite <- Harr. unfold arr1, zlen. rewrite !length_app, length_take, length_drop. lia. }
    exists sub'. rewrite E. split_and!; [|done|congruence]. rewrite zlen_cons, Z.add_assoc. f_equal. f_equal. cbn [concat]. rewrite Hp1. unfold arr1.
    rewrite (app_assoc (take p arr)), take_app_length' by (rewrite length_app, length_take; lia). rewrite <- !app_assoc. do 3 f_equal.
    rewrite app_assoc, drop_app_ge by (rewrite length_app, length_take; unfold p, zlen in *; nia).
    rewrite drop_drop, length_app, length_take. f_equal. unfold p, zlen in *. nia.
Qed.
Lemma consumes_packed array_size objs k arr : Forall (object_ok t n) objs → 0 ≤ k → k + zlen objs ≤ array_size < 2 ^ 32 → zlen arr = n * array_size →
  is_u32 (zlen (payload_of t objs)) →
  consumes (X := Y) (decode_packed t n array_size arr k) (varint_of (zlen (payload_of t objs)) ++ payload_of t objs)
    (take (Z.to_nat (n * k)) arr ++ concat objs ++ drop (Z.to_nat (n * (k + zlen objs))) arr, k + zlen objs).
Proof.
  intros Hobjs Hk Hsize Harr Hl s bs rest Hs. rewrite <- app_assoc in Hs.
  destruct (make_substream_ok s _ _ _ Hl Hs) as (sub & s1 & E1 & Hsub & He1 & Hl1 & He2). unfold decode_packed. rewrite (bind_some _ _ _ _ _ E1).
  destruct (packed_loop_ok array_size objs Hobjs (S (Z.to_nat (array_size - k))) k arr sub _ Hsub Hk Hsize Harr) as (sub' & -> & Hsub' & He3); [unfold zlen in *; lia|].
  rewrite (in_left _ _ _ Hsub'). change (negb (zlen (@nil Z) =? 0)) with false. cbv iota.
  assert (bytes_ok bs) as Hbs by (pose proof (in_bytes _ _ _ Hs) as Hb; by apply bytes_ok_app in Hb as [_ [_ ?]%bytes_ok_app]).
  destruct (close_substream_ok sub' s1 [] bs rest Hsub' Hl1 Hbs) as (s2 & E2 & Hs2 & He4). rewrite (bind_some _ _ _ _ _ E2).
  exists s2. split_and!; [done|done|congruence].
Qed.
End Arrays.


(** ** The theorems *)

Lemma starts_varint_dec n : ∀ bs, bytes_ok bs → starts_varint (Z.of_nat n) bs ∨ ¬ starts_varint (Z.of_nat n) bs.
Proof.
  induction n as [|n IH]; intros bs Hb.
  - right. intros (ds & cs & _ & _ & Hne & Hl). destruct ds; [done|]. rewrite zlen_cons in Hl. pose proof (zlen_nonneg ds). lia.
  - destruct bs as [|b bs]; [right; intros (ds & cs & E & _ & Hne & _); destruct ds as [|d [|? ?]]; done|].
    apply bytes_ok_cons in Hb as [Hb Hbs]. destruct (byte_digit b Hb) as [[_ Hd]|(_ & Hb' & Hd)]; [left; apply starts_varint_last; [lia|done]|].
    destruct (IH bs Hbs) as [Hs|Hs]; [left; rewrite Hb'; replace (Z.of_nat (S n)) with (Z.of_nat n + 1) by lia; by apply starts_varint_more|].
    right. intros (ds & cs & E & Hds & Hne & Hl). destruct ds as [|d ds]; [done|]. apply Forall_cons in Hds as [Hd' Hds]. unfold digit in *.
    destruct ds as [|d2 ds]; [injection E as E _; lia|]. rewrite varint_cons in E by done. injection E as _ E.
    apply Hs. exists (d2 :: ds), cs. rewrite zlen_cons in Hl. split_and!; [done..|lia].
Qed.

(** What reading a 64-bit number from a stream that has [bs] to give comes to. *)
Definition varint_outcome {X} `{!Source X, !SourceOk X} (s : pb_istream X) (bs rest : bytes) (r : option Z * pb_istream X) : Prop :=
  match r with
  | (Some v, s') => ∃ ds cs, bs = varint ds ++ cs ∧ Forall digit ds ∧ ds ≠ [] ∧ zlen ds ≤ 10 ∧ v = u64 (base128 ds) ∧
      in_ok s' cs rest ∧ errmsg s' = errmsg s
  | (None, s') => ¬ starts_varint 10 bs ∧ errmsg s' ≠ None
  end.
(** C38. A 64-bit variable-length integer: [pb_encode_varint] writes the shortest encoding of any
    number, at most ten bytes; [pb_decode_varint] takes exactly one number of at most ten base-128
    digits from any stream, and its value modulo 2^64; it fails, with a message, exactly when the
    stream does not start with one. *)
Theorem pb_varint_exact {X} `{!Source X, !SourceOk X} {Y} `{!Sink Y, !SinkOk Y} (s : pb_istream X) bs rest : in_ok s bs rest →
  varint_outcome s bs rest (pb_decode_varint s) ∧
  ∀ v, is_u64 v → writes (X := Y) (pb_encode_varint v) (varint_of v) ∧ zlen (varint_of v) ≤ 10 ∧
    starts_varint 10 (varint_of v) ∧ u64 (base128 (digits 10 v)) = v.
Proof.
  intros Hs. split.
  - destruct (starts_varint_dec 10 bs (in_bytes _ _ _ Hs)) as [(ds & cs & -> & Hds & Hne & Hl)|Hno].
    + destruct (consumes_varint ds Hds Hne Hl s cs rest Hs) as (s' & -> & Hs' & He). by exists ds, cs.
    + destruct (fails_varint bs (in_bytes _ _ _ Hs) Hno s rest Hs) as (s' & -> & He). done.
  - intros v Hv. split_and!.
    + by apply writes_varint.
    + unfold varint_of, zlen. rewrite length_varint. apply (zlen_digits 10).
    + exists (digits 10 v), []. split_and!; [symmetry; apply app_nil_r|apply digits_digit|done|apply (zlen_digits 10)].
    + rewrite base128_digits by (word_bounds; change (128 ^ Z.of_nat 10) with 1180591620717411303424; lia). by apply wrap_small.
Qed.

Lemma scalar_payload t n obj : object_ok t n obj → payload (scalar_wire_type t) (wire t obj).
Proof.
  intros (Hl & _ & Ht). assert (∀ v, payload PB_WT_VARINT (varint_of v)) as Hv
    by (intros v; exists (digits 10 v); split_and!; [done|apply digits_digit|done]).
  destruct t; cbn [scalar_wire_type wire]; try apply Hv; cbn [payload]; congruence.
Qed.

(** A scalar field, of any type and size of object: its tag and its value are written in the
    format, to any stream that has room, and read back from any stream: [pb_decode_tag] gives the wire
    type and the tag, the decoder the same object, and [pb_skip_field] skips exactly the value. *)
Theorem pb_scalar_field_roundtrip {X} `{!Source X, !SourceOk X} {Y} `{!Sink Y, !SinkOk Y} t n tag obj : object_ok t n obj → 0 < tag < 2 ^ 29 →
  writes (X := Y) (_ ← pb_encode_tag_for_field t tag; PB_ENCODERS t n obj) (tag_of (scalar_wire_type t) tag ++ wire t obj) ∧
  ∀ (s : pb_istream X) bs rest, in_ok s (tag_of (scalar_wire_type t) tag ++ wire t obj ++ bs) rest →
    ∃ s1, pb_decode_tag s = ((Some (scalar_wire_type t, tag), false), s1) ∧
      (∃ s2, PB_DECODERS t n s1 = (Some obj, s2) ∧ in_ok s2 bs rest) ∧
      (∃ s2, pb_skip_field (scalar_wire_type t) s1 = (Some tt, s2) ∧ in_ok s2 bs rest).
Proof.
  intros Hobj Ht. assert (is_wire_type (scalar_wire_type t)) as Hw by (by destruct t). split.
  - apply writes_seq; [by apply writes_tag|by apply writes_scalar].
  - intros s bs rest Hs. destruct (decode_tag_ok _ tag s _ rest Hw Ht Hs) as (s1 & E & Hs1 & _). exists s1. split_and!; [done| |].
    + destruct (consumes_scalar t n obj Hobj s1 bs rest Hs1) as (s2 & E2 & Hs2 & _). by exists s2.
    + destruct (skip_field_ok _ _ (scalar_payload t n obj Hobj) s1 bs rest Hs1) as (s2 & E2 & Hs2 & _). by exists s2.
Qed.

(** A repeated scalar field of a message, which is packed: the objects of the array, one behind the
    other, are written behind a tag and their size on the wire, which a first pass over a counting
    stream determines; reading puts the objects into the array and the count beside it, and leaves the
    rest of the array alone.  Skipping skips exactly the items. *)
Theorem pb_packed_roundtrip {X} `{!Source X, !SourceOk X} {Y} `{!Sink Y, !SinkOk Y} t n tag array_size objs arr :
  Forall (object_ok t n) objs → objs ≠ [] → zlen objs ≤ array_size < 2 ^ 32 → zlen arr = n * array_size → 0 < tag < 2 ^ 29 →
  is_u32 (zlen (payload_of t objs)) →
  let e := tag_of PB_WT_STRING tag ++ framed (payload_of t objs) in
  writes (X := Y) (encode_array t tag n array_size (concat objs) (zlen objs)) e ∧
  ∀ (s : pb_istream X) bs rest, in_ok s (e ++ bs) rest →
    ∃ s1, pb_decode_tag s = ((Some (PB_WT_STRING, tag), false), s1) ∧
      (∃ s2, decode_packed t n array_size arr 0 s1 = (Some (concat objs ++ drop (Z.to_nat (n * zlen objs)) arr, zlen objs), s2) ∧ in_ok s2 bs rest) ∧
      (∃ s2, pb_skip_field PB_WT_STRING s1 = (Some tt, s2) ∧ in_ok s2 bs rest).
Proof.
  intros Hobjs Hne Hsize Harr Ht Hl e. split.
  - apply writes_array; try done; [lia|]. by apply (is_uint_mono 32 64).
  - intros s bs rest Hs. unfold e, framed in Hs. rewrite <- app_assoc in Hs. destruct (decode_tag_ok PB_WT_STRING tag s _ rest I Ht Hs) as (s1 & E & Hs1 & _).
    exists s1. split_and!; [done| |].
    + destruct (consumes_packed t n array_size objs 0 arr Hobjs ltac:(lia) Hsize Harr Hl s1 bs rest Hs1) as (s2 & E2 & Hs2 & _).
      exists s2. rewrite Z.mul_0_r, Z.add_0_l in E2. done.
    + destruct (skip_field_ok PB_WT_STRING (varint_of (zlen (payload_of t objs)) ++ payload_of t objs)) with (s := s1) (bs := bs) (rest := rest) as (s2 & E2 & Hs2 & _).
      * by exists (payload_of t objs).
      * done.
      * by exists s2.
Qed.

(** C23. A nested message, whatever encodes it: the bytes of the message are written behind their
    length, which is what [pb_get_encoded_size] gives, although the message is encoded twice; a reader
    gets a substream with exactly the message, and wherever it stops in it, closing the substream
    continues behind the message. *)
Theorem pb_submessage_roundtrip {X} `{!Source X, !SourceOk X} {Y} `{!Sink Y, !SinkOk Y} (encode : st (pb_ostream Y) unit) e x :
  writes encode e → is_u32 (zlen e) →
  writes (pb_encode_submessage encode) (framed e) ∧ pb_get_encoded_size x encode = Some (zlen e) ∧
  ∀ (s : pb_istream X) bs rest, in_ok s (framed e ++ bs) rest →
    ∃ substream s1, pb_make_string_substream s = (Some substream, s1) ∧ in_ok substream e (bs ++ rest) ∧
      ∀ substream' e', in_ok substream' e' (bs ++ rest) →
        ∃ s2, pb_close_string_substream substream' s1 = (Some tt, s2) ∧ in_ok s2 bs rest ∧ errmsg s2 = errmsg substream'.
Proof.
  intros He Hl. assert (is_u64 (zlen e)) as Hl64 by (by apply (is_uint_mono 32 64)).
  split_and!; [by apply writes_submessage|by apply encoded_size|]. intros s bs rest Hs. unfold framed in Hs. rewrite <- app_assoc in Hs.
  destruct (make_substream_ok s e bs rest Hl Hs) as (sub & s1 & E & Hsub & _ & Hleft & _). exists sub, s1. split_and!; [done..|].
  intros sub' e' Hsub'. apply close_substream_ok with (1 := Hsub'); [done|].
  pose proof (in_bytes _ _ _ Hs) as Hb. by apply bytes_ok_app in Hb as [_ [_ ?]%bytes_ok_app].
Qed.

(** [pb_decode_varint32] does not detect every overflow.  Bits 32 to 34 are dropped when the byte that
    holds them is not the last one; a number beyond 64 bits is not refused, and its position counter
    wraps around, so that the 38th byte is added at bit 3.  The 64-bit decoder reads the first input as
    another number and refuses the second. *)
Theorem pb_varint32_overflow_missed :
  (pb_decode_varint32 (pb_istream_from_buffer [0x80; 0x80; 0x80; 0x80; 0xf0; 0x00] 6)).1 = Some 0 ∧
  (pb_decode_varint (pb_istream_from_buffer [0x80; 0x80; 0x80; 0x80; 0xf0; 0x00] 6)).1 = Some (7 * 2 ^ 32) ∧
  (pb_decode_varint32 (pb_istream_from_buffer (replicate 37 0x80 ++ [1]) 38)).1 = Some 8 ∧
  (pb_decode_varint (pb_istream_from_buffer (replicate 37 0x80 ++ [1]) 38)).1 = None ∧
  (pb_decode_varint32 (pb_istream_from_buffer (varint_of (2 ^ 63 + 2 ^ 31)) 10)).1 = Some (2 ^ 31).
Proof. split_and!; vm_compute; reflexivity. Qed.

(** ** Buffers *)

Lemma buffer_in_ok bs cs : bytes_ok bs → in_ok (pb_istream_from_buffer (bs ++ cs) (zlen bs)) bs cs.
Proof. intros Hb. by split. Qed.
Lemma buffer_out_ok mem n : 0 ≤ n ≤ zlen mem → n < 2 ^ 64 → out_ok (pb_ostream_from_buffer mem n).
Proof. intros Hn Hlt. split; cbn; [done|by word_lia|]. intros _. split; [lia|]. cbn. lia. Qed.

Lemma pb_varint_exact_witness :
  (pb_decode_varint (pb_istream_from_buffer [0x96; 1; 8] 3) = (Some 150, Istream [8] 1 None)) ∧
  ∀ v, is_u64 v → writes (X := bytes * Z) (pb_encode_varint v) (varint_of v) ∧ zlen (varint_of v) ≤ 10 ∧
    starts_varint 10 (varint_of v) ∧ u64 (base128 (digits 10 v)) = v.
Proof.
  split; [reflexivity|]. assert (in_ok (pb_istream_from_buffer [0x96; 1; 8] 3) [0x96; 1; 8] []) as H by (apply (buffer_in_ok [0x96; 1; 8] []); bytes_ok_tac).
  apply (pb_varint_exact (Y := bytes * Z) _ _ _ H).
Defined.
Lemma sint16_ok : object_ok PB_LTYPE_SVARINT 2 [0xfe; 0xff].
Proof. split_and!; [done|bytes_ok_tac|done]. Qed.
Lemma pb_scalar_field_roundtrip_witness :
  tag_of PB_WT_VARINT 5 ++ wire PB_LTYPE_SVARINT [0xfe; 0xff] = [0x28; 3] ∧
  writes (X := bytes * Z) (_ ← pb_encode_tag_for_field PB_LTYPE_SVARINT 5; PB_ENCODERS PB_LTYPE_SVARINT 2 [0xfe; 0xff]) [0x28; 3] ∧
  ∀ (s : pb_istream bytes) bs rest, in_ok s ([0x28; 3] ++ bs) rest →
    ∃ s1, pb_decode_tag s = ((Some (PB_WT_VARINT, 5), false), s1) ∧
      (∃ s2, PB_DECODERS PB_LTYPE_SVARINT 2 s1 = (Some [0xfe; 0xff], s2) ∧ in_ok s2 bs rest) ∧
      (∃ s2, pb_skip_field PB_WT_VARINT s1 = (Some tt, s2) ∧ in_ok s2 bs rest).
Proof. split; [reflexivity|]. apply (pb_scalar_field_roundtrip PB_LTYPE_SVARINT 2 5 [0xfe; 0xff] sint16_ok). done. Defined.
Lemma uint32s_ok : Forall (object_ok PB_LTYPE_UVARINT 4) [[1; 0; 0; 0]; [0x2c; 1; 0; 0]].
Proof. repeat constructor; word_lia. Qed.
Lemma pb_packed_roundtrip_witness :
  payload_of PB_LTYPE_UVARINT [[1; 0; 0; 0]; [0x2c; 1; 0; 0]] = [1; 0xac; 2] ∧
  let e := tag_of PB_WT_STRING 4 ++ framed [1; 0xac; 2] in
  writes (X := bytes * Z) (encode_array PB_LTYPE_UVARINT 4 4 3 [1; 0; 0; 0; 0x2c; 1; 0; 0] 2) e ∧
  ∀ (s : pb_istream bytes) bs rest, in_ok s (e ++ bs) rest →
    ∃ s1, pb_decode_tag s = ((Some (PB_WT_STRING, 4), false), s1) ∧
      (∃ s2, decode_packed PB_LTYPE_UVARINT 4 3 (replicate 12 9) 0 s1 = (Some ([1; 0; 0; 0; 0x2c; 1; 0; 0; 9; 9; 9; 9], 2), s2) ∧ in_ok s2 bs rest) ∧
      (∃ s2, pb_skip_field PB_WT_STRING s1 = (Some tt, s2) ∧ in_ok s2 bs rest).
Proof.
  split; [reflexivity|].
  apply (pb_packed_roundtrip PB_LTYPE_UVARINT 4 4 3 [[1; 0; 0; 0]; [0x2c; 1; 0; 0]] (replicate 12 9) uint32s_ok); done.
Defined.
Lemma pb_submessage_roundtrip_witness :
  writes (X := bytes * Z) (pb_encode_submessage (pb_encode_varint 300)) [2; 0xac; 2] ∧ pb_get_encoded_size ([], 0) (pb_encode_varint 300) = Some 2 ∧
  ∀ (s : pb_istream bytes) bs rest, in_ok s ([2; 0xac; 2] ++ bs) rest →
    ∃ substream s1, pb_make_string_substream s = (Some substream, s1) ∧ in_ok substream [0xac; 2] (bs ++ rest) ∧
      ∀ substream' e', in_ok substream' e' (bs ++ rest) →
        ∃ s2, pb_close_string_substream substream' s1 = (Some tt, s2) ∧ in_ok s2 bs rest ∧ errmsg s2 = errmsg substream'.
Proof. apply (pb_submessage_roundtrip (pb_encode_varint 300) [0xac; 2] ([], 0)); [apply (writes_varint 300); done|done]. Defined.
