(* ===== verification/PbMemory.v ===== *)
(** * Memory and the C heap, for the message decoder of nanopb

    Memory maps the addresses of live objects to bytes; [blocks] has the sizes of the blocks that
    [realloc] gave out.  An access outside live objects, and freeing what is not a block, are
    undefined: a computation that does so has no result.  The allocator is a parameter. *)
From stdpp Require Import strings gmap.
From S2P Require Export Prelude.

Record memory := Memory { cells : gmap Z Z; blocks : gmap Z Z }.

Fixpoint load_cells (n : nat) (a : Z) (m : gmap Z Z) : option bytes :=
  match n with
  | O => Some []
  | S n => b ← m !! a; bs ← load_cells n (a + 1) m; Some (b :: bs)
  end.
Fixpoint store_cells (a : Z) (bs : bytes) (m : gmap Z Z) : option (gmap Z Z) :=
  match bs with
  | [] => Some m
  | b :: bs => match m !! a with None => None | Some _ => store_cells (a + 1) bs (<[a := b]> m) end
  end.
Fixpoint free_cells (n : nat) (a : Z) (m : gmap Z Z) : gmap Z Z :=
  match n with O => m | S n => free_cells n (a + 1) (delete a m) end.

Definition load (n a : Z) (m : memory) : option bytes := load_cells (Z.to_nat n) a (cells m).
Definition store (a : Z) (bs : bytes) (m : memory) : option memory :=
  c ← store_cells a bs (cells m); Some (Memory c (blocks m)).

(** [free]. *)
Definition free (p : Z) (m : memory) : option memory :=
  if p =? 0 then Some m
  else n ← blocks m !! p; Some (Memory (free_cells (Z.to_nat n) p (cells m)) (delete p (blocks m))).

(** [realloc] of a size that is not zero: the allocator refuses, or says where the block goes now and
    what its memory holds.  The bytes of the old block move along. *)
Class Allocator := realloc_to : memory → Z → Z → option (Z * bytes).
Definition realloc `{!Allocator} (p n : Z) (m : memory) : option (Z * memory) :=
  old ← (if p =? 0 then Some [] else k ← blocks m !! p; load k p m);
  match realloc_to m p n with
  | None => Some (0, m)
  | Some (q, junk) =>
      m' ← free p m;
      let kept := take (Z.to_nat n) old in
      Some (q, Memory (map_seqZ q (kept ++ drop (length kept) junk) ∪ cells m') (<[q := n]> (blocks m')))
  end.

(** The documented behaviour of [realloc]: the new block lies in unused memory, or where the old one
    was. *)
Class AllocatorOk `{!Allocator} := realloc_to_ok m p n q junk :
  realloc_to m p n = Some (q, junk) → (p = 0 ∨ is_Some (blocks m !! p)) → 0 < n →
  0 < q ∧ q + n ≤ 2 ^ 64 ∧ zlen junk = n ∧
  ∀ m', free p m = Some m' → blocks m' !! q = None ∧ ∀ a, q ≤ a < q + n → cells m' !! a = None.

(** ** Computations with undefined behaviour *)

(** [None]: undefined behaviour, or no return.  Otherwise as [st]: the C function returned [false],
    or [true] with a result. *)
Definition run (S A : Type) : Type := S → option (option A * S).
#[global] Instance run_ret S : MRet (run S) := λ A a s, Some (Some a, s).
#[global] Instance run_bind S : MBind (run S) := λ A B f m s,
  match m s with
  | Some (Some a, s') => f a s'
  | Some (None, s') => Some (None, s')
  | None => None
  end.
Definition undefined {S A} : run S A := λ _, None.
Definition run_fail {S A} : run S A := λ s, Some (None, s).
Definition run_get {S} : run S S := λ s, Some (Some s, s).
(** [if (f()) ... else ...]: the status as a value. *)
Definition run_status {S} (m : run S unit) : run S bool := λ s,
  match m s with
  | Some (Some _, s') => Some (Some true, s')
  | Some (None, s') => Some (Some false, s')
  | None => None
  end.
Definition run_return {S} (status : bool) : run S unit := if status then mret tt else run_fail.
