(* ===== verification/PbTable.v ===== *)
(** * Message tables of nanopb and the walk over their fields ([nanopb/pb.h], [nanopb/pb_common.c])

    Generated code describes a message type by an array of [pb_field_t], ended by an entry with tag
    zero.  A table is here the list of the entries before that one.  [Tables] gives the arrays that
    entries point at: a type may contain itself, through pointers.  Addresses are numbers; a pointer
    has eight bytes on the 64-bit targets of the build, and [pb_size_t] four ([PB_FIELD_32BIT]). *)
From S2P Require Export PbStream PbMemory.

(** ** Entries *)

Inductive pb_ltype := Scalar (t : ltype) | PB_LTYPE_BYTES | PB_LTYPE_STRING | PB_LTYPE_SUBMESSAGE | PB_LTYPE_EXTENSION
  | PB_LTYPE_FIXED_LENGTH_BYTES | Invalid_ltype (n : Z).
Inductive pb_htype := PB_HTYPE_REQUIRED | PB_HTYPE_OPTIONAL | PB_HTYPE_REPEATED | PB_HTYPE_ONEOF.
Inductive pb_atype := PB_ATYPE_STATIC | PB_ATYPE_POINTER | PB_ATYPE_CALLBACK | Invalid_atype.
#[export] Instance ltype_dec : EqDecision ltype := ltac:(solve_decision).
#[export] Instance pb_ltype_dec : EqDecision pb_ltype := ltac:(solve_decision).
#[export] Instance pb_htype_dec : EqDecision pb_htype := ltac:(solve_decision).
#[export] Instance pb_atype_dec : EqDecision pb_atype := ltac:(solve_decision).

(** The three parts of a type byte; the scalar types are the packable ones. *)
Definition PB_LTYPE (x : Z) : pb_ltype :=
  let n := x .& 0x0F in
  if n =? 0 then Scalar PB_LTYPE_BOOL else if n =? 1 then Scalar PB_LTYPE_VARINT else if n =? 2 then Scalar PB_LTYPE_UVARINT
  else if n =? 3 then Scalar PB_LTYPE_SVARINT else if n =? 4 then Scalar PB_LTYPE_FIXED32 else if n =? 5 then Scalar PB_LTYPE_FIXED64
  else if n =? 6 then PB_LTYPE_BYTES else if n =? 7 then PB_LTYPE_STRING else if n =? 8 then PB_LTYPE_SUBMESSAGE
  else if n =? 9 then PB_LTYPE_EXTENSION else if n =? 10 then PB_LTYPE_FIXED_LENGTH_BYTES else Invalid_ltype n.
Definition PB_HTYPE (x : Z) : pb_htype :=
  let n := x .& 0x30 in
  if n =? 0 then PB_HTYPE_REQUIRED else if n =? 0x10 then PB_HTYPE_OPTIONAL else if n =? 0x20 then PB_HTYPE_REPEATED else PB_HTYPE_ONEOF.
Definition PB_ATYPE (x : Z) : pb_atype :=
  let n := x .& 0xC0 in
  if n =? 0 then PB_ATYPE_STATIC else if n =? 0x80 then PB_ATYPE_POINTER else if n =? 0x40 then PB_ATYPE_CALLBACK else Invalid_atype.
Definition packable (t : pb_ltype) : bool := match t with Scalar _ => true | _ => false end.

(** What [ptr] points at: nothing, the table of a submessage, or the bytes of a default value. *)
Inductive pb_ptr := Null | Submsg (id : Z) | Default (value : bytes).
Record pb_field := Field {
  tag : Z; type : Z; data_offset : Z; size_offset : Z; data_size : Z; array_size : Z; ptr : pb_ptr }.
#[export] Instance pb_ptr_dec : EqDecision pb_ptr := ltac:(solve_decision).
#[export] Instance pb_field_dec : EqDecision pb_field := ltac:(solve_decision).
Abbreviation pb_fields := (list pb_field).
Definition PB_LAST_FIELD : pb_field := Field 0 0 0 0 0 0 Null.
Class Tables := fields_of : Z → pb_fields.
(** The types of extensions, constants of the program: two functions of the user, or zero, and an entry. *)
Record pb_extension_type := Extension_type { ext_decode : Z; ext_encode : Z; ext_arg : pb_field }.
Class Extensions := extension_type : Z → pb_extension_type.

Definition PB_SIZE_MAX : Z := 2 ^ 32 - 1.
Definition sizeof_ptr : Z := 8.
Definition sizeof_size : Z := 4.

(** ** The iterator *)

(** Where a count is kept: in the message, or for an array of fixed length in a variable of the decoder. *)
Inductive size_place := In_message (a : Z) | In_decoder.
#[export] Instance size_place_dec : EqDecision size_place := ltac:(solve_decision).
Record pb_field_iter := Iter {
  start : pb_fields; pos : nat; required_field_index : Z; dest_struct : Z; pData : Z; pSize : size_place }.
Definition field_at (it : pb_field_iter) : pb_field := nth (pos it) (start it) PB_LAST_FIELD.

Definition pb_field_iter_begin (fields : pb_fields) (dest_struct : Z) : bool * pb_field_iter :=
  let f := nth 0 fields PB_LAST_FIELD in
  let pData := if dest_struct =? 0 then 0 else dest_struct + data_offset f in
  let pSize := if dest_struct =? 0 then 0 else pData + size_offset f in
  (negb (tag f =? 0), Iter fields 0 0 dest_struct pData (In_message pSize)).

(** How far the iterator moves past a field, before the gap in front of the next one. *)
Definition field_extent (f : pb_field) : Z :=
  if decide (PB_ATYPE (type f) = PB_ATYPE_STATIC ∧ PB_HTYPE (type f) = PB_HTYPE_REPEATED) then data_size f * array_size f
  else if decide (PB_ATYPE (type f) = PB_ATYPE_POINTER) then sizeof_ptr else data_size f.
Definition same_union (prev f : pb_field) : bool :=
  bool_decide (PB_HTYPE (type prev) = PB_HTYPE_ONEOF ∧ PB_HTYPE (type f) = PB_HTYPE_ONEOF ∧ data_offset f = PB_SIZE_MAX).
Definition pb_field_iter_next (it : pb_field_iter) : bool * pb_field_iter :=
  let prev := field_at it in
  if tag prev =? 0 then (false, it)
  else
    let f := nth (S (pos it)) (start it) PB_LAST_FIELD in
    if tag f =? 0 then (false, (pb_field_iter_begin (start it) (dest_struct it)).2)
    else if same_union prev f then
      (true, Iter (start it) (S (pos it)) (required_field_index it) (dest_struct it) (pData it) (pSize it))
    else
      let required := if decide (PB_HTYPE (type prev) = PB_HTYPE_REQUIRED) then u32 (required_field_index it + 1) else required_field_index it in
      let pData := pData it + field_extent prev + data_offset f in
      (true, Iter (start it) (S (pos it)) required (dest_struct it) pData (In_message (pData + size_offset f))).

(** [do { if (...) return true; pb_field_iter_next(iter); } while (iter->pos != start); return false;] *)
Fixpoint search_loop (fuel : nat) (p : pb_field → bool) (first : nat) (it : pb_field_iter) : bool * pb_field_iter :=
  match fuel with
  | O => (false, it)
  | S fuel =>
      if p (field_at it) then (true, it)
      else
        let it := (pb_field_iter_next it).2 in
        if decide (pos it = first) then (false, it) else search_loop fuel p first it
  end.
Definition search (p : pb_field → bool) (it : pb_field_iter) : bool * pb_field_iter := search_loop (S (length (start it))) p (pos it) it.
Definition has_tag (t : Z) (f : pb_field) : bool := (tag f =? t) && negb (bool_decide (PB_LTYPE (type f) = PB_LTYPE_EXTENSION)).
Definition pb_field_iter_find (it : pb_field_iter) (tag : Z) : bool * pb_field_iter := search (has_tag tag) it.
(** Of the decoder. *)
Definition is_extension (f : pb_field) : bool := bool_decide (PB_LTYPE (type f) = PB_LTYPE_EXTENSION).
Definition find_extension_field (it : pb_field_iter) : bool * pb_field_iter := search is_extension it.

(** [do { f(&iter); } while (pb_field_iter_next(&iter));] *)
Fixpoint fields_loop {S} (fuel : nat) (f : pb_field_iter → run S unit) (it : pb_field_iter) : run S unit :=
  match fuel with
  | O => undefined
  | S fuel =>
      _ ← f it;
      let '(more, it) := pb_field_iter_next it in
      if more : bool then fields_loop fuel f it else mret tt
  end.
Definition for_fields {S} (f : pb_field_iter → run S unit) (it : pb_field_iter) : run S unit := fields_loop (length (start it)) f it.


(** ** Where the fields are *)

(** Offsets of the data and of the count of every field, and how many required fields precede it. *)
Record slot := Slot { sl_field : pb_field; sl_data : Z; sl_size : Z; sl_required : Z }.
Definition next_slot (prev : slot) (f : pb_field) : slot :=
  let p := sl_field prev in
  if same_union p f then Slot f (sl_data prev) (sl_size prev) (sl_required prev)
  else
    let d := sl_data prev + field_extent p + data_offset f in
    Slot f d (d + size_offset f) (if decide (PB_HTYPE (type p) = PB_HTYPE_REQUIRED) then u32 (sl_required prev + 1) else sl_required prev).
Fixpoint slots_from (prev : slot) (fs : pb_fields) : list slot :=
  match fs with [] => [] | f :: fs => next_slot prev f :: slots_from (next_slot prev f) fs end.
Definition first_slot (f : pb_field) : slot := Slot f (data_offset f) (data_offset f + size_offset f) 0.
Definition slots (fs : pb_fields) : list slot :=
  match fs with [] => [] | f :: fs => first_slot f :: slots_from (first_slot f) fs end.

(** The iterator at the [j]-th field of a message at [dest]. *)
Definition at_slot (fs : pb_fields) (dest : Z) (j : nat) (sl : slot) : pb_field_iter :=
  Iter fs j (sl_required sl) dest (dest + sl_data sl) (In_message (dest + sl_size sl)).
Definition table_ok (fs : pb_fields) : Prop := Forall (λ f, tag f ≠ 0) fs.

Lemma slots_from_lookup prev fs j :
  slots_from prev fs !! j = match j with O => next_slot prev <$> fs !! O | S k => prev' ← slots_from prev fs !! k; next_slot prev' <$> fs !! j end.
Proof.
  revert prev fs. induction j as [|k IH]; intros prev [|f fs]; [done|done|done|].
  cbn [slots_from lookup list_lookup]. rewrite IH. destruct k; cbn; [by destruct fs|]. done.
Qed.
Lemma slots_lookup_S fs j : slots fs !! S j = prev ← slots fs !! j; next_slot prev <$> fs !! S j.
Proof.
  destruct fs as [|f fs]; [done|]. cbn [slots lookup list_lookup]. rewrite slots_from_lookup. by destruct j.
Qed.
Lemma length_slots fs : length (slots fs) = length fs.
Proof.
  destruct fs as [|f fs]; [done|]. cbn [slots length]. f_equal. generalize (first_slot f). induction fs as [|g fs IH]; intros p; cbn; [done|by rewrite IH].
Qed.
Lemma next_slot_field prev f : sl_field (next_slot prev f) = f.
Proof. unfold next_slot. by destruct (same_union _ _). Qed.
Lemma slots_field fs j sl : slots fs !! j = Some sl → fs !! j = Some (sl_field sl).
Proof.
  destruct j as [|j]; [destruct fs; [done|]; intros [= <-]; done|].
  rewrite slots_lookup_S. intros E. apply bind_Some in E as (p & _ & E). apply fmap_Some in E as (f & E & ->). by rewrite next_slot_field.
Qed.
Lemma slots_are_fields fs : sl_field <$> slots fs = fs.
Proof.
  apply list_eq. intros j. rewrite list_lookup_fmap. destruct (slots fs !! j) as [sl|] eqn:E; cbn; [by rewrite (slots_field _ _ _ E)|].
  symmetry. apply lookup_ge_None. apply lookup_ge_None in E. by rewrite length_slots in E.
Qed.
Lemma nth_field fs j sl : slots fs !! j = Some sl → nth j fs PB_LAST_FIELD = sl_field sl.
Proof. intros E. apply nth_lookup_Some. by apply slots_field. Qed.
Lemma field_at_iter fs p j sl : slots fs !! j = Some sl → field_at (at_slot fs p j sl) = sl_field sl.
Proof. intros E. unfold field_at. cbn. by apply nth_field. Qed.
Lemma nth_no_field fs j : slots fs !! j = None → nth j fs PB_LAST_FIELD = PB_LAST_FIELD.
Proof. intros E. apply nth_overflow. apply lookup_ge_None in E. by rewrite length_slots in E. Qed.

Section Walk.
Context (fs : pb_fields) (dest : Z).
Hypothesis ok : table_ok fs.
Hypothesis dest_ok : dest ≠ 0.

Lemma slot_tag j sl : slots fs !! j = Some sl → tag (sl_field sl) ≠ 0.
Proof using ok. intros E. exact (Forall_lookup_1 _ _ _ _ ok (slots_field _ _ _ E)). Qed.
Lemma iter_begin_exact : pb_field_iter_begin fs dest =
  match slots fs with
  | [] => (false, Iter fs 0 0 dest dest (In_message dest))
  | sl :: _ => (true, at_slot fs dest 0 sl)
  end.
Proof using ok dest_ok.
  unfold pb_field_iter_begin. destruct (Z.eqb_spec dest 0); [done|]. destruct fs as [|f fs']; cbn [nth slots].
  - cbn. by rewrite !Z.add_0_r.
  - assert (tag f ≠ 0) as Ht by (by inversion ok). apply Z.eqb_neq in Ht. rewrite Ht. unfold at_slot. cbn. by rewrite Z.add_assoc.
Qed.

(** [pSize] may be the decoder's own counter; moving on forgets it. *)
Definition stands (j : nat) (it : pb_field_iter) : Prop := ∃ sl, slots fs !! j = Some sl ∧
  (it = at_slot fs dest j sl ∨
   it = Iter fs j (sl_required sl) dest (dest + sl_data sl) In_decoder ∧ PB_HTYPE (type (sl_field sl)) = PB_HTYPE_REPEATED).
Lemma stands_at j sl : slots fs !! j = Some sl → stands j (at_slot fs dest j sl).
Proof. intros E. exists sl. auto. Qed.
Lemma stands_lookup j it : stands j it → start it = fs ∧ pos it = j ∧ dest_struct it = dest ∧
  ∃ sl, slots fs !! j = Some sl ∧ field_at it = sl_field sl ∧ pData it = dest + sl_data sl.
Proof.
  intros (sl & E & H). assert (start it = fs ∧ pos it = j ∧ dest_struct it = dest ∧ pData it = dest + sl_data sl) as (H1 & H2 & H3 & H4)
    by (destruct H as [->|[-> _]]; done).
  split_and!; try done. exists sl. split_and!; try done. unfold field_at. rewrite H1, H2. by apply nth_field.
Qed.

Definition succ_slot (j : nat) : bool * pb_field_iter :=
  match slots fs !! S j, slots fs !! O with
  | Some sl, _ => (true, at_slot fs dest (S j) sl)
  | None, Some sl => (false, at_slot fs dest 0 sl)
  | None, None => (false, Iter fs 0 0 dest dest (In_message dest))
  end.
Lemma iter_next_exact j it : stands j it → pb_field_iter_next it = succ_slot j.
Proof using ok dest_ok.
  intros Hs. pose proof (stands_lookup _ _ Hs) as (H1 & H2 & H3 & sl & E & H4 & H5).
  unfold pb_field_iter_next, succ_slot. rewrite H4. pose proof (slot_tag _ _ E) as Ht. apply Z.eqb_neq in Ht. rewrite Ht, H1, H2, H3.
  destruct (slots fs !! S j) as [sl'|] eqn:E'.
  - rewrite (nth_field _ _ _ E'). pose proof (slot_tag _ _ E') as Ht'. apply Z.eqb_neq in Ht'. rewrite Ht'.
    rewrite slots_lookup_S, E in E'. cbn in E'. apply fmap_Some in E' as (f & _ & ->). rewrite next_slot_field.
    destruct Hs as (? & E2 & Hs). rewrite E2 in E. injection E as ->. unfold next_slot, at_slot.
    destruct (same_union (sl_field sl) f) eqn:Hu; cbn [sl_data sl_size sl_required].
    + destruct Hs as [->|[-> Hr]]; [done|]. apply bool_decide_eq_true in Hu as (Hu & _). congruence.
    + destruct Hs as [->|[-> _]]; cbn; by rewrite !Z.add_assoc.
  - rewrite (nth_no_field _ _ E'). change (tag PB_LAST_FIELD =? 0) with true. cbv iota. rewrite iter_begin_exact. destruct fs as [|f fs']; done.
Qed.

(** The positions from [k] on, around the end of the table. *)
Definition succ (k : nat) : nat := if decide (S k < length fs)%nat then S k else O.
Fixpoint cycle (n k : nat) : list nat := match n with O => [] | S n => k :: cycle n (succ k) end.
(** The first one of all positions from [j] on at which [p] holds. *)
Definition first_at (p : pb_field → bool) (j : nat) : option nat :=
  snd <$> list_find (λ k, p (nth k fs PB_LAST_FIELD) = true) (cycle (length fs) j).

Lemma iter_succ j : (j < length fs)%nat → ∀ i, (i ≤ length fs)%nat →
  Nat.iter i succ j = if decide (j + i < length fs)%nat then (j + i)%nat else (j + i - length fs)%nat.
Proof.
  intros Hj. induction i as [|i IH]; intros Hi; [change (Nat.iter 0 succ j) with j; rewrite decide_True by lia; lia|].
  change (Nat.iter (S i) succ j) with (succ (Nat.iter i succ j)). rewrite IH by lia. unfold succ. repeat case_decide; lia.
Qed.
Lemma stands_lt j it : stands j it → (j < length fs)%nat.
Proof. intros (sl & E & _). apply lookup_lt_Some in E. by rewrite length_slots in E. Qed.
Lemma succ_stands j : (j < length fs)%nat → stands (succ j) (succ_slot j).2.
Proof using.
  intros Hj. unfold succ_slot, succ. pose proof (length_slots fs) as Hl. case_decide as Hd.
  - destruct (lookup_lt_is_Some_2 (slots fs) (S j)) as [sl E]; [lia|]. rewrite E. by apply stands_at.
  - rewrite (lookup_ge_None_2 (slots fs) (S j)) by lia. destruct (lookup_lt_is_Some_2 (slots fs) 0) as [sl E]; [lia|]. rewrite E. by apply stands_at.
Qed.

(** A search that starts at the [j]-th field. *)
Definition search_result (p : pb_field → bool) (j : nat) (it : pb_field_iter) (r : bool * pb_field_iter) : Prop :=
  match first_at p j with
  | Some k => r.1 = true ∧ stands k r.2 ∧ (k = j → r.2 = it) ∧ (k ≠ j → ∃ sl, r.2 = at_slot fs dest k sl)
  | None => r.1 = false ∧ ∃ sl, slots fs !! j = Some sl ∧ r.2 = at_slot fs dest j sl
  end.
Lemma search_loop_exact p j : (j < length fs)%nat → ∀ m i it fuel, (m + i = length fs)%nat → (0 < m ≤ fuel)%nat →
  let k := Nat.iter i succ j in stands k it → (0 < i → ∃ sl, it = at_slot fs dest k sl)%nat →
  match snd <$> list_find (λ k, p (nth k fs PB_LAST_FIELD) = true) (cycle m k) with
  | Some k' => ∃ it', search_loop fuel p j it = (true, it') ∧ stands k' it' ∧ (k' = k → it' = it) ∧ (k' ≠ k → ∃ sl, it' = at_slot fs dest k' sl)
  | None => ∃ sl, slots fs !! j = Some sl ∧ search_loop fuel p j it = (false, at_slot fs dest j sl)
  end.
Proof using ok dest_ok.
  intros Hj. induction m as [|m IH]; intros i it fuel Hm Hf k Hs Hi; [lia|]. destruct fuel as [|fuel]; [lia|].
  cbn [cycle list_find search_loop]. pose proof (stands_lookup _ _ Hs) as (_ & _ & _ & sl & E & Hat & _).
  rewrite (nth_field _ _ _ E), Hat. case_decide as Hp.
  { rewrite Hp. cbn. exists it. split_and!; try done. }
  apply not_true_is_false in Hp. rewrite Hp, (iter_next_exact k it Hs). 
  pose proof (succ_stands k (stands_lt _ _ Hs)) as Hs'. pose proof (stands_lookup _ _ Hs') as (_ & Hpos & _ & _). rewrite Hpos.
  assert (succ k = Nat.iter (S i) succ j) as Hk by done.
  assert (∃ sl, (succ_slot k).2 = at_slot fs dest (succ k) sl ∧ slots fs !! succ k = Some sl) as (sl' & Ex & El).
  { destruct Hs' as (sl' & E' & _). unfold succ_slot, succ in *. pose proof (length_slots fs). case_decide as Hd.
    - rewrite E'. by exists sl'.
    - rewrite (lookup_ge_None_2 (slots fs) (S k)) by lia. rewrite E'. by exists sl'. }
  destruct m as [|m].
  - cbn [cycle list_find]. cbn. assert (succ k = j) as Hkj by (rewrite Hk, iter_succ by lia; case_decide; lia).
    rewrite decide_True by done. exists sl'. split; [congruence|]. by rewrite Ex, Hkj.
  - assert (succ k ≠ j) as Hkj by (rewrite Hk, iter_succ by lia; case_decide; lia). rewrite decide_False by done.
    specialize (IH (S i) (succ_slot k).2 fuel ltac:(lia) ltac:(lia) Hs' ltac:(eauto)). change (Nat.iter (S i) succ j) with (succ k) in IH.
    destruct (list_find _ (cycle (S m) (succ k))) as [[x y]|] eqn:Ef; cbn in IH |- *; [|exact IH].
    destruct IH as (it' & E1 & E2 & E3 & E4). exists it'. split_and!; [done|done| |].
    + intros ->. destruct (decide (k = succ k)) as [Ek|Ek]; [|destruct (E4 Ek) as [sl2 ->]; exfalso].
      * exfalso. clearbody k. unfold succ in Ek. case_decide; lia.
      * apply list_find_Some in Ef as (Ex2 & Hp2 & _). rewrite (nth_field _ _ _ E) in Hp2. congruence.
    + intros Hne. destruct (decide (y = succ k)) as [->|Ek]; [rewrite (E3 eq_refl); eauto|by apply E4].
Qed.
Lemma search_exact p j it : stands j it → search_result p j it (search p it).
Proof using ok dest_ok.
  intros Hs. pose proof (stands_lt _ _ Hs) as Hj. pose proof (stands_lookup _ _ Hs) as (H1 & H2 & _).
  pose proof (search_loop_exact p j Hj (length fs) 0 it (S (length fs)) ltac:(lia) ltac:(lia)) as H. change (Nat.iter 0 succ j) with j in H.
  specialize (H Hs ltac:(lia)). unfold search_result, first_at, search. rewrite H1, H2.
  destruct (snd <$> list_find _ _).
  - by destruct H as (it' & -> & ?).
  - destruct H as (sl & ? & ->). cbn. eauto.
Qed.
End Walk.


(** The walk over all fields visits each of them once, in the order of the table. *)
Lemma run_bind_ext {S A B} (m : run S A) (f g : A → run S B) s : (∀ a s, f a s = g a s) → (m ≫= f) s = (m ≫= g) s.
Proof. intros E. cbv [mbind run_bind]. destruct (m s) as [[[a|] s']|]; [apply E|done|done]. Qed.
Lemma run_bind_unit {S} (m : run S unit) s : (_ ← m; mret tt) s = m s.
Proof. cbv [mbind run_bind mret run_ret]. by destruct (m s) as [[[[]|] s']|]. Qed.
Fixpoint visit {S} (f : pb_field_iter → run S unit) (fs : pb_fields) (dest : Z) (j : nat) (l : list slot) : run S unit :=
  match l with [] => mret tt | sl :: l => _ ← f (at_slot fs dest j sl); visit f fs dest (Datatypes.S j) l end.

Section Walk.
Context (fs : pb_fields) (dest : Z).
Hypothesis ok : table_ok fs.
Hypothesis dest_ok : dest ≠ 0.

Lemma fields_loop_exact {S} (f : pb_field_iter → run S unit) l : ∀ j sl fuel s, drop j (slots fs) = sl :: l → (length l < fuel)%nat →
  fields_loop fuel f (at_slot fs dest j sl) s = visit f fs dest j (sl :: l) s.
Proof using ok dest_ok.
  induction l as [|sl' l IH]; intros j sl fuel s Hd Hf; (destruct fuel as [|fuel]; [cbn in Hf; lia|]); cbn [fields_loop visit].
  all: assert (slots fs !! j = Some sl) as E by (rewrite <- (Nat.add_0_r j), <- lookup_drop, Hd; done).
  all: rewrite (iter_next_exact fs dest ok dest_ok j _ (stands_at fs dest j sl E)); unfold succ_slot.
  all: assert (drop (j + 1) (slots fs) = match drop j (slots fs) with [] => [] | _ :: l => l end) as Hd' by (rewrite <- drop_drop, Hd; done).
  all: rewrite Hd, Nat.add_1_r in Hd'.
  - assert (slots fs !! Datatypes.S j = None) as -> by (rewrite <- (Nat.add_0_r (Datatypes.S j)), <- lookup_drop, Hd'; done).
    destruct (slots fs !! 0%nat); done.
  - assert (slots fs !! Datatypes.S j = Some sl') as -> by (rewrite <- (Nat.add_0_r (Datatypes.S j)), <- lookup_drop, Hd'; done).
    apply run_bind_ext. intros _ s'. by rewrite (IH (Datatypes.S j) sl' fuel s' Hd') by (cbn in Hf; lia).
Qed.
Lemma for_fields_exact {S} (f : pb_field_iter → run S unit) sl l s : slots fs = sl :: l →
  for_fields f (at_slot fs dest 0 sl) s = visit f fs dest 0 (slots fs) s.
Proof using ok dest_ok.
  intros E. unfold for_fields. cbn [start at_slot]. rewrite E. apply fields_loop_exact; [done|].
  rewrite <- length_slots, E. cbn. lia.
Qed.
End Walk.

(** What a search of a table finds, starting at any position. *)
Definition finds (fs : pb_fields) (dest : Z) (p : pb_field → bool) (j : nat) (r : bool * pb_field_iter) : Prop :=
  match first_at fs p j with
  | Some k => ∃ sl, slots fs !! k = Some sl ∧ p (sl_field sl) = true ∧ r = (true, at_slot fs dest k sl)
  | None => (∀ f, f ∈ fs → p f = false) ∧ ∃ sl, slots fs !! j = Some sl ∧ r = (false, at_slot fs dest j sl)
  end.

Lemma cycle_elem fs m k i : (i < m)%nat → Nat.iter i (succ fs) k ∈ cycle fs m k.
Proof.
  revert k i. induction m as [|m IH]; intros k i Hi; [lia|]. cbn [cycle]. destruct i as [|i]; [by left|right].
  rewrite Nat.iter_succ_r. apply IH. lia.
Qed.
Lemma cycle_all fs j k : (j < length fs)%nat → (k < length fs)%nat → k ∈ cycle fs (length fs) j.
Proof.
  intros Hj Hk. set (i := if decide (j ≤ k)%nat then (k - j)%nat else (k + length fs - j)%nat).
  assert (i < length fs)%nat as Hi by (unfold i; case_decide; lia).
  replace k with (Nat.iter i (succ fs) j); [by apply cycle_elem|]. rewrite iter_succ by lia. unfold i. repeat case_decide; lia.
Qed.
Lemma search_finds fs dest p j sl : table_ok fs → dest ≠ 0 → slots fs !! j = Some sl → finds fs dest p j (search p (at_slot fs dest j sl)).
Proof.
  intros Hok Hd E. pose proof (search_exact fs dest Hok Hd p j _ (stands_at fs dest j sl E)) as H. unfold search_result, finds in *.
  pose proof (lookup_lt_Some _ _ _ E) as Hj. rewrite length_slots in Hj.
  destruct (first_at fs p j) as [k|] eqn:Ek.
  - destruct H as (H1 & (sl' & E' & H2) & H3 & H4). exists sl'. unfold first_at in Ek. apply fmap_Some in Ek as ([? k'] & Ef & ->). cbn [snd] in *.
    apply list_find_Some in Ef as (_ & Hp & _). rewrite (nth_field _ _ _ E') in Hp. split_and!; [done|done|].
    rewrite (surjective_pairing (search _ _)). f_equal; [done|]. destruct (decide (k' = j)) as [->|Hn].
    + rewrite H3 by done. congruence.
    + destruct (H4 Hn) as [sl2 E2]. destruct H2 as [H2|[H2 _]]; [done|]. rewrite E2 in H2. discriminate H2.
  - destruct H as (H1 & sl' & E' & H2). split; [|exists sl'; rewrite (surjective_pairing (search _ _)); split; [done|congruence]].
    intros f Hf. apply list_elem_of_lookup in Hf as [k Ek']. unfold first_at in Ek. apply fmap_None, list_find_None in Ek.
    assert (k < length fs)%nat as Hk by (by eapply lookup_lt_Some). apply Forall_forall with (x := k) in Ek; [|by apply cycle_all].
    apply not_true_is_false. intros Hp. apply Ek. by rewrite (nth_lookup_Some _ _ _ _ Ek').
Qed.

(** ** The structures that tables describe

    The members of a C structure, as the [PB_FIELD] macros of [pb.h] see them: where [offsetof] puts a member, and
    what it is: one item, an array of [m_count] items, a pointer to items, or a callback.  The table says none of that
    directly: it has the gaps between members, and the iterator has to know how much room each takes. *)
Record member := Member {
  m_tag : Z; m_rules : pb_htype; m_allocation : pb_atype; m_ltype : Z;
  m_offset : Z;    (** [offsetof] *)
  m_item : Z;      (** [sizeof] one item: the member itself, [m[0]] of an array or a pointer *)
  m_count : Z;     (** the items of an array *)
  m_size_at : Z;   (** where the flag, the count or the choice of the union is, or the member itself when it has none *)
  m_in_union : bool;   (** another member of the union that the member before it is in *)
  m_ptr : pb_ptr }.

(** [sizeof] the member. *)
Definition pb_membersize (m : member) : Z :=
  match m_allocation m, m_rules m with
  | PB_ATYPE_POINTER, _ => sizeof_ptr
  | PB_ATYPE_STATIC, PB_HTYPE_REPEATED => m_item m * m_count m
  | _, _ => m_item m
  end.
Definition type_byte (a : pb_atype) (h : pb_htype) (l : Z) : Z :=
  match a with PB_ATYPE_POINTER => 0x80 | PB_ATYPE_CALLBACK => 0x40 | _ => 0 end .|
  match h with PB_HTYPE_REQUIRED => 0 | PB_HTYPE_OPTIONAL => 0x10 | PB_HTYPE_REPEATED => 0x20 | PB_HTYPE_ONEOF => 0x30 end .| l.
(** An entry, behind the member [prev]: [PB_DATAOFFSET_FIRST], [_UNION] and [_OTHER]. *)
Definition PB_FIELD (prev : option member) (m : member) : pb_field :=
  Field (m_tag m) (type_byte (m_allocation m) (m_rules m) (m_ltype m))
    (match prev with
     | None => m_offset m
     | Some p => if m_in_union m then PB_SIZE_MAX else m_offset m - m_offset p - pb_membersize p
     end)
    (m_size_at m - m_offset m) (m_item m)
    (match m_allocation m, m_rules m with PB_ATYPE_STATIC, PB_HTYPE_REPEATED => m_count m | _, _ => 0 end) (m_ptr m).
Fixpoint table_after (prev : member) (ms : list member) : pb_fields :=
  match ms with [] => [] | m :: ms => PB_FIELD (Some prev) m :: table_after m ms end.
Definition table_of (ms : list member) : pb_fields :=
  match ms with [] => [] | m :: ms => PB_FIELD None m :: table_after m ms end.

(** Members in the order of their addresses; those of one union share an address. *)
Definition member_ok (m : member) : Prop := m_tag m ≠ 0 ∧ 0 ≤ m_ltype m < 16 ∧ m_allocation m ≠ Invalid_atype.
Definition follows (p m : member) : Prop :=
  if m_in_union m then m_rules p = PB_HTYPE_ONEOF ∧ m_rules m = PB_HTYPE_ONEOF ∧ m_offset m = m_offset p ∧ m_size_at m = m_size_at p
  else m_offset p + pb_membersize p ≤ m_offset m < m_offset p + pb_membersize p + PB_SIZE_MAX.
Definition struct_ok (ms : list member) : Prop :=
  Forall member_ok ms ∧ ∀ j p m, ms !! j = Some p → ms !! S j = Some m → follows p m.

Definition members_required (ms : list member) (j : nat) : Z :=
  Z.of_nat (length (filter (λ m, m_rules m = PB_HTYPE_REQUIRED) (take j ms))).
(** The iterator at the member [m], the [j]-th one of a structure at [dest]. *)
Definition at_member (ms : list member) (dest : Z) (j : nat) (m : member) : pb_field_iter :=
  Iter (table_of ms) j (u32 (members_required ms j)) dest (dest + m_offset m) (In_message (dest + m_size_at m)).
Fixpoint visit_members {S} (f : pb_field_iter → run S unit) (ms : list member) (dest : Z) (j : nat) (l : list member) : run S unit :=
  match l with [] => mret tt | m :: l => _ ← f (at_member ms dest j m); visit_members f ms dest (Datatypes.S j) l end.

(** How far [k] is from [j] for a walk that goes around the end of the table. *)
Definition distance (n j k : nat) : nat := if decide (j ≤ k)%nat then (k - j)%nat else (k + n - j)%nat.
(** [r] stands at the first member with [P] from the [j]-th one on, or at [j] when no member has it. *)
Definition finds_member (ms : list member) (dest : Z) (P : member → Prop) (j : nat) (r : bool * pb_field_iter) : Prop :=
  (∃ k m, ms !! k = Some m ∧ P m ∧ r = (true, at_member ms dest k m) ∧
    ∀ k' m', ms !! k' = Some m' → (distance (length ms) j k' < distance (length ms) j k)%nat → ¬ P m') ∨
  (∃ m, ms !! j = Some m ∧ r = (false, at_member ms dest j m) ∧ Forall (λ m, ¬ P m) ms).

Lemma type_byte_parts m : member_ok m → ∀ prev, let f := PB_FIELD prev m in
  PB_HTYPE (type f) = m_rules m ∧ PB_ATYPE (type f) = m_allocation m ∧ (PB_LTYPE (type f) = PB_LTYPE_EXTENSION ↔ m_ltype m = 9).
Proof.
  intros (_ & Hl & Ha) prev. cbn [PB_FIELD type].
  assert (m_ltype m ∈ seqZ 0 16) as Hin by (apply elem_of_seqZ; lia). clear Hl. revert Hin.
  generalize (m_ltype m). intros l Hin. change (seqZ 0 16) with [0;1;2;3;4;5;6;7;8;9;10;11;12;13;14;15] in Hin.
  repeat (apply elem_of_cons in Hin as [->|Hin]); [..|by apply elem_of_nil in Hin];
    destruct (m_allocation m), (m_rules m); try done; by repeat split.
Qed.

Lemma table_after_lookup ms : ∀ p j, table_after p ms !! j = m ← ms !! j; Some (PB_FIELD ((p :: ms) !! j) m).
Proof. induction ms as [|m ms IH]; intros p [|j]; try done. cbn [table_after]. apply IH. Qed.
Lemma table_of_lookup ms j : table_of ms !! j =
  m ← ms !! j; Some (PB_FIELD (match j with O => None | S j => ms !! j end) m).
Proof. destruct ms as [|m ms], j as [|j]; try done. exact (table_after_lookup ms m j). Qed.
Lemma table_of_length ms : length (table_of ms) = length ms.
Proof. destruct ms as [|m ms]; [done|]. cbn. f_equal. revert m. induction ms as [|m' ms IH]; intros m; [done|]. cbn. by rewrite IH. Qed.
Lemma table_of_ok ms : struct_ok ms → table_ok (table_of ms).
Proof.
  intros [Hms _]. apply Forall_lookup_2. intros j f Hf. rewrite table_of_lookup in Hf. apply bind_Some in Hf as (m & Hm & [= <-]).
  exact (proj1 (Forall_lookup_1 _ _ _ _ Hms Hm)).
Qed.

(** Room of a member and of its entry, and the test for the same union. *)
Lemma field_extent_member m prev : member_ok m → field_extent (PB_FIELD prev m) = pb_membersize m.
Proof.
  intros Hm. destruct (type_byte_parts m Hm prev) as (Hh & Ha & _). unfold field_extent, pb_membersize. rewrite Hh, Ha.
  cbn [PB_FIELD data_size array_size]. destruct (m_allocation m), (m_rules m); try done.
Qed.
Lemma same_union_member p m pp : member_ok p → member_ok m → follows p m →
  same_union (PB_FIELD pp p) (PB_FIELD (Some p) m) = m_in_union m.
Proof.
  intros Hp Hm Hf. destruct (type_byte_parts p Hp pp) as (Hhp & _), (type_byte_parts m Hm (Some p)) as (Hhm & _).
  unfold same_union. rewrite Hhp, Hhm. unfold follows in Hf. cbn [PB_FIELD data_offset].
  destruct (m_in_union m); [by apply bool_decide_eq_true; destruct Hf as (-> & -> & _)|].
  apply bool_decide_eq_false. intros (_ & _ & E). lia.
Qed.

(** The offsets that the iterator computes are the offsets of the members. *)
Lemma slots_of_members ms : struct_ok ms → ∀ j m, ms !! j = Some m →
  ∃ f, table_of ms !! j = Some f ∧
    slots (table_of ms) !! j = Some (Slot f (m_offset m) (m_size_at m) (u32 (members_required ms j))).
Proof.
  intros [Hms Hfol]. induction j as [|j IH]; intros m Hm; rewrite table_of_lookup, Hm; cbn [mbind option_bind]; eexists; (split; [done|]).
  - destruct ms as [|m0 ms]; [done|]. injection Hm as <-. cbn [table_of slots lookup list_lookup]. unfold first_slot.
    cbn [PB_FIELD data_offset size_offset]. do 2 f_equal. lia.
  - rewrite slots_lookup_S. destruct (ms !! j) as [p|] eqn:Hp.
    2:{ apply lookup_ge_None in Hp. apply lookup_lt_Some in Hm. lia. }
    destruct (IH p eq_refl) as (fp & Hfp & ->). rewrite table_of_lookup, Hp in Hfp. injection Hfp as <-.
    rewrite table_of_lookup, Hm. cbn [mbind option_bind fmap option_fmap option_map]. rewrite Hp. do 2 f_equal.
    pose proof (Forall_lookup_1 _ _ _ _ Hms Hp) as Hpok. pose proof (Forall_lookup_1 _ _ _ _ Hms Hm) as Hmok.
    pose proof (Hfol j p m Hp Hm) as Hf. unfold next_slot. cbn [sl_field sl_data sl_size sl_required].
    rewrite same_union_member by done. rewrite field_extent_member by done.
    destruct (type_byte_parts p Hpok (match j with O => None | S j => ms !! j end)) as (-> & _).
    assert (members_required ms (S j) = members_required ms j + (if decide (m_rules p = PB_HTYPE_REQUIRED) then 1 else 0)) as ->.
    { unfold members_required. rewrite (take_S_r _ _ _ Hp), filter_app, length_app.
      case_decide; [rewrite filter_cons_True by done|rewrite filter_cons_False by done]; rewrite filter_nil; cbn [length].
      - by rewrite Nat2Z.inj_add.
      - by rewrite Nat.add_0_r, Z.add_0_r. }
    unfold follows in Hf. destruct (m_in_union m) eqn:Hu.
    + destruct Hf as (Hr & _ & -> & ->). rewrite decide_False by (rewrite Hr; done). by rewrite Z.add_0_r.
    + assert (data_offset (PB_FIELD (Some p) m) = m_offset m - m_offset p - pb_membersize p) as -> by (cbn; by rewrite Hu).
      change (size_offset (PB_FIELD (Some p) m)) with (m_size_at m - m_offset m). f_equal; [lia|lia|].
      case_decide; [|by rewrite Z.add_0_r]. unfold u32, wrap. by rewrite Zplus_mod_idemp_l.
Qed.

Lemma visit_of_members {S} (f : pb_field_iter → run S unit) ms dest : struct_ok ms → ∀ l j s, drop j ms = l →
  visit f (table_of ms) dest j (drop j (slots (table_of ms))) s = visit_members f ms dest j l s.
Proof.
  intros Hok. induction l as [|m l IH]; intros j s Hl.
  - rewrite drop_ge; [done|]. rewrite length_slots, table_of_length. apply (f_equal length) in Hl. rewrite length_drop in Hl. cbn in Hl. lia.
  - assert (ms !! j = Some m) as Hm by (rewrite <- (Nat.add_0_r j), <- lookup_drop, Hl; done).
    destruct (slots_of_members ms Hok j m Hm) as (g & _ & Hs). rewrite (drop_S _ _ _ Hs). cbn [visit visit_members].
    apply run_bind_ext. intros _ s'. apply IH. rewrite (drop_S _ _ _ Hm) in Hl. by injection Hl.
Qed.

Lemma cycle_lookup fs n j i : (i < n)%nat → cycle fs n j !! i = Some (Nat.iter i (succ fs) j).
Proof.
  revert j i. induction n as [|n IH]; intros j [|i] Hi; [lia..|done|]. cbn [cycle lookup list_lookup].
  rewrite IH by lia. by rewrite Nat.iter_succ_r.
Qed.
Lemma cycle_length fs n j : length (cycle fs n j) = n.
Proof. revert j. induction n as [|n IH]; intros j; cbn; [done|by rewrite IH]. Qed.
Lemma distance_lt n j k : (j < n)%nat → (k < n)%nat → (distance n j k < n)%nat.
Proof. intros. unfold distance. case_decide; lia. Qed.
Lemma iter_distance fs j k : (j < length fs)%nat → (k < length fs)%nat → Nat.iter (distance (length fs) j k) (succ fs) j = k.
Proof.
  intros. pose proof (distance_lt (length fs) j k). rewrite iter_succ by lia. unfold distance. repeat case_decide; lia.
Qed.
(** The first position is the one that is least far away. *)
Lemma first_at_distance fs p j k : (j < length fs)%nat → first_at fs p j = Some k →
  ∀ k', (k' < length fs)%nat → (distance (length fs) j k' < distance (length fs) j k)%nat → p (nth k' fs PB_LAST_FIELD) = false.
Proof.
  intros Hj Hk k' Hk' Hd. unfold first_at in Hk. apply fmap_Some in Hk as ([i k2] & Ef & ->). cbn [snd] in *.
  apply list_find_Some in Ef as (Hi & _ & Hmin). pose proof (lookup_lt_Some _ _ _ Hi) as Hlt. rewrite cycle_length in Hlt.
  rewrite cycle_lookup in Hi by done. injection Hi as Hi. rewrite iter_succ in Hi by lia.
  pose proof (distance_lt _ _ _ Hj Hk'). apply not_true_is_false. apply (Hmin (distance (length fs) j k')).
  - by rewrite cycle_lookup, iter_distance.
  - assert (distance (length fs) j k2 = i) as <-; [|done]. unfold distance. revert Hi. repeat case_decide; lia.
Qed.

Lemma finds_of_members ms dest (P : member → Prop) p j m : struct_ok ms → dest ≠ 0 → ms !! j = Some m →
  (∀ m prev, member_ok m → p (PB_FIELD prev m) = true ↔ P m) →
  finds_member ms dest P j (search p (at_member ms dest j m)).
Proof.
  intros Hok Hd Hm HP. pose proof (table_of_ok ms Hok) as Htab. pose proof (table_of_length ms) as Hlen.
  destruct (slots_of_members ms Hok j m Hm) as (f & _ & Hs).
  pose proof (search_finds (table_of ms) dest p j _ Htab Hd Hs) as H.
  change (at_slot (table_of ms) dest j _) with (at_member ms dest j m) in H. unfold finds in H.
  assert (∀ k m', ms !! k = Some m' → p (nth k (table_of ms) PB_LAST_FIELD) = true ↔ P m') as Hp.
  { intros k m' Hk. erewrite nth_lookup_Some by (rewrite table_of_lookup, Hk; done). apply HP.
    exact (Forall_lookup_1 _ _ _ _ (proj1 Hok) Hk). }
  destruct (first_at (table_of ms) p j) as [k|] eqn:Ek.
  - destruct H as (sl & Esl & Hpk & ->). left.
    assert (k < length ms)%nat as Hk by (apply lookup_lt_Some in Esl; by rewrite length_slots, Hlen in Esl).
    destruct (lookup_lt_is_Some_2 ms k Hk) as [mk Hmk]. destruct (slots_of_members ms Hok k mk Hmk) as (g & _ & Hsk).
    rewrite Hsk in Esl. injection Esl as <-. exists k, mk. split_and!; [done| |done|].
    + rewrite <- (Hp k mk Hmk), (nth_field _ _ _ Hsk). exact Hpk.
    + intros k' m' Hk' Hdist. rewrite <- (Hp k' m' Hk'). rewrite (first_at_distance _ _ j k); [done|..]; rewrite ?Hlen; try done.
      * by eapply lookup_lt_Some.
      * by eapply lookup_lt_Some.
  - destruct H as (Hnone & sl & Esl & ->). right. rewrite Hs in Esl. injection Esl as <-. exists m. split_and!; [done|done|].
    apply Forall_lookup_2. intros k m' Hk. rewrite <- (Hp k m' Hk). rewrite Hnone; [done|].
    apply list_elem_of_lookup. exists k. rewrite table_of_lookup, Hk. cbn [mbind option_bind].
    f_equal. symmetry. apply nth_lookup_Some. by rewrite table_of_lookup, Hk.
Qed.

(** C35: Walking over a structure with the table that the [PB_FIELD] macros make of it.  Beginning, the iterator
    stands at the first member; a walk over all fields visits every member once, in order, each at its own
    address, with the address of its flag or count and the number of required members before it; and a
    search, for a tag or for extensions, from any member, finds the first such member around the end of
    the table, or stops where it started when there is none. *)
Theorem pb_field_iter_exact (ms : list member) dest : struct_ok ms → dest ≠ 0 →
  match ms with
  | [] => (pb_field_iter_begin (table_of ms) dest).1 = false
  | m0 :: _ =>
      pb_field_iter_begin (table_of ms) dest = (true, at_member ms dest 0 m0) ∧
      (∀ S (f : pb_field_iter → run S unit) s, for_fields f (at_member ms dest 0 m0) s = visit_members f ms dest 0 ms s) ∧
      (∀ j m t, ms !! j = Some m →
        finds_member ms dest (λ m, m_tag m = t ∧ m_ltype m ≠ 9) j (pb_field_iter_find (at_member ms dest j m) t) ∧
        finds_member ms dest (λ m, m_ltype m = 9) j (find_extension_field (at_member ms dest j m)))
  end.
Proof.
  intros Hok Hd. pose proof (table_of_ok ms Hok) as Htab. destruct ms as [|m0 l] eqn:Ems.
  - rewrite (iter_begin_exact _ dest) by done. done.
  - rewrite <- Ems in *. destruct (slots_of_members ms Hok 0 m0 ltac:(by rewrite Ems)) as (f0 & _ & Hs0).
    rewrite (iter_begin_exact _ dest) by done. destruct (slots (table_of ms)) as [|sl l'] eqn:E; [done|]. injection Hs0 as ->.
    split_and!; [done| |].
    + intros S f s. change (at_member ms dest 0 m0) with (at_slot (table_of ms) dest 0 (Slot f0 (m_offset m0) (m_size_at m0) (u32 (members_required ms 0)))).
      rewrite (for_fields_exact _ dest Htab Hd f _ l' s E). rewrite <- (drop_0 (slots _)). by apply visit_of_members.
    + intros j m t Hm. split; (apply finds_of_members; [done|done|done|]); intros m' prev Hm';
        destruct (type_byte_parts m' Hm' prev) as (_ & _ & Hl).
      * unfold has_tag. rewrite andb_true_iff, negb_true_iff, Z.eqb_eq, bool_decide_eq_false, Hl. done.
      * unfold is_extension. by rewrite bool_decide_eq_true, Hl.
Qed.

(** A [uint32_t], an optional [bool] and its flag in front of it, an array of three [uint64_t] and its count, a pointer,
    and two members of a union. *)
Definition sample_members : list member :=
  [Member 1 PB_HTYPE_REQUIRED PB_ATYPE_STATIC 2 0 4 0 0 false Null;
   Member 5 PB_HTYPE_OPTIONAL PB_ATYPE_STATIC 0 5 1 0 4 false Null;
   Member 3 PB_HTYPE_REPEATED PB_ATYPE_STATIC 2 16 8 3 8 false Null;
   Member 4 PB_HTYPE_OPTIONAL PB_ATYPE_POINTER 2 40 4 0 40 false Null;
   Member 2 PB_HTYPE_ONEOF PB_ATYPE_STATIC 2 56 4 0 48 false Null;
   Member 7 PB_HTYPE_ONEOF PB_ATYPE_STATIC 5 56 8 0 48 true Null].
Definition sample_fields : pb_fields :=
  [Field 1 0x02 0 0 4 0 Null; Field 5 0x10 1 (-1) 1 0 Null; Field 3 0x22 10 (-8) 8 3 Null; Field 4 0x92 0 0 4 0 Null;
   Field 2 0x32 8 (-8) 4 0 Null; Field 7 0x35 PB_SIZE_MAX (-8) 8 0 Null].
Example sample_table : table_of sample_members = sample_fields.
Proof. by vm_compute. Qed.
Lemma pb_field_iter_exact_witness : struct_ok sample_members ∧ 4096 ≠ 0 ∧
  pb_field_iter_begin (table_of sample_members) 4096 = (true, Iter sample_fields 0 0 4096 4096 (In_message 4096)) ∧
  finds_member sample_members 4096 (λ m, m_tag m = 2 ∧ m_ltype m ≠ 9) 5
    (pb_field_iter_find (Iter sample_fields 5 1 4096 4152 (In_message 4144)) 2).
Proof.
  assert (struct_ok sample_members) as H.
  { split; [by repeat constructor|]. intros [|[|[|[|[|[|j]]]]]] p m; intros [= <-] [= <-]; vm_compute; repeat split; discriminate. }
  destruct (pb_field_iter_exact sample_members 4096 H ltac:(done)) as (H1 & _ & H2).
  split_and!; [exact H|done|exact H1|]. exact (proj1 (H2 5%nat _ 2 eq_refl)).
Defined.
