(* ===== verification/PbImage.v ===== *)
(** * The bytes of an object and its parts

    [slice] is what a load reads, [put] what a store leaves; positions are offsets from the start. *)
From stdpp Require Import gmap.
From S2P Require Export PbMemory.

Definition slice (o n : Z) (img : bytes) : bytes := take (Z.to_nat n) (drop (Z.to_nat o) img).
Definition put (o : Z) (bs img : bytes) : bytes := take (Z.to_nat o) img ++ bs ++ drop (Z.to_nat o + length bs) img.
Lemma zlen_slice o n img : 0 ≤ o → 0 ≤ n → o + n ≤ zlen img → zlen (slice o n img) = n.
Proof. unfold slice, zlen. rewrite length_take, length_drop. lia. Qed.
Lemma zlen_put o bs img : 0 ≤ o → o + zlen bs ≤ zlen img → zlen (put o bs img) = zlen img.
Proof. unfold put, zlen. rewrite !length_app, length_take, length_drop. lia. Qed.
Lemma lookup_slice o n img (i : nat) : (i < Z.to_nat n)%nat → slice o n img !! i = img !! (Z.to_nat o + i)%nat.
Proof. intros Hi. unfold slice. rewrite lookup_take_lt; [|done]. by rewrite lookup_drop. Qed.
Lemma lookup_put o bs img (i : nat) : 0 ≤ o → o + zlen bs ≤ zlen img →
  put o bs img !! i = if decide (Z.to_nat o ≤ i < Z.to_nat o + length bs)%nat then bs !! (i - Z.to_nat o)%nat else img !! i.
Proof.
  unfold zlen. intros Ho Hl. unfold put. assert (length (take (Z.to_nat o) img) = Z.to_nat o) as Hlen by (rewrite length_take; lia).
  case_decide as Hd.
  - rewrite lookup_app_r; [|lia]. rewrite Hlen. rewrite lookup_app_l; [done|lia].
  - destruct (decide (i < Z.to_nat o)%nat).
    + rewrite lookup_app_l; [|lia]. by rewrite lookup_take_lt.
    + rewrite lookup_app_r; [|lia]. rewrite lookup_app_r; [|lia]. rewrite lookup_drop. f_equal. lia.
Qed.
Lemma slice_put o bs img : 0 ≤ o → o + zlen bs ≤ zlen img → slice o (zlen bs) (put o bs img) = bs.
Proof.
  intros Ho Hl. apply list_eq. intros i. destruct (decide (i < length bs)%nat).
  - rewrite lookup_slice; [|unfold zlen; lia]. rewrite lookup_put; [|done|done]. rewrite decide_True; [|lia]. f_equal. lia.
  - rewrite !lookup_ge_None_2; [done|lia|]. unfold slice. rewrite length_take, to_nat_zlen. lia.
Qed.
Lemma slice_put_disjoint o n o' bs img : 0 ≤ o → 0 ≤ o' → o' + zlen bs ≤ zlen img → o + n ≤ o' ∨ o' + zlen bs ≤ o → slice o n (put o' bs img) = slice o n img.
Proof.
  intros Ho Ho' Hl Hd. apply list_eq. intros i. destruct (decide (i < Z.to_nat n)%nat).
  - rewrite !lookup_slice; [|done|done]. rewrite lookup_put; [|done|done]. rewrite decide_False; [done|]. unfold zlen in *. lia.
  - rewrite !lookup_ge_None_2; [done| |]; unfold slice; rewrite length_take; lia.
Qed.
(** A store within a part of an object is a store into that part. *)
Lemma slice_put_inside o n o' bs img : 0 ≤ o → o ≤ o' → o' + zlen bs ≤ o + n → o + n ≤ zlen img →
  slice o n (put o' bs img) = put (o' - o) bs (slice o n img).
Proof.
  intros H1 H2 H3 H4. assert (zlen (slice o n img) = n) as Hs by (apply zlen_slice; pose proof (zlen_nonneg bs); lia).
  apply list_eq. intros i. destruct (decide (i < Z.to_nat n)%nat).
  - rewrite lookup_slice; [|done]. rewrite !lookup_put; [|lia|lia|lia|lia]. repeat case_decide; try lia; [f_equal; lia|]. by rewrite lookup_slice.
  - rewrite !lookup_ge_None_2; [done| |].
    + pose proof (zlen_put (o' - o) bs (slice o n img)) as Hp. unfold zlen in *. lia.
    + unfold slice. rewrite length_take. lia.
Qed.
Lemma slice_slice o n o' n' img : 0 ≤ o → 0 ≤ o' → o' + n' ≤ n → slice o' n' (slice o n img) = slice (o + o') n' img.
Proof.
  intros H1 H2 H3. apply list_eq. intros i. destruct (decide (i < Z.to_nat n')%nat).
  - rewrite !lookup_slice; [|lia|lia|lia]. f_equal. lia.
  - rewrite !lookup_ge_None_2; [done| |]; unfold slice; rewrite length_take; lia.
Qed.
Lemma slice_all img : slice 0 (zlen img) img = img.
Proof. unfold slice. rewrite to_nat_zlen, drop_0. apply take_ge. done. Qed.
Lemma put_all bs img : zlen bs = zlen img → put 0 bs img = bs.
Proof. intros H. rewrite <- (slice_all (put 0 bs img)), zlen_put, <- H; [|lia|lia]. apply slice_put; lia. Qed.
Lemma put_slice_self o n img : 0 ≤ o → 0 ≤ n → o + n ≤ zlen img → put o (slice o n img) img = img.
Proof.
  intros H1 H2 H3. pose proof (zlen_slice o n img H1 H2 H3) as Hs. apply list_eq. intros i. rewrite lookup_put; [|done|lia]. case_decide; [|done].
  unfold zlen in Hs. rewrite lookup_slice; [|lia]. f_equal. lia.
Qed.

(** ** Loads and stores *)

Lemma load_cells_exact n : ∀ a m bs, length bs = n → (∀ i, (i < n)%nat → m !! (a + Z.of_nat i) = bs !! i) → load_cells n a m = Some bs.
Proof.
  induction n as [|n IH]; intros a m bs Hl Hm; [by destruct bs|]. destruct bs as [|b bs]; [done|]. cbn [load_cells].
  pose proof (Hm O ltac:(lia)) as E. rewrite Z.add_0_r in E. rewrite E. cbn.
  rewrite (IH (a + 1) m bs); [done|by injection Hl|]. intros i Hi. change (bs !! i) with ((b :: bs) !! S i). rewrite <- (Hm (S i)) by lia. f_equal. lia.
Qed.
Lemma store_cells_exact bs : ∀ a m, (∀ i, (i < length bs)%nat → is_Some (m !! (a + Z.of_nat i))) → store_cells a bs m = Some (map_seqZ a bs ∪ m).
Proof.
  induction bs as [|b bs IH]; intros a m Hm; cbn [store_cells]; [cbn [map_seqZ]; by rewrite (left_id_L ∅ (∪))|].
  pose proof (Hm O ltac:(cbn; lia)) as [x E]. rewrite Z.add_0_r in E. rewrite E. rewrite IH.
  - f_equal. rewrite map_seqZ_cons. apply map_eq. intros k. rewrite !lookup_union. change (Z.succ a) with (a + 1).
    destruct (decide (k = a)) as [->|Hk].
    + rewrite !lookup_insert_eq. assert (map_seqZ (M := gmap Z Z) (a + 1) bs !! a = None) as -> by (apply lookup_map_seqZ_None; lia). by destruct (m !! a).
    + by rewrite !lookup_insert_ne.
  - intros i Hi. destruct (Hm (S i)) as [y Ey]; [cbn; lia|]. rewrite lookup_insert_ne by lia. exists y. rewrite <- Ey. f_equal. lia.
Qed.
Lemma free_cells_lookup n : ∀ a m k, free_cells n a m !! k = if decide (a ≤ k < a + Z.of_nat n) then None else m !! k.
Proof.
  induction n as [|n IH]; intros a m k; cbn [free_cells]; [rewrite decide_False by lia; done|].
  rewrite IH. destruct (decide (k = a)) as [->|Hk]; [rewrite lookup_delete_eq; repeat case_decide; try lia; done|].
  rewrite lookup_delete_ne by done. repeat case_decide; lia || done.
Qed.
