(* ===== verification/PbLayout.v ===== *)
(** * Tables that describe C structures

    What generated code guarantees of a table and its structure: every field lies in the structure,
    fields overlap only when they are members of one union, and the types of the entries fit the
    sizes of the objects.  Callback fields and extensions are not covered. *)
From stdpp Require Import gmap.
From S2P Require Export PbTable PbImage.

(** The size of the structure of a table, how deep structures are nested in it by value, and whether
    neither it nor a structure in it holds a pointer. *)
Class Layout := { struct_size : Z → Z; nesting : Z → nat; pointer_free : Z → bool }.

Abbreviation atype sl := (PB_ATYPE (type (sl_field sl))).
Abbreviation htype sl := (PB_HTYPE (type (sl_field sl))).
Abbreviation ltype_of sl := (PB_LTYPE (type (sl_field sl))).

(** ** Regions *)

Definition data_bytes (sl : slot) : Z := field_extent (sl_field sl).
(** The flag or count of a field, if it has one in the message. *)
Definition count_bytes (sl : slot) : Z :=
  match htype sl with
  | PB_HTYPE_REQUIRED => 0
  | PB_HTYPE_OPTIONAL => if decide (atype sl = PB_ATYPE_STATIC ∧ sl_size sl ≠ sl_data sl) then 1 else 0
  | PB_HTYPE_REPEATED => if decide (atype sl = PB_ATYPE_STATIC ∧ sl_size sl = sl_data sl) then 0 else 4
  | PB_HTYPE_ONEOF => 4
  end.
Definition apart (o n o' n' : Z) : Prop := n = 0 ∨ n' = 0 ∨ o + n ≤ o' ∨ o' + n' ≤ o.
Definition slots_apart (a b : slot) : Prop :=
  apart (sl_data a) (data_bytes a) (sl_data b) (data_bytes b) ∧ apart (sl_data a) (data_bytes a) (sl_size b) (count_bytes b) ∧
  apart (sl_size a) (count_bytes a) (sl_data b) (data_bytes b) ∧ apart (sl_size a) (count_bytes a) (sl_size b) (count_bytes b).
Definition same_oneof (a b : slot) : Prop :=
  htype a = PB_HTYPE_ONEOF ∧ htype b = PB_HTYPE_ONEOF ∧ sl_size a = sl_size b ∧ tag (sl_field a) ≠ tag (sl_field b) ∧ sl_data a = sl_data b.

Lemma data_bytes_single sl : atype sl = PB_ATYPE_STATIC → htype sl ≠ PB_HTYPE_REPEATED → data_bytes sl = data_size (sl_field sl).
Proof. intros Ha Hh. unfold data_bytes, field_extent. rewrite decide_False by (by intros [_ ?]). rewrite decide_False by congruence. done. Qed.
Lemma data_bytes_array sl : atype sl = PB_ATYPE_STATIC → htype sl = PB_HTYPE_REPEATED → data_bytes sl = data_size (sl_field sl) * array_size (sl_field sl).
Proof. intros Ha Hh. unfold data_bytes, field_extent. by rewrite decide_True. Qed.
Lemma data_bytes_pointer sl : atype sl = PB_ATYPE_POINTER → data_bytes sl = sizeof_ptr.
Proof. intros Ha. unfold data_bytes, field_extent. rewrite decide_False by (intros [? _]; congruence). by rewrite decide_True. Qed.
Lemma count_bytes_oneof sl : htype sl = PB_HTYPE_ONEOF → count_bytes sl = 4.
Proof. intros Hh. unfold count_bytes. by rewrite Hh. Qed.
Lemma count_bytes_pointer_array sl : atype sl = PB_ATYPE_POINTER → htype sl = PB_HTYPE_REPEATED → count_bytes sl = 4.
Proof. intros Ha Hh. unfold count_bytes. rewrite Hh, Ha. by rewrite decide_False by (by intros [? _]). Qed.
Lemma count_bytes_nonneg sl : 0 ≤ count_bytes sl.
Proof. unfold count_bytes. destruct (htype sl); repeat case_decide; lia. Qed.

(** A store within the data or the count of a field stays away from the others. *)
Definition within (o n o' n' : Z) : Prop := o' ≤ o ∧ o + n ≤ o' + n'.
Definition touches (sl : slot) (o n : Z) : Prop := within o n (sl_data sl) (data_bytes sl) ∨ within o n (sl_size sl) (count_bytes sl).
Lemma apart_within o n o' n' o2 n2 : 0 ≤ n2 → apart o n o' n' → within o2 n2 o' n' → apart o n o2 n2.
Proof. unfold apart, within. lia. Qed.
Lemma apart_sym o n o' n' : apart o n o' n' → apart o' n' o n.
Proof. unfold apart. lia. Qed.
Lemma slots_apart_sym a b : slots_apart a b → slots_apart b a.
Proof. intros (H1 & H2 & H3 & H4). split_and!; by apply apart_sym. Qed.
Lemma slots_apart_touches a b o n : 0 ≤ n → slots_apart a b → touches b o n →
  apart (sl_data a) (data_bytes a) o n ∧ apart (sl_size a) (count_bytes a) o n.
Proof.
  intros Hn (H1 & H2 & H3 & H4) [Ht|Ht].
  - split; [exact (apart_within _ _ _ _ _ _ Hn H1 Ht)|exact (apart_within _ _ _ _ _ _ Hn H3 Ht)].
  - split; [exact (apart_within _ _ _ _ _ _ Hn H2 Ht)|exact (apart_within _ _ _ _ _ _ Hn H4 Ht)].
Qed.
Definition same_at (o n : Z) (img img' : bytes) : Prop := slice o n img = slice o n img'.
(** The images differ in the data and the count of a field only. *)
Definition differs_at (sl : slot) (img img' : bytes) : Prop := zlen img' = zlen img ∧
  ∀ o n, n = 0 ∨ 0 ≤ o → apart o n (sl_data sl) (data_bytes sl) → apart o n (sl_size sl) (count_bytes sl) → same_at o n img' img.
Lemma differs_refl sl img : differs_at sl img img.
Proof. done. Qed.
Lemma differs_trans sl a b c : differs_at sl a b → differs_at sl b c → differs_at sl a c.
Proof. intros [H1 H2] [H3 H4]. split; [lia|]. intros o n Ho Hd Hc. unfold same_at in *. rewrite H4 by done. by apply H2. Qed.
Lemma put_nil o img : 0 ≤ o → put o [] img = img.
Proof. intros Ho. unfold put. cbn. rewrite Nat.add_0_r. apply take_drop. Qed.
Lemma zlen_zero (bs : bytes) : zlen bs = 0 → bs = [].
Proof. destruct bs; [done|]. rewrite zlen_cons. pose proof (zlen_nonneg bs). lia. Qed.
Lemma same_at_put o n o' bs img : n = 0 ∨ 0 ≤ o → 0 ≤ o' → o' + zlen bs ≤ zlen img → apart o n o' (zlen bs) → same_at o n (put o' bs img) img.
Proof.
  intros Ho Ho' Hl Hd. unfold same_at. destruct (decide (n = 0)) as [->|Hn]; [done|].
  destruct Hd as [?|[Hz|Hd]]; [done| |apply slice_put_disjoint; tauto]. apply zlen_zero in Hz as ->. by rewrite put_nil.
Qed.
Lemma differs_put sl o bs img : 0 ≤ o → o + zlen bs ≤ zlen img → touches sl o (zlen bs) → differs_at sl img (put o bs img).
Proof.
  intros Ho Hl Ht. split; [by apply zlen_put|]. intros o' n Ho' Hd Hc. apply same_at_put; [done|done|done|].
  destruct Ht as [Ht|Ht]; (eapply apart_within; [apply zlen_nonneg| |exact Ht]); done.
Qed.
Lemma same_at_inside o n o' n' img img' : 0 ≤ o → 0 ≤ o' → o' + n' ≤ n → same_at o n img img' → same_at (o + o') n' img img'.
Proof. unfold same_at. intros H1 H2 H3 E. by rewrite <- !(slice_slice o n), E. Qed.

Section Tables.
Context `{!Tables, !Layout}.

(** ** Types *)

(** The size of an object of a type. *)
Definition value_fits (f : pb_field) : Prop :=
  match PB_LTYPE (type f) with
  | Scalar PB_LTYPE_BOOL => 1 ≤ data_size f
  | Scalar PB_LTYPE_FIXED32 => 4 ≤ data_size f
  | Scalar PB_LTYPE_FIXED64 => 8 ≤ data_size f
  | Scalar _ => 1 ≤ data_size f
  | PB_LTYPE_SUBMESSAGE => match ptr f with Submsg id => data_size f = struct_size id | _ => False end
  | PB_LTYPE_BYTES | PB_LTYPE_STRING | PB_LTYPE_FIXED_LENGTH_BYTES => 1 ≤ data_size f
  | PB_LTYPE_EXTENSION | Invalid_ltype _ => False
  end.
Definition default_fits (f : pb_field) : Prop :=
  match PB_LTYPE (type f), ptr f with
  | PB_LTYPE_SUBMESSAGE, _ => True
  | _, Null => True
  | _, Default value => data_size f ≤ zlen value
  | _, Submsg _ => False
  end.
(** A structure inside another one; arrays of structures must not hold pointers. *)
Definition inner_fits (id : Z) (sl : slot) : Prop :=
  match ltype_of sl, ptr (sl_field sl) with
  | PB_LTYPE_SUBMESSAGE, Submsg sub => (nesting sub < nesting id)%nat ∧ (htype sl = PB_HTYPE_REPEATED → pointer_free sub = true)
  | _, _ => True
  end.
Definition string_items_fit (sl : slot) : Prop :=
  htype sl = PB_HTYPE_REPEATED → ltype_of sl = PB_LTYPE_STRING ∨ ltype_of sl = PB_LTYPE_BYTES → data_size (sl_field sl) = sizeof_ptr.
Record slot_ok (id : Z) (sl : slot) : Prop := {
  ok_tag : 0 < tag (sl_field sl) < 2 ^ 32;
  ok_atype : atype sl = PB_ATYPE_STATIC ∨ atype sl = PB_ATYPE_POINTER;
  ok_value : value_fits (sl_field sl);
  ok_data_size : data_size (sl_field sl) < 2 ^ 32;
  ok_array_size : 0 ≤ array_size (sl_field sl) < 2 ^ 32;
  ok_data : 0 ≤ sl_data sl ∧ sl_data sl + data_bytes sl ≤ struct_size id;
  ok_count : count_bytes sl = 0 ∨ 0 ≤ sl_size sl ∧ sl_size sl + count_bytes sl ≤ struct_size id;
  ok_apart : apart (sl_data sl) (data_bytes sl) (sl_size sl) (count_bytes sl);
  ok_default : atype sl = PB_ATYPE_STATIC → default_fits (sl_field sl);
  ok_inner : atype sl = PB_ATYPE_STATIC → inner_fits id sl;
  ok_strings : atype sl = PB_ATYPE_POINTER → string_items_fit sl;
  ok_fixed : atype sl = PB_ATYPE_STATIC → htype sl = PB_HTYPE_REPEATED → sl_size sl = sl_data sl → sizeof_size ≤ data_bytes sl;
  ok_pointer_free : pointer_free id = true → atype sl = PB_ATYPE_STATIC ∧
    (ltype_of sl = PB_LTYPE_SUBMESSAGE → match ptr (sl_field sl) with Submsg sub => pointer_free sub = true | _ => False end) }.
(** Tables are not empty structures, and their addresses and tags identify the fields. *)
Record table_fits (id : Z) : Prop := {
  fits_size : 1 ≤ struct_size id < 2 ^ 32;
  fits_slots : Forall (slot_ok id) (slots (fields_of id));
  fits_apart : ∀ j k a b, slots (fields_of id) !! j = Some a → slots (fields_of id) !! k = Some b → j ≠ k → slots_apart a b ∨ same_oneof a b;
  fits_tags : NoDup (tag <$> fields_of id) }.
Class TablesFit := tables_fit : ∀ id, table_fits id.

Section Fit.
Context {fit : TablesFit} (id : Z).
Abbreviation L := (slots (fields_of id)).
Lemma slot_fits j sl : L !! j = Some sl → slot_ok id sl.
Proof using fit. intros Hj. exact (Forall_lookup_1 _ _ _ _ (fits_slots id (fit id)) Hj). Qed.
Lemma value_size f : value_fits f → 1 ≤ data_size f.
Proof using fit.
  unfold value_fits. destruct (PB_LTYPE _) as [[]| | | | | |]; try done; try lia. destruct (ptr _) as [|sub|]; try done.
  pose proof (fits_size sub (fit sub)). lia.
Qed.
Lemma data_bytes_nonneg j sl : L !! j = Some sl → 0 ≤ data_bytes sl.
Proof using fit.
  intros Hj. destruct (slot_fits j sl Hj) as [_ _ Hv _ Ha _ _ _ _ _ _ _ _]. apply value_size in Hv. unfold data_bytes, field_extent.
  repeat case_decide; [nia|done|lia].
Qed.
Lemma touches_bounds j sl o n : L !! j = Some sl → touches sl o n → 0 < n → 0 ≤ o ∧ o + n ≤ struct_size id.
Proof using fit.
  intros Hj Ht Hn. destruct (slot_fits j sl Hj) as [_ _ _ _ _ Hd Hc _ _ _ _ _ _]. unfold touches, within in Ht. lia.
Qed.
Lemma table_is_ok : table_ok (fields_of id).
Proof using fit.
  apply Forall_lookup. intros j f Hj. rewrite <- (slots_are_fields (fields_of id)), list_lookup_fmap in Hj.
  apply fmap_Some in Hj as (sl & Hj & ->). destruct (slot_fits j sl Hj) as [Ht _ _ _ _ _ _ _ _ _ _ _ _]. lia.
Qed.

(** Tags identify the fields; a search finds the field of a tag. *)
Lemma slot_by_tag j m a b : L !! j = Some a → L !! m = Some b → tag (sl_field a) = tag (sl_field b) → j = m.
Proof using fit.
  intros Hj Hm Ht. apply slots_field in Hj, Hm. pose proof (fits_tags id (fit id)) as Hn.
  eapply (NoDup_lookup _ j m (tag (sl_field a))); [exact Hn| |]; rewrite list_lookup_fmap, ?Hj, ?Hm; cbn; congruence.
Qed.
Lemma has_own_tag j a : L !! j = Some a → has_tag (tag (sl_field a)) (sl_field a) = true.
Proof using fit.
  intros Hj. pose proof (ok_value id a (slot_fits j a Hj)) as Hv. unfold has_tag. rewrite Z.eqb_refl. cbn. apply negb_true_iff, bool_decide_eq_false.
  intros He. unfold value_fits in Hv. by rewrite He in Hv.
Qed.
Lemma find_exact p j a t : 0 < p → L !! j = Some a →
  (∃ m b, L !! m = Some b ∧ tag (sl_field b) = t ∧ pb_field_iter_find (at_slot (fields_of id) p j a) t = (true, at_slot (fields_of id) p m b)) ∨
  ((∀ m b, L !! m = Some b → tag (sl_field b) ≠ t) ∧ pb_field_iter_find (at_slot (fields_of id) p j a) t = (false, at_slot (fields_of id) p j a)).
Proof using fit.
  intros Hp Hj. pose proof (search_finds (fields_of id) p (has_tag t) j a table_is_ok ltac:(lia) Hj) as Hf. unfold pb_field_iter_find, finds in *.
  destruct (first_at _ _ _) as [m|].
  - left. destruct Hf as (b & Hm & Ht & ->). exists m, b. split_and!; [done| |done]. unfold has_tag in Ht. apply andb_true_iff in Ht as [Ht _]. by apply Z.eqb_eq in Ht.
  - right. destruct Hf as (Hno & b & Hb & ->). simplify_eq. split; [|done]. intros m b' Hm <-. pose proof (has_own_tag m b' Hm) as Ht.
    rewrite Hno in Ht; [done|]. eapply list_elem_of_lookup_2. by apply slots_field.
Qed.
Lemma find_own p j a m b : 0 < p → L !! j = Some a → L !! m = Some b →
  pb_field_iter_find (at_slot (fields_of id) p j a) (tag (sl_field b)) = (true, at_slot (fields_of id) p m b).
Proof using fit.
  intros Hp Hj Hm. destruct (find_exact p j a (tag (sl_field b)) Hp Hj) as [(m' & b' & Hm' & Ht & E)|[Hno _]]; [|by destruct (Hno m b Hm)].
  rewrite E. by assert (m' = m) as -> by (by eapply slot_by_tag); simplify_eq.
Qed.

(** The members of one union. *)
Definition partner (j k : nat) : bool :=
  bool_decide (j = k) || match L !! j, L !! k with
  | Some a, Some b => bool_decide (htype a = PB_HTYPE_ONEOF ∧ htype b = PB_HTYPE_ONEOF ∧ sl_size a = sl_size b) | _, _ => false end.
Lemma partner_refl j : partner j j = true.
Proof. unfold partner. by rewrite bool_decide_true. Qed.
Lemma not_partner_apart j k a b : L !! j = Some a → L !! k = Some b → partner j k = false → slots_apart a b.
Proof using fit.
  intros Hj Hk Hp. apply orb_false_iff in Hp as [Hjk Hp]. apply bool_decide_eq_false in Hjk.
  rewrite Hj, Hk in Hp. apply bool_decide_eq_false in Hp. destruct (fits_apart id (fit id) j k a b Hj Hk Hjk) as [|(H1 & H2 & H3 & _)]; [done|]. by destruct Hp.
Qed.
Lemma partner_inv j k a b : L !! j = Some a → L !! k = Some b → partner j k = true → j = k ∨ same_oneof a b.
Proof using fit.
  intros Hj Hk Hp. destruct (decide (j = k)); [by left|right]. unfold partner in Hp. rewrite bool_decide_false, Hj, Hk in Hp by done. cbn in Hp.
  apply bool_decide_eq_true in Hp as (H1 & H2 & H3). destruct (fits_apart id (fit id) j k a b Hj Hk n) as [(_ & _ & _ & H4)|]; [|done].
  rewrite !count_bytes_oneof, H3 in H4 by done. unfold apart in H4. lia.
Qed.
Lemma partner_same j k : partner j k = true → ∀ i, partner j i = partner k i.
Proof.
  intros Hp i. unfold partner in *. destruct (decide (j = k)) as [->|Hjk]; [done|]. rewrite bool_decide_false in Hp by done. cbn in Hp.
  destruct (L !! j) as [a|] eqn:Hj; [|done]. destruct (L !! k) as [b|] eqn:Hk; [|done]. apply bool_decide_eq_true in Hp as (H1 & H2 & H3).
  destruct (L !! i) as [e|] eqn:Hi.
  - apply eq_true_iff_eq. rewrite !orb_true_iff, !bool_decide_eq_true. split; intros [<-|(? & ? & ?)]; right; simplify_eq; split_and!; congruence.
  - rewrite !orb_false_r. rewrite !bool_decide_false by congruence. done.
Qed.
End Fit.
End Tables.
