(* ===== verification/PbDecode.v ===== *)
(** * Decoding messages described by tables ([nanopb/pb_decode.c])

    The decoder works on a machine: the input stream, the memory with the message and the heap, and
    the counter of arrays of fixed length, a local variable of [pb_decode_noinit] that fields reach
    through [pSize].  C functions that call each other recursively take the depth of the C stack they
    may use; loops that move through the input are bounded by what is left of it. *)
From stdpp Require Import strings gmap.
From S2P Require Export PbTable PbMemory.

Record machine (Y : Type) := Machine { input : pb_istream Y; mem : memory; fixed_count_size : Z }.
Arguments Machine {Y}. Arguments input {Y}. Arguments mem {Y}. Arguments fixed_count_size {Y}.

(** Functions of the user: callbacks of fields and of extensions.  A callback gets the entry and the
    address of its argument. *)
Class Callbacks := {
  user_decode : ∀ Y `{!Source Y}, Z → pb_field → Z → run (machine Y) unit;
  user_decode_extension : ∀ Y `{!Source Y}, Z → Z → Z → wire_type → run (machine Y) unit }.

Section Access.
Context {Y : Type}.
Abbreviation M := (run (machine Y)).

Definition on_input {A} (m : st (pb_istream Y) A) : M A := λ s,
  let '(r, i) := m (input s) in Some (r, Machine i (mem s) (fixed_count_size s)).
Definition on_memory {A} (f : memory → option (A * memory)) : M A := λ s,
  match f (mem s) with
  | Some (a, m) => Some (Some a, Machine (input s) m (fixed_count_size s))
  | None => None
  end.
Definition error {A} (msg : string) : M A := on_input (in_error msg).
Definition load_at (n a : Z) : M bytes := on_memory (λ m, bs ← load n a m; Some (bs, m)).
Definition store_at (a : Z) (bs : bytes) : M unit := on_memory (λ m, m ← store a bs m; Some (tt, m)).
Definition load_pointer (a : Z) : M Z := bs ← load_at sizeof_ptr a; mret (le_val bs).
Definition store_pointer (a p : Z) : M unit := store_at a (le_bytes 8 p).
Definition memset_zero (a n : Z) : M unit := store_at a (replicate (Z.to_nat n) 0).

(** [*(pb_size_t* )pSize]. *)
Definition load_size (p : size_place) : M Z :=
  match p with
  | In_message a => bs ← load_at sizeof_size a; mret (u32 (le_val bs))
  | In_decoder => s ← run_get; mret (fixed_count_size s)
  end.
Definition store_size (p : size_place) (n : Z) : M unit :=
  match p with
  | In_message a => store_at a (le_bytes 4 n)
  | In_decoder => λ s, Some (Some tt, Machine (input s) (mem s) n)
  end.
(** [*(bool* )pSize = b].  The decoder's own counter is not a flag. *)
Definition store_flag (p : size_place) (b : bool) : M unit :=
  match p with In_message a => store_at a [if b then 1 else 0] | In_decoder => undefined end.
Definition size_is_data (it : pb_field_iter) : bool := bool_decide (pSize it = In_message (pData it)).

(** Run on a substream, which is a local variable; its status is a value. *)
Definition on_substream {A} (sub : pb_istream Y) (m : M A) : M (option A * pb_istream Y) := λ s,
  match m (Machine sub (mem s) (fixed_count_size s)) with
  | Some (r, s') => Some (Some (r, input s'), Machine (input s) (mem s') (fixed_count_size s'))
  | None => None
  end.
Definition on_buffer {A} (buf : bytes) (m : run (machine bytes) A) : M A := λ s,
  match m (Machine (pb_istream_from_buffer buf (zlen buf)) (mem s) (fixed_count_size s)) with
  | Some (r, s') => Some (r, Machine (input s) (mem s') (fixed_count_size s'))
  | None => None
  end.

(** The members of [pb_extension_t]. *)
Definition ext_dest_at (ext : Z) : Z := ext + 8.
Definition ext_next_at (ext : Z) : Z := ext + 16.
Definition ext_found_at (ext : Z) : Z := ext + 24.
(** A loop over the chain of extensions. *)
Fixpoint extension_chain (fuel : nat) (f : Z → M unit) (ext : Z) : M unit :=
  match fuel with
  | O => undefined
  | S fuel => if ext =? 0 then mret tt else _ ← f ext; next ← load_pointer (ext_next_at ext); extension_chain fuel f next
  end.
Definition iter_from_extension `{!Extensions} (ext : Z) : M pb_field_iter :=
  type_ ← load_pointer ext;
  dest ← load_pointer (ext_dest_at ext);
  let field := ext_arg (extension_type type_) in
  let it := (pb_field_iter_begin [field] dest).2 in
  let pData := if decide (PB_ATYPE (type field) = PB_ATYPE_POINTER) then ext_dest_at ext else dest in
  mret (Iter (start it) (pos it) (required_field_index it) (dest_struct it) pData (In_message (ext_found_at ext))).
End Access.

(** ** Initial values *)

Section Defaults.
Context {Y : Type} `{!Tables, !Extensions}.
Abbreviation M := (run (machine Y)).


(** The data of a static field; [ptr] of a field that is no submessage has no table to point at. *)
Definition set_static_data (set_message : pb_fields → Z → M unit) (it : pb_field_iter) : M unit :=
  let f := field_at it in
  if decide (PB_LTYPE (type f) = PB_LTYPE_SUBMESSAGE) then
    match ptr f with Submsg id => set_message (fields_of id) (pData it) | _ => undefined end
  else
    match ptr f with
    | Null => memset_zero (pData it) (data_size f)
    | Default value => if Z.of_nat (length value) <? data_size f then undefined else store_at (pData it) (take (Z.to_nat (data_size f)) value)
    | Submsg _ => undefined
    end.

Definition clear_count (it : pb_field_iter) : M unit :=
  match PB_HTYPE (type (field_at it)) with
  | PB_HTYPE_REPEATED | PB_HTYPE_ONEOF => store_size (pSize it) 0
  | _ => mret tt
  end.

Definition set_field_to_default (set_extension : pb_field_iter → M unit) (set_message : pb_fields → Z → M unit) (chain : nat)
    (it : pb_field_iter) : M unit :=
  let f := field_at it in
  if decide (PB_LTYPE (type f) = PB_LTYPE_EXTENSION) then
    ext ← load_pointer (pData it);
    extension_chain chain (λ ext, _ ← store_flag (In_message (ext_found_at ext)) false; it ← iter_from_extension ext; set_extension it) ext
  else
    match PB_ATYPE (type f) with
    | PB_ATYPE_STATIC =>
        match PB_HTYPE (type f) with
        | PB_HTYPE_OPTIONAL =>
            _ ← (if size_is_data it then mret tt else store_flag (pSize it) false);
            set_static_data set_message it
        | PB_HTYPE_REQUIRED => set_static_data set_message it
        | PB_HTYPE_REPEATED | PB_HTYPE_ONEOF => store_size (pSize it) 0
        end
    | PB_ATYPE_POINTER => _ ← store_pointer (pData it) 0; clear_count it
    | PB_ATYPE_CALLBACK | Invalid_atype => mret tt
    end.

Fixpoint pb_message_set_to_defaults (stack : nat) (fields : pb_fields) (dest : Z) {struct stack} : M unit :=
  match stack with
  | O => undefined
  | S stack =>
      let '(ok, it) := pb_field_iter_begin fields dest in
      if ok : bool then for_fields (pb_field_set_to_default stack) it else mret tt
  end
with pb_field_set_to_default (stack : nat) (it : pb_field_iter) {struct stack} : M unit :=
  match stack with
  | O => undefined
  | S stack => set_field_to_default (pb_field_set_to_default stack) (pb_message_set_to_defaults stack) (S stack) it
  end.
End Defaults.

(** ** Releasing messages *)

Section Release.
Context {Y : Type} `{!Tables, !Extensions}.
Abbreviation M := (run (machine Y)).

Definition pb_free (p : Z) : M unit := on_memory (λ m, m ← free p m; Some (tt, m)).
(** The items of an array of submessages. *)
Fixpoint release_items (release : pb_fields → Z → M unit) (fields : pb_fields) (data_size : Z) (count : nat) (pItem : Z) : M unit :=
  match count with
  | O => mret tt
  | S count => _ ← release fields pItem; release_items release fields data_size count (pItem + data_size)
  end.
(** The items of an array of strings or byte arrays: pointers. *)
Fixpoint free_items (count : nat) (pItem : Z) : M unit :=
  match count with
  | O => mret tt
  | S count =>
      p ← load_pointer pItem;
      _ ← pb_free p;
      _ ← store_pointer pItem 0;
      free_items count (pItem + sizeof_ptr)
  end.
Definition is_string_or_bytes (f : pb_field) : bool :=
  bool_decide (PB_LTYPE (type f) = PB_LTYPE_STRING ∨ PB_LTYPE (type f) = PB_LTYPE_BYTES).

(** How many submessages a field holds. *)
Definition submessage_count (it : pb_field_iter) : M Z :=
  let f := field_at it in
  if decide (PB_HTYPE (type f) = PB_HTYPE_REPEATED) then
    let static := bool_decide (PB_ATYPE (type f) = PB_ATYPE_STATIC) in
    count ← (if static && size_is_data it then mret (array_size f) else load_size (pSize it));
    mret (if static && (array_size f <? count) then array_size f else count)
  else mret 1.
Definition release_submessages (release : pb_fields → Z → M unit) (it : pb_field_iter) : M unit :=
  let f := field_at it in
  pItem ← (if decide (PB_ATYPE (type f) = PB_ATYPE_POINTER) then load_pointer (pData it) else mret (pData it));
  count ← submessage_count it;
  if pItem =? 0 then mret tt
  else
    match ptr f with
    | Submsg id => release_items release (fields_of id) (data_size f) (Z.to_nat count) pItem
    | _ => if count =? 0 then mret tt else undefined
    end.
Definition release_pointer (it : pb_field_iter) : M unit :=
  let f := field_at it in
  let repeated := bool_decide (PB_HTYPE (type f) = PB_HTYPE_REPEATED) in
  _ ← (if repeated && is_string_or_bytes f then
         pItem ← load_pointer (pData it);
         count ← load_size (pSize it);
         free_items (Z.to_nat count) pItem
       else mret tt);
  _ ← (if repeated then store_size (pSize it) 0 else mret tt);
  p ← load_pointer (pData it);
  _ ← pb_free p;
  store_pointer (pData it) 0.
Definition release_field (release_extension : pb_field_iter → M unit) (release : pb_fields → Z → M unit) (chain : nat) (it : pb_field_iter) : M unit :=
  let f := field_at it in
  current ← (if decide (PB_HTYPE (type f) = PB_HTYPE_ONEOF) then which ← load_size (pSize it); mret (which =? tag f) else mret true);
  if negb current then mret tt
  else
    _ ← (if decide (PB_LTYPE (type f) = PB_LTYPE_EXTENSION) then
           ext ← load_pointer (pData it);
           extension_chain chain (λ ext, it ← iter_from_extension ext; release_extension it) ext
         else if decide (PB_LTYPE (type f) = PB_LTYPE_SUBMESSAGE ∧ PB_ATYPE (type f) ≠ PB_ATYPE_CALLBACK) then
           release_submessages release it
         else mret tt);
    if decide (PB_ATYPE (type f) = PB_ATYPE_POINTER) then release_pointer it else mret tt.

Fixpoint pb_release (stack : nat) (fields : pb_fields) (dest : Z) {struct stack} : M unit :=
  match stack with
  | O => undefined
  | S stack =>
      if dest =? 0 then mret tt
      else
        let '(ok, it) := pb_field_iter_begin fields dest in
        if ok : bool then for_fields (pb_release_single_field stack) it else mret tt
  end
with pb_release_single_field (stack : nat) (it : pb_field_iter) {struct stack} : M unit :=
  match stack with
  | O => undefined
  | S stack => release_field (pb_release_single_field stack) (pb_release stack) (S stack) it
  end.

(** Before another member of a union is decoded.  The iterator ends up where it was. *)
Definition pb_release_union_field (stack : nat) (it : pb_field_iter) : M pb_field_iter :=
  old_tag ← load_size (pSize it);
  let new_tag := tag (field_at it) in
  if (old_tag =? 0) || (old_tag =? new_tag) then mret it
  else
    let '(found, it) := pb_field_iter_find it old_tag in
    if negb found then error "invalid union tag"
    else
      _ ← pb_release_single_field stack it;
      let '(found, it) := pb_field_iter_find it new_tag in
      if negb found then error "iterator error"
      else
        _ ← (if decide (PB_ATYPE (type (field_at it)) = PB_ATYPE_POINTER) then store_pointer (pData it) 0 else mret tt);
        mret it.
End Release.

(** ** Values of single fields *)

Section Values.
Context {Y : Type} `{!Source Y, !Allocator}.
Abbreviation M := (run (machine Y)).

Definition pb_dec_bool (dest : Z) : M unit := value ← on_input pb_decode_varint32; store_at dest [if value =? 0 then 0 else 1].
Definition pb_dec_varint (field : pb_field) (dest : Z) : M unit :=
  value ← on_input pb_decode_varint;
  let svalue := if data_size field =? 8 then s64 value else s32 value in
  if int_size (data_size field) then
    _ ← store_at dest (object_bytes (data_size field) svalue);
    if swrap (8 * data_size field) svalue =? svalue then mret tt else error "integer too large"
  else error "invalid data_size".
Definition pb_dec_uvarint (field : pb_field) (dest : Z) : M unit :=
  value ← on_input pb_decode_varint;
  if int_size (data_size field) then
    _ ← store_at dest (object_bytes (data_size field) value);
    if wrap (8 * data_size field) value =? value then mret tt else error "integer too large"
  else error "invalid data_size".
Definition pb_dec_svarint (field : pb_field) (dest : Z) : M unit :=
  value ← on_input pb_decode_svarint;
  if int_size (data_size field) then
    _ ← store_at dest (object_bytes (data_size field) value);
    if swrap (8 * data_size field) value =? value then mret tt else error "integer too large"
  else error "invalid data_size".
Definition pb_dec_fixed32 (dest : Z) : M unit := v ← on_input pb_decode_fixed32; store_at dest (object_bytes 4 v).
Definition pb_dec_fixed64 (dest : Z) : M unit := v ← on_input pb_decode_fixed64; store_at dest (object_bytes 8 v).

(** [pb_read] into memory. *)
Definition read_to (dest count : Z) : M unit := bs ← on_input (pb_read true count); store_at dest bs.

Definition allocate_field (pData data_size array_size : Z) : M unit :=
  ptr ← load_pointer pData;
  if (data_size =? 0) || (array_size =? 0) then error "invalid size"
  else
    let check_limit := 2 ^ 32 in
    if ((check_limit <=? data_size) || (check_limit <=? array_size)) && ((2 ^ 64 - 1) / array_size <? data_size)
    then error "size too large"
    else
      ptr ← on_memory (realloc ptr (u64 (array_size * data_size)));
      if ptr =? 0 then error "realloc failed" else store_pointer pData ptr.

(** [offsetof(pb_bytes_array_t, bytes)]. *)
Definition bytes_offset : Z := 4.
Definition pb_dec_bytes (field : pb_field) (dest : Z) : M unit :=
  size ← on_input pb_decode_varint32;
  if PB_SIZE_MAX <? size then error "bytes overflow"
  else
    let alloc_size := u64 (size + bytes_offset) in
    if alloc_size <? size then error "size too large"
    else
      bdest ← (if decide (PB_ATYPE (type field) = PB_ATYPE_POINTER) then
                 s ← run_get;
                 if bytes_left (input s) <? size then error "end-of-stream"
                 else _ ← allocate_field dest alloc_size 1; load_pointer dest
               else if data_size field <? alloc_size then error "bytes overflow" else mret dest);
      _ ← store_at bdest (le_bytes 4 size);
      read_to (bdest + bytes_offset) size.

(** The terminator is stored whether or not the bytes could be read.  [size + 1] is computed in 32 bits. *)
Definition pb_dec_string (field : pb_field) (dest : Z) : M unit :=
  size ← on_input pb_decode_varint32;
  let alloc_size := u32 (size + 1) in
  if alloc_size <? size then error "size too large"
  else
    dest ← (if decide (PB_ATYPE (type field) = PB_ATYPE_POINTER) then
              s ← run_get;
              if bytes_left (input s) <? size then error "end-of-stream"
              else _ ← allocate_field dest alloc_size 1; load_pointer dest
            else if data_size field <? alloc_size then error "string overflow" else mret dest);
    status ← run_status (read_to dest size);
    _ ← store_at (dest + size) [0];
    run_return status.

Definition pb_dec_fixed_length_bytes (field : pb_field) (dest : Z) : M unit :=
  size ← on_input pb_decode_varint32;
  if PB_SIZE_MAX <? size then error "bytes overflow"
  else if size =? 0 then memset_zero dest (data_size field)
  else if negb (size =? data_size field) then error "incorrect fixed length bytes size"
  else read_to dest (data_size field).

Definition pb_dec_submessage (decode decode_noinit : pb_fields → Z → M unit) `{!Tables} (field : pb_field) (dest : Z) : M unit :=
  substream ← on_input pb_make_string_substream;
  match ptr field with
  | Null => error "invalid field descriptor"
  | Default _ => undefined
  | Submsg id =>
      '(status, substream) ← on_substream substream
        (if decide (PB_HTYPE (type field) = PB_HTYPE_REPEATED) then decode (fields_of id) dest else decode_noinit (fields_of id) dest);
      _ ← on_input (pb_close_string_substream substream);
      match status with Some _ => mret tt | None => run_fail end
  end.

(** The table [PB_DECODERS]; it has no entry for extensions and ends before the invalid types. *)
Definition PB_DECODERS (decode decode_noinit : pb_fields → Z → M unit) `{!Tables} (field : pb_field) (dest : Z) : M unit :=
  match PB_LTYPE (type field) with
  | Scalar PB_LTYPE_BOOL => pb_dec_bool dest
  | Scalar PB_LTYPE_VARINT => pb_dec_varint field dest
  | Scalar PB_LTYPE_UVARINT => pb_dec_uvarint field dest
  | Scalar PB_LTYPE_SVARINT => pb_dec_svarint field dest
  | Scalar PB_LTYPE_FIXED32 => pb_dec_fixed32 dest
  | Scalar PB_LTYPE_FIXED64 => pb_dec_fixed64 dest
  | PB_LTYPE_BYTES => pb_dec_bytes field dest
  | PB_LTYPE_STRING => pb_dec_string field dest
  | PB_LTYPE_SUBMESSAGE => pb_dec_submessage decode decode_noinit field dest
  | PB_LTYPE_FIXED_LENGTH_BYTES => pb_dec_fixed_length_bytes field dest
  | PB_LTYPE_EXTENSION | Invalid_ltype _ => undefined
  end.
End Values.

(** ** Fields *)

Section Fields.
Context {Y : Type} `{!Source Y, !Tables, !Extensions, !Callbacks, !Allocator}.
Abbreviation M := (run (machine Y)).
(** The depth of the C stack, [pb_decode] and [pb_decode_noinit]. *)
Context (stack : nat) (decode decode_noinit : pb_fields → Z → M unit).
Definition func (field : pb_field) (dest : Z) : M unit := PB_DECODERS decode decode_noinit field dest.

(** The address of an item is computed in 32 bits. *)
Definition item_offset (f : pb_field) (size : Z) : Z := u32 (data_size f * size).

(** The packed branch of [decode_static_field]: the loop runs on the substream. *)
Fixpoint static_packed_loop (fuel : nat) (it : pb_field_iter) : M unit :=
  match fuel with
  | O => undefined
  | S fuel =>
      s ← run_get;
      size ← (if 0 <? bytes_left (input s) then load_size (pSize it) else mret 0);
      if (0 <? bytes_left (input s)) && (size <? array_size (field_at it)) then
        _ ← func (field_at it) (pData it + item_offset (field_at it) size);
        size ← load_size (pSize it);
        _ ← store_size (pSize it) (u32 (size + 1));
        static_packed_loop fuel it
      else mret tt
  end.
Definition decode_static_packed (it : pb_field_iter) : M unit :=
  substream ← on_input pb_make_string_substream;
  '(status, substream) ← on_substream substream (static_packed_loop (S (Z.to_nat (bytes_left substream))) it);
  if negb (bytes_left substream =? 0) then error "array overflow"
  else
    _ ← on_input (pb_close_string_substream substream);
    match status with Some _ => mret tt | None => run_fail end.
Definition decode_static_field (wire_type : wire_type) (it : pb_field_iter) : M unit :=
  let f := field_at it in
  match PB_HTYPE (type f) with
  | PB_HTYPE_REQUIRED => func f (pData it)
  | PB_HTYPE_OPTIONAL =>
      _ ← (if size_is_data it then mret tt else store_flag (pSize it) true);
      func f (pData it)
  | PB_HTYPE_REPEATED =>
      match wire_type, packable (PB_LTYPE (type f)) with
      | PB_WT_STRING, true => decode_static_packed it
      | _, _ =>
          size ← load_size (pSize it);
          _ ← store_size (pSize it) (u32 (size + 1));
          if array_size f <=? size then error "array overflow"
          else func f (pData it + item_offset f size)
      end
  | PB_HTYPE_ONEOF =>
      _ ← (if decide (PB_LTYPE (type f) = PB_LTYPE_SUBMESSAGE) then
             which ← load_size (pSize it);
             if negb (which =? tag f) then
               _ ← memset_zero (pData it) (data_size f);
               match ptr f with Submsg id => pb_message_set_to_defaults stack (fields_of id) (pData it) | _ => undefined end
             else mret tt
           else mret tt);
      _ ← store_size (pSize it) (tag f);
      func f (pData it)
  end.

Definition initialize_pointer_field (pItem : Z) (it : pb_field_iter) : M unit :=
  let f := field_at it in
  if is_string_or_bytes f then store_pointer pItem 0
  else if decide (PB_LTYPE (type f) = PB_LTYPE_SUBMESSAGE) then
    _ ← memset_zero pItem (data_size f);
    match ptr f with Submsg id => pb_message_set_to_defaults stack (fields_of id) pItem | _ => undefined end
  else mret tt.

Definition set_error_message (msg : string) : M unit := on_input (st_modify (λ s, Istream (state s) (bytes_left s) (Some msg))).
(** The room for the items that may still come. *)
Definition guess_size (f : pb_field) (left allocated : Z) : Z :=
  let remain := (left - 1) / data_size f + 1 in
  if remain <? u64 (PB_SIZE_MAX - allocated) then allocated + remain else u64 (allocated + 1).
(** The loop runs on the substream; the results are its status and the message it sets on the stream itself. *)
Fixpoint pointer_packed_loop (fuel : nat) (it : pb_field_iter) (allocated : Z) : M (bool * option string) :=
  match fuel with
  | O => undefined
  | S fuel =>
      let f := field_at it in
      s ← run_get;
      if bytes_left (input s) =? 0 then mret (true, None)
      else
        size ← load_size (pSize it);
        if size =? PB_SIZE_MAX then mret (false, Some "too many array entries")
        else
          let grow := allocated <? size + 1 in
          if grow && (data_size f =? 0) then undefined
          else
            let allocated := if grow then guess_size f (bytes_left (input s)) allocated else allocated in
            ok ← (if grow then run_status (allocate_field (pData it) (data_size f) allocated) else mret true);
            if negb ok then mret (false, None)
            else
              array ← load_pointer (pData it);
              let pItem := array + item_offset f size in
              if pItem =? 0 then mret (false, None)
              else
                _ ← initialize_pointer_field pItem it;
                ok ← run_status (func f pItem);
                if negb ok then mret (false, None)
                else
                  size ← load_size (pSize it);
                  _ ← store_size (pSize it) (u32 (size + 1));
                  pointer_packed_loop fuel it allocated
  end.
Definition decode_pointer_packed (it : pb_field_iter) : M unit :=
  size ← load_size (pSize it);
  substream ← on_input pb_make_string_substream;
  '(r, substream) ← on_substream substream (pointer_packed_loop (S (Z.to_nat (bytes_left substream))) it size);
  match r with
  | None => undefined
  | Some (status, message) =>
      _ ← (if message is Some msg then set_error_message msg else mret tt);
      _ ← on_input (pb_close_string_substream substream);
      run_return status
  end.
Definition decode_pointer_field (wire_type : wire_type) (it : pb_field_iter) : M unit :=
  let f := field_at it in
  match PB_HTYPE (type f) with
  | PB_HTYPE_REQUIRED | PB_HTYPE_OPTIONAL | PB_HTYPE_ONEOF =>
      _ ← (if decide (PB_LTYPE (type f) = PB_LTYPE_SUBMESSAGE) then
             p ← load_pointer (pData it);
             if negb (p =? 0) then pb_release_single_field stack it else mret tt
           else mret tt);
      _ ← (if decide (PB_HTYPE (type f) = PB_HTYPE_ONEOF) then store_size (pSize it) (tag f) else mret tt);
      if is_string_or_bytes f then func f (pData it)
      else
        _ ← allocate_field (pData it) (data_size f) 1;
        p ← load_pointer (pData it);
        _ ← initialize_pointer_field p it;
        p ← load_pointer (pData it);
        func f p
  | PB_HTYPE_REPEATED =>
      match wire_type, packable (PB_LTYPE (type f)) with
      | PB_WT_STRING, true => decode_pointer_packed it
      | _, _ =>
          size ← load_size (pSize it);
          if size =? PB_SIZE_MAX then error "too many array entries"
          else
            _ ← allocate_field (pData it) (data_size f) (u32 (size + 1));
            array ← load_pointer (pData it);
            let pItem := array + item_offset f size in
            _ ← store_size (pSize it) (u32 (size + 1));
            _ ← initialize_pointer_field pItem it;
            func f pItem
      end
  end.

(** The raw bytes of a scalar, at most [max_size]. *)
Fixpoint raw_varint_loop (fuel : nat) (size max_size : Z) : M bytes :=
  match fuel with
  | O => undefined
  | S fuel =>
      let size := size + 1 in
      if max_size <? size then run_fail
      else
        b ← on_input (pb_read true 1);
        if hd 0 b .& 0x80 =? 0 then mret b else bs ← raw_varint_loop fuel size max_size; mret (b ++ bs)
  end.
Definition read_raw_value (wire_type : wire_type) (max_size : Z) : M bytes :=
  match wire_type with
  | PB_WT_VARINT => raw_varint_loop (S (Z.to_nat max_size)) 0 max_size
  | PB_WT_64BIT => on_input (pb_read true 8)
  | PB_WT_32BIT => on_input (pb_read true 4)
  | PB_WT_STRING | Invalid_wire_type _ => error "invalid wire_type"
  end.
(** The callback is called until it has taken the whole string. *)
Fixpoint callback_loop (fuel : nat) (callback : M unit) : M unit :=
  match fuel with
  | O => undefined
  | S fuel =>
      _ ← callback;
      s ← run_get;
      if bytes_left (input s) =? 0 then mret tt else callback_loop fuel callback
  end.
Definition decode_callback_field (wire_type : wire_type) (it : pb_field_iter) : M unit :=
  let f := field_at it in
  if pData it =? 0 then on_input (pb_skip_field wire_type)
  else
    callback ← load_pointer (pData it);
    if callback =? 0 then on_input (pb_skip_field wire_type)
    else
      let arg := pData it + sizeof_ptr in
      match wire_type with
      | PB_WT_STRING =>
          substream ← on_input pb_make_string_substream;
          '(status, substream) ← on_substream substream (callback_loop stack (user_decode Y callback f arg));
          match status with
          | None => error "callback failed"
          | Some _ => on_input (pb_close_string_substream substream)
          end
      | _ =>
          buffer ← read_raw_value wire_type 10;
          on_buffer buffer (user_decode bytes callback f arg)
      end.

(** The iterator comes back: its [pSize] may have been computed anew. *)
Definition decode_field (wire_type : wire_type) (it : pb_field_iter) : M pb_field_iter :=
  it ← (if decide (PB_HTYPE (type (field_at it)) = PB_HTYPE_ONEOF) then pb_release_union_field stack it else mret it);
  _ ← match PB_ATYPE (type (field_at it)) with
      | PB_ATYPE_STATIC => decode_static_field wire_type it
      | PB_ATYPE_POINTER => decode_pointer_field wire_type it
      | PB_ATYPE_CALLBACK => decode_callback_field wire_type it
      | Invalid_atype => error "invalid field type"
      end;
  mret it.

(** ** Extensions *)

Definition default_extension_decoder (ext : Z) (tag_ : Z) (wire_type : wire_type) : M unit :=
  type_ ← load_pointer ext;
  if negb (tag (ext_arg (extension_type type_)) =? tag_) then mret tt
  else
    it ← iter_from_extension ext;
    _ ← store_flag (In_message (ext_found_at ext)) true;
    _ ← decode_field wire_type it;
    mret tt.
Fixpoint extension_loop (fuel : nat) (tag_ : Z) (wire_type : wire_type) (pos ext : Z) : M unit :=
  match fuel with
  | O => undefined
  | S fuel =>
      s ← run_get;
      if negb (ext =? 0) && (pos =? bytes_left (input s)) then
        type_ ← load_pointer ext;
        let decode_ := ext_decode (extension_type type_) in
        _ ← (if negb (decode_ =? 0) then user_decode_extension Y decode_ ext tag_ wire_type else default_extension_decoder ext tag_ wire_type);
        next ← load_pointer (ext_next_at ext);
        extension_loop fuel tag_ wire_type pos next
      else mret tt
  end.
Definition decode_extension (tag_ : Z) (wire_type : wire_type) (it : pb_field_iter) : M unit :=
  ext ← load_pointer (pData it);
  s ← run_get;
  extension_loop stack tag_ wire_type (bytes_left (input s)) ext.
End Fields.

(** ** Messages *)

Definition PB_MAX_REQUIRED_FIELDS : Z := 64.
Definition allbits : Z := 2 ^ 32 - 1.
(** [fields_seen] is an array of two words. *)
Definition mark_seen (index : Z) (fields_seen : list Z) : list Z :=
  alter (λ w, w .| (1 <<32 (index .& 31))) (Z.to_nat (index >>> 5)) fields_seen.

Section Messages.
Context {Y : Type} `{!Source Y, !Tables, !Extensions, !Callbacks, !Allocator}.
Abbreviation M := (run (machine Y)).

Section Loop.
Context (stack : nat) (decode decode_noinit : pb_fields → Z → M unit).

(** A field that no entry describes: an extension, or skipped.  The results are the iterator and [extension_range_start]. *)
Definition decode_unknown (tag_ : Z) (wire_type : wire_type) (it : pb_field_iter) (extension_range_start : Z) : M (pb_field_iter * Z) :=
  if extension_range_start <=? tag_ then
    let '(found, it) := find_extension_field it in
    let extension_range_start := if found : bool then tag (field_at it) else 2 ^ 32 - 1 in
    if extension_range_start <=? tag_ then
      s ← run_get;
      let pos := bytes_left (input s) in
      _ ← decode_extension stack decode decode_noinit tag_ wire_type it;
      s ← run_get;
      if negb (pos =? bytes_left (input s)) then mret (it, extension_range_start)
      else _ ← on_input (pb_skip_field wire_type); mret (it, extension_range_start)
    else _ ← on_input (pb_skip_field wire_type); mret (it, extension_range_start)
  else _ ← on_input (pb_skip_field wire_type); mret (it, extension_range_start).

(** An array of fixed length, which has no counter in the message, is counted in a variable; [fixed] is
    the position of the array that is being counted. *)
Definition wrong_fixed_count (fixed : option nat) (fields : pb_fields) (count : Z) : bool :=
  match fixed with None => false | Some k => negb (count =? array_size (nth k fields PB_LAST_FIELD)) end.
Definition count_fixed (it : pb_field_iter) (fixed : option nat) : M (pb_field_iter * option nat) :=
  if decide (PB_HTYPE (type (field_at it)) = PB_HTYPE_REPEATED) then
    if size_is_data it then
      s ← run_get;
      let it' := Iter (start it) (pos it) (required_field_index it) (dest_struct it) (pData it) In_decoder in
      if decide (fixed = Some (pos it)) then mret (it', fixed)
      else if wrong_fixed_count fixed (start it) (fixed_count_size s) then error "wrong size for fixed count field"
      else _ ← store_size In_decoder 0; mret (it', Some (pos it))
    else mret (it, fixed)
  else mret (it, fixed).
Definition see_required (it : pb_field_iter) (fields_seen : list Z) : list Z :=
  if bool_decide (PB_HTYPE (type (field_at it)) = PB_HTYPE_REQUIRED) && (required_field_index it <? PB_MAX_REQUIRED_FIELDS)
  then mark_seen (required_field_index it) fields_seen else fields_seen.

Record progress := Progress { p_iter : pb_field_iter; p_extension : Z; p_fixed : option nat; p_seen : list Z }.
(** [while (stream->bytes_left)]. *)
Fixpoint decode_loop (fuel : nat) (p : progress) : M progress :=
  match fuel with
  | O => undefined
  | S fuel =>
      s ← run_get;
      if bytes_left (input s) =? 0 then mret p
      else
        '(r, eof) ← (λ s, let '(x, i) := pb_decode_tag (input s) in Some (Some x, Machine i (mem s) (fixed_count_size s)));
        match r with
        | None => if eof : bool then mret p else run_fail
        | Some (wire_type, tag_) =>
            let '(found, it) := pb_field_iter_find (p_iter p) tag_ in
            if negb found then
              '(it, ext) ← decode_unknown tag_ wire_type it (p_extension p);
              decode_loop fuel (Progress it ext (p_fixed p) (p_seen p))
            else
              '(it, fixed) ← count_fixed it (p_fixed p);
              let seen := see_required it (p_seen p) in
              it ← decode_field stack decode decode_noinit wire_type it;
              decode_loop fuel (Progress it (p_extension p) fixed seen)
        end
  end.
End Loop.

(** The number of required fields: the walk goes on to the end of the table. *)
Fixpoint count_required (fuel : nat) (it : pb_field_iter) : Z :=
  match fuel with
  | O => 0
  | S fuel =>
      let req_field_count := required_field_index it in
      let last_type := type (field_at it) in
      let '(more, it) := pb_field_iter_next it in
      if more : bool then count_required fuel it
      else if bool_decide (PB_HTYPE last_type = PB_HTYPE_REQUIRED) && negb (tag (field_at it) =? 0) then u32 (req_field_count + 1)
      else req_field_count
  end.
Definition missing_required (it : pb_field_iter) (fields_seen : list Z) : bool :=
  let count := count_required (S (length (start it))) it in
  let count := if PB_MAX_REQUIRED_FIELDS <? count then PB_MAX_REQUIRED_FIELDS else count in
  if 0 <? count then
    existsb (λ w, negb (w =? allbits)) (take (Z.to_nat (count >>> 5)) fields_seen)
    || (negb (count .& 31 =? 0) && negb (nth (Z.to_nat (count >>> 5)) fields_seen 0 =? allbits >>> (32 - (count .& 31))))
  else false.

(** The body of [pb_decode_noinit], and a fresh [fixed_count_size] for it. *)
Definition decode_message (stack : nat) (decode decode_noinit : pb_fields → Z → M unit) (fields : pb_fields) (dest : Z) : M unit :=
  s ← run_get;
  p ← decode_loop stack decode decode_noinit (S (Z.to_nat (bytes_left (input s))))
        (Progress (pb_field_iter_begin fields dest).2 0 None [0; 0]);
  s ← run_get;
  if wrong_fixed_count (p_fixed p) fields (fixed_count_size s) then error "wrong size for fixed count field"
  else if missing_required (p_iter p) (p_seen p) then error "missing required field"
  else mret tt.
Definition with_count {A} (m : M A) : M A := λ s,
  match m (Machine (input s) (mem s) 0) with
  | Some (r, s') => Some (r, Machine (input s') (mem s') (fixed_count_size s))
  | None => None
  end.

(** [pb_decode]: a message that cannot be decoded is released. *)
Definition decode_init (stack : nat) (decode_noinit : pb_fields → Z → M unit) (fields : pb_fields) (dest : Z) : M unit :=
  _ ← pb_message_set_to_defaults stack fields dest;
  status ← run_status (decode_noinit fields dest);
  if negb status then _ ← pb_release stack fields dest; run_fail else mret tt.
Fixpoint pb_decode_noinit (stack : nat) (fields : pb_fields) (dest : Z) : M unit :=
  match stack with
  | O => undefined
  | S stack => with_count (decode_message stack (decode_init stack (pb_decode_noinit stack)) (pb_decode_noinit stack) fields dest)
  end.
Definition pb_decode (stack : nat) (fields : pb_fields) (dest : Z) : M unit := decode_init stack (pb_decode_noinit stack) fields dest.

Definition delimited (decode : pb_fields → Z → M unit) (fields : pb_fields) (dest : Z) : M unit :=
  substream ← on_input pb_make_string_substream;
  '(status, substream) ← on_substream substream (decode fields dest);
  _ ← on_input (pb_close_string_substream substream);
  match status with Some _ => mret tt | None => run_fail end.
Definition pb_decode_delimited_noinit (stack : nat) := delimited (pb_decode_noinit stack).
Definition pb_decode_delimited (stack : nat) := delimited (pb_decode stack).
Definition pb_decode_nullterminated (stack : nat) := pb_decode stack.
End Messages.
