(* ===== verification/PbEncode.v ===== *)
(** * Encoding messages described by tables ([nanopb/pb_encode.c])

    The encoder reads the message in memory, which it does not change, and writes to an output
    stream.  As in the decoder, an access outside live objects has no result, and functions that
    call each other recursively take the depth of the C stack they may use. *)
From stdpp Require Import strings gmap.
From S2P Require Export PbTable.

(** Functions of the user. *)
Class Encoders (X : Type) := {
  user_encode : Z → pb_field → Z → memory → run (pb_ostream X) unit;
  user_encode_extension : Z → Z → memory → run (pb_ostream X) unit }.

Section Encode.
Context {X : Type} `{!Sink X, !Tables, !Extensions, !Encoders X} (m : memory).
Abbreviation M := (run (pb_ostream X)).

Definition to_output {A} (c : st (pb_ostream X) A) : M A := λ s, Some (c s).
Definition fail_with {A} (msg : string) : M A := to_output (out_error msg).
Definition read_at (n a : Z) : M bytes := λ s, match load n a m with Some bs => Some (Some bs, s) | None => None end.
Definition read_size (a : Z) : M Z := bs ← read_at sizeof_size a; mret (u32 (le_val bs)).
Definition read_pointer (a : Z) : M Z := bs ← read_at sizeof_ptr a; mret (le_val bs).
Definition safe_read_bool (a : Z) : M bool := bs ← read_at 1 a; mret (negb (hd 0 bs =? 0)).

(** [pb_write] of bytes in memory: they are only looked at when the stream takes them. *)
Definition write_from (a count : Z) : M unit :=
  s ← run_get;
  let full := (u64 (bytes_written s + count) <? bytes_written s) || (max_size s <? u64 (bytes_written s + count)) in
  if (0 <? count) && o_callback s && negb full then bs ← read_at count a; to_output (pb_write bs count)
  else to_output (pb_write [] count).
(** [pb_encode_string] of bytes in memory. *)
Definition encode_string_at (a size : Z) : M unit := _ ← to_output (pb_encode_varint size); write_from a size.

(** ** Values *)

Definition pb_enc_bool (src : Z) : M unit := b ← safe_read_bool src; to_output (pb_encode_varint (if b : bool then 1 else 0)).
Definition read_object (field : pb_field) (src : Z) : M Z := bs ← read_at (data_size field) src; mret (le_val bs).
Definition pb_enc_varint (field : pb_field) (src : Z) : M unit :=
  if int_size (data_size field) then v ← read_object field src; to_output (pb_encode_varint (u64 (swrap (8 * data_size field) v)))
  else fail_with "invalid data_size".
Definition pb_enc_uvarint (field : pb_field) (src : Z) : M unit :=
  if int_size (data_size field) then v ← read_object field src; to_output (pb_encode_varint v)
  else fail_with "invalid data_size".
Definition pb_enc_svarint (field : pb_field) (src : Z) : M unit :=
  if int_size (data_size field) then v ← read_object field src; to_output (pb_encode_svarint (swrap (8 * data_size field) v))
  else fail_with "invalid data_size".
Definition pb_enc_fixed32 (src : Z) : M unit := bs ← read_at 4 src; to_output (pb_encode_fixed32 (le_val bs)).
Definition pb_enc_fixed64 (src : Z) : M unit := bs ← read_at 8 src; to_output (pb_encode_fixed64 (le_val bs)).
(** [data_size - offsetof(...)] is computed in 64 bits. *)
Definition pb_enc_bytes (field : pb_field) (src : Z) : M unit :=
  if src =? 0 then to_output (pb_encode_string [] 0)
  else
    exceeded ← (if decide (PB_ATYPE (type field) = PB_ATYPE_STATIC)
                then size ← read_size src; mret (u64 (data_size field - 4) <? size) else mret false);
    if exceeded : bool then fail_with "bytes size exceeded"
    else size ← read_size src; encode_string_at (src + 4) size.
(** The length of a string, at most [max_size]; a string that does not end leaves the memory. *)
Fixpoint strnlen_loop (fuel : nat) (size max_size p : Z) : M Z :=
  match fuel with
  | O => undefined
  | S fuel =>
      if size <? max_size then
        c ← read_at 1 p;
        if hd 0 c =? 0 then mret size else strnlen_loop fuel (size + 1) max_size (p + 1)
      else mret size
  end.
Definition pb_enc_string (field : pb_field) (src : Z) : M unit :=
  let max_size := if decide (PB_ATYPE (type field) = PB_ATYPE_POINTER) then 2 ^ 64 - 1 else data_size field in
  size ← (if src =? 0 then mret 0 else strnlen_loop (S (size (cells m))) 0 max_size src);
  encode_string_at src size.
Definition pb_enc_fixed_length_bytes (field : pb_field) (src : Z) : M unit := encode_string_at src (data_size field).

Definition wire_type_for (t : pb_ltype) : option wire_type :=
  match t with
  | Scalar t => Some (scalar_wire_type t)
  | PB_LTYPE_BYTES | PB_LTYPE_STRING | PB_LTYPE_SUBMESSAGE | PB_LTYPE_FIXED_LENGTH_BYTES => Some PB_WT_STRING
  | PB_LTYPE_EXTENSION | Invalid_ltype _ => None
  end.
Definition pb_encode_tag_for_field (field : pb_field) : M unit :=
  match wire_type_for (PB_LTYPE (type field)) with
  | None => fail_with "invalid field type"
  | Some w => to_output (pb_encode_tag w (tag field))
  end.

(** [pb_encode_submessage]: [encode] is [pb_encode] of the message. *)
Definition write_nested (encode : M unit) (size : Z) : M unit :=
  s ← run_get;
  if negb (o_callback s) then to_output (pb_write [] size)
  else if max_size s <? u64 (bytes_written s + size) then fail_with "stream full"
  else
    match encode (Ostream (o_callback s) (o_state s) size 0 None) with
    | None => undefined
    | Some (status, substream) =>
        _ ← to_output (set_bytes_written (u64 (bytes_written s + bytes_written substream)));
        _ ← to_output (set_state (o_state substream));
        _ ← to_output (set_errmsg (o_errmsg substream));
        if negb (bytes_written substream =? size) then fail_with "submsg size changed"
        else match status with Some _ => mret tt | None => run_fail end
    end.
Definition pb_encode_submessage (encode : M unit) : M unit :=
  s ← run_get;
  match encode (PB_OSTREAM_SIZING (o_state s)) with
  | None => undefined
  | Some (None, substream) => _ ← to_output (set_errmsg (o_errmsg substream)); run_fail
  | Some (Some _, substream) =>
      let size := bytes_written substream in
      _ ← to_output (pb_encode_varint size);
      write_nested encode size
  end.

Section Fields.
(** [pb_encode]. *)
Context (encode : pb_fields → Z → M unit).

Definition pb_enc_submessage (field : pb_field) (src : Z) : M unit :=
  match ptr field with
  | Null => fail_with "invalid field descriptor"
  | Default _ => undefined
  | Submsg id => pb_encode_submessage (encode (fields_of id) src)
  end.
Definition PB_ENCODERS (field : pb_field) (src : Z) : M unit :=
  match PB_LTYPE (type field) with
  | Scalar PB_LTYPE_BOOL => pb_enc_bool src
  | Scalar PB_LTYPE_VARINT => pb_enc_varint field src
  | Scalar PB_LTYPE_UVARINT => pb_enc_uvarint field src
  | Scalar PB_LTYPE_SVARINT => pb_enc_svarint field src
  | Scalar PB_LTYPE_FIXED32 => pb_enc_fixed32 src
  | Scalar PB_LTYPE_FIXED64 => pb_enc_fixed64 src
  | PB_LTYPE_BYTES => pb_enc_bytes field src
  | PB_LTYPE_STRING => pb_enc_string field src
  | PB_LTYPE_SUBMESSAGE => pb_enc_submessage field src
  | PB_LTYPE_FIXED_LENGTH_BYTES => pb_enc_fixed_length_bytes field src
  | PB_LTYPE_EXTENSION | Invalid_ltype _ => undefined
  end.

(** ** Arrays *)

Definition is_string_or_bytes_pointer (f : pb_field) : bool :=
  bool_decide (PB_ATYPE (type f) = PB_ATYPE_POINTER) && bool_decide (PB_LTYPE (type f) = PB_LTYPE_STRING ∨ PB_LTYPE (type f) = PB_LTYPE_BYTES).
Fixpoint encode_packed_items (count : nat) (field : pb_field) (p : Z) : M unit :=
  match count with
  | O => mret tt
  | S count => _ ← PB_ENCODERS field p; encode_packed_items count field (p + data_size field)
  end.
Definition packed_size (field : pb_field) (pData count : Z) : M Z :=
  match PB_LTYPE (type field) with
  | Scalar PB_LTYPE_FIXED32 => mret (u64 (4 * count))
  | Scalar PB_LTYPE_FIXED64 => mret (u64 (8 * count))
  | _ => λ s,
      match encode_packed_items (Z.to_nat count) field pData (PB_OSTREAM_SIZING (o_state s)) with
      | None => None
      | Some (None, _) => Some (None, s)
      | Some (Some _, sizestream) => Some (Some (bytes_written sizestream), s)
      end
  end.
Fixpoint encode_unpacked_items (count : nat) (field : pb_field) (p : Z) : M unit :=
  match count with
  | O => mret tt
  | S count =>
      _ ← pb_encode_tag_for_field field;
      _ ← (if is_string_or_bytes_pointer field then q ← read_pointer p; PB_ENCODERS field q else PB_ENCODERS field p);
      encode_unpacked_items count field (p + data_size field)
  end.
Definition encode_array (field : pb_field) (pData count : Z) : M unit :=
  if count =? 0 then mret tt
  else if bool_decide (PB_ATYPE (type field) ≠ PB_ATYPE_POINTER) && (array_size field <? count) then fail_with "array max size exceeded"
  else if packable (PB_LTYPE (type field)) then
    _ ← to_output (pb_encode_tag PB_WT_STRING (tag field));
    size ← packed_size field pData count;
    _ ← to_output (pb_encode_varint size);
    s ← run_get;
    if negb (o_callback s) then to_output (pb_write [] size)
    else encode_packed_items (Z.to_nat count) field pData
  else encode_unpacked_items (Z.to_nat count) field pData.

(** ** Presence *)

(** The walk of a submessage stops at the first field that is not at its default. *)
Fixpoint all_default (fuel : nat) (check : pb_field → Z → M bool) (it : pb_field_iter) : M bool :=
  match fuel with
  | O => undefined
  | S fuel =>
      b ← check (field_at it) (pData it);
      if negb b then mret false
      else let '(more, it) := pb_field_iter_next it in if more : bool then all_default fuel check it else mret true
  end.
Definition all_zero (n a : Z) : M bool := bs ← read_at n a; mret (forallb (λ b, b =? 0) bs).
(** What the type and the count say, and [None] for proto3 singular fields. *)
Definition explicit_default (field : pb_field) (pData : Z) : M (option bool) :=
  let pSize := pData + size_offset field in
  match PB_HTYPE (type field) with
  | PB_HTYPE_REQUIRED => mret (Some false)
  | PB_HTYPE_REPEATED =>
      if negb (size_offset field =? 0) then n ← read_size pSize; mret (Some (n =? 0))
      else if decide (PB_ATYPE (type field) = PB_ATYPE_STATIC) then mret (Some false) else mret None
  | PB_HTYPE_ONEOF => n ← read_size pSize; mret (Some (n =? 0))
  | PB_HTYPE_OPTIONAL => if negb (size_offset field =? 0) then b ← safe_read_bool pSize; mret (Some (negb b)) else mret None
  end.
Definition singular_default (check : pb_field → Z → M bool) (field : pb_field) (pData : Z) : M bool :=
  match PB_ATYPE (type field), PB_LTYPE (type field) with
  | PB_ATYPE_STATIC, PB_LTYPE_BYTES => n ← read_size pData; mret (n =? 0)
  | PB_ATYPE_STATIC, PB_LTYPE_STRING => c ← read_at 1 pData; mret (hd 0 c =? 0)
  | PB_ATYPE_STATIC, PB_LTYPE_FIXED_LENGTH_BYTES => mret (data_size field =? 0)
  | PB_ATYPE_STATIC, PB_LTYPE_SUBMESSAGE =>
      match ptr field with
      | Submsg id =>
          let '(ok, it) := pb_field_iter_begin (fields_of id) pData in
          if ok : bool then all_default (length (start it)) check it else mret true
      | _ => undefined
      end
  | PB_ATYPE_POINTER, t => if packable t then all_zero (data_size field) pData else p ← read_pointer pData; mret (p =? 0)
  | _, _ => all_zero (data_size field) pData
  end.
Fixpoint pb_check_proto3_default_value (stack : nat) (field : pb_field) (pData : Z) : M bool :=
  match stack with
  | O => undefined
  | S stack =>
      r ← explicit_default field pData;
      match r with Some b => mret b | None => singular_default (pb_check_proto3_default_value stack) field pData end
  end.

(** ** Fields *)

Definition implicit_presence (stack : nat) (field : pb_field) (pData : Z) : M bool :=
  if negb (size_offset field =? 0) then mret false
  else if decide (PB_HTYPE (type field) = PB_HTYPE_OPTIONAL) then b ← pb_check_proto3_default_value stack field pData; mret (negb b)
  else mret true.
Definition encode_value (field : pb_field) (pData : Z) : M unit := _ ← pb_encode_tag_for_field field; PB_ENCODERS field pData.
Definition encode_basic_field (stack : nat) (field : pb_field) (pData : Z) : M unit :=
  let pSize := pData + size_offset field in
  let explicit := negb (size_offset field =? 0) in
  implicit_has ← implicit_presence stack field pData;
  '(pData, implicit_has) ← (if decide (PB_ATYPE (type field) = PB_ATYPE_POINTER) then p ← read_pointer pData; mret (p, negb (p =? 0))
                            else mret (pData, implicit_has));
  match PB_HTYPE (type field) with
  | PB_HTYPE_REQUIRED => if pData =? 0 then fail_with "missing required field" else encode_value field pData
  | PB_HTYPE_OPTIONAL =>
      present ← (if explicit then safe_read_bool pSize else mret implicit_has);
      if present : bool then encode_value field pData else mret tt
  | PB_HTYPE_REPEATED =>
      count ← (if explicit then read_size pSize else mret (array_size field));
      encode_array field pData count
  | PB_HTYPE_ONEOF =>
      which ← (if explicit then read_size pSize else undefined);
      if which =? tag field then encode_value field pData else mret tt
  end.
Definition encode_callback_field (field : pb_field) (pData : Z) : M unit :=
  callback ← read_pointer pData;
  if callback =? 0 then mret tt
  else
    status ← run_status (user_encode callback field (pData + sizeof_ptr) m);
    if status : bool then mret tt else fail_with "callback error".
Definition encode_field (stack : nat) (field : pb_field) (pData : Z) : M unit :=
  match PB_ATYPE (type field) with
  | PB_ATYPE_STATIC | PB_ATYPE_POINTER => encode_basic_field stack field pData
  | PB_ATYPE_CALLBACK => encode_callback_field field pData
  | Invalid_atype => fail_with "invalid field type"
  end.

(** ** Extensions *)

Definition default_extension_encoder (stack : nat) (ext : Z) : M unit :=
  type_ ← read_pointer ext;
  let field := ext_arg (extension_type type_) in
  if decide (PB_ATYPE (type field) = PB_ATYPE_POINTER) then encode_field stack field (ext + 8)
  else dest ← read_pointer (ext + 8); encode_field stack field dest.
Fixpoint encode_extension_loop (fuel stack : nat) (ext : Z) : M unit :=
  match fuel with
  | O => undefined
  | S fuel =>
      if ext =? 0 then mret tt
      else
        type_ ← read_pointer ext;
        let encode_ := ext_encode (extension_type type_) in
        _ ← (if negb (encode_ =? 0) then user_encode_extension encode_ ext m else default_extension_encoder stack ext);
        next ← read_pointer (ext + 16);
        encode_extension_loop fuel stack next
  end.
Definition encode_extension_field (stack : nat) (pData : Z) : M unit :=
  ext ← read_pointer pData; encode_extension_loop stack stack ext.
End Fields.

(** ** Messages *)

Fixpoint pb_encode (stack : nat) (fields : pb_fields) (src : Z) : M unit :=
  match stack with
  | O => undefined
  | S stack =>
      let '(ok, it) := pb_field_iter_begin fields src in
      if ok : bool then
        for_fields (λ it,
          if decide (PB_LTYPE (type (field_at it)) = PB_LTYPE_EXTENSION) then encode_extension_field (pb_encode stack) (S stack) (pData it)
          else encode_field (pb_encode stack) (S stack) (field_at it) (pData it)) it
      else mret tt
  end.
Definition pb_encode_delimited (stack : nat) (fields : pb_fields) (src : Z) : M unit := pb_encode_submessage (pb_encode stack fields src).
Definition pb_encode_nullterminated (stack : nat) (fields : pb_fields) (src : Z) : M unit :=
  _ ← pb_encode stack fields src; to_output (pb_write [0] 1).
Definition pb_get_encoded_size (stack : nat) (null : X) (fields : pb_fields) (src : Z) : option (option Z) :=
  match pb_encode stack fields src (PB_OSTREAM_SIZING null) with
  | None => None
  | Some (None, _) => Some None
  | Some (Some _, stream) => Some (Some (bytes_written stream))
  end.
End Encode.
