(* ===== verification/PbHeap.v ===== *)
(** * A separation logic for memory and the C heap

    Assertions describe parts of a [memory]: the bytes of objects, and the right to free a block.
    The logic is not affine: what an assertion does not mention is not there, so that a specification
    also says that nothing leaks.  It is an instance of the logic interface of Iris, which gives its
    proof mode. *)
From iris.proofmode Require Import proofmode.
From stdpp Require Import gmap.
From S2P Require Export PbDecode PbImage.

(** ** Parts of memory *)

Definition disjoint_parts (a b : memory) : Prop := cells a ##ₘ cells b ∧ blocks a ##ₘ blocks b.
Definition joined (a b : memory) : memory := Memory (cells a ∪ cells b) (blocks a ∪ blocks b).
Definition no_memory : memory := Memory ∅ ∅.

Lemma disjoint_comm a b : disjoint_parts a b → disjoint_parts b a.
Proof. intros [H1 H2]. split; by symmetry. Qed.
Lemma joined_comm a b : disjoint_parts a b → joined a b = joined b a.
Proof. intros [H1 H2]. unfold joined. f_equal; by apply map_union_comm. Qed.
Lemma joined_assoc a b c : joined (joined a b) c = joined a (joined b c).
Proof. unfold joined. cbn. f_equal; symmetry; apply map_union_assoc. Qed.
Lemma disjoint_joined_l a b c : disjoint_parts (joined a b) c ↔ disjoint_parts a c ∧ disjoint_parts b c.
Proof. unfold disjoint_parts. cbn. rw !map_disjoint_union_l. tauto. Qed.
Lemma disjoint_joined_r a b c : disjoint_parts a (joined b c) ↔ disjoint_parts a b ∧ disjoint_parts a c.
Proof. unfold disjoint_parts. cbn. rw !map_disjoint_union_r. tauto. Qed.
Lemma joined_none_l a : joined no_memory a = a.
Proof. destruct a. unfold joined. cbn. by rw !map_empty_union. Qed.
Lemma joined_none_r a : joined a no_memory = a.
Proof. destruct a. unfold joined. cbn. by rw !map_union_empty. Qed.
Lemma disjoint_none_l a : disjoint_parts no_memory a.
Proof. split; apply map_disjoint_empty_l. Qed.
Lemma disjoint_none_r a : disjoint_parts a no_memory.
Proof. split; apply map_disjoint_empty_r. Qed.

(** ** Assertions *)

Record heapProp := HeapProp { holds :> memory → Prop }.
Add Printing Constructor heapProp.

Section Ofe.
Inductive heapProp_equiv' (P Q : heapProp) : Prop := { heapProp_in_equiv : ∀ h, P h ↔ Q h }.
#[local] Instance heapProp_equiv : Equiv heapProp := heapProp_equiv'.
#[local] Instance heapProp_equivalence : Equivalence (≡@{heapProp}).
Proof.
  split; [by intros P; split| |].
  - intros P Q [H]. split. intros h. by rw H.
  - intros P Q R [H1] [H2]. split. intros h. by rw H1 H2.
Qed.
Canonical Structure heapPropO := discreteO heapProp.
End Ofe.

Inductive heapProp_entails (P Q : heapProp) : Prop := { heapProp_in_entails : ∀ h, P h → Q h }.
Definition heapProp_emp : heapProp := HeapProp (λ h, h = no_memory).
Definition heapProp_pure (φ : Prop) : heapProp := HeapProp (λ _, φ).
Definition heapProp_and (P Q : heapProp) : heapProp := HeapProp (λ h, P h ∧ Q h).
Definition heapProp_or (P Q : heapProp) : heapProp := HeapProp (λ h, P h ∨ Q h).
Definition heapProp_impl (P Q : heapProp) : heapProp := HeapProp (λ h, P h → Q h).
Definition heapProp_forall {A} (Ψ : A → heapProp) : heapProp := HeapProp (λ h, ∀ a, Ψ a h).
Definition heapProp_exist {A} (Ψ : A → heapProp) : heapProp := HeapProp (λ h, ∃ a, Ψ a h).
Definition heapProp_sep (P Q : heapProp) : heapProp := HeapProp (λ h, ∃ a b, h = joined a b ∧ disjoint_parts a b ∧ P a ∧ Q b).
Definition heapProp_wand (P Q : heapProp) : heapProp := HeapProp (λ h, ∀ a, disjoint_parts h a → P a → Q (joined h a)).
Definition heapProp_persistently (P : heapProp) : heapProp := HeapProp (λ _, heapProp_entails heapProp_emp P).
Definition heapProp_later (P : heapProp) : heapProp := P.

Section Mixins.
Lemma heapProp_bi_mixin : BiMixin heapProp_entails heapProp_emp heapProp_pure heapProp_and heapProp_or
  heapProp_impl (@heapProp_forall) (@heapProp_exist) heapProp_sep heapProp_wand.
Proof.
  split.
  - split; [by intros P; split|]. intros P Q R [H1] [H2]. split. eauto.
  - intros P Q. split.
    + intros [H]. by split; split; intros h; rw H.
    + intros [[H1] [H2]]. split. intros h. split; auto.
  - intros n φ ψ H. split. intros h. done.
  - intros n P P' [H1] Q Q' [H2]. split. intros h. cbn. by rw H1 H2.
  - intros n P P' [H1] Q Q' [H2]. split. intros h. cbn. by rw H1 H2.
  - intros n P P' [H1] Q Q' [H2]. split. intros h. cbn. by rw H1 H2.
  - intros A n Φ Ψ H. split. intros h. cbn. split; intros H' a; by apply (heapProp_in_equiv _ _ (H a)).
  - intros A n Φ Ψ H. split. intros h. cbn. split; intros [a H']; exists a; by apply (heapProp_in_equiv _ _ (H a)).
  - intros n P P' [H1] Q Q' [H2]. split. intros h. cbn. by setoid_rewrite H1; setoid_rewrite H2.
  - intros n P P' [H1] Q Q' [H2]. split. intros h. cbn. by setoid_rewrite H1; setoid_rewrite H2.
  - intros φ P H. by split.
  - intros φ P H. split. intros h Hφ. by apply (H Hφ).
  - intros P Q. split. by intros h [? ?].
  - intros P Q. split. by intros h [? ?].
  - intros P Q R [H1] [H2]. split. intros h HP. split; auto.
  - intros P Q. split. by left.
  - intros P Q. split. by right.
  - intros P Q R [H1] [H2]. split. intros h [?|?]; auto.
  - intros P Q R [H]. split. intros h HP HQ. by apply H.
  - intros P Q R [H]. split. intros h [HP HQ]. by apply H.
  - intros A P Ψ H. split. intros h HP a. by apply (H a).
  - intros A Ψ a. split. intros h H. apply H.
  - intros A Ψ a. split. intros h H. by exists a.
  - intros A Φ Q H. split. intros h [a Ha]. by apply (H a).
  - intros P P' Q Q' [H1] [H2]. split. intros h (a & b & -> & Hd & HP & HQ). exists a, b. auto.
  - intros P. split. intros h HP. exists no_memory, h. rw joined_none_l. split_and!; try done. apply disjoint_none_l.
  - intros P. split. intros h (a & b & -> & Hd & -> & HP). by rw joined_none_l.
  - intros P Q. split. intros h (a & b & -> & Hd & HP & HQ). exists b, a. split_and!; [by apply joined_comm|by apply disjoint_comm|done|done].
  - intros P Q R. split. intros h (ab & c & -> & Hd & (a & b & -> & Hd' & HP & HQ) & HR). apply disjoint_joined_l in Hd as [H1 H2].
    exists a, (joined b c). rw joined_assoc. split_and!; [done|by apply disjoint_joined_r|done|]. exists b, c. done.
  - intros P Q R [H]. split. intros h HP a Hd HQ. apply H. exists h, a. done.
  - intros P Q R [H]. split. intros h (a & b & -> & Hd & HP & HQ). by apply H.
Qed.
Lemma heapProp_persistently_mixin : BiPersistentlyMixin heapProp_entails heapProp_emp heapProp_and (@heapProp_exist) heapProp_sep heapProp_persistently.
Proof.
  eapply bi_persistently_mixin_discrete; [done| | |apply heapProp_bi_mixin]; [|done].
  intros A Φ [H]. destruct (H no_memory eq_refl) as [a Ha]. exists a. split. by intros h ->.
Qed.
Lemma heapProp_later_mixin : BiLaterMixin heapProp_entails heapProp_pure heapProp_or heapProp_impl
  (@heapProp_forall) (@heapProp_exist) heapProp_sep heapProp_persistently heapProp_later.
Proof. eapply bi_later_mixin_id; [done|apply heapProp_bi_mixin]. Qed.
End Mixins.

Canonical Structure heapPropI : bi := {|
  bi_ofe_mixin := ofe_mixin_of heapProp; bi_bi_mixin := heapProp_bi_mixin;
  bi_bi_persistently_mixin := heapProp_persistently_mixin; bi_bi_later_mixin := heapProp_later_mixin |}.
#[export] Instance heapProp_pure_forall : BiPureForall heapPropI.
Proof. intros A φ. split. intros h H a. apply H. Qed.


(** The bytes of an object, and the right to free a block. *)
Definition points_to (p : Z) (bs : bytes) : heapProp := HeapProp (λ h, h = Memory (map_seqZ p bs) ∅).
Definition heap_block (p n : Z) : heapProp := HeapProp (λ h, h = Memory ∅ {[p := n]}).
Notation "p ↦∗ bs" := (points_to p bs) (at level 20, format "p  ↦∗  bs") : bi_scope.

(** ** Total correctness *)

Section Wp.
Context {Y : Type}.

(** In every memory of which [h] is a part, [m] has a behaviour, leaves the rest alone, and ends as [Φ] says:
    the status, the input stream, the counter. *)
Definition wp {A} (m : run (machine Y) A) (i : pb_istream Y) (c : Z) (Φ : option A → pb_istream Y → Z → heapPropI) : heapPropI :=
  HeapProp (λ h, ∀ f, disjoint_parts h f → ∃ r i' c' h',
    m (Machine i (joined h f) c) = Some (r, Machine i' (joined h' f) c') ∧ disjoint_parts h' f ∧ holds (Φ r i' c') h').

Lemma wp_ret {A} (a : A) i c Φ : Φ (Some a) i c ⊢ wp (mret a) i c Φ.
Proof. split. intros h H f Hd. exists (Some a), i, c, h. done. Qed.
Lemma wp_fail {A} i c Φ : Φ None i c ⊢ wp (A := A) run_fail i c Φ.
Proof. split. intros h H f Hd. exists None, i, c, h. done. Qed.
Lemma wp_bind {A B} (m : run (machine Y) A) (g : A → run (machine Y) B) i c Φ :
  wp m i c (λ r i' c', match r with Some a => wp (g a) i' c' Φ | None => Φ None i' c' end) ⊢ wp (m ≫= g) i c Φ.
Proof.
  split. intros h H f Hd. destruct (H f Hd) as ([a|] & i' & c' & h' & E & Hd' & HΦ).
  - destruct (HΦ f Hd') as (r & i2 & c2 & h2 & E2 & Hd2 & HΦ2). exists r, i2, c2, h2. split_and!; [|done|done].
    cbv [mbind run_bind]. by rw E.
  - exists None, i', c', h'. split_and!; [|done|done]. cbv [mbind run_bind]. by rw E.
Qed.
Lemma wp_wand {A} (m : run (machine Y) A) i c Φ Ψ : wp m i c Φ -∗ (∀ r i' c', Φ r i' c' -∗ Ψ r i' c') -∗ wp m i c Ψ.
Proof.
  apply bi.entails_wand, bi.wand_intro_r. split. intros h (a & b & -> & Hd & Ha & Hb) f Hf. apply disjoint_joined_l in Hf as [Hf1 Hf2].
  destruct (Ha (joined b f)) as (r & i' & c' & h' & E & Hd' & HΦ); [by apply disjoint_joined_r|].
  apply disjoint_joined_r in Hd' as [Hd1 Hd2]. exists r, i', c', (joined b h'). split_and!.
  - by rw joined_assoc E -joined_assoc (joined_comm h' b).
  - by apply disjoint_joined_l.
  - apply (Hb r i' c'); [by apply disjoint_comm|done].
Qed.
Lemma wp_mono {A} (m : run (machine Y) A) i c Φ Ψ : (∀ r i' c', Φ r i' c' ⊢ Ψ r i' c') → wp m i c Φ ⊢ wp m i c Ψ.
Proof. intros H. iIntros "H". iApply (wp_wand with "H"). iIntros (r i' c') "H". by iApply H. Qed.
Lemma wp_ext {A} (m n : run (machine Y) A) i c Φ : (∀ s, m s = n s) → wp n i c Φ ⊢ wp m i c Φ.
Proof. intros H. split. intros h Hn f Hd. rw H. by apply Hn. Qed.

Lemma wp_get {A} (g : machine Y → run (machine Y) A) i c Φ : (∀ m, wp (g (Machine i m c)) i c Φ) ⊢ wp (run_get ≫= g) i c Φ.
Proof. split. intros h H f Hd. apply (H (joined h f) f Hd). Qed.
Lemma wp_input {A} (m : st (pb_istream Y) A) i c Φ : Φ (m i).1 (m i).2 c ⊢ wp (on_input m) i c Φ.
Proof. split. intros h H f Hd. exists (m i).1, (m i).2, c, h. unfold on_input. cbn. by destruct (m i). Qed.
Lemma wp_status (m : run (machine Y) unit) i c Φ :
  wp m i c (λ r i' c', Φ (Some (if r is Some _ then true else false)) i' c') ⊢ wp (run_status m) i c Φ.
Proof.
  split. intros h H f Hd. destruct (H f Hd) as (r & i' & c' & h' & E & Hd' & HΦ). unfold run_status. rw E. destruct r; by eexists _, _, _, _.
Qed.
Lemma wp_substream {A} sub (m : run (machine Y) A) i c Φ :
  wp m sub c (λ r sub' c', Φ (Some (r, sub')) i c') ⊢ wp (on_substream sub m) i c Φ.
Proof.
  split. intros h H f Hd. destruct (H f Hd) as (r & i' & c' & h' & E & Hd' & HΦ). unfold on_substream. cbn. rw E. by eexists _, _, _, _.
Qed.
Lemma wp_with_count {A} (m : run (machine Y) A) i c Φ : wp m i 0 (λ r i' _, Φ r i' c) ⊢ wp (with_count m) i c Φ.
Proof.
  split. intros h H f Hd. destruct (H f Hd) as (r & i' & c' & h' & E & Hd' & HΦ). unfold with_count. cbn. rw E. by eexists _, _, _, _.
Qed.

(** ** Memory *)

Lemma joined_lookup h f k b : cells h !! k = Some b → cells (joined h f) !! k = Some b.
Proof. intros H. by apply lookup_union_Some_l. Qed.
Lemma points_to_lookup p img h f k : 0 ≤ k → k < zlen img → cells (joined (joined (Memory (map_seqZ p img) ∅) h) f) !! (p + k) = img !! Z.to_nat k.
Proof.
  unfold zlen. intros H1 H2. destruct (lookup_lt_is_Some_2 img (Z.to_nat k)) as [b E]; [lia|]. rw E. apply joined_lookup, joined_lookup.
  cbn. apply lookup_map_seqZ_Some. split; [lia|]. rw -E. f_equal. lia.
Qed.
Lemma wp_memory {A} (g : memory → option (A * memory)) i c Φ P :
  (∀ h f, holds P h → disjoint_parts h f → ∃ a h', g (joined h f) = Some (a, joined h' f) ∧ disjoint_parts h' f ∧ holds (Φ (Some a) i c) h') →
  P ⊢ wp (on_memory g) i c Φ.
Proof.
  intros H. split. intros h HP f Hd. destruct (H h f HP Hd) as (a & h' & E & Hd' & HΦ). exists (Some a), i, c, h'.
  unfold on_memory. cbn. by rw E.
Qed.
Lemma wp_load p img o n i c Φ : 0 ≤ o → 0 ≤ n → o + n ≤ zlen img →
  p ↦∗ img -∗ (p ↦∗ img -∗ Φ (Some (slice o n img)) i c) -∗ wp (load_at n (p + o)) i c Φ.
Proof.
  intros Ho Hn Hl. apply bi.entails_wand, bi.wand_intro_r. apply wp_memory. intros h f (a & b & -> & Hd & Ha & Hb) Hf. cbn in Ha. subst a.
  exists (slice o n img), (joined (Memory (map_seqZ p img) ∅) b). split_and!; [|done|].
  - unfold load. rw (load_cells_exact _ _ _ (slice o n img)); [done| |].
    + pose proof (zlen_slice o n img Ho Hn Hl) as Hz. unfold zlen in Hz. lia.
    + intros k Hk. rw lookup_slice; [|done]. replace (p + o + Z.of_nat k) with (p + (o + Z.of_nat k)) by lia.
      rw points_to_lookup; [f_equal; lia|lia|lia].
  - rw joined_comm; [|done]. apply (Hb _ (disjoint_comm _ _ Hd)). done.
Qed.
Lemma points_to_put p img o bs : 0 ≤ o → o + zlen bs ≤ zlen img → map_seqZ (M := gmap Z Z) (p + o) bs ∪ map_seqZ p img = map_seqZ p (put o bs img).
Proof.
  intros Ho Hl. apply map_eq. intros k. rw lookup_union !lookup_map_seqZ. unfold zlen in *. pose proof (lookup_put o bs img (Z.to_nat (k - p)) Ho Hl) as Hp.
  destruct (decide (p ≤ k)) as [H1|H1].
  - rw !(option_guard_True (p ≤ k)); [|done|done]. rw Hp. case_decide.
    + rw option_guard_True; [|lia]. replace (Z.to_nat (k - (p + o))) with (Z.to_nat (k - p) - Z.to_nat o)%nat by lia.
      destruct (lookup_lt_is_Some_2 bs (Z.to_nat (k - p) - Z.to_nat o)) as [x ->]; [lia|]. by destruct (img !! _).
    + destruct (decide (p + o ≤ k)).
      * rw option_guard_True; [|done]. rw (lookup_ge_None_2 bs); [|lia]. by destruct (img !! _).
      * rw option_guard_False; [|done]. by destruct (img !! _).
  - rw !option_guard_False; [done|lia..].
Qed.
Lemma disjoint_same_cells a b f : dom (cells a) = dom (cells b) → blocks a = blocks b → disjoint_parts a f → disjoint_parts b f.
Proof. intros H1 H2 [Hd1 Hd2]. split; [|by rw -H2]. apply map_disjoint_dom. rw -H1. by apply map_disjoint_dom. Qed.
Lemma dom_points_to p img img' : zlen img = zlen img' → dom (map_seqZ (M := gmap Z Z) p img) = dom (map_seqZ (M := gmap Z Z) p img').
Proof. unfold zlen. intros H. apply set_eq. intros k. rw !elem_of_dom !lookup_map_seqZ_is_Some. lia. Qed.
Lemma wp_store p img o bs i c Φ : 0 ≤ o → o + zlen bs ≤ zlen img →
  p ↦∗ img -∗ (p ↦∗ put o bs img -∗ Φ (Some tt) i c) -∗ wp (store_at (p + o) bs) i c Φ.
Proof.
  intros Ho Hl. apply bi.entails_wand, bi.wand_intro_r. apply wp_memory. intros h f (a & b & -> & Hd & Ha & Hb) Hf. cbn in Ha. subst a.
  pose proof (dom_points_to p img (put o bs img) ltac:(by rw zlen_put)) as Hdom.
  assert (disjoint_parts (Memory (map_seqZ p (put o bs img)) ∅) b) as Hd'.
  { eapply disjoint_same_cells; [| |exact Hd]; done. }
  exists tt, (joined (Memory (map_seqZ p (put o bs img)) ∅) b). split_and!.
  - unfold store. rw store_cells_exact.
    + cbn. do 2 f_equal. unfold joined. cbn. f_equal. rw !map_union_assoc. by rw points_to_put.
    + intros k Hk. replace (p + o + Z.of_nat k) with (p + (o + Z.of_nat k)) by lia. unfold zlen in *. rw points_to_lookup; [|lia|unfold zlen; lia].
      apply lookup_lt_is_Some_2. lia.
  - apply disjoint_joined_l in Hf as [Hf1 Hf2]. apply disjoint_joined_l. split; [|done]. eapply disjoint_same_cells; [| |exact Hf1]; done.
  - rw joined_comm; [|done]. apply (Hb _ (disjoint_comm _ _ Hd')). done.
Qed.

(** Giving a block back. *)
Lemma free_block p n bs f h : 0 < p → zlen bs = n → disjoint_parts (joined (Memory (map_seqZ p bs) {[p := n]}) h) f →
  disjoint_parts (Memory (map_seqZ p bs) {[p := n]}) h →
  free p (joined (joined (Memory (map_seqZ p bs) {[p := n]}) h) f) = Some (joined h f).
Proof.
  intros Hp Hl Hf Hd. unfold free. rw (proj2 (Z.eqb_neq p 0)); [|lia]. cbn.
  assert (((({[p := n]} : gmap Z Z) ∪ blocks h) ∪ blocks f) !! p = Some n) as E
    by (apply lookup_union_Some_l, lookup_union_Some_l, lookup_singleton_eq).
  rw E. cbn. f_equal. unfold joined. f_equal.
  - apply map_eq. intros k. rw free_cells_lookup. apply disjoint_joined_l in Hf as [[Hf _] [Hf' _]]. destruct Hd as [Hd _]. cbn in *.
    unfold zlen in Hl. case_decide as Hk.
    + symmetry. destruct (lookup_lt_is_Some_2 bs (Z.to_nat (k - p))) as [x Ex]; [lia|].
      assert (map_seqZ (M := gmap Z Z) p bs !! k = Some x) as Ek by (apply lookup_map_seqZ_Some; split; [lia|done]).
      apply lookup_union_None. split; eapply map_disjoint_Some_l; [exact Hd|exact Ek|exact Hf|exact Ek].
    + rw !lookup_union. assert (map_seqZ (M := gmap Z Z) p bs !! k = None) as -> by (apply lookup_map_seqZ_None; lia).
      by destruct (cells h !! k), (cells f !! k).
  - apply disjoint_joined_l in Hf as [[_ Hf] [_ Hf']]. destruct Hd as [_ Hd]. cbn in *.
    rw -map_union_assoc. rw -insert_union_singleton_l. rw delete_insert_id; [done|].
    apply lookup_union_None. split; eapply map_disjoint_Some_l; [exact Hd|apply lookup_singleton_eq|exact Hf|apply lookup_singleton_eq].
Qed.
Lemma block_joined p n bs h : holds (p ↦∗ bs ∗ heap_block p n)%I h → h = Memory (map_seqZ p bs) {[p := n]}.
Proof.
  intros (a & b & -> & _ & Ha & Hb). cbn in Ha, Hb. subst. unfold joined. cbn. f_equal; [apply map_union_empty|apply map_empty_union].
Qed.
Lemma wp_free p n bs i c Φ : 0 < p → zlen bs = n → p ↦∗ bs ∗ heap_block p n -∗ Φ (Some tt) i c -∗ wp (pb_free p) i c Φ.
Proof.
  intros Hp Hl. apply bi.entails_wand, bi.wand_intro_r. apply wp_memory. intros h f (a & b & -> & Hd & Ha & Hb) Hf.
  apply block_joined in Ha. subst a. exists tt, b. split_and!; [by rw free_block| |done]. by apply disjoint_joined_l in Hf as [_ ?].
Qed.
Lemma wp_free_null i c Φ : Φ (Some tt) i c ⊢ wp (pb_free 0) i c Φ.
Proof. apply wp_memory. intros h f H Hd. exists tt, h. done. Qed.

(** [realloc]: the allocator may refuse; a new block holds what fits of the old one. *)
Definition kept_bytes (old bs : bytes) (n : Z) : Prop := let k := Z.min (zlen old) n in slice 0 k bs = slice 0 k old.
Definition new_block (q n : Z) (bs : bytes) : Prop := 0 < q < 2 ^ 64 ∧ zlen bs = n ∧ 0 < n.
Lemma realloc_fresh `{!Allocator, !AllocatorOk} p n m old m' q junk : 0 < n → p = 0 ∨ is_Some (blocks m !! p) →
  free p m = Some m' → realloc_to m p n = Some (q, junk) →
  let kept := take (Z.to_nat n) old in let bs := kept ++ drop (length kept) junk in
  new_block q n bs ∧ kept_bytes old bs n ∧ disjoint_parts (Memory (map_seqZ q bs) {[q := n]}) m'.
Proof.
  intros Hn Hp Hf Ea kept bs. destruct (realloc_to_ok m p n q junk Ea Hp Hn) as (H1 & H2 & H3 & H4).
  destruct (H4 m' Hf) as [Hb Hc].
  assert (zlen bs = n) as Hl. { unfold bs, kept, zlen in *. rw length_app length_drop length_take. lia. }
  split_and!; [split_and!; lia| |split; cbn].
  - unfold kept_bytes. cbn. unfold slice. rw !drop_0. unfold bs. rw take_app_le; [|unfold kept, zlen; rw length_take; lia].
    unfold kept. rw take_take. f_equal. lia.
  - apply map_disjoint_spec. intros k x y Hx Hy. apply lookup_map_seqZ_Some in Hx as [Hk Hx]. apply lookup_lt_Some in Hx.
    rw (Hc k) in Hy; [done|]. unfold zlen in Hl. lia.
  - by apply map_disjoint_singleton_l.
Qed.
Lemma new_block_joined q bs n h f : disjoint_parts (Memory (map_seqZ q bs) {[q := n]}) (joined h f) →
  Memory (map_seqZ q bs ∪ cells (joined h f)) (<[q := n]> (blocks (joined h f))) = joined (joined (Memory (map_seqZ q bs) {[q := n]}) h) f.
Proof. intros Hd. unfold joined. cbn. f_equal; [by rw map_union_assoc|]. by rw -map_union_assoc insert_union_singleton_l. Qed.
Lemma points_to_block q bs n : holds (q ↦∗ bs ∗ heap_block q n)%I (Memory (map_seqZ q bs) {[q := n]}).
Proof.
  exists (Memory (map_seqZ q bs) ∅), (Memory ∅ {[q := n]}). split_and!; try done.
  - unfold joined. cbn. f_equal; [by rw map_union_empty|by rw map_empty_union].
  - split; [apply map_disjoint_empty_r|apply map_disjoint_empty_l].
Qed.
Lemma new_block_holds q bs n h (P Q : heapPropI) : disjoint_parts (Memory (map_seqZ q bs) {[q := n]}) h →
  holds Q h → (Q ⊢ q ↦∗ bs ∗ heap_block q n -∗ P) → holds P (joined (Memory (map_seqZ q bs) {[q := n]}) h).
Proof.
  intros Hd HQ [HP]. rw joined_comm; [|done]. apply (HP h HQ); [by apply disjoint_comm|]. apply points_to_block.
Qed.

Context {alloc : Allocator} {alloc_ok : AllocatorOk}.
Lemma wp_realloc_null n i c Φ : 0 < n →
  Φ (Some 0) i c ∧ (∀ q bs (_ : new_block q n bs), q ↦∗ bs ∗ heap_block q n -∗ Φ (Some q) i c) ⊢ wp (on_memory (realloc 0 n)) i c Φ.
Proof.
  intros Hn. apply wp_memory. intros h f HP Hd. unfold realloc. cbn.
  destruct (realloc_to (joined h f) 0 n) as [[q junk]|] eqn:Ea.
  - destruct (realloc_fresh 0 n (joined h f) [] (joined h f) q junk Hn (or_introl eq_refl) eq_refl Ea) as (Hb & _ & Hdis). cbn in *.
    rw firstn_nil in Hb Hdis *. cbn in *. apply disjoint_joined_r in Hdis as Hdis'. destruct Hdis' as [Hd1 Hd2].
    eexists q, _. split_and!; [do 2 f_equal; by rw new_block_joined| |].
    + apply disjoint_joined_l. split; [done|done].
    + apply (new_block_holds _ _ _ _ _ _ Hd1 HP). rw bi.and_elim_r. iIntros "H". by iApply "H".
  - exists 0, h. split_and!; [done|done|]. by destruct HP.
Qed.
Lemma wp_realloc p old n i c Φ : 0 < p → 0 < n →
  p ↦∗ old ∗ heap_block p (zlen old) -∗
  (p ↦∗ old ∗ heap_block p (zlen old) -∗ Φ (Some 0) i c) ∧
    (∀ q bs (_ : new_block q n bs) (_ : kept_bytes old bs n), q ↦∗ bs ∗ heap_block q n -∗ Φ (Some q) i c) -∗
  wp (on_memory (realloc p n)) i c Φ.
Proof.
  intros Hp Hn. apply bi.entails_wand, bi.wand_intro_r. apply wp_memory. intros h f (a & b & -> & Hd & Ha & Hb) Hf.
  apply block_joined in Ha. subst a. unfold realloc. rw (proj2 (Z.eqb_neq p 0)); [|lia].
  set (m := joined (joined (Memory (map_seqZ p old) {[p := zlen old]}) b) f).
  assert (blocks m !! p = Some (zlen old)) as Eb by (apply lookup_union_Some_l, lookup_union_Some_l, lookup_singleton_eq).
  assert (load (zlen old) p m = Some old) as El.
  { unfold load. apply load_cells_exact; [unfold zlen; lia|]. intros k Hk. unfold zlen in Hk.
    destruct (lookup_lt_is_Some_2 old k) as [x Ex]; [lia|]. rw Ex. apply joined_lookup, joined_lookup. cbn. apply lookup_map_seqZ_Some. split; [lia|].
    rw -Ex. f_equal. lia. }
  rw Eb. cbn. rw El. cbn.
  assert (free p m = Some (joined b f)) as Ef by (by apply free_block). rw Ef. cbn.
  destruct (realloc_to m p n) as [[q junk]|] eqn:Ea.
  - destruct (realloc_fresh p n m old (joined b f) q junk Hn (or_intror (ex_intro _ _ Eb)) Ef Ea) as (Hnb & Hk & Hdis). cbn in *.
    apply disjoint_joined_r in Hdis as Hdis'. destruct Hdis' as [Hd1 Hd2].
    eexists q, _. split_and!; [do 2 f_equal; by rw new_block_joined| |].
    + apply disjoint_joined_l. split; [done|]. by apply disjoint_joined_l in Hf as [_ ?].
    + apply (new_block_holds _ _ _ _ _ _ Hd1 Hb). rw bi.and_elim_r. iIntros "H". by iApply "H".
  - eexists 0, _. split_and!; [done|done|]. destruct Hb as [Hb _]. rw joined_comm; [|done].
    apply (Hb _ (disjoint_comm _ _ Hd)). apply points_to_block.
Qed.
End Wp.
