(* ===== verification/PbInput.v ===== *)
(** * Bounds on what nanopb's decoders take from a stream

    For any stream whose callback keeps its part of the contract: the functions of [PbStream] never
    move a stream past its end, and the numbers they return fit their types. *)
From stdpp Require Import strings.
From S2P Require Export PbStream.

(** A callback that fills at most the buffer, with bytes.  [sane] is its own invariant. *)
Class SourceSafe (X : Type) `{!Source X} := {
  sane : X → Prop;
  fetch_sane x n r x' : sane x → 0 ≤ n → fetch x n = (r, x') → sane x' ∧ (∀ bs, r = Some bs → zlen bs ≤ n ∧ bytes_ok bs) }.
#[export] Instance buf_source_safe : SourceSafe bytes.
Proof.
  exists bytes_ok. intros x n r x' Hx Hn [= <- <-]. split; [by apply bytes_ok_drop|]. intros bs [= <-].
  split; [unfold zlen; rewrite length_take; lia|by apply bytes_ok_take].
Defined.

Section Input.
Context {X : Type} `{!Source X, !SourceSafe X}.
Abbreviation istream := (pb_istream X).

Definition stream_ok (s : istream) : Prop := sane (state s) ∧ 0 ≤ bytes_left s.
(** [m] takes at least [k] bytes when it succeeds, with a result in [P]. *)
Definition reads {A} (m : st istream A) (k : Z) (P : A → Prop) : Prop := ∀ s, stream_ok s →
  stream_ok (m s).2 ∧ bytes_left (m s).2 ≤ bytes_left s ∧ ∀ a, (m s).1 = Some a → bytes_left (m s).2 ≤ bytes_left s - k ∧ P a.

Lemma reads_ret {A} (a : A) (P : A → Prop) : P a → reads (mret a) 0 P.
Proof. intros HP s Hs. cbn. split_and!; [done|lia|]. intros ? [= <-]. split; [lia|done]. Qed.
Lemma reads_bind {A B} (m : st istream A) (f : A → st istream B) k l P Q :
  reads m k P → (∀ a, P a → reads (f a) l Q) → 0 ≤ l → reads (m ≫= f) (k + l) Q.
Proof.
  intros Hm Hf Hl s Hs. destruct (Hm s Hs) as (H1 & H2 & H3). cbv [mbind st_bind]. destruct (m s) as [[a|] s']; cbn in *; [|done].
  destruct (H3 a eq_refl) as [H4 HP]. destruct (Hf a HP s' H1) as (G1 & G2 & G3). split_and!; [done|lia|].
  intros b Hb. destruct (G3 b Hb). split; [lia|done].
Qed.
Lemma reads_step {A B} (m : st istream A) (f : A → st istream B) k P Q :
  reads m k P → (∀ a, P a → reads (f a) 0 Q) → reads (m ≫= f) k Q.
Proof. intros Hm Hf. rewrite <- (Z.add_0_r k). by eapply reads_bind. Qed.
Lemma reads_weaken {A} (m : st istream A) k l (P Q : A → Prop) : reads m k P → l ≤ k → (∀ a, P a → Q a) → reads m l Q.
Proof. intros Hm Hl HP s Hs. destruct (Hm s Hs) as (? & ? & H3). split_and!; [done|done|]. intros a Ha. destruct (H3 a Ha). split; [lia|auto]. Qed.
Lemma reads_map {A B} (m : st istream A) (f : A → B) k P Q : reads m k P → (∀ a, P a → Q (f a)) → reads (x ← m; mret (f x)) k Q.
Proof. intros Hm HQ. rewrite <- (Z.add_0_r k). eapply reads_bind; [exact Hm| |lia]. intros a Ha. apply reads_ret. auto. Qed.
Lemma reads_error {A} msg k (P : A → Prop) : reads (in_error msg) k P.
Proof. intros s [H1 H2]. cbn. split_and!; [by split|lia|done]. Qed.
Lemma reads_fail {A} k (P : A → Prop) : reads st_fail k P.
Proof. intros s Hs. cbn. split_and!; [done|lia|done]. Qed.
Lemma reads_if {A} (b : bool) (m n : st istream A) k P : reads m k P → reads n k P → reads (if b then m else n) k P.
Proof. by destruct b. Qed.

Lemma run_fetch s n : 0 ≤ n → stream_ok s → stream_ok (in_callback n s).2 ∧ bytes_left (in_callback n s).2 = bytes_left s ∧
  ∀ bs, (in_callback n s).1 = Some bs → zlen bs ≤ n ∧ bytes_ok bs.
Proof.
  intros Hn [H1 H2]. unfold in_callback. destruct (fetch (state s) n) as [r x] eqn:E. destruct (fetch_sane _ _ _ _ H1 Hn E) as [H3 H4].
  destruct r as [bs|]; cbn; (split_and!; [by split|done|]); [|done]. intros ? [= <-]. by apply H4.
Qed.
Lemma reads_bytes n : 0 ≤ n → reads (read_bytes n) n (λ bs, zlen bs ≤ n ∧ bytes_ok bs).
Proof.
  intros Hn s Hs. unfold read_bytes. cbv [mbind st_bind st_get st_modify mret st_ret]. destruct (Z.ltb_spec (bytes_left s) n); [apply (reads_error (A := bytes)); done|].
  destruct (run_fetch s n Hn Hs) as (H1 & H2 & H3). destruct (in_callback n s) as [[bs|] s']; cbn in *; [|split_and!; [done|lia|done]].
  destruct H1. split_and!; [split; cbn; [done|lia]|lia|]. intros ? [= <-]. split; [lia|auto].
Qed.
Lemma reads_skip fuel : ∀ n, 0 ≤ n → reads (skip_loop fuel n) 0 (λ _, True).
Proof.
  induction fuel as [|fuel IH]; intros n Hn; cbn [skip_loop]; [apply reads_fail|].
  destruct (Z.ltb_spec 16 n).
  - eapply reads_weaken; [|instantiate (1 := 16 + 0); lia|done]. eapply reads_bind; [by apply reads_bytes| |lia]. intros _ _. apply IH. lia.
  - apply reads_if; [by apply reads_ret|]. eapply reads_weaken; [by apply reads_bytes|lia|done].
Qed.
Lemma reads_to_buffer n : 0 ≤ n → reads (pb_read true n) n (λ bs, zlen bs ≤ n ∧ bytes_ok bs).
Proof.
  intros Hn. unfold pb_read. destruct (Z.eqb_spec n 0) as [->|]; [|by apply reads_bytes].
  apply reads_ret. split; [done|apply bytes_ok_nil].
Qed.
Lemma reads_away n : 0 ≤ n → reads (pb_read false n) 0 (λ _, True).
Proof.
  intros Hn. unfold pb_read. apply reads_if; [by apply reads_ret|]. apply reads_if; [by apply reads_skip|].
  eapply reads_weaken; [by apply reads_bytes|lia|done].
Qed.
Lemma reads_readbyte : reads pb_readbyte 1 is_u8.
Proof.
  intros s Hs. unfold pb_readbyte. cbv [mbind st_bind st_get st_modify mret st_ret]. destruct (Z.eqb_spec (bytes_left s) 0); [apply (reads_error (A := Z)); done|].
  destruct (run_fetch s 1 ltac:(lia) Hs) as (H1 & H2 & H3). destruct (in_callback 1 s) as [[bs|] s']; cbn in *; [|split_and!; [done|lia|done]].
  destruct H1, Hs. split_and!; [split; cbn; [done|lia]|lia|]. intros ? [= <-]. split; [lia|]. destruct (H3 bs eq_refl) as [_ Hb].
  destruct bs; cbn; [by word_lia|]. by apply bytes_ok_cons in Hb as [? _].
Qed.

(** ** Numbers *)

Lemma or_low_digit w r b p : 0 ≤ w → is_uint w r → is_uint w (r .| wrap w ((b .& 0x7F) ≪ p)).
Proof. intros Hw Hr. apply is_uint_lor; [done|done|]. by apply wrap_is_uint. Qed.
Lemma low_digit b : is_u32 (b .& 0x7F).
Proof. rewrite land_7f. word_lia. Qed.
Lemma reads_varint32_loop fuel : ∀ p r, is_u32 r → reads (varint32_loop fuel p r) 1 (λ x, is_u32 x.2).
Proof.
  induction fuel as [|fuel IH]; intros p r Hr; cbn [varint32_loop]; [apply reads_fail|].
  eapply reads_step; [apply reads_readbyte|]. intros b _. eapply reads_step with (P := is_u32).
  - apply reads_if; [apply reads_if; [apply reads_error|by apply reads_ret]|]. apply reads_ret. apply or_low_digit; [lia|done].
  - intros r' Hr'. apply reads_if; [by apply reads_ret|]. eapply reads_weaken; [by apply IH|lia|done].
Qed.
Definition reads_eof {A} (m : istream → (option A * bool) * istream) (P : A → Prop) : Prop := ∀ s, stream_ok s →
  stream_ok (m s).2 ∧ bytes_left (m s).2 ≤ bytes_left s ∧ ∀ a, (m s).1.1 = Some a → bytes_left (m s).2 ≤ bytes_left s - 1 ∧ P a.
Lemma reads_varint32_eof : reads_eof pb_decode_varint32_eof is_u32.
Proof.
  intros s Hs. unfold pb_decode_varint32_eof. destruct (reads_readbyte s Hs) as (H1 & H2 & H3).
  destruct (pb_readbyte s) as [[b|] s1]; cbn [fst snd] in *; [|done]. destruct (H3 b eq_refl) as [H4 Hb].
  destruct (b .& 0x80 =? 0); cbn [fst snd]; [split_and!; [done|lia|]; intros ? [= <-]; split; [lia|word_lia]|].
  destruct (reads_varint32_loop (S (Z.to_nat (bytes_left s1))) 7 (b .& 0x7F) (low_digit b) s1 H1) as (G1 & G2 & G3).
  destruct (varint32_loop _ _ _ s1) as [[[[byte p] r]|] s2]; cbn [fst snd] in *; [|split_and!; [done|lia|done]].
  destruct (G3 _ eq_refl) as [G4 G5]. destruct ((p =? 35) && _); cbn [fst snd]; [destruct G1; split_and!; [by split|cbn; lia|done]|].
  split_and!; [done|lia|]. intros ? [= <-]. split; [lia|done].
Qed.
Lemma reads_varint32 : reads pb_decode_varint32 1 is_u32.
Proof.
  intros s Hs. destruct (reads_varint32_eof s Hs) as (H1 & H2 & H3). unfold pb_decode_varint32. by destruct (pb_decode_varint32_eof s) as [[r e] s'].
Qed.
Lemma reads_varint_loop fuel : ∀ p r, is_u64 r → reads (varint_loop fuel p r) 1 is_u64.
Proof.
  induction fuel as [|fuel IH]; intros p r Hr; cbn [varint_loop]; [apply reads_fail|]. apply reads_if; [apply reads_error|].
  eapply reads_step; [apply reads_readbyte|]. intros b _.
  apply reads_if; [apply reads_ret; by apply or_low_digit|]. eapply reads_weaken; [apply IH; by apply or_low_digit|lia|done].
Qed.
Lemma reads_varint : reads pb_decode_varint 1 is_u64.
Proof. apply reads_varint_loop. word_lia. Qed.
Lemma reads_svarint : reads pb_decode_svarint 1 (λ _, True).
Proof. unfold pb_decode_svarint. eapply reads_map; [apply reads_varint|done]. Qed.
Lemma reads_fixed32 : reads pb_decode_fixed32 4 (λ _, True).
Proof. unfold pb_decode_fixed32. eapply reads_map; [by apply reads_to_buffer|done]. Qed.
Lemma reads_fixed64 : reads pb_decode_fixed64 8 (λ _, True).
Proof. unfold pb_decode_fixed64. eapply reads_map; [by apply reads_to_buffer|done]. Qed.
Lemma reads_tag : reads_eof pb_decode_tag (λ x, 0 ≤ x.2 < 2 ^ 29).
Proof.
  intros s Hs. unfold pb_decode_tag. destruct (reads_varint32_eof s Hs) as (H1 & H2 & H3).
  destruct (pb_decode_varint32_eof s) as [[[v|] e] s']; cbn in *; [|done]. destruct (H3 v eq_refl) as [H4 H5].
  destruct (v =? 0); cbn; [done|]. split_and!; [done|lia|]. intros ? [= <-]. split; [lia|]. cbn. destruct H5. rewrite Z.shiftr_div_pow2 by lia. split; [apply Z.div_pos; lia|apply Z.div_lt_upper_bound; lia].
Qed.

(** ** Skipping, and substreams *)

Lemma reads_skip_varint fuel : reads (skip_varint_loop fuel) 0 (λ _, True).
Proof.
  induction fuel as [|fuel IH]; cbn [skip_varint_loop]; [apply reads_fail|].
  apply reads_weaken with (k := 1) (P := λ _, True); [|lia|done]. eapply reads_step; [by apply reads_to_buffer|]. intros bs _.
  apply reads_if; [by apply reads_ret|apply IH].
Qed.
Lemma reads_get_skip : reads pb_skip_varint 0 (λ _, True).
Proof. intros s Hs. unfold pb_skip_varint. cbv [mbind st_bind st_get]. by apply reads_skip_varint. Qed.
Lemma reads_skip_string : reads pb_skip_string 0 (λ _, True).
Proof.
  unfold pb_skip_string. apply reads_weaken with (k := 1) (P := λ _, True); [|lia|done]. eapply reads_step; [apply reads_varint32|].
  intros n Hn. eapply reads_map; [|done]. apply reads_away. by destruct Hn.
Qed.
Lemma reads_skip_field w : reads (pb_skip_field w) 0 (λ _, True).
Proof.
  destruct w; cbn [pb_skip_field]; [apply reads_get_skip| |apply reads_skip_string| |apply reads_error]; (eapply reads_map; [by apply reads_away|done]).
Qed.
Lemma make_substream_safe s : stream_ok s → let r := pb_make_string_substream s in
  stream_ok r.2 ∧ bytes_left r.2 ≤ bytes_left s ∧
  ∀ sub, r.1 = Some sub → stream_ok sub ∧ bytes_left sub + bytes_left r.2 ≤ bytes_left s - 1 ∧ state sub = state r.2.
Proof.
  intros Hs. destruct (reads_varint32 s Hs) as (H1 & H2 & H3). unfold pb_make_string_substream. cbv [mbind st_bind st_get st_put mret st_ret].
  destruct (pb_decode_varint32 s) as [[n|] s1]; cbn in *; [|done]. destruct (H3 n eq_refl) as [H4 [H5 _]]. destruct H1 as [H1 H6].
  destruct (Z.ltb_spec (bytes_left s1) n); cbn; [split_and!; [by split|lia|done]|].
  split_and!; [split; cbn; [done|lia]|lia|]. intros ? [= <-]. cbn. split_and!; [by split|lia|done].
Qed.
Lemma close_substream_safe sub s : stream_ok sub → stream_ok s → let r := pb_close_string_substream sub s in
  stream_ok r.2 ∧ bytes_left r.2 = bytes_left s.
Proof.
  intros Hsub Hs. unfold pb_close_string_substream. destruct Hs as [H1 H2].
  destruct (negb (bytes_left sub =? 0)).
  - destruct (reads_away (bytes_left sub) ltac:(apply Hsub) sub Hsub) as ((G1 & _) & _). destruct (pb_read false _ sub) as [[bs|] sub']; cbn in *; done.
  - cbn. split; [split; [apply Hsub|done]|done].
Qed.
End Input.
