(* ===== verification/PbOwn.v ===== *)
(** * What a decoded message owns

    A message in memory owns the blocks its pointers lead to.  [owns k id img] says so of a structure
    of type [id] with the bytes [img]: every pointer that the decoder may follow or free is null or
    leads to a block of its own, down to depth [k].  No array behind a pointer has more than [most]
    items: every item takes a byte of the input, so that the bytes that were read bound it. *)
From iris.proofmode Require Import proofmode.
From stdpp Require Import gmap.
From S2P Require Export PbInput PbLayout PbDecode PbHeap.

Class Most := most : Z.

Section Own.
Context {tables : Tables} {layout : Layout}.

(** The words of a structure that matter: pointers, counts, and the tag of a union. *)
Definition pointer_of (sl : slot) (img : bytes) : Z := le_val (slice (sl_data sl) sizeof_ptr img).
Definition count_of (sl : slot) (img : bytes) : Z := u32 (le_val (slice (sl_size sl) sizeof_size img)).
Definition active (sl : slot) (img : bytes) : bool :=
  if decide (htype sl = PB_HTYPE_ONEOF) then count_of sl img =? tag (sl_field sl) else true.
(** In a union with no current member, the pointers are null. *)
Definition unset (sl : slot) (img : bytes) : Prop :=
  match atype sl with PB_ATYPE_POINTER => count_of sl img = 0 → pointer_of sl img = 0 | _ => True end.

Section Fields.
(** What a submessage owns. *)
Context {most_items : Most} (sub : Z → bytes → heapPropI).

Definition sub_owns (f : pb_field) (img : bytes) : heapPropI :=
  match PB_LTYPE (type f), ptr f with PB_LTYPE_SUBMESSAGE, Submsg id => sub id img | _, _ => emp%I end.
Definition is_block (p : Z) (bs : bytes) : heapPropI := (p ↦∗ bs ∗ heap_block p (zlen bs))%I.
(** A block with one object: a string of any length, or an object of the type. *)
Definition single_size (f : pb_field) (n : Z) : Prop := 0 < n ∧ (is_string_or_bytes f = false → n = data_size f).
Definition single_owns (f : pb_field) (p : Z) : heapPropI :=
  if p =? 0 then emp%I else (∃ bs (_ : 0 < p < 2 ^ 64) (_ : single_size f (zlen bs)), is_block p bs ∗ sub_owns f bs)%I.
Definition item_owns (f : pb_field) (item : bytes) : heapPropI :=
  if is_string_or_bytes f then single_owns f (le_val item) else sub_owns f item.
Definition items (f : pb_field) (count : Z) (bs : bytes) : list bytes :=
  (λ j : nat, slice (Z.of_nat j * data_size f) (data_size f) bs) <$> seq 0 (Z.to_nat count).
Definition array_size_ok (f : pb_field) (count n : Z) : Prop := 0 ≤ count ≤ most ∧ count * data_size f ≤ n ∧ 0 < n.
Definition array_owns (f : pb_field) (p count : Z) : heapPropI :=
  if p =? 0 then (∃ _ : count = 0, emp)%I
  else (∃ bs (_ : 0 < p < 2 ^ 64) (_ : array_size_ok f count (zlen bs)), is_block p bs ∗ [∗ list] it ∈ items f count bs, item_owns f it)%I.
Definition field_owns (sl : slot) (img : bytes) : heapPropI :=
  let f := sl_field sl in
  if active sl img then
    match atype sl, htype sl with
    | PB_ATYPE_STATIC, PB_HTYPE_REPEATED => emp%I
    | PB_ATYPE_STATIC, _ => sub_owns f (slice (sl_data sl) (data_size f) img)
    | PB_ATYPE_POINTER, PB_HTYPE_REPEATED => array_owns f (pointer_of sl img) (count_of sl img)
    | PB_ATYPE_POINTER, _ => single_owns f (pointer_of sl img)
    | _, _ => emp%I
    end
  else (∃ _ : unset sl img, emp)%I.
End Fields.

Fixpoint owns {most_items : Most} (k : nat) (id : Z) (img : bytes) : heapPropI :=
  match k with O => False%I | S k => (∃ (_ : (nesting id ≤ k)%nat), [∗ list] sl ∈ slots (fields_of id), field_owns (owns k) sl img)%I end.

(** ** Monotonicity *)

Section Mono.
Context (m m' : Z) (sub sub' : Z → bytes → heapPropI).
Hypothesis Hm : m ≤ m'.
Hypothesis Hsub : ∀ id img, sub id img ⊢ sub' id img.
Lemma sub_owns_mono f img : sub_owns sub f img ⊢ sub_owns sub' f img.
Proof using Hsub. unfold sub_owns. destruct (PB_LTYPE _), (ptr f); try done. Qed.
Lemma single_owns_mono f p : single_owns sub f p ⊢ single_owns sub' f p.
Proof using Hsub. unfold single_owns. destruct (p =? 0); [done|]. iIntros "(%bs & %H1 & %H2 & Hb & Hs)". iExists bs, H1, H2. iFrame. by iApply sub_owns_mono. Qed.
Lemma item_owns_mono f it : item_owns sub f it ⊢ item_owns sub' f it.
Proof using Hsub. unfold item_owns. destruct (is_string_or_bytes f); [apply single_owns_mono|apply sub_owns_mono]. Qed.
Lemma array_owns_mono f p n : array_owns (most_items := m) sub f p n ⊢ array_owns (most_items := m') sub' f p n.
Proof using Hm Hsub.
  unfold array_owns. destruct (p =? 0); [done|]. iIntros "(%bs & %H1 & %H2 & Hb & Hs)". destruct H2 as (H2 & H3 & H4).
  assert (array_size_ok (most_items := m') f n (zlen bs)) as H5 by (split_and!; unfold most in *; [lia|lia|done|done]). iExists bs, H1, H5. iFrame.
  iApply (big_sepL_mono with "Hs"). intros j it _. apply item_owns_mono.
Qed.
Lemma field_owns_mono sl img : field_owns (most_items := m) sub sl img ⊢ field_owns (most_items := m') sub' sl img.
Proof using Hm Hsub.
  unfold field_owns. destruct (active sl img); [|done]. destruct (atype sl), (htype sl); try done; try apply sub_owns_mono; try apply single_owns_mono; apply array_owns_mono.
Qed.
End Mono.
Section Depth.
Context {most_items : Most}.
Lemma owns_S k : ∀ id img, owns k id img ⊢ owns (S k) id img.
Proof.
  induction k as [|k IH]; intros id img; [apply bi.False_elim|]. cbn [owns]. iIntros "[%Hn H]". assert (nesting id ≤ S k)%nat as Hn' by lia. iExists Hn'.
  iApply (big_sepL_mono with "H"). intros j sl _. apply field_owns_mono; [done|exact IH].
Qed.
Lemma owns_valid k id img : (nesting id ≤ k)%nat → (⊢ [∗ list] sl ∈ slots (fields_of id), field_owns (owns k) sl img) → ⊢ owns (S k) id img.
Proof. intros Hn H. cbn [owns]. iExists Hn. iApply H. Qed.
Lemma owns_inv k id img : owns k id img ⊢ ∃ k' (_ : k = S k') (_ : (nesting id ≤ k')%nat), [∗ list] sl ∈ slots (fields_of id), field_owns (owns k') sl img.
Proof. destruct k as [|k]; [apply bi.False_elim|]. cbn [owns]. iIntros "[%Hn H]". by iExists k, eq_refl, Hn. Qed.
Lemma owns_le k l id img : (k ≤ l)%nat → owns k id img ⊢ owns l id img.
Proof. induction 1 as [|l _ IH]; [done|]. by rw IH owns_S. Qed.
End Depth.
Lemma owns_more (m m' : Z) k id img : m ≤ m' → owns (most_items := m) k id img ⊢ owns (most_items := m') k id img.
Proof.
  intros Hm. revert id img. induction k as [|k IH]; intros id img; [done|]. cbn [owns]. iIntros "[%Hn H]". iExists Hn.
  iApply (big_sepL_mono with "H"). intros j sl _. by apply field_owns_mono.
Qed.
Lemma big_sepL_emp' {A} (l : list A) (Φ : nat → A → heapPropI) : (∀ j x, l !! j = Some x → Φ j x ⊣⊢ emp) → ([∗ list] j ↦ x ∈ l, Φ j x) ⊣⊢ emp.
Proof. intros He. rw (big_sepL_proper Φ (λ _ _, emp)%I); [apply big_sepL_emp|done]. Qed.


(** ** Fields and their neighbours *)

(** What a field owns depends on its own bytes only. *)
Lemma active_same sl img img' : same_at (sl_size sl) (count_bytes sl) img img' → active sl img = active sl img'.
Proof. unfold same_at, active, count_of. case_decide as Hh; [|done]. rw count_bytes_oneof; [|done]. intros E. by rw E. Qed.
Lemma inactive_oneof sl img : active sl img = false → htype sl = PB_HTYPE_ONEOF.
Proof. unfold active. by case_decide. Qed.
Lemma unset_same sl img img' : same_at (sl_data sl) (data_bytes sl) img img' → same_at (sl_size sl) (count_bytes sl) img img' →
  active sl img' = false → unset sl img = unset sl img'.
Proof.
  intros Hd Hc Hact. unfold unset, same_at in *. destruct (atype sl) eqn:Ha; try done. rw data_bytes_pointer // in Hd.
  rw count_bytes_oneof in Hc; [|by eapply inactive_oneof]. unfold count_of, pointer_of. change 4 with sizeof_size in Hc. by rw Hd Hc.
Qed.
Lemma field_owns_same `{!Most} sub sl img img' : atype sl = PB_ATYPE_STATIC ∨ atype sl = PB_ATYPE_POINTER →
  same_at (sl_data sl) (data_bytes sl) img img' → same_at (sl_size sl) (count_bytes sl) img img' → field_owns sub sl img = field_owns sub sl img'.
Proof.
  intros Ha Hd Hc. unfold field_owns. rw (active_same _ _ _ Hc). destruct (active sl img') eqn:Hact; unfold same_at in *; [|by rw (unset_same sl img img')].
  destruct Ha as [Ha|Ha]; rw Ha.
  - destruct (htype sl) eqn:Hh; try done; (rw data_bytes_single in Hd; [|done|by rw Hh]); by rw Hd.
  - rw data_bytes_pointer in Hd; [|done]. unfold pointer_of, count_of. destruct (htype sl) eqn:Hh; try by rw Hd.
    rw count_bytes_pointer_array in Hc; [|done|done]. by rw Hd Hc.
Qed.
Lemma big_sepL_one {A} (l : list A) j x (P : heapPropI) : l !! j = Some x → ([∗ list] k ↦ _ ∈ l, if decide (k = j) then P else emp) ⊣⊢ P.
Proof.
  intros Hj. rw big_sepL_delete; [|exact Hj]. rw decide_True; [|done]. rw (big_sepL_emp' l); [by rw right_id|].
  intros k y _. by destruct (decide (k = j)).
Qed.

Section Table.
Context {fit : TablesFit} {most_items : Most} (id : Z) (sub : Z → bytes → heapPropI).
Abbreviation L := (slots (fields_of id)).
Definition all_owns (img : bytes) : heapPropI := ([∗ list] sl ∈ L, field_owns sub sl img)%I.
Definition others (j : nat) (img : bytes) : heapPropI := ([∗ list] k ↦ sl ∈ L, if partner id j k then emp else field_owns sub sl img)%I.
Definition group (j : nat) (img : bytes) : heapPropI := ([∗ list] k ↦ sl ∈ L, if partner id j k then field_owns sub sl img else emp)%I.
(** No member of the union is there. *)
Definition vacant (j : nat) (img : bytes) : Prop := ∀ k b, L !! k = Some b → partner id j k = true → active b img = false.

Lemma all_owns_split j img : all_owns img ⊣⊢ group j img ∗ others j img.
Proof.
  unfold all_owns, group, others. rw -big_sepL_sep. apply big_sepL_proper. intros k sl _. destruct (partner id j k); [by rw right_id|by rw left_id].
Qed.
Lemma field_owns_inactive sl img : active sl img = false → field_owns sub sl img = (∃ _ : unset sl img, emp)%I.
Proof. intros Ha. unfold field_owns. by rw Ha. Qed.
Lemma nothing_drop (φ : Prop) : (∃ _ : φ, emp) ⊢@{heapPropI} emp.
Proof. by iIntros "[%Hφ H]". Qed.
Lemma nothing_intro (φ : Prop) : φ → (∃ _ : φ, emp) ⊣⊢@{heapPropI} emp.
Proof. intros Hφ. apply bi.equiv_entails. split; [apply nothing_drop|]. iIntros "H". by iExists Hφ. Qed.
Lemma unset_nonzero sl img : count_of sl img ≠ 0 → unset sl img.
Proof. unfold unset. by destruct (atype sl). Qed.
Lemma group_vacant j img : vacant j img → group j img ⊢ emp.
Proof.
  intros Hv. unfold group. trans ([∗ list] _ ∈ L, emp : heapPropI)%I; [|by rw big_sepL_emp]. apply big_sepL_mono. intros k b Hk. destruct (partner id j k) eqn:Hp; [|done].
  rw field_owns_inactive; [apply nothing_drop|]. by eapply Hv.
Qed.
Lemma group_active j sl img : L !! j = Some sl → active sl img = true → group j img ⊣⊢ field_owns sub sl img.
Proof using fit.
  intros Hj Ha. unfold group. rw -(big_sepL_one L j sl (field_owns sub sl img)); [|done]. apply big_sepL_proper. intros k b Hk.
  destruct (decide (k = j)) as [->|Hkj]; [rw partner_refl; by simplify_eq|]. destruct (partner id j k) eqn:Hp; [|done].
  destruct (partner_inv id j k sl b Hj Hk Hp) as [|(H1 & H2 & H3 & H4 & _)]; [congruence|]. unfold active in Ha. rw decide_True // in Ha. apply Z.eqb_eq in Ha.
  assert (count_of b img = tag (sl_field sl)) as Hb by (unfold count_of in *; by rw -H3). rw field_owns_inactive.
  - apply nothing_intro, unset_nonzero. rw Hb. pose proof (ok_tag id sl (slot_fits id j sl Hj)). lia.
  - unfold active. rw decide_True // Hb. by apply Z.eqb_neq.
Qed.
(** A store to a field leaves alone what the others own. *)
Lemma field_owns_differs k a b img img' : L !! k = Some b → slots_apart b a → differs_at a img img' → field_owns sub b img' = field_owns sub b img.
Proof using fit.
  intros Hk (H1 & H2 & H3 & H4) [_ Hd]. destruct (slot_fits id k b Hk) as [_ Ha _ _ _ Hdb Hcb _ _ _ _ _ _].
  apply field_owns_same; [done| |].
  - apply Hd; [right; lia|done|done].
  - apply Hd; [tauto|done|done].
Qed.
Lemma others_differs j sl img img' : L !! j = Some sl → differs_at sl img img' → others j img' ⊣⊢ others j img.
Proof using fit.
  intros Hj Hd. apply big_sepL_proper. intros k b Hk. destruct (partner id j k) eqn:Hp; [done|].
  rw (field_owns_differs k sl b img img'); [done|done| |done]. apply slots_apart_sym. by eapply not_partner_apart.
Qed.
Lemma others_partner j k img : partner id j k = true → others j img ⊣⊢ others k img.
Proof. intros Hp. apply big_sepL_proper. intros i b _. by rw (partner_same id j k Hp). Qed.
Lemma group_partner j k img : partner id j k = true → group j img ⊣⊢ group k img.
Proof. intros Hp. apply big_sepL_proper. intros i b _. by rw (partner_same id j k Hp). Qed.
End Table.
End Own.
