(* ===== verification/PbValues.v ===== *)
(** * The decoders of single values are memory safe

    Each of them writes only to the object it is given, and what its message owns afterwards is what
    it allocated. *)
From iris.proofmode Require Import proofmode.
From stdpp Require Import gmap.
From S2P Require Export PbOwn.

(** ** Parts of objects *)

Lemma points_to_app p a b : p ↦∗ (a ++ b) ⊣⊢ p ↦∗ a ∗ (p + zlen a) ↦∗ b.
Proof.
  apply bi.equiv_entails. split; split; intros h.
  - cbn. intros ->. exists (Memory (map_seqZ p a) ∅), (Memory (map_seqZ (p + zlen a) b) ∅). split_and!; try done.
    + unfold joined, zlen. cbn. by rw map_seqZ_app map_union_empty.
    + split; [apply map_seqZ_app_disjoint|apply map_disjoint_empty_l].
  - intros (x & y & -> & _ & Hx & Hy). cbn in *. subst. unfold joined, zlen. cbn. by rw map_seqZ_app map_union_empty.
Qed.
Lemma split_slice o n img : 0 ≤ o → 0 ≤ n → o + n ≤ zlen img → img = take (Z.to_nat o) img ++ slice o n img ++ drop (Z.to_nat (o + n)) img.
Proof.
  intros H1 H2 H3. unfold slice. rw -{1}(take_drop (Z.to_nat o) img). f_equal. rw -{1}(take_drop (Z.to_nat n) (drop (Z.to_nat o) img)). f_equal.
  rw drop_drop. f_equal. lia.
Qed.
(** A part of an object can be changed in place. *)
Lemma points_to_slice p o n img : 0 ≤ o → 0 ≤ n → o + n ≤ zlen img →
  p ↦∗ img ⊢ (p + o) ↦∗ slice o n img ∗ ∀ bs (_ : zlen bs = n), (p + o) ↦∗ bs -∗ p ↦∗ put o bs img.
Proof.
  intros H1 H2 H3. pose proof (zlen_slice o n img H1 H2 H3) as Hs.
  assert (zlen (take (Z.to_nat o) img) = o) as Ht by (unfold zlen in *; rw length_take; lia).
  rw {1}(split_slice o n img H1 H2 H3) !points_to_app Ht Hs. iIntros "(H1 & H2 & H3)". iFrame "H2". iIntros (bs Hbs) "H2".
  unfold put. rw !points_to_app Ht Hbs. iFrame. replace (Z.to_nat o + length bs)%nat with (Z.to_nat (o + n)); [done|]. unfold zlen in Hbs. lia.
Qed.
Lemma put_slice_length o bs img : 0 ≤ o → o + zlen bs ≤ zlen img → slice o (zlen bs) (put o bs img) = bs.
Proof. apply slice_put. Qed.

Section Values.
Context {Y : Type} `{!Source Y, !SourceSafe Y}.
Abbreviation M := (run (machine Y)).

(** ** Rules *)

Lemma wp_read {A B} (m : st (pb_istream Y) A) (g : A → M B) k P i c Φ : reads m k P → stream_ok i →
  (∀ i' (_ : stream_ok i') (_ : bytes_left i' ≤ bytes_left i), Φ None i' c) ∧
  (∀ a i' (_ : P a) (_ : stream_ok i') (_ : bytes_left i' ≤ bytes_left i - k), wp (g a) i' c Φ) ⊢ wp (on_input m ≫= g) i c Φ.
Proof.
  intros Hm Hi. rw -wp_bind -wp_input. destruct (Hm i Hi) as (H1 & H2 & H3). destruct (m i) as [[a|] i']; cbn in *.
  - destruct (H3 a eq_refl) as [H4 H5]. rw bi.and_elim_r. iIntros "H". by iApply "H".
  - rw bi.and_elim_l. iIntros "H". by iApply "H".
Qed.
Lemma wp_read_last {A} (m : st (pb_istream Y) A) k P i c Φ : reads m k P → stream_ok i →
  (∀ i' (_ : stream_ok i') (_ : bytes_left i' ≤ bytes_left i), Φ None i' c) ∧
  (∀ a i' (_ : P a) (_ : stream_ok i') (_ : bytes_left i' ≤ bytes_left i - k), Φ (Some a) i' c) ⊢ wp (on_input m) i c Φ.
Proof.
  intros Hm Hi. rw -wp_input. destruct (Hm i Hi) as (H1 & H2 & H3). destruct (m i) as [[a|] i']; cbn in *.
  - destruct (H3 a eq_refl) as [H4 H5]. rw bi.and_elim_r. iIntros "H". by iApply "H".
  - rw bi.and_elim_l. iIntros "H". by iApply "H".
Qed.
Lemma wp_error {A} msg i c Φ : stream_ok i →
  (∀ i' (_ : stream_ok i') (_ : bytes_left i' ≤ bytes_left i), Φ None i' c) ⊢ wp (A := A) (error msg) i c Φ.
Proof.
  intros Hi. rw -wp_input. cbn. iIntros "H". iApply "H"; iPureIntro; [|cbn; lia]. destruct Hi. by split.
Qed.
(** A store to the front of an object. *)
Lemma wp_store_front p img bs (i : pb_istream Y) c Φ : zlen bs ≤ zlen img →
  p ↦∗ img -∗ (p ↦∗ put 0 bs img -∗ Φ (Some tt) i c) -∗ wp (store_at p bs) i c Φ.
Proof. intros Hl. pose proof (wp_store p img 0 bs i c Φ ltac:(lia) ltac:(lia)) as Hw. by rw Z.add_0_r in Hw. Qed.
Lemma wp_load_front p img n (i : pb_istream Y) c Φ : 0 ≤ n → n ≤ zlen img →
  p ↦∗ img -∗ (p ↦∗ img -∗ Φ (Some (slice 0 n img)) i c) -∗ wp (load_at n p) i c Φ.
Proof. intros Hn Hl. pose proof (wp_load p img 0 n i c Φ ltac:(lia) Hn ltac:(lia)) as Hw. by rw Z.add_0_r in Hw. Qed.
Lemma zlen_put_front bs img : zlen bs ≤ zlen img → zlen (put 0 bs img) = zlen img.
Proof. intros. apply zlen_put; lia. Qed.

(** What a decoder of a value leaves: the stream has not moved past its end, and moved when it succeeded. *)
Definition took (i i' : pb_istream Y) (ok : bool) : Prop :=
  stream_ok i' ∧ bytes_left i' ≤ bytes_left i ∧ (ok = true → bytes_left i' ≤ bytes_left i - 1).
Definition succeeded {A} (r : option A) : bool := if r is Some _ then true else false.
Definition value_post (P : heapPropI) (i : pb_istream Y) (c : Z) : option unit → pb_istream Y → Z → heapPropI :=
  λ r i' c', (∃ (_ : took i i' (succeeded r)) (_ : c' = c), P)%I.
(** The object at [dest] may hold any bytes afterwards. *)
Definition object (dest n : Z) : heapPropI := (∃ bs (_ : zlen bs = n), dest ↦∗ bs)%I.

Lemma object_intro dest bs : dest ↦∗ bs ⊢ object dest (zlen bs).
Proof. iIntros "H". by iExists bs, eq_refl. Qed.
Lemma wp_store_object dest n bs (i : pb_istream Y) c Φ : zlen bs ≤ n →
  object dest n -∗ (object dest n -∗ Φ (Some tt) i c) -∗ wp (store_at dest bs) i c Φ.
Proof.
  intros Hl. iIntros "(%img & %Hn & H) HΦ". iApply (wp_store_front with "H"); [lia|]. iIntros "H". iApply "HΦ".
  rw -Hn -(zlen_put_front bs img); [|lia]. iApply (object_intro with "H").
Qed.
Lemma zlen_object_bytes n v : 0 ≤ n → zlen (object_bytes n v) = n.
Proof. intros. unfold object_bytes, zlen. rw length_le_bytes. lia. Qed.

Lemma post_intro (r : option unit) (P : heapPropI) (i i' : pb_istream Y) c : took i i' (succeeded r) → P ⊢ value_post P i c r i' c.
Proof. intros Ht. iIntros "H". by iExists Ht, eq_refl. Qed.
Lemma took_none (i i' : pb_istream Y) : stream_ok i' → bytes_left i' ≤ bytes_left i → took i i' false.
Proof. intros. split; [done|]. by split. Qed.
Lemma took_some (i i' : pb_istream Y) ok k : stream_ok i' → bytes_left i' ≤ bytes_left i - k → 1 ≤ k → took i i' ok.
Proof. intros. split; [done|]. split; lia. Qed.
Lemma took_more (i i1 i2 : pb_istream Y) ok k : stream_ok i2 → bytes_left i1 ≤ bytes_left i - k → 1 ≤ k → bytes_left i2 ≤ bytes_left i1 → took i i2 ok.
Proof. intros. split; [done|]. split; lia. Qed.

(** Read a number, then store it, and perhaps refuse it. *)
Lemma wp_read_store {A} (m : st (pb_istream Y) A) (enc : A → bytes) (check : A → bool) msg k P dest n i c : reads m k P → 1 ≤ k → stream_ok i →
  (∀ a, zlen (enc a) ≤ n) →
  object dest n ⊢ wp (a ← on_input m; _ ← store_at dest (enc a); if check a then mret tt else error msg) i c (value_post (object dest n) i c).
Proof.
  intros Hm Hk Hi Hl. iIntros "H". iApply (wp_read _ _ _ _ _ _ _ Hm Hi). iSplit.
  - iIntros (i' H1 H2). iApply (post_intro with "H"). by apply took_none.
  - iIntros (a i' _ H1 H2). iApply wp_bind. iApply (wp_store_object with "H"); [apply Hl|]. iIntros "H".
    destruct (check a).
    + iApply wp_ret. iApply (post_intro with "H"). by eapply took_some.
    + iApply wp_error; [done|]. iIntros (i2 H3 H4). iApply (post_intro with "H"). by eapply took_more.
Qed.
Lemma wp_read_store_all {A} (m : st (pb_istream Y) A) (enc : A → bytes) k P dest n i c : reads m k P → 1 ≤ k → stream_ok i → (∀ a, zlen (enc a) ≤ n) →
  object dest n ⊢ wp (a ← on_input m; store_at dest (enc a)) i c (value_post (object dest n) i c).
Proof.
  intros Hm Hk Hi Hl. iIntros "H". iApply (wp_read _ _ _ _ _ _ _ Hm Hi). iSplit.
  - iIntros (i' H1 H2). iApply (post_intro with "H"). by apply took_none.
  - iIntros (a i' _ H1 H2). iApply (wp_store_object with "H"); [apply Hl|]. iIntros "H". iApply (post_intro with "H"). by eapply took_some.
Qed.
Lemma wp_read_error {A} (m : st (pb_istream Y) A) msg k P i c (Q : heapPropI) : reads m k P → 1 ≤ k → stream_ok i →
  Q ⊢ wp (a ← on_input m; error msg) i c (value_post Q i c).
Proof.
  intros Hm Hk Hi. iIntros "H". iApply (wp_read _ _ _ _ _ _ _ Hm Hi). iSplit.
  - iIntros (i' H1 H2). iApply (post_intro with "H"). by apply took_none.
  - iIntros (a i' _ H1 H2). iApply wp_error; [done|]. iIntros (i2 H3 H4). iApply (post_intro with "H"). by eapply took_more.
Qed.

Lemma int_size_pos n : int_size n = true → 0 < n.
Proof. unfold int_size. intros H. repeat (apply orb_true_iff in H as [H|H]); apply Z.eqb_eq in H; lia. Qed.
Lemma wp_dec_scalar t f dest (i : pb_istream Y) c (decode decode_noinit : pb_fields → Z → M unit) `{!Allocator, !Tables} : PB_LTYPE (type f) = Scalar t →
  match t with PB_LTYPE_FIXED32 => 4 | PB_LTYPE_FIXED64 => 8 | _ => 1 end ≤ data_size f → stream_ok i →
  object dest (data_size f) ⊢ wp (PB_DECODERS decode decode_noinit f dest) i c (value_post (object dest (data_size f)) i c).
Proof.
  intros Ht Hn Hi. unfold PB_DECODERS. rw Ht. destruct t.
  - apply (wp_read_store_all _ _ 1 is_u32); [apply reads_varint32|lia|done|]. intros a. by destruct (a =? 0).
  - unfold pb_dec_varint. destruct (int_size (data_size f)) eqn:Es; [|apply (wp_read_error _ _ 1 is_u64); [apply reads_varint|lia|done]].
    apply (wp_read_store _ _ (λ v, _ =? _) _ 1 is_u64); [apply reads_varint|lia|done|]. intros a. rw zlen_object_bytes; apply int_size_pos in Es; lia.
  - unfold pb_dec_uvarint. destruct (int_size (data_size f)) eqn:Es; [|apply (wp_read_error _ _ 1 is_u64); [apply reads_varint|lia|done]].
    apply (wp_read_store _ _ (λ v, _ =? v) _ 1 is_u64); [apply reads_varint|lia|done|]. intros a. rw zlen_object_bytes; apply int_size_pos in Es; lia.
  - unfold pb_dec_svarint. destruct (int_size (data_size f)) eqn:Es; [|apply (wp_read_error _ _ 1 (λ _, True)); [apply reads_svarint|lia|done]].
    apply (wp_read_store _ _ (λ v, _ =? v) _ 1 (λ _, True)); [apply reads_svarint|lia|done|]. intros a. rw zlen_object_bytes; apply int_size_pos in Es; lia.
  - apply (wp_read_store_all _ _ 4 (λ _, True)); [apply reads_fixed32|lia|done|]. intros a. rw zlen_object_bytes; lia.
  - apply (wp_read_store_all _ _ 8 (λ _, True)); [apply reads_fixed64|lia|done|]. intros a. rw zlen_object_bytes; lia.
Qed.


(** ** Strings and bytes *)

Lemma wp_store_object_at dest n o bs (i : pb_istream Y) c Φ : 0 ≤ o → o + zlen bs ≤ n →
  object dest n -∗ (object dest n -∗ Φ (Some tt) i c) -∗ wp (store_at (dest + o) bs) i c Φ.
Proof.
  intros Ho Hl. iIntros "(%img & %Hn & H) HΦ". iApply (wp_store with "H"); [lia|lia|]. iIntros "H". iApply "HΦ".
  rw -Hn -(zlen_put o bs img); [|lia|lia]. iApply (object_intro with "H").
Qed.
Lemma wp_read_to dest n o count (i : pb_istream Y) c Φ : 0 ≤ o → 0 ≤ count → o + count ≤ n → stream_ok i →
  object dest n -∗ (∀ r i' (_ : stream_ok i') (_ : bytes_left i' ≤ bytes_left i), object dest n -∗ Φ r i' c) -∗ wp (read_to (dest + o) count) i c Φ.
Proof.
  intros Ho Hc Hn Hi. iIntros "H HΦ". unfold read_to. iApply (wp_read _ _ _ _ _ _ _ (reads_to_buffer count Hc) Hi). iSplit.
  - iIntros (i' H1 H2). by iApply ("HΦ" $! None i' H1 H2).
  - iIntros (bs i' [Hb _] H1 H2). iApply (wp_store_object_at with "H"); [lia|lia|]. iIntros "H". assert (bytes_left i' ≤ bytes_left i) as H3 by lia. iApply ("HΦ" $! (Some tt) i' H1 H3 with "H").
Qed.
Lemma wp_read_to_front dest n count (i : pb_istream Y) c Φ : 0 ≤ count → count ≤ n → stream_ok i →
  object dest n -∗ (∀ r i' (_ : stream_ok i') (_ : bytes_left i' ≤ bytes_left i), object dest n -∗ Φ r i' c) -∗ wp (read_to dest count) i c Φ.
Proof. intros Hc Hn Hi. pose proof (wp_read_to dest n 0 count i c Φ ltac:(lia) Hc ltac:(lia) Hi) as Hw. by rw Z.add_0_r in Hw. Qed.

(** Errors after the length was read. *)
Lemma wp_refuse {A} msg (i i' : pb_istream Y) c (P : heapPropI) (Φ : option A → pb_istream Y → Z → heapPropI) k : stream_ok i' → bytes_left i' ≤ bytes_left i - k → 1 ≤ k →
  (∀ i2 (_ : took i i2 false), P -∗ Φ None i2 c) -∗ P -∗ wp (A := A) (error msg) i' c Φ.
Proof.
  intros H1 H2 H3. iIntros "HΦ H". iApply wp_error; [done|]. iIntros (i2 H4 H5). assert (took i i2 false) as Ht by (by eapply took_more). iApply ("HΦ" $! i2 Ht with "H").
Qed.
Context {alloc : Allocator} {alloc_ok : AllocatorOk}.
Lemma wp_dec_static_bytes f dest i c : PB_ATYPE (type f) = PB_ATYPE_STATIC → stream_ok i → 0 ≤ data_size f →
  object dest (data_size f) ⊢ wp (pb_dec_bytes f dest) i c (value_post (object dest (data_size f)) i c).
Proof.
  intros Ha Hi Hd. iIntros "H". unfold pb_dec_bytes. iApply (wp_read _ _ _ _ _ _ _ reads_varint32 Hi). iSplit.
  { iIntros (i' H1 H2). iApply (post_intro with "H"). by apply took_none. }
  iIntros (size i' Hs H1 H2). assert (0 ≤ size < 2 ^ 32) as [Hs1 Hs2] by apply Hs.
  assert (u64 (size + bytes_offset) = size + 4) as Eu by (apply wrap_small; unfold bytes_offset; word_lia). rw Eu.
  rw (proj2 (Z.ltb_ge PB_SIZE_MAX size)); [|unfold PB_SIZE_MAX; lia]. rw (proj2 (Z.ltb_ge (size + 4) size)); [|lia].
  rw (decide_False (P := PB_ATYPE (type f) = PB_ATYPE_POINTER)); [|by rw Ha].
  iApply wp_bind. destruct (Z.ltb_spec (data_size f) (size + 4)) as [Hz|Hz].
  - iApply (wp_refuse with "[] H"); [done|exact H2|lia|]. iIntros (i2 H3) "H". by iApply post_intro.
  - iApply wp_ret. iApply wp_bind. iApply (wp_store_object with "H"); [unfold zlen; rw length_le_bytes; lia|]. iIntros "H".
    iApply (wp_read_to with "H"); [done|lia|unfold bytes_offset; lia|done|]. iIntros (r i2 H3 H4) "H". iApply (post_intro with "H"). by eapply took_more.
Qed.
Lemma no_terminator_overflow size : 0 ≤ size < 2 ^ 32 → size ≤ u32 (size + 1) → u32 (size + 1) = size + 1.
Proof.
  intros Hs Hu. apply wrap_small. split; [lia|]. destruct (decide (size + 1 < 2 ^ 32)); [done|]. exfalso.
  replace (size + 1) with (2 ^ 32) in Hu by lia. change (u32 (2 ^ 32)) with 0 in Hu. lia.
Qed.
Lemma wp_dec_static_string f dest i c : PB_ATYPE (type f) = PB_ATYPE_STATIC → stream_ok i → 0 ≤ data_size f →
  object dest (data_size f) ⊢ wp (pb_dec_string f dest) i c (value_post (object dest (data_size f)) i c).
Proof.
  intros Ha Hi Hd. iIntros "H". unfold pb_dec_string. iApply (wp_read _ _ _ _ _ _ _ reads_varint32 Hi). iSplit.
  { iIntros (i' H1 H2). iApply (post_intro with "H"). by apply took_none. }
  iIntros (size i' Hs H1 H2). assert (0 ≤ size < 2 ^ 32) as [Hs1 Hs2] by apply Hs.
  destruct (Z.ltb_spec (u32 (size + 1)) size) as [Hu|Hu].
  { iApply (wp_refuse with "[] H"); [done|exact H2|lia|]. iIntros (i2 H3) "H". by iApply post_intro. }
  assert (u32 (size + 1) = size + 1) as Eu by (by apply no_terminator_overflow).
  rw Eu. rw (decide_False (P := PB_ATYPE (type f) = PB_ATYPE_POINTER)); [|by rw Ha].
  iApply wp_bind. destruct (Z.ltb_spec (data_size f) (size + 1)) as [Hz|Hz].
  - iApply (wp_refuse with "[] H"); [done|exact H2|lia|]. iIntros (i2 H3) "H". by iApply post_intro.
  - iApply wp_ret. iApply wp_bind. iApply wp_status. iApply (wp_read_to_front with "H"); [lia|lia|done|]. iIntros (r i2 H3 H4) "H".
    iApply wp_bind. iApply (wp_store_object_at with "H"); [lia|unfold zlen; cbn; lia|]. iIntros "H".
    destruct r; [iApply wp_ret|iApply wp_fail]; iApply (post_intro with "H"); by eapply took_more.
Qed.
Lemma wp_dec_fixed_length_bytes f dest i c : stream_ok i → 0 ≤ data_size f →
  object dest (data_size f) ⊢ wp (pb_dec_fixed_length_bytes f dest) i c (value_post (object dest (data_size f)) i c).
Proof.
  intros Hi Hd. iIntros "H". unfold pb_dec_fixed_length_bytes. iApply (wp_read _ _ _ _ _ _ _ reads_varint32 Hi). iSplit.
  { iIntros (i' H1 H2). iApply (post_intro with "H"). by apply took_none. }
  iIntros (size i' Hs H1 H2). assert (0 ≤ size < 2 ^ 32) as [Hs1 Hs2] by apply Hs.
  rw (proj2 (Z.ltb_ge PB_SIZE_MAX size)); [|unfold PB_SIZE_MAX; lia]. destruct (Z.eqb_spec size 0) as [Hz|Hz].
  - iApply (wp_store_object with "H"); [unfold zlen; rw length_replicate; lia|]. iIntros "H". iApply (post_intro with "H"). by eapply took_some.
  - destruct (Z.eqb_spec size (data_size f)) as [Hz2|Hz2]; cbn [negb].
    + iApply (wp_read_to_front with "H"); [lia|lia|done|]. iIntros (r i2 H3 H4) "H". iApply (post_intro with "H"). by eapply took_more.
    + iApply (wp_refuse with "[] H"); [done|exact H2|lia|]. iIntros (i2 H3) "H". by iApply post_intro.
Qed.


(** ** Allocation *)

(** A pointer variable, and the block it leads to, if any. *)
Definition cell (q p : Z) : heapPropI := (∃ bs (_ : zlen bs = sizeof_ptr) (_ : le_val bs = p), q ↦∗ bs)%I.
Definition old_block (p : Z) (old : bytes) : heapPropI := if p =? 0 then (∃ _ : old = [], emp)%I else (∃ _ : 0 < p < 2 ^ 64, is_block p old)%I.
Lemma zlen_le_bytes n p : zlen (le_bytes n p) = Z.of_nat n.
Proof. unfold zlen. by rw length_le_bytes. Qed.
Lemma le_val_pointer p : 0 ≤ p < 2 ^ 64 → le_val (le_bytes 8 p) = p.
Proof. intros Hp. rw le_val_le_bytes. apply Z.mod_small. done. Qed.
Lemma wp_load_cell q p (i : pb_istream Y) c Φ : cell q p -∗ (cell q p -∗ Φ (Some p) i c) -∗ wp (load_pointer q) i c Φ.
Proof.
  iIntros "(%bs & %Hl & %Hv & H) HΦ". unfold load_pointer. iApply wp_bind. iApply (wp_load_front with "H"); [done|by rw Hl|].
  iIntros "H". iApply wp_ret. assert (slice 0 sizeof_ptr bs = bs) as -> by (rw -Hl; apply slice_all).
  rw Hv. iApply "HΦ". by iExists bs, Hl, Hv.
Qed.
Lemma wp_store_cell q p p' (i : pb_istream Y) c Φ : 0 ≤ p' < 2 ^ 64 → cell q p -∗ (cell q p' -∗ Φ (Some tt) i c) -∗ wp (store_pointer q p') i c Φ.
Proof.
  intros Hp. iIntros "(%bs & %Hl & %Hv & H) HΦ". unfold store_pointer. iApply (wp_store_front with "H"); [rw zlen_le_bytes Hl; done|]. rw put_all; [|rw zlen_le_bytes Hl; done].
  iIntros "H". iApply "HΦ". by iExists (le_bytes 8 p'), (zlen_le_bytes 8 p'), (le_val_pointer p' Hp).
Qed.
Lemma old_block_null old : old_block 0 old ⊣⊢ ∃ _ : old = [], emp.
Proof. done. Qed.
Lemma wp_realloc_old p old n (i : pb_istream Y) c Φ : 0 ≤ p → 0 < n →
  old_block p old -∗
  (old_block p old -∗ Φ (Some 0) i c) ∧
    (∀ q bs (_ : new_block q n bs) (_ : kept_bytes old bs n), is_block q bs -∗ Φ (Some q) i c) -∗
  wp (on_memory (realloc p n)) i c Φ.
Proof.
  intros Hp Hn. iIntros "Ho HΦ". unfold old_block. destruct (Z.eqb_spec p 0) as [->|Hp0].
  - iDestruct "Ho" as "[%He Ho]". iClear "Ho". subst old. iApply wp_realloc_null; [done|]. iSplit.
    + iDestruct "HΦ" as "[HΦ _]". iApply "HΦ". by iExists eq_refl.
    + iIntros (q bs Hq) "Hb". iDestruct "HΦ" as "[_ HΦ]". assert (kept_bytes [] bs n) as Hk.
      { unfold kept_bytes. cbn. rw Z.min_l; [|unfold zlen; cbn; lia]. done. }
      destruct Hq as (H1 & H2 & H3). subst n. by iApply ("HΦ" $! q bs (conj H1 (conj eq_refl H3)) Hk).
  - iDestruct "Ho" as "(%Hp2 & Hb)". iApply (wp_realloc with "Hb"); [lia|done|]. iSplit.
    + iIntros "Hb". iDestruct "HΦ" as "[HΦ _]". iApply "HΦ". by iExists Hp2.
    + iIntros (q bs Hq Hk) "Hb". iDestruct "HΦ" as "[_ HΦ]". pose proof Hq as (H1 & H2 & H3). iApply ("HΦ" $! q bs Hq Hk). unfold is_block. by rw H2.
Qed.
Lemma wp_allocate q p old ds n (i : pb_istream Y) c Φ : 0 ≤ p < 2 ^ 64 → 0 ≤ ds < 2 ^ 64 → 0 ≤ n < 2 ^ 64 → stream_ok i →
  cell q p ∗ old_block p old -∗
  (∀ i' (_ : stream_ok i') (_ : bytes_left i' ≤ bytes_left i), cell q p ∗ old_block p old -∗ Φ None i' c) ∧
    (∀ p' bs (_ : new_block p' (n * ds) bs) (_ : kept_bytes old bs (n * ds)), cell q p' ∗ is_block p' bs -∗ Φ (Some tt) i c) -∗
  wp (allocate_field q ds n) i c Φ.
Proof.
  intros Hp Hds Hn Hi. iIntros "[Hq Ho] HΦ". unfold allocate_field. iApply wp_bind. iApply (wp_load_cell with "Hq"). iIntros "Hq".
  destruct (Z.eqb_spec ds 0) as [Hz|Hds0]; [|destruct (Z.eqb_spec n 0) as [Hz|Hn0]].
  1,2: cbn [orb]; iApply wp_error; [done|]; iIntros (i' H1 H2); iDestruct "HΦ" as "[HΦ _]"; iApply ("HΦ" $! i' H1 H2); by iFrame.
  cbn [orb]. set (big := (_ || _) && _). destruct big eqn:Hbig.
  { iApply wp_error; [done|]. iIntros (i' H1 H2). iDestruct "HΦ" as "[HΦ _]". iApply ("HΦ" $! i' H1 H2). by iFrame. }
  assert (n * ds < 2 ^ 64) as Hnd.
  { subst big. apply andb_false_iff in Hbig as [Hb|Hb].
    - apply orb_false_iff in Hb as [Hb1 Hb2]. apply Z.leb_gt in Hb1, Hb2. change (2 ^ 64) with (2 ^ 32 * 2 ^ 32). nia.
    - apply Z.ltb_ge in Hb. pose proof (Z.mul_div_le (2 ^ 64 - 1) n ltac:(lia)). nia. }
  assert (u64 (n * ds) = n * ds) as -> by (apply wrap_small; split; [nia|done]).
  iApply wp_bind. iApply (wp_realloc_old with "Ho"); [lia|nia|]. iSplit.
  - iIntros "Ho". cbn. iApply wp_error; [done|]. iIntros (i' H1 H2). iDestruct "HΦ" as "[HΦ _]". iApply ("HΦ" $! i' H1 H2). by iFrame.
  - iIntros (p' bs Hb Hk) "Hbs". pose proof Hb as (Hb1 & _). rw (proj2 (Z.eqb_neq p' 0)); [|lia].
    iApply (wp_store_cell with "Hq"); [lia|]. iIntros "Hq". iDestruct "HΦ" as "[_ HΦ]". iApply ("HΦ" $! p' bs Hb Hk). by iFrame.
Qed.


(** ** Strings and bytes behind pointers *)

Section Pointers.
Context {tables : Tables} {layout : Layout} (sub : Z → bytes → heapPropI).
Lemma string_sub_owns f img : is_string_or_bytes f = true → sub_owns sub f img = emp%I.
Proof. unfold is_string_or_bytes, sub_owns. intros H2. apply bool_decide_eq_true in H2 as [->| ->]; done. Qed.
Lemma single_owns_null f : single_owns sub f 0 = emp%I.
Proof. done. Qed.
Lemma single_owns_block f p bs : 0 < p < 2 ^ 64 → single_size f (zlen bs) → is_block p bs ∗ sub_owns sub f bs ⊢ single_owns sub f p.
Proof. intros Hp Hs. unfold single_owns. rw (proj2 (Z.eqb_neq p 0)); [|lia]. iIntros "H". by iExists bs, Hp, Hs. Qed.
(** The block of a string can be moved. *)
Lemma single_old_block f p : is_string_or_bytes f = true → single_owns sub f p ⊢ ∃ old (_ : p ≠ 0 → single_size f (zlen old)), old_block p old.
Proof.
  intros Hf. unfold single_owns, old_block. destruct (Z.eqb_spec p 0) as [->|Hp].
  - assert (0 ≠ 0 → single_size f (zlen (@nil Z))) as Hz by done. iIntros "H". by iExists (@nil Z), Hz, eq_refl.
  - iIntros "(%bs & %H1 & %H2 & Hb & Hs)". rw string_sub_owns; [|done]. iClear "Hs". by iExists bs, (λ _, H2), H1.
Qed.
Lemma old_block_single f p old : is_string_or_bytes f = true → (p ≠ 0 → single_size f (zlen old)) → old_block p old ⊢ single_owns sub f p.
Proof.
  intros Hf Hs. unfold old_block. destruct (Z.eqb_spec p 0) as [->|Hp].
  - rw single_owns_null. iIntros "[%He H]". done.
  - iIntros "[%H1 Hb]". iApply single_owns_block; [done|by apply Hs|]. rw string_sub_owns; [|done]. by iFrame.
Qed.
Definition string_cell (f : pb_field) (q : Z) : heapPropI := (∃ p (_ : 0 ≤ p < 2 ^ 64), cell q p ∗ single_owns sub f p)%I.
Lemma string_cell_intro f q p : 0 ≤ p < 2 ^ 64 → cell q p ∗ single_owns sub f p ⊢ string_cell f q.
Proof. intros Hp. iIntros "H". by iExists p, Hp. Qed.
Lemma is_block_object p bs : is_block p bs ⊢ object p (zlen bs) ∗ heap_block p (zlen bs).
Proof. iIntros "[H1 H2]". iFrame "H2". iApply (object_intro with "H1"). Qed.
Lemma object_string f p n : is_string_or_bytes f = true → 0 < p < 2 ^ 64 → 0 < n → object p n ∗ heap_block p n ⊢ single_owns sub f p.
Proof.
  intros Hf Hp Hn. iIntros "[(%bs & %Hb & H1) H2]". iApply (single_owns_block f p bs); [done|by (split; [lia|rw Hf])|].
  rw string_sub_owns; [|done]. unfold is_block. rw Hb. iFrame.
Qed.

(** The allocation of a string of [n] bytes. *)
Lemma wp_allocate_string f q n (i : pb_istream Y) c Φ : is_string_or_bytes f = true → 0 ≤ n < 2 ^ 64 → stream_ok i →
  string_cell f q -∗
  (∀ i' (_ : stream_ok i') (_ : bytes_left i' ≤ bytes_left i), string_cell f q -∗ Φ None i' c) ∧
    (∀ p (_ : 0 < p < 2 ^ 64) (_ : 0 < n), cell q p ∗ object p n ∗ heap_block p n -∗ Φ (Some p) i c) -∗
  wp (_ ← allocate_field q n 1; load_pointer q) i c Φ.
Proof.
  intros Hf Hn Hi. iIntros "(%p & %Hp & Hq & Ho) HΦ". iDestruct (single_old_block with "Ho") as "(%old & %Hold & Ho)"; [done|].
  iApply wp_bind. iApply (wp_allocate with "[$Hq $Ho]"); [done|done|done|done|]. iSplit.
  - iIntros (i' H1 H2) "[Hq Ho]". iDestruct "HΦ" as "[HΦ _]". iApply ("HΦ" $! i' H1 H2). iApply (string_cell_intro f q p); [done|]. iFrame. by iApply old_block_single.
  - iIntros (p' bs Hb _) "[Hq Hb]". rw Z.mul_1_l in Hb. destruct Hb as (H1 & H2 & H3). iApply (wp_load_cell with "Hq"). iIntros "Hq".
    iDestruct "HΦ" as "[_ HΦ]". iApply ("HΦ" $! p' H1 H3). iFrame. rw -H2. by iApply is_block_object.
Qed.
Lemma wp_dec_pointer_bytes f q i c : PB_ATYPE (type f) = PB_ATYPE_POINTER → is_string_or_bytes f = true → stream_ok i →
  string_cell f q ⊢ wp (pb_dec_bytes f q) i c (value_post (string_cell f q) i c).
Proof.
  intros Ha Hf Hi. iIntros "H". unfold pb_dec_bytes. iApply (wp_read _ _ _ _ _ _ _ reads_varint32 Hi). iSplit.
  { iIntros (i' H1 H2). iApply (post_intro with "H"). by apply took_none. }
  iIntros (size i' Hs H1 H2). assert (0 ≤ size < 2 ^ 32) as [Hs1 Hs2] by apply Hs.
  assert (u64 (size + bytes_offset) = size + 4) as Eu by (apply wrap_small; unfold bytes_offset; word_lia). rw Eu.
  rw (proj2 (Z.ltb_ge PB_SIZE_MAX size)); [|unfold PB_SIZE_MAX; lia]. rw (proj2 (Z.ltb_ge (size + 4) size)); [|lia].
  rw (decide_True (P := PB_ATYPE (type f) = PB_ATYPE_POINTER)); [|done].
  iApply wp_bind. iApply wp_get. iIntros (m). cbn [input]. destruct (Z.ltb_spec (bytes_left i') size) as [Hz|Hz].
  { iApply (wp_refuse with "[] H"); [done|exact H2|lia|]. iIntros (i2 H3) "H". by iApply post_intro. }
  iApply (wp_allocate_string with "H"); [done|lia|done|]. iSplit.
  { iIntros (i2 H3 H4) "H". iApply (post_intro with "H"). by eapply took_more. }
  iIntros (p Hp Hn) "(Hq & Ho & Hb)". iApply wp_bind. iApply (wp_store_object with "Ho"); [rw zlen_le_bytes; lia|]. iIntros "Ho".
  iApply (wp_read_to with "Ho"); [done|lia|unfold bytes_offset; lia|done|]. iIntros (r i2 H3 H4) "Ho".
  iApply (post_intro _ (string_cell f q)); [by eapply took_more|]. iApply (string_cell_intro f q p); [lia|]. iFrame.
  iApply object_string; [done|done| |iFrame]. lia.
Qed.
Lemma wp_dec_pointer_string f q i c : PB_ATYPE (type f) = PB_ATYPE_POINTER → is_string_or_bytes f = true → stream_ok i →
  string_cell f q ⊢ wp (pb_dec_string f q) i c (value_post (string_cell f q) i c).
Proof.
  intros Ha Hf Hi. iIntros "H". unfold pb_dec_string. iApply (wp_read _ _ _ _ _ _ _ reads_varint32 Hi). iSplit.
  { iIntros (i' H1 H2). iApply (post_intro with "H"). by apply took_none. }
  iIntros (size i' Hs H1 H2). assert (0 ≤ size < 2 ^ 32) as [Hs1 Hs2] by apply Hs.
  destruct (Z.ltb_spec (u32 (size + 1)) size) as [Hu|Hu].
  { iApply (wp_refuse with "[] H"); [done|exact H2|lia|]. iIntros (i2 H3) "H". by iApply post_intro. }
  assert (u32 (size + 1) = size + 1) as -> by (by apply no_terminator_overflow).
  rw (decide_True (P := PB_ATYPE (type f) = PB_ATYPE_POINTER)); [|done].
  iApply wp_bind. iApply wp_get. iIntros (m). cbn [input]. destruct (Z.ltb_spec (bytes_left i') size) as [Hz|Hz].
  { iApply (wp_refuse with "[] H"); [done|exact H2|lia|]. iIntros (i2 H3) "H". by iApply post_intro. }
  iApply (wp_allocate_string with "H"); [done|lia|done|]. iSplit.
  { iIntros (i2 H3 H4) "H". iApply (post_intro with "H"). by eapply took_more. }
  iIntros (p Hp Hn) "(Hq & Ho & Hb)". iApply wp_bind. iApply wp_status. iApply (wp_read_to_front with "Ho"); [lia|lia|done|]. iIntros (r i2 H3 H4) "Ho".
  iApply wp_bind. iApply (wp_store_object_at with "Ho"); [lia|unfold zlen; cbn; lia|]. iIntros "Ho".
  iAssert (string_cell f q) with "[Hq Ho Hb]" as "H".
  { iApply (string_cell_intro f q p); [lia|]. iFrame. iApply object_string; [done|done| |iFrame]. lia. }
  destruct r; [iApply wp_ret|iApply wp_fail]; iApply (post_intro with "H"); by eapply took_more.
Qed.
End Pointers.
End Values.
