(* ===== verification/PbInit.v ===== *)
(** * Initial values are memory safe

    [pb_message_set_to_defaults] writes only to the structure and leaves a message that owns nothing,
    whatever the memory held before. *)
From iris.proofmode Require Import proofmode.
From stdpp Require Import gmap.
From S2P Require Export PbValues.

Section Init.
Context {Y : Type} {source : Source Y} {source_safe : SourceSafe Y} {tables : Tables} {layout : Layout} {fit : TablesFit} {extensions : Extensions} {most_items : Most}.
Abbreviation M := (run (machine Y)).

(** ** The words of a field *)

Section Words.
Context (id : Z) (p : Z) (j : nat) (sl : slot).
Hypothesis Hj : slots (fields_of id) !! j = Some sl.

Lemma count_place : count_bytes sl = 4 → 0 ≤ sl_size sl ∧ sl_size sl + 4 ≤ struct_size id.
Proof using Hj fit. intros Hc. destruct (ok_count id sl (slot_fits id j sl Hj)); lia. Qed.
Lemma pointer_place : atype sl = PB_ATYPE_POINTER → 0 ≤ sl_data sl ∧ sl_data sl + 8 ≤ struct_size id.
Proof using Hj fit. intros Ha. pose proof (ok_data id sl (slot_fits id j sl Hj)) as Hd. rw data_bytes_pointer in Hd; [|done]. unfold sizeof_ptr in Hd. lia. Qed.
Lemma differs_count img n : zlen img = struct_size id → count_bytes sl = 4 → differs_at sl img (put (sl_size sl) (le_bytes 4 n) img).
Proof using Hj fit.
  intros Hl Hc. destruct (count_place Hc). apply differs_put; [done|rw zlen_le_bytes; lia|]. right. rw zlen_le_bytes Hc. done.
Qed.
Lemma count_of_put img n : zlen img = struct_size id → count_bytes sl = 4 → 0 ≤ n < 2 ^ 32 → count_of sl (put (sl_size sl) (le_bytes 4 n) img) = n.
Proof using Hj fit.
  intros Hl Hc Hn. destruct (count_place Hc). unfold count_of. change sizeof_size with (Z.of_nat 4). rw -(zlen_le_bytes 4 n) slice_put; [|done|rw zlen_le_bytes; lia].
  rw le_val_le_bytes. change (256 ^ Z.of_nat 4) with (2 ^ 32). rw Z.mod_small; [|done]. by apply wrap_small.
Qed.
Lemma differs_pointer img q : zlen img = struct_size id → atype sl = PB_ATYPE_POINTER → differs_at sl img (put (sl_data sl) (le_bytes 8 q) img).
Proof using Hj fit.
  intros Hl Ha. destruct (pointer_place Ha). apply differs_put; [done|rw zlen_le_bytes; lia|]. left. rw zlen_le_bytes data_bytes_pointer; [|done]. done.
Qed.
Lemma pointer_of_put img q : zlen img = struct_size id → atype sl = PB_ATYPE_POINTER → 0 ≤ q < 2 ^ 64 → pointer_of sl (put (sl_data sl) (le_bytes 8 q) img) = q.
Proof using Hj fit.
  intros Hl Ha Hq. destruct (pointer_place Ha). unfold pointer_of. change sizeof_ptr with (Z.of_nat 8). rw -(zlen_le_bytes 8 q) slice_put; [|done|rw zlen_le_bytes; lia].
  by apply le_val_pointer.
Qed.
(** A change of the data does not touch the count, and the other way round. *)
Lemma count_of_data o bs img : zlen img = struct_size id → count_bytes sl = 4 → within o (zlen bs) (sl_data sl) (data_bytes sl) → count_of sl (put o bs img) = count_of sl img.
Proof using Hj fit.
  intros Hl Hc Hw. destruct (count_place Hc). pose proof (slot_fits id j sl Hj) as Hok. unfold count_of. do 2 f_equal. apply same_at_put.
  - by right.
  - pose proof (ok_data id sl Hok). unfold within in Hw. lia.
  - pose proof (ok_data id sl Hok). unfold within in Hw. lia.
  - eapply apart_within; [apply zlen_nonneg| |exact Hw]. apply apart_sym. pose proof (ok_apart id sl Hok) as Ha. by rw Hc in Ha.
Qed.
Lemma pointer_of_count n img : zlen img = struct_size id → atype sl = PB_ATYPE_POINTER → count_bytes sl = 4 →
  pointer_of sl (put (sl_size sl) (le_bytes 4 n) img) = pointer_of sl img.
Proof using Hj fit.
  intros Hl Ha Hc. destruct (count_place Hc), (pointer_place Ha). pose proof (slot_fits id j sl Hj) as Hok. unfold pointer_of. f_equal. apply same_at_put.
  - by right.
  - done.
  - rw zlen_le_bytes. lia.
  - pose proof (ok_apart id sl Hok) as Hap. rw data_bytes_pointer in Hap; [|done]. rw Hc in Hap. by rw zlen_le_bytes.
Qed.

Lemma wp_load_count img (i : pb_istream Y) c Φ : zlen img = struct_size id → count_bytes sl = 4 →
  p ↦∗ img -∗ (p ↦∗ img -∗ Φ (Some (count_of sl img)) i c) -∗ wp (load_size (In_message (p + sl_size sl))) i c Φ.
Proof using Hj fit.
  intros Hl Hc. destruct (count_place Hc). iIntros "H HΦ". cbn [load_size]. iApply wp_bind. iApply (wp_load with "H"); [done|done|unfold sizeof_size; lia|].
  iIntros "H". iApply wp_ret. by iApply "HΦ".
Qed.
Lemma wp_store_count img n (i : pb_istream Y) c Φ : zlen img = struct_size id → count_bytes sl = 4 →
  p ↦∗ img -∗ (p ↦∗ put (sl_size sl) (le_bytes 4 n) img -∗ Φ (Some tt) i c) -∗ wp (store_size (In_message (p + sl_size sl)) n) i c Φ.
Proof using Hj fit.
  intros Hl Hc. destruct (count_place Hc). iIntros "H HΦ". cbn [store_size]. iApply (wp_store with "H"); [done|rw zlen_le_bytes; lia|done].
Qed.
Lemma wp_load_ptr img (i : pb_istream Y) c Φ : zlen img = struct_size id → atype sl = PB_ATYPE_POINTER →
  p ↦∗ img -∗ (p ↦∗ img -∗ Φ (Some (pointer_of sl img)) i c) -∗ wp (load_pointer (p + sl_data sl)) i c Φ.
Proof using Hj fit.
  intros Hl Ha. destruct (pointer_place Ha). iIntros "H HΦ". unfold load_pointer. iApply wp_bind. iApply (wp_load with "H"); [done|done|unfold sizeof_ptr; lia|].
  iIntros "H". iApply wp_ret. by iApply "HΦ".
Qed.
Lemma wp_store_ptr img q (i : pb_istream Y) c Φ : zlen img = struct_size id → atype sl = PB_ATYPE_POINTER →
  p ↦∗ img -∗ (p ↦∗ put (sl_data sl) (le_bytes 8 q) img -∗ Φ (Some tt) i c) -∗ wp (store_pointer (p + sl_data sl) q) i c Φ.
Proof using Hj fit.
  intros Hl Ha. destruct (pointer_place Ha). iIntros "H HΦ". unfold store_pointer. iApply (wp_store with "H"); [done|rw zlen_le_bytes; lia|done].
Qed.
End Words.


(** ** Initial values *)

(** The function returns, and touches neither the stream nor the counter. *)
Definition returns (P : heapPropI) (i : pb_istream Y) (c : Z) : option unit → pb_istream Y → Z → heapPropI :=
  λ r i' c', (∃ (_ : r = Some tt ∧ i' = i ∧ c' = c), P)%I.
Lemma returns_intro P i c : P ⊢ returns P i c (Some tt) i c.
Proof. iIntros "H". by iExists (conj eq_refl (conj eq_refl eq_refl)). Qed.
Lemma wp_then (m n : M unit) P i c Φ : (P ⊢ wp n i c Φ) → wp m i c (returns P i c) ⊢ wp (_ ← m; n) i c Φ.
Proof.
  intros Hn. rw -wp_bind. apply wp_mono. intros r i' c'. iIntros "(%H & H)". destruct H as (-> & -> & ->). by iApply Hn.
Qed.
Lemma wp_returns (m : M unit) P i c Φ : wp m i c (returns P i c) -∗ (P -∗ Φ (Some tt) i c) -∗ wp m i c Φ.
Proof.
  iIntros "H HΦ". iApply (wp_wand with "H"). iIntros (r i' c') "(%H & H)". destruct H as (-> & -> & ->). by iApply "HΦ".
Qed.

(** A message that owns nothing, at any depth beyond that of its structures. *)
Definition idle (id : Z) (img : bytes) : Prop := ∀ k, (nesting id < k)%nat → ⊢ owns k id img.
Definition field_idle (id : Z) (sl : slot) (img : bytes) : Prop := ∀ k, (nesting id ≤ k)%nat → ⊢ field_owns (owns k) sl img.
(** A field after its initialisation: a union has no current member. *)
Definition reset (id : Z) (sl : slot) (img : bytes) : Prop :=
  if decide (htype sl = PB_HTYPE_ONEOF) then count_of sl img = 0 ∧ unset sl img else field_idle id sl img.
Definition cleared (sl : slot) (img : bytes) : bytes :=
  put (sl_size sl) (le_bytes 4 0) (match atype sl with PB_ATYPE_POINTER => put (sl_data sl) (le_bytes 8 0) img | _ => img end).
Definition structure (id p : Z) (P : bytes → Prop) : heapPropI := (∃ img (_ : zlen img = struct_size id) (_ : P img), p ↦∗ img)%I.
Definition set_message_spec (set_message : pb_fields → Z → M unit) (n : nat) : Prop := ∀ id p img i c, (nesting id < n)%nat → 0 < p → zlen img = struct_size id →
  p ↦∗ img ⊢ wp (set_message (fields_of id) p) i c (returns (structure id p (idle id)) i c).

Lemma owns_scalar sub f img : PB_LTYPE (type f) ≠ PB_LTYPE_SUBMESSAGE → sub_owns sub f img = emp%I.
Proof. unfold sub_owns. by destruct (PB_LTYPE _). Qed.

Section Field.
Context (id p : Z) (j : nat) (sl : slot).
Hypothesis Hj : slots (fields_of id) !! j = Some sl.
Hypothesis Hp : 0 < p.
Abbreviation it := (at_slot (fields_of id) p j sl).
Abbreviation f := (sl_field sl).

Lemma field_at_slot : field_at it = f.
Proof using Hj. by apply field_at_iter. Qed.
(** The image changed at this field, and its count did not. *)
Definition data_changed (img img' : bytes) : Prop := differs_at sl img img' ∧ (count_bytes sl = 4 → count_of sl img' = count_of sl img).
Lemma data_changed_put o bs img : zlen img = struct_size id → within o (zlen bs) (sl_data sl) (data_bytes sl) → data_changed img (put o bs img).
Proof using Hj fit.
  intros Hl Hw. pose proof (ok_data id sl (slot_fits id j sl Hj)) as Hd. split; [|intros Hc; by eapply count_of_data].
  apply differs_put; [unfold within in Hw; lia|unfold within in Hw; lia|by left].
Qed.
(** The object of a static field. *)
Lemma static_place : atype sl = PB_ATYPE_STATIC → htype sl ≠ PB_HTYPE_REPEATED →
  0 ≤ sl_data sl ∧ 1 ≤ data_size f ∧ sl_data sl + data_size f ≤ struct_size id.
Proof using Hj fit.
  intros Ha Hh. pose proof (slot_fits id j sl Hj) as Hok. pose proof (ok_data id sl Hok) as Hd. rw data_bytes_single in Hd; [|done|done].
  pose proof (value_size f (ok_value id sl Hok)). lia.
Qed.
Lemma static_object img : zlen img = struct_size id → atype sl = PB_ATYPE_STATIC → htype sl ≠ PB_HTYPE_REPEATED →
  p ↦∗ img ⊢ (p + sl_data sl) ↦∗ slice (sl_data sl) (data_size f) img ∗
    ∀ bs (_ : zlen bs = data_size f), (p + sl_data sl) ↦∗ bs -∗
      ∃ img' (_ : data_changed img img') (_ : slice (sl_data sl) (data_size f) img' = bs), p ↦∗ img'.
Proof using Hj fit.
  intros Hl Ha Hh. destruct (static_place Ha Hh) as (H1 & H2 & H3). rw {1}(points_to_slice p (sl_data sl) (data_size f)); [|done|lia|lia].
  iIntros "[H Hc]". iFrame. iIntros (bs Hbs) "H". assert (data_changed img (put (sl_data sl) bs img)) as Hch.
  { apply data_changed_put; [done|]. rw Hbs data_bytes_single; [|done|done]. done. }
  assert (slice (sl_data sl) (data_size f) (put (sl_data sl) bs img) = bs) as Hs by (rw -Hbs; apply slice_put; lia).
  iExists (put (sl_data sl) bs img), Hch, Hs. iApply ("Hc" $! bs Hbs with "H").
Qed.

Lemma wp_set_static set_message img i c : set_message_spec set_message (nesting id) → zlen img = struct_size id →
  atype sl = PB_ATYPE_STATIC → htype sl ≠ PB_HTYPE_REPEATED →
  p ↦∗ img ⊢ wp (set_static_data set_message it) i c
    (returns (∃ img' (_ : data_changed img img') (_ : ∀ k, (nesting id ≤ k)%nat → ⊢ sub_owns (owns k) f (slice (sl_data sl) (data_size f) img')), p ↦∗ img') i c).
Proof using Hj Hp fit.
  intros Hset Hl Ha Hh. pose proof (slot_fits id j sl Hj) as Hok. pose proof (ok_value id sl Hok) as Hv. destruct (static_place Ha Hh) as (Hd1 & Hd2 & Hd3).
  rw (static_object img Hl Ha Hh). iIntros "[H Hc]". unfold set_static_data. rw field_at_slot. cbn [pData at_slot].
  pose proof (zlen_slice (sl_data sl) (data_size f) img Hd1 ltac:(lia) ltac:(lia)) as Hs.
  case_decide as Ht.
  - unfold value_fits in Hv. rw Ht in Hv. destruct (ptr f) as [|sub|] eqn:Hptr; try done.
    pose proof (ok_inner id sl Hok Ha) as Hin. unfold inner_fits in Hin. rw Ht Hptr in Hin. destruct Hin as [Hin _].
    iApply (wp_returns with "[H]"); [iApply (Hset sub with "H"); [done|lia|lia]|]. iIntros "(%bs & %Hbs & %Hi & H)". rw -Hv in Hbs.
    iDestruct ("Hc" $! bs Hbs with "H") as "(%img' & %Hch & %Hsl & H)". iApply returns_intro. iExists img', Hch.
    assert (∀ k, (nesting id ≤ k)%nat → ⊢ sub_owns (owns k) f (slice (sl_data sl) (data_size f) img')) as Hown; [|by iExists Hown].
    intros k Hk. rw Hsl. unfold sub_owns. rw Ht Hptr. apply Hi. lia.
  - assert (∀ img k, ⊢ sub_owns (owns k) f img) as Hown by (intros; rw owns_scalar; done).
    destruct (ptr f) as [|sub|value] eqn:Hptr.
    + iApply (wp_store_front with "H"); [unfold zlen at 1; rw length_replicate; lia|]. rw put_all; [|unfold zlen at 1; rw length_replicate; lia].
      iIntros "H". assert (zlen (replicate (Z.to_nat (data_size f)) 0) = data_size f) as Hbs by (unfold zlen; rw length_replicate; lia).
      iDestruct ("Hc" $! _ Hbs with "H") as "(%img' & %Hch & %Hsl & H)". iApply returns_intro. by iExists img', Hch, (λ k _, Hown _ k).
    + pose proof (ok_default id sl Hok Ha) as Hdf. unfold default_fits in Hdf. rw Hptr in Hdf. by destruct (PB_LTYPE _).
    + pose proof (ok_default id sl Hok Ha) as Hdf. unfold default_fits in Hdf. rw Hptr in Hdf.
      assert (data_size f ≤ zlen value) as Hdv by (by destruct (PB_LTYPE _)). unfold zlen in Hdv. rw (proj2 (Z.ltb_ge _ _) Hdv).
      assert (zlen (take (Z.to_nat (data_size f)) value) = data_size f) as Hbs by (unfold zlen; rw length_take; lia).
      iApply (wp_store_front with "H"); [lia|]. rw put_all; [|lia]. iIntros "H".
      iDestruct ("Hc" $! _ Hbs with "H") as "(%img' & %Hch & %Hsl & H)". iApply returns_intro. by iExists img', Hch, (λ k _, Hown _ k).
Qed.
Definition defaulted (img : bytes) : heapPropI :=
  (∃ img' (_ : differs_at sl img img') (_ : htype sl = PB_HTYPE_ONEOF → img' = cleared sl img) (_ : reset id sl img'), p ↦∗ img')%I.
Lemma oneof_zero_inactive img : htype sl = PB_HTYPE_ONEOF → count_of sl img = 0 → active sl img = false.
Proof using Hj fit.
  intros Hh Hc. unfold active. rw decide_True; [|done]. rw Hc. apply Z.eqb_neq. pose proof (ok_tag id sl (slot_fits id j sl Hj)). lia.
Qed.
Lemma owns_nothing img : (∀ sub, field_owns sub sl img = emp%I) → field_idle id sl img.
Proof. intros H k Hk. by rw H. Qed.
Lemma array_owns_static sub img : atype sl = PB_ATYPE_STATIC → htype sl = PB_HTYPE_REPEATED → field_owns sub sl img = emp%I.
Proof. intros Ha Hh. unfold field_owns, active. rw decide_False; [|by rw Hh]. by rw Ha Hh. Qed.
Lemma idle_inactive img : active sl img = false → unset sl img → field_idle id sl img.
Proof. intros Ha Hu k Hk. rw field_owns_inactive; [by iExists Hu|done]. Qed.
Lemma reset_idle img : reset id sl img → field_idle id sl img.
Proof using Hj fit. unfold reset. case_decide as Hh; [|done]. intros [Hc Hu]. by apply idle_inactive, Hu; apply oneof_zero_inactive. Qed.
Lemma idle_reset img : htype sl ≠ PB_HTYPE_ONEOF → field_idle id sl img → reset id sl img.
Proof. intros Hh. unfold reset. by rw decide_False. Qed.
Lemma defaulted_plain img img' : htype sl ≠ PB_HTYPE_ONEOF → differs_at sl img img' → field_idle id sl img' → p ↦∗ img' ⊢ defaulted img.
Proof.
  intros Hh Hd Hi. assert (htype sl = PB_HTYPE_ONEOF → img' = cleared sl img) as Hc by done. assert (reset id sl img') as Hr by by apply idle_reset.
  iIntros "H". by iExists img', Hd, Hc, Hr.
Qed.
Lemma defaulted_oneof img : zlen img = struct_size id → htype sl = PB_HTYPE_ONEOF → p ↦∗ cleared sl img ⊢ defaulted img.
Proof using Hj fit.
  intros Hl Hh. pose proof (count_bytes_oneof sl Hh) as Hcb. assert (differs_at sl img (cleared sl img) ∧ reset id sl (cleared sl img)) as [Hd Hr].
  { unfold cleared, reset, unset. rw decide_True //. destruct (atype sl) eqn:Ha; try (split; [by eapply differs_count|split; [by eapply count_of_put|done]]).
    pose proof (differs_pointer id j sl Hj img 0 Hl Ha) as Hd. assert (zlen (put (sl_data sl) (le_bytes 8 0) img) = struct_size id) as Hl1 by (destruct Hd; congruence).
    split; [eapply differs_trans; [done|by eapply differs_count]|split; [by eapply count_of_put|]].
    intros _. rw (pointer_of_count id j sl Hj) //. by eapply pointer_of_put. }
  assert (htype sl = PB_HTYPE_ONEOF → cleared sl img = cleared sl img) as Hc by done. iIntros "H". by iExists _, Hd, Hc, Hr.
Qed.
(** The flag of an optional field. *)
Lemma wp_store_flag img b (i : pb_istream Y) c Φ : zlen img = struct_size id → atype sl = PB_ATYPE_STATIC → htype sl = PB_HTYPE_OPTIONAL →
  p ↦∗ img -∗ (∀ img' (_ : differs_at sl img img') (_ : slice (sl_data sl) (data_size f) img' = slice (sl_data sl) (data_size f) img), p ↦∗ img' -∗ Φ (Some tt) i c) -∗
  wp (if size_is_data it then mret tt else store_flag (pSize it) b) i c Φ.
Proof using Hj fit.
  intros Hl Ha Hh. iIntros "H HΦ". unfold size_is_data. cbn [pSize pData at_slot]. case_bool_decide as Hd.
  - iApply wp_ret. iApply ("HΦ" $! img (differs_refl sl img) eq_refl with "H").
  - assert (count_bytes sl = 1) as Hc. { unfold count_bytes. rw Hh. rw decide_True; [done|]. split; [done|]. intros He. apply Hd. by rw He. }
    pose proof (slot_fits id j sl Hj) as Hok. destruct (ok_count id sl Hok) as [Hz|Hz]; [lia|]. rw Hc in Hz.
    iApply (wp_store with "H"); [lia|unfold zlen at 1; cbn; lia|]. iIntros "H".
    assert (differs_at sl img (put (sl_size sl) [if b then 1 else 0] img)) as Hdf.
    { apply differs_put; [lia|unfold zlen at 1; cbn; lia|]. right. rw Hc. done. }
    assert (slice (sl_data sl) (data_size f) (put (sl_size sl) [if b then 1 else 0] img) = slice (sl_data sl) (data_size f) img) as Hs.
    { destruct (static_place Ha ltac:(by rw Hh)) as (H1 & H2 & H3). apply same_at_put; [by right|lia|unfold zlen at 1; cbn; lia|].
      pose proof (ok_apart id sl Hok) as Hap. rw Hc data_bytes_single in Hap; [|done|by rw Hh]. done. }
    iApply ("HΦ" $! _ Hdf Hs with "H").
Qed.
Lemma wp_field_default set_extension set_message chain img i c : set_message_spec set_message (nesting id) → zlen img = struct_size id →
  p ↦∗ img ⊢ wp (set_field_to_default set_extension set_message chain it) i c (returns (defaulted img) i c).
Proof using Hj Hp fit.
  intros Hset Hl. pose proof (slot_fits id j sl Hj) as Hok. unfold set_field_to_default. rw field_at_slot.
  pose proof (ok_value id sl Hok) as Hv.
  rw decide_False; [|unfold value_fits in Hv; intros He; by rw He in Hv].
  destruct (ok_atype id sl Hok) as [Ha|Ha]; rw Ha.
  - assert (∀ img', htype sl ≠ PB_HTYPE_REPEATED → htype sl ≠ PB_HTYPE_ONEOF → (∀ k, (nesting id ≤ k)%nat → ⊢ sub_owns (owns k) f (slice (sl_data sl) (data_size f) img')) → field_idle id sl img') as Hsingle.
    { intros img' Hh1 Hh2 H k Hk. unfold field_owns, active. rw decide_False; [|done]. rw Ha. destruct (htype sl); try done; by apply H. }
    destruct (htype sl) eqn:Hh; iIntros "H".
    + iApply (wp_returns with "[H]"); [iApply (wp_set_static with "H"); try done; by rw Hh|].
      iIntros "(%img' & %Hch & %Ho & H)". iApply returns_intro. destruct Hch as [Hd _].
      iApply (defaulted_plain with "H"); [by rw Hh|done|by apply Hsingle].
    + iApply wp_bind. iApply (wp_store_flag with "H"); [done|done|done|]. iIntros (img1 Hd1 Hs1) "H".
      assert (zlen img1 = struct_size id) as Hl1 by (destruct Hd1; congruence).
      iApply (wp_returns with "[H]"); [iApply (wp_set_static with "H"); try done; by rw Hh|].
      iIntros "(%img' & %Hch & %Ho & H)". iApply returns_intro. destruct Hch as [Hd _].
      iApply (defaulted_plain with "H"); [by rw Hh|by eapply differs_trans|by apply Hsingle].
    + cbn [pSize at_slot]. destruct (decide (sl_size sl = sl_data sl)) as [He|He].
      * pose proof (ok_fixed id sl Hok Ha Hh He) as Hfx. pose proof (ok_data id sl Hok) as Hd. unfold sizeof_size in Hfx. cbn [store_size].
        iApply (wp_store with "H"); [lia|rw zlen_le_bytes; lia|]. iIntros "H". iApply returns_intro.
        iApply (defaulted_plain with "H"); [by rw Hh| |apply owns_nothing; intros; by apply array_owns_static].
        apply differs_put; [lia|rw zlen_le_bytes; lia|]. left. rw zlen_le_bytes He. split; [done|lia].
      * assert (count_bytes sl = 4) as Hc by (unfold count_bytes; rw Hh Ha; rw decide_False; [done|by intros [_ ?]]).
        iApply (wp_store_count with "H"); [done|done|done|]. iIntros "H". iApply returns_intro.
        iApply (defaulted_plain with "H"); [by rw Hh|by eapply differs_count|apply owns_nothing; intros; by apply array_owns_static].
    + cbn [pSize at_slot]. pose proof (count_bytes_oneof sl Hh) as Hc. iApply (wp_store_count with "H"); [done|done|done|]. iIntros "H". iApply returns_intro.
      iApply (defaulted_oneof img Hl Hh). unfold cleared. by rw Ha.
  - iIntros "H". iApply wp_bind. iApply (wp_store_ptr with "H"); [done|done|done|]. iIntros "H". unfold clear_count. rw field_at_slot.
    set (img1 := put (sl_data sl) (le_bytes 8 0) img). assert (differs_at sl img img1) as Hd1 by (by eapply differs_pointer).
    assert (zlen img1 = struct_size id) as Hl1 by (destruct Hd1; congruence). assert (pointer_of sl img1 = 0) as Hz by (by eapply pointer_of_put).
    assert (∀ img', pointer_of sl img' = 0 → htype sl ≠ PB_HTYPE_REPEATED → htype sl ≠ PB_HTYPE_ONEOF → field_idle id sl img') as Hsingle.
    { intros img' Hz' Hh1 Hh2 k Hk. unfold field_owns, active. rw decide_False; [|done]. rw Ha Hz'. by destruct (htype sl). }
    destruct (htype sl) eqn:Hh; cbn [pSize at_slot].
    1,2: iApply wp_ret; iApply returns_intro; (iApply (defaulted_plain with "H"); [by rw Hh|done|by apply Hsingle]).
    all: assert (count_bytes sl = 4) as Hc by ((by apply count_bytes_oneof) || (by apply count_bytes_pointer_array)).
    all: iApply (wp_store_count with "H"); [done|done|done|]; iIntros "H"; iApply returns_intro.
    + assert (count_of sl (put (sl_size sl) (le_bytes 4 0) img1) = 0) as Hz2 by (by eapply count_of_put).
      iApply (defaulted_plain with "H"); [by rw Hh|eapply differs_trans; [done|by eapply differs_count]|].
      intros k Hk. unfold field_owns, active. rw decide_False; [|by rw Hh]. rw Ha Hh (pointer_of_count id j sl Hj) ?Hz ?Hz2; [|done..]. unfold array_owns. cbn.
      iExists eq_refl. done.
    + iApply (defaulted_oneof img Hl Hh). unfold cleared. by rw Ha.
Qed.
End Field.


(** ** Whole messages *)

Lemma big_sepL_valid {A} (l : list A) (Φ : A → heapPropI) : (∀ j x, l !! j = Some x → ⊢ Φ x) → ⊢ [∗ list] x ∈ l, Φ x.
Proof. intros H. unfold bi_emp_valid. etrans; [|apply (big_sepL_mono (λ _ _, emp)%I); exact H]. by rw big_sepL_emp. Qed.
Lemma idle_fields id img : (∀ j sl, slots (fields_of id) !! j = Some sl → field_idle id sl img) → idle id img.
Proof. intros H [|k] Hk; [lia|]. apply owns_valid; [lia|]. apply big_sepL_valid. intros j sl Hj. apply (H j sl Hj). lia. Qed.
Lemma oneof_differs id k a b img img' : slots (fields_of id) !! k = Some b → htype b = PB_HTYPE_ONEOF → slots_apart b a → differs_at a img img' →
  count_of b img' = count_of b img ∧ (unset b img → unset b img').
Proof using fit.
  intros Hk Hh (H1 & H2 & H3 & H4) [_ Hd]. destruct (slot_fits id k b Hk) as [_ _ _ _ _ Hdb Hcb _ _ _ _ _ _]. rw (count_bytes_oneof b Hh) in Hcb H3 H4 *.
  assert (count_of b img' = count_of b img) as Hc by (unfold count_of; do 2 f_equal; apply Hd; [right; lia|done|done]). split; [done|].
  unfold unset. destruct (atype b) eqn:Ha; try done. rw (data_bytes_pointer b Ha) in H1 H2 Hdb *. rw Hc.
  assert (pointer_of b img' = pointer_of b img) as -> by (unfold pointer_of; f_equal; apply Hd; [right; lia|done|done]). done.
Qed.
Lemma reset_differs id j k a b img img' : slots (fields_of id) !! j = Some a → slots (fields_of id) !! k = Some b → j ≠ k → zlen img = struct_size id →
  differs_at a img img' → (htype a = PB_HTYPE_ONEOF → img' = cleared a img) → reset id b img → reset id b img'.
Proof using fit.
  intros Hj Hk Hjk Hl Hd Hz Hi. destruct (fits_apart id (fit id) j k a b Hj Hk Hjk) as [Hap|(H1 & H2 & H3 & H4 & H5)]; unfold reset in *.
  - apply slots_apart_sym in Hap. case_decide as Hh.
    + destruct Hi as [Hc Hu]. destruct (oneof_differs id k a b img img' Hk Hh Hap Hd) as [Hc' Hu']. split; [congruence|auto].
    + intros n Hn. rw (field_owns_differs id _ k a b img img'); [by apply Hi|done|done|done].
  - specialize (Hz H1). rw decide_True // in Hi. rw decide_True //. destruct Hi as [Hc Hu]. pose proof (count_bytes_oneof b H2) as Hcb.
    subst img'. unfold cleared, unset in *. rw H3 H5. assert (zlen (match atype a with PB_ATYPE_POINTER => put (sl_data b) (le_bytes 8 0) img | _ => img end) = struct_size id) as Hl'.
    { destruct (atype a) eqn:Ha; try done. rw -H5. destruct (differs_pointer id j a Hj img 0 Hl Ha). congruence. }
    split; [by eapply count_of_put|]. destruct (atype b) eqn:Hb; [done| |done|done]. intros _. rw (pointer_of_count id k b Hk) //.
    destruct (atype a) eqn:Ha; try (by apply Hu). by eapply pointer_of_put.
Qed.
Lemma wp_visit_default (g : pb_field_iter → M unit) id p i c : 0 < p →
  (∀ j sl img, slots (fields_of id) !! j = Some sl → zlen img = struct_size id →
    p ↦∗ img ⊢ wp (g (at_slot (fields_of id) p j sl)) i c (returns (defaulted id p sl img) i c)) →
  ∀ l j img, l = drop j (slots (fields_of id)) → zlen img = struct_size id →
    (∀ m sl, (m < j)%nat → slots (fields_of id) !! m = Some sl → reset id sl img) →
    p ↦∗ img ⊢ wp (visit g (fields_of id) p j l) i c (returns (structure id p (idle id)) i c).
Proof using fit.
  intros Hp Hg. induction l as [|sl l IH]; intros j img Hdrop Hl Hdone; cbn [visit].
  - iIntros "H". iApply wp_ret. iApply returns_intro. assert (idle id img) as Hi.
    { apply idle_fields. intros m sl Hm. apply (reset_idle id m sl Hm), (Hdone m sl); [|done]. apply lookup_lt_Some in Hm. symmetry in Hdrop. apply drop_nil_inv in Hdrop; lia. }
    by iExists img, Hl, Hi.
  - assert (slots (fields_of id) !! j = Some sl) as Hj by (rw -(Nat.add_0_r j) -lookup_drop -Hdrop; done).
    iIntros "H". iApply (wp_then with "[H]"); [|by iApply (Hg j sl img Hj Hl with "H")].
    iIntros "(%img' & %Hd & %Hz & %Hi & H)". iApply (IH with "H").
    + replace (S j) with (j + 1)%nat by lia. by rw -drop_drop -Hdrop.
    + destruct Hd. congruence.
    + intros m b Hm Hb. destruct (decide (m = j)) as [->|Hne]; [by simplify_eq|].
      eapply (reset_differs id j m); [done|done|done|exact Hl|done|done|]. apply (Hdone m b); [lia|done].
Qed.
Lemma wp_defaults stack : set_message_spec (pb_message_set_to_defaults stack) (Nat.div2 stack).
Proof using fit.
  induction stack as [stack IH] using lt_wf_ind. intros id p img i c Hn Hp Hl. destruct stack as [|stack]; [cbn in Hn; lia|].
  cbn [pb_message_set_to_defaults]. rw (iter_begin_exact (fields_of id) p); [|apply (table_is_ok id)|lia].
  destruct (slots (fields_of id)) as [|sl l] eqn:Hs.
  - iIntros "H". iApply wp_ret. iApply returns_intro. assert (idle id img) as Hi by (apply idle_fields; intros m sl Hm; by rw Hs in Hm).
    by iExists img, Hl, Hi.
  - iIntros "H". iApply wp_ext; [intros s; apply (for_fields_exact (fields_of id) p (table_is_ok id) ltac:(lia) _ sl l s Hs)|].
    iApply (wp_visit_default with "H"); [done| |done|done|intros; lia].
    intros j sl' img' Hj Hl'. destruct stack as [|stack]; [cbn in Hn; lia|]. cbn [pb_field_set_to_default].
    apply wp_field_default; [done|done| |done]. intros id2 p2 img2 i2 c2 Hn2. apply (IH stack); [lia|]. cbn [Nat.div2] in Hn. lia.
Qed.
End Init.
