(* ===== verification/PbRelease.v ===== *)
(** * Releasing a message is memory safe

    [pb_release] frees every block a message owns, each one once, and leaves a message that owns
    nothing. *)
From iris.proofmode Require Import proofmode.
From stdpp Require Import gmap.
From S2P Require Export PbInit.

Section Release.
Context {Y : Type} {source : Source Y} {source_safe : SourceSafe Y} {tables : Tables} {layout : Layout} {fit : TablesFit} {extensions : Extensions} {most_items : Most}.
Abbreviation M := (run (machine Y)).


(** ** Arrays *)

Lemma pointer_free_owns k : ∀ id img, pointer_free id = true → (nesting id < k)%nat → owns k id img ⊣⊢ emp.
Proof using fit.
  induction k as [|k IH]; intros id img Hf Hn; [lia|]. cbn [owns]. assert (([∗ list] sl ∈ slots (fields_of id), field_owns (owns k) sl img) ⊣⊢ emp) as E.
  { apply big_sepL_emp'. intros j sl Hj. pose proof (slot_fits id j sl Hj) as Hok. destruct (ok_pointer_free id sl Hok Hf) as [Ha Hsub].
    unfold field_owns. destruct (active sl img); [|apply nothing_intro; unfold unset; by rw Ha]. rw Ha.
    assert (∀ x, sub_owns (owns k) (sl_field sl) x ⊣⊢ emp) as Hs.
    { intros x. unfold sub_owns. destruct (ltype_of sl) eqn:Ht; try done. specialize (Hsub eq_refl). destruct (ptr (sl_field sl)) as [|sub|] eqn:Hptr; try done.
      apply IH; [done|]. pose proof (ok_inner id sl Hok Ha) as Hin. unfold inner_fits in Hin. rw Ht Hptr in Hin. lia. }
    destruct (htype sl); done || apply Hs. }
  apply bi.equiv_entails. split; [iIntros "[%H0 H]"; by rw E|]. iIntros "_". assert (nesting id ≤ k)%nat as H0 by lia. iExists H0. by rw E.
Qed.

Lemma wp_seq {A} (m : M unit) (n : M A) P i c Φ : wp m i c (returns P i c) -∗ (P -∗ wp n i c Φ) -∗ wp (_ ← m; n) i c Φ.
Proof.
  iIntros "H Hn". iApply wp_bind. iApply (wp_wand with "H"). iIntros (r i' c') "[%Hr H]". destruct Hr as (-> & -> & ->). by iApply "Hn".
Qed.
Lemma wp_free_block p bs (i : pb_istream Y) c : 0 < p → is_block p bs ⊢ wp (pb_free p) i c (returns emp i c).
Proof. intros Hp. iIntros "H". iApply (wp_free with "H"); [done|done|]. by iApply returns_intro. Qed.
Lemma wp_free_single sub f p (i : pb_istream Y) c : is_string_or_bytes f = true → single_owns sub f p ⊢ wp (pb_free p) i c (returns emp i c).
Proof.
  intros Hf. unfold single_owns. destruct (Z.eqb_spec p 0) as [->|Hp].
  - iIntros "_". iApply wp_free_null. by iApply returns_intro.
  - iIntros "(%bs & %H1 & %H2 & Hb & Hs)". rw string_sub_owns; [|done]. iClear "Hs". iApply (wp_free_block with "Hb"). lia.
Qed.

Definition release_spec (release : pb_fields → Z → M unit) (k : nat) : Prop := ∀ id p img i c, 0 < p → zlen img = struct_size id →
  p ↦∗ img ∗ owns k id img ⊢ wp (release (fields_of id) p) i c (returns (structure id p (λ img', ⊢ owns k id img')) i c).

(** Arrays: the first item and the others. *)
Lemma slice_drop o n a (bs : bytes) : 0 ≤ o → 0 ≤ a → slice o n (drop (Z.to_nat a) bs) = slice (a + o) n bs.
Proof. intros Ho Ha. unfold slice. rw drop_drop. do 2 f_equal. lia. Qed.
Lemma items_succ f n (bs : bytes) : 0 ≤ data_size f → 0 ≤ n → items f (n + 1) bs = slice 0 (data_size f) bs :: items f n (drop (Z.to_nat (data_size f)) bs).
Proof.
  intros Hd Hn. unfold items. replace (Z.to_nat (n + 1)) with (S (Z.to_nat n)) by lia. cbn [seq fmap list_fmap]. f_equal.
  rw -fmap_S_seq -list_fmap_compose. apply list_fmap_ext. intros k x _. cbn. rw slice_drop; [|nia|done]. f_equal. lia.
Qed.
Lemma split_first n (bs : bytes) : 0 ≤ n → n ≤ zlen bs → bs = slice 0 n bs ++ drop (Z.to_nat n) bs ∧ zlen (slice 0 n bs) = n ∧ zlen (drop (Z.to_nat n) bs) = zlen bs - n.
Proof.
  intros H1 H2. split_and!; [|by apply zlen_slice; lia|unfold zlen in *; rw length_drop; lia]. unfold slice. by rw drop_0 take_drop.
Qed.
Lemma points_to_first q n bs : 0 ≤ n → n ≤ zlen bs → q ↦∗ bs ⊣⊢ q ↦∗ slice 0 n bs ∗ (q + n) ↦∗ drop (Z.to_nat n) bs.
Proof. intros H1 H2. destruct (split_first n bs H1 H2) as (E & Hl & _). rw {1}E points_to_app Hl. done. Qed.
Lemma object_app q a b n : n = a + b → object q a ∗ object (q + a) b ⊢ object q n.
Proof.
  intros ->. iIntros "[(%x & %Hx & H1) (%y & %Hy & H2)]". assert (zlen (x ++ y) = a + b) as Hxy by (rw zlen_app; lia). iExists (x ++ y), Hxy.
  rw points_to_app Hx. iFrame.
Qed.

Lemma wp_release_items release k f sub : release_spec release k → PB_LTYPE (type f) = PB_LTYPE_SUBMESSAGE → ptr f = Submsg sub → data_size f = struct_size sub →
  ∀ n q bs i c, 0 < q → Z.of_nat n * data_size f ≤ zlen bs →
  q ↦∗ bs ∗ ([∗ list] it ∈ items f (Z.of_nat n) bs, sub_owns (owns k) f it) ⊢
  wp (release_items release (fields_of sub) (data_size f) n q) i c (returns (object q (zlen bs)) i c).
Proof using fit.
  intros Hrel Ht Hptr Hsize. pose proof (fits_size sub (fit sub)) as Hss. induction n as [|n IH]; intros q bs i c Hq Hl.
  - iIntros "[H Ho]". cbn. iClear "Ho". iApply wp_ret. iApply returns_intro. iApply (object_intro with "H").
  - rw Nat2Z.inj_succ -Z.add_1_r in Hl *. rw items_succ; [|lia|lia]. destruct (split_first (data_size f) bs ltac:(lia) ltac:(nia)) as (_ & Hl1 & Hl2).
    rw (points_to_first q (data_size f)); [|lia|nia]. cbn [release_items big_opL]. iIntros "[[H1 H2] [Ho Hos]]".
    iApply (wp_seq with "[H1 Ho]").
    { rw /sub_owns Ht Hptr. iApply (Hrel sub q (slice 0 (data_size f) bs)); [done|by rw Hl1 |]. iFrame. }
    iIntros "(%bs' & %Hbs' & %Hown & H1)". iApply (wp_returns with "[H2 Hos]"); [iApply (IH (q + data_size f) (drop (Z.to_nat (data_size f)) bs)); [lia|nia|iFrame]|]. rw Hl2.
    iIntros "H2". iApply returns_intro. iApply (object_app _ (data_size f) (zlen bs - data_size f)); [lia|]. iSplitL "H1"; [|iExact "H2"].
    rw Hsize -Hbs'. iApply (object_intro with "H1").
Qed.
Lemma wp_free_items f sub : is_string_or_bytes f = true → data_size f = sizeof_ptr →
  ∀ n q bs (i : pb_istream Y) c, Z.of_nat n * data_size f ≤ zlen bs →
  q ↦∗ bs ∗ ([∗ list] it ∈ items f (Z.of_nat n) bs, item_owns sub f it) ⊢ wp (free_items n q) i c (returns (object q (zlen bs)) i c).
Proof.
  intros Hf Hd. induction n as [|n IH]; intros q bs i c Hl.
  - iIntros "[H Ho]". cbn. iClear "Ho". iApply wp_ret. iApply returns_intro. iApply (object_intro with "H").
  - rw Nat2Z.inj_succ -Z.add_1_r Hd in Hl *. unfold sizeof_ptr in *. rw items_succ; [|lia|lia]. rw Hd.
    destruct (split_first 8 bs ltac:(lia) ltac:(lia)) as (_ & Hl1 & Hl2). rw (points_to_first q 8); [|lia|lia].
    cbn [free_items big_opL]. iIntros "[[H1 H2] [Ho Hos]]". iEval (rw /item_owns Hf) in "Ho".
    iApply wp_bind. unfold load_pointer. iApply wp_bind. iApply (wp_load_front with "H1"); [done|unfold sizeof_ptr; lia|]. iIntros "H1". iApply wp_ret.
    assert (slice 0 sizeof_ptr (slice 0 8 bs) = slice 0 8 bs) as -> by (unfold sizeof_ptr; by rw slice_slice).
    iApply (wp_seq with "[Ho]"); [iApply (wp_free_single with "Ho"); done|]. iIntros "_".
    iApply wp_bind. unfold store_pointer. iApply (wp_store_front with "H1"); [rw zlen_le_bytes; lia|]. rw put_all; [|rw zlen_le_bytes; lia]. iIntros "H1".
    iApply (wp_returns with "[H2 Hos]"); [iApply (IH (q + 8) (drop (Z.to_nat 8) bs)); [lia|iFrame]|]. rw Hl2.
    iIntros "H2". iApply returns_intro. iApply (object_app _ 8 (zlen bs - 8)); [lia|]. iSplitL "H1"; [|iExact "H2"].
    change 8 with (Z.of_nat 8). rw -(zlen_le_bytes 8 0). iApply (object_intro with "H1").
Qed.


(** ** Fields *)

(** A pointer, and its block, which holds nothing of value. *)
Definition loose (q : Z) : heapPropI := (∃ old, old_block q old)%I.
Lemma loose_null : ⊢ loose 0.
Proof. by iExists [], eq_refl. Qed.
Lemma loose_block q bs : 0 < q < 2 ^ 64 → is_block q bs ⊢ loose q.
Proof. intros Hq. unfold loose, old_block. iIntros "H". iExists bs. rw (proj2 (Z.eqb_neq q 0)); [|lia]. by iExists Hq. Qed.
Lemma loose_object q n : 0 < q < 2 ^ 64 → object q n ∗ heap_block q n ⊢ loose q.
Proof. intros Hq. iIntros "[(%bs & %Hn & H1) H2]". iApply (loose_block q bs Hq). unfold is_block. rw Hn. iFrame. Qed.
Lemma wp_free_loose q (i : pb_istream Y) c : loose q ⊢ wp (pb_free q) i c (returns emp i c).
Proof.
  iIntros "[%old H]". unfold old_block. destruct (Z.eqb_spec q 0) as [->|Hq].
  - iDestruct "H" as "[%He H]". iClear "H". iApply wp_free_null. by iApply returns_intro.
  - iDestruct "H" as "[%H0 H]". iApply (wp_free_block with "H"). lia.
Qed.
Lemma single_owns_loose sub f q : PB_LTYPE (type f) ≠ PB_LTYPE_SUBMESSAGE → single_owns sub f q ⊢ loose q.
Proof.
  intros Ht. unfold single_owns. destruct (Z.eqb_spec q 0) as [->|Hq]; [iIntros "_"; iApply loose_null|].
  iIntros "(%bs & %H1 & %H2 & Hb & Hs)". rw owns_scalar; [|done]. iClear "Hs". by iApply loose_block.
Qed.
Lemma array_owns_loose sub f q n : PB_LTYPE (type f) ≠ PB_LTYPE_SUBMESSAGE → is_string_or_bytes f = false → array_owns sub f q n ⊢ loose q.
Proof.
  intros Ht Hf. unfold array_owns. destruct (Z.eqb_spec q 0) as [->|Hq]; [iIntros "[%Hn H]"; iClear "H"; iApply loose_null|].
  iIntros "(%bs & %H1 & %H2 & Hb & Hs)". rw big_sepL_emp'; [|intros j x _; rw /item_owns Hf owns_scalar //]. iClear "Hs". by iApply loose_block.
Qed.
Lemma wp_free_strings sub f q n (i : pb_istream Y) c : is_string_or_bytes f = true → data_size f = sizeof_ptr →
  array_owns sub f q n ⊢ wp (free_items (Z.to_nat n) q) i c (returns (loose q) i c).
Proof.
  intros Hf Hd. unfold array_owns. destruct (Z.eqb_spec q 0) as [->|Hq].
  - iIntros "[%Hn H]". subst n. iClear "H". iApply wp_ret. iApply returns_intro. iApply loose_null.
  - iIntros "(%bs & %H1 & %H2 & [H Hb] & Hs)". destruct H2 as (H2 & H3 & H4). replace n with (Z.of_nat (Z.to_nat n)) at 1 by lia.
    iApply (wp_returns with "[H Hs]"); [iApply (wp_free_items f sub); [done|done| |iFrame]; lia|].
    iIntros "H". iApply returns_intro. iApply loose_object; [done|iFrame].
Qed.

Section Field.
Context (id p : Z) (j : nat) (sl : slot) (k : nat).
Hypothesis Hj : slots (fields_of id) !! j = Some sl.
Hypothesis Hp : 0 < p.
Abbreviation it := (at_slot (fields_of id) p j sl).
Abbreviation f := (sl_field sl).

Definition released (img img' : bytes) : Prop := differs_at sl img img' ∧ (htype sl = PB_HTYPE_ONEOF → count_of sl img' = count_of sl img) ∧
  (⊢ field_owns (owns k) sl img') ∧ (atype sl = PB_ATYPE_POINTER → active sl img = true → pointer_of sl img' = 0) ∧ (active sl img = false → img' = img).
Definition released_at (img : bytes) : heapPropI := (∃ img' (_ : released img img'), p ↦∗ img')%I.
Lemma released_intro img img' : released img img' → p ↦∗ img' ⊢ released_at img.
Proof. intros Hr. iIntros "H". by iExists img', Hr. Qed.
Lemma active_count img img' : (htype sl = PB_HTYPE_ONEOF → count_of sl img' = count_of sl img) → active sl img' = active sl img.
Proof. unfold active. case_decide as Hh; [|done]. intros Hc. by rw Hc. Qed.

(** The last steps for a pointer field. *)
Lemma wp_drop_pointer img (i : pb_istream Y) c : zlen img = struct_size id → atype sl = PB_ATYPE_POINTER → active sl img = true →
  p ↦∗ img ∗ loose (pointer_of sl img) ⊢
  wp (_ ← (if bool_decide (htype sl = PB_HTYPE_REPEATED) then store_size (pSize it) 0 else mret tt);
      q ← load_pointer (pData it); _ ← pb_free q; store_pointer (pData it) 0) i c (returns (released_at img) i c).
Proof using Hj fit.
  intros Hl Ha Hact. iIntros "[H Hq]".
  iAssert (∃ img1 (_ : differs_at sl img img1) (_ : htype sl = PB_HTYPE_ONEOF → count_of sl img1 = count_of sl img)
    (_ : pointer_of sl img1 = pointer_of sl img) (_ : htype sl = PB_HTYPE_REPEATED → count_of sl img1 = 0),
    wp (if bool_decide (htype sl = PB_HTYPE_REPEATED) then store_size (pSize it) 0 else mret tt) i c (returns (p ↦∗ img1) i c))%I with "[H]" as "H".
  { case_bool_decide as Hh; cbn [pSize at_slot].
    - assert (count_bytes sl = 4) as Hc by (by apply count_bytes_pointer_array).
      iExists (put (sl_size sl) (le_bytes 4 0) img). iExists (differs_count id j sl Hj img 0 Hl Hc).
      assert (htype sl = PB_HTYPE_ONEOF → count_of sl (put (sl_size sl) (le_bytes 4 0) img) = count_of sl img) as H1 by (by rw Hh). iExists H1.
      iExists (pointer_of_count id j sl Hj 0 img Hl Ha Hc). iExists (λ _, count_of_put id j sl Hj img 0 Hl Hc ltac:(lia)).
      iApply (wp_store_count with "H"); [done|done|done|]. iApply returns_intro.
    - iExists img, (differs_refl sl img), (λ _, eq_refl), eq_refl, (λ H, False_ind _ (Hh H)). iApply wp_ret. by iApply returns_intro. }
  iDestruct "H" as "(%img1 & %Hd1 & %Hc1 & %Hp1 & %Hz1 & H)". assert (zlen img1 = struct_size id) as Hl1 by (destruct Hd1; congruence).
  iApply (wp_seq with "H"). iIntros "H". iApply wp_bind. iApply (wp_load_ptr with "H"); [done|done|done|]. iIntros "H". rw Hp1.
  iApply (wp_seq with "[Hq]"); [by iApply wp_free_loose|]. iIntros "_". iApply (wp_store_ptr with "H"); [done|done|done|]. iIntros "H".
  iApply returns_intro. iApply (released_intro with "H"). set (img2 := put _ _ _).
  assert (pointer_of sl img2 = 0) as Hz by (eapply pointer_of_put; done || lia).
  assert (count_bytes sl = 4 → count_of sl img2 = count_of sl img1) as Hc2.
  { intros Hc. apply (count_of_data id j); [done|done|done|]. rw zlen_le_bytes data_bytes_pointer; [|done]. by split. }
  assert (htype sl = PB_HTYPE_ONEOF → count_of sl img2 = count_of sl img) as Hc3.
  { intros Hh. rw Hc2; [by apply Hc1|by apply count_bytes_oneof]. }
  split_and!; [eapply differs_trans; [done|by apply (differs_pointer id j)]|done| |done|by rw Hact].
  unfold field_owns. destruct (active sl img2); [|rw nothing_intro //; unfold unset; by rw Ha Hz]. rw Ha Hz. destruct (htype sl) eqn:Hh; try done.
  rw Hc2; [|by apply count_bytes_pointer_array]. rw Hz1; [|done]. unfold array_owns. cbn. by iExists eq_refl.
Qed.

Hypothesis Hk : (nesting id ≤ k)%nat.
Context (release : pb_fields → Z → M unit).
Hypothesis Hrel : release_spec release k.

Lemma wp_submessage_count (i : pb_istream Y) img c Φ : zlen img = struct_size id → atype sl = PB_ATYPE_POINTER →
  p ↦∗ img -∗ (p ↦∗ img -∗ Φ (Some (if decide (htype sl = PB_HTYPE_REPEATED) then count_of sl img else 1)) i c) -∗ wp (submessage_count it) i c Φ.
Proof using Hj fit.
  intros Hl Ha. iIntros "H HΦ". unfold submessage_count. rw (field_at_slot id p j sl Hj). case_decide as Hh; [|iApply wp_ret; by iApply "HΦ"].
  rw (bool_decide_false (PB_ATYPE (type f) = PB_ATYPE_STATIC)); [|by rw Ha]. cbn [andb pSize at_slot]. iApply wp_bind.
  iApply (wp_load_count with "H"); [done|done|by apply count_bytes_pointer_array|]. iIntros "H". iApply wp_ret. by iApply "HΦ".
Qed.
(** The submessages behind a pointer. *)
Lemma items_one g bs : zlen bs = data_size g → items g 1 bs = [bs].
Proof. intros Hl. unfold items. change (Z.to_nat 1) with 1%nat. cbn [seq fmap list_fmap]. rw Z.mul_0_l -Hl slice_all. done. Qed.
Lemma owned_items g q : PB_LTYPE (type g) = PB_LTYPE_SUBMESSAGE → q ≠ 0 → single_owns (owns k) g q ⊢
  ∃ bs (_ : 0 < q < 2 ^ 64) (_ : 0 ≤ 1 ∧ 1 * data_size g ≤ zlen bs), is_block q bs ∗ [∗ list] x ∈ items g 1 bs, sub_owns (owns k) g x.
Proof.
  intros Ht Hq. unfold single_owns. rw (proj2 (Z.eqb_neq q 0)); [|done]. iIntros "(%bs & %H1 & %H2 & Hb & Hs)".
  assert (zlen bs = data_size g) as Hl. { apply H2. apply bool_decide_eq_false. rw Ht. by intros [|]. }
  assert (0 ≤ 1 ∧ 1 * data_size g ≤ zlen bs) as Hl2 by lia. iExists bs, H1, Hl2. rw items_one; [|done]. cbn [big_opL]. by iFrame.
Qed.
Lemma wp_release_behind g q n sub i c : PB_LTYPE (type g) = PB_LTYPE_SUBMESSAGE → ptr g = Submsg sub → data_size g = struct_size sub →
  (∃ bs (_ : 0 < q < 2 ^ 64) (_ : 0 ≤ n ∧ n * data_size g ≤ zlen bs), is_block q bs ∗ [∗ list] x ∈ items g n bs, sub_owns (owns k) g x) ⊢
  wp (release_items release (fields_of sub) (data_size g) (Z.to_nat n) q) i c (returns (loose q) i c).
Proof using Hk Hrel fit.
  intros Ht Hptr Hs. iIntros "(%bs & %H1 & %H2 & [H Hb] & Hi)". replace n with (Z.of_nat (Z.to_nat n)) at 1 by lia.
  iApply (wp_returns with "[H Hi]"); [iApply (wp_release_items _ k g sub Hrel Ht Hptr Hs (Z.to_nat n) q bs); [lia|rw Z2Nat.id; lia|iFrame]|].
  iIntros "H". iApply returns_intro. iApply loose_object; [done|iFrame].
Qed.
Lemma wp_release_submessages img i c : zlen img = struct_size id → atype sl = PB_ATYPE_POINTER → ltype_of sl = PB_LTYPE_SUBMESSAGE → active sl img = true →
  p ↦∗ img ∗ field_owns (owns k) sl img ⊢ wp (release_submessages release it) i c (returns (p ↦∗ img ∗ loose (pointer_of sl img)) i c).
Proof using Hj Hk Hrel fit.
  intros Hl Ha Ht Hact. pose proof (ok_value id sl (slot_fits id j sl Hj)) as Hv. unfold value_fits in Hv. rw Ht in Hv.
  destruct (ptr f) as [|sub|] eqn:Hptr; [done| |done]. iIntros "[H Ho]". unfold release_submessages. rw (field_at_slot id p j sl Hj).
  rw (decide_True (P := PB_ATYPE (type f) = PB_ATYPE_POINTER)); [|done]. cbn [pData at_slot].
  iApply wp_bind. iApply (wp_load_ptr with "H"); [done|done|done|]. iIntros "H". iApply wp_bind.
  iApply (wp_submessage_count with "H"); [done|done|]. iIntros "H". set (q := pointer_of sl img). destruct (Z.eqb_spec q 0) as [Hq|Hq].
  { iApply wp_ret. iApply returns_intro. iFrame "H". rw Hq. unfold field_owns. rw Hact Ha. fold q. rw Hq.
    destruct (htype sl); iClear "Ho"; iApply loose_null. }
  rw Hptr. iApply (wp_returns with "[Ho]"); [|iIntros "Hq"; iApply returns_intro; iFrame "H"; iExact "Hq"].
  iApply (wp_release_behind f q _ sub); [done|done|done|].
  unfold field_owns. rw Hact Ha. fold q. case_decide as Hh.
  - rw Hh. unfold array_owns. rw (proj2 (Z.eqb_neq q 0)); [|done]. iDestruct "Ho" as "(%bs & %H1 & %H2 & Hb & Hi)".
    destruct H2 as (H2 & H3 & _). iExists bs, H1, (conj (proj1 H2) H3). iFrame. iApply (big_sepL_mono with "Hi"). intros x y _. unfold item_owns, is_string_or_bytes.
    rw bool_decide_false; [done|]. rw Ht. by intros [|].
  - destruct (htype sl); try done; by iApply owned_items.
Qed.

(** The submessages within the structure. *)
Lemma array_object img : zlen img = struct_size id → atype sl = PB_ATYPE_STATIC → htype sl = PB_HTYPE_REPEATED →
  p ↦∗ img ⊢ (p + sl_data sl) ↦∗ slice (sl_data sl) (data_bytes sl) img ∗
    ∀ bs (_ : zlen bs = data_bytes sl), (p + sl_data sl) ↦∗ bs -∗ ∃ img' (_ : data_changed sl img img'), p ↦∗ img'.
Proof using Hj Hk fit.
  intros Hl Ha Hh. pose proof (data_bytes_nonneg id j sl Hj) as Hn. destruct (ok_data id sl (slot_fits id j sl Hj)) as [H1 H2].
  rw {1}(points_to_slice p (sl_data sl) (data_bytes sl)); [|done|lia|lia]. iIntros "[H Hc]". iFrame. iIntros (bs Hbs) "H".
  assert (data_changed sl img (put (sl_data sl) bs img)) as Hch by (apply (data_changed_put id j); [done|done|by rw Hbs]).
  iExists (put (sl_data sl) bs img), Hch. iApply ("Hc" $! bs Hbs with "H").
Qed.
Lemma unchanged_released img : (⊢ field_owns (owns k) sl img) → atype sl = PB_ATYPE_STATIC ∨ active sl img = false → released img img.
Proof. intros Ho Ha. split_and!; [apply differs_refl|done|done| |done]. intros Hp1 Hp2. destruct Ha; congruence. Qed.
Lemma changed_released img img' : atype sl = PB_ATYPE_STATIC → active sl img = true → data_changed sl img img' → (⊢ field_owns (owns k) sl img') → released img img'.
Proof using Hj fit.
  intros Ha Hact [Hd Hc] Ho. split_and!; [done| |done|by rw Ha|by rw Hact]. intros Hh. apply Hc. by apply count_bytes_oneof.
Qed.
Lemma wp_static_count (i : pb_istream Y) img c Φ : zlen img = struct_size id → atype sl = PB_ATYPE_STATIC → htype sl = PB_HTYPE_REPEATED →
  p ↦∗ img -∗ (∀ n (_ : n ≤ array_size f), p ↦∗ img -∗ Φ (Some n) i c) -∗ wp (submessage_count it) i c Φ.
Proof using Hj Hk fit.
  intros Hl Ha Hh. iIntros "H HΦ". unfold submessage_count. rw (field_at_slot id p j sl Hj) decide_True // bool_decide_true //.
  cbn [andb]. set (clip := λ n, if array_size f <? n then array_size f else n).
  assert (∀ n, clip n ≤ array_size f) as Hclip by (intros n; subst clip; cbn; destruct (Z.ltb_spec (array_size f) n); lia).
  iApply wp_bind. unfold size_is_data. cbn [pSize pData at_slot]. case_bool_decide as Hd.
  - iApply wp_ret. iApply wp_ret. iApply ("HΦ" $! _ (Hclip _) with "H").
  - assert (sl_size sl ≠ sl_data sl) as Hne by (intros He; apply Hd; by rw He).
    iApply (wp_load_count with "H"); [done|done| |].
    { unfold count_bytes. rw Hh Ha decide_False //. by intros [_ ?]. }
    iIntros "H". iApply wp_ret. iApply ("HΦ" $! _ (Hclip _) with "H").
Qed.
Lemma wp_release_static img i c : zlen img = struct_size id → atype sl = PB_ATYPE_STATIC → ltype_of sl = PB_LTYPE_SUBMESSAGE → active sl img = true →
  p ↦∗ img ∗ field_owns (owns k) sl img ⊢ wp (release_submessages release it) i c (returns (released_at img) i c).
Proof using Hj Hk Hp Hrel fit.
  intros Hl Ha Ht Hact. pose proof (slot_fits id j sl Hj) as Hok. pose proof (ok_value id sl Hok) as Hv. unfold value_fits in Hv. rw Ht in Hv.
  destruct (ptr f) as [|sub|] eqn:Hptr; [done| |done]. destruct (ok_data id sl Hok) as [Hd1 Hd2].
  pose proof (ok_inner id sl Hok Ha) as Hin. unfold inner_fits in Hin. rw Ht Hptr in Hin. destruct Hin as [Hin Hfree].
  unfold release_submessages. rw (field_at_slot id p j sl Hj) decide_False; [|by rw Ha]. cbn [pData at_slot].
  iIntros "[H Ho]". iApply wp_bind. iApply wp_ret. iApply wp_bind. destruct (decide (htype sl = PB_HTYPE_REPEATED)) as [Hh|Hh].
  - iApply (wp_static_count with "H"); [done|done|done|]. iIntros (n Hn) "H". rw (proj2 (Z.eqb_neq (p + sl_data sl) 0)) ?Hptr; [|lia].
    assert (field_owns (owns k) sl img = emp%I) as -> by (unfold field_owns; by rw Hact Ha Hh). iClear "Ho".
    rw {1}(array_object img Hl Ha Hh). iDestruct "H" as "[H Hc]". pose proof (data_bytes_nonneg id j sl Hj) as Hdb.
    assert (zlen (slice (sl_data sl) (data_bytes sl) img) = data_bytes sl) as Hsl by (apply zlen_slice; lia).
    iApply (wp_returns with "[H]").
    { iApply (wp_release_items _ k f sub Hrel Ht Hptr Hv (Z.to_nat n) _ (slice (sl_data sl) (data_bytes sl) img)); [lia| |].
      - rw Hsl data_bytes_array; [|done|done]. destruct (ok_array_size id sl Hok). pose proof (value_size f (ok_value id sl Hok)). nia.
      - iFrame. iApply big_sepL_valid. intros x y _. unfold sub_owns. rw Ht Hptr pointer_free_owns; [done|by apply Hfree|lia]. }
    rw Hsl. iIntros "(%bs & %Hbs & H)". iDestruct ("Hc" $! bs Hbs with "H") as "(%img' & %Hch & H)". iApply returns_intro.
    iApply (released_intro with "H"). apply changed_released; [done|done|done|]. rw (array_owns_static sl); done.
  - unfold submessage_count. rw (field_at_slot id p j sl Hj) decide_False //. iApply wp_ret. rw (proj2 (Z.eqb_neq (p + sl_data sl) 0)) ?Hptr; [|lia].
    rw {1}(static_object id p j sl Hj img Hl Ha Hh). iDestruct "H" as "[H Hc]". change (Z.to_nat 1) with 1%nat. cbn [release_items].
    assert (field_owns (owns k) sl img = owns k sub (slice (sl_data sl) (data_size f) img)) as ->.
    { unfold field_owns, sub_owns. rw Hact Ha Ht Hptr. by destruct (htype sl). }
    rw data_bytes_single // in Hd2. assert (zlen (slice (sl_data sl) (data_size f) img) = struct_size sub) as Hsl by (pose proof (fits_size sub (fit sub)); rw zlen_slice; lia).
    iApply (wp_seq with "[H Ho]"); [iApply (Hrel sub (p + sl_data sl) _ i c ltac:(lia) Hsl); iFrame|]. iIntros "(%bs & %Hbs & %Hown & H)". rw -Hv in Hbs.
    iDestruct ("Hc" $! bs Hbs with "H") as "(%img' & %Hch & %Hs & H)". iApply wp_ret. iApply returns_intro.
    iApply (released_intro with "H"). apply changed_released; [done|done|done|]. unfold field_owns, sub_owns. destruct (active sl img'); [|rw nothing_intro //; unfold unset; by rw Ha]. rw Ha Ht Hptr Hs.
    destruct (htype sl); done.
Qed.

Lemma wp_release_pointer img (i : pb_istream Y) c : zlen img = struct_size id → atype sl = PB_ATYPE_POINTER → active sl img = true →
  p ↦∗ img ∗ (if decide (ltype_of sl = PB_LTYPE_SUBMESSAGE) then loose (pointer_of sl img) else field_owns (owns k) sl img) ⊢
  wp (release_pointer it) i c (returns (released_at img) i c).
Proof using Hj fit.
  intros Hl Ha Hact. iIntros "[H Ho]". unfold release_pointer. rw (field_at_slot id p j sl Hj).
  iAssert (wp (if bool_decide (htype sl = PB_HTYPE_REPEATED) && is_string_or_bytes f then
      pItem ← load_pointer (pData it); count ← load_size (pSize it); free_items (Z.to_nat count) pItem else mret tt) i c
    (returns (p ↦∗ img ∗ loose (pointer_of sl img)) i c))%I with "[H Ho]" as "H".
  { case_decide as Ht.
    { assert (is_string_or_bytes f = false) as -> by (apply bool_decide_eq_false; rw Ht; by intros [|]). rw andb_false_r. iApply wp_ret. iApply returns_intro. iFrame. }
    destruct (bool_decide (htype sl = PB_HTYPE_REPEATED)) eqn:Hh; cbn [andb].
    - apply bool_decide_eq_true in Hh. unfold field_owns. rw Hact Ha Hh. destruct (is_string_or_bytes f) eqn:Hf.
      + iApply wp_bind. iApply (wp_load_ptr with "H"); [done|done|done|]. iIntros "H". iApply wp_bind.
        iApply (wp_load_count with "H"); [done|done|by apply count_bytes_pointer_array|]. iIntros "H".
        iApply (wp_returns with "[Ho]"); [iApply (wp_free_strings with "Ho"); [done|]|].
        * apply (ok_strings id sl (slot_fits id j sl Hj)); [done|done|]. apply bool_decide_eq_true in Hf. tauto.
        * iIntros "Ho". iApply returns_intro. iFrame.
      + iApply wp_ret. iApply returns_intro. iFrame "H". by iApply array_owns_loose.
    - apply bool_decide_eq_false in Hh. iApply wp_ret. iApply returns_intro. iFrame "H". unfold field_owns. rw Hact Ha.
      destruct (htype sl); try done; by iApply single_owns_loose. }
  iApply (wp_seq with "H"). iIntros "H". by iApply wp_drop_pointer.
Qed.
Lemma wp_release_field rext chain img i c : zlen img = struct_size id →
  p ↦∗ img ∗ field_owns (owns k) sl img ⊢ wp (release_field rext release chain it) i c (returns (released_at img) i c).
Proof using Hj Hk Hp Hrel fit.
  intros Hl. pose proof (slot_fits id j sl Hj) as Hok. pose proof (ok_value id sl Hok) as Hv. iIntros "[H Ho]". unfold release_field. rw (field_at_slot id p j sl Hj).
  iApply wp_bind. cbn [pSize at_slot].
  iAssert (wp (if decide (htype sl = PB_HTYPE_ONEOF) then which ← load_size (In_message (p + sl_size sl)); mret (which =? tag f) else mret true) i c
    (λ r i' c', ∃ (_ : r = Some (active sl img) ∧ i' = i ∧ c' = c), p ↦∗ img))%I with "[H]" as "H".
  { unfold active. case_decide as Hh.
    - iApply wp_bind. iApply (wp_load_count with "H"); [done|done|by apply count_bytes_oneof|]. iIntros "H". iApply wp_ret. by iExists (conj eq_refl (conj eq_refl eq_refl)).
    - iApply wp_ret. by iExists (conj eq_refl (conj eq_refl eq_refl)). }
  iApply (wp_wand with "H"). iIntros (r i' c') "[%Hr H]". destruct Hr as (-> & -> & ->). destruct (active sl img) eqn:Hact; cbn [negb].
  - rw (decide_False (P := ltype_of sl = PB_LTYPE_EXTENSION)); [|unfold value_fits in Hv; intros He; by rw He in Hv].
    destruct (ok_atype id sl Hok) as [Ha|Ha]; rw Ha.
    + destruct (decide (ltype_of sl = PB_LTYPE_SUBMESSAGE)) as [Ht|Ht].
      * rw (decide_True (P := ltype_of sl = PB_LTYPE_SUBMESSAGE ∧ _)) //. iApply (wp_seq with "[H Ho]"); [iApply wp_release_static; [done..|iFrame]|]. iIntros "H". iApply wp_ret. by iApply returns_intro.
      * rw (decide_False (P := _ ∧ _)); [|tauto].
        assert (field_owns (owns k) sl img = emp%I) as He. { unfold field_owns. rw Hact Ha. destruct (htype sl); try done; by apply owns_scalar. }
        rw He. iClear "Ho". iApply wp_bind. iApply wp_ret. iApply wp_ret. iApply returns_intro. iApply (released_intro with "H"). apply unchanged_released; [by rw He|by left].
    + iApply (wp_seq _ _ (p ↦∗ img ∗ if decide (ltype_of sl = PB_LTYPE_SUBMESSAGE) then loose (pointer_of sl img) else field_owns (owns k) sl img)%I with "[H Ho]").
      * destruct (decide (ltype_of sl = PB_LTYPE_SUBMESSAGE)) as [Ht|Ht].
        -- rw (decide_True (P := ltype_of sl = PB_LTYPE_SUBMESSAGE ∧ _)) //. iApply wp_release_submessages; [done..|iFrame].
        -- rw (decide_False (P := ltype_of sl = PB_LTYPE_SUBMESSAGE ∧ _)); [|tauto]. iApply wp_ret. iApply returns_intro. iFrame.
      * iIntros "H". by iApply wp_release_pointer.
  - rw field_owns_inactive //. iDestruct "Ho" as "[%Hu Ho]". iClear "Ho". iApply wp_ret. iApply returns_intro. iApply (released_intro with "H").
    apply unchanged_released; [rw field_owns_inactive // nothing_intro //|by right].
Qed.
End Field.


(** ** Whole messages *)

Lemma released_other id k j m a b img img' : slots (fields_of id) !! j = Some a → slots (fields_of id) !! m = Some b → j ≠ m →
  released a k img img' → field_owns (owns k) b img' ⊣⊢ field_owns (owns k) b img.
Proof using fit.
  intros Hj Hm Hjm (Hd & Hc & _ & _ & He). destruct (active a img) eqn:Ha; [|by rw He].
  destruct (fits_apart id (fit id) j m a b Hj Hm Hjm) as [Hap|(H1 & H2 & H3 & H4 & _)].
  - rw (field_owns_differs id _ m a b img img') //. by apply slots_apart_sym.
  - specialize (Hc H1). assert (count_of b img' = count_of b img) as Hc2 by (unfold count_of in *; by rw -H3).
    assert (count_of b img = tag (sl_field a)) as Hb. { unfold active in Ha. rw decide_True // in Ha. apply Z.eqb_eq in Ha. unfold count_of in *. by rw -H3. }
    assert (tag (sl_field a) ≠ 0) as Ht by (pose proof (ok_tag id a (slot_fits id j a Hj)); lia).
    rw !field_owns_inactive; [|unfold active; rw decide_True // ?Hc2 Hb; by apply Z.eqb_neq..]. rw !nothing_intro //; apply unset_nonzero; congruence.
Qed.
Lemma wp_visit_release (g : pb_field_iter → M unit) id p k i c :
  (∀ j sl img, slots (fields_of id) !! j = Some sl → zlen img = struct_size id →
    p ↦∗ img ∗ field_owns (owns k) sl img ⊢ wp (g (at_slot (fields_of id) p j sl)) i c (returns (released_at p sl k img) i c)) →
  ∀ l j img, l = drop j (slots (fields_of id)) → zlen img = struct_size id →
    (∀ m sl, (m < j)%nat → slots (fields_of id) !! m = Some sl → ⊢ field_owns (owns k) sl img) →
    p ↦∗ img ∗ ([∗ list] sl ∈ l, field_owns (owns k) sl img) ⊢
    wp (visit g (fields_of id) p j l) i c (returns (structure id p (λ img', ⊢ all_owns id (owns k) img')) i c).
Proof using fit.
  intros Hg. induction l as [|sl l IH]; intros j img Hdrop Hl Hdone; cbn [visit big_opL].
  - iIntros "[H _]". iApply wp_ret. iApply returns_intro. assert (⊢ all_owns id (owns k) img) as Hi.
    { apply big_sepL_valid. intros m sl Hm. apply (Hdone m sl); [|done]. apply lookup_lt_Some in Hm. symmetry in Hdrop. apply drop_nil_inv in Hdrop; lia. }
    by iExists img, Hl, Hi.
  - assert (slots (fields_of id) !! j = Some sl) as Hj by (rw -(Nat.add_0_r j) -lookup_drop -Hdrop; done).
    assert (l = drop (S j) (slots (fields_of id))) as Hl2 by (replace (S j) with (j + 1)%nat by lia; by rw -drop_drop -Hdrop).
    iIntros "(H & Ho & Hos)". iApply (wp_seq with "[H Ho]"); [iApply (Hg j sl img Hj Hl); iFrame|].
    iIntros "(%img' & %Hr & H)". iApply (IH (S j) img'); [done| | |].
    + destruct Hr as [[Hlen _] _]. congruence.
    + intros m b Hm Hb. destruct (decide (m = j)) as [->|Hne]; [simplify_eq; apply Hr|].
      rw (released_other id k j m sl b img img' Hj Hb ltac:(done) Hr). apply (Hdone m b); [lia|done].
    + iFrame "H". iApply (big_sepL_mono with "Hos"). intros m b Hm. cbn. rw (released_other id k j (S j + m) sl b img img'); [done|done| |lia|done].
      by rw -lookup_drop -Hl2.
Qed.
Lemma wp_pb_release stack : ∀ k, (2 * k ≤ stack)%nat → release_spec (pb_release (Y := Y) stack) k.
Proof using fit.
  induction stack as [stack IH] using lt_wf_ind. intros k Hk id p img i c Hp Hl. iIntros "[H Ho]". iDestruct (owns_inv with "Ho") as "(%k' & %He & %Hn & Ho)". subst k.
  destruct stack as [|stack]; [lia|]. cbn [pb_release]. rw (proj2 (Z.eqb_neq p 0)); [|lia]. rw (iter_begin_exact (fields_of id) p); [|apply (table_is_ok id)|lia].
  destruct (slots (fields_of id)) as [|sl l] eqn:Hs.
  - iClear "Ho". iApply wp_ret. iApply returns_intro. assert (⊢ owns (S k') id img) as Hi by (apply owns_valid; [done|]; by rw Hs).
    by iExists img, Hl, Hi.
  - iApply wp_ext; [intros s; apply (for_fields_exact (fields_of id) p (table_is_ok id) ltac:(lia) _ sl l s Hs)|]. rw -Hs.
    iApply (wp_returns with "[H Ho]").
    { iApply (wp_visit_release _ id p k'); [|done|done|intros; lia|iFrame].
      intros j sl' img' Hj Hl'. destruct stack as [|stack]; [lia|]. cbn [pb_release_single_field].
      apply (wp_release_field id p j sl' k'); [done|done|done| |done]. apply (IH stack); lia. }
    iIntros "(%img' & %Hl' & %Ho & H)". iApply returns_intro. assert (⊢ owns (S k') id img') as Hi by (by apply owns_valid).
    by iExists img', Hl', Hi.
Qed.
End Release.
