(* ===== verification/PbFields.v ===== *)
(** * Decoding fields is memory safe: static fields

    [decode_static_field] writes to the data and the count of its field only, for any input.  What
    the message owns afterwards is what its fields own.

    A message that is decoded from [n] bytes has at most [n] more items in an array than before: the
    assertions say how many there may be at every step, and [limit] is the most there may ever be. *)
From iris.proofmode Require Import proofmode.
From stdpp Require Import gmap.
From S2P Require Export PbRelease.

Section Fields.
Context {Y : Type} {source : Source Y} {source_safe : SourceSafe Y} {tables : Tables} {layout : Layout} {fit : TablesFit} {extensions : Extensions}.
Context {callbacks : Callbacks} {alloc : Allocator} {alloc_ok : AllocatorOk}.
Abbreviation M := (run (machine Y)).
(** The offsets of as many items fit in the 32 bits in which they are computed. *)
Class Limit := limit : Z.
Class ArraysFit {the_limit : Limit} := arrays_fit id j sl : slots (fields_of id) !! j = Some sl → atype sl = PB_ATYPE_POINTER → htype sl = PB_HTYPE_REPEATED →
  limit * data_size (sl_field sl) < 2 ^ 32.
Context {the_limit : Limit} {arrays : ArraysFit}.
Definition message_post (m : Z) (k : nat) (id p : Z) (i : pb_istream Y) (c : Z) : option unit → pb_istream Y → Z → heapPropI :=
  λ r i' c', (∃ (_ : stream_ok i' ∧ bytes_left i' ≤ bytes_left i) (_ : c' = c) img (_ : zlen img = struct_size id), p ↦∗ img ∗ owns (most_items := m) k id img)%I.
Definition noinit_spec (d : pb_fields → Z → M unit) (k : nat) (budget : Z) : Prop := ∀ m id p img i c, 0 < p → zlen img = struct_size id → stream_ok i → bytes_left i ≤ budget →
  0 ≤ m → m + bytes_left i ≤ limit → p ↦∗ img ∗ owns (most_items := m) k id img ⊢ wp (d (fields_of id) p) i c (message_post (m + bytes_left i) k id p i c).
Definition decodes_inited (d : pb_fields → Z → M unit) (k : nat) (budget : Z) : Prop := ∀ id p img i c, 0 < p → zlen img = struct_size id → stream_ok i → bytes_left i ≤ budget →
  bytes_left i ≤ limit → p ↦∗ img ⊢ wp (d (fields_of id) p) i c (message_post (bytes_left i) k id p i c).
(** What the decoders of fields rely on: submessages are decoded from at most [budget] bytes into
    messages of depth [k], and the C stack is deep enough to initialise and to release those. *)
Class DecodersOk (stack : nat) (decode decode_noinit : pb_fields → Z → M unit) (k : nat) (budget : Z) : Prop := {
  Hnoinit : noinit_spec decode_noinit k budget;
  Hdecode : decodes_inited decode k budget;
  Hstack : (2 * k < stack)%nat;
  Hk : ∀ id, (nesting id < k)%nat }.
Context {stack : nat} {decode decode_noinit : pb_fields → Z → M unit} {k : nat} {budget : Z} {decoders : DecodersOk stack decode decode_noinit k budget}.
(** What there is before the field, and the stream after its tag. *)
Class MostOk {most_items : Most} := most_nonneg : 0 ≤ most.
Context {most_items : Most} {most_ok : MostOk}.
Definition in_budget (i : pb_istream Y) : Prop := bytes_left i ≤ budget + 1 ∧ most + 1 + bytes_left i ≤ limit.
Lemma in_budget_le i i' : in_budget i → bytes_left i' ≤ bytes_left i → in_budget i'.
Proof. unfold in_budget. lia. Qed.
Definition later (i i' : pb_istream Y) : Most := most + (bytes_left i - bytes_left i').
Lemma most_later i i' b : took i i' b → most_items ≤ later i i'.
Proof. intros (_ & H & _). unfold later, most. lia. Qed.
(** The field itself may add an item for its tag. *)
Definition after (i i' : pb_istream Y) : Most := later i i' + 1.
Lemma most_after i i' b : took i i' b → most_items ≤ after i i'.
Proof. intros H. pose proof (most_later i i' b H). unfold after. lia. Qed.
Lemma sub_owns_more (m m' : Z) f bs : m ≤ m' → sub_owns (owns (most_items := m) k) f bs ⊢ sub_owns (owns (most_items := m') k) f bs.
Proof. intros Hm. apply sub_owns_mono. intros. by apply owns_more. Qed.
Lemma field_owns_more (m m' : Z) sl img : m ≤ m' → field_owns (most_items := m) (owns (most_items := m) k) sl img ⊢ field_owns (most_items := m') (owns (most_items := m') k) sl img.
Proof. intros Hm. apply field_owns_mono; [done|]. intros. by apply owns_more. Qed.

(** ** Submessages *)

Lemma wp_make_substream {A} (g : pb_istream Y → M A) i c Φ : stream_ok i →
  (∀ i' (_ : took i i' false), Φ None i' c) ∧
  (∀ sub i' (_ : stream_ok sub) (_ : bytes_left sub + bytes_left i' ≤ bytes_left i - 1) (_ : stream_ok i'), wp (g sub) i' c Φ) ⊢
  wp (on_input pb_make_string_substream ≫= g) i c Φ.
Proof.
  intros Hi. rw -wp_bind -wp_input. destruct (make_substream_safe i Hi) as (H1 & H2 & H3). destruct (pb_make_string_substream i) as [[sub|] i']; cbn [fst snd] in *.
  - destruct (H3 sub eq_refl) as (H4 & H5 & _). rw bi.and_elim_r. iIntros "H". iApply ("H" $! sub i' H4 H5 H1).
  - rw bi.and_elim_l. iIntros "H". iApply ("H" $! i' (took_none _ _ H1 H2)).
Qed.
Lemma wp_close_substream {A} sub (g : () → M A) i c Φ : stream_ok sub → stream_ok i →
  (∀ i' (_ : stream_ok i') (_ : bytes_left i' = bytes_left i), Φ None i' c ∧ wp (g ()) i' c Φ) ⊢
  wp (on_input (pb_close_string_substream sub) ≫= g) i c Φ.
Proof.
  intros Hs Hi. rw -wp_bind -wp_input. destruct (close_substream_safe sub i Hs Hi) as [H1 H2]. iIntros "H". iSpecialize ("H" $! _ H1 H2).
  destruct (pb_close_string_substream sub i) as [[[]|] i']; cbn [fst snd]; [by rw bi.and_elim_r|by rw bi.and_elim_l].
Qed.
(** What a decoder of a value needs to know of the object it overwrites. *)
Definition sub_needs (f : pb_field) (bs : bytes) : heapPropI :=
  if decide (PB_HTYPE (type f) = PB_HTYPE_REPEATED) then (∃ _ : ⊢ sub_owns (owns k) f bs, emp)%I else sub_owns (owns k) f bs.
Lemma sub_needs_owns f bs : sub_needs f bs ⊢ sub_owns (owns k) f bs.
Proof. unfold sub_needs. case_decide; [|done]. iIntros "[%Ho H]". iClear "H". iApply Ho. Qed.
Lemma sub_needs_scalar f bs : PB_LTYPE (type f) ≠ PB_LTYPE_SUBMESSAGE → sub_needs f bs ⊣⊢ emp.
Proof. intros Ht. unfold sub_needs. rw owns_scalar //. case_decide; [by rw nothing_intro|done]. Qed.
Definition value_at (m : Z) (f : pb_field) (dest : Z) : heapPropI := (∃ bs (_ : zlen bs = data_size f), dest ↦∗ bs ∗ sub_owns (owns (most_items := m) k) f bs)%I.
Lemma value_at_intro m f dest bs : zlen bs = data_size f → dest ↦∗ bs ∗ sub_owns (owns (most_items := m) k) f bs ⊢ value_at m f dest.
Proof. intros Hl. iIntros "H". by iExists bs, Hl. Qed.
Definition value_read (f : pb_field) (dest : Z) (i : pb_istream Y) (c : Z) : option unit → pb_istream Y → Z → heapPropI :=
  λ r i' c', value_post (value_at (later i i') f dest) i c r i' c'.
Lemma message_post_more m m' id p i c r i' c' : m ≤ m' → message_post m k id p i c r i' c' ⊢ message_post m' k id p i c r i' c'.
Proof. intros Hm. iIntros "(%H1 & %H2 & %img & %Hl & H & Ho)". iExists H1, H2, img, Hl. iFrame "H". by iApply (owns_more m m'). Qed.
Lemma wp_dec_submessage f dest bs i c : PB_LTYPE (type f) = PB_LTYPE_SUBMESSAGE → value_fits f →
  0 < dest → zlen bs = data_size f → stream_ok i → in_budget i →
  dest ↦∗ bs ∗ sub_needs f bs ⊢ wp (pb_dec_submessage decode decode_noinit f dest) i c (value_read f dest i c).
Proof using All.
  intros Ht Hv Hd Hbs Hi [Hb Hlim]. unfold value_fits in Hv. rw Ht in Hv. destruct (ptr f) as [|sub|] eqn:Hptr; [done| |done].
  iIntros "[H Ho]". unfold pb_dec_submessage. iApply (wp_make_substream _ i); [done|]. iSplit.
  { iIntros (i' Hi'). iApply post_intro; [done|]. iApply (value_at_intro (later i i') f dest bs Hbs). rw sub_needs_owns (sub_owns_more most_items (later i i')); [iFrame|by eapply most_later]. }
  iIntros (s i' H1 H2 H3). rw Hptr. iApply wp_bind. iApply wp_substream. assert (bytes_left s ≤ budget) as Hbud by (destruct H3; lia).
  assert (most + bytes_left s ≤ limit) as Hlim2 by (destruct H3; lia). pose proof most_nonneg as Hm. cbn in Hm.
  iApply (wp_wand _ _ _ (message_post (most + bytes_left s) k sub dest s c) with "[H Ho]").
  { unfold sub_needs. case_decide.
    - iDestruct "Ho" as "[%Hz Ho]". iClear "Ho". iApply (wp_wand with "[H]"); [iApply (Hdecode sub dest bs s c Hd ltac:(congruence) H1 Hbud ltac:(lia) with "H")|]. iIntros (r s' c') "H". iApply (message_post_more with "H"). lia.
    - unfold sub_owns. rw Ht Hptr. iApply (Hnoinit most sub dest bs s c Hd ltac:(congruence) H1 Hbud Hm Hlim2). iFrame. }
  iIntros (r s' c') "(%Hsafe & %Hc & %bs' & %Hbs' & H)". destruct Hsafe as [Hs1 Hs2]. subst c'. rw -Hv in Hbs'. iApply wp_close_substream; [done|done|]. iIntros (i2 H4 H5).
  rw (owns_more (most + bytes_left s) (later i i2)); [|unfold later; destruct H3; lia].
  assert (∀ r, took i i2 r) as Htook by (intros r2; destruct H1; split; [done|split; lia]).
  iSplit; [|destruct r; [iApply wp_ret|iApply wp_fail]]; (iApply post_intro; [done|]; iApply (value_at_intro (later i i2) f dest bs' Hbs'); unfold sub_owns; rw Ht Hptr; iFrame).
Qed.

(** Any value but a string behind a pointer. *)
Lemma post_mono (P Q : heapPropI) (i : pb_istream Y) c r i' c' : (P ⊢ Q) → value_post P i c r i' c' ⊢ value_post Q i c r i' c'.
Proof. intros HP. iIntros "(%H1 & %H2 & H)". iExists H1, H2. by iApply HP. Qed.
Lemma value_scalar m f dest : PB_LTYPE (type f) ≠ PB_LTYPE_SUBMESSAGE → value_at m f dest ⊣⊢ object dest (data_size f).
Proof.
  intros Ht. apply bi.equiv_entails. split.
  - iIntros "(%bs & %Hl & H & Ho)". rw owns_scalar //. iClear "Ho". by iExists bs, Hl.
  - iIntros "(%bs & %Hl & H)". iApply (value_at_intro m f dest bs Hl). rw owns_scalar //. by iFrame.
Qed.
Lemma wp_func f dest bs i c : value_fits f → (is_string_or_bytes f = true → PB_ATYPE (type f) = PB_ATYPE_STATIC) →
  0 < dest → zlen bs = data_size f → stream_ok i → in_budget i →
  dest ↦∗ bs ∗ sub_needs f bs ⊢ wp (func decode decode_noinit f dest) i c (value_read f dest i c).
Proof using All.
  intros Hv Hstr Hd Hbs Hi Hb. destruct (decide (PB_LTYPE (type f) = PB_LTYPE_SUBMESSAGE)) as [Ht|Ht].
  { unfold func, PB_DECODERS. rw Ht. by apply wp_dec_submessage. }
  rw (sub_needs_scalar f bs Ht) right_id. pose proof (value_size f Hv) as Hs.
  trans (object dest (data_size f)); [by iIntros "H"; iExists bs, Hbs|]. etrans; [|apply wp_mono; intros r i' c'; apply post_mono; by rw (value_scalar (later i i') f dest Ht)].
  unfold value_fits in Hv. destruct (PB_LTYPE (type f)) as [t| | | | | |] eqn:El; try done.
  - apply (wp_dec_scalar t); [done| |done]. by destruct t.
  - unfold func, PB_DECODERS. rw El. apply wp_dec_static_bytes; [apply Hstr; by apply bool_decide_eq_true; right|done|lia].
  - unfold func, PB_DECODERS. rw El. apply wp_dec_static_string; [apply Hstr; by apply bool_decide_eq_true; left|done|lia].
  - unfold func, PB_DECODERS. rw El. apply wp_dec_fixed_length_bytes; [done|lia].
Qed.


(** ** Static fields *)

Lemma wp_memset_object dest n (i : pb_istream Y) c Φ : 0 ≤ n → object dest n -∗ (object dest n -∗ Φ (Some tt) i c) -∗ wp (memset_zero dest n) i c Φ.
Proof. intros Hn. iIntros "H HΦ". iApply (wp_store_object with "H"); [unfold zlen; rw length_replicate; lia|done]. Qed.
(** The initialisation of a new submessage. *)
Lemma wp_fresh_submessage sub dest (i : pb_istream Y) c : 0 < dest → object dest (struct_size sub) ⊢
  wp (_ ← memset_zero dest (struct_size sub); pb_message_set_to_defaults stack (fields_of sub) dest) i c (returns (structure sub dest (λ bs, ⊢ owns k sub bs)) i c).
Proof using All.
  intros Hd. pose proof (fits_size sub (fit sub)). iIntros "H". iApply wp_bind. iApply (wp_memset_object with "H"); [lia|]. iIntros "(%bs & %Hbs & H)".
  iApply (wp_returns with "[H]"); [iApply (wp_defaults stack sub dest bs i c); [|done|done|done]|].
  - apply Nat.lt_le_trans with k; [apply Hk|]. rw Nat.div2_div. pose proof Hstack. apply Nat.div_le_lower_bound; lia.
  - iIntros "(%bs' & %Hl & %Hi & H)". iApply returns_intro. by iExists bs', Hl, (Hi k (Hk sub)).
Qed.
Section Field.
Context (id p : Z) (j : nat) (sl : slot).
Hypothesis Hj : slots (fields_of id) !! j = Some sl.
Hypothesis Hp : 0 < p.
Abbreviation f := (sl_field sl).
(** The iterator, which may count in the decoder. *)
Definition iter_with (place : size_place) : pb_field_iter := Iter (fields_of id) j (sl_required sl) p (p + sl_data sl) place.
Abbreviation it := (at_slot (fields_of id) p j sl).
Lemma field_iter_with place : field_at (iter_with place) = f.
Proof using Hj. unfold field_at. cbn. by apply nth_field. Qed.

Definition field_post (img : bytes) (i : pb_istream Y) : option unit → pb_istream Y → Z → heapPropI :=
  λ r i' c', (∃ (_ : took i i' (succeeded r)) (_ : 0 ≤ c') img' (_ : differs_at sl img img') (_ : active sl img' = true), p ↦∗ img' ∗ field_owns (most_items := after i i') (owns (most_items := after i i') k) sl img')%I.
Lemma field_post_intro img img' i r i' c' : took i i' (succeeded r) → 0 ≤ c' → differs_at sl img img' → active sl img' = true →
  p ↦∗ img' ∗ field_owns (most_items := after i i') (owns (most_items := after i i') k) sl img' ⊢ field_post img i r i' c'.
Proof. intros H1 H2 H3 H4. iIntros "H". by iExists H1, H2, img', H3, H4. Qed.
Lemma active_single img : htype sl ≠ PB_HTYPE_ONEOF → active sl img = true.
Proof. intros Hh. unfold active. by rw decide_False. Qed.
Lemma static_owns m img : atype sl = PB_ATYPE_STATIC → htype sl ≠ PB_HTYPE_REPEATED → active sl img = true →
  field_owns (most_items := m) (owns (most_items := m) k) sl img = sub_owns (owns (most_items := m) k) f (slice (sl_data sl) (data_size f) img).
Proof. intros Ha Hh Hact. unfold field_owns. rw Hact Ha. by destruct (htype sl). Qed.

Lemma wp_func_static img i c : zlen img = struct_size id → atype sl = PB_ATYPE_STATIC → htype sl ≠ PB_HTYPE_REPEATED → stream_ok i → in_budget i →
  p ↦∗ img ∗ sub_owns (owns k) f (slice (sl_data sl) (data_size f) img) ⊢
  wp (func decode decode_noinit f (p + sl_data sl)) i c (λ r i' c', value_post (∃ img' (_ : data_changed sl img img'),
    p ↦∗ img' ∗ sub_owns (owns (most_items := later i i') k) f (slice (sl_data sl) (data_size f) img')) i c r i' c').
Proof using All.
  intros Hl Ha Hh Hi Hb. pose proof (slot_fits id j sl Hj) as Hok. pose proof (ok_value id sl Hok) as Hv. destruct (static_place id j sl Hj Ha Hh) as (H1 & H2 & H3).
  pose proof (zlen_slice (sl_data sl) (data_size f) img H1 ltac:(lia) ltac:(lia)) as Hs.
  rw {1}(static_object id p j sl Hj img Hl Ha Hh). iIntros "[[H Hc] Ho]".
  iApply (wp_wand with "[H Ho]").
  { iApply (wp_func f (p + sl_data sl) _ i c Hv ltac:(done) ltac:(lia) Hs Hi Hb). unfold sub_needs. rw decide_False //. iFrame. }
  iIntros (r i' c') "(%Ht & %Hc & %bs & %Hbs & H & Ho)". iDestruct ("Hc" $! bs Hbs with "H") as "(%img' & %Hch & %Hsl & H)".
  iExists Ht, Hc, img', Hch. rw Hsl. iFrame.
Qed.
(** Decoding the value of a static field, once its flag is set. *)
Lemma wp_static_value img img0 i c : zlen img = struct_size id → atype sl = PB_ATYPE_STATIC → htype sl ≠ PB_HTYPE_REPEATED → stream_ok i → in_budget i → 0 ≤ c →
  differs_at sl img0 img → active sl img = true →
  p ↦∗ img ∗ sub_owns (owns k) f (slice (sl_data sl) (data_size f) img) ⊢ wp (func decode decode_noinit f (p + sl_data sl)) i c (field_post img0 i).
Proof using All.
  intros Hl Ha Hh Hi Hb Hc Hd Hact. rw (wp_func_static img i c) //. apply wp_mono. intros r i' c'. iIntros "(%Ht & %Hc' & %img' & %Hch & H)". subst c'.
  destruct Hch as [Hd' Hct]. assert (active sl img' = true) as Hact'. { rw (active_count sl img img') //. intros Ho. apply Hct. by apply count_bytes_oneof. }
  iApply (field_post_intro img0 img'); [done|done|by eapply differs_trans|done|]. rw static_owns // (sub_owns_more (later i i') (after i i')); [done|unfold after; lia].
Qed.

(** A field that may be decoded: it is current, or the union it belongs to has been released. *)
Definition ready (img : bytes) : heapPropI :=
  if active sl img then field_owns (owns k) sl img else (∃ _ : atype sl = PB_ATYPE_POINTER → pointer_of sl img = 0, emp)%I.
Lemma wp_store_which img (i : pb_istream Y) c Φ : zlen img = struct_size id → htype sl = PB_HTYPE_ONEOF →
  p ↦∗ img -∗ (∀ img' (_ : differs_at sl img img') (_ : same_at (sl_data sl) (data_bytes sl) img' img) (_ : active sl img' = true), p ↦∗ img' -∗ Φ (Some tt) i c) -∗
  wp (store_size (In_message (p + sl_size sl)) (tag f)) i c Φ.
Proof using All.
  intros Hl Hh. iIntros "H HΦ". pose proof (slot_fits id j sl Hj) as Hok. pose proof (count_bytes_oneof sl Hh) as Hcb. destruct (count_place id j sl Hj Hcb) as [H1 H2].
  pose proof (ok_tag id sl Hok) as Ht. set (img' := put (sl_size sl) (le_bytes 4 (tag f)) img).
  assert (same_at (sl_data sl) (data_bytes sl) img' img) as Hs.
  { apply same_at_put; [right; apply (ok_data id sl Hok)|done|rw zlen_le_bytes; lia|]. pose proof (ok_apart id sl Hok) as Hap. by rw Hcb in Hap; rw zlen_le_bytes. }
  assert (active sl img' = true) as Hact. { unfold active. rw decide_True //. apply Z.eqb_eq. apply (count_of_put id j sl Hj img); [done|done|lia]. }
  iApply (wp_store_count id p j sl Hj with "H"); [done|done|]. iIntros "H". iApply ("HΦ" $! img' (differs_count id j sl Hj img _ Hl Hcb) Hs Hact with "H").
Qed.
Definition new_member : M unit :=
  if decide (ltype_of sl = PB_LTYPE_SUBMESSAGE) then
    which ← load_size (In_message (p + sl_size sl));
    if negb (which =? tag f) then
      _ ← memset_zero (p + sl_data sl) (data_size f);
      match ptr f with Submsg id => pb_message_set_to_defaults stack (fields_of id) (p + sl_data sl) | _ => undefined end
    else mret tt
  else mret tt.
Lemma wp_new_member img i c : zlen img = struct_size id → atype sl = PB_ATYPE_STATIC → htype sl = PB_HTYPE_ONEOF →
  p ↦∗ img ∗ ready img ⊢ wp new_member i c (returns (∃ img' (_ : differs_at sl img img'), p ↦∗ img' ∗ sub_owns (owns k) f (slice (sl_data sl) (data_size f) img')) i c).
Proof using All.
  intros Hl Ha Hh. pose proof (ok_value id sl (slot_fits id j sl Hj)) as Hv. unfold value_fits in Hv. iIntros "[H Ho]". unfold new_member.
  assert (htype sl ≠ PB_HTYPE_REPEATED) as Hr by (by rw Hh). pose proof (count_bytes_oneof sl Hh) as Hcb. unfold ready. case_decide as Ht.
  - rw Ht in Hv. destruct (ptr f) as [|sub|] eqn:Hptr; [done| |done]. iApply wp_bind. iApply (wp_load_count id p j sl Hj with "H"); [done|done|]. iIntros "H".
    assert (active sl img = (count_of sl img =? tag f)) as Hact by (unfold active; by rw decide_True). rw -Hact. destruct (active sl img) eqn:E; cbn [negb].
    + iApply wp_ret. iApply returns_intro. iExists img, (differs_refl sl img). rw static_owns //. iFrame.
    + iDestruct "Ho" as "[%Hn Ho]". iClear "Ho". destruct (static_place id j sl Hj Ha Hr) as (H1 & H2 & H3).
      rw {1}(static_object id p j sl Hj img Hl Ha Hr). iDestruct "H" as "[H Hc]".
      iApply (wp_returns with "[H]").
      { rw Hv. assert (zlen (slice (sl_data sl) (struct_size sub) img) = struct_size sub) as Hs by (apply zlen_slice; lia).
        iApply wp_fresh_submessage; [lia|]. by iExists _, Hs. }
      iIntros "(%bs & %Hbs & %Hi & H)". rw -Hv in Hbs. iDestruct ("Hc" $! bs Hbs with "H") as "(%img' & %Hch & %Hsl & H)". iApply returns_intro.
      destruct Hch as [Hd _]. iExists img', Hd. iFrame "H". unfold sub_owns. rw Ht Hptr Hsl. iApply Hi.
  - iApply wp_ret. iApply returns_intro. iExists img, (differs_refl sl img). rw owns_scalar //. iFrame. destruct (active sl img) eqn:E.
    + rw static_owns // owns_scalar //.
    + by iDestruct "Ho" as "[%Hn Ho]".
Qed.

Lemma same_data img img' : atype sl = PB_ATYPE_STATIC → htype sl ≠ PB_HTYPE_REPEATED → same_at (sl_data sl) (data_bytes sl) img' img →
  slice (sl_data sl) (data_size f) img' = slice (sl_data sl) (data_size f) img.
Proof. intros Ha Hh. by rw data_bytes_single. Qed.
Lemma wp_static_single w img i c : zlen img = struct_size id → atype sl = PB_ATYPE_STATIC → htype sl ≠ PB_HTYPE_REPEATED → stream_ok i → in_budget i → 0 ≤ c →
  p ↦∗ img ∗ ready img ⊢ wp (decode_static_field stack decode decode_noinit w it) i c (field_post img i).
Proof using All.
  intros Hl Ha Hh Hi Hb Hc. iIntros "[H Ho]". unfold decode_static_field. rw (field_at_slot id p j sl Hj). cbn [pData pSize at_slot].
  destruct (htype sl) eqn:Eh; [| |done|].
  - assert (active sl img = true) as Hact by (apply active_single; by rw Eh). unfold ready. rw Hact static_owns //; [|by rw Eh].
    iApply (wp_static_value img img); [done|done|by rw Eh|done|done|done|apply differs_refl|done|iFrame].
  - assert (active sl img = true) as Hact by (apply active_single; by rw Eh). unfold ready. rw Hact static_owns //; [|by rw Eh].
    iApply wp_bind. iApply (wp_store_flag id p j sl Hj with "H"); [done|done|done|]. iIntros (img1 Hd1 Hs1) "H".
    iApply (wp_static_value img1 img); [destruct Hd1; congruence|done|by rw Eh|done|done|done|done|apply active_single; by rw Eh|]. rw Hs1. iFrame.
  - iApply (wp_seq new_member with "[H Ho]"); [by iApply wp_new_member; [done|done|done|iFrame]|].
    iIntros "(%img1 & %Hd1 & H & Ho)". assert (zlen img1 = struct_size id) as Hl1 by (destruct Hd1; congruence).
    iApply wp_bind. iApply (wp_store_which with "H"); [done|done|]. iIntros (img2 Hd2 Hs2 Hact2) "H".
    iApply (wp_static_value img2 img); [destruct Hd2; congruence|done|by rw Eh|done|done|done|by eapply differs_trans|done|].
    rw (same_data img1 img2) //; [iFrame|by rw Eh].
Qed.


(** ** Arrays in the structure *)

(** Arrays of fixed length are counted in the decoder. *)
Definition place_ok (place : size_place) : Prop :=
  if decide (sl_size sl = sl_data sl) then place = In_decoder else place = In_message (p + sl_size sl).
Definition count_now (place : size_place) (img : bytes) (c : Z) : Z := match place with In_message _ => count_of sl img | In_decoder => c end.
Section Array.
Hypothesis Ha : atype sl = PB_ATYPE_STATIC.
Hypothesis Hh : htype sl = PB_HTYPE_REPEATED.
Context (place : size_place).
Hypothesis Hplace : place_ok place.
Lemma array_count : sl_size sl ≠ sl_data sl → count_bytes sl = 4.
Proof using Ha Hh. intros Hne. unfold count_bytes. rw Hh Ha decide_False //. by intros [_ ?]. Qed.
Lemma count_now_nonneg img c : 0 ≤ c → 0 ≤ count_now place img c.
Proof. intros Hc. unfold count_now, count_of. destruct place; [apply Z.mod_pos_bound; lia|done]. Qed.
Lemma wp_load_now img (i : pb_istream Y) c Φ : zlen img = struct_size id →
  p ↦∗ img -∗ (p ↦∗ img -∗ Φ (Some (count_now place img c)) i c) -∗ wp (load_size place) i c Φ.
Proof using All.
  intros Hl. unfold place_ok in Hplace. case_decide as Hd; subst place; iIntros "H HΦ".
  - cbn [load_size]. iApply wp_get. iIntros (m). iApply wp_ret. by iApply "HΦ".
  - iApply (wp_load_count id p j sl Hj with "H"); [done|by apply array_count|done].
Qed.
Lemma wp_store_counter n (i : pb_istream Y) c Φ : Φ (Some tt) i n ⊢ wp (store_size In_decoder n) i c Φ.
Proof. split. intros h H g Hd. by eexists (Some tt), i, n, h. Qed.
Lemma wp_store_now img n (i : pb_istream Y) c Φ : zlen img = struct_size id → 0 ≤ c → 0 ≤ n →
  p ↦∗ img -∗ (∀ img' c' (_ : differs_at sl img img') (_ : 0 ≤ c'), p ↦∗ img' -∗ Φ (Some tt) i c') -∗ wp (store_size place n) i c Φ.
Proof using All.
  intros Hl Hc Hn. unfold place_ok in Hplace. case_decide as Hd; subst place; iIntros "H HΦ".
  - iApply wp_store_counter. iApply ("HΦ" $! img n (differs_refl sl img) Hn with "H").
  - pose proof (array_count Hd) as Hcb. iApply (wp_store_count id p j sl Hj with "H"); [done|done|]. iIntros "H".
    iApply ("HΦ" $! _ c (differs_count id j sl Hj img n Hl Hcb) Hc with "H").
Qed.
Lemma item_place n : 0 ≤ n < array_size f → item_offset f n = n * data_size f ∧ 0 ≤ n * data_size f ∧ n * data_size f + data_size f ≤ data_bytes sl.
Proof using All.
  intros Hn. pose proof (slot_fits id j sl Hj) as Hok. pose proof (value_size f (ok_value id sl Hok)) as Hv. destruct (ok_data id sl Hok) as [H1 H2].
  pose proof (fits_size id (fit id)) as Hs. assert (n * data_size f + data_size f ≤ data_bytes sl) as Hi 
    by (rw (data_bytes_array sl Ha Hh); pose proof (Z.mul_le_mono_nonneg_r (n + 1) (array_size f) (data_size f) ltac:(lia) ltac:(lia)); lia).
  assert (0 ≤ n * data_size f) as Hi2 by nia. split; [|by split]. unfold item_offset. rw Z.mul_comm. apply wrap_small. split; lia.
Qed.
Lemma wp_func_item img n i c : zlen img = struct_size id → stream_ok i → in_budget i → 0 ≤ n < array_size f →
  p ↦∗ img ⊢ wp (func decode decode_noinit f (p + sl_data sl + item_offset f n)) i c (value_post (∃ img' (_ : differs_at sl img img'), p ↦∗ img') i c).
Proof using All.
  intros Hl Hi Hb Hn. destruct (item_place n Hn) as (-> & Hn1 & Hn2). pose proof (slot_fits id j sl Hj) as Hok. pose proof (ok_value id sl Hok) as Hv.
  pose proof (value_size f Hv) as Hs. destruct (ok_data id sl Hok) as [H1 H2]. rw -Z.add_assoc. set (o := sl_data sl + n * data_size f).
  pose proof (zlen_slice o (data_size f) img ltac:(lia) ltac:(lia) ltac:(lia)) as Hsl.
  assert (∀ (m : Most) bs, sub_owns (owns (most_items := m) k) f bs ⊣⊢ emp) as Hfree.
  { intros m bs. destruct (decide (ltype_of sl = PB_LTYPE_SUBMESSAGE)) as [Ht|Ht]; [|by rw owns_scalar]. unfold value_fits in Hv. unfold sub_owns. rw Ht in Hv *.
    destruct (ptr f) as [|sub|] eqn:Hptr; try done. pose proof (ok_inner id sl Hok Ha) as Hin. unfold inner_fits in Hin. rw Ht Hptr in Hin. destruct Hin as [_ Hin].
    apply pointer_free_owns; [by apply Hin|apply Hk]. }
  rw {1}(points_to_slice p o (data_size f) img); [|lia..]. iIntros "[H Hc]". iApply (wp_wand with "[H]").
  { iApply (wp_func f (p + o) (slice o (data_size f) img) i c Hv ltac:(done) ltac:(lia) Hsl Hi Hb). iFrame. unfold sub_needs. rw decide_True // nothing_intro //. by rw Hfree. }
  iIntros (r i' c') "(%Ht & %Hc & %bs & %Hbs & H & Ho)". rw Hfree. iDestruct ("Hc" $! bs Hbs with "H") as "H". iExists Ht, Hc.
  assert (differs_at sl img (put o bs img)) as Hd by (apply differs_put; [lia|lia|left; rw Hbs; split; lia]). by iExists _, Hd.
Qed.

Definition loop_post (img : bytes) (i : pb_istream Y) : option unit → pb_istream Y → Z → heapPropI :=
  λ r i' c', (∃ (_ : stream_ok i' ∧ bytes_left i' ≤ bytes_left i) (_ : 0 ≤ c') img' (_ : differs_at sl img img'), p ↦∗ img')%I.
Lemma loop_post_intro img img' i r i' c' : stream_ok i' → bytes_left i' ≤ bytes_left i → 0 ≤ c' → differs_at sl img img' → p ↦∗ img' ⊢ loop_post img i r i' c'.
Proof. intros H1 H2 H3 H4. iIntros "H". by iExists (conj H1 H2), H3, img', H4. Qed.
Lemma u32_nonneg n : 0 ≤ u32 n.
Proof. apply Z.mod_pos_bound. lia. Qed.
Lemma wp_static_packed_loop fuel : ∀ img0 i0 img i c, stream_ok i → bytes_left i ≤ bytes_left i0 → in_budget i → bytes_left i < Z.of_nat fuel → zlen img = struct_size id → 0 ≤ c →
  differs_at sl img0 img → p ↦∗ img ⊢ wp (static_packed_loop decode decode_noinit fuel (iter_with place)) i c (loop_post img0 i0).
Proof using All.
  induction fuel as [|fuel IH]; intros img0 i0 img i c Hi Hi0 Hb Hf Hl Hc Hd; [destruct Hi; lia|]. cbn [static_packed_loop]. iIntros "H".
  iApply wp_get. iIntros (m). cbn [input pSize iter_with]. rw field_iter_with. destruct (Z.ltb_spec 0 (bytes_left i)) as [Hz|Hz]; cbn [andb].
  - iApply wp_bind. iApply (wp_load_now with "H"); [done|]. iIntros "H". pose proof (count_now_nonneg img c Hc) as Hn0. set (n := count_now place img c) in *.
    destruct (Z.ltb_spec n (array_size f)) as [Hn|Hn]; [|iApply wp_ret; by iApply loop_post_intro].
    iApply wp_bind. iApply (wp_wand with "[H]"); [iApply (wp_func_item with "H"); done|]. iIntros (r i' c') "(%Ht & %Hc' & %img1 & %Hd1 & H)". subst c'.
    destruct Ht as (Ht1 & Ht2 & Ht3). assert (differs_at sl img0 img1) as Hd2 by (by eapply differs_trans). assert (zlen img1 = struct_size id) as Hl1 by (destruct Hd1; congruence).
    destruct r as [[]|]; [|iApply (loop_post_intro with "H"); [done|lia|done|done]]. specialize (Ht3 eq_refl).
    iApply wp_bind. iApply (wp_load_now with "H"); [done|]. iIntros "H". iApply wp_bind. iApply (wp_store_now with "H"); [done|done|apply u32_nonneg|].
    iIntros (img2 c2 Hd3 Hc2) "H". iApply (IH with "H"); [done|lia|by apply (in_budget_le i); [|lia]|lia|destruct Hd3; congruence|done|by eapply differs_trans].
  - iApply wp_bind. iApply wp_ret. iApply wp_ret. by iApply loop_post_intro.
Qed.
Lemma array_field_post img img' i r i' c' : took i i' (succeeded r) → 0 ≤ c' → differs_at sl img img' → p ↦∗ img' ⊢ field_post img i r i' c'.
Proof using Ha Hh.
  intros H1 H2 H3. assert (htype sl ≠ PB_HTYPE_ONEOF) as Hno by (by rw Hh). iIntros "H". iApply (field_post_intro img img'); [done|done|done|by apply active_single|].
  rw (array_owns_static (most_items := after i i')) //. by iFrame.
Qed.
Lemma wp_decode_static_packed img i c : zlen img = struct_size id → stream_ok i → in_budget i → 0 ≤ c →
  p ↦∗ img ⊢ wp (decode_static_packed decode decode_noinit (iter_with place)) i c (field_post img i).
Proof using All.
  intros Hl Hi Hb Hc. iIntros "H". unfold decode_static_packed. iApply (wp_make_substream _ i); [done|]. iSplit.
  { iIntros (i' Hi'). iApply (array_field_post with "H"); [done|done|apply differs_refl]. }
  iIntros (s i' H1 H2 H3). iApply wp_bind. iApply wp_substream. pose proof H1 as [_ H1']. pose proof H3 as [_ H3'].
  iApply (wp_wand with "[H]"); [iApply (wp_static_packed_loop _ img s with "H"); [done|lia|by apply (in_budget_le i); [|lia]|lia|done|done|apply differs_refl]|].
  iIntros (r s' c') "(%Hs & %Hc' & %img' & %Hd & H)". destruct Hs as [Hs1 Hs2].
  assert (∀ i2 ok, stream_ok i2 → bytes_left i2 ≤ bytes_left i' → took i i2 ok) as Htook by (intros i2 ok Hok Hle; split; [done|split; lia]).
  destruct (negb (bytes_left s' =? 0)).
  - iApply wp_error; [done|]. iIntros (i2 H4 H5). iApply (array_field_post with "H"); [by apply Htook|done|done].
  - iApply wp_close_substream; [done|done|]. iIntros (i2 H4 H5).
    iSplit; [|destruct r; [iApply wp_ret|iApply wp_fail]]; (iApply (array_field_post with "H"); [apply Htook; [done|lia]|done|done]).
Qed.
Lemma wp_static_array w img i c : zlen img = struct_size id → stream_ok i → in_budget i → 0 ≤ c →
  p ↦∗ img ⊢ wp (decode_static_field stack decode decode_noinit w (iter_with place)) i c (field_post img i).
Proof using All.
  intros Hl Hi Hb Hc. unfold decode_static_field. rw field_iter_with Hh. cbn [pData pSize iter_with].
  assert (p ↦∗ img ⊢ wp (size ← load_size place; _ ← store_size place (u32 (size + 1));
    if array_size f <=? size then error "array overflow" else func decode decode_noinit f (p + sl_data sl + item_offset f size)) i c (field_post img i)) as Hone.
  { iIntros "H". iApply wp_bind. iApply (wp_load_now with "H"); [done|]. iIntros "H". pose proof (count_now_nonneg img c Hc) as Hn0. set (n := count_now place img c) in *.
    iApply wp_bind. iApply (wp_store_now with "H"); [done|done|apply u32_nonneg|]. iIntros (img1 c1 Hd1 Hc1) "H".
    assert (zlen img1 = struct_size id) as Hl1 by (destruct Hd1; congruence). destruct (Z.leb_spec (array_size f) n) as [Hn|Hn].
    - iApply wp_error; [done|]. iIntros (i2 H4 H5). iApply (array_field_post with "H"); [by apply took_none|done|done].
    - iApply (wp_wand with "[H]"); [iApply (wp_func_item with "H"); done|]. iIntros (r i' c') "(%Ht & %Hc' & %img2 & %Hd2 & H)". subst c'.
      iApply (array_field_post with "H"); [done|done|by eapply differs_trans]. }
  destruct w; try exact Hone. destruct (packable _); [|exact Hone]. by apply wp_decode_static_packed.
Qed.
End Array.
(** The release of the field. *)
Lemma wp_release_single (img : bytes) (i : pb_istream Y) c : zlen img = struct_size id →
  p ↦∗ img ∗ field_owns (owns k) sl img ⊢ wp (pb_release_single_field stack it) i c (returns (released_at p sl k img) i c).
Proof using All.
  intros Hl. pose proof Hstack as Hs. pose proof (Hk id) as Hn. destruct stack as [|stk]; [lia|]. cbn [pb_release_single_field].
  apply (wp_release_field id p j sl k Hj Hp); [lia| |done]. apply wp_pb_release. lia.
Qed.
End Field.
End Fields.
