(* ===== verification/PbPointers.v ===== *)
(** * Decoding fields is memory safe: pointers

    [decode_pointer_field] allocates objects, strings and arrays.  Whatever fails, every block still
    has an owner. *)
From iris.proofmode Require Import proofmode.
From stdpp Require Import gmap.
From S2P Require Export PbFields.

Section Pointers.
Context {Y : Type} {source : Source Y} {source_safe : SourceSafe Y} {tables : Tables} {layout : Layout} {fit : TablesFit} {extensions : Extensions}.
Context {callbacks : Callbacks} {alloc : Allocator} {alloc_ok : AllocatorOk} {the_limit : Limit} {arrays : ArraysFit}.
Abbreviation M := (run (machine Y)).
Context {stack : nat} {decode decode_noinit : pb_fields → Z → M unit} {k : nat} {budget : Z} {decoders : DecodersOk stack decode decode_noinit k budget}.
Context {most_items : Most} {most_ok : MostOk}.
Abbreviation in_budget := (PbFields.in_budget (budget := budget)).

(** ** Items *)

Lemma items_snoc f n bs : 0 ≤ n → items f (n + 1) bs = items f n bs ++ [slice (n * data_size f) (data_size f) bs].
Proof.
  intros Hn. unfold items. replace (Z.to_nat (n + 1)) with (Z.to_nat n + 1)%nat by lia. rw seq_app fmap_app. cbn. by rw Z2Nat.id.
Qed.
Lemma items_same f n bs bs' : 0 ≤ data_size f → 0 ≤ n → slice 0 (n * data_size f) bs = slice 0 (n * data_size f) bs' → items f n bs = items f n bs'.
Proof.
  intros Hd Hn E. unfold items. apply list_fmap_ext. intros m x Hx. apply lookup_seq in Hx as [-> Hm]. cbn.
  assert (Z.of_nat m * data_size f + data_size f ≤ n * data_size f) as Hle by (pose proof (Z.mul_le_mono_nonneg_r (Z.of_nat m + 1) n (data_size f) Hd ltac:(lia)); lia).
  assert (0 ≤ Z.of_nat m * data_size f) by nia.
  by rw -(slice_slice 0 (n * data_size f)) // E slice_slice.
Qed.
(** An array of [n] items, [b] at most, in a block with room for [m]. *)
Definition array_room (b : Z) (f : pb_field) (q n m : Z) : heapPropI :=
  (∃ old (_ : 0 ≤ n ≤ m) (_ : m * data_size f ≤ zlen old) (_ : q ≠ 0 → 0 < zlen old ∧ n ≤ b),
    old_block q old ∗ [∗ list] x ∈ items f n old, item_owns (owns (most_items := b) k) f x)%I.
Definition array_of (b : Z) (f : pb_field) (q n : Z) : heapPropI := array_owns (most_items := b) (owns (most_items := b) k) f q n.
Lemma item_owns_more (b b' : Z) f x : b ≤ b' → item_owns (owns (most_items := b) k) f x ⊢ item_owns (owns (most_items := b') k) f x.
Proof. intros Hb. apply item_owns_mono. intros. by apply owns_more. Qed.
Lemma single_owns_more (b b' : Z) f q : b ≤ b' → single_owns (owns (most_items := b) k) f q ⊢ single_owns (owns (most_items := b') k) f q.
Proof. intros Hb. apply single_owns_mono. intros. by apply owns_more. Qed.
Lemma array_of_more (b b' : Z) f q n : b ≤ b' → array_of b f q n ⊢ array_of b' f q n.
Proof. intros Hb. apply array_owns_mono; [done|]. intros. by apply owns_more. Qed.
Lemma array_room_owns b f q n m : 1 ≤ data_size f → array_room b f q n m ⊢ array_of b f q n.
Proof.
  intros Hd. iIntros "(%old & %H1 & %H2 & %H3 & Hb & Hi)". unfold old_block, array_of, array_owns. destruct (Z.eqb_spec q 0) as [->|Hq].
  - iDestruct "Hb" as "[%He Hb]". iClear "Hb". subst old. change (zlen (@nil Z)) with 0 in H2. assert (n = 0) as Hn by nia. iExists Hn. subst n. by cbn.
  - iDestruct "Hb" as "[%Hr Hb]". destruct (H3 Hq) as [H4 H5]. assert (array_size_ok (most_items := b) f n (zlen old)) as Hs by (split_and!; [lia|exact H5|nia|done]). iExists old, Hr, Hs. iFrame.
Qed.
Lemma array_owns_room b f q n : array_of b f q n ⊢ array_room b f q n n.
Proof.
  unfold array_of, array_owns, array_room, old_block. destruct (Z.eqb_spec q 0) as [->|Hq].
  - iIntros "[%Hn H]". iClear "H". subst n. assert (0 ≤ 0 ≤ 0) as H1 by lia. iExists [], H1. assert (0 * data_size f ≤ zlen (@nil Z)) as H2 by (unfold zlen; cbn; lia). iExists H2.
    assert (0 ≠ 0 → 0 < zlen (@nil Z) ∧ 0 ≤ b) as H3 by done. iExists H3. cbn. iSplit; [by iExists eq_refl|done].
  - iIntros "(%bs & %H1 & %H2 & Hb & Hi)". destruct H2 as (H2 & H3 & H4). assert (0 ≤ n ≤ n) as H5 by lia. iExists bs, H5, H3, (λ _, conj H4 (proj2 H2)). iFrame "Hi". by iExists H1.
Qed.
(** The next item. *)
Lemma array_room_next b f q n m : 1 ≤ data_size f → n < m → array_room b f q n m ⊢
  ∃ (_ : 0 < q < 2 ^ 64) (_ : 0 ≤ n ≤ b), object (q + n * data_size f) (data_size f) ∗
    ∀ bs (_ : zlen bs = data_size f), (q + n * data_size f) ↦∗ bs -∗ array_room b f q n m ∧ (∀ b' : Z, ∀ _ : b + 1 ≤ b', item_owns (owns (most_items := b') k) f bs -∗ array_room b' f q (n + 1) m).
Proof.
  intros Hd Hn. iIntros "(%old & %H1 & %H2 & %H3 & Hb & Hi)". unfold old_block. destruct (Z.eqb_spec q 0) as [Hz|Hq].
  { iDestruct "Hb" as "[%He Hb]". exfalso. subst old. change (zlen (@nil Z)) with 0 in H2. nia. }
  iDestruct "Hb" as "[%Hr [Hb Hh]]".
  assert ((n + 1) * data_size f ≤ m * data_size f) as Hle by (apply Z.mul_le_mono_nonneg_r; lia). assert (0 ≤ n * data_size f) as Hn0 by nia.
  destruct (H3 Hq) as [Hz Hnb]. assert (0 ≤ n ≤ b) as H4 by (split; [lia|exact Hnb]). iExists Hr, H4.
  pose proof (zlen_slice (n * data_size f) (data_size f) old Hn0 ltac:(lia) ltac:(lia)) as Hsl.
  rw (points_to_slice q (n * data_size f) (data_size f) old); [|lia..]. iDestruct "Hb" as "[Hb Hc]". iSplitL "Hb"; [by iExists _, Hsl|].
  iIntros (bs Hbs) "Hb". iSpecialize ("Hc" $! bs Hbs with "Hb"). set (new := put (n * data_size f) bs old).
  assert (zlen new = zlen old) as Hl by (apply zlen_put; lia).
  assert (items f n new = items f n old) as Hit. { apply items_same; [lia|lia|]. apply slice_put_disjoint; lia. }
  rw -Hl in H2 H3 Hz *. iSplit.
  - iExists new, H1, H2, H3. unfold old_block. rw (proj2 (Z.eqb_neq q 0)) // Hit. iFrame "Hi". iExists Hr. unfold is_block. iFrame.
  - iIntros (b' Hb') "Ho". assert (0 ≤ n + 1 ≤ m) as H5 by lia. assert (q ≠ 0 → 0 < zlen new ∧ n + 1 ≤ b') as H6 by (intros _; lia). iExists new, H5, H2, H6. unfold old_block. rw (proj2 (Z.eqb_neq q 0)) // items_snoc; [|lia]. rw Hit.
    assert (slice (n * data_size f) (data_size f) new = bs) as -> 
      by (pose proof (slice_put (n * data_size f) bs old Hn0 ltac:(lia)) as E; by rw Hbs in E).
    rw big_sepL_app. cbn [big_opL]. iFrame "Ho". iSplitL "Hc Hh"; [iExists Hr; unfold is_block; iFrame|].
    iApply (big_sepL_mono with "Hi"). intros x y _. apply item_owns_more. lia.
Qed.


(** ** The pointer of a field *)

Section Field.
Context (id p : Z) (j : nat) (sl : slot).
Hypothesis Hj : slots (fields_of id) !! j = Some sl.
Hypothesis Hp : 0 < p.
Hypothesis Ha : atype sl = PB_ATYPE_POINTER.
Abbreviation f := (sl_field sl).
Abbreviation it := (at_slot (fields_of id) p j sl).

Lemma pointer_cell img : zlen img = struct_size id → p ↦∗ img ⊢ cell (p + sl_data sl) (pointer_of sl img) ∗
  ∀ q, cell (p + sl_data sl) q -∗ ∃ img' (_ : data_changed sl img img') (_ : pointer_of sl img' = q), p ↦∗ img'.
Proof using Hj Ha fit.
  intros Hl. destruct (pointer_place id j sl Hj Ha) as [H1 H2]. pose proof (zlen_slice (sl_data sl) 8 img H1 ltac:(lia) ltac:(lia)) as Hs.
  rw {1}(points_to_slice p (sl_data sl) 8 img); [|lia..]. iIntros "[H Hc]". iSplitL "H"; [by iExists _, Hs, eq_refl|].
  iIntros (q) "(%bs & %Hbs & %Hv & H)". iSpecialize ("Hc" $! bs Hbs with "H").
  assert (data_changed sl img (put (sl_data sl) bs img)) as Hch.
  { apply (data_changed_put id j sl Hj); [done|]. rw Hbs data_bytes_pointer //. }
  assert (pointer_of sl (put (sl_data sl) bs img) = q) as Hq. { unfold pointer_of. rw -Hbs slice_put //. unfold sizeof_ptr in Hbs. lia. }
  by iExists _, Hch, Hq.
Qed.
Lemma changed_active img img' : data_changed sl img img' → active sl img' = active sl img.
Proof. intros [_ Hc]. apply active_count. intros Ho. apply Hc. by apply count_bytes_oneof. Qed.
Lemma pointer_owns b img : htype sl ≠ PB_HTYPE_REPEATED → active sl img = true →
  field_owns (most_items := b) (owns (most_items := b) k) sl img = single_owns (owns (most_items := b) k) f (pointer_of sl img).
Proof using Ha. intros Hh Hact. unfold field_owns. rw Hact Ha. by destruct (htype sl). Qed.
Lemma pointer_array_owns b img : htype sl = PB_HTYPE_REPEATED → field_owns (most_items := b) (owns (most_items := b) k) sl img = array_of b f (pointer_of sl img) (count_of sl img).
Proof using Ha. intros Hh. unfold field_owns. rw active_single; [|by rw Hh]. by rw Ha Hh. Qed.
Lemma pointer_post q img0 img img' i r i' c' : took i i' (succeeded r) → 0 ≤ c' → differs_at sl img0 img → data_changed sl img img' → active sl img = true →
  htype sl ≠ PB_HTYPE_REPEATED → pointer_of sl img' = q → p ↦∗ img' ∗ single_owns (owns (most_items := later i i') k) f q ⊢ field_post (k := k) p sl img0 i r i' c'.
Proof using Ha.
  intros H1 H2 H3 H4 H5 H6 H7. rw -(field_post_intro p sl img0 img'); [|done|done|eapply differs_trans; [done|by destruct H4]|by rw (changed_active img img' H4)].
  rw (single_owns_more (later i i') (after i i')); [|unfold after; lia]. rw pointer_owns // ?H7 //. by rw (changed_active img img' H4).
Qed.
Lemma single_range g q : single_owns (owns k) g q ⊢ ∃ _ : 0 ≤ q < 2 ^ 64, single_owns (owns k) g q.
Proof.
  unfold single_owns. destruct (Z.eqb_spec q 0) as [->|Hq].
  - assert (0 ≤ 0 < 2 ^ 64) as H0 by lia. iIntros "H". by iExists H0.
  - iIntros "(%bs & %H1 & %H2 & H)". assert (0 ≤ q < 2 ^ 64) as H0 by lia. iExists H0, bs, H1, H2. iExact "H".
Qed.
(** A string: the decoder of strings allocates it. *)
Lemma wp_func_string g q i c : PB_ATYPE (type g) = PB_ATYPE_POINTER → is_string_or_bytes g = true → stream_ok i →
  string_cell (owns k) g q ⊢ wp (func decode decode_noinit g q) i c (value_post (string_cell (owns k) g q) i c).
Proof using decoders alloc_ok source_safe.
  intros Hg Hs Hi. unfold func, PB_DECODERS. pose proof Hs as Ht. apply bool_decide_eq_true in Ht as [Ht|Ht]; rw Ht; [by apply wp_dec_pointer_string|by apply wp_dec_pointer_bytes].
Qed.
Lemma wp_single_string img0 img i c : zlen img = struct_size id → differs_at sl img0 img → active sl img = true → htype sl ≠ PB_HTYPE_REPEATED → is_string_or_bytes f = true → stream_ok i → 0 ≤ c →
  p ↦∗ img ∗ single_owns (owns k) f (pointer_of sl img) ⊢ wp (func decode decode_noinit f (p + sl_data sl)) i c (field_post (k := k) p sl img0 i).
Proof using All.
  intros Hl Hd Hact Hh Hs Hi Hc. iIntros "[H Ho]". iDestruct (single_range with "Ho") as "[%Hr Ho]". iDestruct (pointer_cell with "H") as "[H Hcl]"; [done|].
  iApply (wp_wand with "[H Ho]"); [iApply wp_func_string; [done|done|done|]; iApply (string_cell_intro _ f _ (pointer_of sl img) Hr); iFrame|].
  iIntros (r i' c') "(%Ht & %Hc' & %q & %Hq & H & Ho)". subst c'. iDestruct ("Hcl" with "H") as "(%img' & %Hch & %Hq' & H)".
  rw (single_owns_more most_items (later i i')); [|by eapply most_later]. iApply (pointer_post q img0 img img'); [done..|iFrame].
Qed.

(** A new object behind a pointer. *)
Definition fresh_at (g : pb_field) (q : Z) : heapPropI := (∃ bs (_ : zlen bs = data_size g) (_ : ⊢ item_owns (owns k) g bs), q ↦∗ bs)%I.
Lemma wp_initialize q (i : pb_istream Y) c : value_fits f → (is_string_or_bytes f = true → data_size f = sizeof_ptr) → 0 < q →
  object q (data_size f) ⊢ wp (initialize_pointer_field stack q it) i c (returns (fresh_at f q) i c).
Proof using All.
  intros Hv Hs Hq. iIntros "H". unfold initialize_pointer_field. rw (field_at_slot id p j sl Hj). unfold fresh_at, item_owns. destruct (is_string_or_bytes f) eqn:Hf.
  - specialize (Hs eq_refl). unfold store_pointer. iDestruct "H" as "(%bs & %Hbs & H)". iApply (wp_store_front with "H"); [rw zlen_le_bytes; unfold sizeof_ptr in Hs; lia|].
    rw put_all; [|rw zlen_le_bytes; unfold sizeof_ptr in Hs; lia]. iIntros "H". iApply returns_intro.
    assert (zlen (le_bytes 8 0) = data_size f) as Hz by (rw zlen_le_bytes; unfold sizeof_ptr in Hs; lia).
    assert (⊢ single_owns (owns k) f (le_val (le_bytes 8 0))) as Ho by done. by iExists _, Hz, Ho.
  - unfold value_fits in Hv. case_decide as Ht.
    + rw Ht in Hv. destruct (ptr f) as [|sub|] eqn:Hptr; [done| |done]. rw Hv. iApply (wp_returns with "[H]"); [iApply (wp_fresh_submessage (k := k) sub q with "H"); done|].
      iIntros "(%bs & %Hbs & %Ho & H)". iApply returns_intro. unfold sub_owns. rw Ht Hptr. by iExists bs, Hbs, Ho.
    + iApply wp_ret. iApply returns_intro. iDestruct "H" as "(%bs & %Hbs & H)". assert (⊢ sub_owns (owns k) f bs) as Ho by (by rw owns_scalar). by iExists bs, Hbs, Ho.
Qed.
Lemma single_loose img : (ltype_of sl = PB_LTYPE_SUBMESSAGE → pointer_of sl img = 0) → single_owns (owns k) f (pointer_of sl img) ⊢
  ∃ old (_ : ltype_of sl = PB_LTYPE_SUBMESSAGE → pointer_of sl img = 0) (_ : pointer_of sl img ≠ 0 → single_size f (zlen old)), old_block (pointer_of sl img) old.
Proof.
  intros Hz. unfold single_owns, old_block. destruct (Z.eqb_spec (pointer_of sl img) 0) as [He|Hq].
  - rw He. assert (0 ≠ 0 → single_size f (zlen (@nil Z))) as Hn by done. iIntros "H". iExists (@nil Z), (λ _, eq_refl), Hn. by iExists eq_refl.
  - iIntros "(%bs & %H1 & %H2 & Hb & Hs)". iExists bs, Hz, (λ _, H2), H1. rw owns_scalar; [by iFrame|]. intros Ht. by apply Hq, Hz.
Qed.
Lemma loose_single (b : Z) img old : (ltype_of sl = PB_LTYPE_SUBMESSAGE → pointer_of sl img = 0) → (pointer_of sl img ≠ 0 → single_size f (zlen old)) →
  old_block (pointer_of sl img) old ⊢ single_owns (owns (most_items := b) k) f (pointer_of sl img).
Proof.
  intros Hz Hs. unfold single_owns, old_block. destruct (Z.eqb_spec (pointer_of sl img) 0) as [He|Hq].
  - by iIntros "[%Ho H]".
  - iIntros "[%H1 Hb]". iExists old, H1, (Hs Hq). iFrame. rw owns_scalar; [done|]. intros Ht. by apply Hq, Hz.
Qed.
Definition decode_single : M unit :=
  _ ← allocate_field (p + sl_data sl) (data_size f) 1;
  q ← load_pointer (p + sl_data sl);
  _ ← initialize_pointer_field stack q it;
  q ← load_pointer (p + sl_data sl);
  func decode decode_noinit f q.
Lemma wp_decode_single img0 img i c : zlen img = struct_size id → differs_at sl img0 img → active sl img = true → htype sl ≠ PB_HTYPE_REPEATED → is_string_or_bytes f = false →
  (ltype_of sl = PB_LTYPE_SUBMESSAGE → pointer_of sl img = 0) → stream_ok i → in_budget i → 0 ≤ c →
  p ↦∗ img ∗ single_owns (owns k) f (pointer_of sl img) ⊢ wp decode_single i c (field_post (k := k) p sl img0 i).
Proof using All.
  intros Hl Hd Hact Hh Hs Hz Hi Hb Hc. pose proof (slot_fits id j sl Hj) as Hok. pose proof (ok_value id sl Hok) as Hv. pose proof (value_size f Hv) as Hvs. pose proof (ok_data_size id sl Hok) as Hds.
  iIntros "[H Ho]". iDestruct (single_range with "Ho") as "[%Hr Ho]". iDestruct (single_loose with "Ho") as "(%old & %Hz2 & %Hsz & Ho)"; [done|].
  iDestruct (pointer_cell with "H") as "[H Hcl]"; [done|]. unfold decode_single. iApply wp_bind. iApply (wp_allocate with "[$H $Ho]"); [done|lia|lia|done|]. iSplit.
  - iIntros (i' H1 H2) "[H Ho]". iDestruct ("Hcl" with "H") as "(%img' & %Hch & %Hq' & H)".
    iApply (pointer_post (pointer_of sl img) img0 img img'); [by apply took_none|done..|]. iFrame. by iApply (loose_single (later i i')).
  - iIntros (q bs Hb' _) "[H [Ho Hh]]". rw Z.mul_1_l in Hb'. destruct Hb' as (Hq & Hbs & Hbn). iApply wp_bind. iApply (wp_load_cell with "H"). iIntros "H".
    iApply (wp_seq with "[Ho]").
    { iApply (wp_initialize q i c Hv ltac:(congruence) ltac:(lia)). rw -Hbs. iApply (object_intro with "Ho"). }
    iIntros "(%bs1 & %Hbs1 & %Hown & Ho)". iApply wp_bind. iApply (wp_load_cell with "H"). iIntros "H". iApply (wp_wand with "[Ho]").
    { iApply (wp_func f q bs1 i c Hv ltac:(congruence) ltac:(lia) Hbs1 Hi Hb). iFrame. unfold sub_needs. rw decide_False //. unfold item_owns in Hown. rw Hs in Hown. iApply Hown. }
    iIntros (r i' c') "(%Ht & %Hc' & %bs2 & %Hbs2 & Ho & Hw)". subst c'. iDestruct ("Hcl" with "H") as "(%img' & %Hch & %Hq' & H)".
    iApply (pointer_post q img0 img img'); [done..|]. iFrame "H". iApply (single_owns_block _ f q bs2); [done|split; [lia|done]|]. iFrame "Hw". unfold is_block. rw Hbs Hbs2. iFrame.
Qed.

(** The whole of a field that holds one object. *)
Definition drop_old : M unit :=
  if decide (ltype_of sl = PB_LTYPE_SUBMESSAGE) then
    q ← load_pointer (p + sl_data sl);
    if negb (q =? 0) then pb_release_single_field stack it else mret tt
  else mret tt.
Definition dropped (img : bytes) : heapPropI :=
  (∃ img1 (_ : differs_at sl img img1) (_ : ltype_of sl = PB_LTYPE_SUBMESSAGE → pointer_of sl img1 = 0), p ↦∗ img1 ∗ single_owns (owns k) f (pointer_of sl img1))%I.
Lemma ready_single img : htype sl ≠ PB_HTYPE_REPEATED → ready (k := k) sl img ⊢ single_owns (owns k) f (pointer_of sl img).
Proof using Ha.
  intros Hh. unfold ready. destruct (active sl img) eqn:E; [by rw pointer_owns|]. iIntros "[%Hz H]". rw Hz //.
Qed.
Lemma wp_drop_old img (i : pb_istream Y) c : zlen img = struct_size id → htype sl ≠ PB_HTYPE_REPEATED →
  p ↦∗ img ∗ ready (k := k) sl img ⊢ wp drop_old i c (returns (dropped img) i c).
Proof using All.
  intros Hl Hh. iIntros "[H Ho]". unfold drop_old. case_decide as Ht.
  - iApply wp_bind. iApply (wp_load_ptr id p j sl Hj with "H"); [done|done|]. iIntros "H". destruct (Z.eqb_spec (pointer_of sl img) 0) as [Hz|Hz]; cbn [negb].
    + iApply wp_ret. iApply returns_intro. iExists img, (differs_refl sl img), (λ _, Hz). iFrame "H". by iApply ready_single.
    + unfold ready. destruct (active sl img) eqn:E; [|iDestruct "Ho" as "[%Hn Ho]"; by specialize (Hn Ha)].
      iApply (wp_returns with "[H Ho]"); [iApply (wp_release_single id p j sl Hj Hp img i c Hl); iFrame|]. iIntros "(%img1 & %Hr & H)". iApply returns_intro.
      destruct Hr as (Hd & Hc & Hown & Hnull & _). assert (active sl img1 = true) as Hact by (by rw (active_count sl img img1 Hc)).
      iExists img1, Hd, (λ _, Hnull Ha E). iFrame "H". rw (pointer_owns most_items img1) // in Hown. iApply Hown.
  - iApply wp_ret. iApply returns_intro. assert (ltype_of sl = PB_LTYPE_SUBMESSAGE → pointer_of sl img = 0) as Hz by done.
    iExists img, (differs_refl sl img), Hz. iFrame "H". by iApply ready_single.
Qed.
Lemma wp_pointer_single w img i c : zlen img = struct_size id → htype sl ≠ PB_HTYPE_REPEATED → stream_ok i → in_budget i → 0 ≤ c →
  p ↦∗ img ∗ ready (k := k) sl img ⊢ wp (decode_pointer_field stack decode decode_noinit w it) i c (field_post (k := k) p sl img i).
Proof using All.
  intros Hl Hh Hi Hb Hc. iIntros "H".
  iAssert (wp (_ ← drop_old; _ ← (if decide (htype sl = PB_HTYPE_ONEOF) then store_size (In_message (p + sl_size sl)) (tag f) else mret tt);
    if is_string_or_bytes f then func decode decode_noinit f (p + sl_data sl) else decode_single) i c (field_post (k := k) p sl img i)) with "[H]" as "H".
  { iApply (wp_seq with "[H]"); [by iApply wp_drop_old|]. iIntros "(%img1 & %Hd1 & %Hz1 & H & Ho)". assert (zlen img1 = struct_size id) as Hl1 by (destruct Hd1; congruence).
    assert (∀ img2, zlen img2 = struct_size id → differs_at sl img img2 → active sl img2 = true → pointer_of sl img2 = pointer_of sl img1 →
      p ↦∗ img2 ∗ single_owns (owns k) f (pointer_of sl img1) ⊢ wp (if is_string_or_bytes f then func decode decode_noinit f (p + sl_data sl) else decode_single) i c (field_post (k := k) p sl img i)) as Hlast.
    { intros img2 Hl2 Hd2 Hact2 Heq. rw -Heq. destruct (is_string_or_bytes f) eqn:Hf; [by apply wp_single_string|]. apply wp_decode_single; try done.
      intros Ht. rw Heq. by apply Hz1. }
    iApply wp_bind. destruct (decide (htype sl = PB_HTYPE_ONEOF)) as [Ho|Ho].
    - iApply (wp_store_which id p j sl Hj with "H"); [done|done|done|]. iIntros (img2 Hd2 Hs2 Hact2) "H".
      iApply (Hlast img2); [destruct Hd2; congruence|by eapply differs_trans|done| |iFrame].
      unfold pointer_of. rw data_bytes_pointer // in Hs2. by rw Hs2.
    - iApply wp_ret. iApply (Hlast img1); [done|done|by apply active_single|done|iFrame]. }
  unfold decode_pointer_field. rw (field_at_slot id p j sl Hj). by destruct (htype sl).
Qed.


(** ** Arrays behind pointers *)

Section Array.
Hypothesis Hh : htype sl = PB_HTYPE_REPEATED.
Definition item_at (b : Z) (q : Z) : heapPropI := (∃ bs (_ : zlen bs = data_size f), q ↦∗ bs ∗ item_owns (owns (most_items := b) k) f bs)%I.
Lemma array_strings : is_string_or_bytes f = true → data_size f = sizeof_ptr.
Proof using Hj Ha Hh fit.
  intros Hf. apply (ok_strings id sl (slot_fits id j sl Hj) Ha); [done|]. apply bool_decide_eq_true in Hf. tauto.
Qed.
Lemma wp_item q i c : 0 < q → stream_ok i → in_budget i → fresh_at f q ⊢ wp (func decode decode_noinit f q) i c (λ r i' c', value_post (item_at (later i i') q) i c r i' c').
Proof using All.
  intros Hq Hi Hb. pose proof (ok_value id sl (slot_fits id j sl Hj)) as Hv. iIntros "(%bs & %Hbs & %Ho & H)". unfold item_owns in Ho. destruct (is_string_or_bytes f) eqn:Hf.
  - pose proof (array_strings Hf) as Hd. iPoseProof Ho as "Hn". iDestruct (single_range with "Hn") as "[%Hr Ho]".
    iApply (wp_wand with "[H Ho]").
    { iApply (wp_func_string f q i c Ha Hf Hi). iApply (string_cell_intro _ f q (le_val bs) Hr). iFrame "Ho". rw Hd in Hbs. by iExists bs, Hbs, eq_refl. }
    iIntros (r i' c') "(%Ht & %Hc & %w & %Hw & (%bs' & %Hbs' & %Hw' & H) & Hs)". iExists Ht, Hc. rw -Hd in Hbs'. iExists bs', Hbs'. iFrame "H". unfold item_owns. rw Hf Hw'.
    iApply (single_owns_more most_items (later i i') with "Hs"). by eapply most_later.
  - iApply (wp_wand with "[H]").
    { iApply (wp_func f q bs i c Hv ltac:(congruence) Hq Hbs Hi Hb). iFrame. unfold sub_needs. rw decide_True //. }
    iIntros (r i' c'). iApply post_mono. iIntros "(%bs' & %Hbs' & H & Ho)". iExists bs', Hbs'. iFrame "H". unfold item_owns. by rw Hf.
Qed.
Lemma wp_grow b img n m m' (i : pb_istream Y) c Φ : zlen img = struct_size id → stream_ok i → 0 ≤ n ≤ m → n ≤ b → n ≤ m' < 2 ^ 64 → 0 ≤ pointer_of sl img < 2 ^ 64 →
  p ↦∗ img ∗ array_room b f (pointer_of sl img) n m -∗
  (∀ i' img' (_ : stream_ok i') (_ : bytes_left i' ≤ bytes_left i) (_ : data_changed sl img img'), p ↦∗ img' ∗ array_room b f (pointer_of sl img') n m -∗ Φ None i' c) ∧
    (∀ img' (_ : data_changed sl img img') (_ : 0 < pointer_of sl img' < 2 ^ 64), p ↦∗ img' ∗ array_room b f (pointer_of sl img') n m' -∗ Φ (Some tt) i c) -∗
  wp (allocate_field (p + sl_data sl) (data_size f) m') i c Φ.
Proof using All.
  intros Hl Hi Hn Hnb Hm Hr. pose proof (slot_fits id j sl Hj) as Hok. pose proof (value_size f (ok_value id sl Hok)) as Hvs. pose proof (ok_data_size id sl Hok) as Hds.
  iIntros "[H (%old & %H1 & %H2 & %H3 & Ho & Hit)] HΦ". iDestruct (pointer_cell with "H") as "[H Hcl]"; [done|].
  iApply (wp_allocate with "[$H $Ho]"); [done|lia|lia|done|]. iSplit.
  - iIntros (i' H4 H5) "[H Ho]". iDestruct ("Hcl" with "H") as "(%img' & %Hch & %Hq & H)". iDestruct "HΦ" as "[HΦ _]". iApply ("HΦ" $! i' img' H4 H5 Hch). iFrame "H". rw Hq.
    iExists old, H1, H2, H3. iFrame.
  - iIntros (q bs Hb Hkept) "[H Hbs]". destruct Hb as (Hq & Hbl & Hbn). iDestruct ("Hcl" with "H") as "(%img' & %Hch & %Hq' & H)". iDestruct "HΦ" as "[_ HΦ]".
    assert (0 < pointer_of sl img' < 2 ^ 64) as Hq2 by (by rw Hq'). iApply ("HΦ" $! img' Hch Hq2). iFrame "H". rw Hq'.
    assert (0 ≤ n ≤ m') as G1 by lia. assert (m' * data_size f ≤ zlen bs) as G2 by lia. assert (q ≠ 0 → 0 < zlen bs ∧ n ≤ b) as G3 by lia. iExists bs, G1, G2, G3.
    assert (items f n bs = items f n old) as ->.
    { assert (0 ≤ n * data_size f) as Z0 by nia. assert (n * data_size f ≤ zlen old) as Z1 by nia. assert (n * data_size f ≤ m' * data_size f) as Z2 by nia.
      apply items_same; [lia|lia|]. unfold kept_bytes in Hkept. set (w := Z.min (zlen old) (m' * data_size f)) in *.
      assert (n * data_size f ≤ w) as Z3 by lia. pose proof (slice_slice 0 w 0 (n * data_size f) bs ltac:(lia) ltac:(lia) ltac:(lia)) as E1.
      pose proof (slice_slice 0 w 0 (n * data_size f) old ltac:(lia) ltac:(lia) ltac:(lia)) as E2. rw Z.add_0_r in E1 E2. by rw -E1 -E2 Hkept. }
    iFrame "Hit". unfold old_block. rw (proj2 (Z.eqb_neq q 0)); [|lia]. assert (0 < q < 2 ^ 64) as Hq3 by done. by iExists Hq3.
Qed.

Lemma array_post img0 img' (i : pb_istream Y) r i' c' : took i i' (succeeded r) → 0 ≤ c' → differs_at sl img0 img' →
  p ↦∗ img' ∗ array_of (after i i') f (pointer_of sl img') (count_of sl img') ⊢ field_post (k := k) p sl img0 i r i' c'.
Proof using Ha Hh.
  intros H1 H2 H3. rw -(field_post_intro p sl img0 img'); [|done|done|done|apply active_single; by rw Hh]. by rw pointer_array_owns.
Qed.
Lemma array_range b q n : 0 ≤ b → array_of b f q n ⊢ ∃ (_ : 0 ≤ q < 2 ^ 64) (_ : 0 ≤ n ≤ b), array_of b f q n.
Proof.
  intros Hb. unfold array_of, array_owns. destruct (Z.eqb_spec q 0) as [->|Hq].
  - assert (0 ≤ 0 < 2 ^ 64) as H0 by lia. iIntros "[%Hn H]". assert (0 ≤ n ≤ b) as H1 by lia. iExists H0, H1, Hn. iExact "H".
  - iIntros "(%bs & %H1 & %H2 & H)". assert (0 ≤ q < 2 ^ 64) as H0 by lia. assert (0 ≤ n ≤ b) as H3 by (destruct H2 as [H2 _]; exact H2). iExists H0, H3, bs, H1, H2. iExact "H".
Qed.
Lemma count_range img : 0 ≤ count_of sl img < 2 ^ 32.
Proof. apply Z.mod_pos_bound. lia. Qed.
Lemma array_count_same img img' : data_changed sl img img' → count_of sl img' = count_of sl img.
Proof using Ha Hh. intros [_ Hc]. apply Hc. by apply count_bytes_pointer_array. Qed.
Lemma offset_exact n : 0 ≤ n ≤ limit → item_offset f n = n * data_size f.
Proof using Hj Ha Hh fit arrays.
  intros Hn. pose proof (arrays_fit id j sl Hj Ha Hh) as Hb. pose proof (value_size f (ok_value id sl (slot_fits id j sl Hj))) as Hvs. unfold item_offset. rw Z.mul_comm. apply wrap_small. split; nia.
Qed.
Lemma wp_append_one img i c : zlen img = struct_size id → stream_ok i → in_budget i → 0 ≤ c →
  p ↦∗ img ∗ array_of most_items f (pointer_of sl img) (count_of sl img) ⊢
  wp (size ← load_size (In_message (p + sl_size sl));
      if size =? PB_SIZE_MAX then error "too many array entries"
      else
        _ ← allocate_field (p + sl_data sl) (data_size f) (u32 (size + 1));
        array ← load_pointer (p + sl_data sl);
        _ ← store_size (In_message (p + sl_size sl)) (u32 (size + 1));
        _ ← initialize_pointer_field stack (array + item_offset f size) it;
        func decode decode_noinit f (array + item_offset f size)) i c (field_post (k := k) p sl img i).
Proof using All.
  intros Hl Hi Hb Hc. pose proof (slot_fits id j sl Hj) as Hok. pose proof (ok_value id sl Hok) as Hv. pose proof (value_size f Hv) as Hvs.
  destruct Hb as [Hb Hlim]. pose proof most_nonneg as Hm. unfold most in Hm, Hlim.
  iIntros "[H Ho]". iDestruct (array_range with "Ho") as "(%Hr & %Hn0 & Ho)"; [done|]. pose proof (count_range img) as Hcr. pose proof (count_bytes_pointer_array sl Ha Hh) as Hcb.
  iApply wp_bind. iApply (wp_load_count id p j sl Hj with "H"); [done|done|]. iIntros "H". set (n := count_of sl img) in *. unfold PB_SIZE_MAX.
  destruct (Z.eqb_spec n (2 ^ 32 - 1)) as [Hn|Hn].
  { iApply wp_error; [done|]. iIntros (i2 H4 H5). assert (took i i2 false) as Ht by (by apply took_none). iApply (array_post img img); [done|done|apply differs_refl|]. rw (array_of_more most_items (after i i2)); [iFrame|by eapply most_after]. }
  assert (u32 (n + 1) = n + 1) as -> by (apply wrap_small; split; lia). rw array_owns_room. iApply wp_bind.
  iApply (wp_grow most_items img n n (n + 1) with "[$H $Ho]"); [done|done|lia|lia|lia|done|]. iSplit.
  { iIntros (i' img' H4 H5 Hch) "[H Ho]". rw array_room_owns //. pose proof (array_count_same img img' Hch) as Hcs. destruct Hch as [Hd _].
    assert (took i i' false) as Ht by (by apply took_none). iApply (array_post img img'); [done|done|done|]. rw Hcs (array_of_more most_items (after i i')); [iFrame|by eapply most_after]. }
  iIntros (img1 Hch Hq1) "[H Ho]". pose proof (array_count_same img img1 Hch) as Hcs. destruct Hch as [Hd1 _]. assert (zlen img1 = struct_size id) as Hl1 by (destruct Hd1; congruence).
  iApply wp_bind. iApply (wp_load_ptr id p j sl Hj with "H"); [done|done|]. iIntros "H". set (q := pointer_of sl img1) in *.
  iApply wp_bind. iApply (wp_store_count id p j sl Hj with "H"); [done|done|]. iIntros "H". set (img2 := put _ _ _).
  assert (pointer_of sl img2 = q) as Hp2 by (by apply (pointer_of_count id j sl Hj)). assert (count_of sl img2 = n + 1) as Hc2 by (apply (count_of_put id j sl Hj); [done|done|lia]).
  assert (differs_at sl img img2) as Hd2 by (eapply differs_trans; [done|by apply (differs_count id j sl Hj)]).
  iDestruct (array_room_next with "Ho") as "(%Hq2 & %Hsz & Ho & Hcl)"; [done|lia|]. rw offset_exact; [|destruct Hi; lia].
  assert (0 < q + n * data_size f) as Hpos by nia.
  iApply (wp_seq with "[Ho]"); [by iApply (wp_initialize with "Ho"); [|apply array_strings|]|]. iIntros "Ho".
  iApply (wp_wand with "[Ho]"); [by iApply (wp_item with "Ho")|]. iIntros (r i' c') "(%Ht & %Hc' & %bs & %Hbs & Ho & Hit)". subst c'.
  iDestruct ("Hcl" $! bs Hbs with "Ho") as "[_ Hcl]". rw (item_owns_more (later i i') (after i i')); [|unfold after; lia]. assert (most_items + 1 ≤ after i i') as Hb' by (pose proof (most_later i i' _ Ht); unfold after; lia).
  iDestruct ("Hcl" $! (after i i') Hb' with "Hit") as "Ho". rw array_room_owns //.
  iApply (array_post img img2); [done|done|done|]. rw Hp2 Hc2. iFrame.
Qed.

(** The packed items of an array. *)
Lemma array_room_bounds b q n m : 0 ≤ b → array_room b f q n m ⊢ ∃ (_ : 0 ≤ n ≤ m) (_ : 1 ≤ data_size f → n ≤ b), array_room b f q n m.
Proof.
  intros Hb. iIntros "(%old & %H1 & %H2 & %H3 & Hb & Hi)". unfold old_block. destruct (Z.eqb_spec q 0) as [Hz|Hq].
  - iDestruct "Hb" as "[%He Hb]". assert (1 ≤ data_size f → n ≤ b) as Hr by (subst old; change (zlen (@nil Z)) with 0 in H2; nia). iExists H1, Hr, old, H1, H2, H3.
    iFrame "Hi". unfold old_block. subst q. by iExists He.
  - iExists H1, (λ _, proj2 (H3 Hq)), old, H1, H2, H3. iFrame "Hi". unfold old_block. by rw (proj2 (Z.eqb_neq q 0)).
Qed.
Lemma guess_size_range n left : 1 ≤ data_size f → 1 ≤ left → 0 ≤ n < 2 ^ 32 - 1 → n + 1 ≤ guess_size f left n < 2 ^ 64.
Proof.
  intros Hd Hl Hn. unfold guess_size, PB_SIZE_MAX. assert (0 ≤ (left - 1) / data_size f) by (apply Z.div_pos; lia).
  assert (u64 (2 ^ 32 - 1 - n) = 2 ^ 32 - 1 - n) as -> by (apply wrap_small; split; lia). destruct (Z.ltb_spec ((left - 1) / data_size f + 1) (2 ^ 32 - 1 - n)); [lia|].
  assert (u64 (n + 1) = n + 1) as -> by (apply wrap_small; split; lia). lia.
Qed.
Definition packed_post (img : bytes) (i : pb_istream Y) (c : Z) : option (bool * option string) → pb_istream Y → Z → heapPropI :=
  λ r i' c', (∃ x (_ : r = Some x) (_ : stream_ok i' ∧ bytes_left i' ≤ bytes_left i) (_ : c' = c) img' (_ : differs_at sl img img'),
    p ↦∗ img' ∗ array_of (later i i') f (pointer_of sl img') (count_of sl img'))%I.
Lemma packed_post_intro img img' i c x i' : stream_ok i' → bytes_left i' ≤ bytes_left i → differs_at sl img img' →
  p ↦∗ img' ∗ array_of (later i i') f (pointer_of sl img') (count_of sl img') ⊢ packed_post img i c (Some x) i' c.
Proof. intros H1 H2 H3. iIntros "H". by iExists x, eq_refl, (conj H1 H2), eq_refl, img', H3. Qed.
(** One item, once there is room for it. *)
Definition packed_item (again : Z → M (bool * option string)) (size allocated : Z) : M (bool * option string) :=
  array ← load_pointer (p + sl_data sl);
  if array + item_offset f size =? 0 then mret (false, None)
  else
    _ ← initialize_pointer_field stack (array + item_offset f size) it;
    ok ← run_status (func decode decode_noinit f (array + item_offset f size));
    if negb ok then mret (false, None)
    else
      size ← load_size (In_message (p + sl_size sl));
      _ ← store_size (In_message (p + sl_size sl)) (u32 (size + 1));
      again allocated.
Hypothesis Hpack : packable (ltype_of sl) = true.
Lemma scalar_item b bs : item_owns (owns (most_items := b) k) f bs ⊣⊢ emp.
Proof using Hpack.
  assert (ltype_of sl ≠ PB_LTYPE_SUBMESSAGE) as Ht by (pose proof Hpack as G; intros E; by rw E in G).
  unfold item_owns. assert (is_string_or_bytes f = false) as ->; [|by rw owns_scalar]. apply bool_decide_eq_false. pose proof Hpack as G. intros [E|E]; by rw E in G.
Qed.
Lemma wp_packed_item again m img0 i0 img i c : zlen img = struct_size id → stream_ok i → 1 ≤ bytes_left i ≤ bytes_left i0 → in_budget i → 0 ≤ c → differs_at sl img0 img →
  0 ≤ count_of sl img < m → count_of sl img ≤ later i0 i → in_budget i0 → count_of sl img < 2 ^ 32 - 1 →
  (∀ img' i', zlen img' = struct_size id → stream_ok i' → bytes_left i' ≤ bytes_left i - 1 → differs_at sl img0 img' →
    p ↦∗ img' ∗ array_room (later i0 i') f (pointer_of sl img') (count_of sl img') m ⊢ wp (again m) i' c (packed_post img0 i0 c)) →
  p ↦∗ img ∗ array_room (later i0 i) f (pointer_of sl img) (count_of sl img) m ⊢ wp (packed_item again (count_of sl img) m) i c (packed_post img0 i0 c).
Proof using All.
  intros Hl Hi Hi0 Hb Hc Hd Hn Hnb [Hb0 Hlim] Hn2 Hagain. pose proof (slot_fits id j sl Hj) as Hok. pose proof (ok_value id sl Hok) as Hv. pose proof (value_size f Hv) as Hvs.
  pose proof (count_bytes_pointer_array sl Ha Hh) as Hcb. iIntros "[H Ho]". unfold packed_item. iApply wp_bind. iApply (wp_load_ptr id p j sl Hj with "H"); [done|done|]. iIntros "H".
  set (q := pointer_of sl img) in *. set (n := count_of sl img) in *. iDestruct (array_room_next with "Ho") as "(%Hq & %Hsz & Ho & Hcl)"; [done|lia|]. rw offset_exact; [|unfold later, most in *; lia].
  assert (0 < q + n * data_size f) as Hpos by nia. destruct (Z.eqb_spec (q + n * data_size f) 0) as [|_]; [lia|].
  iApply (wp_seq with "[Ho]"); [by iApply (wp_initialize with "Ho"); [|apply array_strings|]|]. iIntros "Ho".
  iApply wp_bind. iApply wp_status. iApply (wp_wand with "[Ho]"); [by iApply (wp_item with "Ho")|]. iIntros (r i' c') "(%Ht & %Hc' & %bs & %Hbs & Ho & Hit)". subst c'.
  iDestruct ("Hcl" $! bs Hbs with "Ho") as "Hcl". destruct Ht as (Ht1 & Ht2 & Ht3). destruct r as [[]|]; cbn [negb].
  - iDestruct "Hcl" as "[_ Hcl]". specialize (Ht3 eq_refl). assert (later i0 i + 1 ≤ later i0 i') as Hb' by (unfold later; lia). rw !scalar_item. iDestruct ("Hcl" $! (later i0 i') Hb' with "[Hit]") as "Ho"; [by rw scalar_item|].
    iApply wp_bind. iApply (wp_load_count id p j sl Hj with "H"); [done|done|]. iIntros "H". fold n. assert (u32 (n + 1) = n + 1) as -> by (apply wrap_small; split; lia).
    iApply wp_bind. iApply (wp_store_count id p j sl Hj with "H"); [done|done|]. iIntros "H". set (img2 := put _ _ _).
    assert (pointer_of sl img2 = q) as Hp2 by (by apply (pointer_of_count id j sl Hj)). assert (count_of sl img2 = n + 1) as Hc2 by (apply (count_of_put id j sl Hj); [done|done|lia]).
    assert (differs_at sl img img2) as Hd2 by (by apply (differs_count id j sl Hj)).
    iApply (Hagain img2 i'); [destruct Hd2; congruence|done|done|by eapply differs_trans|]. rw Hp2 Hc2. iFrame.
  - rw scalar_item. iDestruct "Hcl" as "[Hcl _]". iApply wp_ret. rw array_room_owns //. assert (later i0 i ≤ later i0 i') as Hle by (unfold later; lia). rw (array_of_more _ _ _ _ _ Hle). iApply (packed_post_intro img0 img); [done|lia|done|iFrame].
Qed.
Lemma wp_pointer_packed_loop fuel : ∀ img0 i0 img m i c, stream_ok i → bytes_left i ≤ bytes_left i0 → in_budget i0 → bytes_left i < Z.of_nat fuel → zlen img = struct_size id → 0 ≤ c →
  differs_at sl img0 img → p ↦∗ img ∗ array_room (later i0 i) f (pointer_of sl img) (count_of sl img) m ⊢
  wp (pointer_packed_loop stack decode decode_noinit fuel it m) i c (packed_post img0 i0 c).
Proof using All.
  pose proof (slot_fits id j sl Hj) as Hok. pose proof (ok_value id sl Hok) as Hv. pose proof (value_size f Hv) as Hvs. pose proof (count_bytes_pointer_array sl Ha Hh) as Hcb.
  induction fuel as [|fuel IH]; intros img0 i0 img m i c Hi Hi0 Hb Hf Hl Hc Hd; [destruct Hi; lia|]. cbn [pointer_packed_loop]. iIntros "[H Ho]". rw (field_at_slot id p j sl Hj).
  assert (in_budget i) as Hbi by (by apply (in_budget_le i0)). assert (0 ≤ later i0 i) as Hlat by (pose proof most_nonneg as Hz; unfold later; lia).
  iDestruct (array_room_bounds with "Ho") as "(%Hm1 & %Hm2 & Ho)"; [done|]. specialize (Hm2 Hvs).
  iApply wp_get. iIntros (s). cbn [input pSize pData at_slot]. destruct (Z.eqb_spec (bytes_left i) 0) as [Hz|Hz].
  { iApply wp_ret. rw array_room_owns //. iApply (packed_post_intro img0 img); [done|done|done|iFrame]. }
  iApply wp_bind. iApply (wp_load_count id p j sl Hj with "H"); [done|done|]. iIntros "H". pose proof (count_range img) as Hcr. set (n := count_of sl img) in *.
  unfold PB_SIZE_MAX. destruct (Z.eqb_spec n (2 ^ 32 - 1)) as [Hn|Hn].
  { iApply wp_ret. rw array_room_owns //. iApply (packed_post_intro img0 img); [done|done|done|iFrame]. }
  rw (proj2 (Z.eqb_neq (data_size f) 0)); [|lia]. rw andb_false_r. iApply wp_bind. destruct (Z.ltb_spec m (n + 1)) as [Hg|Hg].
  - assert (m = n) as Hmn by lia. subst m. pose proof (guess_size_range n (bytes_left i) Hvs ltac:(destruct Hi; lia) ltac:(lia)) as Hgs. set (m := guess_size f (bytes_left i) n) in *.
    iDestruct (array_room_owns with "Ho") as "Ho"; [done|]. iDestruct (array_range with "Ho") as "(%Hr & %Hn0 & Ho)"; [done|]. rw array_owns_room.
    iApply wp_status. iApply (wp_grow (later i0 i) img n n m with "[$H $Ho]"); [done|done|lia|lia|lia|done|]. iSplit.
    + iIntros (i' img' H4 H5 Hch) "[H Ho]". cbn [negb]. iApply wp_ret. rw array_room_owns //. pose proof (array_count_same img img' Hch) as Hcs. destruct Hch as [Hd1 _].
      iApply (packed_post_intro img0 img'); [done|lia|by eapply differs_trans|]. rw Hcs (array_of_more (later i0 i) (later i0 i')); [iFrame|unfold later; lia].
    + iIntros (img1 Hch Hq1) "[H Ho]". cbn [negb]. pose proof (array_count_same img img1 Hch) as Hcs. destruct Hch as [Hd1 _]. fold n in Hcs. rw -Hcs.
      iApply (wp_packed_item (pointer_packed_loop stack decode decode_noinit fuel it) m img0 i0 img1); [destruct Hd1; congruence|done|destruct Hi; lia|done|done|by eapply differs_trans|lia|lia|done|lia| |iFrame].
      intros img' i' G1 G2 G3 G4. apply IH; [done|lia|done|lia|done|done|done].
  - iApply wp_ret. cbn [negb]. iApply (wp_packed_item (pointer_packed_loop stack decode decode_noinit fuel it) m img0 i0 img); [done|done|destruct Hi; lia|done|done|done|lia|lia|done|lia| |iFrame].
    intros img' i' G1 G2 G3 G4. apply IH; [done|lia|done|lia|done|done|done].
Qed.
Lemma wp_decode_pointer_packed img i c : zlen img = struct_size id → stream_ok i → in_budget i → 0 ≤ c →
  p ↦∗ img ∗ array_of most_items f (pointer_of sl img) (count_of sl img) ⊢ wp (decode_pointer_packed stack decode decode_noinit it) i c (field_post (k := k) p sl img i).
Proof using All.
  intros Hl Hi Hb Hc. pose proof (count_bytes_pointer_array sl Ha Hh) as Hcb. iIntros "[H Ho]". unfold decode_pointer_packed. cbn [pSize at_slot].
  iApply wp_bind. iApply (wp_load_count id p j sl Hj with "H"); [done|done|]. iIntros "H". iApply (wp_make_substream _ i); [done|]. iSplit.
  { iIntros (i' Hi'). iApply (array_post img img); [done|done|apply differs_refl|]. rw (array_of_more most_items (after i i')); [iFrame|by eapply most_after]. }
  iIntros (s i' H1 H2 H3). iApply wp_bind. iApply wp_substream. pose proof H1 as [_ H1']. pose proof H3 as [_ H3'].
  iApply (wp_wand with "[H Ho]").
  { iApply (wp_pointer_packed_loop _ img s img _ s c); [done|lia|apply (in_budget_le i); [done|lia]|lia|done|done|apply differs_refl|].
    assert (later s s = most_items) as -> by (unfold later, most; lia). rw array_owns_room. iFrame. }
  iIntros (r s' c') "(%x & %Hx & %Hs & %Hc' & %img' & %Hd & H)". subst r c'. destruct x as [ok msg], Hs as [Hs1 Hs2].
  assert (∀ i2 b, stream_ok i2 → bytes_left i2 ≤ bytes_left i' → took i i2 b) as Htook by (intros i2 b Hok Hle; split; [done|split; lia]).
  iAssert (wp (if msg is Some m then set_error_message m else mret tt) i' c (λ r i2 c2, ∃ (_ : r = Some tt ∧ c2 = c) (_ : stream_ok i2 ∧ bytes_left i2 = bytes_left i'), emp))%I as "Hm".
  { destruct msg; [unfold set_error_message; iApply wp_input; cbn|iApply wp_ret]; by iExists (conj eq_refl eq_refl), (conj H3 eq_refl). }
  iApply wp_bind. iApply (wp_wand with "Hm"). iIntros (r i2 c2) "(%Hr & %Hi2 & Hx)". iClear "Hx". destruct Hr as [-> ->], Hi2 as [Hi2 Hl2].
  iApply wp_close_substream; [done|done|]. iIntros (i3 H4 H5).
  rw (array_of_more (later s s') (after i i3)); [|destruct Hs1; unfold after, later; lia].
  iSplit; [|destruct ok; [iApply wp_ret|iApply wp_fail]]; (iApply (array_post img img'); [apply Htook; [done|lia]|done|done|iFrame]).
Qed.
End Array.
Lemma wp_pointer_array w img i c : htype sl = PB_HTYPE_REPEATED → zlen img = struct_size id → stream_ok i → in_budget i → 0 ≤ c →
  p ↦∗ img ∗ field_owns (owns k) sl img ⊢ wp (decode_pointer_field stack decode decode_noinit w it) i c (field_post (k := k) p sl img i).
Proof using All.
  intros Hh Hl Hi Hb Hc. rw pointer_array_owns //. unfold decode_pointer_field. rw (field_at_slot id p j sl Hj) Hh. cbn [pData pSize at_slot].
  pose proof (wp_append_one Hh img i c Hl Hi Hb Hc) as Hone. destruct w; try exact Hone. destruct (packable _) eqn:E; [|exact Hone]. by apply wp_decode_pointer_packed.
Qed.
End Field.

End Pointers.
