(* ===== verification/PbMessages.v ===== *)
(** * Decoding messages is memory safe

    For any input, any allocator and any tables that [PbLayout.TablesFit] admits, as long as the bytes
    of the input are too few for an array whose offsets do not fit in 32 bits: [pb_decode] never does
    anything undefined, and returns; what it allocated belongs to the message when it succeeds and has
    been freed when it fails. *)
From iris.proofmode Require Import proofmode.
From stdpp Require Import gmap.
From S2P Require Export PbPointers.

Section Messages.
Context {Y : Type} {source : Source Y} {source_safe : SourceSafe Y} {tables : Tables} {layout : Layout} {fit : TablesFit} {extensions : Extensions}.
Context {callbacks : Callbacks} {alloc : Allocator} {alloc_ok : AllocatorOk} {the_limit : Limit} {arrays : ArraysFit}.
Abbreviation M := (run (machine Y)).

Section Message.
Context {stack : nat} {decode decode_noinit : pb_fields → Z → M unit} {k : nat} {budget : Z} {decoders : DecodersOk stack decode decode_noinit k budget}.
Context (id p : Z).
Hypothesis Hp : 0 < p.
Abbreviation L := (slots (fields_of id)).
(** A message with arrays of [b] items at most. *)
Definition all_at (b : Z) : bytes → heapPropI := all_owns (most_items := b) id (owns (most_items := b) k).
Lemma all_at_more b b' img : b ≤ b' → all_at b img ⊢ all_at b' img.
Proof. intros Hb. apply big_sepL_mono. intros j sl _. by apply field_owns_more. Qed.

Section Most.
Context {most_items : Most} {most_ok : MostOk}.
Abbreviation in_budget := (PbFields.in_budget (budget := budget)).
Abbreviation all_of := (all_owns id (owns k)).
Abbreviation others_of := (others id (owns k)).

(** ** Unions *)

Section Union.
Context (j : nat) (sl : slot).
Hypothesis Hj : L !! j = Some sl.
Abbreviation it := (at_slot (fields_of id) p j sl).
Lemma vacant_by_count img : htype sl = PB_HTYPE_ONEOF → (∀ m b, L !! m = Some b → partner id j m = true → tag (sl_field b) ≠ count_of sl img) → vacant id j img.
Proof using Hj fit.
  intros Hh Hno m b Hm Hpa. unfold active. destruct (partner_inv id j m sl b Hj Hm Hpa) as [<-|(H1 & H2 & H3 & _)].
  - simplify_eq. rw decide_True //. apply Z.eqb_neq. pose proof (Hno j sl Hj Hpa). congruence.
  - rw decide_True //. apply Z.eqb_neq. pose proof (Hno m b Hm Hpa). unfold count_of in *. rw -H3. congruence.
Qed.
Lemma group_unset img : vacant id j img → group id (owns k) j img ⊢ ∃ _ : unset sl img, emp.
Proof using Hj.
  intros Hv. unfold group. rw (big_sepL_delete _ L j sl); [|exact Hj]. rw partner_refl field_owns_inactive; [|by apply (Hv j); [|apply partner_refl]].
  iIntros "[[%Hu He] H]". iClear "He". iExists Hu. iStopProof. trans ([∗ list] _ ∈ L, emp : heapPropI)%I; [|by rw big_sepL_emp]. apply big_sepL_mono. intros m b Hm.
  case_decide; [done|]. destruct (partner id j m) eqn:Hpa; [|done]. rw field_owns_inactive; [apply nothing_drop|]. by apply (Hv m).
Qed.
(** One field of several, and the others. *)
Lemma others_take m b img : L !! m = Some b → partner id j m = false →
  others_of j img ⊣⊢ field_owns (owns k) b img ∗ [∗ list] n ↦ x ∈ L, if decide (n = m) then emp else if partner id j n then emp else field_owns (owns k) x img.
Proof. intros Hm Hpa. unfold others. rw (big_sepL_delete _ L m b); [|exact Hm]. by rw Hpa. Qed.
Lemma others_release m b img img' : L !! m = Some b → partner id j m = false → released b k img img' →
  ([∗ list] n ↦ x ∈ L, if decide (n = m) then emp else if partner id j n then emp else field_owns (owns k) x img) ⊢ others_of j img'.
Proof using fit.
  intros Hm Hpa Hr. rw (others_take m b img' Hm Hpa). iIntros "H". pose proof Hr as (_ & _ & Hown & _). iSplitR; [iApply Hown|]. iApply (big_sepL_mono with "H"). intros n x Hn.
  case_decide as Hnm; [done|]. destruct (partner id j n); [done|]. by rw (released_other id k m n b x img img' Hm Hn ltac:(done) Hr).
Qed.
Definition union_post (i : pb_istream Y) (c : Z) : option pb_field_iter → pb_istream Y → Z → heapPropI := λ r i' c',
  (∃ (_ : stream_ok i' ∧ bytes_left i' ≤ bytes_left i ∧ c' = c) img (_ : zlen img = struct_size id),
    match r with
    | Some it' => ∃ _ : it' = it ∧ i' = i, p ↦∗ img ∗ others_of j img ∗ ready (k := k) sl img
    | None => p ↦∗ img ∗ all_of img
    end)%I.
Lemma union_found img i c : zlen img = struct_size id → stream_ok i → p ↦∗ img ∗ others_of j img ∗ ready (k := k) sl img ⊢ union_post i c (Some it) i c.
Proof. intros Hl Hi. assert (stream_ok i ∧ bytes_left i ≤ bytes_left i ∧ c = c) as H1 by (split_and!; [done|lia|done]). iIntros "H". by iExists H1, img, Hl, (conj eq_refl eq_refl). Qed.
Lemma union_failed img i i' c : zlen img = struct_size id → stream_ok i' → bytes_left i' ≤ bytes_left i → p ↦∗ img ∗ all_of img ⊢ union_post i c None i' c.
Proof. intros Hl Hi Hi'. assert (stream_ok i' ∧ bytes_left i' ≤ bytes_left i ∧ c = c) as H1 by done. iIntros "H". by iExists H1, img, Hl. Qed.
(** The union is released; the pointer of the new member is set to null. *)
Lemma wp_clear_member img i c : zlen img = struct_size id → stream_ok i → htype sl = PB_HTYPE_ONEOF → active sl img = false →
  p ↦∗ img ∗ others_of j img ⊢ wp (_ ← (if decide (atype sl = PB_ATYPE_POINTER) then store_pointer (p + sl_data sl) 0 else mret tt); mret it) i c (union_post i c).
Proof using Hj fit.
  intros Hl Hi Hh Hact. iIntros "[H Ho]". iApply wp_bind. destruct (decide (atype sl = PB_ATYPE_POINTER)) as [Ha|Ha].
  - iApply (wp_store_ptr id p j sl Hj with "H"); [done|done|]. iIntros "H". set (img' := put _ _ _). iApply wp_ret.
    pose proof (differs_pointer id j sl Hj img 0 Hl Ha) as Hd. assert (data_changed sl img img') as Hch.
    { apply (data_changed_put id j sl Hj); [done|]. rw zlen_le_bytes data_bytes_pointer //. }
    iApply (union_found img'); [destruct Hd as [E _]; rw -Hl; exact E|done|]. iFrame "H". rw (others_differs id _ j sl img img') //. iFrame "Ho".
    unfold ready. rw (changed_active sl img img' Hch) Hact. assert (atype sl = PB_ATYPE_POINTER → pointer_of sl img' = 0) as Hz by (intros _; by apply (pointer_of_put id j sl Hj)).
    by iExists Hz.
  - iApply wp_ret. iApply wp_ret. iApply (union_found img); [done|done|]. iFrame. unfold ready. rw Hact.
    assert (atype sl = PB_ATYPE_POINTER → pointer_of sl img = 0) as Hz by done. by iExists Hz.
Qed.

(** The field whose tag the union holds, wherever it is. *)
Lemma wp_release_other m b img (i : pb_istream Y) c : htype sl = PB_HTYPE_ONEOF → L !! m = Some b → tag (sl_field b) = count_of sl img → active sl img = false → zlen img = struct_size id →
  p ↦∗ img ∗ all_of img ⊢ wp (pb_release_single_field stack (at_slot (fields_of id) p m b)) i c
    (returns (∃ img' (_ : zlen img' = struct_size id) (_ : active sl img' = false), p ↦∗ img' ∗ others_of j img') i c).
Proof using All.
  intros Hh Hm Ht Hact Hl. assert (m ≠ j) as Hmj. { intros ->. simplify_eq. unfold active in Hact. rw decide_True // Ht Z.eqb_refl // in Hact. }
  assert (∀ img', released b k img img' → p ↦∗ img' ∗ others_of j img' ⊢
    ∃ img' (_ : zlen img' = struct_size id) (_ : active sl img' = false), p ↦∗ img' ∗ others_of j img') as Hend.
  { intros img' Hr. assert (zlen img' = struct_size id) as Hl' by (destruct Hr as [[E _] _]; congruence).
    assert (active sl img' = false) as Hact'.
    { assert (count_of sl img' = count_of sl img) as Hc; [|unfold active in *; rw decide_True // in Hact; by rw decide_True // Hc].
      destruct (fits_apart id (fit id) m j b sl Hm Hj Hmj) as [Hap|(H1 & H2 & H3 & _)].
      - apply slots_apart_sym in Hap. destruct Hr as [Hd _]. by apply (oneof_differs id j b sl img img').
      - destruct Hr as (_ & Hc & _). specialize (Hc H1). unfold count_of in *. by rw -H3. }
    iIntros "H". by iExists img', Hl', Hact'. }
  iIntros "[H Ho]". rw (all_owns_split id (owns k) j img). iDestruct "Ho" as "[Hg Ho]". destruct (partner id j m) eqn:Hpa.
  - destruct (partner_inv id j m sl b Hj Hm Hpa) as [|(H1 & H2 & H3 & H4 & _)]; [congruence|].
    assert (active b img = true) as Hb by (unfold active; rw decide_True //; apply Z.eqb_eq; unfold count_of in *; by rw -H3).
    rw (group_partner id _ j m img Hpa) (group_active id _ m b img Hm Hb).
    iApply (wp_returns with "[H Hg]"); [iApply (wp_release_single id p m b Hm Hp img i c Hl); iFrame|]. iIntros "(%img' & %Hr & H)". iApply returns_intro.
    iApply (Hend img' Hr). iFrame "H". rw !(others_partner id _ j m _ Hpa). destruct Hr as [Hd _]. by rw (others_differs id _ m b img img' Hm Hd).
  - rw group_vacant; [|apply vacant_by_count; [done|]]. 2: { intros n x Hn Hpn Hx. assert (n = m) as ->; [|congruence]. apply (slot_by_tag id n m x b Hn Hm). congruence. }
    iClear "Hg". rw (others_take m b img Hm Hpa). iDestruct "Ho" as "[Ho Hos]".
    iApply (wp_returns with "[H Ho]"); [iApply (wp_release_single id p m b Hm Hp img i c Hl); iFrame|]. iIntros "(%img' & %Hr & H)". iApply returns_intro.
    iApply (Hend img' Hr). iFrame "H". by iApply (others_release with "Hos").
Qed.

Lemma wp_union img i c : zlen img = struct_size id → stream_ok i → htype sl = PB_HTYPE_ONEOF →
  p ↦∗ img ∗ all_of img ⊢ wp (pb_release_union_field stack it) i c (union_post i c).
Proof using All.
  intros Hl Hi Hh. iIntros "[H Ho]". pose proof (count_bytes_oneof sl Hh) as Hcb. pose proof (ok_tag id sl (slot_fits id j sl Hj)) as Htag. unfold pb_release_union_field.
  cbn [pSize at_slot]. iApply wp_bind. iApply (wp_load_count id p j sl Hj with "H"); [done|done|]. iIntros "H". rw (field_at_slot id p j sl Hj).
  assert (active sl img = (count_of sl img =? tag (sl_field sl))) as Hact by (unfold active; by rw decide_True).
  destruct (Z.eqb_spec (count_of sl img) 0) as [Hz|Hz]; [|destruct (Z.eqb_spec (count_of sl img) (tag (sl_field sl))) as [He|He]]; cbn [orb].
  - iApply wp_ret. iApply (union_found img); [done|done|]. iFrame "H". rw (all_owns_split id (owns k) j img). iDestruct "Ho" as "[Hg Ho]". iFrame "Ho".
    rw group_unset; [|apply vacant_by_count; [done|]]. 2: { intros m b Hm _. pose proof (ok_tag id b (slot_fits id m b Hm)). lia. }
    iDestruct "Hg" as "[%Hu Hg]". iClear "Hg". unfold ready. rw Hact Hz (proj2 (Z.eqb_neq 0 _)); [|lia].
    assert (atype sl = PB_ATYPE_POINTER → pointer_of sl img = 0) as Hp0 by (intros Ha; unfold unset in Hu; rw Ha in Hu; by apply Hu). by iExists Hp0.
  - iApply wp_ret. iApply (union_found img); [done|done|]. iFrame "H". rw (all_owns_split id (owns k) j img) (group_active id _ j sl img Hj) //. iDestruct "Ho" as "[Hg Ho]". iFrame "Ho".
    unfold ready. by rw Hact.
  - destruct (find_exact id p j sl (count_of sl img) Hp Hj) as [(m & b & Hm & Ht & ->)|[_ ->]]; cbn [negb].
    + iApply (wp_seq with "[H Ho]"); [iApply (wp_release_other m b img); [done..|iFrame]|]. iIntros "(%img1 & %Hl1 & %Hact1 & H & Ho)".
      destruct (find_exact id p m b (tag (sl_field sl)) Hp Hm) as [(n & b2 & Hn & Htn & ->)|[Hno _]]; [|by destruct (Hno j sl Hj)]. cbn [negb].
      pose proof (slot_by_tag id n j b2 sl Hn Hj Htn) as ->. simplify_eq. rw (field_at_slot id p j sl Hj). cbn [pData at_slot].
      iApply (wp_clear_member img1); [done..|iFrame].
    + iApply wp_error; [done|]. iIntros (i' H1 H2). iApply (union_failed img); [done..|iFrame].
Qed.
End Union.


(** ** Fields of a message *)

Definition placed (sl : slot) (place : size_place) : Prop :=
  if decide (atype sl = PB_ATYPE_STATIC ∧ htype sl = PB_HTYPE_REPEATED) then place_ok p sl place else place = In_message (p + sl_size sl).
(** What a step of the decoder leaves: a message, and the result [it] if it succeeds. *)
Definition step_post (ok : pb_field_iter → Prop) (i : pb_istream Y) : option pb_field_iter → pb_istream Y → Z → heapPropI := λ r i' c',
  (∃ (_ : took i i' (succeeded r)) (_ : 0 ≤ c') (_ : ∀ it, r = Some it → ok it) img (_ : zlen img = struct_size id), p ↦∗ img ∗ all_at (after i i') img)%I.
Lemma step_post_intro ok img i r i' c' : took i i' (succeeded r) → 0 ≤ c' → (∀ it, r = Some it → ok it) → zlen img = struct_size id → p ↦∗ img ∗ all_at (after i i') img ⊢ step_post ok i r i' c'.
Proof. intros H1 H2 H3 H4. iIntros "H". by iExists H1, H2, H3, img, H4. Qed.
Section Slot.
Context (j : nat) (sl : slot) (place : size_place).
Hypothesis Hj : L !! j = Some sl.
Abbreviation it := (iter_with id p j sl place).
(** The field is decoded, and the others are as they were. *)
Lemma field_done img i r i' c' : L !! j = Some sl → zlen img = struct_size id → others_of j img ∗ field_post (k := k) p sl img i r i' c' ⊢
  ∃ (_ : took i i' (succeeded r)) (_ : 0 ≤ c') img' (_ : zlen img' = struct_size id), p ↦∗ img' ∗ all_at (after i i') img'.
Proof using fit.
  intros Hs Hl. iIntros "(Ho & %Ht & %Hc & %img' & %Hd & %Hact & H & Hf)". assert (zlen img' = struct_size id) as Hl' by (destruct Hd; congruence).
  iExists Ht, Hc, img', Hl'. iFrame "H". unfold all_at. rw (all_owns_split id (owns (most_items := after i i') k) j img') (group_active id _ j sl img') //. iFrame "Hf".
  rw -(others_differs id _ j sl img img') //. iApply (big_sepL_mono with "Ho"). intros m b _. destruct (partner id j m); [done|]. apply field_owns_more. by eapply most_after.
Qed.
Lemma wp_dispatch w img i c : placed sl place → zlen img = struct_size id → stream_ok i → in_budget i → 0 ≤ c →
  p ↦∗ img ∗ ready (k := k) sl img ⊢
  wp (match atype sl with
      | PB_ATYPE_STATIC => decode_static_field stack decode decode_noinit w it
      | PB_ATYPE_POINTER => decode_pointer_field stack decode decode_noinit w it
      | PB_ATYPE_CALLBACK => decode_callback_field stack w it
      | Invalid_atype => error "invalid field type"
      end) i c (field_post (k := k) p sl img i).
Proof using All.
  intros Hplace Hl Hi Hb Hc. unfold placed in Hplace. destruct (decide (htype sl = PB_HTYPE_REPEATED)) as [Hh|Hh].
  - assert (active sl img = true) as Hact by (apply active_single; by rw Hh). unfold ready. rw Hact. destruct (ok_atype id sl (slot_fits id j sl Hj)) as [Ha|Ha]; rw Ha.
    + rw decide_True // in Hplace. rw array_owns_static // right_id. by apply wp_static_array.
    + rw decide_False in Hplace; [|by intros [E _]; rw Ha in E]. subst place. by apply wp_pointer_array.
  - rw decide_False in Hplace; [|by intros [_ E]]. subst place. destruct (ok_atype id sl (slot_fits id j sl Hj)) as [Ha|Ha]; rw Ha; [by apply wp_static_single|by apply wp_pointer_single].
Qed.
Lemma wp_decode_field w img i c : placed sl place → zlen img = struct_size id → stream_ok i → in_budget i → 0 ≤ c →
  p ↦∗ img ∗ all_of img ⊢ wp (decode_field stack decode decode_noinit w it) i c (step_post (λ x, x = it) i).
Proof using All.
  intros Hplace Hl Hi Hb Hc. iIntros "[H Ho]". unfold decode_field. rw (field_iter_with id p j sl Hj).
  iAssert (wp (if decide (htype sl = PB_HTYPE_ONEOF) then pb_release_union_field stack it else mret it) i c (λ r i' c', ∃ (_ : stream_ok i' ∧ bytes_left i' ≤ bytes_left i ∧ c' = c)
    img (_ : zlen img = struct_size id), match r with Some it' => ∃ _ : it' = it ∧ i' = i, p ↦∗ img ∗ others_of j img ∗ ready (k := k) sl img | None => p ↦∗ img ∗ all_of img end))%I with "[H Ho]" as "H".
  { case_decide as Hh.
    - assert (place = In_message (p + sl_size sl)) as -> by (unfold placed in Hplace; rw decide_False in Hplace; [done|]; intros [_ E]; congruence).
      iApply (wp_union j sl Hj img i c Hl Hi Hh). iFrame.
    - iApply wp_ret. assert (stream_ok i ∧ bytes_left i ≤ bytes_left i ∧ c = c) as H1 by (split_and!; [done|lia|done]). iExists H1, img, Hl, (conj eq_refl eq_refl).
      iFrame "H". assert (active sl img = true) as Hact by (by apply active_single). rw (all_owns_split id (owns k) j img) (group_active id _ j sl img Hj Hact). unfold ready. rw Hact.
      iDestruct "Ho" as "[Hg Ho]". iFrame. }
  iApply wp_bind. iApply (wp_wand with "H"). iIntros (r i1 c1) "(%Hsafe & %img1 & %Hl1 & H)". destruct Hsafe as (Hs1 & Hs2 & ->). destruct r as [it'|].
  - iDestruct "H" as "(%Hit & H & Ho & Hr)". destruct Hit as [-> ->]. rw (field_iter_with id p j sl Hj). iApply wp_bind.
    iApply (wp_wand with "[H Hr]"); [by iApply wp_dispatch; [done..|iFrame]|]. iIntros (r i' c') "Hf".
    iDestruct (field_done img1 i r i' c' Hj Hl1 with "[$Ho $Hf]") as "(%Ht & %Hc' & %img' & %Hl' & H)".
    destruct r as [[]|]; [iApply wp_ret|]; (iApply (step_post_intro _ img'); [done|done| |done|iFrame]); by intros ? [= <-].
  - assert (took i i1 false) as Ht by (by apply took_none). iApply (step_post_intro _ img1); [done|done|done|done|]. iDestruct "H" as "[H Ho]". iFrame "H".
    iApply (all_at_more most_items with "Ho"). by eapply most_after.
Qed.
End Slot.


(** ** The iterator of the decoder *)

Definition near (sl : slot) (place : size_place) : Prop :=
  place = In_message (p + sl_size sl) ∨ place = In_decoder ∧ atype sl = PB_ATYPE_STATIC ∧ htype sl = PB_HTYPE_REPEATED ∧ sl_size sl = sl_data sl.
Definition at_field (it : pb_field_iter) : Prop := ∃ j sl place, L !! j = Some sl ∧ near sl place ∧ it = iter_with id p j sl place.
(** The iterator of an empty table stands at its end. *)
Definition at_end : pb_field_iter := Iter [] 0 0 p p (In_message p).
Definition iter_ok (it : pb_field_iter) : Prop := at_field it ∨ fields_of id = [] ∧ it = at_end.
Lemma placed_near sl place : placed sl place → near sl place.
Proof using fit.
  unfold placed, near, place_ok. case_decide as Hd; [|by left]. case_decide as He; [|by left]. intros ->. right. tauto.
Qed.
Lemma at_field_slot j sl : L !! j = Some sl → at_field (at_slot (fields_of id) p j sl).
Proof. intros Hj. exists j, sl, (In_message (p + sl_size sl)). split_and!; [done|by left|done]. Qed.
Lemma at_field_stands it : at_field it → ∃ j, stands (fields_of id) p j it.
Proof.
  intros (j & sl & place & Hj & Hn & ->). exists j. destruct Hn as [->|(-> & _ & Hh & _)]; [by apply stands_at|]. exists sl. split; [done|]. right. by split.
Qed.
Lemma search_at_field q it : at_field it → at_field (search q it).2.
Proof using fit Hp.
  intros Hit. destruct (at_field_stands it Hit) as [j Hs]. pose proof (search_exact (fields_of id) p (table_is_ok id) ltac:(lia) q j it Hs) as Hr.
  unfold search_result in Hr. destruct (first_at _ _ _) as [m|].
  - destruct Hr as (_ & Hs' & Heq & Hne). destruct (decide (m = j)) as [->|Hmj]; [by rw Heq|]. destruct (Hne Hmj) as [sl E]. rw E. rw E in Hs'.
    destruct Hs' as (b & Hb & [H1|[H1 _]]); [|discriminate H1]. rw H1. by apply at_field_slot.
  - destruct Hr as (_ & sl & Hj & ->). by apply at_field_slot.
Qed.
Lemma search_iter_ok q it : iter_ok it → iter_ok (search q it).2.
Proof using fit Hp.
  intros [Hit|[He ->]]; [left; by apply search_at_field|right]. split; [done|]. unfold search. change (start at_end) with (@nil pb_field). cbn [length search_loop]. by destruct (q (field_at at_end)).
Qed.
(** No field is an extension. *)
Lemma no_extension it : iter_ok it → (find_extension_field it).1 = false.
Proof using fit Hp.
  intros [Hit|[He ->]]; [|done]. destruct (at_field_stands it Hit) as [j Hs]. pose proof (search_exact (fields_of id) p (table_is_ok id) ltac:(lia) is_extension j it Hs) as Hr.
  unfold search_result, find_extension_field in *. destruct (first_at _ _ _) as [m|] eqn:Em; [exfalso|by destruct Hr].
  destruct Hr as (_ & (b & Hb & _) & _). unfold first_at in Em. apply fmap_Some in Em as ([x y] & Ef & Ey). cbn in Ey. subst y.
  apply list_find_Some in Ef as (_ & Hx & _). rw (nth_field _ _ _ Hb) in Hx. apply bool_decide_eq_true in Hx.
  pose proof (ok_value id b (slot_fits id m b Hb)) as Hv. unfold value_fits in Hv. by rw Hx in Hv.
Qed.

(** ** One step of the decoder *)

Lemma wp_skip {A} w (x : A) i c (P : heapPropI) : stream_ok i →
  P ⊢ wp (_ ← on_input (pb_skip_field w); mret x) i c (λ r i' c', ∃ (_ : stream_ok i' ∧ bytes_left i' ≤ bytes_left i) (_ : c' = c) (_ : ∀ y, r = Some y → y = x), P).
Proof.
  intros Hi. iIntros "H". iApply (wp_read _ _ _ _ _ _ _ (reads_skip_field w) Hi). iSplit.
  - iIntros (i' H1 H2). assert (∀ y, (None : option A) = Some y → y = x) as Hy by done. by iExists (conj H1 H2), eq_refl, Hy.
  - iIntros (a i' _ H1 H2). iApply wp_ret. assert (∀ y, Some x = Some y → y = x) as Hy by (by intros ? [= <-]). rw Z.sub_0_r in H2. by iExists (conj H1 H2), eq_refl, Hy.
Qed.
Lemma wp_unknown t w it ext i c (P : heapPropI) : iter_ok it → 0 ≤ t < 2 ^ 29 → stream_ok i →
  P ⊢ wp (decode_unknown stack decode decode_noinit t w it ext) i c
    (λ r i' c', ∃ (_ : stream_ok i' ∧ bytes_left i' ≤ bytes_left i) (_ : c' = c) (_ : ∀ y, r = Some y → iter_ok y.1), P).
Proof using fit Hp source_safe.
  intros Hit Ht Hi. assert (∀ (x : pb_field_iter * Z), iter_ok x.1 → P ⊢ wp (_ ← on_input (pb_skip_field w); mret x) i c
    (λ r i' c', ∃ (_ : stream_ok i' ∧ bytes_left i' ≤ bytes_left i) (_ : c' = c) (_ : ∀ y, r = Some y → iter_ok y.1), P)) as Hskip.
  { intros x Hx. etrans; [apply (wp_skip w x i c P Hi)|]. apply wp_mono. intros r i' c'. iIntros "(%H1 & %H2 & %H3 & H)".
    assert (∀ y, r = Some y → iter_ok y.1) as Hy by (intros y Hr; by rw (H3 y Hr)). by iExists H1, H2, Hy. }
  unfold decode_unknown. destruct (ext <=? t); [|by apply Hskip]. pose proof (no_extension it Hit) as Hno. pose proof (search_iter_ok is_extension it Hit) as Hok.
  fold (find_extension_field it) in Hok. destruct (find_extension_field it) as [found it2]. cbn [fst snd] in *. subst found.
  rw (proj2 (Z.leb_gt (2 ^ 32 - 1) t)); [|lia]. by apply Hskip.
Qed.
Definition counts (j : nat) (sl : slot) (i : pb_istream Y) (r : option (pb_field_iter * option nat)) (i' : pb_istream Y) : Prop :=
  ∀ y, r = Some y → i' = i ∧ ∃ place, placed sl place ∧ y.1 = iter_with id p j sl place.
Lemma wp_count_fixed j sl place fixed img i c : L !! j = Some sl → near sl place → stream_ok i → 0 ≤ c → zlen img = struct_size id →
  p ↦∗ img ∗ all_of img ⊢ wp (count_fixed (iter_with id p j sl place) fixed) i c (λ r i' c', ∃ (_ : stream_ok i' ∧ bytes_left i' ≤ bytes_left i) (_ : 0 ≤ c')
    (_ : counts j sl i r i'), p ↦∗ img ∗ all_of img).
Proof using fit.
  intros Hj Hn Hi Hc Hl. unfold count_fixed. rw (field_iter_with id p j sl Hj). iIntros "H".
  assert (∀ place' c' fx, placed sl place' → 0 ≤ c' → p ↦∗ img ∗ all_of img ⊢ wp (mret (iter_with id p j sl place', fx : option nat)) i c' (λ r i' c', ∃ (_ : stream_ok i' ∧ bytes_left i' ≤ bytes_left i) (_ : 0 ≤ c')
    (_ : counts j sl i r i'), p ↦∗ img ∗ all_of img)) as Hret.
  { intros place' c' fx Hp' Hc'. rw -wp_ret. assert (stream_ok i ∧ bytes_left i ≤ bytes_left i) as H1 by (split; [done|lia]).
    assert (counts j sl i (Some (iter_with id p j sl place', fx)) i) as H2 by (intros ? [= <-]; eauto).
    iIntros "H". by iExists H1, Hc', H2. }
  case_decide as Hh; [|iApply Hret; [|done|done]; unfold placed; rw decide_False; [|by intros [_ ?]]; destruct Hn as [->|(_ & _ & E & _)]; done].
  unfold size_is_data. cbn [pSize pData iter_with]. case_bool_decide as Hs.
  - assert (place = In_message (p + sl_size sl) ∧ sl_size sl = sl_data sl) as [-> He].
    { destruct Hn as [->|(-> & _)]; [|done]. injection Hs as Hs. split; [done|lia]. }
    assert (atype sl = PB_ATYPE_STATIC) as Ha.
    { pose proof (slot_fits id j sl Hj) as Hok. destruct (ok_atype id sl Hok) as [|Ha]; [done|]. pose proof (ok_apart id sl Hok) as Hap.
      rw data_bytes_pointer // count_bytes_pointer_array // He in Hap. unfold apart, sizeof_ptr in Hap. lia. }
    assert (placed sl In_decoder) as Hpl by (unfold placed, place_ok; rw decide_True // decide_True //).
    iApply wp_get. iIntros (m). case_decide; [by iApply Hret|]. destruct (wrong_fixed_count _ _ _).
    + iApply wp_error; [done|]. iIntros (i' H1 H2). assert (counts j sl i None i') as Hy by done.
      by iExists (conj H1 H2), Hc, Hy.
    + iApply wp_bind. iApply wp_store_counter. by iApply Hret.
  - iApply Hret; [|done|done]. unfold placed. destruct Hn as [->|(-> & Ha & _ & He)].
    + case_decide; [|done]. unfold place_ok. rw decide_False //. intros He. apply Hs. by rw He.
    + rw decide_True //. unfold place_ok. by rw decide_True.
Qed.

(** The end of an empty table looks like a field with number zero: a bool at the start of the structure. *)
Lemma wp_end_field w img i c : fields_of id = [] → zlen img = struct_size id → stream_ok i → 0 ≤ c →
  p ↦∗ img ∗ all_of img ⊢ wp (decode_field stack decode decode_noinit w at_end) i c (step_post (λ x, x = at_end) i).
Proof using fit source_safe.
  intros He Hl Hi Hc. pose proof (fits_size id (fit id)) as Hs. iIntros "[H Ho]". unfold decode_field. change (field_at at_end) with PB_LAST_FIELD. cbv [PB_LAST_FIELD type].
  change (decode_static_field stack decode decode_noinit w at_end) with (func decode decode_noinit PB_LAST_FIELD p).
  change (PB_HTYPE 0) with PB_HTYPE_REQUIRED. iApply wp_bind. destruct (decide (PB_HTYPE_REQUIRED = PB_HTYPE_ONEOF)) as [Hd|Hd]; [done|]. iApply wp_ret. change (PB_ATYPE 0) with PB_ATYPE_STATIC. cbv iota.
  iApply wp_bind. iApply (wp_wand with "[H]").
  { iApply (wp_read_store_all _ _ 1 is_u32 p (struct_size id) i c); [apply reads_varint32|lia|done| |by iExists img, Hl].
    intros a. destruct (a =? 0); unfold zlen; cbn; lia. }
  iIntros (r i' c') "(%Ht & %Hc' & %bs & %Hbs & H)". subst c'.
  assert (all_of img ⊣⊢ all_at (after i i') bs) as -> by (unfold all_at, all_owns; by rw He).
  destruct r as [[]|]; [iApply wp_ret|]; (iApply (step_post_intro _ bs); [done|done| |done|iFrame]); by intros ? [= <-].
Qed.
Lemma wp_tag i c Φ : Φ (Some (pb_decode_tag i).1) (pb_decode_tag i).2 c ⊢
  wp (λ s, let '(x, i) := pb_decode_tag (input s) in Some (Some x, Machine i (mem s) (fixed_count_size s))) i c Φ.
Proof. split. intros h H g Hd. cbn. destruct (pb_decode_tag i) as [x i']. by eexists (Some x), i', c, h. Qed.
End Most.

(** A field that an entry describes. *)
Definition known_field (w : wire_type) (it : pb_field_iter) (fixed : option nat) (again : pb_field_iter → pb_field_iter → option nat → M progress) : M progress :=
  '(it, fixed) ← count_fixed it fixed;
  it' ← decode_field stack decode decode_noinit w it;
  again it it' fixed.
Definition loop_end (b : Z) (i : pb_istream Y) : option progress → pb_istream Y → Z → heapPropI := λ r i' c',
  (∃ (_ : stream_ok i' ∧ bytes_left i' ≤ bytes_left i) img (_ : zlen img = struct_size id), p ↦∗ img ∗ all_at b img)%I.
Lemma loop_end_intro b img i r i' c' : stream_ok i' → bytes_left i' ≤ bytes_left i → zlen img = struct_size id → p ↦∗ img ∗ all_at b img ⊢ loop_end b i r i' c'.
Proof. intros H1 H2 H3. iIntros "H". by iExists (conj H1 H2), img, H3. Qed.
Lemma wp_known_field b w it fixed again i0 img i c : iter_ok it → zlen img = struct_size id → stream_ok i → bytes_left i ≤ budget + 1 → bytes_left i ≤ bytes_left i0 → 0 ≤ c →
  0 ≤ b - 1 - bytes_left i → b ≤ limit →
  (∀ it1 it' fixed img' i' c', iter_ok it' → zlen img' = struct_size id → stream_ok i' → bytes_left i' ≤ bytes_left i → 0 ≤ c' →
    p ↦∗ img' ∗ all_at (b - bytes_left i') img' ⊢ wp (again it1 it' fixed) i' c' (loop_end b i0)) →
  p ↦∗ img ∗ all_at (b - 1 - bytes_left i) img ⊢ wp (known_field w it fixed again) i c (loop_end b i0).
Proof using All.
  intros Hit Hl Hi Hb Hi0 Hc H0 Hlim Hagain. iIntros "H". unfold known_field. set (now := b - 1 - bytes_left i : Most). assert (MostOk (most_items := now)) as Hnow by exact H0.
  assert (in_budget (most_items := now) (budget := budget) i) as Hbud by (split; [done|unfold now, most; lia]).
  assert (∀ it1 fixed1 c1, iter_ok it1 → 0 ≤ c1 → (∀ img, zlen img = struct_size id → p ↦∗ img ∗ all_at now img ⊢ wp (decode_field stack decode decode_noinit w it1) i c1 (step_post (most_items := now) (λ x, x = it1) i)) →
    p ↦∗ img ∗ all_at now img ⊢ wp (it' ← decode_field stack decode decode_noinit w it1; again it1 it' fixed1) i c1 (loop_end b i0)) as Hstep.
  { intros it1 fixed1 c1 Hok Hc1 Hf. rw (Hf img Hl) -wp_bind. apply wp_mono. intros r i' c'. iIntros "(%Ht & %Hc' & %Hr & %img' & %Hl' & H)". destruct Ht as (Ht1 & Ht2 & _).
    rw (all_at_more (after (most_items := now) i i') (b - bytes_left i')); [|unfold after, later, most, now; lia].
    destruct r as [it'|]; [|rw (all_at_more _ b); [|destruct Ht1; lia]; iApply (loop_end_intro b img'); [done|lia|done|done]]. rw (Hr it' eq_refl). by iApply Hagain. }
  iApply wp_bind. destruct Hit as [(j & sl & place & Hj & Hn & ->)|[He ->]].
  - iApply (wp_wand with "[H]"); [by iApply (wp_count_fixed (most_items := now) j sl place fixed img i c)|]. iIntros (r i1 c1) "(%Hs & %Hc1 & %Hr & H)". destruct r as [[it1 fixed1]|].
    + destruct (Hr _ eq_refl) as (-> & place' & Hpl & E). cbn in E. subst it1. iApply (Hstep _ fixed1 c1); [|done| |done].
      * left. exists j, sl, place'. split_and!; [done|by apply placed_near|done].
      * intros img2 Hl2. by apply (wp_decode_field (most_items := now)).
    + destruct Hs as [Hs1 Hs2]. iDestruct "H" as "[H Ho]". iApply (loop_end_intro b img); [done|lia|done|]. iFrame "H". iApply (all_at_more now with "Ho"). unfold now. destruct Hi; lia.
  - unfold count_fixed. change (PB_HTYPE (type (field_at at_end))) with PB_HTYPE_REQUIRED. destruct (decide (PB_HTYPE_REQUIRED = PB_HTYPE_REPEATED)) as [Hd|Hd]; [done|]. iApply wp_ret.
    iApply (Hstep at_end fixed c); [by right|done| |done]. intros img2 Hl2. by apply (wp_end_field (most_items := now)).
Qed.


(** ** The message *)

Lemma wp_decode_loop b fuel : ∀ i0 img pr i c, stream_ok i → bytes_left i ≤ bytes_left i0 → bytes_left i ≤ budget + 1 → bytes_left i < Z.of_nat fuel → 0 ≤ c → iter_ok (p_iter pr) → zlen img = struct_size id →
  0 ≤ b - bytes_left i → b ≤ limit → p ↦∗ img ∗ all_at (b - bytes_left i) img ⊢ wp (decode_loop stack decode decode_noinit fuel pr) i c (loop_end b i0).
Proof using All.
  induction fuel as [|fuel IH]; intros i0 img pr i c Hi Hi0 Hb Hf Hc Hit Hl H0 Hlim; [destruct Hi; lia|]. cbn [decode_loop]. iIntros "H". iApply wp_get. iIntros (s). cbn [input].
  destruct (Z.eqb_spec (bytes_left i) 0) as [Hz|Hz]; [iApply wp_ret; rw Hz Z.sub_0_r; by iApply (loop_end_intro b img)|]. iApply wp_bind. iApply wp_tag.
  destruct (reads_tag i Hi) as (H1 & H2 & H3). destruct (pb_decode_tag i) as [[r eof] i1]. cbn [fst snd] in *. destruct r as [[w t]|].
  - destruct (H3 _ eq_refl) as [H4 H5]. cbn [snd] in H5. pose proof (search_iter_ok (has_tag t) (p_iter pr) Hit) as Hok. fold (pb_field_iter_find (p_iter pr) t) in Hok.
    destruct (pb_field_iter_find (p_iter pr) t) as [found it]. cbn [snd] in Hok. destruct found; cbn [negb].
    + rw (all_at_more (b - bytes_left i) (b - 1 - bytes_left i1)); [|lia]. iApply (wp_known_field b w it (p_fixed pr) (λ it1 it' fixed, decode_loop stack decode decode_noinit fuel (Progress it' (p_extension pr) fixed (see_required it1 (p_seen pr)))) i0 img);
        [done|done|done|lia|lia|done|lia|done| |done].
      intros it1 it' fixed img' i' c' G1 G2 G3 G4 G5. apply IH; [done|lia|lia|lia|done|done|done|lia|done].
    + iApply wp_bind. iApply (wp_wand with "[H]"); [iApply (wp_unknown t w it (p_extension pr) i1 c (p ↦∗ img ∗ all_at (b - bytes_left i) img)%I with "H"); [done|lia|done]|]. iIntros (r i2 c2) "(%Hs & %Hc2 & %Hr & H)". destruct Hs as [Hs1 Hs2]. subst c2.
      destruct r as [[it' ext]|]; [|rw (all_at_more _ b); [|destruct Hi; lia]; iApply (loop_end_intro b img); [done|lia|done|done]].
      rw (all_at_more _ (b - bytes_left i2)); [|lia]. specialize (Hr _ eq_refl). iApply (IH with "H"); [done|lia|lia|lia|done|exact Hr|done|lia|done].
  - rw (all_at_more _ b); [|destruct Hi; lia]. destruct eof; [iApply wp_ret|iApply wp_fail]; (iApply (loop_end_intro b img); [done|lia|done|done]).
Qed.
Lemma begin_iter_ok : iter_ok (pb_field_iter_begin (fields_of id) p).2.
Proof using fit Hp.
  rw (iter_begin_exact (fields_of id) p (table_is_ok id) ltac:(lia)). destruct (slots (fields_of id)) as [|sl l] eqn:E.
  - right. assert (fields_of id = []) as -> by (by rw -(slots_are_fields (fields_of id)) E). done.
  - left. apply at_field_slot. by rw E.
Qed.
Definition body_post (b : Z) (i : pb_istream Y) : option unit → pb_istream Y → Z → heapPropI := λ r i' c',
  (∃ (_ : stream_ok i' ∧ bytes_left i' ≤ bytes_left i) img (_ : zlen img = struct_size id), p ↦∗ img ∗ all_at b img)%I.
Lemma wp_decode_message m img i c : stream_ok i → bytes_left i ≤ budget + 1 → 0 ≤ c → zlen img = struct_size id → 0 ≤ m → m + bytes_left i ≤ limit →
  p ↦∗ img ∗ all_at m img ⊢ wp (decode_message stack decode decode_noinit (fields_of id) p) i c (body_post (m + bytes_left i) i).
Proof using All.
  intros Hi Hb Hc Hl H0 Hlim. iIntros "H". unfold decode_message. iApply wp_get. iIntros (s). cbn [input]. set (b := m + bytes_left i) in *. assert (b - bytes_left i = m) as Hm by (unfold b; lia). iApply wp_bind. pose proof Hi as [_ Hi'].
  iApply (wp_wand with "[H]"); [rw -{1}Hm; iApply (wp_decode_loop b _ i img with "H"); [done|done|done|lia|done|apply begin_iter_ok|done|lia|done]|].
  iIntros (r i1 c1) "(%Hs & %img1 & %Hl1 & H)". destruct r as [pr|]; [|by iExists Hs, img1, Hl1]. iApply wp_get. iIntros (m1). destruct Hs as [Hs1 Hs2].
  assert (∀ msg, p ↦∗ img1 ∗ all_at b img1 ⊢ wp (error msg) i1 c1 (body_post b i)) as Herr.
  { intros msg. iIntros "H". iApply wp_error; [done|]. iIntros (i2 H1 H2). assert (stream_ok i2 ∧ bytes_left i2 ≤ bytes_left i) as H3 by (split; [done|lia]). by iExists H3, img1, Hl1. }
  destruct (wrong_fixed_count _ _ _); [by iApply Herr|]. destruct (missing_required _ _); [by iApply Herr|]. iApply wp_ret. by iExists (conj Hs1 Hs2), img1, Hl1.
Qed.

End Message.

(** ** Recursion *)

(** A message that was initialised first: a failure leaves nothing allocated. *)
Definition init_post (m : Z) (k : nat) (id p : Z) (i : pb_istream Y) (c : Z) : option unit → pb_istream Y → Z → heapPropI :=
  λ r i' c', (∃ (_ : stream_ok i' ∧ bytes_left i' ≤ bytes_left i) (_ : c' = c),
    match r with
    | Some _ => ∃ img (_ : zlen img = struct_size id), p ↦∗ img ∗ owns (most_items := m) k id img
    | None => structure id p (λ img, ⊢ owns (most_items := m) k id img)
    end)%I.
Lemma init_message_post m k id p i c r i' c' : init_post m k id p i c r i' c' ⊢ message_post m k id p i c r i' c'.
Proof.
  iIntros "(%H1 & %H2 & H)". iExists H1, H2. destruct r; [done|]. iDestruct "H" as "(%img & %Hl & %Ho & H)". iExists img, Hl. iFrame "H". iApply Ho.
Qed.
Lemma wp_decode_init stack noinit k budget : noinit_spec noinit k budget → (2 * k ≤ stack)%nat → (∀ id, (nesting id < k)%nat) →
  ∀ id p img i c, 0 < p → zlen img = struct_size id → stream_ok i → bytes_left i ≤ budget → bytes_left i ≤ limit →
  p ↦∗ img ⊢ wp (decode_init stack noinit (fields_of id) p) i c (init_post (bytes_left i) k id p i c).
Proof using fit.
  intros Hno Hs Hk id p img i c Hp Hl Hi Hb Hlim. iIntros "H". unfold decode_init. iApply (wp_seq with "[H]").
  { iApply (wp_defaults (most_items := 0) stack id p img i c with "H"); [|done|done]. apply Nat.lt_le_trans with k; [apply Hk|]. rw Nat.div2_div. apply Nat.div_le_lower_bound; lia. }
  iIntros "(%img1 & %Hl1 & %Hidle & H)". iApply wp_bind. iApply wp_status. iApply (wp_wand with "[H]").
  { iApply (Hno 0 id p img1 i c Hp Hl1 Hi Hb ltac:(done) Hlim). iFrame "H". iApply (Hidle k (Hk id)). }
  iIntros (r i' c') "(%H1 & %H2 & %img2 & %Hl2 & H)". subst c'. destruct r as [[]|]; cbn [negb].
  - iApply wp_ret. by iExists H1, eq_refl, img2, Hl2.
  - iApply (wp_seq with "[H]"); [by iApply (wp_pb_release (most_items := bytes_left i) stack k Hs id p img2 i' c Hp Hl2)|]. iIntros "H". iApply wp_fail. by iExists H1, eq_refl.
Qed.
Lemma wp_noinit stack : ∀ k budget, (2 * k ≤ stack)%nat → (∀ id, Z.of_nat (nesting id) + 2 + budget ≤ Z.of_nat k) → noinit_spec (pb_decode_noinit stack) k budget.
Proof using fit alloc_ok source_safe arrays.
  induction stack as [|stack IH]; intros k budget Hs Hk m id p img i c Hp Hl Hi Hb Hm Hlim; pose proof Hi as [_ Hi']; iIntros "[H Ho]"; iDestruct (owns_inv with "Ho") as "(%k' & %He & %Hn & Ho)"; subst k; [lia|].
  assert (∀ id, (nesting id < k')%nat) as Hk' by (intros id'; specialize (Hk id'); lia).
  assert (noinit_spec (pb_decode_noinit stack) k' (budget - 1)) as Hno by (apply IH; [lia|intros id'; specialize (Hk id'); lia]).
  assert (DecodersOk stack (decode_init stack (pb_decode_noinit stack)) (pb_decode_noinit stack) k' (budget - 1)) as Hok.
  { split; [done| |lia|done]. intros id' p' img' i2 c2 G1 G2 G3 G4 G5. etrans; [by apply (wp_decode_init stack _ k' (budget - 1) Hno ltac:(lia) Hk' id' p' img')|].
    apply wp_mono. intros. apply init_message_post. }
  cbn [pb_decode_noinit]. iApply wp_with_count. iApply (wp_wand with "[H Ho]"); [iApply (wp_decode_message (budget := budget - 1) id p Hp m img i 0 Hi ltac:(lia) ltac:(lia) Hl Hm Hlim); iFrame|].
  iIntros (r i' c') "(%H1 & %img1 & %Hl1 & H & Ho)". iExists H1, eq_refl, img1, Hl1. iFrame "H". cbn [owns]. by iExists Hn.
Qed.
(** [pb_decode]: enough stack for the bytes there are. *)
Lemma wp_pb_decode stack k id p img i c : (2 * k ≤ stack)%nat → (∀ id, Z.of_nat (nesting id) + 2 + bytes_left i ≤ Z.of_nat k) → 0 < p → zlen img = struct_size id → stream_ok i → bytes_left i ≤ limit →
  p ↦∗ img ⊢ wp (pb_decode stack (fields_of id) p) i c (init_post (bytes_left i) k id p i c).
Proof using fit alloc_ok source_safe arrays.
  intros Hs Hk Hp Hl Hi Hlim. apply (wp_decode_init stack _ k (bytes_left i)); [by apply wp_noinit|done| |done|done|done|lia|done].
  intros id'. specialize (Hk id'). destruct Hi. lia.
Qed.
End Messages.
