(* ===== verification/PbExample.v ===== *)
(** * An example of tables, and an allocator

    Three message types, with their tables as the generator writes them: a message with a string, a
    message with numbers, a union and members of its own type, and a message by value.  They fit
    their structures; the allocator behaves as documented. *)
From stdpp Require Import gmap.
From S2P Require Export PbLayout PbMemory PbImage.

(** [struct { bool flag; char *name; }], of 16 bytes;
    [struct { uint32_t id; Inner *inner; pb_size_t values_count; int32_t *values; pb_size_t which; union { char *text; Outer *nested; } u; }], of 48;
    [struct { Inner inner; bool bits[4]; pb_size_t numbers_count; uint16_t numbers[2]; }], of 32. *)
Definition inner_fields : pb_fields := [Field 1 0x00 0 0 1 0 Null; Field 2 0x97 7 0 1 0 Null].
Definition outer_fields : pb_fields := [Field 1 0x02 0 0 4 0 Null; Field 2 0x98 4 0 16 0 (Submsg 1); Field 3 0xA1 8 (-8) 4 0 Null;
  Field 4 0xB7 8 (-8) 1 0 Null; Field 5 0xB8 PB_SIZE_MAX 0 48 0 (Submsg 2)].
Definition wrapper_fields : pb_fields := [Field 1 0x08 0 0 16 0 (Submsg 1); Field 2 0x20 0 0 1 4 Null; Field 3 0x22 4 (-4) 2 2 Null].
Definition example_tables : Tables := λ id, if id =? 1 then inner_fields else if id =? 2 then outer_fields else if id =? 3 then wrapper_fields else [].
Definition example_layout : Layout := {|
  struct_size id := if id =? 1 then 16 else if id =? 2 then 48 else if id =? 3 then 32 else 1;
  nesting id := if id =? 3 then 1%nat else O;
  pointer_free id := false |}.
#[local] Existing Instances example_tables example_layout.

Ltac by_compute := vm_compute; intuition (first [discriminate | congruence | lia]).
Ltac fits_slot := constructor; by_compute.
Ltac fits_pairs := intros [|[|[|[|[|?]]]]] [|[|[|[|[|?]]]]] ? ?; cbn; intros ? ? ?; simplify_eq; first [left; by_compute | right; by_compute].
Ltac fits_table := split; [by_compute|repeat (constructor; [fits_slot|]); constructor|fits_pairs|cbv; repeat constructor; set_solver].
Lemma inner_fits_table : table_fits 1.
Proof. fits_table. Qed.
Lemma outer_fits_table : table_fits 2.
Proof. fits_table. Qed.
Lemma wrapper_fits_table : table_fits 3.
Proof. fits_table. Qed.
#[local] Instance example_fits : TablesFit.
Proof.
  intros id. destruct (Z.eqb_spec id 1) as [->|H1]; [apply inner_fits_table|]. destruct (Z.eqb_spec id 2) as [->|H2]; [apply outer_fits_table|].
  destruct (Z.eqb_spec id 3) as [->|H3]; [apply wrapper_fits_table|]. apply Z.eqb_neq in H1, H2, H3.
  assert (fields_of id = []) as E by (unfold fields_of, example_tables; by rewrite H1, H2, H3).
  assert (struct_size id = 1) as Es by (cbn; by rewrite H1, H2, H3). split; [rewrite Es; lia|rewrite E; constructor|rewrite E; done|rewrite E; constructor].
Qed.
Lemma example_nesting id : (nesting id ≤ 1)%nat.
Proof. cbn. destruct (id =? 3); lia. Qed.

(** An allocator that takes memory above all that is in use. *)
Definition above (m : gmap Z Z) : Z := map_fold (λ a _ acc, Z.max (a + 1) acc) 16 m.
Lemma above_bound m a : is_Some (m !! a) → a < above m.
Proof.
  unfold above. apply (map_fold_weak_ind (λ r m, is_Some (m !! a) → a < r)).
  - rewrite lookup_empty. by intros [? ?].
  - intros i x m' r _ IH. destruct (decide (i = a)) as [->|Hi]; [lia|]. rewrite lookup_insert_ne by done. intros H. specialize (IH H). lia.
Qed.
Lemma above_pos m : 0 < above m.
Proof. unfold above. apply (map_fold_weak_ind (λ r _, 0 < r)); [done|]. intros. lia. Qed.
#[local] Instance example_allocator : Allocator := λ m _ n,
  let q := Z.max (above (cells m)) (above (blocks m)) in
  if q + n <=? 2 ^ 64 then Some (q, replicate (Z.to_nat n) 0xAA) else None.
Lemma free_cells_none n : ∀ a m k, m !! k = None → free_cells n a m !! k = None.
Proof. intros a m k Hk. rewrite free_cells_lookup. by case_decide. Qed.
#[local] Instance example_allocator_ok : AllocatorOk.
Proof.
  intros m p n q junk Ha _ Hn. unfold realloc_to, example_allocator in Ha. destruct (_ <=? _) eqn:E; [|done]. injection Ha as <- <-.
  apply Z.leb_le in E. pose proof (above_pos (cells m)). split_and!; [lia|lia|unfold zlen; rewrite length_replicate; lia|].
  assert (∀ k, Z.max (above (cells m)) (above (blocks m)) ≤ k → cells m !! k = None ∧ blocks m !! k = None) as Hnone.
  { intros k Hk. split; apply eq_None_not_Some; intros Hs; apply above_bound in Hs; lia. }
  intros m' Hf. unfold free in Hf. destruct (p =? 0); [injection Hf as <-|].
  - split; [apply Hnone; lia|]. intros a Ha. apply Hnone. lia.
  - apply bind_Some in Hf as (l & _ & Hf). injection Hf as <-. cbn. split.
    + destruct (decide (p = Z.max (above (cells m)) (above (blocks m)))) as [->|Hp]; [apply lookup_delete_eq|]. rewrite lookup_delete_ne by done. apply Hnone. lia.
    + intros a Ha. apply free_cells_none, Hnone. lia.
Qed.
