(* ===== verification/PbSafety.v ===== *)
(** * What decoding a message does to the memory

    The separation-logic proofs of the previous files, stated of the decoder as a function on
    memories: [pb_decode] returns, touches nothing but the structure and what it allocates, and
    leaks nothing.  An example shows that the assumptions can be met. *)
From iris.proofmode Require Import proofmode.
From stdpp Require Import gmap.
From S2P Require Export PbMessages PbExample.

Section Adequacy.
Context {Y : Type} {source : Source Y} {source_safe : SourceSafe Y} {tables : Tables} {layout : Layout} {fit : TablesFit} {extensions : Extensions}.
Context {callbacks : Callbacks} {alloc : Allocator} {alloc_ok : AllocatorOk}.

(** The memory holds an object of [n] bytes at [p]. *)
Definition object_in (p n : Z) (m : memory) : Prop := ∀ a, p ≤ a < p + n → is_Some (cells m !! a).
(** The memory with other bytes in an object. *)
Definition overwritten (p : Z) (bs : bytes) (m : memory) : memory := Memory (map_seqZ p bs ∪ cells m) (blocks m).
(** [m'] has what [m] has outside the object, and perhaps more. *)
Definition extends (p n : Z) (m m' : memory) : Prop :=
  (∀ a b, cells m !! a = Some b → a < p ∨ p + n ≤ a → cells m' !! a = Some b) ∧ (∀ q l, blocks m !! q = Some l → blocks m' !! q = Some l).

Fixpoint bytes_at (n : nat) (a : Z) (m : gmap Z Z) : bytes :=
  match n with O => [] | S n => default 0 (m !! a) :: bytes_at n (a + 1) m end.
Lemma length_bytes_at n : ∀ a m, length (bytes_at n a m) = n.
Proof. induction n as [|n IH]; intros a m; cbn; [done|by rw IH]. Qed.
Lemma bytes_at_lookup n : ∀ a m j, (j < n)%nat → bytes_at n a m !! j = Some (default 0 (m !! (a + Z.of_nat j))).
Proof.
  induction n as [|n IH]; intros a m j Hj; [lia|]. cbn [bytes_at]. destruct j as [|j]; cbn [lookup list_lookup]; [by rw Z.add_0_r|]. rw IH; [|lia]. do 3 f_equal. lia.
Qed.
Lemma split_memory p n m : object_in p n m → 0 ≤ n → ∃ img rest, zlen img = n ∧ disjoint_parts (Memory (map_seqZ p img) ∅) rest ∧ m = joined (Memory (map_seqZ p img) ∅) rest.
Proof.
  intros Ho Hn. set (img := bytes_at (Z.to_nat n) p (cells m)). assert (zlen img = n) as Hl by (unfold zlen, img; rw length_bytes_at; lia).
  exists img, (Memory (filter (λ x, ¬ (p ≤ x.1 < p + n)) (cells m)) (blocks m)). split_and!; [done| |].
  - split; cbn; [|apply map_disjoint_empty_l]. apply map_disjoint_spec. intros a x y H1 H2. apply lookup_map_seqZ_Some in H1 as [H1 H3]. apply lookup_lt_Some in H3.
    apply map_lookup_filter_Some in H2 as [_ H2]. cbn in H2. unfold zlen in Hl. lia.
  - destruct m as [c b]. unfold joined. cbn. f_equal; [|by rw map_empty_union]. apply map_eq. intros a. rw lookup_union lookup_map_seqZ. destruct (decide (p ≤ a < p + n)) as [Ha|Ha].
    + rw option_guard_True; [|lia]. unfold img. rw bytes_at_lookup; [|lia]. replace (p + Z.of_nat (Z.to_nat (a - p))) with a by lia. cbn.
      destruct (Ho a Ha) as [x Hx]. cbn in Hx. rw Hx. cbn. assert (∀ o : option Z, Some x = Some x ∪ o) as E by (by intros []). apply E.
    + assert ((_ ← guard (p ≤ a); img !! Z.to_nat (a - p)) = None) as E.
      { destruct (decide (p ≤ a)); [rw option_guard_True //; apply lookup_ge_None_2; unfold zlen in Hl; lia|by rw option_guard_False]. }
      rw E. rw left_id. destruct (c !! a) as [x|] eqn:Hc; symmetry; [by apply map_lookup_filter_Some|by apply map_lookup_filter_None; left].
Qed.


Lemma joined_overwritten p img img' rest : zlen img' = zlen img →
  joined (Memory (map_seqZ p img') ∅) rest = overwritten p img' (joined (Memory (map_seqZ p img) ∅) rest).
Proof.
  intros Hl. unfold overwritten, joined. cbn. f_equal. rw assoc. f_equal. symmetry. apply map_eq. intros a. rw lookup_union.
  pose proof (dom_points_to p img' img Hl) as Hd. destruct (map_seqZ (M := gmap Z Z) p img' !! a) as [x|] eqn:E; [by destruct (map_seqZ p img !! a)|].
  apply not_elem_of_dom in E. rw Hd in E. apply not_elem_of_dom in E. by rw E.
Qed.
Lemma joined_extends p img rest h n : zlen img = n → disjoint_parts h rest → extends p n (joined (Memory (map_seqZ p img) ∅) rest) (joined h rest).
Proof.
  intros Hl [Hd1 Hd2]. split; cbn.
  - intros a b Ha Hout. apply lookup_union_Some_raw in Ha as [Ha|[_ Ha]].
    + apply lookup_map_seqZ_Some in Ha as [H1 H2]. apply lookup_lt_Some in H2. unfold zlen in Hl. lia.
    + by apply lookup_union_Some_r.
  - intros q l Hq. rw map_empty_union in Hq. by apply lookup_union_Some_r.
Qed.
Lemma structure_holds id p P h : holds (structure id p P) h → ∃ img, zlen img = struct_size id ∧ P img ∧ h = Memory (map_seqZ p img) ∅.
Proof. intros (img & Hl & HP & Hh). by exists img. Qed.

(** Every item of an array behind a pointer takes a byte of the input at least, and the decoder computes
    the offset of an item in 32 bits: [n] bytes are too few for an offset that wraps. *)
Definition offsets_fit (n : Z) : Prop := ∀ id f, f ∈ fields_of id → PB_ATYPE (type f) = PB_ATYPE_POINTER → PB_HTYPE (type f) = PB_HTYPE_REPEATED → n * data_size f < 2 ^ 32.
Lemma offsets_limit n : offsets_fit n → ArraysFit (the_limit := n).
Proof.
  intros Hn id j sl Hj. apply (Hn id). rw -{1}(slots_are_fields (fields_of id)). apply list_elem_of_fmap. exists sl. split; [done|]. by eapply list_elem_of_lookup_2.
Qed.

(** Both calls, on the parts of a memory. *)
Section Call.
Context (stack k : nat) (id p : Z).
Hypothesis Hstack : (2 * k ≤ stack)%nat.
Hypothesis Hp : 0 < p.
Lemma run_decode i img rest c : (∀ id, Z.of_nat (nesting id) + 2 + bytes_left i ≤ Z.of_nat k) → offsets_fit (bytes_left i) → stream_ok i → zlen img = struct_size id → disjoint_parts (Memory (map_seqZ p img) ∅) rest →
  ∃ r i' h, pb_decode stack (fields_of id) p (Machine i (joined (Memory (map_seqZ p img) ∅) rest) c) = Some (r, Machine i' (joined h rest) c) ∧
    disjoint_parts h rest ∧ stream_ok i' ∧ bytes_left i' ≤ bytes_left i ∧
    match r with
    | Some _ => holds (∃ img (_ : zlen img = struct_size id), p ↦∗ img ∗ owns (most_items := bytes_left i) k id img)%I h
    | None => holds (structure id p (λ img, ⊢ owns (most_items := bytes_left i) k id img)) h
    end.
Proof using All.
  intros Hk Hf Hi Hl Hd. pose proof (offsets_limit _ Hf) as Hlimit. destruct (wp_pb_decode (the_limit := bytes_left i) stack k id p img i c Hstack Hk Hp Hl Hi ltac:(unfold limit; lia)) as [Hw].
  destruct (Hw (Memory (map_seqZ p img) ∅) eq_refl rest Hd) as (r & i' & c' & h & E & Hd' & [H1 H2] & -> & HP).
  exists r, i', h. split_and!; [done|done|done|done|]. by destruct r.
Qed.
Lemma run_release m i h rest c : holds (∃ img (_ : zlen img = struct_size id), p ↦∗ img ∗ owns (most_items := m) k id img)%I h → disjoint_parts h rest →
  ∃ img, zlen img = struct_size id ∧ pb_release (Y := Y) stack (fields_of id) p (Machine i (joined h rest) c) = Some (Some tt, Machine i (joined (Memory (map_seqZ p img) ∅) rest) c).
Proof using All.
  intros (img & Hl & Hh) Hd. destruct (wp_pb_release (most_items := m) stack k Hstack id p img i c Hp Hl) as [Hw].
  destruct (Hw h Hh rest Hd) as (r & i' & c' & h' & E & Hd' & (-> & -> & ->) & HP). apply structure_holds in HP as (img' & Hl' & _ & ->). by exists img'.
Qed.
End Call.

(** C2. [pb_decode] returns, whatever the bytes of the input and whatever [realloc] grants: with C stack
    for the depth of the message, which the bytes to come and the nesting of the structures bound, and
    with too few bytes to come for an array behind a pointer whose offsets pass 32 bits, no step of it
    is undefined.  It reads and writes the structure and what it allocates, and nothing else.  The
    tables describe their structures, have no callbacks and no extensions, and no array inside a
    structure has messages that hold pointers ([TablesFit]). *)
Theorem pb_decode_returns (stack k : nat) (id p : Z) (s : machine Y) :
  (2 * k ≤ stack)%nat → (∀ id, Z.of_nat (nesting id) + 2 + bytes_left (input s) ≤ Z.of_nat k) → offsets_fit (bytes_left (input s)) → 0 < p → stream_ok (input s) → object_in p (struct_size id) (mem s) →
  ∃ r s', pb_decode stack (fields_of id) p s = Some (r, s') ∧ stream_ok (input s') ∧ bytes_left (input s') ≤ bytes_left (input s) ∧
    fixed_count_size s' = fixed_count_size s ∧ extends p (struct_size id) (mem s) (mem s').
Proof using fit alloc_ok.
  intros Hs Hk Hf Hp Hi Ho. pose proof (fits_size id (fit id)). destruct (split_memory p (struct_size id) (mem s) Ho ltac:(lia)) as (img & rest & Hl & Hd & Hm).
  destruct s as [i m c]. cbn in *. subst m. destruct (run_decode stack k id p Hs Hp i img rest c Hk Hf Hi Hl Hd) as (r & i' & h & E & Hd' & H1 & H2 & _).
  exists r, (Machine i' (joined h rest) c). split_and!; [done|done|done|done|]. by apply joined_extends.
Qed.
(** C27. Nothing leaks.  Under the assumptions of the previous theorem, a message that cannot be decoded
    leaves the memory as it was, but for the bytes of the structure; one that can is returned to that
    state by [pb_release], which frees every block once. *)
Theorem pb_decode_no_leak (stack k : nat) (id p : Z) (s : machine Y) r s' :
  (2 * k ≤ stack)%nat → (∀ id, Z.of_nat (nesting id) + 2 + bytes_left (input s) ≤ Z.of_nat k) → offsets_fit (bytes_left (input s)) → 0 < p → stream_ok (input s) → object_in p (struct_size id) (mem s) →
  pb_decode stack (fields_of id) p s = Some (r, s') →
  match r with
  | None => ∃ img, zlen img = struct_size id ∧ mem s' = overwritten p img (mem s)
  | Some _ => ∃ img t, zlen img = struct_size id ∧ pb_release stack (fields_of id) p s' = Some (Some tt, t) ∧ mem t = overwritten p img (mem s)
  end.
Proof using fit alloc_ok.
  intros Hs Hk Hf Hp Hi Ho E. pose proof (fits_size id (fit id)). destruct (split_memory p (struct_size id) (mem s) Ho ltac:(lia)) as (img & rest & Hl & Hd & Hm).
  destruct s as [i m c]. cbn in *. subst m. destruct (run_decode stack k id p Hs Hp i img rest c Hk Hf Hi Hl Hd) as (r' & i' & h & E' & Hd' & _ & _ & Hh).
  rw E' in E. injection E as <- <-. destruct r' as [u|].
  - destruct (run_release stack k id p Hs Hp _ i' h rest c Hh Hd') as (img' & Hl' & Er). exists img', (Machine i' (joined (Memory (map_seqZ p img') ∅) rest) c).
    split_and!; [done|done|]. cbn. apply joined_overwritten. lia.
  - apply structure_holds in Hh as (img' & Hl' & _ & ->). exists img'. split; [done|]. cbn. apply joined_overwritten. lia.
Qed.
End Adequacy.

(** ** An example *)

#[local] Existing Instances example_tables example_layout example_fits example_allocator example_allocator_ok.
#[local] Instance no_extensions : Extensions := λ _, Extension_type 0 0 PB_LAST_FIELD.
#[local] Instance no_callbacks : Callbacks := {| user_decode _ _ _ _ _ := run_fail; user_decode_extension _ _ _ _ _ _ := run_fail |}.
Definition example_start (n : Z) (wire : bytes) : machine bytes := Machine (pb_istream_from_buffer wire (zlen wire)) (Memory (map_seqZ 4096 (replicate (Z.to_nat n) 0xAA)) ∅) 0.
(** [id: 300, inner: {flag: true, name: "hey"}, values: [1, 2, 3], text: "x", nested: {id: 7}, values: [4]]. *)
Definition example_wire : bytes := [0x08; 0xAC; 0x02; 0x12; 0x07; 0x08; 0x01; 0x12; 0x03; 0x68; 0x65; 0x79; 0x1A; 0x03; 0x01; 0x02; 0x03; 0x22; 0x01; 0x78; 0x2A; 0x02; 0x08; 0x07; 0x18; 0x04].
Lemma example_object n wire : object_in 4096 n (mem (example_start n wire)).
Proof.
  intros a Ha. cbn. rw lookup_map_seqZ option_guard_True; [|lia]. cbn. apply lookup_lt_is_Some_2. rw length_replicate. lia.
Qed.
Lemma example_stream n wire : bytes_ok wire → stream_ok (input (example_start n wire)).
Proof. intros Hw. split; [done|]. cbn. apply zlen_nonneg. Qed.
Lemma example_depth : ∀ id, Z.of_nat (nesting id) + 2 + bytes_left (input (example_start 48 example_wire)) ≤ Z.of_nat 29.
Proof. intros id. pose proof (example_nesting id). change (bytes_left (input (example_start 48 example_wire))) with 26. lia. Qed.
Lemma example_offsets : offsets_fit (bytes_left (input (example_start 48 example_wire))).
Proof.
  intros id f Hf _ _. change (bytes_left (input (example_start 48 example_wire))) with 26.
  enough (Forall (λ f, data_size f ≤ 48) (fields_of id)) as H by (rewrite Forall_forall in H; specialize (H f Hf); lia).
  unfold fields_of, example_tables. repeat case_match; repeat constructor; cbn; lia.
Qed.
Lemma example_bytes : bytes_ok example_wire.
Proof. unfold example_wire. repeat constructor; lia. Qed.
Lemma pb_decode_returns_witness : ∃ r s', pb_decode 60 (fields_of 2) 4096 (example_start 48 example_wire) = Some (r, s') ∧ extends 4096 (struct_size 2) (mem (example_start 48 example_wire)) (mem s').
Proof.
  destruct (pb_decode_returns 60 29 2 4096 (example_start 48 example_wire)) as (r & s' & E & _ & _ & _ & H);
    [lia|exact example_depth|exact example_offsets|lia|apply example_stream, example_bytes|exact (example_object 48 example_wire)|exists r, s'; exact (conj E H)].
Defined.
(** The message is decoded; it has four blocks, and the string that another member of the union replaced is gone. *)
Lemma decode_example : ∃ s', pb_decode 60 (fields_of 2) 4096 (example_start 48 example_wire) = Some (Some tt, s') ∧
  (map_to_list (blocks (mem s'))).*2 = [48; 16; 16; 4].
Proof. vm_compute. by eexists. Qed.
Lemma pb_decode_no_leak_witness : ∃ s' img t, pb_decode 60 (fields_of 2) 4096 (example_start 48 example_wire) = Some (Some tt, s') ∧
  pb_release 60 (fields_of 2) 4096 s' = Some (Some tt, t) ∧ mem t = overwritten 4096 img (mem (example_start 48 example_wire)).
Proof.
  destruct decode_example as (s' & E & _).
  destruct (pb_decode_no_leak 60 29 2 4096 (example_start 48 example_wire) (Some tt) s') as (img & t & _ & Hr & Hm);
    [lia|exact example_depth|exact example_offsets|lia|apply example_stream, example_bytes|exact (example_object 48 example_wire)|exact E|exists s', img, t; exact (conj E (conj Hr Hm))].
Defined.
