(* ===== verification/PbEdge.v ===== *)
(** * What nanopb does at the edges of the tables

    Inputs and tables outside the assumptions of the safety theorems, on which the decoder and the
    encoder do what they should not.  Each one is evaluated on a small table. *)
From stdpp Require Import gmap.
From S2P Require Export PbDecode PbEncode.

#[local] Instance edge_allocator : Allocator := λ _ _ _, None.
#[local] Instance edge_extensions : Extensions := λ _, Extension_type 0 0 PB_LAST_FIELD.
#[local] Instance edge_callbacks : Callbacks := {| user_decode _ _ _ _ _ := run_fail; user_decode_extension _ _ _ _ _ _ := run_fail |}.
#[local] Instance edge_encoders : Encoders (bytes * Z) := {| user_encode _ _ _ _ := run_fail; user_encode_extension _ _ _ := run_fail |}.
(** A structure of given bytes at the address 4096. *)
Definition edge_memory (image : bytes) : memory := Memory (map_seqZ 4096 image) ∅.
Definition edge_start (image wire : bytes) : machine bytes := Machine (pb_istream_from_buffer wire (zlen wire)) (edge_memory image) 0.

(** The table of a message without fields starts with its end, and that entry has tag 0 and the type of
    a required [bool]: a field with number 0 finds it, and is stored in the first byte of the structure. *)
Section Empty.
#[local] Instance no_tables : Tables := λ _, [].
Lemma decode_into_empty : ∃ s, pb_decode 4 (fields_of 1) 4096 (edge_start [0xAA] [0x01; 0x05]) = Some (Some tt, s) ∧ cells (mem s) !! 4096 = Some 1.
Proof. vm_compute. by eexists. Qed.
End Empty.

(** An array of fixed length has no count, and its [pSize] is its own address: setting it to its default
    stores four zero bytes, past the end of an array of less than four bytes. *)
Section Fixed_array.
#[local] Instance bits_tables : Tables := λ _, [Field 1 0x20 0 0 1 2 Null].
Lemma default_overruns_fixed_array : pb_decode 4 (fields_of 1) 4096 (edge_start [0; 0] [0x08; 0x01; 0x08; 0x01]) = None.
Proof. by vm_compute. Qed.
Lemma default_of_longer_array : ∃ s, pb_decode 4 (fields_of 1) 4096 (edge_start [0; 0; 0; 0] [0x08; 0x01; 0x08; 0x01]) = Some (Some tt, s).
Proof. vm_compute. by eexists. Qed.
End Fixed_array.

(** [struct Item { char *name; }], [struct { pb_size_t items_count; Item items[1]; }]: an item is counted
    before its length is read.  When that fails, [pb_release] frees the pointer of an item that nobody
    initialised; here its bytes are those the structure had before the call. *)
Section Uninitialised.
#[local] Instance items_tables : Tables := λ id, if id =? 1 then [Field 1 0x97 0 0 1 0 Null] else [Field 1 0x28 8 (-8) 8 1 (Submsg 1)].
Lemma release_uninitialised : pb_decode 8 (fields_of 2) 4096 (edge_start (replicate 16 0xAA) [0x0A; 0x7F]) = None.
Proof. by vm_compute. Qed.
Lemma release_zeroed : ∃ s, pb_decode 8 (fields_of 2) 4096 (edge_start (replicate 16 0) [0x0A; 0x7F]) = Some (None, s).
Proof. vm_compute. by eexists. Qed.
End Uninitialised.

(** [struct Inner { bool *flag; }], [struct { Inner inner; }], both of proto3: whether the submessage is
    left out is decided by the first byte of the pointer, and not by the whole pointer.  The flag at
    0x2000 is lost, the flag at 0x2001 is written. *)
Section Pointer.
#[local] Instance flag_tables : Tables := λ id, if id =? 1 then [Field 1 0x90 0 0 1 0 Null] else [Field 1 0x18 0 0 8 0 (Submsg 1)].
Definition flag_at (p : Z) : memory := Memory (map_seqZ 4096 (le_bytes 8 p) ∪ {[p := 1]}) ∅.
Definition flag_bytes (m : memory) : option (option Z) := pb_get_encoded_size (X := bytes * Z) m 8 ([], 0) (fields_of 2) 4096.
Lemma pointer_compared_by_bytes : flag_bytes (flag_at 0x2000) = Some (Some 0) ∧ flag_bytes (flag_at 0x2001) = Some (Some 4).
Proof. by vm_compute. Qed.
End Pointer.

(** The offset of an item in an array behind a pointer is the product of two 32-bit numbers: in an array
    of pointers, the string with index 2^29 is stored where the string with index 0 is. *)
Lemma item_offset_wraps f : data_size f = sizeof_ptr → item_offset f (2 ^ 29) = item_offset f 0.
Proof. unfold item_offset. by intros ->. Qed.
