(* ===== verification/PbOutput.v ===== *)
(** * What the message encoder of nanopb writes

    The encoder passes over a nested message twice, once to count, once to write, and over packed
    arrays likewise; it writes to streams that may be full, or may have no callback.  Here is what a
    message is on the wire, as a function of the memory: no stream, no second pass, no counters. *)
From stdpp Require Import strings gmap.
From S2P Require Export PbRoundtrip PbEncode.

(** ** Results *)

(** [None]: the object in memory is not a message (or has 2^64 bytes on the wire).  Otherwise the bytes,
    and whether the message ends regularly or the encoder fails after them. *)
Abbreviation wire_result := (option (bytes * bool)).
Definition plain (bs : bytes) : wire_result := Some (bs, true).
Definition refused : wire_result := Some ([], false).
Definition followed (w w' : wire_result) : wire_result :=
  match w with
  | Some (bs, true) => match w' with Some (bs', ok) => Some (bs ++ bs', ok) | None => None end
  | _ => w
  end.
(** Behind its length. *)
Definition framed_result (w : wire_result) : wire_result :=
  match w with
  | Some (bs, ok) => if zlen bs <? 2 ^ 64 then if ok : bool then plain (framed bs) else refused else None
  | None => None
  end.

(** What functions of the user write.  They are called twice and must write the same both times. *)
Class UserWire := { callback_wire : Z → pb_field → Z → memory → wire_result; extension_wire : Z → Z → memory → wire_result }.

Section Wire.
Context `{!Tables, !Extensions, !UserWire} (m : memory).

(** ** Reading the message *)

Definition byte_in (a : Z) : option Z := bs ← load 1 a m; Some (hd 0 bs).
Definition size_in (a : Z) : option Z := bs ← load sizeof_size a m; Some (u32 (le_val bs)).
Definition pointer_in (a : Z) : option Z := bs ← load sizeof_ptr a m; Some (le_val bs).
Definition flag_in (a : Z) : option bool := b ← byte_in a; Some (negb (b =? 0)).

(** The characters of a string in front of its terminator, at most [max] of them. *)
Fixpoint c_string (fuel : nat) (max p : Z) : option bytes :=
  match fuel with
  | O => None
  | S fuel =>
      if 0 <? max then
        c ← byte_in p;
        if c =? 0 then Some [] else s ← c_string fuel (max - 1) (p + 1); Some (c :: s)
      else Some []
  end.
Definition string_in (max p : Z) : option bytes := if p =? 0 then Some [] else c_string (S (size (cells m))) max p.

(** ** Values *)

(** Integers of C have these sizes. *)
Definition integer_size (n : Z) : bool := bool_decide (n ∈ [1; 2; 4; 8]).
Definition scalar_wire (t : ltype) (n a : Z) : wire_result :=
  match t with
  | PB_LTYPE_BOOL => b ← flag_in a; plain (varint_of (if b : bool then 1 else 0))
  | PB_LTYPE_FIXED32 => bs ← load 4 a m; plain bs
  | PB_LTYPE_FIXED64 => bs ← load 8 a m; plain bs
  | PB_LTYPE_VARINT | PB_LTYPE_UVARINT | PB_LTYPE_SVARINT => if integer_size n then bs ← load n a m; plain (wire t bs) else refused
  end.
Definition bytes_wire (f : pb_field) (a : Z) : wire_result :=
  if a =? 0 then plain (framed [])
  else
    n ← size_in a;
    if bool_decide (PB_ATYPE (type f) = PB_ATYPE_STATIC) && (u64 (data_size f - 4) <? n) then refused
    else bs ← load n (a + 4) m; plain (framed bs).
Definition string_wire (f : pb_field) (a : Z) : wire_result :=
  s ← string_in (if decide (PB_ATYPE (type f) = PB_ATYPE_POINTER) then 2 ^ 64 - 1 else data_size f) a; plain (framed s).
Definition value_wire (message : pb_fields → Z → wire_result) (f : pb_field) (a : Z) : wire_result :=
  match PB_LTYPE (type f) with
  | Scalar t => scalar_wire t (data_size f) a
  | PB_LTYPE_BYTES => bytes_wire f a
  | PB_LTYPE_STRING => string_wire f a
  | PB_LTYPE_FIXED_LENGTH_BYTES => bs ← load (data_size f) a m; plain (framed bs)
  | PB_LTYPE_SUBMESSAGE =>
      match ptr f with Submsg id => framed_result (message (fields_of id) a) | Null => refused | Default _ => None end
  | PB_LTYPE_EXTENSION | Invalid_ltype _ => None
  end.
(** The wire types of the encoding: 0 for numbers of variable length, 1 for eight bytes, 5 for four, and 2 for what
    has its length in front. *)
Definition wire_code (t : pb_ltype) : option Z :=
  match t with
  | Scalar (PB_LTYPE_BOOL | PB_LTYPE_VARINT | PB_LTYPE_UVARINT | PB_LTYPE_SVARINT) => Some 0
  | Scalar PB_LTYPE_FIXED64 => Some 1
  | PB_LTYPE_BYTES | PB_LTYPE_STRING | PB_LTYPE_SUBMESSAGE | PB_LTYPE_FIXED_LENGTH_BYTES => Some 2
  | Scalar PB_LTYPE_FIXED32 => Some 5
  | PB_LTYPE_EXTENSION | Invalid_ltype _ => None
  end.
Definition key_bytes (number code : Z) : bytes := varint_of (8 * number + code).
Definition key_wire (f : pb_field) : wire_result :=
  match wire_code (PB_LTYPE (type f)) with Some code => plain (key_bytes (tag f) code) | None => refused end.

(** ** Fields *)

Section Field.
Context (message : pb_fields → Z → wire_result).
Definition entry_wire (f : pb_field) (a : Z) : wire_result := followed (key_wire f) (value_wire message f a).

Fixpoint items_wire (item : Z → wire_result) (step : Z) (n : nat) (a : Z) : wire_result :=
  match n with O => plain [] | S n => followed (item a) (items_wire item step n (a + step)) end.
(** The items of an array behind a pointer are themselves pointers when they differ in size: [char *] and
    [pb_bytes_array_t *]. *)
Definition pointer_items (f : pb_field) : bool :=
  match PB_ATYPE (type f), PB_LTYPE (type f) with
  | PB_ATYPE_POINTER, PB_LTYPE_STRING | PB_ATYPE_POINTER, PB_LTYPE_BYTES => true
  | _, _ => false
  end.
Definition item_wire (f : pb_field) (a : Z) : wire_result :=
  if pointer_items f then followed (key_wire f) (p ← pointer_in a; value_wire message f p) else entry_wire f a.
Definition array_wire (f : pb_field) (a count : Z) : wire_result :=
  if count =? 0 then plain []
  else if bool_decide (PB_ATYPE (type f) ≠ PB_ATYPE_POINTER) && (array_size f <? count) then refused
  else if packable (PB_LTYPE (type f)) then
    followed (plain (key_bytes (tag f) 2)) (framed_result (items_wire (value_wire message f) (data_size f) (Z.to_nat count) a))
  else items_wire (item_wire f) (data_size f) (Z.to_nat count) a.

(** Whether a field has the value that proto3 leaves out.  A message has it when all of its fields do, a pointer
    when it is null.  (The encoder looks at as many bytes of a pointer to a scalar as the scalar has.  Where these are zero
    but the pointer is not null, it leaves out what it should write: such memory is given no image here, see
    [PbEdge.pointer_compared_by_bytes].) *)
Fixpoint all_of (p : slot → option bool) (l : list slot) : option bool :=
  match l with [] => Some true | sl :: l => b ← p sl; if b : bool then all_of p l else Some false end.
Definition zero_in (n a : Z) : option bool := bs ← load n a m; Some (forallb (λ b, b =? 0) bs).
Definition explicit_in (f : pb_field) (a : Z) : option (option bool) :=
  let counted := n ← size_in (a + size_offset f); Some (Some (n =? 0)) in
  match PB_HTYPE (type f) with
  | PB_HTYPE_REQUIRED => Some (Some false)
  | PB_HTYPE_ONEOF => counted
  | PB_HTYPE_REPEATED =>
      if negb (size_offset f =? 0) then counted
      else if decide (PB_ATYPE (type f) = PB_ATYPE_STATIC) then Some (Some false) else Some None
  | PB_HTYPE_OPTIONAL => if negb (size_offset f =? 0) then b ← flag_in (a + size_offset f); Some (Some (negb b)) else Some None
  end.
Fixpoint default_in (depth : nat) (f : pb_field) (a : Z) : option bool :=
  match depth with
  | O => None
  | S depth =>
      explicit ← explicit_in f a;
      match explicit with
      | Some b => Some b
      | None =>
          match PB_ATYPE (type f), PB_LTYPE (type f) with
          | PB_ATYPE_STATIC, PB_LTYPE_BYTES => n ← size_in a; Some (n =? 0)
          | PB_ATYPE_STATIC, PB_LTYPE_STRING => c ← byte_in a; Some (c =? 0)
          | PB_ATYPE_STATIC, PB_LTYPE_FIXED_LENGTH_BYTES => Some (data_size f =? 0)
          | PB_ATYPE_STATIC, PB_LTYPE_SUBMESSAGE =>
              match ptr f with
              | Submsg id => if a =? 0 then None else all_of (λ sl, default_in depth (sl_field sl) (a + sl_data sl)) (slots (fields_of id))
              | _ => None
              end
          | PB_ATYPE_POINTER, t =>
              p ← pointer_in a;
              if packable t then zero ← zero_in (data_size f) a; if bool_decide (zero = (p =? 0)) then Some (p =? 0) else None
              else Some (p =? 0)
          | _, _ => zero_in (data_size f) a
          end
      end
  end.

Definition field_wire (depth : nat) (f : pb_field) (a : Z) : wire_result :=
  let pointer := bool_decide (PB_ATYPE (type f) = PB_ATYPE_POINTER) in
  let explicit := negb (size_offset f =? 0) in
  target ← (if pointer then pointer_in a else Some a);
  match PB_HTYPE (type f) with
  | PB_HTYPE_REQUIRED => if target =? 0 then refused else entry_wire f target
  | PB_HTYPE_OPTIONAL =>
      present ← (if explicit then flag_in (a + size_offset f)
                 else if pointer then _ ← zero_in (if packable (PB_LTYPE (type f)) then data_size f else 0) a; Some (negb (target =? 0))
                 else d ← default_in depth f a; Some (negb d));
      if present : bool then entry_wire f target else plain []
  | PB_HTYPE_REPEATED =>
      count ← (if explicit then size_in (a + size_offset f) else Some (array_size f));
      array_wire f target count
  | PB_HTYPE_ONEOF =>
      which ← (if explicit then size_in (a + size_offset f) else None);
      if which =? tag f then entry_wire f target else plain []
  end.
Definition callback_field_wire (f : pb_field) (a : Z) : wire_result :=
  callback ← pointer_in a; if callback =? 0 then plain [] else callback_wire callback f (a + sizeof_ptr) m.
Definition any_field_wire (depth : nat) (f : pb_field) (a : Z) : wire_result :=
  match PB_ATYPE (type f) with
  | PB_ATYPE_STATIC | PB_ATYPE_POINTER => field_wire depth f a
  | PB_ATYPE_CALLBACK => callback_field_wire f a
  | Invalid_atype => refused
  end.

(** An extension, and the chain of all of them. *)
Definition own_extension_wire (depth : nat) (ext type_ : Z) : wire_result :=
  let f := ext_arg (extension_type type_) in
  if decide (PB_ATYPE (type f) = PB_ATYPE_POINTER) then any_field_wire depth f (ext + 8)
  else dest ← pointer_in (ext + 8); any_field_wire depth f dest.
Fixpoint extensions_wire (fuel depth : nat) (ext : Z) : wire_result :=
  match fuel with
  | O => None
  | S fuel =>
      if ext =? 0 then plain []
      else
        type_ ← pointer_in ext;
        let encode_ := ext_encode (extension_type type_) in
        followed (if negb (encode_ =? 0) then extension_wire encode_ ext m else own_extension_wire depth ext type_)
          (next ← pointer_in (ext + 16); extensions_wire fuel depth next)
  end.
Definition slot_wire (depth : nat) (src : Z) (sl : slot) : wire_result :=
  let a := src + sl_data sl in
  if decide (PB_LTYPE (type (sl_field sl)) = PB_LTYPE_EXTENSION) then ext ← pointer_in a; extensions_wire depth depth ext
  else any_field_wire depth (sl_field sl) a.
End Field.

(** The fields in the order of the table, each at its place in the structure. *)
Definition all_followed (f : slot → wire_result) (l : list slot) : wire_result := foldr (λ sl, followed (f sl)) (plain []) l.
Fixpoint message_wire (depth : nat) (fields : pb_fields) (src : Z) : wire_result :=
  match depth with
  | O => None
  | S depth => if src =? 0 then None else all_followed (slot_wire (message_wire depth) (S depth) src) (slots fields)
  end.
End Wire.
