(* ===== verification/PbWritten.v ===== *)
(** * The message encoder of nanopb writes what [PbOutput] says

    To any stream with room, exactly; to a stream that only counts, its size; to a stream with less
    room it fails.  The fields of a message are encoded by functions that are proved one by one, from
    reads of the memory and the encoders of [PbWire]. *)
From stdpp Require Import strings gmap.
From S2P Require Export PbOutput.

(** What the tables promise: field numbers of the format, sizes of their types. *)
Record entry_ok (f : pb_field) : Prop := {
  entry_tag : 0 < tag f < 2 ^ 29; entry_size : 0 ≤ data_size f < 2 ^ 32; entry_count : 0 ≤ array_size f < 2 ^ 32 }.
Class EntriesOk `{!Tables, !Extensions} := {
  entries_ok : ∀ id, Forall entry_ok (fields_of id); extension_entry_ok : ∀ t, entry_ok (ext_arg (extension_type t)) }.
(** Cells hold bytes. *)
Definition memory_ok (m : memory) : Prop := map_Forall (λ _ b, is_uint 8 b) (cells m).

(** The encoder's tables are those of the format. *)
Lemma integer_size_eq n : integer_size n = int_size n.
Proof.
  unfold integer_size, int_size. apply eq_true_iff_eq. rewrite bool_decide_eq_true, !orb_true_iff, !Z.eqb_eq.
  rewrite !elem_of_cons, elem_of_nil. tauto.
Qed.
Lemma key_bytes_eq w number : key_bytes number (wire_number w) = tag_of w number.
Proof. unfold key_bytes, tag_of. by rewrite Z.mul_comm. Qed.
Lemma packed_key number : key_bytes number 2 = tag_of PB_WT_STRING number.
Proof. apply (key_bytes_eq PB_WT_STRING). Qed.
Lemma wire_code_eq t : wire_code t = wire_number <$> wire_type_for t.
Proof. by destruct t as [[]| | | | | |]. Qed.
Lemma key_wire_eq f : key_wire f = match wire_type_for (PB_LTYPE (type f)) with Some w => plain (tag_of w (tag f)) | None => refused end.
Proof. unfold key_wire. rewrite wire_code_eq. destruct (wire_type_for _); [cbn [fmap option_fmap option_map]; by rewrite key_bytes_eq|done]. Qed.
Lemma pointer_items_eq f : is_string_or_bytes_pointer f = pointer_items f.
Proof.
  unfold is_string_or_bytes_pointer, pointer_items.
  destruct (PB_ATYPE (type f)); rewrite ?(bool_decide_eq_false_2 (_ = PB_ATYPE_POINTER)), ?(bool_decide_eq_true_2 (PB_ATYPE_POINTER = _)) by done; try done.
  destruct (PB_LTYPE (type f)); (apply bool_decide_eq_true_2; tauto) || (apply bool_decide_eq_false_2; by intros [?|?]).
Qed.

Section Emits.
Context {X : Type} `{!Sink X, !SinkOk X}.
Abbreviation M := (run (pb_ostream X)).

(** [c] writes the bytes to any stream with room for them, and succeeds or fails as said; it fails with
    a message when there is less room. *)
Definition emits (c : M unit) (w : wire_result) : Prop :=
  match w with
  | None => True
  | Some (bs, ok) => ∀ s, out_ok s →
      (fits s (zlen bs) → ∃ s', c s = Some (if ok : bool then Some tt else None, s') ∧ (ok = true → wrote s bs s')) ∧
      (o_callback s = true → max_size s < bytes_written s + zlen bs < 2 ^ 64 → ∃ s', c s = Some (None, s') ∧ o_errmsg s' ≠ None)
  end.
(** [c] only reads. *)
Definition computes {A} (c : M A) (v : option A) : Prop := match v with Some a => ∀ s, c s = Some (Some a, s) | None => True end.

Lemma run_bind_some {A B} (c : M A) (k : A → M B) s a s' : c s = Some (Some a, s') → (c ≫= k) s = k a s'.
Proof. intros E. cbv [mbind run_bind]. by rewrite E. Qed.
Lemma run_bind_none {A B} (c : M A) (k : A → M B) s s' : c s = Some (None, s') → (c ≫= k) s = Some (None, s').
Proof. intros E. cbv [mbind run_bind]. by rewrite E. Qed.

Lemma computes_ret {A} (a : A) : computes (mret a) (Some a).
Proof. done. Qed.
Lemma computes_bind {A B} (c : M A) v (k : A → M B) u : computes c v → (∀ a, v = Some a → computes (k a) (u a)) → computes (a ← c; k a) (a ← v; u a).
Proof.
  intros Hc Hk. destruct v as [a|]; cbn; [|done]. specialize (Hk a eq_refl). destruct (u a) as [b|]; cbn in *; [|done].
  intros s. by rewrite (run_bind_some _ _ _ _ _ (Hc s)).
Qed.
Lemma computes_if {A} (b : bool) (c c' : M A) v v' : (b = true → computes c v) → (b = false → computes c' v') → computes (if b then c else c') (if b then v else v').
Proof. destruct b; auto. Qed.
Lemma emits_bind {A} (c : M A) v k w : computes c v → (∀ a, v = Some a → emits (k a) (w a)) → emits (a ← c; k a) (a ← v; w a).
Proof.
  intros Hc Hk. destruct v as [a|]; cbn; [|done]. specialize (Hk a eq_refl). destruct (w a) as [[bs ok]|]; cbn in *; [|done].
  intros s Hs. rewrite (run_bind_some _ _ _ _ _ (Hc s)). by apply Hk.
Qed.
Lemma emits_if (b : bool) c c' w w' : (b = true → emits c w) → (b = false → emits c' w') → emits (if b then c else c') (if b then w else w').
Proof. destruct b; auto. Qed.
Lemma emits_decide P `{!Decision P} c c' w w' : (P → emits c w) → (¬ P → emits c' w') → emits (if decide P then c else c') (if decide P then w else w').
Proof. case_decide; auto. Qed.
Lemma emits_ext c c' w : (∀ s, c s = c' s) → emits c w → emits c' w.
Proof.
  intros E H. destruct w as [[bs ok]|]; [|done]. intros s Hs. specialize (H s Hs). by rewrite E in H.
Qed.
Lemma emits_writes c bs : writes c bs → emits (to_output c) (plain bs).
Proof.
  intros H s Hs. destruct (H s Hs) as [H1 H2]. unfold to_output. split.
  - intros Hf. destruct (H1 Hf) as (s' & -> & W). by exists s'.
  - intros Hcb Hl. destruct (H2 Hcb Hl) as (s' & -> & He). by exists s'.
Qed.
Lemma not_full s : out_ok s → o_callback s = true → ¬ max_size s < bytes_written s + zlen ([] : bytes).
Proof. intros Hs Hcb. rewrite zlen_nil. destruct (out_room _ Hs Hcb). lia. Qed.
Lemma emits_fail c : (∀ s, ∃ s', c s = Some (None, s')) → emits c refused.
Proof.
  intros H s Hs. split; [intros _|intros Hcb [Hl _]; by destruct (not_full s Hs Hcb)]. destruct (H s) as (s' & ->). by exists s'.
Qed.
Lemma emits_error msg : emits (fail_with msg) refused.
Proof. apply emits_fail. intros s. unfold fail_with, to_output. destruct (run_out_error (A := unit) msg s) as (s' & -> & _). by exists s'. Qed.
Lemma emits_nothing : emits (mret tt) (plain []).
Proof. apply (emits_ext (to_output (mret tt))); [done|]. apply emits_writes, writes_nothing. Qed.
Lemma emits_seq c c' w w' : emits c w → emits c' w' → emits (_ ← c; c') (followed w w').
Proof.
  intros H1 H2. destruct w as [[bs [|]]|]; cbn [followed]; [|..|done].
  - destruct w' as [[bs' ok]|]; [|done]. intros s Hs. destruct (H1 s Hs) as [A1 B1]. pose proof (zlen_nonneg bs). pose proof (zlen_nonneg bs').
    assert (∀ s1, wrote s bs s1 → c s = Some (Some tt, s1) → (c ≫= λ _, c') s = c' s1) as Hc by (intros s1 _ E; by rewrite (run_bind_some _ _ _ _ _ E)).
    split.
    + intros Hf. destruct A1 as (s1 & E1 & W1); [eapply fits_le; [|exact Hf]; rewrite zlen_app; lia|]. specialize (W1 eq_refl).
      destruct (H2 s1 (wrote_ok _ _ _ W1)) as [(s2 & E2 & W2) _]; [by eapply fits_app|]. exists s2. rewrite (Hc s1 W1 E1). split; [done|].
      intros Hok. eapply wrote_app; [done|by apply W2].
    + intros Hcb Hl. rewrite zlen_app in Hl. destruct (Z.le_gt_cases (bytes_written s + zlen bs) (max_size s)) as [Hle|Hgt].
      * destruct A1 as (s1 & E1 & W1); [unfold fits; by rewrite Hcb|]. specialize (W1 eq_refl). rewrite (Hc s1 W1 E1).
        destruct (H2 s1 (wrote_ok _ _ _ W1)) as [_ B2]. destruct W1 as [_ Hn Hm Hcb1 _ _ _ _]. apply B2; [congruence|rewrite Hn, Hm; lia].
      * destruct B1 as (s1 & E1 & He); [done|lia|]. exists s1. by rewrite (run_bind_none _ _ _ _ E1).
  - intros s Hs. destruct (H1 s Hs) as [A1 B1]. split.
    + intros Hf. destruct (A1 Hf) as (s1 & E1 & _). exists s1. by rewrite (run_bind_none _ _ _ _ E1).
    + intros Hcb Hl. destruct (B1 Hcb Hl) as (s1 & E1 & He). exists s1. by rewrite (run_bind_none _ _ _ _ E1).
Qed.

(** ** Two passes *)

(** A stream that only counts. *)
Lemma emits_sizing c bs ok x : emits c (Some (bs, ok)) → zlen bs < 2 ^ 64 →
  ∃ s', c (PB_OSTREAM_SIZING x) = Some (if ok then Some tt else None, s') ∧ (ok = true → bytes_written s' = zlen bs).
Proof.
  intros H Hl. destruct (H (PB_OSTREAM_SIZING x)) as [(s' & E & W) _]; [by split|by unfold fits; cbn|].
  exists s'. split; [done|]. intros Hok. by destruct (W Hok).
Qed.
Definition total (c : M unit) : st (pb_ostream X) unit := λ s, default (None, s) (c s).
Lemma total_writes c bs : emits c (plain bs) → writes (total c) bs.
Proof.
  intros H s Hs. destruct (H s Hs) as [H1 H2]. unfold total. split.
  - intros Hf. destruct (H1 Hf) as (s' & -> & W). exists s'. split; [done|by apply W].
  - intros Hcb Hl. destruct (H2 Hcb Hl) as (s' & -> & He). by exists s'.
Qed.
Lemma nested_total c bs s : emits c (plain bs) → out_ok s → bytes_written s + zlen bs < 2 ^ 64 →
  write_nested c (zlen bs) s = Some (PbStream.write_nested (total c) (zlen bs) s).
Proof.
  intros H Hs Hl. pose proof (zlen_nonneg bs). unfold write_nested, PbStream.write_nested. rewrite (run_bind_some _ _ s s s), (bind_some _ _ _ s s) by done.
  destruct (o_callback s) eqn:Hcb; cbn [negb]; [|done]. destruct (Z.ltb_spec (max_size s) (u64 (bytes_written s + zlen bs))) as [|Hle]; [done|].
  rewrite wrap_small in Hle by (pose proof (out_count _ Hs); word_bounds; lia). destruct (out_room _ Hs Hcb) as [Hm Hr].
  set (sub := Ostream true (o_state s) (zlen bs) 0 None). assert (out_ok sub) as Hsub.
  { split; cbn; [done|pose proof (out_count _ Hs); word_bounds; lia|]. intros _. split; [lia|]. rewrite Z.sub_0_r. eapply room_less; [|exact Hr]. lia. }
  destruct (H sub Hsub) as [(s' & E & _) _]; [unfold fits; cbn; lia|]. unfold total. rewrite E. cbn [default from_option id].
  cbv [to_output mbind run_bind st_bind set_bytes_written set_state set_errmsg st_modify]. cbn. by destruct (negb _).
Qed.
Lemma emits_nested c bs : emits c (plain bs) → emits (write_nested c (zlen bs)) (plain bs).
Proof.
  intros H s Hs. pose proof (writes_nested (total c) bs (total_writes _ _ H) s Hs) as [H1 H2]. split.
  - intros Hf. rewrite (nested_total c bs s H Hs).
    + destruct (H1 Hf) as (s' & -> & W). by exists s'.
    + unfold fits in Hf. pose proof (out_max _ Hs). destruct (o_callback s); word_bounds; lia.
  - intros Hcb Hl. rewrite (nested_total c bs s H Hs) by lia. destruct (H2 Hcb Hl) as (s' & -> & He). by exists s'.
Qed.
(** Both passes, with the length between them. *)
Lemma emits_behind_size c size second bs : (∀ s, c s = (_ ← to_output (pb_encode_varint size); second) s) → size = zlen bs → is_u64 size → emits second (plain bs) →
  emits c (plain (framed bs)).
Proof.
  intros E -> Hu H. apply (emits_ext (_ ← to_output (pb_encode_varint (zlen bs)); second)); [done|].
  apply (emits_seq _ _ (plain _) (plain bs)); [|done]. by apply emits_writes, writes_varint.
Qed.
Lemma framed_cases (c : M unit) bs ok : (zlen bs < 2 ^ 64 → if ok : bool then emits c (plain (framed bs)) else emits c refused) → emits c (framed_result (Some (bs, ok))).
Proof. intros H. unfold framed_result. destruct (Z.ltb_spec (zlen bs) (2 ^ 64)); [|done]. specialize (H ltac:(done)). by destruct ok. Qed.
Lemma emits_submessage c w : emits c w → emits (pb_encode_submessage c) (framed_result w).
Proof.
  destruct w as [[bs ok]|]; [|done]. intros H. apply framed_cases. intros Hl. pose proof (zlen_nonneg bs).
  assert (∀ s, ∃ s', c (PB_OSTREAM_SIZING (o_state s)) = Some (if ok then Some tt else None, s') ∧ (ok = true → bytes_written s' = zlen bs)) as Hz
    by (intros s; by apply emits_sizing).
  destruct ok.
  - apply (emits_behind_size _ (zlen bs) (write_nested c (zlen bs))); [|done|word_bounds; lia|by apply emits_nested].
    intros s. unfold pb_encode_submessage. rewrite (run_bind_some _ _ s s s) by done. destruct (Hz s) as (s' & -> & Hn). by rewrite Hn.
  - apply emits_fail. intros s. unfold pb_encode_submessage. rewrite (run_bind_some _ _ s s s) by done. destruct (Hz s) as (s' & -> & _).
    eexists. reflexivity.
Qed.
Lemma emits_counted c bs : emits c (plain bs) →
  emits (s ← run_get; if negb (o_callback s) then to_output (pb_write [] (zlen bs)) else c) (plain bs).
Proof.
  intros H s Hs. rewrite (run_bind_some _ _ s s s) by done. destruct (o_callback s) eqn:Hcb; cbn [negb].
  - specialize (H s Hs). by rewrite Hcb in H.
  - split; [|congruence]. intros Hf. unfold fits in Hf. rewrite Hcb in Hf. destruct Hs as [Hc Hm Hr]. pose proof (zlen_nonneg bs).
    unfold to_output. rewrite run_write_null by (done || lia). eexists. split; [reflexivity|]. intros _. split; cbn; try done; try congruence. split; cbn; [lia|done|done].
Qed.
End Emits.

#[global] Arguments emits : simpl never.

(** ** Reading *)

Lemma load_cells_ok n : ∀ a c bs, load_cells n a c = Some bs → length bs = n ∧ (map_Forall (λ _ b, is_uint 8 b) c → bytes_ok bs).
Proof.
  induction n as [|n IH]; intros a c bs; cbn [load_cells]; [intros [= <-]; split; [done|constructor]|].
  intros (b & Eb & (r & Er & [= <-])%bind_Some)%bind_Some. destruct (IH _ _ _ Er) as [Hl Hb]. split; [cbn; by rewrite Hl|].
  intros Hc. constructor; [exact (Hc _ _ Eb)|exact (Hb Hc)].
Qed.
Lemma load_ok n a m bs : 0 ≤ n → load n a m = Some bs → zlen bs = n ∧ (memory_ok m → bytes_ok bs).
Proof. intros Hn E. apply load_cells_ok in E as [Hl Hb]. split; [unfold zlen; lia|exact Hb]. Qed.

Section Read.
Context {X : Type} `{!Sink X, !SinkOk X} (m : memory).
Abbreviation M := (run (pb_ostream X)).
Lemma computes_read n a : computes (X := X) (read_at m n a) (load n a m).
Proof. unfold read_at, computes. destruct (load n a m) eqn:E; [|done]. intros s. done. Qed.
Lemma computes_map {A B} (c : M A) v (f : A → B) : computes c v → computes (a ← c; mret (f a)) (a ← v; Some (f a)).
Proof. intros H. apply computes_bind; [exact H|]. done. Qed.
Lemma computes_size a : computes (X := X) (read_size m a) (size_in m a).
Proof. apply computes_map, computes_read. Qed.
Lemma computes_pointer a : computes (X := X) (read_pointer m a) (pointer_in m a).
Proof. apply computes_map, computes_read. Qed.
Lemma computes_flag a : computes (X := X) (safe_read_bool m a) (flag_in m a).
Proof.
  unfold safe_read_bool, flag_in, byte_in. pose proof (computes_read 1 a) as H. destruct (load 1 a m) as [bs|]; cbn in *; [|done].
  intros s. by rewrite (run_bind_some _ _ _ _ _ (H s)).
Qed.
Lemma computes_char {A} a (k : Z → M A) v : (∀ c, byte_in m a = Some c → computes (k c) (v c)) →
  computes (c ← read_at m 1 a; k (hd 0 c)) (c ← byte_in m a; v c).
Proof.
  intros H. unfold byte_in in *. pose proof (computes_read 1 a) as Hr. destruct (load 1 a m) as [bs|]; cbn in *; [|done].
  specialize (H _ eq_refl). destruct (v (hd 0 bs)); cbn in *; [|done]. intros s. by rewrite (run_bind_some _ _ _ _ _ (Hr s)).
Qed.

(** A string: its length is counted, then its bytes are read. *)
Lemma strnlen_exact fuel : ∀ n max p s, c_string m fuel max p = Some s → 0 ≤ n → 0 ≤ max →
  (∀ t, strnlen_loop (X := X) m fuel n (n + max) p t = Some (Some (n + zlen s), t)) ∧ load_cells (length s) p (cells m) = Some s ∧ zlen s ≤ max.
Proof.
  induction fuel as [|fuel IH]; intros n max p s; cbn [c_string strnlen_loop]; [done|]. intros E Hn Hm.
  destruct (Z.ltb_spec 0 max) as [Hpos|Hz].
  - rewrite (proj2 (Z.ltb_lt n (n + max))) by lia. apply bind_Some in E as (c & Ec & E). unfold byte_in in Ec. apply bind_Some in Ec as (bs & El & [= <-]).
    pose proof (computes_read 1 p) as Hr. rewrite El in Hr. cbn in Hr. pose proof El as El'. unfold load in El'. cbn in El'. apply bind_Some in El' as (b & Eb & [= <-]). cbn in E.
    destruct (b =? 0) eqn:Hb.
    + injection E as <-. split_and!; [|done|exact Hm]. intros t. rewrite (run_bind_some _ _ _ _ _ (Hr t)). cbn. by rewrite Hb, Z.add_0_r.
    + apply bind_Some in E as (s' & E & [= <-]). destruct (IH (n + 1) (max - 1) (p + 1) s' E ltac:(lia) ltac:(lia)) as (H1 & H2 & H3). split_and!; [|cbn; rewrite Eb; cbn; by rewrite H2|rewrite zlen_cons; lia].
      intros t. rewrite (run_bind_some _ _ _ _ _ (Hr t)), zlen_cons. cbn [hd]. rewrite Hb. replace (n + max) with (n + 1 + (max - 1)) by lia. rewrite H1. do 3 f_equal. lia.
  - injection E as <-. rewrite (proj2 (Z.ltb_ge n (n + max))) by lia. split_and!; [|done|done]. intros t. cbn. by rewrite Z.add_0_r.
Qed.

(** [pb_write] from memory. *)
Lemma emits_write_from a n bs : 0 ≤ n → load n a m = Some bs → emits (X := X) (write_from m a n) (plain bs).
Proof.
  intros Hn E. destruct (load_ok n a m bs Hn E) as [Hl _]. apply (emits_ext (to_output (pb_write bs n))).
  - intros s. unfold write_from. rewrite (run_bind_some _ _ s s s) by done. destruct ((0 <? n) && o_callback s && _) eqn:Hb.
    + unfold read_at. cbv [mbind run_bind]. by rewrite E.
    + unfold to_output, pb_write. rewrite !(bind_some _ _ _ s s) by done. destruct ((0 <? n) && o_callback s); cbn [andb] in Hb; [|done].
      apply negb_false_iff in Hb. by rewrite Hb.
  - apply emits_writes. rewrite <- Hl. apply writes_write.
Qed.
Lemma emits_string_at a n bs : is_u64 n → load n a m = Some bs → emits (X := X) (encode_string_at m a n) (plain (framed bs)).
Proof.
  intros Hn E. destruct (load_ok n a m bs ltac:(word_bounds; lia) E) as [Hl _]. unfold framed. rewrite Hl.
  apply (emits_seq _ _ (plain (varint_of n)) (plain bs)); [by apply emits_writes, writes_varint|]. apply emits_write_from; [word_bounds; lia|done].
Qed.
Lemma emits_load n a k w : (∀ bs, load n a m = Some bs → emits (k bs) (w bs)) → emits (X := X) (bs ← read_at m n a; k bs) (bs ← load n a m; w bs).
Proof. intros H. apply emits_bind; [apply computes_read|exact H]. Qed.
End Read.

(** ** Values *)

Class EncodersOk (X : Type) `{!Sink X, !SinkOk X, !Encoders X, !UserWire} := {
  user_encode_ok callback f arg m : emits (user_encode callback f arg m) (callback_wire callback f arg m);
  user_encode_extension_ok encode ext m : emits (user_encode_extension encode ext m) (extension_wire encode ext m) }.

Lemma computes_size_range m a n : size_in m a = Some n → is_u32 n.
Proof. intros (bs & _ & [= <-])%bind_Some. by apply wrap_is_uint. Qed.
Lemma is_u64_small n : 0 ≤ n < 2 ^ 32 → is_u64 n.
Proof. intros H. word_bounds. lia. Qed.

Section Values.
Context {X : Type} {sink : Sink X} {sink_ok : SinkOk X} {tables : Tables} {extensions : Extensions} {encoders : Encoders X} {user : UserWire} (m : memory).
Hypothesis Hm : memory_ok m.
Context (encode : pb_fields → Z → run (pb_ostream X) unit) (message : pb_fields → Z → wire_result).
Hypothesis Hencode : ∀ id a, emits (encode (fields_of id) a) (message (fields_of id) a).

Lemma emits_varint v bs : is_u64 v → varint_of v = bs → emits (X := X) (to_output (pb_encode_varint v)) (plain bs).
Proof. intros Hv <-. by apply emits_writes, writes_varint. Qed.
Lemma emits_loaded n a k w : 0 ≤ n → (∀ bs, zlen bs = n → bytes_ok bs → emits (k bs) (w bs)) → emits (X := X) (bs ← read_at m n a; k bs) (bs ← load n a m; w bs).
Proof using Hm. intros Hn H. apply emits_load. intros bs E. destruct (load_ok n a m bs Hn E). auto. Qed.
Lemma emits_object f a k w : 0 ≤ data_size f → (∀ bs, zlen bs = data_size f → bytes_ok bs → emits (k (le_val bs)) (w bs)) →
  emits (X := X) (v ← read_object m f a; k v) (bs ← load (data_size f) a m; w bs).
Proof using Hm.
  intros Hn H. apply (emits_ext (bs ← read_at m (data_size f) a; k (le_val bs))).
  - intros s. unfold read_object. cbv [mbind run_bind]. by destruct (read_at _ _ _ _) as [[[?|] ?]|].
  - by apply (emits_loaded (data_size f) a (λ bs, k (le_val bs))).
Qed.
(** The three kinds of integers: [value] is the number, [code] what stands for it. *)
Lemma emits_int f a k t : (∀ bs, int_size (data_size f) = true → zlen bs = data_size f → bytes_ok bs → emits (k (le_val bs)) (plain (wire t bs))) →
  emits (X := X) (if int_size (data_size f) then v ← read_object m f a; k v else fail_with "invalid data_size")
    (if integer_size (data_size f) then bs ← load (data_size f) a m; plain (wire t bs) else refused).
Proof using Hm.
  intros H. rewrite integer_size_eq. apply emits_if; [|intros _; apply emits_error]. intros Hi. apply (emits_object f a k (λ bs, plain (wire t bs))).
  - apply int_size_cases in Hi. lia.
  - intros bs. by apply H.
Qed.
Lemma emits_scalar t f a : PB_LTYPE (type f) = Scalar t → emits (PB_ENCODERS m encode f a) (scalar_wire m t (data_size f) a).
Proof using Hm.
  intros Ht. unfold PB_ENCODERS. rewrite Ht. destruct t; cbn [scalar_wire].
  - apply (emits_bind (safe_read_bool m a) (flag_in m a)); [apply computes_flag|]. intros [] _; by apply emits_varint.
  - apply (emits_int f a _ PB_LTYPE_VARINT). intros bs Hi Hl Hb. apply emits_varint; [by apply wrap_is_uint|]. cbn. by rewrite Hl.
  - apply (emits_int f a _ PB_LTYPE_UVARINT). intros bs Hi Hl Hb. apply emits_varint; [|done]. pose proof (le_val_bound bs Hb) as H. rewrite Hl, pow256_pow2 in H by (apply int_size_cases in Hi; lia).
    destruct (narrow_bound _ Hi) as [Hn _]. apply (is_uint_mono (8 * data_size f) 64); [lia|exact H].
  - apply (emits_int f a _ PB_LTYPE_SVARINT). intros bs Hi Hl Hb. destruct (signed_object _ bs Hi Hl Hb) as [Hv _]. destruct (narrow_bound _ Hi) as (_ & H63 & _).
    cbn [wire]. rewrite Hl. apply emits_writes, writes_svarint. lia.
  - apply (emits_loaded 4 a _ plain); [done|]. intros bs Hl Hb. apply emits_writes. assert (length bs = 4%nat) as Hlen by (unfold zlen in Hl; lia).
    rewrite <- (le_bytes_le_val bs Hb) at 2. rewrite Hlen. apply writes_fixed32.
  - apply (emits_loaded 8 a _ plain); [done|]. intros bs Hl Hb. apply emits_writes. assert (length bs = 8%nat) as Hlen by (unfold zlen in Hl; lia).
    rewrite <- (le_bytes_le_val bs Hb) at 2. rewrite Hlen. apply writes_fixed64.
Qed.
Lemma emits_empty_string : emits (X := X) (to_output (pb_encode_string [] 0)) (plain (framed [])).
Proof. apply emits_writes. apply (writes_string []). done. Qed.
Lemma emits_bytes f a : emits (X := X) (pb_enc_bytes m f a) (bytes_wire m f a).
Proof using Hm.
  unfold pb_enc_bytes, bytes_wire. apply emits_if; intros _; [apply emits_empty_string|].
  apply (emits_ext (n ← read_size m a; if bool_decide (PB_ATYPE (type f) = PB_ATYPE_STATIC) && (u64 (data_size f - 4) <? n) then fail_with "bytes size exceeded" else encode_string_at m (a + 4) n)).
  - intros s. pose proof (computes_size (X := X) m a) as H. destruct (size_in m a) as [n|] eqn:E; cbn in H.
    + rewrite (run_bind_some _ _ _ _ _ (H s)). case_decide as Hd.
      * rewrite bool_decide_true by done. cbv [mbind run_bind]. rewrite H. cbn. destruct (_ <? _); [done|]. by rewrite H.
      * rewrite bool_decide_false by done. cbv [mbind run_bind mret run_ret]. by rewrite H.
    + assert (read_size (X := X) m a s = None) as Hn.
      { unfold size_in in E. unfold read_size, read_at. cbv [mbind run_bind]. destruct (load sizeof_size a m) as [l|]; [done|done]. }
      case_decide; cbv [mbind run_bind mret run_ret]; by rewrite Hn.
  - apply (emits_bind _ (size_in m a)); [apply computes_size|]. intros n En. apply emits_if; intros _; [apply emits_error|].
    destruct (load n (a + 4) m) as [bs|] eqn:El; [|done]. apply emits_string_at; [|done]. apply is_u64_small, (computes_size_range m a n En).
Qed.
Lemma emits_string f a : 0 ≤ data_size f < 2 ^ 32 → emits (X := X) (pb_enc_string m f a) (string_wire m f a).
Proof.
  intros Hd. unfold pb_enc_string, string_wire. set (max := if decide _ then _ else _). assert (0 ≤ max < 2 ^ 64) as Hmax by (unfold max; case_decide; lia). clearbody max.
  unfold string_in. destruct (a =? 0) eqn:Ha.
  - apply (emits_ext (encode_string_at m a 0)); [done|]. by apply emits_string_at.
  - destruct (c_string m _ max a) as [s|] eqn:E; [|done]. cbn. destruct (strnlen_exact (X := X) m _ 0 max a s E ltac:(lia) ltac:(lia)) as (H1 & H2 & H3).
    apply (emits_ext (encode_string_at m a (zlen s))); [intros t; rewrite (run_bind_some _ _ _ _ _ (H1 t)); by rewrite Z.add_0_l|].
    apply emits_string_at; [pose proof (zlen_nonneg s); word_bounds; lia|]. unfold load. by rewrite to_nat_zlen.
Qed.
Lemma emits_value f a : entry_ok f → emits (PB_ENCODERS m encode f a) (value_wire m message f a).
Proof using Hm Hencode.
  intros [_ Hs _]. unfold value_wire. destruct (PB_LTYPE (type f)) as [t| | | | | |] eqn:Et; unfold PB_ENCODERS; rewrite ?Et; try done.
  - pose proof (emits_scalar t f a Et) as H. unfold PB_ENCODERS in H. by rewrite Et in H.
  - apply emits_bytes.
  - by apply emits_string.
  - unfold pb_enc_submessage. destruct (ptr f) as [|id|]; [apply emits_error|apply emits_submessage, Hencode|done].
  - destruct (load (data_size f) a m) as [bs|] eqn:E; [|done]. apply emits_string_at; [by apply is_u64_small|done].
Qed.
Lemma emits_key f : entry_ok f → emits (X := X) (pb_encode_tag_for_field f) (key_wire f).
Proof.
  intros [Ht _ _]. unfold pb_encode_tag_for_field. rewrite key_wire_eq. destruct (wire_type_for _) as [w|] eqn:E; [|apply emits_error].
  apply emits_writes, writes_tag; [|done]. destruct (PB_LTYPE (type f)) as [[]| | | | | |]; cbn in E; try discriminate E; injection E as <-; done.
Qed.
Lemma emits_entry f a : entry_ok f → emits (encode_value m encode f a) (entry_wire m message f a).
Proof using Hm Hencode. intros Hf. apply emits_seq; [by apply emits_key|by apply emits_value]. Qed.
End Values.

(** ** Arrays and presence *)

Section Fields.
Context {X : Type} {sink : Sink X} {sink_ok : SinkOk X} {tables : Tables} {extensions : Extensions} {encoders : Encoders X} {user : UserWire}.
Context {entries : EntriesOk} (m : memory).
Hypothesis Hm : memory_ok m.
Section Arrays.
Context (encode : pb_fields → Z → run (pb_ostream X) unit) (message : pb_fields → Z → wire_result).
Hypothesis Hencode : ∀ id a, emits (encode (fields_of id) a) (message (fields_of id) a).

Lemma emits_packed_items f : entry_ok f → ∀ n a, emits (encode_packed_items m encode n f a) (items_wire (value_wire m message f) (data_size f) n a).
Proof using Hm Hencode.
  intros Hf. induction n as [|n IH]; intros a; [apply emits_nothing|]. apply emits_seq; [by apply emits_value|apply IH].
Qed.
Lemma emits_unpacked_items f : entry_ok f → ∀ n a, emits (encode_unpacked_items m encode n f a) (items_wire (item_wire m message f) (data_size f) n a).
Proof using Hm Hencode.
  intros Hf. induction n as [|n IH]; intros a; [apply emits_nothing|]. cbn [encode_unpacked_items items_wire].
  apply (emits_ext (_ ← (_ ← pb_encode_tag_for_field f; if is_string_or_bytes_pointer f then q ← read_pointer m a; PB_ENCODERS m encode f q else PB_ENCODERS m encode f a);
    encode_unpacked_items m encode n f (a + data_size f))).
  - intros s. cbv [mbind run_bind]. by destruct (pb_encode_tag_for_field f s) as [[[|] ?]|].
  - apply emits_seq; [|apply IH]. unfold item_wire. rewrite <- pointer_items_eq. destruct (is_string_or_bytes_pointer f); apply emits_seq; try by apply emits_key.
    + apply emits_bind; [apply computes_pointer|]. intros p _. by apply emits_value.
    + by apply emits_value.
Qed.
(** Items of fixed size need not be counted. *)
Lemma items_wire_fixed f k : PB_LTYPE (type f) = Scalar PB_LTYPE_FIXED32 ∧ k = 4 ∨ PB_LTYPE (type f) = Scalar PB_LTYPE_FIXED64 ∧ k = 8 →
  ∀ n a bs ok, items_wire (value_wire m message f) (data_size f) n a = Some (bs, ok) → ok = true ∧ zlen bs = k * Z.of_nat n.
Proof.
  intros Hk. induction n as [|n IH]; intros a bs ok; cbn [items_wire]; [intros [= <- <-]; rewrite zlen_nil; split; [done|lia]|].
  assert (∀ v, value_wire m message f a = Some v → ∃ vs, v = (vs, true) ∧ zlen vs = k) as Hv.
  { intros v. unfold value_wire. destruct Hk as [[-> ->]|[-> ->]]; cbn; intros (vs & E & [= <-])%bind_Some; exists vs; (split; [done|]); by apply load_ok in E as [? _]. }
  destruct (value_wire m message f a) as [v|]; [|done]. destruct (Hv v eq_refl) as (vs & -> & Hl). cbn [followed].
  destruct (items_wire _ _ n _) as [[bs' ok']|] eqn:E; [|done]. intros [= <- <-]. destruct (IH _ _ _ E) as [-> Hl']. split; [done|]. rewrite zlen_app. lia.
Qed.
(** The size of a packed array: counted on a stream of its own, or computed. *)
Lemma packed_size_exact f n a bs ok s : entry_ok f → 0 ≤ n < 2 ^ 32 → zlen bs < 2 ^ 64 →
  items_wire (value_wire m message f) (data_size f) (Z.to_nat n) a = Some (bs, ok) →
  packed_size m encode f a n s = Some (if ok then Some (zlen bs) else None, s).
Proof using Hm Hencode.
  intros Hf Hn Hl E. pose proof (emits_packed_items f Hf (Z.to_nat n) a) as H. rewrite E in H. destruct (emits_sizing _ _ _ (o_state s) H Hl) as (s' & E' & Hc).
  assert (∀ k, (PB_LTYPE (type f) = Scalar PB_LTYPE_FIXED32 ∧ k = 4 ∨ PB_LTYPE (type f) = Scalar PB_LTYPE_FIXED64 ∧ k = 8) → ok = true ∧ u64 (k * n) = zlen bs) as Hfix.
  { intros k Hk. destruct (items_wire_fixed f k Hk _ _ _ _ E) as [-> ->]. split; [done|]. rewrite Z2Nat.id by lia. apply wrap_small. word_bounds. destruct Hk as [[_ ->]|[_ ->]]; lia. }
  assert (match encode_packed_items m encode (Z.to_nat n) f a (PB_OSTREAM_SIZING (o_state s)) with
    | None => None | Some (None, _) => Some (None, s) | Some (Some _, sizestream) => Some (Some (bytes_written sizestream), s) end = Some (if ok then Some (zlen bs) else None, s)) as Hvar.
  { rewrite E'. destruct ok; [by rewrite Hc|done]. }
  unfold packed_size. destruct (PB_LTYPE (type f)) as [[]| | | | | |]; try exact Hvar; cbn.
  - destruct (Hfix 4) as [-> ->]; [by left|done].
  - destruct (Hfix 8) as [-> ->]; [by right|done].
Qed.
Lemma emits_packed f n a : entry_ok f → 0 ≤ n < 2 ^ 32 →
  emits (size ← packed_size m encode f a n; _ ← to_output (pb_encode_varint size); s ← run_get;
         if negb (o_callback s) then to_output (pb_write [] size) else encode_packed_items m encode (Z.to_nat n) f a)
    (framed_result (items_wire (value_wire m message f) (data_size f) (Z.to_nat n) a)).
Proof using Hm Hencode.
  intros Hf Hn. destruct (items_wire _ _ _ _) as [[bs ok]|] eqn:E; [|done]. apply framed_cases. intros Hl. pose proof (zlen_nonneg bs).
  pose proof (emits_packed_items f Hf (Z.to_nat n) a) as H0. rewrite E in H0. destruct ok.
  - eapply (emits_behind_size _ (zlen bs)); [|done|word_bounds; lia|by apply emits_counted]. intros s.
    by rewrite (run_bind_some _ _ _ _ _ (packed_size_exact f n a bs true s Hf Hn Hl E)).
  - apply emits_fail. intros s. exists s. by rewrite (run_bind_none _ _ _ _ (packed_size_exact f n a bs false s Hf Hn Hl E)).
Qed.
Lemma emits_array f a n : entry_ok f → 0 ≤ n < 2 ^ 32 → emits (encode_array m encode f a n) (array_wire m message f a n).
Proof using Hm Hencode.
  intros Hf Hn. unfold encode_array, array_wire. apply emits_if; intros _; [apply emits_nothing|]. apply emits_if; intros _; [apply emits_error|].
  apply emits_if; intros _; [|by apply emits_unpacked_items]. apply (emits_seq _ _ (plain _)); [|by apply emits_packed].
  apply emits_writes. rewrite packed_key. apply writes_tag; [done|]. by destruct Hf.
Qed.

(** ** Presence *)

Lemma computes_all_zero n a : computes (X := X) (all_zero m n a) (zero_in m n a).
Proof. apply computes_map, computes_read. Qed.
Lemma computes_is_zero a : computes (X := X) (n ← read_size m a; mret (n =? 0)) (n ← size_in m a; Some (n =? 0)).
Proof. apply (computes_map _ _ (λ n, n =? 0)), computes_size. Qed.
Lemma computes_explicit f a : computes (X := X) (explicit_default m f a) (explicit_in m f a).
Proof.
  assert (computes (X := X) (n ← read_size m (a + size_offset f); mret (Some (n =? 0))) (n ← size_in m (a + size_offset f); Some (Some (n =? 0)))) as Hn
    by apply (computes_map _ _ (λ n, Some (n =? 0))), computes_size.
  unfold explicit_default, explicit_in. destruct (PB_HTYPE (type f)); [done| | |exact Hn]; (destruct (negb (size_offset f =? 0)); [|try done]).
  - apply (computes_map _ _ (λ b, Some (negb b))), computes_flag.
  - exact Hn.
  - by case_decide.
Qed.
(** The walk over the fields of a message that stops early. *)
Lemma computes_all_default check p fs dest : table_ok fs → dest ≠ 0 →
  (∀ j sl, slots fs !! j = Some sl → computes (X := X) (check (sl_field sl) (dest + sl_data sl)) (p sl)) →
  ∀ l j sl fuel, drop j (slots fs) = sl :: l → (length l < fuel)%nat → computes (all_default fuel check (at_slot fs dest j sl)) (all_of p (sl :: l)).
Proof.
  intros Hok Hd Hp. induction l as [|sl' l IH]; intros j sl fuel Hdrop Hf; (destruct fuel as [|fuel]; [cbn in Hf; lia|]); cbn [all_default all_of].
  all: assert (slots fs !! j = Some sl) as E by (rewrite <- (Nat.add_0_r j), <- lookup_drop, Hdrop; done).
  all: assert (drop (j + 1) (slots fs) = match drop j (slots fs) with [] => [] | _ :: l => l end) as Hd' by (rewrite <- drop_drop, Hdrop; done).
  all: rewrite Hdrop, Nat.add_1_r in Hd'.
  all: apply computes_bind; [unfold field_at; cbn; rewrite (nth_field _ _ _ E); by apply (Hp j)|]; intros b _; destruct b; [cbn [negb]|done].
  all: rewrite (iter_next_exact fs dest Hok Hd j _ (stands_at fs dest j sl E)); unfold succ_slot.
  - assert (slots fs !! Datatypes.S j = None) as -> by (rewrite <- (Nat.add_0_r (Datatypes.S j)), <- lookup_drop, Hd'; done).
    by destruct (slots fs !! 0%nat).
  - assert (slots fs !! Datatypes.S j = Some sl') as -> by (rewrite <- (Nat.add_0_r (Datatypes.S j)), <- lookup_drop, Hd'; done).
    apply IH; [done|cbn in Hf; lia].
Qed.
End Arrays.

Lemma entries_table id : table_ok (fields_of id).
Proof using entries. eapply Forall_impl; [apply entries_ok|]. intros f [Ht _ _]. lia. Qed.
Lemma slot_entry id j sl : slots (fields_of id) !! j = Some sl → entry_ok (sl_field sl).
Proof using entries. intros E. exact (Forall_lookup_1 _ _ _ _ (entries_ok id) (slots_field _ _ _ E)). Qed.

(** A pointer compared by its bytes, where that says the same as comparing it with null. *)
Lemma computes_pointer_default (b : bool) n a :
  computes (X := X) (if b then all_zero m n a else p ← read_pointer m a; mret (p =? 0))
    (p ← pointer_in m a; if b then zero ← zero_in m n a; if bool_decide (zero = (p =? 0)) then Some (p =? 0) else None else Some (p =? 0)).
Proof.
  destruct b; [|apply (computes_map _ _ (λ p, p =? 0)), computes_pointer]. destruct (pointer_in m a) as [p|]; [|done].
  pose proof (computes_all_zero n a) as H. cbn [mbind option_bind]. destruct (zero_in m n a) as [z|]; [|done]. cbn [mbind option_bind].
  case_bool_decide as E; [|done]. by rewrite <- E.
Qed.
(** What is read of a pointer whose presence does not depend on it. *)
Lemma pointer_default_read depth f a p z s : PB_HTYPE (type f) = PB_HTYPE_OPTIONAL → size_offset f = 0 → PB_ATYPE (type f) = PB_ATYPE_POINTER →
  pointer_in m a = Some p → zero_in m (if packable (PB_LTYPE (type f)) then data_size f else 0) a = Some z →
  ∃ b, pb_check_proto3_default_value (X := X) m (S depth) f a s = Some (Some b, s).
Proof.
  intros Hh Hs Ha Hp Hz. cbn [pb_check_proto3_default_value]. unfold explicit_default. rewrite Hh, Hs. cbn [Z.eqb negb].
  rewrite (run_bind_some _ _ s None s) by done. unfold singular_default. rewrite Ha. destruct (packable _).
  - pose proof (computes_all_zero (data_size f) a) as H. rewrite Hz in H. eexists. apply H.
  - pose proof (computes_pointer (X := X) m a) as H. rewrite Hp in H. eexists. by rewrite (run_bind_some _ _ _ _ _ (H s)).
Qed.
Lemma computes_default depth : ∀ f a, computes (X := X) (pb_check_proto3_default_value m depth f a) (default_in m depth f a).
Proof using entries.
  induction depth as [|depth IH]; intros f a; [done|]. cbn [pb_check_proto3_default_value default_in].
  apply computes_bind; [apply computes_explicit|]. intros [b|] _; [done|]. unfold singular_default.
  destruct (PB_ATYPE (type f)); [destruct (PB_LTYPE (type f)) as [t| | | | | |]| | |].
  all: lazymatch goal with
    | |- computes (all_zero _ _ _) _ => apply computes_all_zero
    | |- computes (if _ then _ else _) _ => apply computes_pointer_default
    | _ => idtac end.
  - apply computes_is_zero.
  - by apply (computes_char m a (λ c, mret (c =? 0)) (λ c, Some (c =? 0))).
  - destruct (ptr f) as [|id|]; [done| |done]. destruct (Z.eqb_spec a 0) as [|Ha]; [done|]. rewrite (iter_begin_exact _ _ (entries_table id) Ha).
    destruct (slots (fields_of id)) as [|sl l] eqn:E; [done|]. cbv iota. cbn [start at_slot]. rewrite <- (length_slots (fields_of id)), E.
    apply (computes_all_default _ (λ sl, default_in m depth (sl_field sl) (a + sl_data sl))); [apply entries_table|done|intros; apply IH|done|cbn; lia].
  - apply computes_ret.
Qed.
End Fields.

(** ** Fields and messages *)

Section Messages.
Context {X : Type} {sink : Sink X} {sink_ok : SinkOk X} {tables : Tables} {extensions : Extensions} {encoders : Encoders X} {user : UserWire}.
Context {entries : EntriesOk} {user_ok : EncodersOk X} (m : memory).
Hypothesis Hm : memory_ok m.
Section Fields.
Context (encode : pb_fields → Z → run (pb_ostream X) unit) (message : pb_fields → Z → wire_result) (depth : nat).
Hypothesis Hencode : ∀ id a, emits (encode (fields_of id) a) (message (fields_of id) a).
Hypothesis Hdepth : (0 < depth)%nat.

Lemma computes_implicit f a : PB_HTYPE (type f) = PB_HTYPE_OPTIONAL → size_offset f = 0 →
  computes (X := X) (implicit_presence m depth f a) (d ← default_in m depth f a; Some (negb d)).
Proof using entries.
  intros Hh Hs. unfold implicit_presence. rewrite Hs, decide_True by done. cbn [Z.eqb negb]. apply (computes_map _ _ negb). by apply computes_default.
Qed.
Lemma implicit_other f a s : ¬ (PB_HTYPE (type f) = PB_HTYPE_OPTIONAL ∧ size_offset f = 0) → ∃ b, implicit_presence (X := X) m depth f a s = Some (Some b, s).
Proof.
  intros H. unfold implicit_presence. destruct (Z.eqb_spec (size_offset f) 0); cbn [negb]; [|by eexists]. rewrite decide_False by tauto. by eexists.
Qed.
(** What [encode_basic_field] knows after it followed the pointer. *)
Definition target_of (f : pb_field) (a : Z) (implicit_has : bool) : run (pb_ostream X) (Z * bool) :=
  if decide (PB_ATYPE (type f) = PB_ATYPE_POINTER) then p ← read_pointer m a; mret (p, negb (p =? 0)) else mret (a, implicit_has).
Definition target_in (f : pb_field) (a : Z) : option Z := if bool_decide (PB_ATYPE (type f) = PB_ATYPE_POINTER) then pointer_in m a else Some a.
Lemma target_exact f a b : computes (target_of f a b) (t ← target_in f a; Some (t, if bool_decide (PB_ATYPE (type f) = PB_ATYPE_POINTER) then negb (t =? 0) else b)).
Proof.
  unfold target_of, target_in. case_decide as Hd; [rewrite bool_decide_true by done|rewrite bool_decide_false by done; apply computes_ret].
  apply (computes_map _ _ (λ p, (p, negb (p =? 0)))), computes_pointer.
Qed.
(** A field whose presence is not read from its value. *)
Lemma emits_target f a k w : ¬ (PB_HTYPE (type f) = PB_HTYPE_OPTIONAL ∧ size_offset f = 0) → (∀ t b, emits (k (t, b)) (w t)) →
  emits (b ← implicit_presence m depth f a; x ← target_of f a b; k x) (t ← target_in f a; w t).
Proof.
  intros Hn Hk. destruct (target_in f a) as [t|] eqn:Et; [|done].
  pose proof (target_exact f a) as Ht. rewrite Et in Ht. cbn in Ht. cbn [mbind option_bind].
  destruct (w t) as [[bs ok]|] eqn:Ew; [|done]. intros s Hs. destruct (implicit_other f a s Hn) as [b Eb].
  rewrite (run_bind_some _ _ _ _ _ Eb), (run_bind_some _ _ _ _ _ (Ht b s)).
  pose proof (Hk t (if bool_decide (PB_ATYPE (type f) = PB_ATYPE_POINTER) then negb (t =? 0) else b)) as H. rewrite Ew in H. by apply H.
Qed.
(** The end of [encode_basic_field]. *)
Definition encode_target (f : pb_field) (a : Z) (x : Z * bool) : run (pb_ostream X) unit :=
  let explicit := negb (size_offset f =? 0) in
  let '(t, implicit_has) := x in
  match PB_HTYPE (type f) with
  | PB_HTYPE_REQUIRED => if t =? 0 then fail_with "missing required field" else encode_value m encode f t
  | PB_HTYPE_OPTIONAL =>
      present ← (if explicit then safe_read_bool m (a + size_offset f) else mret implicit_has);
      if present : bool then encode_value m encode f t else mret tt
  | PB_HTYPE_REPEATED =>
      count ← (if explicit then read_size m (a + size_offset f) else mret (array_size f));
      encode_array m encode f t count
  | PB_HTYPE_ONEOF =>
      which ← (if explicit then read_size m (a + size_offset f) else undefined);
      if which =? tag f then encode_value m encode f t else mret tt
  end.
Lemma encode_basic_field_eq f a : encode_basic_field m encode depth f a = (b ← implicit_presence m depth f a; x ← target_of f a b; encode_target f a x).
Proof. done. Qed.
Lemma emits_present f t c v : entry_ok f → computes c v →
  emits (present ← c; if present : bool then encode_value m encode f t else mret tt) (present ← v; if present : bool then entry_wire m message f t else plain []).
Proof using Hm Hencode.
  intros Hf Hc. apply emits_bind; [exact Hc|]. intros [] _; [by apply emits_entry|apply emits_nothing].
Qed.
Lemma emits_implicit f a : entry_ok f → PB_HTYPE (type f) = PB_HTYPE_OPTIONAL → size_offset f = 0 →
  emits (encode_basic_field m encode depth f a) (field_wire m message depth f a).
Proof using Hm Hencode Hdepth entries.
  intros Hf Hh Hs. rewrite encode_basic_field_eq. unfold field_wire. rewrite Hh, Hs. cbn [Z.eqb negb]. fold (target_in f a).
  destruct (target_in f a) as [t|] eqn:Et; [|done]. cbn [mbind option_bind].
  assert (∀ d, let b := if bool_decide (PB_ATYPE (type f) = PB_ATYPE_POINTER) then negb (t =? 0) else negb d in
    (∀ s, ∃ d', implicit_presence (X := X) m depth f a s = Some (Some d', s) ∧
       (bool_decide (PB_ATYPE (type f) = PB_ATYPE_POINTER) = false → d' = negb d)) →
    emits (encode_basic_field m encode depth f a) (if b : bool then entry_wire m message f t else plain [])) as Hemit.
  { intros d b Hi. apply (emits_ext (encode_target f a (t, b))).
    - intros s. rewrite encode_basic_field_eq. destruct (Hi s) as (d' & Ed & Hd). pose proof (target_exact f a d') as Ht. rewrite Et in Ht. cbn in Ht.
      rewrite (run_bind_some _ _ _ _ _ Ed), (run_bind_some _ _ _ _ _ (Ht s)). unfold b. destruct (bool_decide _); [done|by rewrite Hd].
    - unfold encode_target. rewrite Hh, Hs. cbn [Z.eqb negb]. apply (emits_present f t (mret b) (Some b) Hf). done. }
  unfold target_in in Et. rewrite encode_basic_field_eq in Hemit. destruct (bool_decide_reflect (PB_ATYPE (type f) = PB_ATYPE_POINTER)) as [Ha|Ha].
  - destruct (zero_in m _ a) as [z|] eqn:Ez; [|done]. apply (Hemit true). intros s.
    destruct depth as [|d']; [lia|]. destruct (pointer_default_read m d' f a t z s Hh Hs Ha Et Ez) as [b Eb]. exists (negb b). split; [|done].
    unfold implicit_presence. rewrite Hs, decide_True by done. cbn [Z.eqb negb]. by rewrite (run_bind_some _ _ _ _ _ Eb).
  - pose proof (computes_implicit f a Hh Hs) as Hi. destruct (default_in m depth f a) as [d|]; [|done]. cbn in Hi. apply (Hemit d). eauto.
Qed.
Lemma emits_basic_field f a : entry_ok f → emits (encode_basic_field m encode depth f a) (field_wire m message depth f a).
Proof using Hm Hencode Hdepth entries.
  intros Hf. destruct (decide (PB_HTYPE (type f) = PB_HTYPE_OPTIONAL ∧ size_offset f = 0)) as [[Hh Hs]|Hn]; [by apply emits_implicit|].
  rewrite encode_basic_field_eq. unfold field_wire. fold (target_in f a). apply emits_target; [done|]. intros t b. unfold encode_target.
  destruct (PB_HTYPE (type f)) eqn:Hh.
  - apply emits_if; intros _; [apply emits_error|by apply emits_entry].
  - destruct (Z.eqb_spec (size_offset f) 0) as [Hs|Hs]; [by destruct Hn|]. cbn [negb]. apply emits_present; [done|apply computes_flag].
  - apply emits_bind; [apply computes_if; intros _; [apply computes_size|apply computes_ret]|]. intros n En. apply emits_array; [done|done|done|].
    destruct (negb _); [by apply (computes_size_range m (a + size_offset f))|]. injection En as <-. by destruct Hf.
  - apply emits_bind; [apply computes_if; intros _; [apply computes_size|done]|]. intros n _. apply emits_if; intros _; [by apply emits_entry|apply emits_nothing].
Qed.
Lemma emits_callback_field f a : emits (encode_callback_field m f a) (callback_field_wire m f a).
Proof using user_ok.
  apply emits_bind; [apply computes_pointer|]. intros c _. apply emits_if; intros _; [apply emits_nothing|].
  pose proof (user_encode_ok c f (a + sizeof_ptr) m) as H. destruct (callback_wire _ _ _ _) as [[bs ok]|]; [|done]. intros s Hs. specialize (H s Hs) as [H1 H2]. unfold run_status. split.
  - intros Hfit. destruct (H1 Hfit) as (s' & E & W). destruct ok.
    + exists s'. split; [|exact W]. cbv [mbind run_bind]. by rewrite E.
    + eexists. split; [cbv [mbind run_bind]; rewrite E; reflexivity|done].
  - intros Hcb Hl. destruct (H2 Hcb Hl) as (s' & E & He). eexists. split; [cbv [mbind run_bind]; rewrite E; reflexivity|]. cbn. done.
Qed.
Lemma emits_field f a : entry_ok f → emits (encode_field m encode depth f a) (any_field_wire m message depth f a).
Proof using Hm Hencode Hdepth entries user_ok.
  intros Hf. unfold encode_field, any_field_wire.
  destruct (PB_ATYPE (type f)); [by apply emits_basic_field|by apply emits_basic_field|apply emits_callback_field|apply emits_error].
Qed.
Lemma emits_extensions fuel : ∀ ext, emits (encode_extension_loop m encode fuel depth ext) (extensions_wire m message fuel depth ext).
Proof using Hm Hencode Hdepth entries user_ok.
  induction fuel as [|fuel IH]; intros ext; [done|]. cbn [encode_extension_loop extensions_wire]. apply emits_if; intros _; [apply emits_nothing|].
  pose proof (computes_pointer (X := X) m ext) as Hp. unfold default_extension_encoder.
  destruct (pointer_in m ext) as [t|] eqn:Et; [|done]. cbn in Hp. cbn [mbind option_bind].
  apply (emits_ext (_ ← (if negb (ext_encode (extension_type t) =? 0) then user_encode_extension (ext_encode (extension_type t)) ext m else
      if decide (PB_ATYPE (type (ext_arg (extension_type t))) = PB_ATYPE_POINTER) then encode_field m encode depth (ext_arg (extension_type t)) (ext + 8)
      else dest ← read_pointer m (ext + 8); encode_field m encode depth (ext_arg (extension_type t)) dest);
      next ← read_pointer m (ext + 16); encode_extension_loop m encode fuel depth next)).
  - intros s. rewrite (run_bind_some _ _ _ _ _ (Hp s)). destruct (negb _); [done|]. cbv [mbind run_bind]. by rewrite Hp.
  - apply emits_seq; [|apply emits_bind; [apply computes_pointer|intros next _; apply IH]]. apply emits_if; intros _; [apply user_encode_extension_ok|].
    unfold own_extension_wire. pose proof (extension_entry_ok t) as Hf. apply emits_decide; intros _; [by apply emits_field|].
    apply emits_bind; [apply computes_pointer|]. intros dest _. by apply emits_field.
Qed.
Lemma emits_slot src sl it : entry_ok (sl_field sl) → field_at it = sl_field sl → pData it = src + sl_data sl →
  emits (if decide (PB_LTYPE (type (field_at it)) = PB_LTYPE_EXTENSION) then encode_extension_field m encode depth (pData it)
         else encode_field m encode depth (field_at it) (pData it)) (slot_wire m message depth src sl).
Proof using Hm Hencode Hdepth entries user_ok.
  intros Hf -> ->. unfold slot_wire. apply emits_decide; intros _; [|by apply emits_field].
  apply emits_bind; [apply computes_pointer|]. intros ext _. apply emits_extensions.
Qed.
End Fields.

Lemma emits_visit f w fs src l : ∀ j, drop j (slots fs) = l → (∀ j sl, slots fs !! j = Some sl → emits (X := X) (f (at_slot fs src j sl)) (w sl)) →
  emits (visit f fs src j l) (all_followed w l).
Proof.
  induction l as [|sl l IH]; intros j Hd Hf; [apply emits_nothing|].
  assert (slots fs !! j = Some sl) as E by (rewrite <- (Nat.add_0_r j), <- lookup_drop, Hd; done).
  cbn [visit all_followed foldr]. apply emits_seq; [by apply Hf|]. apply IH; [|done]. rewrite <- Nat.add_1_r, <- drop_drop, Hd. done.
Qed.
Lemma emits_message depth : ∀ id src, emits (pb_encode m depth (fields_of id) src) (message_wire m depth (fields_of id) src).
Proof using Hm entries user_ok.
  induction depth as [|depth IH]; intros id src; [done|]. cbn [pb_encode message_wire]. destruct (Z.eqb_spec src 0) as [|Hs]; [done|].
  rewrite (iter_begin_exact _ _ (entries_table id) Hs). destruct (slots (fields_of id)) as [|sl l] eqn:E; [apply emits_nothing|]. cbv iota.
  set (f := λ it, _). apply (emits_ext (visit f (fields_of id) src 0 (slots (fields_of id)))).
  - intros s. symmetry. exact (for_fields_exact _ _ (entries_table id) Hs f sl l s E).
  - rewrite <- E. apply emits_visit; [done|]. intros j sl' Ej. apply emits_slot; [done|lia|by eapply slot_entry| |done].
    unfold field_at. cbn. by apply nth_field.
Qed.
End Messages.
