(* ===== verification/PbRegion.v ===== *)
(** * Objects in memory, and decoders that fill them

    [region] says that an object lies in a memory, [poke] overwrites it.  [takes] is what a decoder of
    the machine does when all goes well: it takes bytes of the stream and changes an object. *)
From stdpp Require Import strings gmap.
From S2P Require Export PbRoundtrip PbDecode PbImage.

Definition region (p : Z) (img : bytes) (m : memory) : Prop := ∀ i : nat, (i < length img)%nat → cells m !! (p + Z.of_nat i) = img !! i.
Definition poke (p : Z) (img : bytes) (m : memory) : memory := Memory (map_seqZ p img ∪ cells m) (blocks m).

Lemma cells_poke p img m k : cells (poke p img m) !! k = if decide (p ≤ k < p + zlen img) then img !! Z.to_nat (k - p) else cells m !! k.
Proof.
  unfold poke. cbn. rewrite lookup_union, lookup_map_seqZ. unfold zlen. case_decide as Hd.
  - rewrite option_guard_True by lia. destruct (lookup_lt_is_Some_2 img (Z.to_nat (k - p))) as [x Hx]; [lia|]. cbn. rewrite Hx. by destruct (cells m !! k).
  - assert ((_ ← guard (p ≤ k); img !! Z.to_nat (k - p)) = None) as ->; [|by destruct (cells m !! k)].
    destruct (decide (p ≤ k)); [rewrite option_guard_True by done; apply lookup_ge_None_2; lia|by rewrite option_guard_False].
Qed.
Lemma memory_eq m m' : (∀ k, cells m !! k = cells m' !! k) → blocks m = blocks m' → m = m'.
Proof. destruct m, m'. cbn. intros H ->. f_equal. by apply map_eq. Qed.
Lemma region_at p img m k : region p img m → p ≤ k < p + zlen img → cells m !! k = img !! Z.to_nat (k - p).
Proof. intros H Hk. rewrite <- H by (unfold zlen in Hk; lia). f_equal. lia. Qed.
Lemma region_poke p img m : region p img (poke p img m).
Proof. intros i Hi. rewrite cells_poke, decide_True by (unfold zlen; lia). f_equal. lia. Qed.
Lemma poke_poke p img img' m : zlen img' = zlen img → poke p img' (poke p img m) = poke p img' m.
Proof. intros Hl. apply memory_eq; [|done]. intros k. rewrite !cells_poke, Hl. by case_decide. Qed.
Lemma poke_same p img m : region p img m → poke p img m = m.
Proof. intros H. apply memory_eq; [|done]. intros k. rewrite cells_poke. case_decide; [by rewrite (region_at p img m)|done]. Qed.
Lemma poke_inside p o x img m : region p img m → 0 ≤ o → o + zlen x ≤ zlen img → poke (p + o) x m = poke p (put o x img) m.
Proof.
  intros H Ho Hl. apply memory_eq; [|done]. intros k. rewrite !cells_poke, zlen_put by done. pose proof (zlen_nonneg x).
  destruct (decide (p ≤ k < p + zlen img)) as [Hk|Hk]; [|by rewrite decide_False by lia].
  rewrite lookup_put by done. destruct (decide (p + o ≤ k < p + o + zlen x)).
  - rewrite decide_True by (unfold zlen in *; lia). f_equal. lia.
  - rewrite decide_False by (unfold zlen in *; lia). by apply region_at.
Qed.
Lemma region_inside p o n img m : region p img m → 0 ≤ o → 0 ≤ n → o + n ≤ zlen img → region (p + o) (slice o n img) m.
Proof.
  intros H Ho Hn Hl i Hi. assert (zlen (slice o n img) = n) as Hz by (by apply zlen_slice). unfold zlen in *.
  rewrite lookup_slice by lia. rewrite <- H by lia. f_equal. lia.
Qed.
Lemma load_region p img m o n : region p img m → 0 ≤ o → 0 ≤ n → o + n ≤ zlen img → load n (p + o) m = Some (slice o n img).
Proof.
  intros H Ho Hn Hl. assert (zlen (slice o n img) = n) as Hz by (by apply zlen_slice). unfold load. apply load_cells_exact; [unfold zlen in Hz; lia|].
  intros i Hi. rewrite (region_inside p o n img m H Ho Hn Hl); [done|unfold zlen in Hz; lia].
Qed.
Lemma load_all p img m : region p img m → load (zlen img) p m = Some img.
Proof. intros H. rewrite <- (slice_all img) at 2. rewrite <- (load_region p img m 0 (zlen img)) by (done || apply zlen_nonneg || lia). by rewrite Z.add_0_r. Qed.
Lemma store_region p img m o bs : region p img m → 0 ≤ o → o + zlen bs ≤ zlen img → store (p + o) bs m = Some (poke p (put o bs img) m).
Proof.
  intros H Ho Hl. unfold store. rewrite store_cells_exact.
  - cbn. f_equal. change (poke (p + o) bs m = poke p (put o bs img) m). by apply poke_inside.
  - intros i Hi. rewrite (region_at p img m) by (done || unfold zlen in *; lia). apply lookup_lt_is_Some_2. unfold zlen in *. lia.
Qed.
Lemma put_inner o n bs img : 0 ≤ o → zlen bs ≤ n → o + n ≤ zlen img → put o (put 0 bs (slice o n img)) img = put o bs img.
Proof.
  intros Ho Hn Hl. pose proof (zlen_nonneg bs). assert (zlen (slice o n img) = n) as Hs by (apply zlen_slice; lia).
  assert (zlen (put 0 bs (slice o n img)) = n) as Hp by (rewrite zlen_put; lia). apply list_eq. intros i.
  rewrite (lookup_put o (put 0 bs _) img), (lookup_put o bs img) by lia. unfold zlen in *. destruct (decide (Z.to_nat o ≤ i < Z.to_nat o + length bs)%nat).
  - rewrite decide_True by lia. rewrite lookup_put by (unfold zlen; lia). rewrite decide_True by lia. f_equal. lia.
  - case_decide; [|done]. rewrite lookup_put by (unfold zlen; lia). rewrite decide_False by lia. rewrite lookup_slice by lia. f_equal. lia.
Qed.
Lemma put_put_same o x y img : 0 ≤ o → zlen x = zlen y → o + zlen x ≤ zlen img → put o y (put o x img) = put o y img.
Proof.
  intros Ho Hl Hi. apply list_eq. intros i. rewrite !lookup_put by (rewrite ?zlen_put; lia). unfold zlen in *. repeat case_decide; try lia; done.
Qed.

(** ** Decoders that succeed *)

Section Takes.
Context {Y : Type} {source : Source Y} {source_ok : SourceOk Y}.
Abbreviation M := (run (machine Y)).

(** [c] takes [e] from the stream and turns the object [img] at [p] into [img']. *)
Definition takes (c : M unit) (e : bytes) (p : Z) (img img' : bytes) : Prop := zlen img' = zlen img ∧
  ∀ i bs rest m k, in_ok i (e ++ bs) rest → region p img m →
  ∃ i', c (Machine i m k) = Some (Some tt, Machine i' (poke p img' m) k) ∧ in_ok i' bs rest.

Lemma run_some {A B} (c : M A) (f : A → M B) s a s' : c s = Some (Some a, s') → (c ≫= f) s = f a s'.
Proof. intros E. cbv [mbind run_bind]. by rewrite E. Qed.
Lemma takes_ret p img : takes (mret tt) [] p img img.
Proof. split; [done|]. intros i bs rest m k Hi Hr. exists i. split; [|done]. by rewrite (poke_same p img m). Qed.
Lemma takes_ext c c' e p img img' : (∀ s, c s = c' s) → takes c e p img img' → takes c' e p img img'.
Proof. intros E [Hl H]. split; [done|]. intros i bs rest m k Hi Hr. rewrite <- E. by apply H. Qed.
Lemma takes_bytes c e e' p img img' : e = e' → takes c e p img img' → takes c e' p img img'.
Proof. by intros ->. Qed.
Lemma takes_seq c c' e e' p img img1 img2 : takes c e p img img1 → takes c' e' p img1 img2 → takes (_ ← c; c') (e ++ e') p img img2.
Proof.
  intros [L1 H1] [L2 H2]. split; [lia|]. intros i bs rest m k Hi Hr. rewrite <- app_assoc in Hi. destruct (H1 i _ rest m k Hi Hr) as (i1 & E1 & Hi1).
  destruct (H2 i1 bs rest (poke p img1 m) k Hi1 (region_poke _ _ _)) as (i2 & E2 & Hi2). exists i2. rewrite (run_some _ _ _ _ _ E1), E2. split; [|done].
  by rewrite poke_poke by lia.
Qed.
Lemma takes_input {A} (c : st (pb_istream Y) A) v (f : A → M unit) e e' p img img' : consumes c e v → takes (f v) e' p img img' →
  takes (x ← on_input c; f x) (e ++ e') p img img'.
Proof.
  intros H1 [L2 H2]. split; [done|]. intros i bs rest m k Hi Hr. rewrite <- app_assoc in Hi. destruct (H1 i _ _ Hi) as (i1 & E1 & Hi1 & _).
  destruct (H2 i1 bs rest m k Hi1 Hr) as (i2 & E2 & Hi2). exists i2. split; [|done].
  rewrite (run_some _ _ _ v (Machine i1 m k)); [exact E2|]. unfold on_input. cbn. by rewrite E1.
Qed.
Lemma takes_load n o (f : bytes → M unit) e p img img' : 0 ≤ o → 0 ≤ n → o + n ≤ zlen img → takes (f (slice o n img)) e p img img' →
  takes (x ← load_at n (p + o); f x) e p img img'.
Proof.
  intros Ho Hn Hl [L H]. split; [done|]. intros i bs rest m k Hi Hr. destruct (H i bs rest m k Hi Hr) as (i' & E & Hi'). exists i'. split; [|done].
  rewrite (run_some _ _ _ (slice o n img) (Machine i m k)); [exact E|]. unfold load_at, on_memory. cbn. by rewrite (load_region p img m o n).
Qed.
Lemma takes_store o bs p img : 0 ≤ o → o + zlen bs ≤ zlen img → takes (store_at (p + o) bs) [] p img (put o bs img).
Proof.
  intros Ho Hl. split; [by apply zlen_put|]. intros i bs' rest m k Hi Hr. exists i. split; [|done].
  unfold store_at, on_memory. cbn. by rewrite (store_region p img m o bs).
Qed.
Lemma takes_store_all bs p img : zlen bs = zlen img → takes (store_at p bs) [] p img bs.
Proof. intros Hl. rewrite <- (put_all bs img Hl) at 2. rewrite <- (Z.add_0_r p) at 1. apply takes_store; lia. Qed.
(** On a part of an object. *)
Lemma takes_part c e p o n img x : 0 ≤ o → 0 ≤ n → o + n ≤ zlen img → takes c e (p + o) (slice o n img) x → takes c e p img (put o x img).
Proof.
  intros Ho Hn Hl [L H]. rewrite zlen_slice in L by done. split; [apply zlen_put; lia|]. intros i bs rest m k Hi Hr.
  destruct (H i bs rest m k Hi (region_inside p o n img m Hr Ho Hn Hl)) as (i' & E & Hi'). exists i'. split; [|done]. rewrite E.
  by rewrite (poke_inside p o x img m) by (done || lia).
Qed.
Lemma takes_run {A} (c : M A) (f : A → M unit) v e p img img' : (∀ s, c s = Some (Some v, s)) → takes (f v) e p img img' → takes (x ← c; f x) e p img img'.
Proof. intros E H. eapply takes_ext; [|exact H]. intros s. by rewrite (run_some _ _ _ _ _ (E s)). Qed.
(** Bytes are read into memory. *)
Lemma takes_read_to bs p img : zlen bs ≤ zlen img → takes (read_to p (zlen bs)) bs p img (put 0 bs img).
Proof.
  intros Hl. unfold read_to. rewrite <- (app_nil_r bs) at 2. eapply takes_input; [apply consumes_read|]. rewrite <- (Z.add_0_r p) at 1. apply takes_store; lia.
Qed.
Lemma takes_read_all bs p img : zlen bs = zlen img → takes (read_to p (zlen bs)) bs p img bs.
Proof. intros Hl. pose proof (takes_read_to bs p img ltac:(lia)) as Ht. by rewrite put_all in Ht. Qed.
Lemma takes_status (c : M unit) (k : bool → M unit) e e' p img img1 img2 : takes c e p img img1 → takes (k true) e' p img1 img2 →
  takes (b ← run_status c; k b) (e ++ e') p img img2.
Proof.
  intros [L1 H1] [L2 H2]. split; [lia|]. intros i bs rest m n Hi Hr. rewrite <- app_assoc in Hi. destruct (H1 i _ rest m n Hi Hr) as (i1 & E1 & Hi1).
  destruct (H2 i1 bs rest (poke p img1 m) n Hi1 (region_poke _ _ _)) as (i2 & E2 & Hi2). exists i2. split; [|done].
  rewrite (run_some _ _ _ true (Machine i1 (poke p img1 m) n)); [|unfold run_status; by rewrite E1]. rewrite E2. by rewrite poke_poke by lia.
Qed.
(** The object does not matter for the stream. *)
Lemma takes_only {A} (c : st (pb_istream Y) A) e v p img : consumes c e v → takes (_ ← on_input c; mret tt) e p img img.
Proof. intros H. rewrite <- (app_nil_r e). eapply takes_input; [exact H|]. apply takes_ret. Qed.
End Takes.
