(* ===== verification/PbReread.v ===== *)
(** * Messages are read back: values

    A message of static fields that was encoded is decoded into a structure that encodes to the same
    bytes.  This file has the values of the fields; each decoder of [PB_DECODERS] fills its object
    with what [PbOutput] reads from it again. *)
From stdpp Require Import strings gmap.
From S2P Require Export PbWritten PbRegion PbLayout.

(** ** Messages of static fields *)

(** The part of an object that a scalar takes. *)
Definition scalar_bytes (t : ltype) (n : Z) : Z :=
  match t with PB_LTYPE_BOOL => 1 | PB_LTYPE_FIXED32 => 4 | PB_LTYPE_FIXED64 => 8 | _ => n end.
Definition static_value (f : pb_field) : Prop :=
  match PB_LTYPE (type f) with
  | Scalar PB_LTYPE_BOOL => True
  | Scalar PB_LTYPE_FIXED32 => 4 ≤ data_size f
  | Scalar PB_LTYPE_FIXED64 => 8 ≤ data_size f
  | Scalar _ => int_size (data_size f) = true
  | PB_LTYPE_BYTES => 4 ≤ data_size f
  | PB_LTYPE_STRING | PB_LTYPE_FIXED_LENGTH_BYTES | PB_LTYPE_SUBMESSAGE => True
  | PB_LTYPE_EXTENSION | Invalid_ltype _ => False
  end.

Section Fresh.
Context {tables : Tables} {layout : Layout}.
(** The structure after its initialisation: optional fields are absent and arrays empty, also
    in nested structures. *)
Fixpoint initialised (n : nat) (id : Z) (img : bytes) : Prop :=
  match n with
  | O => True
  | S n => ∀ j sl, slots (fields_of id) !! j = Some sl →
      (htype sl = PB_HTYPE_OPTIONAL → slice (sl_size sl) 1 img = [0]) ∧
      (htype sl = PB_HTYPE_REPEATED → slice (sl_size sl) 4 img = le_bytes 4 0) ∧
      match ltype_of sl, ptr (sl_field sl) with
      | PB_LTYPE_SUBMESSAGE, Submsg sub => initialised n sub (slice (sl_data sl) (data_size (sl_field sl)) img)
      | _, _ => True
      end
  end.
(** Strings end before the end of their arrays. *)
Fixpoint terminated (m : memory) (n : nat) (id a : Z) : Prop :=
  match n with
  | O => True
  | S n => ∀ j sl, slots (fields_of id) !! j = Some sl →
      match ltype_of sl, ptr (sl_field sl) with
      | PB_LTYPE_STRING, _ => ∀ s, string_in m (data_size (sl_field sl)) (a + sl_data sl) = Some s → zlen s < data_size (sl_field sl)
      | PB_LTYPE_SUBMESSAGE, Submsg sub => terminated m n sub (a + sl_data sl)
      | _, _ => True
      end
  end.
End Fresh.

(** ** Strings *)

Lemma size_seq (img : bytes) : ∀ p, size (map_seqZ (M := gmap Z Z) p img) = length img.
Proof.
  induction img as [|b img IH]; intros p; [cbn [map_seqZ]; apply map_size_empty|]. rewrite map_seqZ_cons, map_size_insert_None; [cbn; by rewrite IH|].
  apply lookup_map_seqZ_None. lia.
Qed.
Lemma region_size p img m : region p img m → (length img ≤ size (cells m))%nat.
Proof.
  intros H. rewrite <- (size_seq img p). apply map_subseteq_size. apply map_subseteq_spec. intros k x Hk. apply lookup_map_seqZ_Some in Hk as [Hk Hx].
  rewrite (region_at p img m k H); [done|]. apply lookup_lt_Some in Hx. unfold zlen. lia.
Qed.
Lemma byte_in_cells m a b : byte_in m a = Some b → cells m !! a = Some b.
Proof.
  intros (bs & E & [= <-])%bind_Some. unfold load in E. cbn in E. apply bind_Some in E as (c & E & [= <-]). done.
Qed.
Lemma c_string_ok m fuel : ∀ max p s, c_string m fuel max p = Some s → 0 ∉ s ∧ zlen s ≤ Z.max max 0.
Proof.
  induction fuel as [|fuel IH]; intros max p s; cbn [c_string]; [done|]. destruct (Z.ltb_spec 0 max); [|intros [= <-]; split; [set_solver|unfold zlen; cbn [length]; lia]].
  intros (c & _ & E)%bind_Some. destruct (Z.eqb_spec c 0); [injection E as <-; split; [set_solver|unfold zlen; cbn [length]; lia]|].
  apply bind_Some in E as (s' & E & [= <-]). destruct (IH _ _ _ E) as [H1 H2]. rewrite zlen_cons. split; [set_solver|lia].
Qed.
Lemma c_string_region m s : 0 ∉ s → ∀ p fuel max, region p (s ++ [0]) m → zlen s < max → (length s < fuel)%nat → c_string m fuel max p = Some s.
Proof.
  induction s as [|c s IH]; intros Hs p fuel max Hr Hm Hf; (destruct fuel as [|fuel]; [cbn in Hf; lia|]); cbn [c_string].
  - rewrite (proj2 (Z.ltb_lt 0 max)) by (unfold zlen in Hm; cbn [length] in Hm; lia). unfold byte_in. rewrite (load_all p [0] m Hr : load 1 p m = _). done.
  - rewrite zlen_cons in Hm. pose proof (zlen_nonneg s). rewrite (proj2 (Z.ltb_lt 0 max)) by lia.
    assert (byte_in m p = Some c) as ->.
    { pose proof (Hr O ltac:(cbn; lia)) as E. rewrite Z.add_0_r in E. unfold byte_in, load. change (Z.to_nat 1) with 1%nat. cbn [load_cells]. by rewrite E. }
    cbn. destruct (Z.eqb_spec c 0); [set_solver|]. rewrite IH; [done|set_solver| |lia|cbn in Hf; lia].
    intros i Hi. replace (p + 1 + Z.of_nat i) with (p + Z.of_nat (S i)) by lia. rewrite Hr by (cbn in *; lia). done.
Qed.

(** ** Scalars *)

Section Scalars.
Context {Y : Type} {source : Source Y} {source_ok : SourceOk Y}.
Abbreviation M := (run (machine Y)).
(** The decoders of [PbStream] return the object, those of the machine store it. *)
Definition stores (c : st (pb_istream Y) bytes) (c' : Z → M unit) : Prop := ∀ dest i obj i' m k, c i = (Some obj, i') →
  c' dest (Machine i m k) = store_at dest obj (Machine i' m k).
Lemma stores_takes c c' e obj p img : stores c c' → consumes c e obj → zlen obj ≤ zlen img → takes (c' p) e p img (put 0 obj img).
Proof.
  intros Hs Hc Hl. split; [apply zlen_put; lia|]. intros i bs rest m k Hi Hr. destruct (Hc i bs rest Hi) as (i' & E & Hi' & _). exists i'. split; [|done].
  rewrite (Hs _ _ _ _ _ _ E). unfold store_at, on_memory. cbn. rewrite <- (Z.add_0_r p) at 1. by rewrite (store_region p img m 0 obj) by (done || lia).
Qed.
Ltac stores_tac c :=
  intros dest i obj i' m k; unfold on_input; cbv [mbind run_bind st_bind on_input]; cbn [input mem fixed_count_size];
  destruct (c i) as [[v|] i1]; [|discriminate].
Lemma stores_scalar t f : PB_LTYPE (type f) = Scalar t →
  ∀ (decode decode_noinit : pb_fields → Z → M unit) `{!Tables, !Allocator}, stores (PbStream.PB_DECODERS t (data_size f)) (PbDecode.PB_DECODERS decode decode_noinit f).
Proof.
  intros Ht decode decode_noinit ? ?. unfold PbDecode.PB_DECODERS. rewrite Ht. destruct t; cbn [PbStream.PB_DECODERS].
  - unfold PbStream.pb_dec_bool, PbDecode.pb_dec_bool. stores_tac (pb_decode_varint32 (X := Y)). intros [= <- <-]. done.
  - unfold PbStream.pb_dec_varint, PbDecode.pb_dec_varint. stores_tac (pb_decode_varint (X := Y)). cbv zeta. destruct (int_size (data_size f)); [|discriminate].
    destruct (swrap _ _ =? _); [|discriminate]. intros [= <- <-]. unfold store_at, on_memory. cbn. by destruct (store _ _ m).
  - unfold PbStream.pb_dec_uvarint, PbDecode.pb_dec_uvarint. stores_tac (pb_decode_varint (X := Y)). cbv zeta. destruct (int_size (data_size f)); [|discriminate].
    destruct (wrap _ _ =? _); [|discriminate]. intros [= <- <-]. unfold store_at, on_memory. cbn. by destruct (store _ _ m).
  - unfold PbStream.pb_dec_svarint, PbDecode.pb_dec_svarint. stores_tac (pb_decode_svarint (X := Y)). cbv zeta. destruct (int_size (data_size f)); [|discriminate].
    destruct (swrap _ _ =? _); [|discriminate]. intros [= <- <-]. unfold store_at, on_memory. cbn. by destruct (store _ _ m).
  - unfold PbStream.pb_dec_fixed32, PbDecode.pb_dec_fixed32. stores_tac (pb_decode_fixed32 (X := Y)). intros [= <- <-]. done.
  - unfold PbStream.pb_dec_fixed64, PbDecode.pb_dec_fixed64. stores_tac (pb_decode_fixed64 (X := Y)). intros [= <- <-]. done.
Qed.
End Scalars.

Lemma scalar_source m t n a v : memory_ok m → scalar_wire m t n a = Some (v, true) → ∃ obj, object_ok t (scalar_bytes t n) obj ∧ v = wire t obj.
Proof.
  intros Hm. destruct t; cbn [scalar_wire scalar_bytes].
  - intros (b & _ & [= <-])%bind_Some. exists [if b then 1 else 0]. by destruct b; (split; [split_and!; [done|by repeat constructor|auto]|]).
  - rewrite integer_size_eq. destruct (int_size n) eqn:Hn; [|done]. intros (bs & E & [= <-])%bind_Some. destruct (load_ok n a m bs) as [Hl Hb]; [apply int_size_cases in Hn; lia|done|].
    exists bs. split; [|done]. split_and!; [done|by apply Hb|done].
  - rewrite integer_size_eq. destruct (int_size n) eqn:Hn; [|done]. intros (bs & E & [= <-])%bind_Some. destruct (load_ok n a m bs) as [Hl Hb]; [apply int_size_cases in Hn; lia|done|].
    exists bs. split; [|done]. split_and!; [done|by apply Hb|done].
  - rewrite integer_size_eq. destruct (int_size n) eqn:Hn; [|done]. intros (bs & E & [= <-])%bind_Some. destruct (load_ok n a m bs) as [Hl Hb]; [apply int_size_cases in Hn; lia|done|].
    exists bs. split; [|done]. split_and!; [done|by apply Hb|done].
  - intros (bs & E & [= <-])%bind_Some. destruct (load_ok 4 a m bs ltac:(done) E) as [Hl Hb]. exists bs. split; [|done]. split_and!; [done|by apply Hb|done].
  - intros (bs & E & [= <-])%bind_Some. destruct (load_ok 8 a m bs ltac:(done) E) as [Hl Hb]. exists bs. split; [|done]. split_and!; [done|by apply Hb|done].
Qed.
Lemma scalar_target m t n obj rest a : object_ok t (scalar_bytes t n) obj → region a (obj ++ rest) m → scalar_wire m t n a = Some (wire t obj, true).
Proof.
  intros (Hl & Hb & Ht) Hr. assert (load (zlen obj) a m = Some obj) as E.
  { apply load_all. intros i Hi. rewrite Hr by (rewrite length_app; lia). by apply lookup_app_l. }
  rewrite Hl in E. destruct t; cbn [scalar_wire scalar_bytes wire] in *.
  - unfold flag_in, byte_in. rewrite E. by destruct Ht as [-> | ->].
  - by rewrite integer_size_eq, Ht, E.
  - by rewrite integer_size_eq, Ht, E.
  - by rewrite integer_size_eq, Ht, E.
  - by rewrite E.
  - by rewrite E.
Qed.
Lemma size_in_region m b img o n : region b img m → 0 ≤ o → o + 4 ≤ zlen img → slice o 4 img = le_bytes 4 n → is_u32 n → size_in m (b + o) = Some n.
Proof.
  intros Hr Ho Hl E Hn. unfold size_in, sizeof_size. rewrite (load_region b img m o 4 Hr) by lia. cbn. rewrite E, le_val_le_bytes_small; [|exact Hn].
  f_equal. by apply wrap_small.
Qed.
Lemma put_front bs img : zlen bs ≤ zlen img → ∃ rest, put 0 bs img = bs ++ rest.
Proof. intros _. unfold put. cbn. by eexists. Qed.

(** ** All values *)

Section Values.
Context {Y : Type} {source : Source Y} {source_ok : SourceOk Y} {tables : Tables} {layout : Layout} {extensions : Extensions} {alloc : Allocator} {user : UserWire}.
Abbreviation M := (run (machine Y)).
(** The message that was encoded. *)
Context (m0 : memory).
Hypothesis Hm0 : memory_ok m0.

(** [c] takes all that is left of a stream. *)
Definition fills (c : M unit) (e : bytes) (p : Z) (img img' : bytes) : Prop := zlen img' = zlen img ∧
  ∀ i rest m k, in_ok i e rest → region p img m → ∃ i', c (Machine i m k) = Some (Some tt, Machine i' (poke p img' m) k) ∧ in_ok i' [] rest.
(** A message of the given depth is read back. *)
Definition reread_ok (decode_noinit : pb_fields → Z → M unit) (depth : nat) : Prop := ∀ id a e old, 0 < a →
  message_wire m0 depth (fields_of id) a = Some (e, true) → terminated m0 depth id a → initialised depth id old → zlen old = struct_size id → zlen e < 2 ^ 32 →
  ∃ new, (∀ p, 0 < p → fills (decode_noinit (fields_of id) p) e p old new) ∧
    ∀ m b, 0 < b → region b new m → message_wire m depth (fields_of id) b = Some (e, true).

Context (decode decode_noinit : pb_fields → Z → M unit) (depth : nat).
Hypothesis IH : reread_ok decode_noinit depth.

(** A value is stored where another structure of the same type has it read again. *)
Definition value_taken (f : pb_field) (v old : bytes) : Prop := ∃ new,
  (∀ p, 0 < p → takes (func decode decode_noinit f p) v p old new) ∧
  ∀ m b, 0 < b → region b new m → value_wire m (message_wire m depth) f b = Some (v, true).

Lemma take_scalar t f a v old : PB_LTYPE (type f) = Scalar t → scalar_wire m0 t (data_size f) a = Some (v, true) → scalar_bytes t (data_size f) ≤ zlen old → value_taken f v old.
Proof using All.
  intros Ht E Hl. destruct (scalar_source _ _ _ _ _ Hm0 E) as (obj & Ho & ->). pose proof (zlen_object _ _ _ Ho) as Hz. exists (put 0 obj old). split.
  - intros p _. unfold func. apply (stores_takes (PbStream.PB_DECODERS t (data_size f))); [by apply stores_scalar| |lia].
    pose proof (consumes_scalar (Y := Y) t _ obj Ho) as H. by destruct t.
  - intros m b _ Hr. unfold value_wire. rewrite Ht. destruct (put_front obj old) as [rest Er]; [lia|]. rewrite Er in Hr. by eapply scalar_target.
Qed.

Lemma take_fixed f a v old : PB_LTYPE (type f) = PB_LTYPE_FIXED_LENGTH_BYTES → value_wire m0 (message_wire m0 depth) f a = Some (v, true) →
  1 ≤ data_size f < 2 ^ 32 → zlen old = data_size f → value_taken f v old.
Proof using All.
  intros Ht E Hd Hl. unfold value_wire in E. rewrite Ht in E. apply bind_Some in E as (s & E & [= <-]). destruct (load_ok (data_size f) a m0 s ltac:(lia) E) as [Hs _].
  exists s. split.
  - intros p _. unfold func, PbDecode.PB_DECODERS. rewrite Ht. unfold pb_dec_fixed_length_bytes, framed. eapply takes_input; [apply consumes_varint32_of; word_bounds; lia|].
    unfold PB_SIZE_MAX. rewrite (proj2 (Z.ltb_ge _ _)), (proj2 (Z.eqb_neq _ _)) by lia. rewrite Hs, Z.eqb_refl. cbn [negb]. rewrite <- Hs.
    apply takes_read_all. lia.
  - intros m b _ Hr. unfold value_wire. rewrite Ht, <- Hs, (load_all b s m Hr). done.
Qed.
Lemma take_string f a v old : PB_LTYPE (type f) = PB_LTYPE_STRING → PB_ATYPE (type f) = PB_ATYPE_STATIC → string_wire m0 f a = Some (v, true) →
  (∀ s, string_in m0 (data_size f) a = Some s → zlen s < data_size f) → data_size f < 2 ^ 32 → zlen old = data_size f → value_taken f v old.
Proof using All.
  intros Ht Ha E Hterm Hd Hl. unfold string_wire in E. rewrite decide_False in E by (by rewrite Ha). apply bind_Some in E as (s & E & [= <-]). specialize (Hterm s E).
  assert (0 ∉ s) as Hs.
  { unfold string_in in E. destruct (a =? 0); [injection E as <-; set_solver|]. by apply c_string_ok in E as [? _]. }
  pose proof (zlen_nonneg s). exists (put (zlen s) [0] (put 0 s old)). split.
  - intros p _. unfold func, PbDecode.PB_DECODERS. rewrite Ht. unfold pb_dec_string, framed. eapply takes_input; [apply consumes_varint32_of; word_bounds; lia|].
    cbv zeta. rewrite wrap_small by (word_bounds; lia). rewrite (proj2 (Z.ltb_ge (zlen s + 1) (zlen s))) by lia. rewrite decide_False by (by rewrite Ha).
    rewrite (proj2 (Z.ltb_ge (data_size f) _)) by lia. apply (takes_run (mret p) _ p); [done|]. apply (takes_bytes _ (s ++ [])); [apply app_nil_r|].
    eapply takes_status; [apply takes_read_to; lia|].
    eapply (takes_seq _ _ [] []); [|apply takes_ret]. apply takes_store; [lia|]. rewrite zlen_put by lia. change (zlen [0]) with 1. lia.
  - intros m b Hb Hr. unfold value_wire. rewrite Ht. unfold string_wire. rewrite decide_False by (by rewrite Ha). unfold string_in. rewrite (proj2 (Z.eqb_neq b 0)) by lia.
    pose proof (region_size _ _ _ Hr) as Hsz. change (zlen [0]) with 1 in *.
    assert (zlen (put 0 s old) = zlen old) as H1 by (apply zlen_put; lia).
    assert (zlen (put (zlen s) [0] (put 0 s old)) = zlen old) as Hz by (rewrite zlen_put; change (zlen [0]) with 1; lia).
    rewrite (c_string_region m s Hs); [done| |lia|unfold zlen in *; lia].
    intros i Hi. rewrite length_app in Hi. cbn in Hi. rewrite Hr by (unfold zlen in *; lia). rewrite lookup_put by (change (zlen [0]) with 1; lia).
    rewrite to_nat_zlen. case_decide as Hc.
    + replace (i - length s)%nat with O by (cbn in Hc; lia). rewrite lookup_app_r by lia. by replace (i - length s)%nat with O by (cbn in Hc; lia).
    + cbn in Hc. rewrite lookup_put by lia. rewrite decide_True by (cbn; lia). rewrite lookup_app_l by lia. f_equal. cbn. lia.
Qed.
Lemma take_bytes f a v old : PB_LTYPE (type f) = PB_LTYPE_BYTES → PB_ATYPE (type f) = PB_ATYPE_STATIC → bytes_wire m0 f a = Some (v, true) → 0 < a →
  4 ≤ data_size f < 2 ^ 32 → zlen old = data_size f → value_taken f v old.
Proof using All.
  intros Ht Ha E Hpos Hd Hl. unfold bytes_wire in E. rewrite (proj2 (Z.eqb_neq a 0)) in E by lia. apply bind_Some in E as (n & En & E).
  rewrite bool_decide_true in E by done. cbn [andb] in E. destruct (Z.ltb_spec (u64 (data_size f - 4)) n) as [|Hn]; [done|]. rewrite wrap_small in Hn by (word_bounds; lia).
  pose proof (computes_size_range _ _ _ En) as Hu. apply bind_Some in E as (s & Es & [= <-]). destruct (load_ok n _ _ _ ltac:(word_bounds; lia) Es) as [Hs _]. subst n.
  pose proof (zlen_nonneg s). assert (zlen (le_bytes 4 (zlen s)) = 4) as H4 by (unfold zlen; by rewrite length_le_bytes).
  assert (zlen (put 0 (le_bytes 4 (zlen s)) old) = zlen old) as Hz by (apply zlen_put; lia). exists (put 4 s (put 0 (le_bytes 4 (zlen s)) old)). split.
  - intros p _. unfold func, PbDecode.PB_DECODERS. rewrite Ht. unfold pb_dec_bytes, framed, PB_SIZE_MAX, bytes_offset.
    eapply takes_input; [apply consumes_varint32_of; word_bounds; lia|]. rewrite (proj2 (Z.ltb_ge (2 ^ 32 - 1) (zlen s))) by (word_bounds; lia). cbv zeta.
    rewrite wrap_small by (word_bounds; lia). rewrite (proj2 (Z.ltb_ge (zlen s + 4) (zlen s))), decide_False, (proj2 (Z.ltb_ge (data_size f) _)) by (lia || by rewrite Ha).
    apply (takes_run (mret p) _ p); [done|]. apply (takes_bytes _ ([] ++ s)); [done|]. eapply takes_seq; [rewrite <- (Z.add_0_r p) at 1; apply takes_store; lia|].
    apply (takes_part _ _ _ _ (zlen s)); [lia|lia|lia|]. apply takes_read_all. rewrite zlen_slice; lia.
  - intros m b Hb Hr. unfold value_wire. rewrite Ht. unfold bytes_wire. rewrite (proj2 (Z.eqb_neq b 0)) by lia.
    assert (zlen (put 4 s (put 0 (le_bytes 4 (zlen s)) old)) = zlen old) as Hz2 by (rewrite zlen_put; lia).
    pose proof (size_in_region m b _ 0 (zlen s) Hr) as Hsz. rewrite Z.add_0_r in Hsz. rewrite Hsz; [|lia|lia| |word_bounds; lia].
    2:{ rewrite slice_put_disjoint by lia. rewrite <- H4 at 1. apply slice_put; lia. }
    cbn. rewrite bool_decide_true by done. cbn. rewrite wrap_small by (word_bounds; lia). rewrite (proj2 (Z.ltb_ge _ _)) by lia.
    rewrite (load_region b _ m 4 (zlen s) Hr) by lia. by rewrite slice_put by lia.
Qed.
Lemma take_submessage f a v old sub : PB_LTYPE (type f) = PB_LTYPE_SUBMESSAGE → PB_HTYPE (type f) ≠ PB_HTYPE_REPEATED → ptr f = Submsg sub →
  value_wire m0 (message_wire m0 depth) f a = Some (v, true) → 0 < a → zlen v < 2 ^ 32 → terminated m0 depth sub a → initialised depth sub old → zlen old = struct_size sub →
  value_taken f v old.
Proof using All.
  intros Ht Hh Hp E Ha Hv Hterm Hf Hl. unfold value_wire in E. rewrite Ht, Hp in E. destruct (message_wire m0 depth (fields_of sub) a) as [[e ok]|] eqn:Em; [|done].
  cbn [framed_result] in E. destruct (Z.ltb_spec (zlen e) (2 ^ 64)) as [He|]; [|done]. destruct ok; [|done]. injection E as <-.
  unfold framed in Hv. rewrite zlen_app in Hv. pose proof (zlen_nonneg (varint_of (zlen e))). pose proof (zlen_nonneg e).
  destruct (IH sub a e old Ha Em Hterm Hf Hl ltac:(lia)) as (new & Hnew & Hread). exists new. split.
  - intros p Hpos. destruct (Hnew p Hpos) as [Hz Hfill]. split; [done|]. intros i bs rest m k Hi Hr. unfold framed in Hi. rewrite <- app_assoc in Hi.
    pose proof (in_bytes _ _ _ Hi) as Hb. apply bytes_ok_app in Hb as [_ Hb]. apply bytes_ok_app in Hb as [_ Hb].
    destruct (make_substream_ok i e bs rest ltac:(word_bounds; lia) Hi) as (s1 & i1 & E1 & Hs1 & _ & Hl1 & _).
    destruct (Hfill s1 (bs ++ rest) m k Hs1 Hr) as (s2 & E2 & Hs2).
    destruct (close_substream_ok s2 i1 [] bs rest Hs2 Hl1 Hb) as (i2 & E3 & Hi2 & _). exists i2. split; [|done].
    unfold func, PbDecode.PB_DECODERS. rewrite Ht. unfold pb_dec_submessage. rewrite (run_some _ _ _ s1 (Machine i1 m k)) by (unfold on_input; cbn; by rewrite E1).
    rewrite Hp, decide_False by done. unfold on_substream. cbv [mbind run_bind]. cbn [mem fixed_count_size input]. rewrite E2. cbn [mem fixed_count_size input].
    unfold on_input. cbn [input mem fixed_count_size]. by rewrite E3.
  - intros m b Hb Hr. unfold value_wire. rewrite Ht, Hp, (Hread m b Hb Hr). cbn [framed_result]. by rewrite (proj2 (Z.ltb_lt _ _)).
Qed.
(** What a field asks of the message and of the new object. *)
Definition value_ready (f : pb_field) (a : Z) (old : bytes) : Prop :=
  match PB_LTYPE (type f), ptr f with
  | PB_LTYPE_STRING, _ => ∀ s, string_in m0 (data_size f) a = Some s → zlen s < data_size f
  | PB_LTYPE_SUBMESSAGE, Submsg sub => terminated m0 depth sub a ∧ initialised depth sub old
  | _, _ => True
  end.
Lemma take_value f a v old : PB_ATYPE (type f) = PB_ATYPE_STATIC → PB_HTYPE (type f) ≠ PB_HTYPE_REPEATED → static_value f → value_fits f → 1 ≤ data_size f < 2 ^ 32 →
  value_wire m0 (message_wire m0 depth) f a = Some (v, true) → 0 < a → zlen v < 2 ^ 32 → zlen old = data_size f → value_ready f a old → value_taken f v old.
Proof using All.
  unfold static_value, value_fits, value_ready. intros Ha Hh Hs Hf Hd E Hpos Hv Hl Hr. destruct (PB_LTYPE (type f)) as [t| | | | | |] eqn:Ht; try done.
  - apply (take_scalar t f a v old Ht); [unfold value_wire in E; by rewrite Ht in E|]. destruct t; cbn; lia.
  - apply (take_bytes f a v old); try done; [unfold value_wire in E; by rewrite Ht in E|lia].
  - apply (take_string f a v old); try done; [unfold value_wire in E; by rewrite Ht in E|lia].
  - destruct (ptr f) as [|sub|] eqn:Hp; [done| |done]. destruct Hr as [Hr1 Hr2]. apply (take_submessage f a v old sub); try done. congruence.
  - by apply (take_fixed f a v old).
Qed.
End Values.
