(* ===== verification/PbReadback.v ===== *)
(** * Messages are read back: fields

    The fields of a message that was encoded, one by one: what is on the wire for a field is decoded
    into its place in a structure, whence the encoder reads it again. *)
From stdpp Require Import strings gmap.
From S2P Require Export PbReread.

(** A static field that is required, optional with a flag, or an array of scalars with a count. *)
Record static_slot (sl : slot) : Prop := {
  static_atype : atype sl = PB_ATYPE_STATIC;
  static_type : static_value (sl_field sl);
  static_htype : htype sl = PB_HTYPE_REQUIRED ∨ htype sl = PB_HTYPE_OPTIONAL ∨ htype sl = PB_HTYPE_REPEATED ∧ packable (ltype_of sl) = true;
  static_counted : htype sl ≠ PB_HTYPE_REQUIRED → size_offset (sl_field sl) ≠ 0 }.
Class StaticTables `{!Tables} := static_slots : ∀ id j sl, slots (fields_of id) !! j = Some sl → static_slot sl.

Lemma static_apart {tables : Tables} {layout : Layout} {fit : TablesFit} {static : StaticTables} id j k x y :
  slots (fields_of id) !! j = Some x → slots (fields_of id) !! k = Some y → j ≠ k → slots_apart x y.
Proof.
  intros Hj Hk Hn. destruct (fits_apart id (fit id) j k x y Hj Hk Hn) as [|(Ho & _)]; [done|].
  destruct (static_htype _ (static_slots id j x Hj)) as [E|[E|[E _]]]; by rewrite E in Ho.
Qed.
Lemma slot_size_offset fs j sl : slots fs !! j = Some sl → htype sl ≠ PB_HTYPE_ONEOF → sl_size sl = sl_data sl + size_offset (sl_field sl).
Proof.
  destruct j as [|j]; [destruct fs; [done|]; intros [= <-] _; done|]. rewrite slots_lookup_S. intros (p & _ & (f & _ & ->)%fmap_Some)%bind_Some.
  rewrite next_slot_field. intros Hh. unfold next_slot. destruct (same_union _ _) eqn:Hu; [|done]. apply bool_decide_eq_true in Hu as (_ & ? & _). done.
Qed.
Lemma slice_same o n (img img' : bytes) : slice o n img = slice o n img' → ∀ o' n', o ≤ o' → 0 ≤ o → o' + n' ≤ o + n → slice o' n' img = slice o' n' img'.
Proof.
  intros E o' n' H1 H2 H3. replace o' with (o + (o' - o)) by lia. rewrite <- !(slice_slice o n) by lia. by rewrite E.
Qed.

Lemma zlen_4 n : zlen (le_bytes 4 n) = 4.
Proof. unfold zlen. by rewrite length_le_bytes. Qed.
Lemma run_bind_assoc {S A B C} (c : run S A) (g : A → run S B) (h : B → run S C) s : (x ← (y ← c; g y); h x) s = (y ← c; x ← g y; h x) s.
Proof. cbv [mbind run_bind]. by destruct (c s) as [[[a|] s']|]. Qed.

Section Field.
Context {Y : Type} {source : Source Y} {source_ok : SourceOk Y} {tables : Tables} {layout : Layout} {fit : TablesFit} {static : StaticTables}.
Context {extensions : Extensions} {entries : EntriesOk} {callbacks : Callbacks} {alloc : Allocator} {user : UserWire}.
Abbreviation M := (run (machine Y)).
Context (m0 : memory).
Hypothesis Hm0 : memory_ok m0.
Context (stack : nat) (decode decode_noinit : pb_fields → Z → M unit) (depth : nat).
Hypothesis IH : reread_ok m0 decode_noinit depth.
Context (id : Z) (j : nat) (sl : slot).
Hypothesis Hj : slots (fields_of id) !! j = Some sl.
Abbreviation f := (sl_field sl).
Abbreviation it p := (at_slot (fields_of id) p j sl).

(** The encoder reads [e] for the field. *)
Definition slot_holds (img e : bytes) : Prop := ∀ m b, 0 < b → region (b + sl_data sl) (slice (sl_data sl) (data_bytes sl) img) m →
  region (b + sl_size sl) (slice (sl_size sl) (count_bytes sl) img) m → slot_wire m (message_wire m depth) (S depth) b sl = Some (e, true).
Definition slot_fresh (img : bytes) : Prop :=
  (htype sl = PB_HTYPE_OPTIONAL → slice (sl_size sl) 1 img = [0]) ∧ (htype sl = PB_HTYPE_REPEATED → slice (sl_size sl) 4 img = le_bytes 4 0) ∧
  match ltype_of sl, ptr f with PB_LTYPE_SUBMESSAGE, Submsg sub => initialised depth sub (slice (sl_data sl) (data_size f) img) | _, _ => True end.
Definition slot_terminated (a : Z) : Prop :=
  match ltype_of sl, ptr f with
  | PB_LTYPE_STRING, _ => ∀ s, string_in m0 (data_size f) (a + sl_data sl) = Some s → zlen s < data_size f
  | PB_LTYPE_SUBMESSAGE, Submsg sub => terminated m0 depth sub (a + sl_data sl)
  | _, _ => True
  end.
(** On the wire it has a key of the given wire type, and a value that fills its place. *)
Definition slot_taken (img e : bytes) : Prop := ∃ w v img', e = tag_of w (tag f) ++ v ∧ is_wire_type w ∧ zlen img' = zlen img ∧
  (∀ p, 0 < p → takes (decode_static_field stack decode decode_noinit w (it p)) v p img img') ∧ slot_holds img' e ∧ differs_at sl img img'.

Lemma slot_wire_static m b : slot_wire m (message_wire m depth) (S depth) b sl = field_wire m (message_wire m depth) (S depth) f (b + sl_data sl).
Proof using All.
  destruct (static_slots id j sl Hj) as [Ha Ht _ _]. unfold slot_wire, any_field_wire. rewrite Ha. rewrite decide_False; [done|].
  unfold static_value in Ht. intros E. by rewrite E in Ht.
Qed.
Lemma counted_size : htype sl ≠ PB_HTYPE_REQUIRED → sl_size sl = sl_data sl + size_offset f ∧ sl_size sl ≠ sl_data sl ∧ negb (size_offset f =? 0) = true.
Proof using All.
  intros Hh. destruct (static_slots id j sl Hj) as [_ _ Hh' Hc]. specialize (Hc Hh). pose proof (slot_size_offset _ _ _ Hj) as E.
  rewrite E by (by destruct Hh' as [E'|[E'|[E' _]]]; rewrite E'). split_and!; [done|lia|]. by rewrite (proj2 (Z.eqb_neq _ _)).
Qed.
Lemma counted_data p : htype sl ≠ PB_HTYPE_REQUIRED → size_is_data (it p) = false.
Proof using All.
  intros Hh. destruct (counted_size Hh) as (_ & Hn & _). unfold size_is_data. apply bool_decide_eq_false. cbn. intros [= E]. lia.
Qed.
Lemma entry_taken a e : entry_wire m0 (message_wire m0 depth) f a = Some (e, true) →
  ∃ w v, e = tag_of w (tag f) ++ v ∧ is_wire_type w ∧ wire_type_for (ltype_of sl) = Some w ∧ value_wire m0 (message_wire m0 depth) f a = Some (v, true).
Proof using All.
  unfold entry_wire. rewrite key_wire_eq. destruct (wire_type_for _) as [w|] eqn:Ew; [|done]. cbn [followed plain].
  destruct (value_wire _ _ _ _) as [[v ok]|]; [|done]. intros [= <- ->]. exists w, v. split_and!; [done| |done|done].
  destruct (ltype_of sl) as [[]| | | | | |]; cbn in Ew; try discriminate Ew; by injection Ew as <-.
Qed.
Lemma entry_again m b w v : wire_type_for (ltype_of sl) = Some w → value_wire m (message_wire m depth) f b = Some (v, true) →
  entry_wire m (message_wire m depth) f b = Some (tag_of w (tag f) ++ v, true).
Proof using All. intros Ew Ev. unfold entry_wire. by rewrite key_wire_eq, Ew, Ev. Qed.

(** A value of its own. *)
Lemma value_put a img v : htype sl ≠ PB_HTYPE_REPEATED → zlen img = struct_size id → value_wire m0 (message_wire m0 depth) f (a + sl_data sl) = Some (v, true) → 0 < a → zlen v < 2 ^ 32 →
  slot_terminated a → match ltype_of sl, ptr f with PB_LTYPE_SUBMESSAGE, Submsg sub => initialised depth sub (slice (sl_data sl) (data_size f) img) | _, _ => True end →
  ∃ new, zlen new = data_size f ∧ (∀ p, 0 < p → takes (func decode decode_noinit f (p + sl_data sl)) v p img (put (sl_data sl) new img)) ∧
    ∀ m b, 0 < b → region b new m → value_wire m (message_wire m depth) f b = Some (v, true).
Proof using All.
  intros Hh Hl E Ha Hv Hterm Hf. destruct (static_slots id j sl Hj) as [Hst Hty _ _]. destruct (slot_fits id j sl Hj) as [_ _ Hval Hds _ Hd _ _ _ _ _ _ _].
  pose proof (value_size _ Hval) as Hd1. pose proof (data_bytes_single sl Hst Hh) as Hdb. rewrite Hdb in Hd.
  assert (zlen (slice (sl_data sl) (data_size f) img) = data_size f) as Hold by (apply zlen_slice; lia).
  destruct (take_value m0 Hm0 decode decode_noinit depth IH f (a + sl_data sl) v (slice (sl_data sl) (data_size f) img) Hst Hh Hty Hval ltac:(lia) E ltac:(lia) Hv Hold) as (new & Hnew & Hread).
  - unfold value_ready, slot_terminated in *. destruct (ltype_of sl); try done. by destruct (ptr f).
  - assert (zlen new = data_size f) as Hz by (destruct (Hnew 1 ltac:(lia)) as [Hz _]; lia). exists new. split_and!; [done| |exact Hread].
    intros p Hp. apply (takes_part _ _ _ _ (data_size f)); [lia|lia|lia|]. apply Hnew. lia.
Qed.
Lemma required_taken a img e : htype sl = PB_HTYPE_REQUIRED → zlen img = struct_size id → slot_wire m0 (message_wire m0 depth) (S depth) a sl = Some (e, true) → 0 < a → zlen e < 2 ^ 32 →
  slot_terminated a → slot_fresh img → slot_taken img e.
Proof using All.
  intros Hh Hl E Ha He Hterm (_ & _ & Hf). rewrite slot_wire_static in E. pose proof (static_atype _ (static_slots id j sl Hj)) as Hst.
  destruct (slot_fits id j sl Hj) as [_ _ Hval _ _ Hd _ _ _ _ _ _ _]. pose proof (data_bytes_single sl Hst ltac:(by rewrite Hh)) as Hdb.
  unfold field_wire in E. rewrite Hst, Hh in E. rewrite bool_decide_false in E by done. cbn [mbind option_bind] in E. rewrite (proj2 (Z.eqb_neq _ _)) in E by lia.
  destruct (entry_taken _ _ E) as (w & v & -> & Hw & Hwt & Ev). rewrite zlen_app in He. pose proof (zlen_nonneg (tag_of w (tag f))).
  destruct (value_put a img v ltac:(by rewrite Hh) Hl Ev Ha ltac:(lia) Hterm Hf) as (new & Hz & Htake & Hread). pose proof (value_size _ Hval).
  exists w, v, (put (sl_data sl) new img). split_and!; [done|done|by apply zlen_put; lia| | |].
  - intros p Hp. unfold decode_static_field. rewrite (field_at_iter _ p j sl Hj), Hh. by apply Htake.
  - intros m b Hb Hr _. rewrite slot_wire_static. unfold field_wire. rewrite Hst, Hh. rewrite bool_decide_false by done. cbn [mbind option_bind]. rewrite (proj2 (Z.eqb_neq _ _)) by lia.
    apply entry_again; [done|]. apply Hread; [lia|]. rewrite Hdb, <- Hz in Hr. by rewrite slice_put in Hr by lia.
  - apply differs_put; [lia|lia|]. left. unfold within. lia.
Qed.
Lemma optional_taken a img e : htype sl = PB_HTYPE_OPTIONAL → zlen img = struct_size id → slot_wire m0 (message_wire m0 depth) (S depth) a sl = Some (e, true) → 0 < a → zlen e < 2 ^ 32 →
  slot_terminated a → slot_fresh img → e = [] ∧ slot_holds img e ∨ slot_taken img e.
Proof using All.
  intros Hh Hl E Ha He Hterm (Hflag & _ & Hf). specialize (Hflag Hh). rewrite slot_wire_static in E. pose proof (static_atype _ (static_slots id j sl Hj)) as Hst.
  destruct (counted_size ltac:(by rewrite Hh)) as (Hso & Hne & Hnz). assert (count_bytes sl = 1) as Hcb by (unfold count_bytes; rewrite Hh, decide_True by done; done).
  destruct (slot_fits id j sl Hj) as [_ _ Hval _ _ Hd Hc Hapart _ _ _ _ _]. pose proof (data_bytes_single sl Hst ltac:(by rewrite Hh)) as Hdb. pose proof (value_size _ Hval).
  destruct Hc as [Hc|Hc]; [lia|]. rewrite Hcb in *. unfold apart in Hapart.
  assert (∀ m b bit, region (b + sl_size sl) [bit] m → flag_in m (b + sl_data sl + size_offset f) = Some (negb (bit =? 0))) as Hbit.
  { intros m b bit Hr. replace (b + sl_data sl + size_offset f) with (b + sl_size sl) by lia. unfold flag_in, byte_in. by rewrite (load_all _ _ _ Hr : load 1 _ m = _). }
  unfold field_wire in E. rewrite Hst, Hh, Hnz in E. rewrite bool_decide_false in E by done. cbn [mbind option_bind] in E.
  destruct (flag_in m0 _) as [[|]|]; cbn in E; [right|left|done].
  - destruct (entry_taken _ _ E) as (w & v & -> & Hw & Hwt & Ev). rewrite zlen_app in He. pose proof (zlen_nonneg (tag_of w (tag f))).
    set (img1 := put (sl_size sl) [1] img). assert (zlen [1] = 1) as H1 by done. assert (zlen img1 = zlen img) as Hl1 by (apply zlen_put; lia).
    assert (slice (sl_data sl) (data_size f) img1 = slice (sl_data sl) (data_size f) img) as Hsame by (apply slice_put_disjoint; lia). rewrite <- Hsame in Hf.
    destruct (value_put a img1 v ltac:(by rewrite Hh) ltac:(lia) Ev Ha ltac:(lia) Hterm Hf) as (new & Hz & Htake & Hread).
    exists w, v, (put (sl_data sl) new img1). split_and!; [done|done|rewrite zlen_put; lia| | |].
    + intros p Hp. unfold decode_static_field. rewrite (field_at_iter _ p j sl Hj), Hh, counted_data by (by rewrite Hh).
      apply (takes_bytes _ ([] ++ v)); [done|]. eapply takes_seq; [|by apply Htake]. cbn [pSize at_slot store_flag]. apply takes_store; lia.
    + intros m b Hb Hr Hr'. rewrite slot_wire_static. unfold field_wire. rewrite Hst, Hh, Hnz. rewrite bool_decide_false by done. cbn [mbind option_bind].
      rewrite (Hbit m b 1). 2:{ rewrite Hcb, slice_put_disjoint in Hr' by lia. pose proof (slice_put (sl_size sl) [1] img ltac:(lia) ltac:(lia)) as Es. rewrite H1 in Es. by rewrite <- Es. }
      cbn. apply entry_again; [done|]. apply Hread; [lia|]. rewrite Hdb, <- Hz in Hr. by rewrite slice_put in Hr by lia.
    + eapply differs_trans; [apply (differs_put sl (sl_size sl) [1]); [lia|lia|right; unfold within; lia]|]. apply differs_put; [lia|lia|]. left. unfold within. lia.
  - injection E as <-. split; [done|]. intros m b Hb Hr Hr'. rewrite slot_wire_static. unfold field_wire. rewrite Hst, Hh, Hnz. rewrite bool_decide_false by done. cbn [mbind option_bind].
    rewrite (Hbit m b 0); [done|]. by rewrite Hcb, Hflag in Hr'.
Qed.

(** ** Arrays *)

Section Array.
Context (t : ltype).
Hypothesis Ht : ltype_of sl = Scalar t.
Hypothesis Hh : htype sl = PB_HTYPE_REPEATED.
Abbreviation ds := (data_size f).
Abbreviation item k := (sl_data sl + ds * k).

Lemma array_facts : count_bytes sl = 4 ∧ data_bytes sl = ds * array_size f ∧ 1 ≤ ds < 2 ^ 32 ∧ 0 ≤ array_size f < 2 ^ 32 ∧ scalar_bytes t ds ≤ ds ∧
  0 ≤ sl_data sl ∧ sl_data sl + ds * array_size f ≤ struct_size id ∧ struct_size id < 2 ^ 32 ∧ 0 ≤ sl_size sl ∧ sl_size sl + 4 ≤ struct_size id ∧
  apart (sl_data sl) (ds * array_size f) (sl_size sl) 4 ∧ sl_size sl ≠ sl_data sl.
Proof using All.
  destruct (static_slots id j sl Hj) as [Hst Hty _ Hct]. destruct (slot_fits id j sl Hj) as [_ _ Hval Hds Har Hd Hc Hap _ _ _ _ _].
  pose proof (fits_size id (fit id)). pose proof (data_bytes_array sl Hst Hh) as Hdb. pose proof (value_size _ Hval).
  assert (sl_size sl ≠ sl_data sl) as Hne.
  { specialize (Hct ltac:(by rewrite Hh)). rewrite (slot_size_offset _ _ _ Hj) by (by rewrite Hh). lia. }
  assert (count_bytes sl = 4) as Hcb by (unfold count_bytes; rewrite Hh, decide_False; [done|by intros [_ ?]]). rewrite Hcb, Hdb in *.
  split_and!; try done; try lia. unfold static_value in Hty. rewrite Ht in Hty. destruct t; cbn; lia.
Qed.
(** One item, and the count after it. *)
Definition after_item (k : Z) (obj img : bytes) : bytes := put (sl_size sl) (le_bytes 4 (k + 1)) (put (item k) obj img).
Definition counts (k : Z) (img : bytes) : Prop := slice (sl_size sl) 4 img = le_bytes 4 k.
Lemma item_facts k obj img : zlen img = struct_size id → 0 ≤ k < array_size f → object_ok t (scalar_bytes t ds) obj →
  0 ≤ item k ∧ item k + ds ≤ struct_size id ∧ item_offset f k = ds * k ∧ zlen obj = scalar_bytes t ds ∧ 1 ≤ zlen obj ∧
  zlen (put (item k) obj img) = struct_size id ∧ zlen (after_item k obj img) = struct_size id ∧ counts (k + 1) (after_item k obj img) ∧
  (item k + ds ≤ sl_size sl ∨ sl_size sl + 4 ≤ item k).
Proof using All.
  intros Hl Hk Ho. destruct array_facts as (_ & _ & Hds & Har & Hsb & Hd & Hd2 & Hss & Hc & Hc2 & Hap & _). pose proof (zlen_object _ _ _ Ho) as Hz. pose proof (object_size_pos _ _ _ Ho).
  assert (ds * k + ds ≤ ds * array_size f) by nia. assert (0 ≤ ds * k) by nia. unfold apart in Hap.
  assert (zlen (put (item k) obj img) = struct_size id) as Hz1 by (rewrite zlen_put; lia). unfold after_item, counts.
  split_and!; try lia.
  - unfold item_offset. apply wrap_small. word_bounds. lia.
  - rewrite zlen_put; rewrite ?zlen_4; lia.
  - rewrite <- (zlen_4 (k + 1)) at 1. apply slice_put; rewrite ?zlen_4; lia.
Qed.
Lemma item_taken k obj img p : zlen img = struct_size id → 0 ≤ k < array_size f → object_ok t (scalar_bytes t ds) obj → counts k img → 0 < p →
  takes (_ ← func decode decode_noinit f (p + sl_data sl + item_offset f k); size ← load_size (pSize (it p)); store_size (pSize (it p)) (u32 (size + 1)))
    (wire t obj) p img (after_item k obj img).
Proof using All.
  intros Hl Hk Ho Hc Hp. destruct (item_facts k obj img Hl Hk Ho) as (H1 & H2 & H3 & H4 & H5 & H6 & H7 & H8 & H9). destruct array_facts as (_ & _ & _ & Har & Hsb & Hd & _ & Hss & Hcs & Hcs2 & _ & _).
  rewrite H3, <- Z.add_assoc. apply (takes_bytes _ (wire t obj ++ [])); [apply app_nil_r|]. apply (takes_seq _ _ _ _ _ _ (put (item k) obj img)).
  - rewrite <- (put_inner (item k) ds obj img) by lia.
    apply (takes_part _ _ _ _ ds); [lia|lia|lia|]. unfold func.
    apply (stores_takes (PbStream.PB_DECODERS t ds)); [by apply stores_scalar| |rewrite zlen_slice; lia].
    pose proof (consumes_scalar (Y := Y) t _ obj Ho) as Hcs3. by destruct t.
  - cbn [pSize at_slot load_size store_size]. eapply takes_ext; [intros s; symmetry; apply run_bind_assoc|].
    apply (takes_load 4 (sl_size sl)); [lia|lia|lia|]. rewrite slice_put_disjoint by lia. rewrite Hc.
    apply (takes_run (mret (u32 (le_val (le_bytes 4 k)))) _ (u32 (le_val (le_bytes 4 k)))); [done|].
    rewrite le_val_le_bytes_small by (change (256 ^ Z.of_nat 4) with (2 ^ 32); lia). rewrite (wrap_small 32 k), wrap_small by (word_bounds; lia).
    apply takes_store; rewrite ?zlen_4; lia.
Qed.
Lemma packed_loop_taken a : 0 < a → ∀ n k img e fuel, zlen img = struct_size id → 0 ≤ k → k + Z.of_nat n ≤ array_size f → counts k img → zlen e < Z.of_nat fuel →
  items_wire (value_wire m0 (message_wire m0 depth) f) ds n (a + ds * k) = Some (e, true) →
  ∃ img', (∀ p, 0 < p → fills (static_packed_loop decode decode_noinit fuel (it p)) e p img img') ∧ counts (k + Z.of_nat n) img' ∧
    (∀ o l, 0 ≤ o → apart o l (item k) (ds * Z.of_nat n) → apart o l (sl_size sl) 4 → slice o l img' = slice o l img) ∧
    ∀ m b, region (b + sl_data sl) (slice (sl_data sl) (data_bytes sl) img') m → items_wire (value_wire m (message_wire m depth) f) ds n (b + sl_data sl + ds * k) = Some (e, true).
Proof using All.
  intros Ha. destruct array_facts as (_ & Hdb & Hds & Har & Hsb & Hd & Hd2 & Hss & Hcs & Hcs2 & Hap & _).
  induction n as [|n IHn]; intros k img e fuel Hl Hk Hn Hc Hf E; (destruct fuel as [|fuel]; [pose proof (zlen_nonneg e); lia|]); cbn [items_wire] in E.
  - injection E as <-. exists img. split_and!; [|by rewrite Z.add_0_r|done|done].
    intros p Hp. split; [done|]. intros i rest m c Hi Hr. exists i. split; [|done]. cbn [static_packed_loop]. rewrite (run_some _ _ _ _ _ (eq_refl : run_get _ = _)).
    cbn [input]. rewrite (in_left _ _ _ Hi). cbn. by rewrite (poke_same p img m).
  - destruct (value_wire m0 _ f (a + ds * k)) as [[v ok]|] eqn:Ev; [|done]. cbn [followed] in E. destruct ok; [|done].
    destruct (items_wire _ _ n _) as [[e' ok]|] eqn:E'; [|done]. injection E as <- ->.
    unfold value_wire in Ev. rewrite Ht in Ev. destruct (scalar_source _ _ _ _ _ Hm0 Ev) as (obj & Ho & ->). rewrite zlen_app in Hf. pose proof (wire_nonempty _ _ _ Ho). pose proof (zlen_nonneg e').
    destruct (item_facts k obj img Hl ltac:(lia) Ho) as (H1 & H2 & H3 & H4 & H5 & H6 & H7 & H8 & H9).
    destruct (IHn (k + 1) (after_item k obj img) e' fuel H7) as (img' & Hfill & Hcount & Hsame & Hread); [lia|lia|done|lia| |].
    { rewrite <- E'. f_equal. lia. }
    exists img'. split_and!.
    + intros p Hp. destruct (Hfill p Hp) as [Hz Hrun]. split; [lia|]. intros i rest m c Hi Hr. destruct (item_taken k obj img p Hl ltac:(lia) Ho Hc Hp) as [_ Htake].
      destruct (Htake i e' rest m c Hi Hr) as (i1 & E1 & Hi1). destruct (Hrun i1 rest _ c Hi1 (region_poke p _ m)) as (i2 & E2 & Hi2). exists i2. split; [|done].
      cbn [static_packed_loop]. rewrite (run_some _ _ _ _ _ (eq_refl : run_get _ = _)). cbn [input]. rewrite (in_left _ _ _ Hi), zlen_app.
      rewrite (proj2 (Z.ltb_lt 0 _)) by lia. rewrite (run_some _ _ _ k (Machine i m c)).
      2:{ cbn [pSize at_slot load_size]. unfold load_at, on_memory. cbv [mbind run_bind]. cbn [mem]. unfold sizeof_size. rewrite (load_region p img m (sl_size sl) 4 Hr) by lia. cbn.
          rewrite Hc, le_val_le_bytes_small by (change (256 ^ Z.of_nat 4) with (2 ^ 32); lia). by rewrite wrap_small by (word_bounds; lia). }
      rewrite (field_at_iter _ p j sl Hj). rewrite (proj2 (Z.ltb_lt k _)) by lia. cbn [andb].
      rewrite poke_poke in E2 by lia. rewrite <- E2.
      transitivity ((_ ← (_ ← func decode decode_noinit f (p + sl_data sl + item_offset f k); size ← load_size (pSize (it p)); store_size (pSize (it p)) (u32 (size + 1)));
        static_packed_loop decode decode_noinit fuel (it p)) (Machine i m c)); [|by rewrite (run_some _ _ _ _ _ E1)].
      cbv [mbind run_bind]. cbn [pData at_slot]. destruct (func _ _ _ _ _) as [[[?|] ?]|]; [|done|done]. by destruct (load_size _ _) as [[[?|] ?]|].
    + by replace (k + Z.of_nat (S n)) with (k + 1 + Z.of_nat n) by lia.
    + intros o l Hlo Ho1 Ho2. unfold apart in Ho1, Ho2. destruct (decide (l ≤ 0)); [|].
      { unfold slice. replace (Z.to_nat l) with O by lia. done. }
      rewrite Hsame; [|done|unfold apart; nia|done]. unfold after_item. rewrite !slice_put_disjoint; rewrite ?zlen_4; try done; try lia; nia.
    + intros m b Hr. cbn [items_wire]. unfold value_wire at 1. rewrite Ht.
      assert (slice (item k) (zlen obj) img' = obj) as Eo.
      { rewrite Hsame; [|lia|unfold apart; lia|unfold apart; lia]. unfold after_item. rewrite slice_put_disjoint by (rewrite ?zlen_4; lia). apply slice_put; lia. }
      rewrite (scalar_target m t ds obj [] (b + sl_data sl + ds * k) Ho).
      * cbn [followed]. replace (b + sl_data sl + ds * k + ds) with (b + sl_data sl + ds * (k + 1)) by lia. by rewrite Hread.
      * rewrite app_nil_r, <- Eo. assert (zlen img' = struct_size id) as Hl' by (destruct (Hfill 1 ltac:(lia)); lia).
        rewrite <- (slice_slice (sl_data sl) (data_bytes sl) (ds * k) (zlen obj)) by nia. apply region_inside; [done|nia|lia|]. rewrite zlen_slice; nia.
Qed.
Lemma packed_taken img img' e n : zlen e < 2 ^ 32 → zlen img' = zlen img → (∀ p, 0 < p → fills (static_packed_loop decode decode_noinit (S (Z.to_nat (zlen e))) (it p)) e p img img') →
  counts n img' → ∀ p, 0 < p → takes (decode_static_packed decode decode_noinit (it p)) (framed e) p img img'.
Proof using All.
  intros He Hl Hfill Hc p Hp. destruct (Hfill p Hp) as [_ Hrun]. split; [done|]. intros i bs rest m k Hi Hr. unfold framed in Hi. rewrite <- app_assoc in Hi.
  pose proof (in_bytes _ _ _ Hi) as Hb. apply bytes_ok_app in Hb as [_ Hb]. apply bytes_ok_app in Hb as [_ Hb]. pose proof (zlen_nonneg e).
  destruct (make_substream_ok i e bs rest ltac:(word_bounds; lia) Hi) as (s1 & i1 & E1 & Hs1 & _ & Hl1 & _).
  destruct (Hrun s1 (bs ++ rest) m k Hs1 Hr) as (s2 & E2 & Hs2).
  destruct (close_substream_ok s2 i1 [] bs rest Hs2 Hl1 Hb) as (i2 & E3 & Hi2 & _). exists i2. split; [|done].
  unfold decode_static_packed. rewrite (run_some _ _ _ s1 (Machine i1 m k)) by (unfold on_input; cbn; by rewrite E1).
  unfold on_substream. cbv [mbind run_bind]. cbn [mem fixed_count_size input]. rewrite (in_left _ _ _ Hs1), E2. cbn [mem fixed_count_size input].
  rewrite (in_left _ _ _ Hs2). cbn [Z.eqb negb]. unfold on_input. change (zlen [] =? 0) with true. cbn [negb input mem fixed_count_size]. by rewrite E3.
Qed.
Lemma counts_region m b img n : counts n img → is_u32 n → region (b + sl_size sl) (slice (sl_size sl) (count_bytes sl) img) m →
  size_in m (b + sl_data sl + size_offset f) = Some n.
Proof using All.
  intros Hc Hn Hr. destruct array_facts as (Hcb & _). destruct (counted_size ltac:(by rewrite Hh)) as (Hso & _). rewrite Hcb, Hc in Hr.
  replace (b + sl_data sl + size_offset f) with (b + sl_size sl + 0) by lia. eapply size_in_region; [exact Hr|lia|rewrite zlen_4; lia| |done].
  rewrite <- (zlen_4 n) at 1. apply slice_all.
Qed.
Lemma array_taken a img e : zlen img = struct_size id → slot_wire m0 (message_wire m0 depth) (S depth) a sl = Some (e, true) → 0 < a → zlen e < 2 ^ 32 →
  slot_fresh img → e = [] ∧ slot_holds img e ∨ slot_taken img e.
Proof using All.
  intros Hl E Ha He (_ & Hc & _). specialize (Hc Hh : counts 0 img). destruct (static_slots id j sl Hj) as [Hst _ _ _].
  destruct (counted_size ltac:(by rewrite Hh)) as (_ & _ & Hnz). destruct array_facts as (Hcb & Hdb & Hds & Har & Hsb & Hd & Hd2 & Hss & Hcs & Hcs2 & Hap & _).
  assert (∀ m b n, size_in m (b + sl_data sl + size_offset f) = Some n → slot_wire m (message_wire m depth) (S depth) b sl = array_wire m (message_wire m depth) f (b + sl_data sl) n) as Hw.
  { intros m b n En. rewrite slot_wire_static. unfold field_wire. rewrite Hst, Hh, Hnz. rewrite bool_decide_false by done. cbn [mbind option_bind]. by rewrite En. }
  destruct (size_in m0 (a + sl_data sl + size_offset f)) as [n|] eqn:En.
  2:{ rewrite slot_wire_static in E. unfold field_wire in E. rewrite Hst, Hh, Hnz in E. rewrite bool_decide_false in E by done. cbn [mbind option_bind] in E. by rewrite En in E. }
  rewrite (Hw _ _ _ En) in E. pose proof (computes_size_range _ _ _ En) as Hn. unfold array_wire in E. rewrite packed_key in E. destruct (Z.eqb_spec n 0) as [Hn0|Hn0].
  - left. injection E as <-. split; [done|]. intros m b Hb _ Hr. rewrite (Hw m b 0); [done|]. by apply (counts_region m b img 0).
  - right. rewrite Hst, Ht in E. rewrite bool_decide_true in E by done. cbn [andb packable] in E. destruct (Z.ltb_spec (array_size f) n) as [|Hna]; [done|].
    destruct (items_wire _ _ _ _) as [[e' ok]|] eqn:Ei; [|done]. cbn [framed_result] in E. destruct (Z.ltb_spec (zlen e') (2 ^ 64)) as [He'|]; [|done].
    destruct ok; [|done]. injection E as <-. unfold framed in He. rewrite !zlen_app in He. pose proof (zlen_nonneg (tag_of PB_WT_STRING (tag f))). pose proof (zlen_nonneg (varint_of (zlen e'))). pose proof (zlen_nonneg e').
    assert (0 ≤ n) as Hn1 by (word_bounds; lia). rewrite <- (Z.add_0_r (a + sl_data sl)), <- (Z.mul_0_r ds) in Ei.
    destruct (packed_loop_taken (a + sl_data sl) ltac:(lia) (Z.to_nat n) 0 img e' (S (Z.to_nat (zlen e'))) Hl) as (img' & Hfill & Hcount & Hsame & Hread); try done; try lia.
    replace (0 + Z.of_nat (Z.to_nat n)) with n in Hcount by lia. assert (zlen img' = zlen img) as Hl' by (destruct (Hfill 1 ltac:(lia)); lia).
    exists PB_WT_STRING, (framed e'), img'. split_and!; [done|done|done| | |].
    + intros p Hp. unfold decode_static_field. rewrite (field_at_iter _ p j sl Hj), Hh, Ht. cbn [packable]. eapply packed_taken; [lia|done|done|exact Hcount|done].
    + intros m b Hb Hr Hr'. rewrite (Hw m b n) by (by apply (counts_region m b img' n)). unfold array_wire. rewrite packed_key, (proj2 (Z.eqb_neq n 0)) by done.
      rewrite Hst, Ht, bool_decide_true by done. cbn [andb packable]. rewrite (proj2 (Z.ltb_ge _ _)) by done.
      specialize (Hread m b Hr). rewrite Z.mul_0_r, Z.add_0_r in Hread. rewrite Hread. cbn [framed_result followed plain]. by rewrite (proj2 (Z.ltb_lt _ _)).
    + split; [done|]. intros o l Hol Ho1 Ho2. unfold same_at. destruct (decide (l = 0)) as [->|]; [done|]. destruct Hol as [|Hol]; [done|].
      rewrite Hcb in Ho2. rewrite Hdb in Ho1. apply Hsame; [done| |done]. unfold apart in *. rewrite Z2Nat.id by done. nia.
Qed.
End Array.

(** Any field: nothing is on the wire and the initial value stands, or the field is decoded. *)
Lemma field_taken a img e : zlen img = struct_size id → slot_wire m0 (message_wire m0 depth) (S depth) a sl = Some (e, true) → 0 < a → zlen e < 2 ^ 32 →
  slot_terminated a → slot_fresh img → htype sl ≠ PB_HTYPE_REQUIRED ∧ e = [] ∧ slot_holds img e ∨ slot_taken img e.
Proof using All.
  intros Hl E Ha He Hterm Hf. destruct (static_htype _ (static_slots id j sl Hj)) as [Hh|[Hh|[Hh Hp]]].
  - right. by apply (required_taken a).
  - destruct (optional_taken a img e Hh Hl E Ha He Hterm Hf) as [[? ?]|]; [left; rewrite Hh; done|by right].
  - destruct (ltype_of sl) as [t| | | | | |] eqn:Ht; try done.
    destruct (array_taken t Ht Hh a img e Hl E Ha He Hf) as [[? ?]|]; [left; rewrite Hh; done|by right].
Qed.
End Field.
