(* ===== verification/PbComplete.v ===== *)
(** * The encoder, exactly

    [PbOutput] says what the encoder writes, [PbWritten] that it does.  Here is that the wire image is
    defined: a structure of static fields in memory always has one, whatever its bytes.  Every byte of
    the structure accounts for at most forty bytes of it in each of the nested messages. *)
From stdpp Require Import strings gmap.
From S2P Require Export PbReadback.

(** ** Images of bounded size *)

Definition sized (n : Z) (w : wire_result) : Prop := ∃ bs ok, w = Some (bs, ok) ∧ zlen bs ≤ n.
Lemma sized_refused n : 0 ≤ n → sized n refused.
Proof. intros Hn. by exists [], false. Qed.
Lemma sized_plain bs n : zlen bs ≤ n → sized n (plain bs).
Proof. intros Hn. by exists bs, true. Qed.
Lemma sized_weaken n n' w : sized n w → n ≤ n' → sized n' w.
Proof. intros (bs & ok & -> & H) Hn. exists bs, ok. split; [done|lia]. Qed.
Lemma sized_followed n n' w w' : sized n w → sized n' w' → 0 ≤ n' → sized (n + n') (followed w w').
Proof.
  intros (bs & ok & -> & H) (bs' & ok' & -> & H') Hn. destruct ok; [|exists bs, false; split; [done|lia]].
  exists (bs ++ bs'), ok'. split; [done|]. rewrite zlen_app. lia.
Qed.
Lemma zlen_varint_of v : zlen (varint_of v) ≤ 10.
Proof. unfold varint_of, zlen. rewrite length_varint. apply (zlen_digits 10). Qed.
Lemma sized_framed n w : sized n w → 0 ≤ n < 2 ^ 64 → sized (10 + n) (framed_result w).
Proof.
  intros (bs & ok & -> & H) Hn. cbn [framed_result]. rewrite (proj2 (Z.ltb_lt _ _)) by lia. destruct ok; [|apply sized_refused; lia].
  apply sized_plain. unfold framed. rewrite zlen_app. pose proof (zlen_varint_of (zlen bs)). lia.
Qed.
Lemma sized_key f : sized 10 (key_wire f).
Proof. unfold key_wire. destruct (wire_code _); [apply sized_plain, zlen_varint_of|by apply sized_refused]. Qed.
Lemma sized_items (item : Z → wire_result) step k n : 0 ≤ k → ∀ a, (∀ i, (i < n)%nat → sized k (item (a + step * Z.of_nat i))) → sized (k * Z.of_nat n) (items_wire item step n a).
Proof.
  intros Hk. induction n as [|n IH]; intros a H; cbn [items_wire]; [apply sized_plain; change (zlen []) with 0; lia|].
  replace (k * Z.of_nat (S n)) with (k + k * Z.of_nat n) by lia. apply sized_followed; [|apply IH|lia].
  - specialize (H 0%nat ltac:(lia)). by replace (a + step * Z.of_nat 0) with a in H by lia.
  - intros i Hi. specialize (H (S i) ltac:(lia)). by replace (a + step + step * Z.of_nat i) with (a + step * Z.of_nat (S i)) by lia.
Qed.
Lemma sized_all (f : slot → wire_result) (k : slot → Z) l : Forall (λ sl, 0 ≤ k sl ∧ sized (k sl) (f sl)) l →
  sized (foldr (λ sl n, k sl + n) 0 l) (all_followed f l) ∧ 0 ≤ foldr (λ sl n, k sl + n) 0 l.
Proof.
  induction 1 as [|sl l [Hk Hs] _ [IH IH']]; [split; [by apply sized_plain|done]|]. cbn [foldr all_followed]. split; [|lia]. by apply sized_followed.
Qed.

(** ** The fields of a structure share its bytes *)

Section Room.
Context {tables : Tables} {layout : Layout} {fit : TablesFit} {static : StaticTables} (id : Z).
Abbreviation fs := (fields_of id).
Definition room (j : nat) : list Z := match slots fs !! j with Some sl => seqZ (sl_data sl) (data_bytes sl) | None => [] end.
Lemma elem_of_room j a : a ∈ room j ↔ ∃ sl, slots fs !! j = Some sl ∧ sl_data sl ≤ a < sl_data sl + data_bytes sl.
Proof.
  unfold room. destruct (slots fs !! j) as [sl|]; [rewrite elem_of_seqZ; naive_solver|]. split; [by intros ?%not_elem_of_nil|by intros (? & ? & _)].
Qed.
Lemma length_rooms l : ∀ j, drop j (slots fs) = l → Z.of_nat (length (seq j (length l) ≫= room)) = foldr (λ sl n, data_bytes sl + n) 0 l.
Proof using fit.
  induction l as [|sl l IH]; intros j Hd; [done|]. cbn [length seq foldr]. rewrite bind_cons, length_app.
  assert (slots fs !! j = Some sl) as Hj by (rewrite <- (Nat.add_0_r j), <- lookup_drop, Hd; done).
  pose proof (data_bytes_nonneg id j sl Hj). rewrite Nat2Z.inj_add, (IH (S j)) by (rewrite <- Nat.add_1_r, <- drop_drop, Hd; done).
  unfold room. rewrite Hj, length_seqZ. lia.
Qed.
Lemma data_total : foldr (λ sl n, data_bytes sl + n) 0 (slots fs) ≤ struct_size id.
Proof using fit static.
  rewrite <- (length_rooms (slots fs) 0 eq_refl). pose proof (fits_size id (fit id)).
  assert (seq 0 (length (slots fs)) ≫= room ⊆+ seqZ 0 (struct_size id)) as Hs%submseteq_length; [|rewrite length_seqZ in Hs; lia].
  apply NoDup_submseteq.
  - apply NoDup_bind; [|intros j _; unfold room; destruct (slots fs !! j); [apply NoDup_seqZ|constructor]|apply NoDup_seq].
    intros j k a _ _ (x & Hx & Ha)%elem_of_room (y & Hy & Hb)%elem_of_room. destruct (decide (j = k)) as [|Hn]; [done|].
    destruct (static_apart id j k x y Hx Hy Hn) as [Hap _]. unfold apart in Hap. lia.
  - intros a (j & Ha & _)%list_elem_of_bind. apply elem_of_room in Ha as (sl & Hj & Ha). apply elem_of_seqZ. destruct (slot_fits id j sl Hj). lia.
Qed.
End Room.

(** ** Structures of static fields *)

Section Static.
Context {tables : Tables} {layout : Layout} {fit : TablesFit} {static : StaticTables} {extensions : Extensions} {user : UserWire}.
Context (m : memory).

Lemma size_in_defined p img o : region p img m → 0 ≤ o → o + 4 ≤ zlen img → ∃ n, size_in m (p + o) = Some n ∧ is_u32 n.
Proof. intros Hr Ho Hl. unfold size_in, sizeof_size. rewrite (load_region p img m o 4 Hr) by lia. eexists. split; [done|]. by apply wrap_is_uint. Qed.
Lemma flag_in_defined p img o : region p img m → 0 ≤ o → o + 1 ≤ zlen img → ∃ b, flag_in m (p + o) = Some b.
Proof. intros Hr Ho Hl. unfold flag_in, byte_in. rewrite (load_region p img m o 1 Hr) by lia. by eexists. Qed.
Lemma c_string_defined fuel : ∀ max p img, region p img m → 0 ≤ max ≤ zlen img → max < Z.of_nat fuel → ∃ s, c_string m fuel max p = Some s.
Proof.
  induction fuel as [|fuel IH]; intros max p img Hr Hl Hf; cbn [c_string].
  - lia.
  - destruct (Z.ltb_spec 0 max) as [Hp|]; [|by eexists]. unfold byte_in.
    pose proof (load_region p img m 0 1 Hr ltac:(lia) ltac:(lia) ltac:(lia)) as E. rewrite Z.add_0_r in E. rewrite E. cbn [mbind option_bind].
    case_match; [by eexists|]. destruct (IH (max - 1) (p + 1) (slice 1 (zlen img - 1) img)) as [s ->]; [apply region_inside; [done|lia..]|rewrite zlen_slice by lia; lia|lia|by eexists].
Qed.
Lemma sized_scalar t n p img : region p img m → zlen img = n → scalar_bytes t n ≤ n → sized 10 (scalar_wire m t n p).
Proof.
  intros Hr Hl Hn. pose proof (load_region p img m 0) as Hload. rewrite Z.add_0_r in Hload. pose proof (λ v, sized_plain _ _ (zlen_varint_of v)) as Hv.
  destruct t; cbn [scalar_wire scalar_bytes] in *.
  - unfold flag_in, byte_in. rewrite (Hload 1 Hr) by lia. apply Hv.
  - destruct (integer_size n); [|by apply sized_refused]. rewrite (Hload n Hr) by (lia || (pose proof (zlen_nonneg img); lia)). apply Hv.
  - destruct (integer_size n); [|by apply sized_refused]. rewrite (Hload n Hr) by (lia || (pose proof (zlen_nonneg img); lia)). apply Hv.
  - destruct (integer_size n); [|by apply sized_refused]. rewrite (Hload n Hr) by (lia || (pose proof (zlen_nonneg img); lia)). apply Hv.
  - rewrite (Hload 4 Hr) by lia. apply sized_plain. rewrite zlen_slice; lia.
  - rewrite (Hload 8 Hr) by lia. apply sized_plain. rewrite zlen_slice; lia.
Qed.

(** The values of a type, given those of the messages in it. *)
Section Value.
Context (message : pb_fields → Z → wire_result) (k : Z).
Hypothesis Hk : 40 ≤ k.
Hypothesis Hbound : k * 2 ^ 32 < 2 ^ 64.
Lemma sized_value f p img : PB_ATYPE (type f) = PB_ATYPE_STATIC → static_value f → value_fits f → data_size f < 2 ^ 32 → 0 < p → region p img m → zlen img = data_size f →
  (∀ sub, ptr f = Submsg sub → PB_LTYPE (type f) = PB_LTYPE_SUBMESSAGE → sized (k * data_size f) (message (fields_of sub) p)) →
  sized (10 + k * data_size f) (value_wire m message f p).
Proof using Hk Hbound fit.
  intros Ha Hs Hv Hd Hp Hr Hl Hm. pose proof (value_size f Hv). unfold value_wire. pose proof (load_region p img m 0) as Hload. rewrite Z.add_0_r in Hload.
  unfold static_value, value_fits in *. destruct (PB_LTYPE (type f)) as [t| | | | | |] eqn:Et; try done.
  - eapply sized_weaken; [apply (sized_scalar t _ p img Hr Hl); destruct t; cbn; lia|nia].
  - unfold bytes_wire. rewrite (proj2 (Z.eqb_neq p 0)) by lia. destruct (size_in_defined p img 0 Hr) as (n & En & Hn); [lia|lia|]. rewrite Z.add_0_r in En.
    rewrite En. cbn [mbind option_bind]. rewrite bool_decide_true by done. cbn [andb]. rewrite wrap_small by (word_bounds; lia).
    destruct (Z.ltb_spec (data_size f - 4) n); [apply sized_refused; nia|]. word_bounds. rewrite (load_region p img m 4 n Hr) by lia. cbn [mbind option_bind].
    apply sized_plain. unfold framed. rewrite zlen_app. pose proof (zlen_varint_of (zlen (slice 4 n img))). rewrite zlen_slice in * by lia. nia.
  - unfold string_wire, string_in. rewrite decide_False by (by rewrite Ha). rewrite (proj2 (Z.eqb_neq p 0)) by lia. pose proof (region_size p img m Hr).
    destruct (c_string_defined (S (size (cells m))) (data_size f) p img Hr) as [s Es]; [lia|unfold zlen in Hl; lia|]. rewrite Es. cbn [mbind option_bind].
    apply c_string_ok in Es as [_ Es]. apply sized_plain. unfold framed. rewrite zlen_app. pose proof (zlen_varint_of (zlen s)). nia.
  - destruct (ptr f) as [|sub|] eqn:Ep; [done| |done]. apply sized_framed; [by apply Hm|nia].
  - rewrite (Hload _ Hr) by lia. cbn [mbind option_bind]. apply sized_plain. unfold framed. rewrite zlen_app. pose proof (zlen_varint_of (zlen (slice 0 (data_size f) img))).
    rewrite zlen_slice in * by lia. nia.
Qed.

Lemma sized_entry n f p : sized n (value_wire m message f p) → 0 ≤ n → sized (10 + n) (entry_wire m message f p).
Proof. intros Hs Hn. unfold entry_wire. apply sized_followed; [apply sized_key|done|done]. Qed.
Lemma sized_packed id j sl t src img n : slots (fields_of id) !! j = Some sl → ltype_of sl = Scalar t → htype sl = PB_HTYPE_REPEATED →
  region src img m → zlen img = struct_size id → is_u32 n → sized (k * data_bytes sl) (array_wire m message (sl_field sl) (src + sl_data sl) n).
Proof using Hk Hbound fit static.
  intros Hj Ht Hh Hr Hl Hn. destruct (static_slots id j sl Hj) as [Ha Hs _ _]. destruct (slot_fits id j sl Hj) as [_ _ Hv Hds Har Hd _ _ _ _ _ _ _].
  pose proof (value_size _ Hv). pose proof (fits_size id (fit id)). pose proof (data_bytes_nonneg id j sl Hj). rewrite (data_bytes_array sl Ha Hh) in *.
  unfold array_wire. destruct (Z.eqb_spec n 0); [apply sized_plain; change (zlen []) with 0; nia|]. word_bounds.
  destruct (bool_decide _ && _) eqn:Eb; [apply sized_refused; nia|]. rewrite bool_decide_true in Eb by (by rewrite Ha). cbn [andb] in Eb. apply Z.ltb_ge in Eb.
  rewrite Ht. cbn [packable]. assert (n ≤ data_size (sl_field sl) * array_size (sl_field sl)) by nia.
  apply (sized_weaken (10 + (10 + 10 * Z.of_nat (Z.to_nat n)))); [|nia].
  apply sized_followed; [apply sized_plain, zlen_varint_of| |lia]. apply sized_framed; [|nia]. apply sized_items; [done|]. intros i Hi.
  assert (data_size (sl_field sl) * Z.of_nat i + data_size (sl_field sl) ≤ data_size (sl_field sl) * array_size (sl_field sl)) by nia.
  unfold value_wire. rewrite Ht. replace (src + sl_data sl + data_size (sl_field sl) * Z.of_nat i) with (src + (sl_data sl + data_size (sl_field sl) * Z.of_nat i)) by lia.
  eapply sized_scalar; [apply (region_inside src _ (data_size (sl_field sl)) img m Hr); nia|apply zlen_slice; nia|].
  unfold static_value in Hs. rewrite Ht in Hs. destruct t; cbn; lia.
Qed.
Lemma sized_slot id j sl src img depth : slots (fields_of id) !! j = Some sl → 0 < src → region src img m → zlen img = struct_size id →
  (∀ sub, ptr (sl_field sl) = Submsg sub → ltype_of sl = PB_LTYPE_SUBMESSAGE → htype sl ≠ PB_HTYPE_REPEATED →
    sized (k * data_size (sl_field sl)) (message (fields_of sub) (src + sl_data sl))) →
  sized ((k + 40) * data_bytes sl) (slot_wire m message depth src sl).
Proof using Hk Hbound fit static.
  intros Hj Hsrc Hr Hl Hm. destruct (static_slots id j sl Hj) as [Ha Hs Hh Hct]. destruct (slot_fits id j sl Hj) as [_ _ Hv Hds Har Hd Hc _ _ _ _ _ _].
  pose proof (value_size _ Hv). pose proof (data_bytes_nonneg id j sl Hj). pose proof (fits_size id (fit id)).
  assert (htype sl ≠ PB_HTYPE_REPEATED → sized ((k + 40) * data_bytes sl) (entry_wire m message (sl_field sl) (src + sl_data sl))) as Hentry.
  { intros Hn. rewrite (data_bytes_single sl Ha Hn) in *. apply (sized_weaken (10 + (10 + k * data_size (sl_field sl)))); [|nia]. apply sized_entry; [|nia].
    apply (sized_value (sl_field sl) _ (slice (sl_data sl) (data_size (sl_field sl)) img) Ha Hs Hv Hds); [lia|apply region_inside; [done|lia..]|apply zlen_slice; lia|].
    intros sub Hsub Hty. by apply Hm. }
  assert (sized ((k + 40) * data_bytes sl) (plain [])) as Hnone by (apply sized_plain; change (zlen []) with 0; nia).
  unfold slot_wire, any_field_wire, field_wire. rewrite decide_False by (intros E; unfold static_value in Hs; by rewrite E in Hs). rewrite Ha. rewrite bool_decide_false by done.
  cbn [mbind option_bind]. pose proof (slot_size_offset _ _ _ Hj) as Hso.
  destruct Hh as [Eh|[Eh|[Eh Hp]]]; rewrite Eh in *.
  - rewrite (proj2 (Z.eqb_neq _ _)) by lia. by apply Hentry.
  - specialize (Hct ltac:(done)). specialize (Hso ltac:(done)). rewrite (proj2 (Z.eqb_neq _ _)) by done. cbn [negb].
    assert (count_bytes sl = 1) as Hcb by (unfold count_bytes; rewrite Eh, decide_True by (split; [done|lia]); done). rewrite Hcb in Hc.
    replace (src + sl_data sl + size_offset (sl_field sl)) with (src + sl_size sl) by lia.
    destruct (flag_in_defined src img (sl_size sl) Hr) as [b ->]; [lia|lia|]. cbn. destruct b; [by apply Hentry|done].
  - specialize (Hct ltac:(done)). specialize (Hso ltac:(done)). rewrite (proj2 (Z.eqb_neq _ _)) by done. cbn [negb].
    assert (count_bytes sl = 4) as Hcb by (unfold count_bytes; rewrite Eh, decide_False; [done|intros [_ ?]; lia]). rewrite Hcb in Hc.
    replace (src + sl_data sl + size_offset (sl_field sl)) with (src + sl_size sl) by lia.
    destruct (size_in_defined src img (sl_size sl) Hr) as (n & -> & Hn); [lia|lia|]. cbn [mbind option_bind].
    destruct (ltype_of sl) as [t| | | | | |] eqn:Et; try done. apply (sized_weaken (k * data_bytes sl)); [|nia]. by apply (sized_packed id j sl t src img).
Qed.
End Value.

Lemma message_defined depth : ∀ id src img, 0 < src → region src img m → zlen img = struct_size id → (nesting id < depth)%nat → Z.of_nat depth < 2 ^ 24 →
  sized (40 * (Z.of_nat depth + 1) * struct_size id) (message_wire m depth (fields_of id) src).
Proof using fit static.
  induction depth as [|depth IH]; intros id src img Hsrc Hr Hl Hn Hd; [lia|]. cbn [message_wire]. rewrite (proj2 (Z.eqb_neq src 0)) by lia.
  set (k := 40 * (Z.of_nat depth + 1)). assert (40 ≤ k) as Hk by lia. assert (k * 2 ^ 32 < 2 ^ 64) as Hbound by lia.
  destruct (sized_all (slot_wire m (message_wire m depth) (S depth) src) (λ sl, (k + 40) * data_bytes sl) (slots (fields_of id))) as [Hs _].
  - apply Forall_lookup. intros j sl Hj. pose proof (data_bytes_nonneg id j sl Hj). split; [nia|]. apply (sized_slot _ k Hk Hbound id j sl src img (S depth) Hj Hsrc Hr Hl).
    intros sub Hp Ht Hh. destruct (static_slots id j sl Hj) as [Ha _ _ _]. destruct (slot_fits id j sl Hj) as [_ _ Hv _ _ Hdata _ _ _ Hin _ _ _].
    specialize (Hin Ha). unfold inner_fits in Hin. unfold value_fits in Hv. rewrite Ht, Hp in *. destruct Hin as [Hin _]. rewrite (data_bytes_single sl Ha Hh) in *.
    rewrite Hv in *. pose proof (fits_size sub (fit sub)).
    apply (IH sub _ (slice (sl_data sl) (struct_size sub) img)); [lia|apply region_inside; [done|lia..]|apply zlen_slice; lia|lia|lia].
  - eapply sized_weaken; [exact Hs|]. pose proof (data_total id) as Ht.
    assert (∀ l, foldr (λ sl n, (k + 40) * data_bytes sl + n) 0 l = (k + 40) * foldr (λ sl n, data_bytes sl + n) 0 l) as -> by (induction l as [|sl l IHl]; cbn [foldr]; [lia|rewrite IHl; lia]).
    unfold k in *. nia.
Qed.
End Static.

(** C4. [pb_encode] writes the bytes of the message, whatever the stream: in one pass over the fields or
    two, the same bytes; a delimited message is framed by its size; [pb_get_encoded_size] is that size.
    A structure of static fields always has a wire image, within the C stack for its nesting. *)
Theorem pb_encode_exact {X} {sink : Sink X} {sink_ok : SinkOk X} {tables : Tables} {extensions : Extensions} {encoders : Encoders X} {user : UserWire}
    {entries : EntriesOk} {user_ok : EncodersOk X} (m : memory) (depth : nat) (id src : Z) : memory_ok m →
  let w := message_wire m depth (fields_of id) src in
  emits (PbEncode.pb_encode m depth (fields_of id) src) w ∧
  emits (PbEncode.pb_encode_delimited m depth (fields_of id) src) (framed_result w) ∧
  emits (PbEncode.pb_encode_nullterminated m depth (fields_of id) src) (followed w (plain [0])) ∧
  (∀ bs ok null, w = Some (bs, ok) → zlen bs < 2 ^ 64 → PbEncode.pb_get_encoded_size m depth null (fields_of id) src = Some (if ok then Some (zlen bs) else None)) ∧
  ∀ {layout : Layout} {fit : TablesFit} {static : StaticTables} img, 0 < src → region src img m → zlen img = struct_size id →
    (nesting id < depth)%nat → Z.of_nat depth < 2 ^ 24 → ∃ bs ok, w = Some (bs, ok) ∧ zlen bs < 2 ^ 64.
Proof.
  intros Hm w. pose proof (emits_message m Hm depth id src) as H. fold w in H. split_and!; [exact H|by apply emits_submessage| | |].
  - apply emits_seq; [exact H|]. apply emits_writes. apply (writes_write [0]).
  - intros bs ok null E Hl. rewrite E in H. destruct (emits_sizing _ _ _ null H Hl) as (s' & E' & Hc). unfold PbEncode.pb_get_encoded_size. rewrite E'.
    destruct ok; [by rewrite Hc|done].
  - intros layout fit static img Hs Hr Hl Hn Hd. destruct (message_defined m depth id src img Hs Hr Hl Hn Hd) as (bs & ok & E & Hb). exists bs, ok.
    split; [exact E|]. pose proof (fits_size id (fit id)). nia.
Qed.

(** ** An example *)

(** [struct Point { uint32_t x; bool has_label; char label[4]; }], of 12 bytes, and
    [struct Path { Point start; pb_size_t steps_count; int32_t steps[3]; Point *end; }], of 36
    without padding. *)
Definition path_tables : Tables := λ id,
  if id =? 1 then [Field 1 0x02 0 0 4 0 Null; Field 2 0x17 1 (-1) 4 0 Null]
  else if id =? 2 then [Field 1 0x08 0 0 12 0 (Submsg 1); Field 2 0x23 4 (-4) 4 3 Null; Field 3 0x98 0 0 12 0 (Submsg 1)] else [].
Definition path_extensions : Extensions := λ _, Extension_type 0 0 (Field 1 0 0 0 1 0 Null).
#[local] Existing Instances path_tables path_extensions.
#[local] Instance no_encoders : Encoders (bytes * Z) := {| user_encode _ _ _ _ := run_fail; user_encode_extension _ _ _ := run_fail |}.
#[local] Instance no_user_wire : UserWire := {| callback_wire _ _ _ _ := None; extension_wire _ _ _ := None |}.
#[local] Instance no_encoders_ok : EncodersOk (bytes * Z).
Proof. by split. Qed.
#[local] Instance path_entries : EntriesOk.
Proof.
  split; [|by constructor]. intros id. unfold fields_of, path_tables.
  destruct (id =? 1); [|destruct (id =? 2)]; repeat constructor; cbn; lia.
Qed.
(** [{start: {x: 300, label: "hi"}, steps: [-1, 2], end: {x: 7}}]. *)
Definition path_memory : memory := Memory (map_seqZ 4096
    ([0x2C; 1; 0; 0; 1; 0x68; 0x69; 0; 0; 0xAA; 0xAA; 0xAA] ++ [2; 0; 0; 0; 0xFF; 0xFF; 0xFF; 0xFF; 2; 0; 0; 0; 0xAA; 0xAA; 0xAA; 0xAA] ++ le_bytes 8 8192) ∪
  map_seqZ 8192 [7; 0; 0; 0; 0; 0xAA; 0xAA; 0xAA; 0xAA; 0xAA; 0xAA; 0xAA]) ∅.
Definition path_wire : bytes := [0x0A; 0x07; 0x08; 0xAC; 0x02; 0x12; 0x02; 0x68; 0x69; 0x12; 0x02; 0x01; 0x04; 0x1A; 0x02; 0x08; 0x07].
Lemma path_memory_ok : memory_ok path_memory.
Proof. apply map_Forall_to_list. vm_compute. repeat constructor; discriminate. Qed.
Lemma path_message : message_wire path_memory 3 (fields_of 2) 4096 = plain path_wire.
Proof. by vm_compute. Qed.
Lemma pb_encode_exact_witness : memory_ok path_memory ∧ emits (X := bytes * Z) (pb_encode path_memory 3 (fields_of 2) 4096) (plain path_wire) ∧
  PbEncode.pb_get_encoded_size (X := bytes * Z) path_memory 3 ([], 0) (fields_of 2) 4096 = Some (Some 17).
Proof.
  pose proof (pb_encode_exact (X := bytes * Z) path_memory 3 2 4096 path_memory_ok) as H. cbv zeta in H. rewrite path_message in H. destruct H as (H1 & _ & _ & H2 & _).
  split_and!; [exact path_memory_ok|exact H1|]. exact (H2 path_wire true ([], 0) eq_refl eq_refl).
Defined.
