(* ===== verification/PbRequired.v ===== *)
(** * The check for required fields of nanopb

    The decoder marks the required fields it has seen, the first sixty-four of them, in a bitmap of
    two words; a message is complete when all marks are there. *)
From stdpp Require Import strings gmap.
From S2P Require Export PbDecode.

Definition is_required (f : pb_field) : bool := bool_decide (PB_HTYPE (type f) = PB_HTYPE_REQUIRED).
(** How many of the first [j] fields are required. *)
Definition required_before (fs : pb_fields) (j : nat) : nat := length (filter is_required (take j fs)).

Lemma required_succ fs j f : fs !! j = Some f → required_before fs (S j) = (required_before fs j + if is_required f then 1 else 0)%nat.
Proof.
  intros E. unfold required_before. rewrite (take_S_r _ _ _ E), filter_app, length_app. f_equal. rewrite filter_cons. by destruct (is_required f).
Qed.
Lemma required_le fs j : (required_before fs j ≤ j)%nat.
Proof. unfold required_before. etransitivity; [apply length_filter|]. rewrite length_take. lia. Qed.
Lemma slot_required fs j sl : zlen fs < 2 ^ 32 → slots fs !! j = Some sl → sl_required sl = Z.of_nat (required_before fs j).
Proof.
  intros Hl. revert sl. induction j as [|j IH]; intros sl E.
  - destruct fs; [done|]. injection E as <-. done.
  - pose proof (lookup_lt_Some _ _ _ E) as Hlt. rewrite length_slots in Hlt. rewrite slots_lookup_S in E. apply bind_Some in E as (p & Ep & (f & Ef & ->)%fmap_Some).
    specialize (IH p Ep). rewrite (required_succ fs j (sl_field p)) by (by apply slots_field). unfold next_slot, is_required.
    pose proof (required_le fs j) as Hle. unfold zlen in Hl. destruct (same_union (sl_field p) f) eqn:Hu; cbn [sl_required].
    + apply bool_decide_eq_true in Hu as (Hu & _). rewrite bool_decide_false by congruence. lia.
    + case_decide as Hd; [rewrite bool_decide_true by done|rewrite bool_decide_false by done; lia]. rewrite IH, wrap_small by (word_bounds; lia). lia.
Qed.
(** The walk to the end of the table counts them. *)
Lemma count_required_exact fs dest : zlen fs < 2 ^ 32 → table_ok fs → dest ≠ 0 → ∀ l j sl fuel, drop j (slots fs) = sl :: l → (length l < fuel)%nat →
  count_required fuel (at_slot fs dest j sl) = Z.of_nat (required_before fs (length fs)).
Proof.
  intros Hz Hok Hd. induction l as [|sl' l IH]; intros j sl fuel Hdrop Hf; (destruct fuel as [|fuel]; [cbn in Hf; lia|]); cbn [count_required].
  all: assert (slots fs !! j = Some sl) as E by (rewrite <- (Nat.add_0_r j), <- lookup_drop, Hdrop; done).
  all: assert (drop (j + 1) (slots fs) = match drop j (slots fs) with [] => [] | _ :: l => l end) as Hd' by (rewrite <- drop_drop, Hdrop; done).
  all: rewrite Hdrop, Nat.add_1_r in Hd'.
  all: rewrite (iter_next_exact fs dest Hok Hd j _ (stands_at fs dest j sl E)); unfold succ_slot.
  - assert (slots fs !! Datatypes.S j = None) as EN by (rewrite <- (Nat.add_0_r (Datatypes.S j)), <- lookup_drop, Hd'; done).
    rewrite EN. assert (length fs = S j) as ->.
    { apply lookup_ge_None in EN. apply lookup_lt_Some in E. rewrite length_slots in *. lia. }
    rewrite (required_succ fs j _ (slots_field _ _ _ E)). rewrite (field_at_iter fs dest j sl E). cbn [required_field_index at_slot]. rewrite (slot_required fs j sl Hz E).
    destruct (slots fs !! 0%nat) as [s0|] eqn:E0; [|apply lookup_ge_None in E0; apply lookup_lt_Some in E; lia].
    rewrite (field_at_iter fs dest 0 s0 E0), (proj2 (Z.eqb_neq _ _) (slot_tag fs Hok _ _ E0)). cbn [negb]. rewrite andb_true_r.
    fold (is_required (sl_field sl)). destruct (is_required (sl_field sl)); [|lia].
    pose proof (required_le fs j). apply lookup_lt_Some in E. rewrite length_slots in E. unfold zlen in Hz. rewrite wrap_small by (word_bounds; lia). lia.
  - assert (slots fs !! Datatypes.S j = Some sl') as -> by (rewrite <- (Nat.add_0_r (Datatypes.S j)), <- lookup_drop, Hd'; done).
    apply IH; [done|cbn in Hf; lia].
Qed.

(** The bitmap when the first [n] required fields were seen. *)
Definition marks (n : nat) : list Z := let w := 2 ^ Z.of_nat (Nat.min n 64) - 1 in [w mod 2 ^ 32; w / 2 ^ 32].
Definition marked (n : nat) : bool := bool_decide (mark_seen (Z.of_nat n) (marks n) = marks (S n)).
Definition complete (n : nat) : bool :=
  let count := Z.of_nat n in
  existsb (λ w, negb (w =? allbits)) (take (Z.to_nat (count >>> 5)) (marks n))
  || (negb (count .& 31 =? 0) && negb (nth (Z.to_nat (count >>> 5)) (marks n) 0 =? allbits >>> (32 - (count .& 31)))).
Lemma all_marked : forallb marked (seq 0 64) = true.
Proof. by vm_compute. Qed.
Lemma all_complete : forallb (λ n, negb (complete n)) (seq 0 65) = true.
Proof. by vm_compute. Qed.
Lemma mark_next n : (n < 64)%nat → mark_seen (Z.of_nat n) (marks n) = marks (S n).
Proof. intros Hn. pose proof all_marked as H. rewrite forallb_forall in H. specialize (H n ltac:(apply in_seq; lia)). by apply bool_decide_eq_true in H. Qed.
Lemma marks_full n : (64 ≤ n)%nat → marks n = marks 64.
Proof. intros Hn. unfold marks. by replace (Nat.min n 64) with 64%nat by lia. Qed.
Lemma nothing_missing it n : count_required (S (length (start it))) it = Z.of_nat n → missing_required it (marks n) = false.
Proof.
  intros E. unfold missing_required. rewrite E. unfold PB_MAX_REQUIRED_FIELDS.
  assert (∃ k, (k ≤ 64)%nat ∧ marks n = marks k ∧ (if 64 <? Z.of_nat n then 64 else Z.of_nat n) = Z.of_nat k) as (k & Hk & -> & ->).
  { destruct (Z.ltb_spec 64 (Z.of_nat n)); [exists 64%nat; split_and!; [lia|apply marks_full; lia|done]|exists n; split_and!; [lia|done|done]]. }
  destruct (0 <? Z.of_nat k); [|done]. pose proof all_complete as H. rewrite forallb_forall in H. specialize (H k ltac:(apply in_seq; lia)).
  by apply negb_true_iff in H.
Qed.
(** Seeing the next required field. *)
Lemma see_next fs dest j sl : zlen fs < 2 ^ 32 → slots fs !! j = Some sl →
  see_required (at_slot fs dest j sl) (marks (required_before fs j)) = marks (required_before fs (S j)).
Proof.
  intros Hz E. unfold see_required. rewrite (field_at_iter fs dest j sl E). cbn [required_field_index at_slot]. rewrite (slot_required fs j sl Hz E).
  rewrite (required_succ fs j _ (slots_field _ _ _ E)). fold (is_required (sl_field sl)). destruct (is_required (sl_field sl)); cbn [andb]; [|by rewrite Nat.add_0_r].
  unfold PB_MAX_REQUIRED_FIELDS. rewrite Nat.add_1_r. destruct (Z.ltb_spec (Z.of_nat (required_before fs j)) 64).
  - apply mark_next. lia.
  - by rewrite (marks_full (required_before fs j)), (marks_full (S (required_before fs j))) by lia.
Qed.
