(* ===== verification/PbMessageRoundtrip.v ===== *)
(** * Messages are read back: the whole

    The message loop goes through the fields in the order in which they were written; the
    initialisation prepares the structure; both together restore the message that was encoded. *)
From stdpp Require Import strings gmap.
From S2P Require Export PbReadback PbRequired PbExample.

Class TablesSmall `{!Tables} := tables_small : ∀ id, zlen (fields_of id) < 2 ^ 32.

(** ** Places of the fields *)

Section Places.
Context {tables : Tables} {layout : Layout} {fit : TablesFit} {static : StaticTables} (id : Z).
Abbreviation fs := (fields_of id).
Definition same_place (sl : slot) (img img' : bytes) : Prop :=
  slice (sl_data sl) (data_bytes sl) img' = slice (sl_data sl) (data_bytes sl) img ∧ slice (sl_size sl) (count_bytes sl) img' = slice (sl_size sl) (count_bytes sl) img.
Lemma place_bounds j sl : slots fs !! j = Some sl → (data_bytes sl = 0 ∨ 0 ≤ sl_data sl) ∧ (count_bytes sl = 0 ∨ 0 ≤ sl_size sl).
Proof using fit static. intros Hj. destruct (slot_fits id j sl Hj) as [_ _ _ _ _ Hd Hc _ _ _ _ _ _]. split; [right; lia|]. destruct Hc as [Hc|Hc]; [left|right]; lia. Qed.
Lemma other_same j k x y img img' : slots fs !! j = Some x → slots fs !! k = Some y → j ≠ k → differs_at x img img' → same_place y img img'.
Proof using fit static.
  intros Hj Hk Hn [_ Hd]. destruct (static_apart id j k x y Hj Hk Hn) as (H1 & H2 & H3 & H4). destruct (place_bounds k y Hk) as [B1 B2].
  split; apply Hd; try done; by apply apart_sym.
Qed.
Lemma same_fresh n j sl img img' : slots fs !! j = Some sl → same_place sl img img' → slot_fresh n sl img → slot_fresh n sl img'.
Proof using fit static.
  intros Hj [Hd Hc] (F1 & F2 & F3). destruct (static_slots id j sl Hj) as [Hst Hty Hh Hct].
  assert (htype sl ≠ PB_HTYPE_REQUIRED → sl_size sl ≠ sl_data sl) as Hne.
  { intros Hr. specialize (Hct Hr). rewrite (slot_size_offset _ _ _ Hj); [lia|]. by destruct Hh as [E|[E|[E _]]]; rewrite E. }
  split_and!.
  - intros E. assert (count_bytes sl = 1) as Hb by (unfold count_bytes; rewrite E, decide_True; [done|split; [done|apply Hne; by rewrite E]]). rewrite Hb in Hc. by rewrite Hc, F1.
  - intros E. assert (count_bytes sl = 4) as Hb by (unfold count_bytes; rewrite E, decide_False; [done|intros [_ ?]; apply Hne; [by rewrite E|done]]). rewrite Hb in Hc. by rewrite Hc, F2.
  - destruct (ltype_of sl) eqn:Et; try done. destruct (ptr (sl_field sl)); try done. rewrite data_bytes_single in Hd; [by rewrite Hd|done|].
    intros Er. destruct Hh as [E|[E|[E Hp]]]; [congruence|congruence|by try rewrite Et in Hp].
Qed.
Lemma place_regions j sl img b m : slots fs !! j = Some sl → zlen img = struct_size id → region b img m →
  region (b + sl_data sl) (slice (sl_data sl) (data_bytes sl) img) m ∧ region (b + sl_size sl) (slice (sl_size sl) (count_bytes sl) img) m.
Proof using fit.
  intros Hj Hl Hr. destruct (slot_fits id j sl Hj) as [_ _ _ _ _ Hd Hc _ _ _ _ _ _]. pose proof (data_bytes_nonneg id j sl Hj). pose proof (count_bytes_nonneg sl). split.
  - apply region_inside; [done|lia|lia|lia].
  - destruct Hc as [Hc|Hc]; [|apply region_inside; [done|lia|lia|lia]]. rewrite Hc. intros k Hk. unfold slice in Hk. rewrite length_take in Hk. lia.
Qed.
End Places.

(** ** The message loop *)

Section Loop.
Context {Y : Type} {source : Source Y} {source_ok : SourceOk Y} {tables : Tables} {layout : Layout} {fit : TablesFit} {static : StaticTables} {small : TablesSmall}.
Context {extensions : Extensions} {entries : EntriesOk} {callbacks : Callbacks} {alloc : Allocator} {user : UserWire}.
Abbreviation M := (run (machine Y)).
Context (m0 : memory).
Hypothesis Hm0 : memory_ok m0.
Context (stack : nat) (decode decode_noinit : pb_fields → Z → M unit) (depth : nat).
Hypothesis IH : reread_ok m0 decode_noinit depth.
Context (id a : Z).
Hypothesis Ha : 0 < a.
Abbreviation fs := (fields_of id).
Abbreviation wire_of m b := (slot_wire m (message_wire m depth) (S depth) b).

(** The rest of the message is decoded, from any place of the iterator. *)
Definition rest_decoded (fuel j : nat) (e img img' : bytes) : Prop := ∀ p i rest m c jj sl, 0 < p → slots fs !! jj = Some sl → in_ok i e rest → region p img m →
  ∃ i' jj' sl', slots fs !! jj' = Some sl' ∧ in_ok i' [] rest ∧
    decode_loop stack decode decode_noinit fuel (Progress (at_slot fs p jj sl) 0 None (marks (required_before fs j))) (Machine i m c) =
    Some (Some (Progress (at_slot fs p jj' sl') 0 None (marks (required_before fs (length fs)))), Machine i' (poke p img' m) c).

Lemma same_holds sl img img' e m b : same_place sl img img' → zlen img = zlen img' → slot_holds depth sl img e → 0 < b →
  region (b + sl_data sl) (slice (sl_data sl) (data_bytes sl) img') m → region (b + sl_size sl) (slice (sl_size sl) (count_bytes sl) img') m → wire_of m b sl = Some (e, true).
Proof using All. intros [Hd Hc] _ Hh Hb Hr Hr'. rewrite Hd in Hr. rewrite Hc in Hr'. by apply Hh. Qed.

(** One field of the message. *)
Lemma loop_step fuel j sl p i e1 e2 rest img img1 m c jj sl0 w v : slots fs !! j = Some sl → slots fs !! jj = Some sl0 → 0 < p →
  e1 = tag_of w (tag (sl_field sl)) ++ v → is_wire_type w → in_ok i (e1 ++ e2) rest → region p img m →
  takes (decode_static_field stack decode decode_noinit w (at_slot fs p j sl)) v p img img1 →
  ∃ i', in_ok i' e2 rest ∧
    decode_loop stack decode decode_noinit (S fuel) (Progress (at_slot fs p jj sl0) 0 None (marks (required_before fs j))) (Machine i m c) =
    decode_loop stack decode decode_noinit fuel (Progress (at_slot fs p j sl) 0 None (marks (required_before fs (S j)))) (Machine i' (poke p img1 m) c).
Proof using All.
  intros Hj Hjj Hp -> Hw Hi Hr [_ Htake]. destruct (slot_entry id j sl Hj) as [Htag _ _]. destruct (static_slots id j sl Hj) as [Hst Hty Hh Hct].
  rewrite <- app_assoc in Hi. destruct (decode_tag_ok w (tag (sl_field sl)) i (v ++ e2) rest Hw Htag Hi) as (i1 & E1 & Hi1 & _).
  destruct (Htake i1 e2 rest m c Hi1 Hr) as (i2 & E2 & Hi2). exists i2. split; [done|].
  cbn [decode_loop]. rewrite (run_some _ _ _ _ _ (eq_refl : run_get _ = _)). cbn [input].
  assert (bytes_left i =? 0 = false) as ->.
  { apply Z.eqb_neq. rewrite (in_left _ _ _ Hi), zlen_app. pose proof (zlen_varint_pos _ (digits_nonempty 9 (tag (sl_field sl) * 8 + wire_number w))). pose proof (zlen_nonneg (v ++ e2)). unfold tag_of, varint_of. lia. }
  rewrite (run_some _ _ _ (Some (w, tag (sl_field sl)), false) (Machine i1 m c)) by (cbn; by rewrite E1). cbn [p_iter].
  rewrite (find_own id p jj sl0 j sl Hp Hjj Hj). cbn [negb p_fixed p_seen p_extension].
  rewrite (run_some _ _ _ (at_slot fs p j sl, None) (Machine i1 m c)).
  2:{ unfold count_fixed. rewrite (field_at_iter fs p j sl Hj). case_decide as Hd; [|done]. assert (size_is_data (at_slot fs p j sl) = false) as ->; [|done]. unfold size_is_data. apply bool_decide_eq_false. cbn. intros [= E].
      rewrite (slot_size_offset _ _ _ Hj) in E by (by rewrite Hd). apply (Hct ltac:(by rewrite Hd)). lia. }
  rewrite (see_next fs p j sl (small id) Hj). rewrite (run_some _ _ _ (at_slot fs p j sl) (Machine i2 (poke p img1 m) c)); [done|].
  unfold decode_field. rewrite (field_at_iter fs p j sl Hj), decide_False by (by destruct Hh as [E|[E|[E _]]]; rewrite E).
  rewrite (run_some _ _ _ (at_slot fs p j sl) (Machine i1 m c)) by done. rewrite (field_at_iter fs p j sl Hj), Hst. by rewrite (run_some _ _ _ tt (Machine i2 (poke p img1 m) c)).
Qed.
Lemma loop_end fuel j img : (length fs ≤ j)%nat → (0 < fuel)%nat → rest_decoded fuel j [] img img.
Proof using All.
  intros Hj Hf p i rest m c jj sl Hp Hjj Hi Hr. exists i, jj, sl. split_and!; [done|done|]. destruct fuel as [|fuel]; [lia|].
  cbn [decode_loop]. rewrite (run_some _ _ _ _ _ (eq_refl : run_get _ = _)). cbn [input]. rewrite (in_left _ _ _ Hi), (poke_same p img m Hr).
  change (zlen [] =? 0) with true. cbv iota. unfold required_before. by rewrite !take_ge by lia.
Qed.
Lemma loop_rest l : ∀ j img e fuel, drop j (slots fs) = l → all_followed (wire_of m0 a) l = Some (e, true) → zlen e < 2 ^ 32 → zlen e < Z.of_nat fuel → zlen img = struct_size id →
  (∀ k sl, (j ≤ k)%nat → slots fs !! k = Some sl → slot_fresh depth sl img) → (∀ k sl, slots fs !! k = Some sl → slot_terminated m0 depth sl a) →
  ∃ img', zlen img' = zlen img ∧ rest_decoded fuel j e img img' ∧ (∀ k sl, (k < j)%nat → slots fs !! k = Some sl → same_place sl img img') ∧
    ∀ m b, 0 < b → region b img' m → all_followed (wire_of m b) l = Some (e, true).
Proof using All.
  induction l as [|sl l IHl]; intros j img e fuel Hdrop E He Hf Hl Hinit Hterm; cbn [all_followed foldr] in E.
  - injection E as <-. exists img. split_and!; [done| |done|done]. apply loop_end; [|change (zlen []) with 0 in Hf; lia].
    pose proof (f_equal length Hdrop) as Hlen. rewrite length_drop, length_slots in Hlen. cbn in Hlen. lia.
  - assert (slots fs !! j = Some sl) as Hj by (rewrite <- (Nat.add_0_r j), <- lookup_drop, Hdrop; done).
    assert (drop (S j) (slots fs) = l) as Hdrop' by (rewrite <- Nat.add_1_r, <- drop_drop, Hdrop; done).
    destruct (wire_of m0 a sl) as [[e1 ok]|] eqn:E1; [|done]. destruct ok; cbn [followed] in E; [|done].
    fold (all_followed (wire_of m0 a) l) in E. destruct (all_followed _ l) as [[e2 ok]|] eqn:E2; [|done]. injection E as <- ->. rewrite zlen_app in He, Hf.
    pose proof (zlen_nonneg e1). pose proof (zlen_nonneg e2).
    destruct (field_taken m0 Hm0 stack decode decode_noinit depth IH id j sl Hj a img e1 Hl E1 Ha ltac:(lia) (Hterm j sl Hj) (Hinit j sl ltac:(lia) Hj)) as [(Hnr & -> & Hholds)|(w & v & img1 & -> & Hw & Hl1 & Htake & Hholds & Hdiff)].
    + destruct (IHl (S j) img e2 fuel Hdrop' eq_refl ltac:(lia) ltac:(lia) Hl) as (img' & Hl' & Hrest & Hsame & Hread); [intros; apply Hinit with k; [lia|done]|done|].
      exists img'. split_and!; [done| |intros k x Hk; apply Hsame; lia|].
      * intros p i rest m c jj sl0 Hp Hjj Hi Hr. destruct (Hrest p i rest m c jj sl0 Hp Hjj Hi Hr) as (i' & jj' & sl' & H1 & H2 & H3). exists i', jj', sl'. split_and!; [done|done|].
        rewrite (required_succ fs j _ (slots_field _ _ _ Hj)) in H3. unfold is_required in H3. rewrite bool_decide_false, Nat.add_0_r in H3 by done. exact H3.
      * intros m b Hb Hr. cbn [all_followed foldr]. fold (all_followed (wire_of m b) l). rewrite Hread by done.
        assert (zlen img' = struct_size id) as Hz by lia. destruct (place_regions id j sl img' b m Hj Hz Hr) as [R1 R2]. by rewrite (same_holds sl img img' [] m b (Hsame j sl ltac:(lia) Hj) ltac:(lia) Hholds Hb R1 R2).
    + destruct fuel as [|fuel]; [lia|]. assert (1 ≤ zlen (tag_of w (tag (sl_field sl)) ++ v)) as Hpos.
      { rewrite zlen_app. pose proof (zlen_varint_pos _ (digits_nonempty 9 (tag (sl_field sl) * 8 + wire_number w))). pose proof (zlen_nonneg v). unfold tag_of, varint_of. lia. }
      destruct (IHl (S j) img1 e2 fuel Hdrop' eq_refl ltac:(lia) ltac:(lia) ltac:(lia)) as (img' & Hl' & Hrest & Hsame & Hread).
      { intros k x Hk Hx. apply (same_fresh id depth k x img img1 Hx); [apply (other_same id j k sl); [done|done|lia|done]|by apply (Hinit k); [lia|]]. }
      { done. }
      exists img'. split_and!; [lia| | |].
      * intros p i rest m c jj sl0 Hp Hjj Hi Hr.
        destruct (loop_step fuel j sl p i _ e2 rest img img1 m c jj sl0 w v Hj Hjj Hp eq_refl Hw Hi Hr (Htake p Hp)) as (i1 & Hi1 & Eloop). rewrite Eloop.
        destruct (Hrest p i1 rest (poke p img1 m) c j sl Hp Hj Hi1 (region_poke _ _ _)) as (i' & jj' & sl' & H1 & H2 & H3). exists i', jj', sl'. split_and!; [done|done|].
        rewrite H3. by rewrite poke_poke by lia.
      * intros k x Hk Hx. destruct (Hsame k x ltac:(lia) Hx) as [S1 S2]. destruct (other_same id j k sl x img img1 Hj Hx ltac:(lia) Hdiff) as [D1 D2]. split; congruence.
      * intros m b Hb Hr. cbn [all_followed foldr]. fold (all_followed (wire_of m b) l). rewrite Hread by done.
        assert (zlen img' = struct_size id) as Hz by lia. destruct (place_regions id j sl img' b m Hj Hz Hr) as [R1 R2]. by rewrite (same_holds sl img1 img' _ m b (Hsame j sl ltac:(lia) Hj) ltac:(lia) Hholds Hb R1 R2).
Qed.
Lemma message_taken e old : all_followed (wire_of m0 a) (slots fs) = Some (e, true) → zlen e < 2 ^ 32 → zlen old = struct_size id → initialised (S depth) id old → terminated m0 (S depth) id a →
  ∃ new, (∀ p, 0 < p → fills (decode_message stack decode decode_noinit fs p) e p old new) ∧
    ∀ m b, 0 < b → region b new m → all_followed (wire_of m b) (slots fs) = Some (e, true).
Proof using All.
  intros E He Hl Hinit Hterm. destruct (slots fs) as [|sl0 l] eqn:Es.
  { injection E as <-. exists old. split; [|done]. intros p Hp. split; [done|]. intros i rest m c Hi Hr. exists i. split; [|done].
    assert (fs = []) as Efs by (rewrite <- (slots_are_fields fs), Es; done). unfold decode_message. rewrite (run_some _ _ _ _ _ (eq_refl : run_get _ = _)). cbn [input].
    rewrite (in_left _ _ _ Hi), (iter_begin_exact fs p (table_is_ok id) ltac:(lia)), Es, Efs. cbn [snd]. change (Z.to_nat (zlen [])) with O. cbn [decode_loop].
    rewrite (run_some _ _ _ (Progress (Iter [] 0 0 p p (In_message p)) 0 None [0; 0]) (Machine i m c)).
    2:{ rewrite (run_some _ _ _ _ _ (eq_refl : run_get _ = _)). cbn [input]. rewrite (in_left _ _ _ Hi). done. }
    rewrite (run_some _ _ _ _ _ (eq_refl : run_get _ = _)). cbn. by rewrite (poke_same p old m Hr). }
  rewrite <- Es in E |- *. destruct (loop_rest (slots fs) 0 old e (S (Z.to_nat (zlen e))) eq_refl E He ltac:(lia) Hl) as (new & Hl' & Hrest & _ & Hread).
  { intros k sl _ Hk. exact (Hinit k sl Hk). } { intros k sl Hk. exact (Hterm k sl Hk). }
  exists new. split; [|exact Hread]. intros p Hp. split; [done|]. intros i rest m c Hi Hr. unfold decode_message.
  rewrite (run_some _ _ _ _ _ (eq_refl : run_get _ = _)). cbn [input]. rewrite (in_left _ _ _ Hi).
  rewrite (iter_begin_exact fs p (table_is_ok id) ltac:(lia)), Es. cbn [snd]. assert (slots fs !! 0%nat = Some sl0) as H0 by (by rewrite Es).
  destruct (Hrest p i rest m c 0%nat sl0 Hp H0 Hi Hr) as (i' & jj & sl & Hjj & Hi' & Erun). exists i'. split; [|done].
  change [0; 0] with (marks (required_before fs 0)). rewrite (run_some _ _ _ _ _ Erun). rewrite (run_some _ _ _ _ _ (eq_refl : run_get _ = _)). cbn [p_fixed p_iter p_seen wrong_fixed_count].
  rewrite nothing_missing; [done|]. cbn [start at_slot]. apply (count_required_exact fs p (small id) (table_is_ok id) ltac:(lia) (drop (S jj) (slots fs))).
  - by apply drop_S.
  - rewrite length_drop, length_slots. lia.
Qed.
End Loop.

(** ** Nested messages *)

Section Nested.
Context {Y : Type} {source : Source Y} {source_ok : SourceOk Y} {tables : Tables} {layout : Layout} {fit : TablesFit} {static : StaticTables} {small : TablesSmall}.
Context {extensions : Extensions} {entries : EntriesOk} {callbacks : Callbacks} {alloc : Allocator} {user : UserWire}.
Lemma reread m0 depth : memory_ok m0 → ∀ stack, (depth ≤ stack)%nat → reread_ok (Y := Y) m0 (pb_decode_noinit stack) depth.
Proof using All.
  intros Hm0. induction depth as [|depth IH]; intros stack Hs id a e old Ha E Hterm Hinit Hl He; [done|]. destruct stack as [|stack]; [lia|].
  cbn [message_wire] in E. rewrite (proj2 (Z.eqb_neq a 0)) in E by lia.
  destruct (message_taken m0 Hm0 stack (decode_init stack (pb_decode_noinit stack)) (pb_decode_noinit stack) depth (IH stack ltac:(lia)) id a Ha e old E He Hl Hinit Hterm) as (new & Hfill & Hread).
  exists new. split.
  - intros p Hp. destruct (Hfill p Hp) as [Hz Hrun]. split; [done|]. intros i rest m c Hi Hr. destruct (Hrun i rest m 0 Hi Hr) as (i' & Erun & Hi'). exists i'. split; [|done].
    cbn [pb_decode_noinit]. unfold with_count. cbn [input mem]. by rewrite Erun.
  - intros m b Hb Hr. cbn [message_wire]. rewrite (proj2 (Z.eqb_neq b 0)) by lia. by apply Hread.
Qed.

(** ** Initial values *)

Definition message_reset (set_message : pb_fields → Z → run (machine Y) unit) (bound : nat) : Prop := ∀ id old, (nesting id < bound)%nat → zlen old = struct_size id →
  ∃ new, (∀ p, 0 < p → takes (set_message (fields_of id) p) [] p old new) ∧ ∀ n, initialised n id new.
Section Field.
Context (id : Z) (j : nat) (sl : slot).
Hypothesis Hj : slots (fields_of id) !! j = Some sl.
Context (set_message : pb_fields → Z → run (machine Y) unit).
Hypothesis Hset : message_reset set_message (nesting id).
Abbreviation f := (sl_field sl).
Abbreviation it p := (at_slot (fields_of id) p j sl).

Lemma static_data_taken img : zlen img = struct_size id → htype sl ≠ PB_HTYPE_REPEATED → ∃ new, zlen new = data_size f ∧
  (∀ p, 0 < p → takes (set_static_data set_message (it p)) [] p img (put (sl_data sl) new img)) ∧
  match ltype_of sl, ptr f with PB_LTYPE_SUBMESSAGE, Submsg sub => ∀ n, initialised n sub new | _, _ => True end.
Proof using fit static Hj Hset source_ok.
  intros Hl Hh. destruct (static_slots id j sl Hj) as [Hst _ _ _]. destruct (slot_fits id j sl Hj) as [_ _ Hval Hds _ Hd _ _ Hdef Hin _ _ _].
  specialize (Hdef Hst). specialize (Hin Hst). rewrite (data_bytes_single sl Hst Hh) in Hd. pose proof (value_size _ Hval).
  assert (∀ bs, zlen bs = data_size f → ∀ p, 0 < p → takes (store_at (pData (it p)) bs) [] p img (put (sl_data sl) bs img)) as Hstore
    by (intros bs Hbs p _; apply takes_store; lia).
  unfold set_static_data. destruct (decide (ltype_of sl = PB_LTYPE_SUBMESSAGE)) as [Et|Et].
  - unfold value_fits in Hval. unfold inner_fits in Hin. rewrite Et in *. destruct (ptr f) as [|sub|] eqn:Ep; [done| |done]. destruct Hin as [Hn _].
    destruct (Hset sub (slice (sl_data sl) (data_size f) img) Hn) as (new & Htake & Hinit); [rewrite zlen_slice; lia|].
    exists new. assert (zlen new = data_size f) as Hz by (destruct (Htake 1 ltac:(lia)) as [Hz _]; rewrite zlen_slice in Hz; lia).
    split_and!; [done| |done]. intros p Hp. rewrite (field_at_iter _ p j sl Hj), decide_True, Ep by done.
    apply (takes_part _ _ _ _ (data_size f)); [lia|lia|lia|]. apply Htake. cbn. lia.
  - assert ((∀ value, ptr f = Default value → data_size f ≤ zlen value) ∧ (∀ sub, ptr f ≠ Submsg sub)) as [Hd1 Hd2].
    { unfold default_fits in Hdef. destruct (ltype_of sl), (ptr f); try done; split; intros; simplify_eq; done. }
    clear Hval Hin Hdef. destruct (ptr f) as [|sub|value] eqn:Ep; [|by destruct (Hd2 sub)|].
    + assert (zlen (replicate (Z.to_nat (data_size f)) 0) = data_size f) as Hbs by (unfold zlen; rewrite length_replicate; lia).
      exists (replicate (Z.to_nat (data_size f)) 0). split_and!; [done| |by destruct (ltype_of sl)]. intros p Hp. rewrite (field_at_iter _ p j sl Hj), decide_False, Ep by done. by apply Hstore.
    + specialize (Hd1 value eq_refl). assert (zlen (take (Z.to_nat (data_size f)) value) = data_size f) as Hbs by (unfold zlen in *; rewrite length_take; lia).
      exists (take (Z.to_nat (data_size f)) value). split_and!; [done| |by destruct (ltype_of sl)]. intros p Hp. rewrite (field_at_iter _ p j sl Hj), decide_False, Ep by done.
      rewrite (proj2 (Z.ltb_ge _ _)) by (exact Hd1). by apply Hstore.
Qed.
Lemma field_reset set_extension chain img : zlen img = struct_size id →
  ∃ new, (∀ p, 0 < p → takes (set_field_to_default set_extension set_message chain (it p)) [] p img new) ∧ differs_at sl img new ∧ ∀ n, slot_fresh n sl new.
Proof using fit static Hj Hset source_ok.
  intros Hl. destruct (static_slots id j sl Hj) as [Hst Hty Hh Hct]. destruct (slot_fits id j sl Hj) as [_ _ Hval Hds _ Hd Hc Hap _ _ _ _ _]. pose proof (value_size _ Hval).
  assert (ltype_of sl ≠ PB_LTYPE_EXTENSION) as Hne by (intros E; unfold static_value in Hty; by rewrite E in Hty).
  assert (htype sl ≠ PB_HTYPE_REQUIRED → sl_size sl ≠ sl_data sl) as Hapart.
  { intros Hr. specialize (Hct Hr). rewrite (slot_size_offset _ _ _ Hj); [lia|]. by destruct Hh as [E|[E|[E _]]]; rewrite E. }
  unfold set_field_to_default. destruct Hh as [Eh|[Eh|[Eh Hp]]].
  - destruct (static_data_taken img Hl ltac:(by rewrite Eh)) as (new & Hz & Htake & Hinit). rewrite (data_bytes_single sl Hst ltac:(by rewrite Eh)) in *.
    exists (put (sl_data sl) new img). split_and!.
    + intros p Hpos. rewrite (field_at_iter _ p j sl Hj), decide_False, Hst, Eh by done. by apply Htake.
    + apply differs_put; [lia|lia|left; rewrite (data_bytes_single sl Hst ltac:(by rewrite Eh)); unfold within; lia].
    + intros n. unfold slot_fresh. rewrite Eh. split_and!; [done|done|]. rewrite <- Hz, slice_put by lia. destruct (ltype_of sl); try done. by destruct (ptr f).
  - destruct (Hc) as [Hc'|Hc']; [unfold count_bytes in Hc'; rewrite Eh, decide_True in Hc' by (split; [done|apply Hapart; by rewrite Eh]); lia|].
    assert (count_bytes sl = 1) as Hcb by (unfold count_bytes; rewrite Eh, decide_True by (split; [done|apply Hapart; by rewrite Eh]); done).
    rewrite Hcb in *. rewrite (data_bytes_single sl Hst ltac:(by rewrite Eh)) in *. unfold apart in Hap. assert (zlen [0] = 1) as H1 by done.
    set (img1 := put (sl_size sl) [0] img). assert (zlen img1 = zlen img) as Hl1 by (apply zlen_put; lia).
    destruct (static_data_taken img1 ltac:(lia) ltac:(by rewrite Eh)) as (new & Hz & Htake & Hinit). exists (put (sl_data sl) new img1). split_and!.
    + intros p Hpos. rewrite (field_at_iter _ p j sl Hj), decide_False, Hst, Eh by done.
      assert (size_is_data (it p) = false) as -> by (apply bool_decide_eq_false; cbn; intros [= E]; apply Hapart; [by rewrite Eh|lia]).
      apply (takes_seq _ _ [] [] _ _ img1); [|by apply Htake]. cbn [pSize at_slot store_flag]. apply takes_store; lia.
    + eapply differs_trans; [apply (differs_put sl (sl_size sl) [0]); [lia|lia|right; unfold within; lia]|].
      apply differs_put; [lia|lia|left; rewrite (data_bytes_single sl Hst ltac:(by rewrite Eh)); unfold within; lia].
    + intros n. unfold slot_fresh. rewrite Eh. split_and!; [|done|].
      * intros _. rewrite slice_put_disjoint by lia. apply (slice_put (sl_size sl) [0]); lia.
      * rewrite <- Hz, slice_put by lia. destruct (ltype_of sl); try done. by destruct (ptr f).
  - assert (count_bytes sl = 4) as Hcb by (unfold count_bytes; rewrite Eh, decide_False; [done|intros [_ E]; by apply Hapart; [rewrite Eh|]]).
    rewrite Hcb in *. destruct Hc as [Hc|Hc]; [lia|]. exists (put (sl_size sl) (le_bytes 4 0) img). split_and!.
    + intros p Hpos. rewrite (field_at_iter _ p j sl Hj), decide_False, Hst, Eh by done. cbn [pSize at_slot store_size]. apply takes_store; rewrite ?zlen_4; lia.
    + apply differs_put; rewrite ?zlen_4; [lia|lia|right; rewrite Hcb; unfold within; lia].
    + intros n. unfold slot_fresh. rewrite Eh. split_and!; [done| |destruct (ltype_of sl); done].
      intros _. rewrite <- (zlen_4 0) at 1. apply slice_put; rewrite ?zlen_4; lia.
Qed.
End Field.
Lemma visit_reset id (g : pb_field_iter → run (machine Y) unit) l : ∀ j img, drop j (slots (fields_of id)) = l → zlen img = struct_size id →
  (∀ k sl img, slots (fields_of id) !! k = Some sl → zlen img = struct_size id →
    ∃ new, (∀ p, 0 < p → takes (g (at_slot (fields_of id) p k sl)) [] p img new) ∧ differs_at sl img new ∧ ∀ n, slot_fresh n sl new) →
  ∃ new, zlen new = zlen img ∧ (∀ p, 0 < p → takes (visit g (fields_of id) p j l) [] p img new) ∧
    (∀ k sl, (k < j)%nat → slots (fields_of id) !! k = Some sl → same_place sl img new) ∧
    ∀ k sl n, (j ≤ k)%nat → slots (fields_of id) !! k = Some sl → slot_fresh n sl new.
Proof using fit static source_ok.
  induction l as [|sl l IHl]; intros j img Hdrop Hl Hg.
  - exists img. split_and!; [done|intros; apply takes_ret|done|]. intros k sl n Hk E. apply lookup_lt_Some in E.
    pose proof (f_equal length Hdrop) as Hlen. rewrite length_drop in Hlen. cbn in Hlen. lia.
  - assert (slots (fields_of id) !! j = Some sl) as Hj by (rewrite <- (Nat.add_0_r j), <- lookup_drop, Hdrop; done).
    destruct (Hg j sl img Hj Hl) as (img1 & Htake & Hdiff & Hf). pose proof (proj1 Hdiff) as Hl1.
    destruct (IHl (S j) img1) as (new & Hl' & Htake' & Hsame & Hfresh); [by rewrite <- Nat.add_1_r, <- drop_drop, Hdrop|lia|done|].
    exists new. split_and!; [lia| | |].
    + intros p Hp. cbn [visit]. apply (takes_seq _ _ [] [] _ _ img1); [by apply Htake|by apply Htake'].
    + intros k x Hk Hx. destruct (Hsame k x ltac:(lia) Hx) as [S1 S2]. assert (j ≠ k) as Hn by lia. destruct (other_same id j k sl x img img1 Hj Hx Hn Hdiff) as [D1 D2]. split; congruence.
    + intros k x n Hk Hx. destruct (decide (k = j)) as [->|Hn]; [|apply (Hfresh k); [lia|done]]. simplify_eq. apply (same_fresh id n j sl img1 new Hj); [|done]. apply (Hsame j); [lia|done].
Qed.
Lemma defaults_taken stack : message_reset (pb_message_set_to_defaults stack) (Nat.div2 stack).
Proof using fit static source_ok.
  induction stack as [stack IH] using lt_wf_ind. intros id old Hn Hl. destruct stack as [|stack]; [cbn in Hn; lia|]. cbn [pb_message_set_to_defaults].
  destruct (visit_reset id (pb_field_set_to_default stack) (slots (fields_of id)) 0 old eq_refl Hl) as (new & Hl' & Htake & _ & Hfresh).
  { intros k sl img Hk Hli. destruct stack as [|stack]; [cbn in Hn; lia|]. cbn [pb_field_set_to_default]. apply field_reset; [done| |done].
    intros sub img2 Hsub. apply (IH stack); [lia|]. cbn [Nat.div2] in Hn. lia. }
  exists new. split.
  - intros p Hp. rewrite (iter_begin_exact (fields_of id) p (table_is_ok id)) by lia. specialize (Htake p Hp). destruct (slots (fields_of id)) as [|sl l] eqn:Es.
    + exact Htake.
    + eapply takes_ext; [|exact Htake]. intros s. symmetry. rewrite <- Es. apply (for_fields_exact (fields_of id) p (table_is_ok id) ltac:(lia) _ sl l s Es).
  - intros [|n]; [done|]. intros j sl Hj. apply (Hfresh j sl n); [lia|done].
Qed.
End Nested.

(** C3. A message that was encoded is decoded into any structure of its type: the decoder takes exactly the
    bytes of the message, changes nothing but the structure, and the structure then encodes to the same
    bytes, wherever it lies.  The tables have static fields: required and optional scalars, strings, bytes
    and nested messages, and packed arrays; strings end within their arrays. *)
Theorem pb_message_roundtrip {X Y} {sink : Sink X} {sink_ok : SinkOk X} {source : Source Y} {source_ok : SourceOk Y} {tables : Tables} {layout : Layout}
    {fit : TablesFit} {static : StaticTables} {small : TablesSmall} {extensions : Extensions} {encoders : Encoders X} {user : UserWire} {entries : EntriesOk}
    {user_ok : EncodersOk X} {callbacks : Callbacks} {alloc : Allocator}
    (m0 m : memory) (depth stack : nat) (id src p c : Z) (bs rest old : bytes) (i : pb_istream Y) :
  memory_ok m0 → 0 < src → terminated m0 depth id src → message_wire m0 depth (fields_of id) src = plain bs → zlen bs < 2 ^ 32 →
  (depth ≤ stack)%nat → (nesting id < Nat.div2 stack)%nat → in_ok i bs rest → 0 < p → region p old m → zlen old = struct_size id →
  emits (X := X) (pb_encode m0 depth (fields_of id) src) (plain bs) ∧
  ∃ i' new, pb_decode stack (fields_of id) p (Machine i m c) = Some (Some tt, Machine i' (poke p new m) c) ∧ in_ok i' [] rest ∧ zlen new = struct_size id ∧
    ∀ m' b, 0 < b → memory_ok m' → region b new m' → emits (X := X) (pb_encode m' depth (fields_of id) b) (plain bs).
Proof.
  intros Hm0 Hs Hterm E Hb Hd Hn Hi Hp Hr Hl. split; [rewrite <- E; by apply emits_message|].
  destruct (defaults_taken (Y := Y) stack id old Hn Hl) as (img & Htake & Hinit). destruct (Htake p Hp) as [Hl1 Hrun].
  destruct (Hrun i bs rest m c Hi Hr) as (i1 & E1 & Hi1).
  assert (zlen img = struct_size id) as Hz by lia.
  destruct (reread (Y := Y) m0 depth Hm0 stack Hd id src bs img Hs E Hterm (Hinit depth) Hz Hb) as (new & Hfill & Hread).
  destruct (Hfill p Hp) as [Hl2 Hrun2]. destruct (Hrun2 i1 rest (poke p img m) c Hi1 (region_poke _ _ _)) as (i2 & E2 & Hi2).
  exists i2, new. split_and!; [|done|lia|].
  - unfold pb_decode, decode_init. rewrite (run_some _ _ _ _ _ E1). rewrite (run_some _ _ _ true (Machine i2 (poke p new m) c)); [done|].
    unfold run_status. rewrite E2. by rewrite poke_poke by lia.
  - intros m' b Hpos Hm' Hreg. change (emits (X := X) (pb_encode m' depth (fields_of id) b) (Some (bs, true))). rewrite <- (Hread m' b Hpos Hreg). by apply emits_message.
Qed.

(** ** An example *)

(** [struct Place { uint32_t x; bool has_label; char label[4]; }], of 12 bytes, and
    [struct Route { Place start; pb_size_t steps_count; int32_t steps[3]; bool has_data; struct { pb_size_t size; uint8_t bytes[4]; } data; }],
    of 40. *)
Definition route_tables : Tables := λ id,
  if id =? 1 then [Field 1 0x02 0 0 4 0 Null; Field 2 0x17 1 (-1) 4 0 Null]
  else if id =? 2 then [Field 1 0x08 0 0 12 0 (Submsg 1); Field 2 0x23 4 (-4) 4 3 Null; Field 3 0x16 4 (-4) 8 0 Null] else [].
Definition route_layout : Layout := {|
  struct_size id := if id =? 1 then 12 else if id =? 2 then 40 else 1; nesting id := if id =? 2 then 1%nat else O; pointer_free id := false |}.
#[local] Existing Instances route_tables route_layout example_allocator.
#[local] Instance route_extensions : Extensions := λ _, Extension_type 0 0 (Field 1 0 0 0 1 0 Null).
#[local] Instance route_callbacks : Callbacks := {| user_decode _ _ _ _ _ := run_fail; user_decode_extension _ _ _ _ _ _ := run_fail |}.
#[local] Instance route_encoders : Encoders (bytes * Z) := {| user_encode _ _ _ _ := run_fail; user_encode_extension _ _ _ := run_fail |}.
#[local] Instance route_user_wire : UserWire := {| callback_wire _ _ _ _ := None; extension_wire _ _ _ := None |}.
#[local] Instance route_encoders_ok : EncodersOk (bytes * Z).
Proof. by split. Qed.
Lemma route_cases (P : Z → Prop) : P 1 → P 2 → (∀ id, fields_of id = [] → struct_size id = 1 → P id) → ∀ id, P id.
Proof.
  intros H1 H2 H id. destruct (Z.eqb_spec id 1) as [->|N1]; [done|]. destruct (Z.eqb_spec id 2) as [->|N2]; [done|]. apply Z.eqb_neq in N1, N2.
  apply H; cbn; unfold fields_of, route_tables; by rewrite N1, N2.
Qed.
Lemma place_fits_table : table_fits 1.
Proof. fits_table. Qed.
Lemma route_fits_table : table_fits 2.
Proof. fits_table. Qed.
#[local] Instance route_fits : TablesFit.
Proof.
  unfold TablesFit. apply (route_cases table_fits); [apply place_fits_table|apply route_fits_table|]. intros id E Es.
  split; [rewrite Es; lia|rewrite E; constructor|rewrite E; done|rewrite E; constructor].
Qed.
#[local] Instance route_entries : EntriesOk.
Proof.
  split; [|by constructor]. apply (route_cases (λ id, Forall entry_ok (fields_of id))); [repeat constructor; cbn; lia..|].
  intros id E _. rewrite E. constructor.
Qed.
#[local] Instance route_static : StaticTables.
Proof.
  unfold StaticTables. apply (route_cases (λ id, ∀ j sl, slots (fields_of id) !! j = Some sl → static_slot sl)); [..|intros id E _ j sl; by rewrite E].
  all: intros [|[|[|j]]] sl Hj; cbn in Hj; simplify_eq; constructor; by_compute.
Qed.
#[local] Instance route_small : TablesSmall.
Proof. unfold TablesSmall. apply (route_cases (λ id, zlen (fields_of id) < 2 ^ 32)); [done|done|]. intros id E _. by rewrite E. Qed.
(** [{start: {x: 300, label: "hi"}, steps: [-1, 2], data: [9, 8]}]; the decoder's structure holds junk. *)
Definition route_image : bytes := [0x2C; 1; 0; 0; 1; 0x68; 0x69; 0; 0; 0xAA; 0xAA; 0xAA; 2; 0; 0; 0; 0xFF; 0xFF; 0xFF; 0xFF; 2; 0; 0; 0; 0xAA; 0xAA; 0xAA; 0xAA;
  1; 0xAA; 0xAA; 0xAA; 2; 0; 0; 0; 9; 8; 0xAA; 0xAA].
Definition route_memory : memory := Memory (map_seqZ 4096 route_image) ∅.
Definition route_wire : bytes := [0x0A; 0x07; 0x08; 0xAC; 0x02; 0x12; 0x02; 0x68; 0x69; 0x12; 0x02; 0x01; 0x04; 0x1A; 0x02; 0x09; 0x08].
Definition route_start : memory := poke 8192 (replicate 40 0xAA) (Memory ∅ ∅).
Lemma route_memory_ok : memory_ok route_memory.
Proof. apply map_Forall_to_list. vm_compute. repeat constructor; discriminate. Qed.
Lemma route_terminated : terminated route_memory 3 2 4096.
Proof. intros [|[|[|j]]] sl Hj; cbn in Hj; simplify_eq; cbn; try done. intros [|[|j]] sl Hj; cbn in Hj; simplify_eq; cbn; [done|]. intros s. vm_compute. by intros [= <-]. Qed.
Lemma route_message : message_wire route_memory 3 (fields_of 2) 4096 = plain route_wire.
Proof. by vm_compute. Qed.
Lemma pb_message_roundtrip_witness : message_wire route_memory 3 (fields_of 2) 4096 = plain route_wire ∧
  ∃ i' new, pb_decode 4 (fields_of 2) 8192 (Machine (pb_istream_from_buffer (route_wire ++ [7]) 17) route_start 0) = Some (Some tt, Machine i' (poke 8192 new route_start) 0) ∧
    in_ok i' [] [7] ∧ ∀ m' b, 0 < b → memory_ok m' → region b new m' → emits (X := bytes * Z) (pb_encode m' 3 (fields_of 2) b) (plain route_wire).
Proof.
  split; [exact route_message|]. destruct (pb_message_roundtrip (X := bytes * Z) route_memory route_start 3 4 2 4096 8192 0 route_wire [7] (replicate 40 0xAA)
    (pb_istream_from_buffer (route_wire ++ [7]) 17)) as [_ (i' & new & E & Hi & _ & H)].
  - exact route_memory_ok.
  - done.
  - exact route_terminated.
  - exact route_message.
  - done.
  - lia.
  - cbn. lia.
  - apply (buffer_in_ok route_wire [7]). unfold route_wire. repeat constructor; lia.
  - done.
  - apply region_poke.
  - done.
  - exists i', new. exact (conj E (conj Hi H)).
Defined.
